(* ===== verification/_CoqProject ===== *)
-Q . S2P
Prelude.v
StdString.v
StringView.v
StrUtil.v
Status.v
StatusMem.v
Buffer.v
Fs.v
FormData.v
Url.v
HttpMsg.v
RequestParser.v
ServeMux.v
HttpServer.v
HttpClient.v
FmtBuffer.v
FmtNum.v
FmtSpec.v
FmtUtf8.v
FmtEscape.v
FmtWrite.v
Fmt.v
FmtCheck.v
Log.v
IoContext.v
Timestamp.v
Args.v
ArgsHelp.v
Plugin.v
Env.v
JsonValue.v
JsonDump.v
JsonPointer.v
JsonPatch.v
JsonFloat.v
FloatRound.v
TimeDiff.v
Grisu.v
JsonParse.v
JsonDouble.v
Json.v
JsonBinary.v
Cbor.v
MsgPack.v
Bson.v
BusMsg.v
Bus.v
Tcp.v
ChatRoom.v
TcpClient.v
Sys.v
Addr.v
Html.v
Todo.v
TodoWeb.v
