(* ===== verification/Prelude.v ===== *)
(** * A verification library for cppboot

    cppboot (src/cppboot) is a C++11 toolkit: base utilities, a small network stack with
    HTTP, a message bus, plugins, a command line parser, and the example programs in
    src/examples.  This development translates the code into executable definitions and
    proves what each part promises, alone and together with the parts it calls.

    ** How to read it

    A C++ function is a Rocq function of the same name.  A byte is an [ascii], a string a
    list of them ([bytes]); machine integers are [Z] with the wrap-around of their width
    written out ([u32], [u64], [i32], [int_result]).  A call yields an [outcome]: a value
    ([Ret]), an exception ([Throw]), the death of the process ([Crash]: a failed assert, an
    exception that leaves a [noexcept] function or a destructor), undefined behaviour
    ([Undef]) or, in the model only, a loop that was cut off ([OutOfFuel]).  Undefined
    behaviour is a value of the model and not an assumption: a theorem that a function
    returns says that there is none.  Mutable objects are passed in and out; where the code
    shares an object (the blocks of [Status], the counts of [ObjectEnv], the [Result]s of the
    bus, the connections of a server) there is a store, and pointers are keys.  Completion
    handlers and commands are the steps of a relation or of a run over a list of events.

    Each file has the data and operations first, then the specifications, then lemmas, and
    its theorems under "Properties".  A theorem with hypotheses is followed by a witness that
    applies it to concrete data.

    ** The files

    Base.
    - [Prelude]: outcomes and their tactics ([outcome_inv], [case_test], [bool_hyps]), bytes,
      integers, decimal numerals.  [StdString]: the parts of the standard library the code
      calls ([std::string], C strings, [std::map] in key order, [stoll]).
    - [StringView], [StrUtil]: base/string_view.*, base/str_util.*.
    - [Status]: base/status.* as values.  [StatusMem]: the same classes on heap blocks, and
      the theorem that these implement the values.
    - [Fs]: base/fs.*, over a class [FileSystem] of system calls.  [Sys]: base/sys.*.
    - [Timestamp]: base/timestamp.*.  [Log]: base/log.* and plugins/hello.
    - The formatting library, base/internal/fmt (core.h, format.h, format-inl.h) and
      base/fmt.h: [FmtBuffer] (output buffers), [FmtNum] (numerals), [FmtSpec] (specifiers and
      the parse context), [FmtUtf8] (code points), [FmtEscape] (printable characters and debug
      output), [FmtWrite] (arguments and writers), [Fmt] (format strings, [vformat_to], the
      formatters of the repository), [FmtCheck] (the check of a format string against types).
    - The JSON library, base/internal/json/json.hpp: [JsonValue], [JsonDump], [JsonParse], and
      [Json] with the theorems about both directions; [JsonPointer], [JsonPatch] with RFC 6901
      and RFC 6902 (and merge patches, RFC 7396); [JsonFloat] (the bits of floating point),
      [FloatRound] (rounding to the nearest double), [Grisu] (the digits of a double) and
      [JsonDouble] (its text, and how the lexer reads it); [JsonBinary] (what the binary formats
      share), [Cbor] and [MsgPack].

    Network.
    - [Buffer]: net/buffer.h and net/net2/buffer.h.  [Addr]: net/net2/addr.*.
    - [FormData], [Url], [HttpMsg], [RequestParser], [ServeMux], [HttpServer], [HttpClient]:
      net/http and net/http/server.
    - [Tcp], [TcpClient]: net/tcp.  [IoContext]: net/io.
    - [Html]: net/html.

    Above them.
    - [Args], [ArgsHelp]: adv/args.*.  [Env]: adv/env.*, adv/object.h.  [Plugin]:
      adv/plugin*.*, plugins/debugger.  [BusMsg], [Bus]: adv/bus.
    - [Todo], [TodoWeb]: examples/todo.  [ChatRoom]: examples/chat_room.

    ** Interfaces

    [Fs.FileSystem] is the class of system calls; laws that a theorem needs are named
    hypotheses about it.  [JsonParse.float_text] is what the parser relies on of the characters
    of a double, which [JsonDouble] provides.  [Plugin] proves the manager against a class of loaders with laws, and
    [DllLoader] is an instance.  [Fmt.Handler] is what the parser of format strings calls: the
    formatter and the checker are two instances, the two loops of the parser are compared for
    every instance that has [HandlerLaws].  [Todo] has a repository as a record of operations with
    laws, which the repository in a file meets.  What asio does (which pending operation
    completes, when, and with which error) is left open by the enabledness of events.

    ** What is shown

    - Data in and out: requests, responses, form data, URLs, bus frames, JSON texts, HTML
      pages, command lines and format strings read back what was written, whatever the pieces
      they arrive in ([Request_roundtrip], [parse_chunks], [Response_received],
      [bus_frame_received], [json_roundtrip], [document_read_back], [format_roundtrip], ...).
    - Floating point: the Grisu2 printer fails none of its assertions on any finite double, and
      correct rounding of its digits gives the double again ([to_chars_roundtrip]); so JSON texts
      keep every double ([json_roundtrip], [json_parse_total]).
    - Binary JSON: CBOR and MessagePack read back what they wrote, floating point included, and
      end on every input ([cbor_roundtrip], [msgpack_roundtrip], [from_cbor_total]).
    - JSON documents: a patch computed by [diff] makes the target of the source
      ([diff_patches]), [unflatten] undoes [flatten], pointers and their strings correspond.
    - Refinement: the memory of [Status] implements values, the buffers a queue, the invoker a
      table of answered calls, the todo programs one list, the fast routines of the formatting
      library plain numerals and code points, the search members of [string_view] those of
      [std::string].
    - State machines under every order of events: each HTTP connection is answered once, what is
      sent over TCP arrives once and in order if sends do not overlap, every member of the chat
      room hears everything, posted functors run in order, plugins keep their dependencies.
    - Errors and totality: parsers end on every input with a value or one of their errors; a
      checked format string formats; what happens when a client is destroyed at the wrong time.
    - Compositions: a request of [HttpClient] through [HttpServer], [RequestParser] and
      [ServeMux] to a handler and back ([Do_served]); a call through client, server and provider
      of the bus ([rpc_round_trip]); a browser's request to the todo page ([todo_page]); the
      chat room on TCP, buffers, the log and the formatting library.

    Where the code does something else than it means to, the theorem says what it does, and the
    comment of the theorem or of a lemma beside it names the case.

    ** Fuel

    A [while] loop is a [Fixpoint] with fuel where the source gives no structural argument.  The
    definitions pass the bound themselves wherever a bound can be computed (the length of the input
    plus one for parsers, tokenizers and format strings, the number of bits or digits for
    numerals); a lemma shows that the bound is enough, and no theorem has [OutOfFuel] among its
    results.  [Fs.RemoveAll] and [Fs.CopyFile] take the fuel as an argument: the depth of the
    directory tree and the length of the file are enough.  [StrUtil.StrReplace] with an empty
    pattern does not end in the source; its theorem asks for a pattern that is not empty.

    ** Not modelled

    - Floating point in the formatting library, [TimeDifference] and [AddTime] of timestamps.
      [JsonDump] takes the characters of a double as a parameter ([JsonDouble.double_text] is the
      program's); [std::strtod] is the correctly rounded result, as the standard library documents.
    - Of the formatting library 128-bit integers, wide characters, packed arguments, and the
      headers the program does not use (chrono, ranges, printf, color, compile, std, ostream, os,
      xchar, args).  Of the JSON library the formats BSON and UBJSON, iterators, comments and
      callbacks, and what [get_unchecked] leaves behind when it throws half way.
    - asio, the operating system, the dynamic linker and the standard output, which are not the
      program's: parameters, or the choice of the next event.
    - Threads below a call: calls that take a mutex are one step; the places where the code
      shares data without its mutex are named ([IoContext.post_races] shows one).
    - The Windows branches of the #ifdefs, preprocessor macros, tests and mocks. *)

From Stdlib Require Export ZArith Lia Ascii.
From stdpp Require Export prelude strings gmap list sorting.

Declare Scope cpp_scope.
Delimit Scope cpp_scope with cpp.
Open Scope cpp_scope.
Open Scope Z_scope.

(** ** Automation databases

    [len] rewrites lengths, [cpp] holds the side conditions that recur in every
    component (character ranges, non-negativity). *)

Create HintDb cpp.
Create Rewrite HintDb len.

(** ** Outcomes

    A C++ call returns a value, throws, kills the process (a failed [assert], or
    an exception leaving a [noexcept] function), or has undefined behaviour.
    [OutOfFuel] is the model's own: a loop was cut off before it ended.  Every
    loop that ends is shown to return, so [OutOfFuel] is never its result. *)

Inductive exn : Set :=
  | out_of_range
  | invalid_argument
  | length_error
  | runtime_error
  | json_exception (id : Z).     (* nlohmann::json's, by their number *)

Inductive outcome (A : Type) : Type :=
  | Ret (x : A)
  | Throw (e : exn)
  | Crash
  | Undef
  | OutOfFuel.
Arguments Ret {A} x.
Arguments Throw {A} e.
Arguments Crash {A}.
Arguments Undef {A}.
Arguments OutOfFuel {A}.

#[export] Instance exn_eq_dec : EqDecision exn.
Proof. solve_decision. Defined.
#[export] Instance outcome_eq_dec {A} (HA : EqDecision A) : EqDecision (outcome A).
Proof. solve_decision. Defined.

#[export] Instance outcome_ret : MRet outcome := λ A x, Ret x.
#[export] Instance outcome_bind : MBind outcome := λ A B f m,
  match m with
  | Ret x => f x
  | Throw e => Throw e
  | Crash => Crash
  | Undef => Undef
  | OutOfFuel => OutOfFuel
  end.
#[export] Instance outcome_fmap : FMap outcome := λ A B f m,
  m ≫= λ x, Ret (f x).

(** [assert(b)], with assertions compiled in (the default build is Debug). *)
Definition cpp_assert (b : bool) : outcome unit := if b then Ret tt else Crash.

(** A [noexcept] function lets no exception out: the runtime terminates. *)
Definition noexcept {A} (m : outcome A) : outcome A :=
  match m with Throw _ => Crash | _ => m end.

(** A read or a library operation the language leaves undefined when it is
    out of its domain. *)
Definition or_undef {A} (o : option A) : outcome A :=
  match o with Some x => Ret x | None => Undef end.

Lemma bind_Ret {A B} (f : A → outcome B) (m : outcome A) (y : B) :
  m ≫= f = Ret y ↔ ∃ x, m = Ret x ∧ f x = Ret y.
Proof.
  destruct m; cbn; split; try naive_solver.
Qed.

Lemma cpp_assert_Ret b u : cpp_assert b = Ret u ↔ b = true.
Proof. destruct b, u; cbn; naive_solver. Qed.

Lemma or_undef_Ret {A} (o : option A) x : or_undef o = Ret x ↔ o = Some x.
Proof. destruct o; cbn; naive_solver. Qed.

(** Invert every bind of a computation known to have returned. *)
Ltac outcome_inv :=
  repeat match goal with
  | H : _ ≫= _ = Ret _ |- _ =>
      let x := fresh "x" in let Hx := fresh "Hx" in
      apply bind_Ret in H as (x & Hx & H)
  | H : cpp_assert _ = Ret _ |- _ => apply cpp_assert_Ret in H
  | H : or_undef _ = Ret _ |- _ => apply or_undef_Ret in H
  | H : Ret _ = Ret _ |- _ => injection H as H; subst
  | H : Throw _ = Ret _ |- _ => discriminate H
  | H : Crash = Ret _ |- _ => discriminate H
  | H : Undef = Ret _ |- _ => discriminate H
  | H : OutOfFuel = Ret _ |- _ => discriminate H
  end.

(** Split the goal or a hypothesis on every boolean test it is stuck on. *)
Ltac case_test :=
  match goal with
  | |- context [if ?b then _ else _] => let E := fresh "E" in destruct b eqn:E
  | H : context [if ?b then _ else _] |- _ =>
      let E := fresh "E" in destruct b eqn:E
  end.

(** Turn boolean tests on integers and booleans into propositions. *)
Ltac bool_hyps :=
  repeat match goal with
  | H : (_ =? _)%Z = true |- _ => apply Z.eqb_eq in H
  | H : (_ =? _)%Z = false |- _ => apply Z.eqb_neq in H
  | H : (_ <? _)%Z = true |- _ => apply Z.ltb_lt in H
  | H : (_ <? _)%Z = false |- _ => apply Z.ltb_ge in H
  | H : (_ <=? _)%Z = true |- _ => apply Z.leb_le in H
  | H : (_ <=? _)%Z = false |- _ => apply Z.leb_gt in H
  | H : (_ && _)%bool = true |- _ => apply andb_true_iff in H as [? ?]
  | H : (_ || _)%bool = false |- _ => apply orb_false_iff in H as [? ?]
  | H : negb _ = true |- _ => apply negb_true_iff in H
  | H : negb _ = false |- _ => apply negb_false_iff in H
  | H : bool_decide _ = true |- _ => apply bool_decide_eq_true in H
  | H : bool_decide _ = false |- _ => apply bool_decide_eq_false in H
  end.

Ltac split_tests := repeat (case_test; bool_hyps); try lia; try congruence.

(** A closed decidable proposition, by evaluation. *)
Ltac by_decide :=
  lazymatch goal with
  | |- ?P => refine (proj1 (bool_decide_eq_true P) _); vm_compute; reflexivity
  end.

(** ** Bytes and characters

    [char] is one byte; plain [char] is signed on the platforms the build files
    name, so a comparison of [char]s with a literal sees [schar]. *)

Abbreviation bytes := (list ascii).
Abbreviation len l := (Z.of_nat (length l)).

(** A string literal, without the terminating NUL. *)
Abbreviation bs s := (String.list_ascii_of_string s%string).

Definition NUL : ascii := ascii_of_N 0.
Definition CR : ascii := ascii_of_N 13.
Definition LF : ascii := ascii_of_N 10.
Definition HT : ascii := ascii_of_N 9.
Definition DQ : ascii := ascii_of_N 34.
Abbreviation SP := " "%char.
Abbreviation CRLF := [CR; LF].

Definition uchar (c : ascii) : Z := Z.of_N (N_of_ascii c).
Definition schar (c : ascii) : Z :=
  if uchar c <? 128 then uchar c else uchar c - 256.

(** The conversion of an integer to [char]: modulo 2^8. *)
Definition char_of (z : Z) : ascii := ascii_of_N (Z.to_N (z mod 256)).

Lemma uchar_range c : 0 <= uchar c < 256.
Proof. unfold uchar. pose proof (N_ascii_bounded c). lia. Qed.

Lemma uchar_inj c d : uchar c = uchar d → c = d.
Proof.
  unfold uchar. intros H%N2Z.inj.
  rewrite <-(ascii_N_embedding c), <-(ascii_N_embedding d). by rewrite H.
Qed.

Lemma char_of_uchar c : char_of (uchar c) = c.
Proof.
  pose proof (uchar_range c). unfold char_of.
  rewrite Z.mod_small by lia. unfold uchar.
  rewrite N2Z.id. apply ascii_N_embedding.
Qed.

Lemma uchar_char_of z : uchar (char_of z) = z mod 256.
Proof.
  unfold uchar, char_of. pose proof (Z.mod_pos_bound z 256 ltac:(lia)).
  rewrite N_ascii_embedding by lia. lia.
Qed.

Lemma schar_range c : -128 <= schar c < 128.
Proof. unfold schar. pose proof (uchar_range c). destruct (_ <? _) eqn:?; lia. Qed.

Lemma char_of_schar c : char_of (schar c) = c.
Proof.
  unfold schar. pose proof (uchar_range c). destruct (_ <? _) eqn:?.
  - apply char_of_uchar.
  - apply uchar_inj. rewrite uchar_char_of.
    symmetry. apply (Z.mod_unique_pos _ _ (-1)); lia.
Qed.

Lemma schar_inj c d : schar c = schar d → c = d.
Proof. intros H. by rewrite <-(char_of_schar c), <-(char_of_schar d), H. Qed.

#[export] Hint Resolve uchar_range schar_range : cpp.

(** Reason about all 256 characters at once. *)
Definition all_chars : list ascii := ascii_of_nat <$> seq 0 256.

Lemma elem_of_all_chars c : c ∈ all_chars.
Proof.
  unfold all_chars. apply list_elem_of_fmap. exists (nat_of_ascii c). split.
  - symmetry. apply ascii_nat_embedding.
  - apply elem_of_seq. pose proof (nat_ascii_bounded c). lia.
Qed.

Lemma forall_chars (P : ascii → bool) : forallb P all_chars = true → ∀ c, P c = true.
Proof.
  intros H c. rewrite forallb_forall in H. apply H.
  apply list_elem_of_In, elem_of_all_chars.
Qed.

(** ** Machine integers *)

Definition u64 (z : Z) : Z := z mod 2 ^ 64.
Definition u32 (z : Z) : Z := z mod 2 ^ 32.
Definition u16 (z : Z) : Z := z mod 2 ^ 16.
Definition i32 (z : Z) : Z := (z + 2 ^ 31) mod 2 ^ 32 - 2 ^ 31.
Definition INT_MAX : Z := 2 ^ 31 - 1.
Definition INT_MIN : Z := - 2 ^ 31.

(** Signed arithmetic that leaves the range of [int] is undefined. *)
Definition int_result (z : Z) : outcome Z :=
  if (INT_MIN <=? z) && (z <=? INT_MAX) then Ret z else Undef.

Lemma u64_small z : 0 <= z < 2 ^ 64 → u64 z = z.
Proof. apply Z.mod_small. Qed.
Lemma u32_small z : 0 <= z < 2 ^ 32 → u32 z = z.
Proof. apply Z.mod_small. Qed.
Lemma i32_small z : INT_MIN <= z <= INT_MAX → i32 z = z.
Proof. unfold i32, INT_MIN, INT_MAX. intros. rewrite Z.mod_small; lia. Qed.
Lemma int_result_Ret z : INT_MIN <= z <= INT_MAX → int_result z = Ret z.
Proof. unfold int_result. intros. destruct (_ && _) eqn:?; [done | lia]. Qed.

(** ** Little-endian words in memory *)

Definition le32 (n : Z) : bytes :=
  [char_of n; char_of (n / 2 ^ 8); char_of (n / 2 ^ 16); char_of (n / 2 ^ 24)].

(** [memcpy(&x, p, 4)] into a [uint32_t]. *)
Definition le32_get (p : bytes) : outcome Z :=
  match p with
  | b0 :: b1 :: b2 :: b3 :: _ =>
      Ret (uchar b0 + uchar b1 * 2 ^ 8 + uchar b2 * 2 ^ 16 + uchar b3 * 2 ^ 24)
  | _ => Undef
  end.

Lemma le32_get_le32 n rest : le32_get (le32 n ++ rest) = Ret (u32 n).
Proof.
  unfold le32, le32_get, u32. cbn [app]. f_equal. rewrite !uchar_char_of.
  change 256 with (2 ^ 8).
  rewrite <-(Z.shiftr_div_pow2 n 8), <-(Z.shiftr_div_pow2 n 16), <-(Z.shiftr_div_pow2 n 24) by lia.
  pose proof (Z.div_mod n (2 ^ 8)). pose proof (Z.div_mod n (2 ^ 16)).
  rewrite !Z.shiftr_div_pow2 by lia.
  Z.div_mod_to_equations. lia.
Qed.

Lemma length_le32 n : length (le32 n) = 4%nat.
Proof. done. Qed.

(** ** Lists *)

Lemma len_app {A} (l k : list A) : len (l ++ k) = len l + len k.
Proof. rewrite length_app. lia. Qed.
Lemma len_take {A} n (l : list A) : len (take n l) = Z.min (Z.of_nat n) (len l).
Proof. rewrite length_take. lia. Qed.
Lemma len_drop {A} n (l : list A) : len (drop n l) = Z.max 0 (len l - Z.of_nat n).
Proof. rewrite length_drop. lia. Qed.
Lemma len_cons {A} (x : A) l : len (x :: l) = 1 + len l.
Proof. cbn [length]. lia. Qed.
Lemma len_nil {A} : len (@nil A) = 0.
Proof. done. Qed.
Lemma len_fmap {A B} (f : A → B) l : len (f <$> l) = len l.
Proof. by rewrite length_fmap. Qed.
Lemma len_replicate {A} n (x : A) : len (replicate n x) = Z.of_nat n.
Proof. by rewrite length_replicate. Qed.
#[export] Hint Rewrite @len_app @len_take @len_drop @len_cons @len_nil @len_fmap
  @len_replicate : len.

Ltac len_lia := autorewrite with len in *; lia.

Lemma len_zero_nil {A} (l : list A) : len l = 0 → l = [].
Proof. destruct l; [done | intros; len_lia]. Qed.

Lemma take_drop_app_le {A} n (l k : list A) :
  (n <= length l)%nat → drop n (l ++ k) = drop n l ++ k.
Proof. intros. by apply drop_app_le. Qed.

Lemma drop_cons_lookup {A} (l : list A) i x :
  l !! i = Some x → drop i l = x :: drop (S i) l.
Proof. apply drop_S. Qed.

(** Split a list at the first element that satisfies a test. *)
Lemma split_first {A} (P : A → bool) (l : list A) :
  Forall (λ x, P x = false) l ∨
  ∃ l1 x l2, l = l1 ++ x :: l2 ∧ Forall (λ y, P y = false) l1 ∧ P x = true.
Proof.
  induction l as [|x l IH]; [by left; constructor|].
  destruct (P x) eqn:Hx.
  - right. exists [], x, l. split_and!; [done | constructor | done].
  - destruct IH as [IH | (l1 & y & l2 & -> & H1 & H2)].
    + left. by constructor.
    + right. exists (x :: l1), y, l2. split_and!; [done | by constructor | done].
Qed.

(** ** Decimal numerals: [std::to_string] and its inverse *)

Definition is_digit_char (c : ascii) : bool :=
  (48 <=? uchar c) && (uchar c <=? 57).

Definition digit_char (d : Z) : ascii := char_of (48 + d).

Fixpoint dec_digits (fuel : nat) (n : Z) (acc : bytes) : bytes :=
  match fuel with
  | O => acc
  | S fuel =>
      let acc := digit_char (n mod 10) :: acc in
      if n <? 10 then acc else dec_digits fuel (n / 10) acc
  end.

(** The decimal numeral of a non-negative integer; [log2 n + 1] digits are
    always enough. *)
Definition utoa (n : Z) : bytes := dec_digits (S (Z.to_nat (Z.log2 n))) n [].

(** [std::to_string] *)
Definition itoa (n : Z) : bytes :=
  if n <? 0 then "-"%char :: utoa (- n) else utoa n.

(** The value of a run of digits read from the left. *)
Definition dec_value_from (a : Z) (l : bytes) : Z :=
  foldl (λ a c, a * 10 + (uchar c - 48)) a l.
Definition dec_value (l : bytes) : Z := dec_value_from 0 l.

(** The number of decimal digits. *)
Definition ndig (n : Z) : Z := len (utoa n).

Lemma uchar_digit d : 0 <= d < 10 → uchar (digit_char d) = 48 + d.
Proof. intros. unfold digit_char. rewrite uchar_char_of, Z.mod_small; lia. Qed.

Lemma is_digit_digit_char d : 0 <= d < 10 → is_digit_char (digit_char d) = true.
Proof. intros. unfold is_digit_char. rewrite uchar_digit by lia. lia. Qed.

Lemma dec_digits_app fuel n acc :
  dec_digits fuel n acc = dec_digits fuel n [] ++ acc.
Proof.
  revert n acc. induction fuel as [|fuel IH]; intros n acc; [done|].
  cbn [dec_digits]. destruct (n <? 10); [done|].
  rewrite IH, (IH _ [_]), <-app_assoc. done.
Qed.

Lemma dec_value_from_app a l k :
  dec_value_from a (l ++ k) = dec_value_from (dec_value_from a l) k.
Proof. apply foldl_app. Qed.

Lemma dec_digits_spec fuel n :
  0 <= n < 2 ^ Z.of_nat fuel → (0 < fuel)%nat →
  dec_value (dec_digits fuel n []) = n ∧
  Forall (λ c, is_digit_char c = true) (dec_digits fuel n []) ∧
  dec_digits fuel n [] ≠ [].
Proof.
  revert n. induction fuel as [|fuel IH]; intros n Hn Hf; [lia|].
  pose proof (Z.mod_pos_bound n 10 ltac:(lia)) as Hm.
  cbn [dec_digits]. destruct (n <? 10) eqn:Hlt.
  - rewrite Z.mod_small by lia. split_and!; [|repeat constructor|done].
    + cbn. rewrite uchar_digit by lia. lia.
    + apply is_digit_digit_char. lia.
  - rewrite dec_digits_app.
    destruct (Nat.eq_dec fuel 0%nat) as [->|Hf0]; [cbn in Hn; lia|].
    destruct (IH (n / 10)) as (Hv & Hd & Hne); [|lia|].
    { split; [apply Z.div_pos; lia|].
      apply Z.div_lt_upper_bound; [lia|].
      rewrite Nat2Z.inj_succ, Z.pow_succ_r in Hn by lia. lia. }
    split_and!.
    + unfold dec_value in *. rewrite dec_value_from_app, Hv. cbn.
      rewrite uchar_digit by lia. pose proof (Z.div_mod n 10). lia.
    + apply Forall_app. split; [done|]. repeat constructor.
      apply is_digit_digit_char. lia.
    + intros [? ?]%app_eq_nil. done.
Qed.

Lemma utoa_spec n : 0 <= n →
  dec_value (utoa n) = n ∧
  Forall (λ c, is_digit_char c = true) (utoa n) ∧ utoa n ≠ [].
Proof.
  intros Hn. apply dec_digits_spec; [|lia].
  rewrite Nat2Z.inj_succ, Z2Nat.id by apply Z.log2_nonneg.
  destruct (Z.eq_dec n 0) as [->|]; [done|].
  pose proof (Z.log2_spec n ltac:(lia)). lia.
Qed.

Lemma utoa_value n : 0 <= n → dec_value (utoa n) = n.
Proof. intros. by apply utoa_spec. Qed.
Lemma utoa_digits n : 0 <= n → Forall (λ c, is_digit_char c = true) (utoa n).
Proof. intros. by apply utoa_spec. Qed.
Lemma utoa_nonempty n : 0 <= n → utoa n ≠ [].
Proof. intros. by apply utoa_spec. Qed.

Lemma utoa_inj n m : 0 <= n → 0 <= m → utoa n = utoa m → n = m.
Proof. intros Hn Hm H. by rewrite <-(utoa_value n), H, utoa_value. Qed.

Lemma dec_value_from_ge v ds : 0 <= v → Forall (λ c, is_digit_char c = true) ds →
  v <= dec_value_from v ds.
Proof.
  intros Hv Hd. revert v Hv. induction Hd as [|c ds Hc _ IH]; intros v Hv; cbn; [lia|].
  unfold is_digit_char in Hc. bool_hyps.
  pose proof (IH (v * 10 + (uchar c - 48)) ltac:(lia)). unfold dec_value_from in *. lia.
Qed.

Lemma dec_value_nonneg ds : Forall (λ c, is_digit_char c = true) ds → 0 <= dec_value ds.
Proof. by apply dec_value_from_ge. Qed.

Lemma dec_digits_fuel f f' n acc :
  0 <= n < 2 ^ Z.of_nat f → 0 <= n < 2 ^ Z.of_nat f' → (0 < f)%nat → (0 < f')%nat →
  dec_digits f n acc = dec_digits f' n acc.
Proof.
  revert f' n acc. induction f as [|f IH]; intros [|f'] n acc Hn Hn' Hf Hf'; [lia..|].
  cbn [dec_digits]. destruct (n <? 10) eqn:E; [done|]. bool_hyps.
  rewrite !Nat2Z.inj_succ, !Z.pow_succ_r in * by lia.
  destruct f as [|f]; [cbn in *; lia|]. destruct f' as [|f']; [cbn in *; lia|].
  apply IH; lia || (split; [apply Z.div_pos; lia|]; apply Z.div_lt_upper_bound; lia).
Qed.

Lemma log2_fuel n : 0 <= n → n < 2 ^ Z.of_nat (S (Z.to_nat (Z.log2 n))).
Proof.
  intros Hn. rewrite Nat2Z.inj_succ, Z2Nat.id by apply Z.log2_nonneg.
  destruct (Z.eq_dec n 0) as [->|]; [done|]. apply Z.log2_spec. lia.
Qed.

Lemma utoa_small n : 0 <= n < 10 → utoa n = [digit_char n].
Proof.
  intros Hn. unfold utoa. cbn [dec_digits]. rewrite Z.mod_small by lia.
  by rewrite (proj2 (Z.ltb_lt _ _)) by lia.
Qed.

Lemma utoa_step n : 10 <= n → utoa n = utoa (n / 10) ++ [digit_char (n mod 10)].
Proof.
  intros Hn. unfold utoa at 1. cbn [dec_digits]. rewrite (proj2 (Z.ltb_ge _ _)) by lia.
  rewrite dec_digits_app. f_equal. pose proof (log2_fuel n ltac:(lia)) as Hlog.
  pose proof (log2_fuel (n / 10) ltac:(apply Z.div_pos; lia)).
  rewrite Nat2Z.inj_succ, Z.pow_succ_r in Hlog by lia.
  assert (0 <= n / 10) by (apply Z.div_pos; lia).
  assert (1 <= Z.log2 n) by (apply (Z.log2_le_mono 2); lia).
  apply dec_digits_fuel; [split; [done|]; apply Z.div_lt_upper_bound; lia | lia | lia | lia].
Qed.

Lemma ndig_small n : 0 <= n < 10 → ndig n = 1.
Proof. intros. unfold ndig. by rewrite utoa_small. Qed.
Lemma ndig_step n : 10 <= n → ndig n = ndig (n / 10) + 1.
Proof. intros. unfold ndig. rewrite utoa_step by done. by rewrite len_app. Qed.
(** The first digit of a number is not zero. *)
Lemma utoa_head n : 0 < n → ∃ d ds, utoa n = digit_char d :: ds ∧ 1 <= d <= 9.
Proof.
  induction n as [x IH] using (well_founded_induction (Z.lt_wf 0)). intros Hx. destruct (Z.lt_ge_cases x 10).
  - exists x, []. split; [apply utoa_small; lia|lia].
  - assert (1 <= x / 10) by (apply Z.div_le_lower_bound; lia).
    destruct (IH (x / 10)) as (d & ds & Heq & Hd); [split; [lia|]; apply Z.div_lt; lia|lia|].
    exists d, (ds ++ [digit_char (x mod 10)]). split; [|done]. by rewrite utoa_step, Heq by lia.
Qed.
