(* ===== verification/StdString.v ===== *)
(** * The C++ standard library the program calls

    [std::string] searches and slices with [size_t] positions and [npos],
    NUL-terminated strings, the order of [std::string] keys and the in-order
    traversal of a [std::map].  The definitions follow the language standard;
    the components of cppboot are proved against them. *)

From S2P Require Export Prelude.

(** ** Positions *)

(** [std::string::npos], the largest [size_t]. *)
Definition npos : Z := 2 ^ 64 - 1.

Definition to_pos (o : option nat) : Z :=
  match o with Some i => Z.of_nat i | None => npos end.

(** Objects are smaller than [PTRDIFF_MAX]. *)
Abbreviation fits l := (len l < 2 ^ 63).

(** ** Scans *)

(** The index, counted from [i], of the first character that passes [P]. *)
Fixpoint scan (P : ascii → bool) (l : bytes) (i : nat) : option nat :=
  match l with
  | [] => None
  | c :: l => if P c then Some i else scan P l (S i)
  end.

(** Scan downwards from index [i]; an index past the end never matches. *)
Fixpoint rscan (P : ascii → bool) (l : bytes) (i : nat) : option nat :=
  if match l !! i with Some c => P c | None => false end then Some i
  else match i with O => None | S i => rscan P l i end.

(** The index, counted from [i], of the first occurrence of [needle]. *)
Fixpoint search (needle l : bytes) (i : nat) : option nat :=
  if bool_decide (needle `prefix_of` l) then Some i
  else match l with [] => None | _ :: l => search needle l (S i) end.

(** The last index at most [i] at which [needle] occurs. *)
Fixpoint rsearch (needle l : bytes) (i : nat) : option nat :=
  if bool_decide (needle `prefix_of` drop i l) then Some i
  else match i with O => None | S i => rsearch needle l i end.

Lemma scan_app P l1 l2 i :
  Forall (λ c, P c = false) l1 → scan P (l1 ++ l2) i = scan P l2 (length l1 + i)%nat.
Proof.
  intros H. revert i. induction H as [|c l1 Hc _ IH]; intros i; [done|].
  cbn. rewrite Hc, IH. f_equal. lia.
Qed.

Lemma scan_hit P l1 c l2 i :
  Forall (λ c, P c = false) l1 → P c = true →
  scan P (l1 ++ c :: l2) i = Some (length l1 + i)%nat.
Proof. intros H1 Hc. rewrite scan_app by done. cbn. by rewrite Hc. Qed.

Lemma scan_miss P l i : Forall (λ c, P c = false) l → scan P l i = None.
Proof. intros H. by rewrite <-(app_nil_r l), scan_app. Qed.

Lemma scan_Some P l i j :
  scan P l i = Some j ↔
  ∃ l1 c l2, l = l1 ++ c :: l2 ∧ Forall (λ c, P c = false) l1 ∧ P c = true
             ∧ j = (length l1 + i)%nat.
Proof.
  split.
  - intros H. destruct (split_first P l) as [Hn | (l1 & c & l2 & -> & H1 & H2)].
    + by rewrite scan_miss in H.
    + rewrite scan_hit in H by done. simplify_eq. naive_solver.
  - intros (l1 & c & l2 & -> & H1 & H2 & ->). by apply scan_hit.
Qed.

Lemma scan_None P l i : scan P l i = None ↔ Forall (λ c, P c = false) l.
Proof.
  split; [|apply scan_miss]. intros H.
  destruct (split_first P l) as [? | (l1 & c & l2 & -> & H1 & H2)]; [done|].
  by rewrite scan_hit in H.
Qed.

Lemma scan_ext P Q l i : (∀ c, P c = Q c) → scan P l i = scan Q l i.
Proof.
  intros H. revert i. induction l as [|c l IH]; intros i; [done|].
  cbn. by rewrite H, IH.
Qed.

Lemma scan_bound P l i j : scan P l i = Some j → (i ≤ j < i + length l)%nat.
Proof.
  intros (l1 & c & l2 & -> & _ & _ & ->)%scan_Some.
  rewrite length_app. cbn. lia.
Qed.

Lemma rscan_Some P l i j :
  rscan P l i = Some j ↔
  (j ≤ i)%nat ∧ (∃ c, l !! j = Some c ∧ P c = true) ∧
  ∀ k c, (j < k ≤ i)%nat → l !! k = Some c → P c = false.
Proof.
  induction i as [|i IH]; cbn.
  - destruct (l !! 0%nat) as [c|] eqn:Hc; [destruct (P c) eqn:HP|].
    + split; [intros [= <-] | intros (? & _ & _)].
      * split_and!; [lia | eauto | intros; lia].
      * f_equal. lia.
    + split; [done|]. intros (? & (? & ? & ?) & _).
      assert (j = 0%nat) as -> by lia. congruence.
    + split; [done|]. intros (? & (? & ? & ?) & _).
      assert (j = 0%nat) as -> by lia. congruence.
  - destruct (match l !! S i with Some c => P c | None => false end) eqn:HP.
    + split.
      * intros [= <-]. destruct (l !! S i) eqn:?; [|done].
        split_and!; [lia | eauto | intros; lia].
      * intros (? & (c & Hc & Hp) & Hk). destruct (l !! S i) eqn:Hi; [|done].
        destruct (decide (j = S i)) as [->|]; [done|].
        rewrite (Hk (S i) _ ltac:(lia) Hi) in HP. done.
    + rewrite IH. split.
      * intros (? & ? & Hk). split_and!; [lia | done |].
        intros k c Hr Hl. destruct (decide (k = S i)) as [->|].
        { by rewrite Hl in HP. }
        apply (Hk k); [lia | done].
      * intros (? & (c & Hc & Hp) & Hk). split_and!.
        { destruct (decide (j = S i)) as [->|]; [|lia].
          rewrite Hc in HP. congruence. }
        { eauto. }
        intros; eapply Hk; [|done]; lia.
Qed.

Lemma rscan_None P l i :
  rscan P l i = None ↔ ∀ k c, (k ≤ i)%nat → l !! k = Some c → P c = false.
Proof.
  induction i as [|i IH]; cbn;
    destruct (match l !! _ with Some c => P c | None => false end) eqn:HP.
  - split; [done|]. intros H. destruct (l !! 0%nat) eqn:E; [|done].
    rewrite (H 0%nat _ ltac:(lia) E) in HP. done.
  - split; [|done]. intros _ k c ? Hk.
    assert (k = 0%nat) as -> by lia. by rewrite Hk in HP.
  - split; [done|]. intros H. destruct (l !! S i) eqn:E; [|done].
    rewrite (H (S i) _ ltac:(lia) E) in HP. done.
  - rewrite IH. split; intros H k c ? Hk.
    + destruct (decide (k = S i)) as [->|]; [by rewrite Hk in HP|].
      apply (H k); [lia | done].
    + apply (H k); [lia | done].
Qed.

Lemma rscan_ext P Q l i : (∀ c, P c = Q c) → rscan P l i = rscan Q l i.
Proof.
  intros H. induction i as [|i IH]; cbn; destruct (l !! _); rewrite ?H, ?IH; done.
Qed.

Lemma search_Some needle l i j :
  search needle l i = Some j ↔
  (i ≤ j)%nat ∧ (j - i ≤ length l)%nat ∧ needle `prefix_of` drop (j - i) l ∧
  ∀ k, (k < j - i)%nat → ¬ needle `prefix_of` drop k l.
Proof.
  revert i. induction l as [|c l IH]; intros i; cbn; case_bool_decide as Hp.
  1,3: split; [intros [= <-]; rewrite Nat.sub_diag; split_and!; [done|cbn; lia|done|lia]|];
    intros (? & ? & ? & Hk); f_equal; destruct (decide (i = j)); [done|];
    exfalso; apply (Hk 0%nat); [lia | done].
  - split; [done|]. intros (? & ? & Hj & _). assert (j = i) as -> by (cbn in *; lia).
    by rewrite Nat.sub_diag in Hj.
  - rewrite IH. split.
    + intros (? & ? & Hj & Hk). split_and!; [lia | lia | |].
      * by replace (j - i)%nat with (S (j - S i)) by lia.
      * intros [|k] ?; [done|]. apply Hk. lia.
    + intros (? & ? & Hj & Hk). destruct (decide (i = j)) as [->|].
      { by rewrite Nat.sub_diag in Hj. }
      replace (j - i)%nat with (S (j - S i)) in * by lia.
      split_and!; [lia | lia | done |].
      intros k ?. apply (Hk (S k)). lia.
Qed.

Lemma search_None needle l i :
  search needle l i = None ↔
  ∀ k, (k ≤ length l)%nat → ¬ needle `prefix_of` drop k l.
Proof.
  revert i. induction l as [|c l IH]; intros i; cbn; case_bool_decide as Hp.
  - split; [done|]. intros H. by destruct (H 0%nat ltac:(lia)).
  - split; [|done]. intros _ [|k] ?; [done|]. lia.
  - split; [done|]. intros H. by destruct (H 0%nat ltac:(lia)).
  - rewrite IH. split.
    + intros H [|k] ?; [done|]. apply H. lia.
    + intros H k ?. apply (H (S k)). lia.
Qed.

Lemma search_nil needle i :
  search needle [] i = if bool_decide (needle = []) then Some i else None.
Proof.
  unfold search. rewrite (bool_decide_ext (needle `prefix_of` []) (needle = [])); [done|].
  split; [apply prefix_nil_inv | by intros ->].
Qed.

Lemma search_shift needle l i : search needle l i = (λ k, (i + k)%nat) <$> search needle l 0.
Proof.
  destruct (search needle l 0) as [j|] eqn:Hj; cbn.
  - apply search_Some in Hj as (_ & H1 & H2 & H3). rewrite Nat.sub_0_r in *.
    apply search_Some. replace (i + j - i)%nat with j by lia.
    split_and!; [lia | done..].
  - rewrite search_None in *. done.
Qed.

Lemma rsearch_Some needle l i j :
  rsearch needle l i = Some j ↔
  (j ≤ i)%nat ∧ needle `prefix_of` drop j l ∧
  ∀ k, (j < k ≤ i)%nat → ¬ needle `prefix_of` drop k l.
Proof.
  induction i as [|i IH]; cbn [rsearch]; case_bool_decide as Hp.
  - split; [intros [= <-]; split_and!; [lia | done | lia]|].
    intros (? & _ & _). f_equal. lia.
  - split; [done|]. intros (? & H & _). by assert (j = 0%nat) as -> by lia.
  - split; [intros [= <-]; split_and!; [lia | done | lia]|].
    intros (? & ? & Hk). destruct (decide (j = S i)) as [->|]; [done|].
    destruct (Hk (S i)); [lia | done].
  - rewrite IH. split.
    + intros (? & ? & Hk). split_and!; [lia | done |].
      intros k ?. destruct (decide (k = S i)) as [->|]; [done|]. apply Hk. lia.
    + intros (? & ? & Hk). split_and!.
      * destruct (decide (j = S i)) as [->|]; [done | lia].
      * done.
      * intros k ?. apply Hk. lia.
Qed.

Lemma rsearch_None needle l i :
  rsearch needle l i = None ↔ ∀ k, (k ≤ i)%nat → ¬ needle `prefix_of` drop k l.
Proof.
  induction i as [|i IH]; cbn [rsearch]; case_bool_decide as Hp.
  - split; [done|]. intros H. by destruct (H 0%nat ltac:(lia)).
  - split; [|done]. intros _ k ?. by assert (k = 0%nat) as -> by lia.
  - split; [done|]. intros H. by destruct (H (S i) ltac:(lia)).
  - rewrite IH. split; intros H k ?.
    + destruct (decide (k = S i)) as [->|]; [done|]. apply H. lia.
    + apply H. lia.
Qed.

Lemma rsearch_ext needle l l' n :
  (∀ i, (i ≤ n)%nat → needle `prefix_of` drop i l ↔ needle `prefix_of` drop i l') →
  rsearch needle l n = rsearch needle l' n.
Proof.
  induction n as [|n IH]; intros H; cbn [rsearch].
  - rewrite (bool_decide_ext (needle `prefix_of` drop 0 l) (needle `prefix_of` drop 0 l'));
      [done|]. apply H. lia.
  - rewrite (bool_decide_ext (needle `prefix_of` drop (S n) l)
      (needle `prefix_of` drop (S n) l')); [|apply H; lia].
    rewrite IH; [done|]. intros. apply H. lia.
Qed.

(** ** [std::string] members *)

Definition is_char (c : ascii) (x : ascii) : bool := bool_decide (x = c).
Definition in_set (s : bytes) (x : ascii) : bool := bool_decide (x ∈ s).

Definition str_find_if (P : ascii → bool) (l : bytes) (pos : Z) : Z :=
  if pos <? len l then to_pos (scan P (drop (Z.to_nat pos) l) (Z.to_nat pos))
  else npos.

(** [s.find(c, pos)] and [s.find_first_of(c, pos)] *)
Definition str_find_char (l : bytes) (c : ascii) (pos : Z) : Z :=
  str_find_if (is_char c) l pos.
(** [s.find_first_of(set, pos)], [s.find_first_not_of(set, pos)] *)
Definition str_find_first_of (l set : bytes) (pos : Z) : Z :=
  str_find_if (in_set set) l pos.
Definition str_find_first_not_of (l set : bytes) (pos : Z) : Z :=
  str_find_if (λ c, negb (in_set set c)) l pos.

Definition str_rfind_if (P : ascii → bool) (l : bytes) (pos : Z) : Z :=
  if len l =? 0 then npos
  else to_pos (rscan P l (Z.to_nat (Z.min pos (len l - 1)))).

(** [s.find_last_of(set, pos)], [s.find_last_not_of(set, pos)] *)
Definition str_find_last_of (l set : bytes) (pos : Z) : Z :=
  str_rfind_if (in_set set) l pos.
Definition str_find_last_not_of (l set : bytes) (pos : Z) : Z :=
  str_rfind_if (λ c, negb (in_set set c)) l pos.

(** [s.find(needle, pos)] *)
Definition str_find (l needle : bytes) (pos : Z) : Z :=
  if pos <=? len l
  then to_pos (search needle (drop (Z.to_nat pos) l) (Z.to_nat pos))
  else npos.

(** [s.rfind(needle, pos)] *)
Definition str_rfind (l needle : bytes) (pos : Z) : Z :=
  if len needle <=? len l
  then to_pos (rsearch needle l (Z.to_nat (Z.min pos (len l - len needle))))
  else npos.

(** [s.substr(pos, n)] throws when [pos] is past the end. *)
Definition slice (l : bytes) (pos n : Z) : bytes :=
  take (Z.to_nat (Z.min n (len l - pos))) (drop (Z.to_nat pos) l).
Definition str_substr (l : bytes) (pos n : Z) : outcome bytes :=
  if len l <? pos then Throw out_of_range else Ret (slice l pos n).

(** [s.replace(pos, n, t)] *)
Definition str_replace (l : bytes) (pos n : Z) (t : bytes) : outcome bytes :=
  if len l <? pos then Throw out_of_range
  else Ret (take (Z.to_nat pos) l ++ t
            ++ drop (Z.to_nat (pos + Z.min n (len l - pos))) l).

Lemma to_pos_npos o n : (∀ i, o = Some i → Z.of_nat i < n) → n <= npos →
  to_pos o = npos ↔ o = None.
Proof. destruct o as [i|]; cbn; [|done]. intros H Hn. specialize (H i eq_refl). split; [lia | done]. Qed.

(** The first hit, as a splitting of the string. *)
Lemma str_find_if_hit P l0 l1 c l2 :
  Forall (λ c, P c = false) l1 → P c = true →
  str_find_if P (l0 ++ l1 ++ c :: l2) (len l0) = len l0 + len l1.
Proof.
  intros H1 Hc. unfold str_find_if.
  replace (_ <? _) with true by (symmetry; apply Z.ltb_lt; len_lia).
  rewrite Nat2Z.id, drop_app_length, scan_hit by done. cbn. lia.
Qed.

Lemma str_find_if_hit0 P l1 c l2 :
  Forall (λ c, P c = false) l1 → P c = true →
  str_find_if P (l1 ++ c :: l2) 0 = len l1.
Proof. apply (str_find_if_hit P []). Qed.

Lemma str_find_if_miss P l0 l1 :
  Forall (λ c, P c = false) l1 → str_find_if P (l0 ++ l1) (len l0) = npos.
Proof.
  intros H1. unfold str_find_if. destruct (_ <? _) eqn:?; [|done].
  by rewrite Nat2Z.id, drop_app_length, scan_miss.
Qed.

Lemma str_find_if_miss0 P l :
  Forall (λ c, P c = false) l → str_find_if P l 0 = npos.
Proof. apply (str_find_if_miss P []). Qed.

Lemma slice_app_mid l1 l2 l3 : slice (l1 ++ l2 ++ l3) (len l1) (len l2) = l2.
Proof.
  unfold slice. rewrite Nat2Z.id, drop_app_length.
  rewrite Z.min_l by len_lia. by rewrite Nat2Z.id, take_app_length.
Qed.

Lemma slice_app_r l1 l2 n : len l2 <= n → slice (l1 ++ l2) (len l1) n = l2.
Proof.
  intros Hn. unfold slice. rewrite Nat2Z.id, drop_app_length.
  rewrite take_ge; [done|]. len_lia.
Qed.

Lemma slice_app_l l1 l2 : slice (l1 ++ l2) 0 (len l1) = l1.
Proof. apply (slice_app_mid [] l1 l2). Qed.

Lemma slice_all l n : len l <= n → slice l 0 n = l.
Proof. apply (slice_app_r [] l). Qed.

Lemma in_set_spec s c : in_set s c = true ↔ c ∈ s.
Proof. unfold in_set. apply bool_decide_eq_true. Qed.
Lemma in_set_false s c : in_set s c = false ↔ c ∉ s.
Proof. unfold in_set. apply bool_decide_eq_false. Qed.
Lemma is_char_true c x : is_char c x = true ↔ x = c.
Proof. unfold is_char. apply bool_decide_eq_true. Qed.
Lemma is_char_false c x : is_char c x = false ↔ x ≠ c.
Proof. unfold is_char. apply bool_decide_eq_false. Qed.
Lemma in_set_singleton c x : in_set [c] x = is_char c x.
Proof. unfold in_set, is_char. apply bool_decide_ext. set_solver. Qed.

Lemma Forall_not_char c l : Forall (λ x, is_char c x = false) l ↔ c ∉ l.
Proof.
  rewrite Forall_forall. split.
  - intros H Hc. specialize (H c Hc). by rewrite is_char_false in H.
  - intros H x Hx. apply is_char_false. congruence.
Qed.

(** ** NUL-terminated strings *)

(** The bytes before the first NUL: what [strlen], [std::string(const char* )]
    and the C library see.  Reading on without a terminator is undefined. *)
Definition c_str (p : bytes) : outcome bytes :=
  match scan (is_char NUL) p 0 with
  | Some n => Ret (take n p)
  | None => Undef
  end.

Lemma c_str_terminated s rest : NUL ∉ s → c_str (s ++ NUL :: rest) = Ret s.
Proof.
  intros Hs. unfold c_str. rewrite scan_hit.
  - by rewrite Nat.add_0_r, take_app_length.
  - by apply Forall_not_char.
  - by apply is_char_true.
Qed.

Lemma c_str_Ret p s : c_str p = Ret s ↔ (NUL ∉ s) ∧ ∃ rest, p = s ++ NUL :: rest.
Proof.
  split.
  - unfold c_str. destruct (scan _ _ _) eqn:H; [|done]. intros [= <-].
    apply scan_Some in H as (l1 & c & l2 & -> & H1 & ->%is_char_true & ->).
    rewrite Nat.add_0_r, take_app_length. split; [by apply Forall_not_char | eauto].
  - intros [Hs [rest ->]]. by apply c_str_terminated.
Qed.

(** ** The order of [std::string] *)

Fixpoint bytes_cmp (a b : bytes) : comparison :=
  match a, b with
  | [], [] => Eq
  | [], _ => Lt
  | _, [] => Gt
  | x :: a, y :: b =>
      match uchar x ?= uchar y with Eq => bytes_cmp a b | c => c end
  end.

Lemma bytes_cmp_refl a : bytes_cmp a a = Eq.
Proof. induction a as [|x a IH]; [done|]. cbn. by rewrite Z.compare_refl. Qed.

Lemma bytes_cmp_eq a b : bytes_cmp a b = Eq ↔ a = b.
Proof.
  split; [|intros ->; apply bytes_cmp_refl].
  revert b. induction a as [|x a IH]; intros [|y b]; cbn; try done.
  destruct (_ ?= _) eqn:Hc; try done.
  intros ->%IH. apply Z.compare_eq, uchar_inj in Hc. by subst.
Qed.

Lemma bytes_cmp_antisym a b : bytes_cmp b a = CompOpp (bytes_cmp a b).
Proof.
  revert b. induction a as [|x a IH]; intros [|y b]; cbn; try done.
  rewrite Z.compare_antisym. destruct (uchar x ?= uchar y); cbn; auto.
Qed.

Lemma bytes_cmp_lt_trans a b c :
  bytes_cmp a b = Lt → bytes_cmp b c = Lt → bytes_cmp a c = Lt.
Proof.
  revert b c. induction a as [|x a IH]; intros [|y b] [|z c]; cbn; try done.
  destruct (uchar x ?= uchar y) eqn:Hxy, (uchar y ?= uchar z) eqn:Hyz; try done;
    repeat match goal with
    | H : (_ ?= _) = Eq |- _ => apply Z.compare_eq, uchar_inj in H; subst
    end; rewrite ?Z.compare_refl, ?Hxy, ?Hyz; try done; [by apply IH|].
  rewrite Z.compare_lt_iff in *.
  replace (uchar x ?= uchar z) with Lt; [done|].
  symmetry. apply Z.compare_lt_iff. lia.
Qed.

Definition bytes_le (a b : bytes) : Prop := bytes_cmp a b ≠ Gt.
#[export] Instance bytes_le_dec a b : Decision (bytes_le a b).
Proof. unfold bytes_le. solve_decision. Defined.

#[export] Instance bytes_le_total : Total bytes_le.
Proof.
  intros a b. unfold bytes_le. rewrite (bytes_cmp_antisym a b).
  destruct (bytes_cmp a b); cbn; auto.
Qed.
#[export] Instance bytes_le_trans : Transitive bytes_le.
Proof.
  intros a b c. unfold bytes_le. intros Hab Hbc.
  destruct (bytes_cmp a b) eqn:H1; [| |done].
  { apply bytes_cmp_eq in H1 as ->. done. }
  destruct (bytes_cmp b c) eqn:H2; [| |done].
  { apply bytes_cmp_eq in H2 as <-. congruence. }
  by rewrite (bytes_cmp_lt_trans a b c).
Qed.
#[export] Instance bytes_le_antisymm : AntiSymm (=) bytes_le.
Proof.
  intros a b. unfold bytes_le. rewrite (bytes_cmp_antisym a b).
  destruct (bytes_cmp a b) eqn:H; cbn; try done. by apply bytes_cmp_eq in H.
Qed.

(** ** [std::map<std::string, A>]: a finite map traversed in key order *)

Section map_iter.
Context {A : Type}.
Implicit Types m : gmap bytes A.

Definition entry_le (p q : bytes * A) : Prop := bytes_le p.1 q.1.
#[export] Instance entry_le_dec p q : Decision (entry_le p q).
Proof. unfold entry_le. apply _. Defined.
#[export] Instance entry_le_total : Total entry_le.
Proof. intros p q. unfold entry_le. apply bytes_le_total. Qed.
#[export] Instance entry_le_trans : Transitive entry_le.
Proof. intros p q r. unfold entry_le. apply bytes_le_trans. Qed.

Definition map_iter m : list (bytes * A) := merge_sort entry_le (map_to_list m).

Lemma map_iter_perm m : map_iter m ≡ₚ map_to_list m.
Proof. apply merge_sort_Permutation. Qed.

Lemma map_iter_sorted m : StronglySorted entry_le (map_iter m).
Proof. apply StronglySorted_merge_sort; apply _. Qed.

Lemma map_iter_nodup m : NoDup (map_iter m).*1.
Proof. rewrite map_iter_perm. apply NoDup_fst_map_to_list. Qed.

Lemma list_to_map_iter m : list_to_map (map_iter m) = m.
Proof.
  rewrite <-(list_to_map_to_list m) at 2.
  apply list_to_map_proper; [apply map_iter_nodup | apply map_iter_perm].
Qed.

Lemma elem_of_map_iter m k v : (k, v) ∈ map_iter m ↔ m !! k = Some v.
Proof. rewrite map_iter_perm. apply elem_of_map_to_list. Qed.

Lemma map_iter_empty : map_iter ∅ = [].
Proof. unfold map_iter. by rewrite map_to_list_empty. Qed.

Lemma map_iter_nil m : map_iter m = [] → m = ∅.
Proof. intros H. by rewrite <-(list_to_map_iter m), H. Qed.

(** Inserting the entries of a traversal from the left rebuilds the map on
    top of what was there. *)
Definition insert_all (l : list (bytes * A)) m : gmap bytes A :=
  foldl (λ m kv, <[kv.1 := kv.2]> m) m l.

Lemma insert_all_lookup_notin l m k :
  k ∉ l.*1 → insert_all l m !! k = m !! k.
Proof.
  revert m. induction l as [|[k' v] l IH]; intros m; cbn; [done|].
  intros [Hne Hk]%not_elem_of_cons. unfold insert_all in *. rewrite IH by done.
  by rewrite lookup_insert_ne.
Qed.

Lemma insert_all_nodup l m : NoDup l.*1 → insert_all l m = list_to_map l ∪ m.
Proof.
  revert m. induction l as [|[k v] l IH]; intros m; cbn.
  { by rewrite (left_id_L ∅ (∪)). }
  intros [Hk Hl]%NoDup_cons. unfold insert_all in *. rewrite IH by done.
  rewrite <-insert_union_l, insert_union_r; [done|].
  by apply not_elem_of_list_to_map.
Qed.

Lemma insert_all_map_iter m m' : insert_all (map_iter m) m' = m ∪ m'.
Proof. rewrite insert_all_nodup, list_to_map_iter by apply map_iter_nodup. done. Qed.

Lemma insert_all_map_iter_empty m : insert_all (map_iter m) ∅ = m.
Proof. rewrite insert_all_map_iter. apply (right_id_L ∅ (∪)). Qed.
End map_iter.

(** ** Numbers in text

    [isspace] in the "C" locale, the blanks an extraction skips, a run of decimal
    digits, and [std::stoll], which takes the longest numeral at the front. *)

Definition is_space (c : ascii) : bool :=
  ((9 <=? uchar c) && (uchar c <=? 13)) || (uchar c =? 32).

Fixpoint skip_spaces (s : bytes) : bytes :=
  match s with c :: s' => if is_space c then skip_spaces s' else s | [] => [] end.

Fixpoint digits (l : bytes) : bytes * bytes :=
  match l with
  | [] => ([], [])
  | c :: l' => if is_digit_char c then let '(w, r) := digits l' in (c :: w, r) else ([], l)
  end.

Definition LLONG_MAX : Z := 2 ^ 63 - 1.
Definition LLONG_MIN : Z := - 2 ^ 63.

Definition stoll (s : bytes) : outcome Z :=
  let '(negative, l) :=
    match skip_spaces s with
    | c :: l => if bool_decide (c = "-"%char) then (true, l)
                else if bool_decide (c = "+"%char) then (false, l) else (false, c :: l)
    | [] => (false, [])
    end in
  let '(ds, _) := digits l in
  let v := if negative : bool then - dec_value ds else dec_value ds in
  if bool_decide (ds = []) then Throw invalid_argument
  else if (v <? LLONG_MIN) || (LLONG_MAX <? v) then Throw out_of_range
  else Ret v.

Lemma digits_all ds r : Forall (λ c, is_digit_char c = true) ds →
  head r = None ∨ (∃ c, head r = Some c ∧ is_digit_char c = false) → digits (ds ++ r) = (ds, r).
Proof.
  intros Hd Hr. induction Hd as [|c ds Hc Hd IH]; cbn [app digits].
  - destruct r as [|c r]; [done|]. cbn. destruct Hr as [|(? & [= <-] & Hc)]; [done|]. by rewrite Hc.
  - by rewrite Hc, IH.
Qed.

Lemma digit_facts c : is_digit_char c = true →
  is_space c = false ∧ c ≠ "-"%char ∧ c ≠ "+"%char.
Proof.
  intros Hc. assert (forallb (λ c, negb (is_digit_char c) || bool_decide
    (is_space c = false ∧ c ≠ "-"%char ∧ c ≠ "+"%char)) all_chars = true) as H
    by (vm_compute; reflexivity).
  pose proof (forall_chars _ H c) as Hx. cbn in Hx. rewrite Hc in Hx.
  by apply bool_decide_eq_true in Hx.
Qed.

(** [stoll] reads back what [to_string] prints. *)
Lemma stoll_itoa n : LLONG_MIN <= n <= LLONG_MAX → stoll (itoa n) = Ret n.
Proof.
  intros Hn. unfold stoll, itoa.
  assert (∀ k, 0 <= k → digits (utoa k) = (utoa k, []) ∧ utoa k ≠ [] ∧
    ∃ c l, utoa k = c :: l ∧ is_space c = false ∧ c ≠ "-"%char ∧ c ≠ "+"%char) as Hk.
  { intros k Hk. pose proof (utoa_digits k Hk) as Hd. pose proof (utoa_nonempty k Hk) as Hne.
    split; [rewrite <-(app_nil_r (utoa k)) at 1; apply digits_all; [done | by left]|].
    split; [done|]. destruct (utoa k) as [|c l]; [done|]. exists c, l. split; [done|].
    apply Forall_cons in Hd as [Hc _]. by apply digit_facts. }
  destruct (n <? 0) eqn:Hneg; bool_hyps.
  - destruct (Hk (- n)) as (Hd & Hne & _); [lia|].
    cbn [skip_spaces]. change (is_space "-"%char) with false. cbn iota.
    rewrite bool_decide_true, Hd by done. rewrite bool_decide_false by done.
    rewrite utoa_value by lia. rewrite Z.opp_involutive.
    rewrite (proj2 (Z.ltb_ge n _)), (proj2 (Z.ltb_ge _ n)) by lia. done.
  - destruct (Hk n) as (Hd & Hne & c & l & Hl & Hc & Hm & Hp); [lia|].
    assert (skip_spaces (utoa n) = utoa n) as -> by (rewrite Hl; cbn; by rewrite Hc).
    rewrite Hl, !bool_decide_false by done. rewrite <-Hl, Hd, bool_decide_false by done.
    rewrite utoa_value by lia.
    rewrite (proj2 (Z.ltb_ge n _)), (proj2 (Z.ltb_ge _ n)) by lia. done.
Qed.
