(* ===== verification/StringView.v ===== *)
(** * [cppboot::string_view] (src/cppboot/base/string_view.h, string_view.cc)

    A view is a pointer into an allocation and a length.  The pointer is kept as
    the bytes from it to the end of the allocation, so that a function which
    reads on past the view (as [strrchr] on [data()] does) meets the bytes that
    are really there, and undefined behaviour after them.

    The search members are proved to return what [std::string]'s return on the
    viewed characters, [compare] to be the sign of the unsigned lexicographic
    order, and the single-character and lookup-table paths to agree. *)

From S2P Require Import Prelude StdString.

Record string_view : Type := SV {
  ptr_ : option bytes;   (* nullptr, or the bytes up to the allocation's end *)
  length_ : Z;
}.

#[export] Instance string_view_eq_dec : EqDecision string_view.
Proof. solve_decision. Defined.

Definition sv_mem (v : string_view) : bytes := default [] (ptr_ v).

(** The viewed characters. *)
Definition chars (v : string_view) : bytes := take (Z.to_nat (length_ v)) (sv_mem v).

(** A view stays inside its allocation, and a null view is empty. *)
Definition sv_ok (v : string_view) : Prop :=
  0 <= length_ v <= len (sv_mem v) ∧ fits (sv_mem v).

(** ** Constructors *)

Definition sv_null : string_view := SV None 0.

(** From a [std::string]: its storage is NUL-terminated. *)
Definition sv_of_string (s : bytes) : string_view := SV (Some (s ++ [NUL])) (len s).

(** [StrlenInternal] *)
Definition StrlenInternal (p : bytes) : outcome Z :=
  s ← c_str p; Ret (len s).

(** From a NUL-terminated [const char*], null allowed. *)
Definition sv_of_cstr (p : option bytes) : outcome string_view :=
  match p with
  | None => Ret (SV None 0)
  | Some q => n ← StrlenInternal q; Ret (SV p n)
  end.

Definition kMaxSize : Z := 2 ^ 63 - 1.

Definition CheckLengthInternal (n : Z) : outcome Z :=
  _ ← cpp_assert (n <=? kMaxSize); Ret n.

(** From a pointer and a length. *)
Definition sv_of_ptr (p : option bytes) (n : Z) : outcome string_view :=
  n ← CheckLengthInternal n; Ret (SV p n).

Definition NullSafeStringView (p : option bytes) : outcome string_view :=
  match p with Some _ => sv_of_cstr p | None => Ret sv_null end.

(** ** Element access *)

Definition size (v : string_view) : Z := length_ v.
Definition empty (v : string_view) : bool := length_ v =? 0.

(** [ptr_[i]]: a read outside the allocation is undefined. *)
Definition read (v : string_view) (i : Z) : outcome ascii :=
  if i <? 0 then Undef else or_undef (sv_mem v !! Z.to_nat i).

Definition sv_index (v : string_view) (i : Z) : outcome ascii :=
  _ ← cpp_assert (i <? size v); read v i.
Definition sv_at (v : string_view) (i : Z) : outcome ascii :=
  if i <? size v then read v i else Throw out_of_range.
Definition front (v : string_view) : outcome ascii :=
  _ ← cpp_assert (negb (empty v)); read v 0.
Definition back (v : string_view) : outcome ascii :=
  _ ← cpp_assert (negb (empty v)); read v (size v - 1).
Definition str (v : string_view) : bytes := chars v.

(** ** Modifiers *)

Definition advance (n : Z) (p : option bytes) : option bytes :=
  drop (Z.to_nat n) <$> p.

Definition remove_prefix (v : string_view) (n : Z) : outcome string_view :=
  _ ← cpp_assert (n <=? length_ v);
  Ret (SV (advance n (ptr_ v)) (length_ v - n)).
Definition remove_suffix (v : string_view) (n : Z) : outcome string_view :=
  _ ← cpp_assert (n <=? length_ v);
  Ret (SV (ptr_ v) (length_ v - n)).
Definition sv_swap (v s : string_view) : string_view * string_view := (s, v).

Definition Min (a b : Z) : Z := if a <? b then a else b.

(** [copy] fills [buf] from its start; the count is returned. *)
Definition copy (v : string_view) (buf : bytes) (n pos : Z) : outcome (Z * bytes) :=
  if length_ v <? pos then Throw out_of_range
  else
    let rlen := Z.min (length_ v - pos) n in
    let start := slice (chars v) pos rlen in
    if len buf <? rlen then Undef
    else Ret (rlen, start ++ drop (Z.to_nat rlen) buf).

Definition substr (v : string_view) (pos n : Z) : outcome string_view :=
  if length_ v <? pos then Throw out_of_range
  else Ret (SV (advance pos (ptr_ v)) (Min n (length_ v - pos))).

Definition ClippedSubstr (v : string_view) (pos n : Z) : outcome string_view :=
  substr v (Z.min pos (size v)) n.

(** ** Comparison *)

(** [memcmp]: the difference of the first mismatched bytes, as unsigned. *)
Fixpoint memcmp (a b : bytes) (n : nat) : Z :=
  match n, a, b with
  | S n, x :: a, y :: b =>
      if uchar x =? uchar y then memcmp a b n else uchar x - uchar y
  | _, _, _ => 0
  end.

Definition CompareImpl (length_a length_b compare_result : Z) : Z :=
  if compare_result =? 0
  then Z.b2z (length_b <? length_a) - Z.b2z (length_a <? length_b)
  else if compare_result <? 0 then -1 else 1.

Definition compare (v x : string_view) : Z :=
  let m := Min (length_ v) (length_ x) in
  CompareImpl (length_ v) (length_ x)
    (if m =? 0 then 0 else memcmp (sv_mem v) (sv_mem x) (Z.to_nat m)).

Definition compare_sub (v : string_view) (pos1 count1 : Z) (x : string_view) : outcome Z :=
  s ← substr v pos1 count1; Ret (compare s x).

Definition sv_eqb (x y : string_view) : bool :=
  (size x =? size y) &&
  (empty x || (memcmp (sv_mem x) (sv_mem y) (Z.to_nat (size x)) =? 0)).
Definition sv_ltb (x y : string_view) : bool := compare x y <? 0.
Definition sv_gtb (x y : string_view) : bool := sv_ltb y x.
Definition sv_leb (x y : string_view) : bool := negb (sv_ltb y x).
Definition sv_geb (x y : string_view) : bool := negb (sv_ltb x y).

(** ** Searching (string_view.cc) *)

(** [memchr(p, c, n)], as an offset from [p]. *)
Fixpoint memchr (p : bytes) (c : ascii) (n : nat) : option nat :=
  match n, p with
  | S n, x :: p => if bool_decide (x = c) then Some 0%nat else S <$> memchr p c n
  | _, _ => None
  end.

(** The loop of [memmatch]: [off] is how far [phaystack] has advanced and [n]
    is [hayend - phaystack]. *)
Fixpoint memmatch_loop (fuel : nat) (hay : bytes) (n : nat) (needle : bytes)
    (neelen : nat) (off : nat) : option nat :=
  match fuel, needle with
  | S fuel, c0 :: _ =>
      match memchr hay c0 n with
      | None => None
      | Some i =>
          if memcmp (drop i hay) needle neelen =? 0 then Some (off + i)%nat
          else memmatch_loop fuel (drop (S i) hay) (n - S i) needle neelen
                 (off + S i)
      end
  | _, _ => None
  end.

Definition memmatch (hay : bytes) (haylen : nat) (needle : bytes) (neelen : nat)
    : option nat :=
  if (neelen =? 0)%nat then Some 0%nat
  else if (haylen <? neelen)%nat then None
  else memmatch_loop (S haylen) hay (haylen - neelen + 1) needle neelen 0.

Section LookupTable.
(** [table_[Index(c)] = true] for every wanted character. *)
Definition LookupTable (wanted : bytes) : list bool :=
  foldl (λ t c, <[Z.to_nat (uchar c) := true]> t) (replicate 256 false) wanted.
Definition tbl_get (t : list bool) (c : ascii) : bool :=
  default false (t !! Z.to_nat (uchar c)).
End LookupTable.

(** [for (i = pos; i < length_; ++i) if (P(ptr_[i])) return i;] with [n] the
    iterations left. *)
Fixpoint for_up (P : ascii → bool) (mem : bytes) (i n : nat) : option nat :=
  match n with
  | O => None
  | S n => if match mem !! i with Some c => P c | None => false end then Some i
           else for_up P mem (S i) n
  end.

(** [for (i = start;; --i) { if (P(ptr_[i])) return i; if (i == 0) break; }] *)
Definition for_down (P : ascii → bool) (mem : bytes) (i : nat) : option nat :=
  rscan P mem i.

Definition loop_up (P : ascii → bool) (v : string_view) (pos : Z) : Z :=
  if pos <? length_ v
  then to_pos (for_up P (sv_mem v) (Z.to_nat pos) (Z.to_nat (length_ v - pos)))
  else npos.
Definition loop_down (P : ascii → bool) (v : string_view) (pos : Z) : Z :=
  to_pos (for_down P (sv_mem v) (Z.to_nat (Z.min pos (length_ v - 1)))).

Definition find (v s : string_view) (pos : Z) : Z :=
  if empty v || (length_ v <? pos)
  then if empty v && (pos =? 0) && empty s then 0 else npos
  else
    match memmatch (drop (Z.to_nat pos) (sv_mem v)) (Z.to_nat (length_ v - pos))
            (sv_mem s) (Z.to_nat (length_ s)) with
    | Some i => pos + Z.of_nat i
    | None => npos
    end.

Definition find_char (v : string_view) (c : ascii) (pos : Z) : Z :=
  if empty v || (length_ v <=? pos) then npos
  else match memchr (drop (Z.to_nat pos) (sv_mem v)) c (Z.to_nat (length_ v - pos)) with
       | Some i => pos + Z.of_nat i
       | None => npos
       end.

(** [std::find_end(first, last, s...)] on [last - first = n] characters: the
    last occurrence that ends by [last]. *)
Definition find_end (hay : bytes) (n : nat) (needle : bytes) : option nat :=
  if (length needle <=? n)%nat then rsearch needle (take n hay) (n - length needle)
  else None.

Definition rfind (v s : string_view) (pos : Z) : Z :=
  if length_ v <? length_ s then npos
  else if empty s then Z.min (length_ v) pos
  else
    let last := Z.min (length_ v - length_ s) pos + length_ s in
    match find_end (sv_mem v) (Z.to_nat last) (chars s) with
    | Some i => Z.of_nat i
    | None => npos
    end.

Definition rfind_char (v : string_view) (c : ascii) (pos : Z) : Z :=
  if empty v then npos else loop_down (is_char c) v pos.

Definition find_first_of_char (v : string_view) (c : ascii) (pos : Z) : Z :=
  find_char v c pos.

Definition find_first_of (v s : string_view) (pos : Z) : outcome Z :=
  if empty v || empty s then Ret npos
  else if length_ s =? 1 then c ← read s 0; Ret (find_first_of_char v c pos)
  else let tbl := LookupTable (chars s) in Ret (loop_up (tbl_get tbl) v pos).

Definition find_first_not_of_char (v : string_view) (c : ascii) (pos : Z) : Z :=
  if empty v then npos else loop_up (λ x, negb (is_char c x)) v pos.

Definition find_first_not_of (v s : string_view) (pos : Z) : outcome Z :=
  if empty v then Ret npos
  else if length_ s =? 1 then c ← read s 0; Ret (find_first_not_of_char v c pos)
  else let tbl := LookupTable (chars s) in
       Ret (loop_up (λ c, negb (tbl_get tbl c)) v pos).

Definition find_last_of (v s : string_view) (pos : Z) : outcome Z :=
  if empty v || empty s then Ret npos
  else if length_ s =? 1 then c ← read s 0; Ret (rfind_char v c pos)
  else let tbl := LookupTable (chars s) in Ret (loop_down (tbl_get tbl) v pos).

Definition find_last_not_of_char (v : string_view) (c : ascii) (pos : Z) : Z :=
  if empty v then npos else loop_down (λ x, negb (is_char c x)) v pos.

Definition find_last_not_of (v s : string_view) (pos : Z) : outcome Z :=
  if empty v then Ret npos
  else
    let i := Z.min pos (length_ v - 1) in
    if empty s then Ret i
    else if length_ s =? 1 then c ← read s 0; Ret (find_last_not_of_char v c pos)
    else let tbl := LookupTable (chars s) in
         Ret (loop_down (λ c, negb (tbl_get tbl c)) v pos).

(** * Properties *)

Lemma chars_mem v : sv_ok v → sv_mem v = chars v ++ drop (Z.to_nat (length_ v)) (sv_mem v).
Proof. intros _. unfold chars. by rewrite take_drop. Qed.

Lemma len_chars v : sv_ok v → len (chars v) = length_ v.
Proof. intros [H _]. unfold chars. rewrite len_take. lia. Qed.

Lemma length_chars v : sv_ok v → length (chars v) = Z.to_nat (length_ v).
Proof. intros H. pose proof (len_chars v H). lia. Qed.

Lemma sv_ok_null : sv_ok sv_null.
Proof. split; cbn; lia. Qed.

Lemma sv_ok_string s : len s < 2 ^ 63 - 1 → sv_ok (sv_of_string s).
Proof. intros H. split; cbn; autorewrite with len; lia. Qed.

Lemma chars_of_string s : chars (sv_of_string s) = s.
Proof. unfold chars. cbn. by rewrite Nat2Z.id, take_app_length. Qed.

Lemma chars_null : chars sv_null = [].
Proof. done. Qed.

Lemma empty_chars v : sv_ok v → empty v = bool_decide (chars v = []).
Proof.
  intros H. unfold empty. pose proof (len_chars v H) as Hl.
  case_bool_decide as Hc.
  - rewrite Hc in Hl. cbn in Hl. lia.
  - destruct (chars v); [done|]. cbn [length] in Hl. lia.
Qed.

#[export] Hint Resolve sv_ok_null sv_ok_string : cpp.

(** [substr] on the viewed characters *)
Lemma substr_spec v pos n :
  sv_ok v → 0 <= pos → 0 <= n →
  if length_ v <? pos then substr v pos n = Throw out_of_range
  else ∃ w, substr v pos n = Ret w ∧ sv_ok w ∧ chars w = slice (chars v) pos n
            ∧ ptr_ w = advance pos (ptr_ v)
            ∧ length_ w = Z.min n (length_ v - pos).
Proof.
  intros Hv Hpos Hn. unfold substr.
  destruct (length_ v <? pos) eqn:Hlt; [done|]. bool_hyps.
  pose proof (len_chars v Hv) as Hl. destruct Hv as [Hv Hf].
  assert (Min n (length_ v - pos) = Z.min n (length_ v - pos)) as HM.
  { unfold Min. split_tests. }
  eexists; split; [done|]. rewrite HM.
  assert (sv_mem (SV (advance pos (ptr_ v)) (Z.min n (length_ v - pos)))
          = drop (Z.to_nat pos) (sv_mem v)) as Hm.
  { unfold sv_mem, advance; cbn. destruct (ptr_ v); cbn; [done|].
    by rewrite drop_nil. }
  split_and!; [|..].
  - split; [rewrite Hm|rewrite Hm]; cbn; autorewrite with len; lia.
  - unfold chars at 1. rewrite Hm. cbn [length_]. unfold slice. rewrite Hl.
    unfold chars. rewrite skipn_firstn_comm, take_take. f_equal. lia.
  - done.
  - done.
Qed.

Lemma substr_ok v pos n :
  sv_ok v → 0 <= pos <= length_ v → 0 <= n →
  ∃ w, substr v pos n = Ret w ∧ sv_ok w ∧ chars w = slice (chars v) pos n
       ∧ ptr_ w = advance pos (ptr_ v) ∧ length_ w = Z.min n (length_ v - pos).
Proof.
  intros Hv Hp Hn. pose proof (substr_spec v pos n Hv ltac:(lia) Hn) as H.
  destruct (_ <? _) eqn:?; [lia | done].
Qed.

(** ** memchr, memcmp and memmatch *)

Lemma scan_shift P l i j : scan P l (i + j) = (λ k, (i + k)%nat) <$> scan P l j.
Proof.
  revert j. induction l as [|c l IH]; intros j; [done|]. cbn.
  destruct (P c); [done|]. rewrite <-IH. f_equal. lia.
Qed.

Lemma scan_shift0 P l i : scan P l i = (λ k, (i + k)%nat) <$> scan P l 0.
Proof. by rewrite <-(scan_shift P l i 0), Nat.add_0_r. Qed.

Lemma memchr_scan p c n : memchr p c n = scan (is_char c) (take n p) 0.
Proof.
  revert n. induction p as [|x p IH]; intros [|n]; try done.
  cbn. unfold is_char at 1. case_bool_decide; [done|].
  rewrite IH. rewrite (scan_shift0 _ _ 1). by destruct (scan _ _ 0).
Qed.

Lemma memcmp_zero a b n :
  (n ≤ length a)%nat → (n ≤ length b)%nat →
  memcmp a b n = 0 ↔ take n a = take n b.
Proof.
  revert a b. induction n as [|n IH]; intros [|x a] [|y b]; cbn; try done; try lia.
  intros Ha Hb. destruct (uchar x =? uchar y) eqn:Hxy; bool_hyps.
  - apply uchar_inj in Hxy as ->. rewrite IH by lia. split; [by intros -> | by intros [= ->]].
  - split; [lia|]. intros [= ->]. done.
Qed.

Lemma prefix_take_drop (needle l : bytes) k :
  (k + length needle ≤ length l)%nat →
  needle `prefix_of` drop k l ↔ take (length needle) (drop k l) = needle.
Proof.
  intros Hl. split.
  - intros [r ->]. by rewrite take_app_length.
  - intros H. rewrite <-H. apply prefix_take.
Qed.

Lemma memmatch_loop_spec fuel hay n needle neelen off :
  (n < fuel)%nat → (0 < neelen ≤ length needle)%nat →
  (n + neelen - 1 ≤ length hay)%nat →
  match memmatch_loop fuel hay n needle neelen off with
  | Some j => ∃ k, j = (off + k)%nat ∧ (k < n)%nat ∧
                take neelen needle `prefix_of` drop k hay ∧
                ∀ i, (i < k)%nat → ¬ take neelen needle `prefix_of` drop i hay
  | None => ∀ i, (i < n)%nat → ¬ take neelen needle `prefix_of` drop i hay
  end.
Proof.
  revert hay n off. induction fuel as [|fuel IH]; intros hay n off Hf Hn Hh; [lia|].
  destruct needle as [|c0 needle]; [cbn in *; lia|]. cbn [memmatch_loop].
  assert (∀ i, (i < n)%nat → hay !! i ≠ Some c0 →
    ¬ take neelen (c0 :: needle) `prefix_of` drop i hay) as Hhead.
  { intros i _ Hi [r Hr]. destruct neelen as [|ne]; [lia|].
    apply Hi. rewrite <-(Nat.add_0_r i), <-lookup_drop, Hr. done. }
  rewrite memchr_scan. destruct (scan _ _ _) as [i|] eqn:Hs.
  - apply scan_Some in Hs as (l1 & c & l2 & Heq & H1 & ->%is_char_true & ->).
    rewrite Nat.add_0_r. assert (length l1 < n)%nat as Hin.
    { apply (f_equal length) in Heq. rewrite length_take, length_app in Heq.
      cbn in Heq. lia. }
    assert (∀ k, (k < length l1)%nat → hay !! k ≠ Some c0) as Hbefore.
    { intros k Hk Hc. rewrite <-(lookup_take_lt hay n k) in Hc by lia.
      rewrite Heq, lookup_app_l in Hc by lia.
      apply Forall_not_char in H1. apply H1. by eapply list_elem_of_lookup_2. }
    assert (memcmp (drop (length l1) hay) (c0 :: needle) neelen = 0 ↔
            take neelen (c0 :: needle) `prefix_of` drop (length l1) hay) as Hcmp.
    { rewrite memcmp_zero by (rewrite ?length_drop; lia).
      rewrite prefix_take_drop by (rewrite length_take; lia).
      rewrite length_take, Nat.min_l by lia. naive_solver. }
    destruct (_ =? 0) eqn:Hz; bool_hyps.
    + exists (length l1). split_and!; [lia | lia | by apply Hcmp |].
      intros k Hk. apply Hhead; [lia | by apply Hbefore].
    + specialize (IH (drop (S (length l1)) hay) (n - S (length l1))%nat
        (off + S (length l1))%nat ltac:(lia) Hn ltac:(rewrite length_drop; lia)).
      assert (∀ i, (i < n)%nat →
        (i ≤ length l1)%nat → ¬ take neelen (c0 :: needle) `prefix_of` drop i hay)
        as Hle.
      { intros i ? ?. destruct (decide (i = length l1)) as [->|].
        - intros ?%Hcmp. done.
        - apply Hhead; [lia|]. apply Hbefore. lia. }
      destruct (memmatch_loop _ _ _ _ _ _) as [j|].
      * destruct IH as (k & -> & Hk & Hp & Hno). exists (S (length l1) + k)%nat.
        rewrite drop_drop in Hp.
        split_and!; [lia | lia | done |]. intros i Hi.
        destruct (decide (i ≤ length l1)%nat); [apply Hle; lia|].
        replace i with (S (length l1) + (i - S (length l1)))%nat by lia.
        rewrite <-drop_drop. apply Hno. lia.
      * intros i Hi. destruct (decide (i ≤ length l1)%nat); [apply Hle; lia|].
        replace i with (S (length l1) + (i - S (length l1)))%nat by lia.
        rewrite <-drop_drop. apply IH. lia.
  - intros i Hi. apply Hhead; [done|]. intros Hc.
    apply scan_None, Forall_not_char in Hs. apply Hs.
    apply (list_elem_of_lookup_2 _ i). by rewrite lookup_take_lt.
Qed.

(** [memmatch] finds what a left-to-right search finds. *)
Lemma memmatch_search hay haylen needle neelen :
  (haylen ≤ length hay)%nat → (neelen ≤ length needle)%nat →
  memmatch hay haylen needle neelen
  = search (take neelen needle) (take haylen hay) 0.
Proof.
  intros Hh Hn. unfold memmatch.
  destruct (neelen =? 0)%nat eqn:H0.
  { apply Nat.eqb_eq in H0 as ->. cbn. destruct (take haylen hay); cbn;
      (rewrite bool_decide_true by apply prefix_nil); done. }
  apply Nat.eqb_neq in H0.
  destruct (haylen <? neelen)%nat eqn:Hlt.
  { apply Nat.ltb_lt in Hlt. symmetry. apply search_None.
    intros k Hk Hp%prefix_length. rewrite length_drop, !length_take in Hp. lia. }
  apply Nat.ltb_ge in Hlt.
  pose proof (memmatch_loop_spec (S haylen) hay (haylen - neelen + 1) needle neelen 0
    ltac:(lia) ltac:(lia) ltac:(lia)) as H.
  assert (∀ k, take neelen needle `prefix_of` drop k (take haylen hay) ↔
    (k < haylen - neelen + 1)%nat ∧ take neelen needle `prefix_of` drop k hay) as Hiff.
  { intros k. rewrite skipn_firstn_comm. split.
    - intros Hp. pose proof (prefix_length _ _ Hp) as Hl.
      rewrite !length_take, length_drop in Hl. split; [lia|].
      etrans; [apply Hp | apply prefix_take].
    - intros [Hk [r Hr]]. rewrite Hr, take_app_ge by (rewrite length_take; lia).
      by apply prefix_app_r. }
  destruct (memmatch_loop _ _ _ _ _ _) as [j|]; symmetry.
  - destruct H as (k & -> & Hk & Hp & Hno). apply search_Some.
    cbn. rewrite Nat.sub_0_r. split_and!; [lia | rewrite length_take; lia | by apply Hiff |].
    intros i Hi [_ Hpi]%Hiff. by apply (Hno i Hi).
  - apply search_None. intros k _ [Hk Hp]%Hiff. by apply (H k Hk).
Qed.

(** ** The search members agree with [std::string] *)

Section search_members.
Context (v s : string_view) (pos : Z).
Context (Hv : sv_ok v) (Hs : sv_ok s) (Hpos : 0 <= pos <= npos).

Lemma find_string : find v s pos = str_find (chars v) (chars s) pos.
Proof using Hv Hs Hpos.
  unfold find, str_find. rewrite (len_chars v Hv).
  pose proof (len_chars v Hv) as Hlv. pose proof (len_chars s Hs) as Hls.
  destruct (empty v || (length_ v <? pos)) eqn:He.
  - destruct (empty v) eqn:Hev; cbn in *.
    + unfold empty in Hev. bool_hyps. rewrite Hev in *.
      apply len_zero_nil in Hlv as ->. rewrite drop_nil, search_nil.
      destruct (pos =? 0) eqn:Hp, (pos <=? 0) eqn:?; bool_hyps; try lia; cbn.
      * subst pos. rewrite (empty_chars s Hs). by case_bool_decide.
      * done.
    + bool_hyps. destruct (pos <=? length_ v) eqn:?; [lia | done].
  - bool_hyps. destruct (pos <=? length_ v) eqn:?; [|lia].
    rewrite memmatch_search by (destruct Hv, Hs; rewrite ?length_drop; lia).
    replace (take (Z.to_nat (length_ v - pos)) (drop (Z.to_nat pos) (sv_mem v)))
      with (drop (Z.to_nat pos) (chars v)).
    2:{ unfold chars. rewrite skipn_firstn_comm. f_equal. lia. }
    change (take (Z.to_nat (length_ s)) (sv_mem s)) with (chars s).
    generalize (drop (Z.to_nat pos) (chars v)) as l. intros l.
    rewrite (search_shift _ _ (Z.to_nat pos)).
    destruct (search (chars s) l 0); cbn; lia || done.
Qed.

Lemma find_char_string c : find_char v c pos = str_find_char (chars v) c pos.
Proof using Hv Hpos.
  unfold find_char, str_find_char, str_find_if, empty. rewrite (len_chars v Hv).
  destruct (_ || _) eqn:He, (pos <? length_ v) eqn:Hlt; bool_hyps; try done;
    [destruct (length_ v =? 0) eqn:?; lia | | lia].
  rewrite memchr_scan.
  replace (take (Z.to_nat (length_ v - pos)) (drop (Z.to_nat pos) (sv_mem v)))
    with (drop (Z.to_nat pos) (chars v))
    by (unfold chars; rewrite skipn_firstn_comm; f_equal; lia).
  rewrite (scan_shift0 _ _ (Z.to_nat pos)). destruct (scan _ _ 0); cbn; lia || done.
Qed.
End search_members.

(** ** The lookup table *)

Lemma LookupTable_from w t c :
  length t = 256%nat →
  tbl_get (foldl (λ t c, <[Z.to_nat (uchar c) := true]> t) t w) c
  = tbl_get t c || in_set w c.
Proof.
  revert t. induction w as [|x w IH]; intros t Ht; cbn [foldl].
  { rewrite (proj2 (in_set_false [] c)) by set_solver. by rewrite orb_false_r. }
  rewrite IH by (by rewrite length_insert).
  assert (in_set (x :: w) c = bool_decide (c = x) || in_set w c) as ->.
  { unfold in_set. rewrite <-bool_decide_or. apply bool_decide_ext. set_solver. }
  rewrite orb_assoc. f_equal. unfold tbl_get.
  case_bool_decide as Hc.
  - subst x. pose proof (uchar_range c).
    rewrite list_lookup_insert_eq by lia. cbn. by rewrite orb_true_r.
  - rewrite orb_false_r, list_lookup_insert_ne; [done|].
    intros Heq. apply Hc, uchar_inj.
    pose proof (uchar_range c). pose proof (uchar_range x). lia.
Qed.

(** The table answers membership in the wanted set. *)
Lemma tbl_get_LookupTable w c : tbl_get (LookupTable w) c = in_set w c.
Proof.
  unfold LookupTable. rewrite LookupTable_from by apply length_replicate.
  unfold tbl_get. destruct (_ !! _) eqn:Hl; cbn; [|done].
  apply lookup_replicate in Hl as [-> _]. done.
Qed.

(** ** The loops *)

Lemma for_up_scan P mem i n :
  (i + n ≤ length mem)%nat →
  for_up P mem i n = scan P (take n (drop i mem)) i.
Proof.
  revert i. induction n as [|n IH]; intros i Hl; [done|].
  cbn [for_up]. destruct (lookup_lt_is_Some_2 mem i ltac:(lia)) as [c Hc].
  rewrite Hc, (drop_S _ _ _ Hc). cbn. destruct (P c); [done|]. apply IH. lia.
Qed.

Section loops.
Context (v : string_view) (pos : Z) (P : ascii → bool).
Context (Hv : sv_ok v) (Hpos : 0 <= pos <= npos).

Lemma loop_up_string : loop_up P v pos = str_find_if P (chars v) pos.
Proof using Hv Hpos.
  unfold loop_up, str_find_if. rewrite (len_chars v Hv).
  destruct (pos <? length_ v) eqn:?; [|done]. bool_hyps. destruct Hv as [? _].
  rewrite for_up_scan by lia. unfold chars. rewrite skipn_firstn_comm.
  do 3 f_equal. lia.
Qed.

Lemma loop_down_string :
  empty v = false → loop_down P v pos = str_rfind_if P (chars v) pos.
Proof using Hv Hpos.
  unfold loop_down, str_rfind_if, for_down, empty. rewrite (len_chars v Hv).
  intros He. rewrite He. bool_hyps. destruct Hv as [? _]. f_equal.
  assert (Z.to_nat (Z.min pos (length_ v - 1)) < Z.to_nat (length_ v))%nat as Hi by lia.
  generalize dependent (Z.to_nat (Z.min pos (length_ v - 1))). intros i Hi.
  unfold chars. induction i as [|i IH]; cbn [rscan];
    rewrite lookup_take_lt by lia; [done|]. by rewrite IH by lia.
Qed.
End loops.

(** A one-character set is read back from the view. *)
Lemma read_singleton s :
  sv_ok s → length_ s = 1 → ∃ c, read s 0 = Ret c ∧ chars s = [c].
Proof.
  intros Hs H1. pose proof (len_chars s Hs) as Hl. unfold read. cbn.
  unfold chars in *. rewrite H1 in *. change (Z.to_nat 1) with 1%nat in *. destruct (sv_mem s) as [|c l]; [cbn in *; lia|].
  exists c. done.
Qed.

Lemma chars_empty_true v : sv_ok v → empty v = true → chars v = [].
Proof. intros Hv. rewrite (empty_chars v Hv). by intros ?%bool_decide_eq_true. Qed.

Section set_members.
Context (v s : string_view) (pos : Z).
Context (Hv : sv_ok v) (Hs : sv_ok s) (Hpos : 0 <= pos <= npos).

Lemma str_rfind_if_ext P Q l : (∀ c, P c = Q c) → str_rfind_if P l pos = str_rfind_if Q l pos.
Proof using. intros H. unfold str_rfind_if. by rewrite (rscan_ext P Q). Qed.
Lemma str_find_if_ext P Q l : (∀ c, P c = Q c) → str_find_if P l pos = str_find_if Q l pos.
Proof using. intros H. unfold str_find_if. by rewrite (scan_ext P Q). Qed.
Lemma str_find_if_nil P : str_find_if P [] pos = npos.
Proof using. unfold str_find_if. rewrite drop_nil. by destruct (_ <? _). Qed.

Lemma find_first_of_string :
  find_first_of v s pos = Ret (str_find_first_of (chars v) (chars s) pos).
Proof using Hv Hs Hpos.
  unfold find_first_of, str_find_first_of.
  destruct (empty v) eqn:He.
  { rewrite (chars_empty_true v Hv He). by rewrite str_find_if_nil. }
  destruct (empty s) eqn:Hes; cbn [orb].
  { rewrite (chars_empty_true s Hs Hes). unfold str_find_if.
    destruct (_ <? _); [|done]. rewrite scan_miss; [done|].
    apply Forall_forall. intros c _. apply in_set_false. set_solver. }
  destruct (length_ s =? 1) eqn:H1; bool_hyps.
  - destruct (read_singleton s Hs H1) as (c & -> & ->). cbn. f_equal.
    unfold find_first_of_char. rewrite find_char_string by done.
    apply str_find_if_ext. intros x. by rewrite in_set_singleton.
  - f_equal. rewrite loop_up_string by done. apply str_find_if_ext.
    apply tbl_get_LookupTable.
Qed.

Lemma find_first_not_of_string :
  find_first_not_of v s pos = Ret (str_find_first_not_of (chars v) (chars s) pos).
Proof using Hv Hs Hpos.
  unfold find_first_not_of, str_find_first_not_of, find_first_not_of_char.
  destruct (empty v) eqn:He.
  { rewrite (chars_empty_true v Hv He). by rewrite str_find_if_nil. }
  destruct (length_ s =? 1) eqn:H1; bool_hyps.
  - destruct (read_singleton s Hs H1) as (c & -> & ->). cbn. f_equal.
    rewrite loop_up_string by done. apply str_find_if_ext.
    intros x. by rewrite in_set_singleton.
  - f_equal. rewrite loop_up_string by done. apply str_find_if_ext.
    intros c. by rewrite tbl_get_LookupTable.
Qed.

Lemma str_rfind_if_nil P : str_rfind_if P [] pos = npos.
Proof using. done. Qed.

Lemma find_last_of_string :
  find_last_of v s pos = Ret (str_find_last_of (chars v) (chars s) pos).
Proof using Hv Hs Hpos.
  unfold find_last_of, str_find_last_of, rfind_char.
  destruct (empty v) eqn:He.
  { by rewrite (chars_empty_true v Hv He). }
  destruct (empty s) eqn:Hes; cbn [orb].
  { rewrite (chars_empty_true s Hs Hes). unfold str_rfind_if.
    destruct (_ =? 0); [done|]. f_equal.
    replace (rscan _ _ _) with (@None nat); [done|]. symmetry.
    apply rscan_None. intros k c _ _. apply in_set_false. set_solver. }
  destruct (length_ s =? 1) eqn:H1; bool_hyps.
  - destruct (read_singleton s Hs H1) as (c & -> & ->). cbn. f_equal.
    rewrite loop_down_string by done. apply str_rfind_if_ext.
    intros x. by rewrite in_set_singleton.
  - f_equal. rewrite loop_down_string by done. apply str_rfind_if_ext.
    apply tbl_get_LookupTable.
Qed.

Lemma find_last_not_of_string :
  find_last_not_of v s pos = Ret (str_find_last_not_of (chars v) (chars s) pos).
Proof using Hv Hs Hpos.
  unfold find_last_not_of, str_find_last_not_of, find_last_not_of_char.
  destruct (empty v) eqn:He.
  { by rewrite (chars_empty_true v Hv He). }
  destruct (empty s) eqn:Hes.
  { rewrite (chars_empty_true s Hs Hes). f_equal.
    rewrite <-loop_down_string by done. unfold loop_down, for_down.
    unfold empty in He. bool_hyps. destruct Hv as [? _].
    set (i := Z.min pos (length_ v - 1)). assert (0 <= i < length_ v) as Hi by lia.
    destruct (lookup_lt_is_Some_2 (sv_mem v) (Z.to_nat i) ltac:(lia)) as [c Hc].
    replace (rscan _ _ _) with (Some (Z.to_nat i)); [cbn; lia|].
    symmetry. apply rscan_Some. split_and!; [lia | | lia].
    exists c. split; [done|]. by rewrite (proj2 (in_set_false [] c)) by set_solver. }
  destruct (length_ s =? 1) eqn:H1; bool_hyps.
  - destruct (read_singleton s Hs H1) as (c & -> & ->). cbn. f_equal.
    rewrite loop_down_string by done. apply str_rfind_if_ext.
    intros x. by rewrite in_set_singleton.
  - f_equal. rewrite loop_down_string by done. apply str_rfind_if_ext.
    intros c. by rewrite tbl_get_LookupTable.
Qed.

Lemma rfind_string : rfind v s pos = str_rfind (chars v) (chars s) pos.
Proof using Hv Hs Hpos.
  unfold rfind, str_rfind. rewrite (len_chars v Hv), (len_chars s Hs).
  pose proof (length_chars v Hv) as Hlv. pose proof (length_chars s Hs) as Hls.
  destruct Hv as [Hv1 _], Hs as [Hs1 _].
  destruct (length_ v <? length_ s) eqn:Hlt, (length_ s <=? length_ v) eqn:?;
    bool_hyps; try lia; try done.
  destruct (empty s) eqn:Hes.
  { rewrite (chars_empty_true s Hs Hes). unfold empty in Hes. bool_hyps.
    replace (rsearch [] _ _) with (Some (Z.to_nat (Z.min pos (length_ v - length_ s))));
      [cbn; lia|].
    symmetry. apply rsearch_Some. split_and!; [lia | apply prefix_nil | lia]. }
  unfold empty in Hes. bool_hyps. unfold find_end.
  rewrite (proj2 (Nat.leb_le _ _)) by lia.
  replace (Z.to_nat (Z.min (length_ v - length_ s) pos + length_ s) - length (chars s))%nat
    with (Z.to_nat (Z.min pos (length_ v - length_ s))) by lia.
  replace (match rsearch _ _ _ with Some i => Z.of_nat i | None => npos end)
    with (to_pos (rsearch (chars s)
      (take (Z.to_nat (Z.min (length_ v - length_ s) pos + length_ s)) (sv_mem v))
      (Z.to_nat (Z.min pos (length_ v - length_ s))))) by done.
  f_equal. set (n := Z.to_nat (Z.min (length_ v - length_ s) pos + length_ s)).
  remember (chars s) as cs eqn:Hcs. clear Hcs.
  assert (∀ i, (i ≤ Z.to_nat (Z.min pos (length_ v - length_ s)))%nat →
    cs `prefix_of` drop i (take n (sv_mem v)) ↔ cs `prefix_of` drop i (chars v)) as Hp.
  { intros i Hi.
    rewrite !prefix_take_drop by (rewrite ?length_take; lia).
    unfold chars. rewrite !skipn_firstn_comm, !take_take.
    replace (length cs `min` (n - i))%nat
      with (length cs `min` (Z.to_nat (length_ v) - i))%nat by lia. done. }
  by apply rsearch_ext.
Qed.
End set_members.

(** ** Comparison *)

Lemma memcmp_cmp a b n :
  (n ≤ length a)%nat → (n ≤ length b)%nat →
  match bytes_cmp (take n a) (take n b) with
  | Eq => memcmp a b n = 0
  | Lt => memcmp a b n < 0
  | Gt => 0 < memcmp a b n
  end.
Proof.
  revert a b. induction n as [|n IH]; intros [|x a] [|y b]; cbn; try done; try lia.
  intros Ha Hb. destruct (uchar x =? uchar y) eqn:Hxy; bool_hyps.
  - rewrite Hxy, Z.compare_refl. apply IH; lia.
  - destruct (uchar x ?= uchar y) eqn:Hc.
    + apply Z.compare_eq in Hc. done.
    + rewrite Z.compare_lt_iff in Hc. lia.
    + rewrite Z.compare_gt_iff in Hc. lia.
Qed.

(** On a common prefix of the shorter length, the lengths decide. *)
Lemma bytes_cmp_take a b n :
  n = Nat.min (length a) (length b) →
  bytes_cmp a b = match bytes_cmp (take n a) (take n b) with
                  | Eq => (length a ?= length b)%nat | c => c end.
Proof.
  intros ->. revert b. induction a as [|x a IH]; intros [|y b]; cbn; try done.
  destruct (uchar x ?= uchar y); [|done..]. apply IH.
Qed.

(** [compare] is -1, 0 or 1 as the viewed characters order. *)
Lemma compare_cmp v x :
  sv_ok v → sv_ok x →
  compare v x = match bytes_cmp (chars v) (chars x) with
                | Eq => 0 | Lt => -1 | Gt => 1 end.
Proof.
  intros Hv Hx. pose proof (length_chars v Hv) as Hlv.
  pose proof (length_chars x Hx) as Hlx.
  destruct Hv as [Hv _], Hx as [Hx _]. unfold compare.
  assert (Min (length_ v) (length_ x) = Z.min (length_ v) (length_ x)) as ->.
  { unfold Min. split_tests. }
  set (n := Z.to_nat (Z.min (length_ v) (length_ x))).
  rewrite (bytes_cmp_take _ _ n) by lia.
  assert (∀ w, (length_ w = length_ v ∨ length_ w = length_ x) →
    0 <= length_ w → take n (chars w) = take n (sv_mem w)) as Ht.
  { intros w Hw ?. unfold chars. rewrite take_take. f_equal. lia. }
  rewrite !Ht by (auto with lia).
  pose proof (memcmp_cmp (sv_mem v) (sv_mem x) n ltac:(lia) ltac:(lia)) as Hc.
  replace (if Z.min (length_ v) (length_ x) =? 0 then 0 else _)
    with (memcmp (sv_mem v) (sv_mem x) n).
  2:{ destruct (_ =? 0) eqn:E; bool_hyps; [|done].
      unfold n. rewrite E. by destruct (sv_mem v). }
  unfold CompareImpl. rewrite Hlv, Hlx.
  destruct (bytes_cmp (take n (sv_mem v)) (take n (sv_mem x))).
  - rewrite Hc. cbn. destruct (Nat.compare_spec (Z.to_nat (length_ v)) (Z.to_nat (length_ x)));
      destruct (length_ x <? length_ v) eqn:?, (length_ v <? length_ x) eqn:?; cbn; lia.
  - split_tests.
  - split_tests.
Qed.

Lemma sv_eqb_chars x y : sv_ok x → sv_ok y → sv_eqb x y = bool_decide (chars x = chars y).
Proof.
  intros Hx Hy. pose proof (length_chars x Hx) as Hlx. pose proof (length_chars y Hy) as Hly.
  destruct Hx as [Hx _], Hy as [Hy _]. unfold sv_eqb, size, empty.
  destruct (length_ x =? length_ y) eqn:Hl; bool_hyps; cbn [andb].
  - assert (memcmp (sv_mem x) (sv_mem y) (Z.to_nat (length_ x)) = 0 ↔ chars x = chars y) as H.
    { rewrite memcmp_zero by lia. unfold chars. by rewrite Hl. }
    destruct (length_ x =? 0) eqn:H0; bool_hyps; cbn.
    + symmetry. apply bool_decide_eq_true.
      unfold chars. by rewrite <-Hl, H0.
    + rewrite <-Z.eqb_eq in H. symmetry. destruct (_ =? 0).
      * apply bool_decide_eq_true. by apply H.
      * apply bool_decide_eq_false. intros ?%H. done.
  - symmetry. apply bool_decide_eq_false. intros Heq.
    rewrite Heq in Hlx. lia.
Qed.

Lemma sv_ltb_cmp x y :
  sv_ok x → sv_ok y → sv_ltb x y = true ↔ bytes_cmp (chars x) (chars y) = Lt.
Proof.
  intros Hx Hy. unfold sv_ltb. rewrite compare_cmp by done.
  destruct (bytes_cmp _ _); cbn; done.
Qed.

(** ** Properties *)

(** Every search member of [string_view] (memmatch's memchr/memcmp loop, the
    reverse searches, and the four set searches with their one-character and
    lookup-table paths) returns the position [std::string]'s member of the same
    name returns on the viewed characters, for every starting position. *)
Theorem string_view_search_refines (v s : string_view) (pos : Z) :
  sv_ok v → sv_ok s → 0 <= pos <= npos →
  find v s pos = str_find (chars v) (chars s) pos ∧
  rfind v s pos = str_rfind (chars v) (chars s) pos ∧
  find_first_of v s pos = Ret (str_find_first_of (chars v) (chars s) pos) ∧
  find_first_not_of v s pos = Ret (str_find_first_not_of (chars v) (chars s) pos) ∧
  find_last_of v s pos = Ret (str_find_last_of (chars v) (chars s) pos) ∧
  find_last_not_of v s pos = Ret (str_find_last_not_of (chars v) (chars s) pos).
Proof.
  intros Hv Hs Hp. split_and!.
  - by apply find_string.
  - by apply rfind_string.
  - by apply find_first_of_string.
  - by apply find_first_not_of_string.
  - by apply find_last_of_string.
  - by apply find_last_not_of_string.
Qed.

Lemma string_view_search_refines_witness :
  find (SV (Some (bs "a,b, c,d ")) 8) (sv_of_string (bs ", ")) 2
  = str_find (bs "a,b, c,d") (bs ", ") 2.
Proof.
  refine (proj1 (string_view_search_refines (SV (Some (bs "a,b, c,d ")) 8)
    (sv_of_string (bs ", ")) 2 _ _ _)); vm_compute; intuition discriminate.
Defined.

(** [compare] is the three-way unsigned lexicographic order of the viewed
    characters: [==] is equality of the characters, exactly one of [<], [==],
    [>] holds, [<] is transitive, and the derived operators follow. *)
Theorem string_view_total_order (x y z : string_view) :
  sv_ok x → sv_ok y → sv_ok z →
  (sv_eqb x y = true ↔ chars x = chars y) ∧
  (sv_eqb x y = true ↔ compare x y = 0) ∧
  compare y x = - compare x y ∧
  (sv_ltb x y = true → sv_ltb y z = true → sv_ltb x z = true) ∧
  sv_leb x y = (sv_ltb x y || sv_eqb x y).
Proof.
  intros Hx Hy Hz. unfold sv_leb.
  rewrite !sv_ltb_cmp, sv_eqb_chars, !compare_cmp by done.
  rewrite (bytes_cmp_antisym (chars x) (chars y)).
  split_and!.
  - by rewrite bool_decide_eq_true.
  - rewrite bool_decide_eq_true, <-bytes_cmp_eq. by destruct (bytes_cmp _ _).
  - by destruct (bytes_cmp _ _).
  - apply bytes_cmp_lt_trans.
  - unfold sv_ltb. rewrite !compare_cmp by done.
    rewrite (bytes_cmp_antisym (chars x) (chars y)).
    case_bool_decide as He.
    + rewrite He, bytes_cmp_refl. done.
    + destruct (bytes_cmp _ _) eqn:Hc; [by apply bytes_cmp_eq in Hc | done..].
Qed.

Lemma string_view_total_order_witness :
  sv_eqb (sv_of_string (bs "ab")) (sv_of_string (bs "abc")) = true ↔
  chars (sv_of_string (bs "ab")) = chars (sv_of_string (bs "abc")).
Proof.
  refine (proj1 (string_view_total_order (sv_of_string (bs "ab"))
    (sv_of_string (bs "abc")) (sv_of_string []) _ _ _));
    vm_compute; intuition discriminate.
Defined.
