(* ===== verification/StrUtil.v ===== *)
(** * String utilities (src/cppboot/base/str_util.h, str_util.cc)

    Each function keeps the shape of its C++ body: views for [string_view]
    arguments, explicit fuel for the [while] loops, [outcome] for what can
    throw.  Reference functions ([split], [words], [replace_all], [drop_set])
    say what they are for, and the equivalence theorems tie the two. *)

From S2P Require Import Prelude StdString StringView.

(** A string literal seen through a view. *)
Definition lit (s : bytes) : string_view := sv_of_string s.

Definition kSpaceChars : bytes := [SP; HT; CR; LF].

(** [tolower] in the "C" locale, on the value of an [int]. *)
Definition tolower (c : Z) : Z := if (65 <=? c) && (c <=? 90) then c + 32 else c.

(** [memcasecmp] *)
Fixpoint memcasecmp (s1 s2 : bytes) (n : nat) : Z :=
  match n, s1, s2 with
  | S n, c1 :: s1, c2 :: s2 =>
      let diff := tolower (uchar c1) - tolower (uchar c2) in
      if diff =? 0 then memcasecmp s1 s2 n else diff
  | _, _, _ => 0
  end.

Definition StrCat2 (a b : bytes) : bytes := ([] ++ a) ++ b.
Definition StrCat3 (a b c : bytes) : bytes := (([] ++ a) ++ b) ++ c.
Definition StrCat4 (a b c d : bytes) : bytes := ((([] ++ a) ++ b) ++ c) ++ d.

(** [to_string(string_view)] and [StrAppend] *)
Definition to_string (v : string_view) : bytes := chars v.
Definition StrAppend (s : bytes) (other : string_view) : bytes := s ++ chars other.

(** ** StrSplit *)

Fixpoint StrSplit_loop (fuel : nat) (text : string_view) (delimiter : ascii)
    (new_pos : Z) (result : list bytes) : outcome (list bytes) :=
  match fuel with
  | O => OutOfFuel
  | S fuel =>
      let pos := find_first_of_char text delimiter new_pos in
      if npos =? pos then
        w ← substr text new_pos npos; Ret (result ++ [to_string w])
      else
        result ← (if new_pos <=? pos
                  then w ← substr text new_pos (pos - new_pos);
                       Ret (result ++ [to_string w])
                  else Ret result);
        StrSplit_loop fuel text delimiter (u64 (pos + 1)) result
  end.

Definition StrSplit (text : string_view) (delimiter : ascii) : outcome (list bytes) :=
  if empty text then Ret []
  else StrSplit_loop (S (Z.to_nat (length_ text))) text delimiter 0 [].

(** ** Stricmp *)

(** [Stricmp(const char*, const char* )]: the pointers walk their allocations. *)
Fixpoint Stricmp_ptr (s1 s2 : bytes) : outcome Z :=
  match s1, s2 with
  | c1 :: s1', c2 :: s2' =>
      if bool_decide (c1 = NUL) && bool_decide (c2 = NUL) then Ret 0
      else
        let n := tolower (schar c1) - tolower (schar c2) in
        if n =? 0 then Stricmp_ptr s1' s2' else Ret n
  | _, _ => Undef
  end.

Definition Stricmp (s1 s2 : bytes) : outcome Z :=
  Stricmp_ptr (s1 ++ [NUL]) (s2 ++ [NUL]).

(** ** Trimming *)

Definition default_cutset (cutset : string_view) : string_view :=
  if empty cutset then lit kSpaceChars else cutset.

Definition StrTrimLeft (s cutset : string_view) : outcome string_view :=
  let cutset := default_cutset cutset in
  pos ← find_first_not_of s cutset 0;
  if pos =? npos then Ret s else substr s pos npos.

Definition StrTrimRight (s cutset : string_view) : outcome string_view :=
  let cutset := default_cutset cutset in
  pos ← find_last_not_of s cutset npos;
  if pos =? npos then Ret s else substr s 0 (u64 (pos + 1)).

Definition StrTrim (s cutset : string_view) : outcome string_view :=
  l ← StrTrimLeft s cutset; StrTrimRight l cutset.

(** ** Matching *)

Definition StrContains (haystack needle : string_view) : bool :=
  negb (find haystack needle 0 =? npos).
Definition StrContains_char (haystack : string_view) (needle : ascii) : bool :=
  negb (find_char haystack needle 0 =? npos).

Definition StartsWith (text prefix : string_view) : bool :=
  empty prefix ||
  ((size prefix <=? size text) &&
   (memcmp (sv_mem text) (sv_mem prefix) (Z.to_nat (size prefix)) =? 0)).

Definition EndsWith (text suffix : string_view) : bool :=
  empty suffix ||
  ((size suffix <=? size text) &&
   (memcmp (drop (Z.to_nat (size text - size suffix)) (sv_mem text))
      (sv_mem suffix) (Z.to_nat (size suffix)) =? 0)).

Definition EqualsIgnoreCase (piece1 piece2 : string_view) : bool :=
  (size piece1 =? size piece2) &&
  (0 =? memcasecmp (sv_mem piece1) (sv_mem piece2) (Z.to_nat (size piece1))).

Definition StartsWithIgnoreCase (text prefix : string_view) : outcome bool :=
  if size prefix <=? size text
  then w ← substr text 0 (size prefix); Ret (EqualsIgnoreCase w prefix)
  else Ret false.

Definition EndsWithIgnoreCase (text suffix : string_view) : outcome bool :=
  if size suffix <=? size text
  then w ← substr text (size text - size suffix) npos; Ret (EqualsIgnoreCase w suffix)
  else Ret false.

(** ** StrFields *)

Definition push_nonempty (fields : list bytes) (cell : bytes) : list bytes :=
  if bool_decide (cell = []) then fields else fields ++ [cell].

(** The [while] loop; it returns the last [start] and the fields so far. *)
Fixpoint StrFields_loop (fuel : nat) (s : bytes) (start : Z) (fields : list bytes)
    : outcome (Z * list bytes) :=
  match fuel with
  | O => OutOfFuel
  | S fuel =>
      let end_ := str_find_first_of s kSpaceChars start in
      if end_ =? npos then Ret (start, fields)
      else
        cell ← str_substr s start (end_ - start);
        let fields := push_nonempty fields cell in
        StrFields_loop fuel s (str_find_first_not_of s kSpaceChars end_) fields
  end.

Definition StrFields (s : bytes) : outcome (list bytes) :=
  let start := str_find_first_not_of s kSpaceChars 0 in
  if start =? npos then Ret []
  else
    '(start, fields) ← StrFields_loop (S (length s)) s start [];
    if start <? len s then
      rest ← str_substr s start npos;
      cell ← StrTrimRight (sv_of_string rest) (lit kSpaceChars);
      Ret (push_nonempty fields (to_string cell))
    else Ret fields.

(** ** StrReplace *)

(** [while ((pos = str.find(from, pos)) != npos) {...}]; the final [str] is both
    the argument left behind and the result. *)
Fixpoint StrReplace_loop (fuel : nat) (str from to : bytes) (pos : Z) : outcome bytes :=
  match fuel with
  | O => OutOfFuel
  | S fuel =>
      let pos := str_find str from pos in
      if pos =? npos then Ret str
      else
        str ← str_replace str pos (len from) to;
        StrReplace_loop fuel str from to (u64 (pos + len to))
  end.

Definition StrReplace (str from to : bytes) : outcome bytes :=
  StrReplace_loop (S (length str)) str from to 0.

Example split_ex : StrSplit (lit (bs "a,,b,")) ","%char = Ret [bs "a"; []; bs "b"; []].
Proof. vm_compute. reflexivity. Qed.
Example trim_ex : fmap chars (StrTrim (lit (bs "  a b ")) sv_null) = Ret (bs "a b").
Proof. vm_compute. reflexivity. Qed.
Example fields_ex : StrFields (bs "  ab  c d ") = Ret [bs "ab"; bs "c"; bs "d"].
Proof. vm_compute. reflexivity. Qed.
Example replace_ex : StrReplace (bs "aXbXX") (bs "X") (bs "XY") = Ret (bs "aXYbXYXY").
Proof. vm_compute. reflexivity. Qed.

(** * Properties *)

(** ** Library lemmas *)

Lemma sv_ok_fits v : sv_ok v → fits (chars v).
Proof. intros Hv. rewrite (len_chars v Hv). destruct Hv. lia. Qed.

Lemma sv_ok_lit s : len s < 2 ^ 63 - 1 → sv_ok (lit s).
Proof. apply sv_ok_string. Qed.
Lemma chars_lit s : chars (lit s) = s.
Proof. apply chars_of_string. Qed.
#[export] Hint Resolve sv_ok_lit : cpp.

Lemma str_rfind_if_hit P l1 c l2 pos :
  P c = true → Forall (λ c, P c = false) l2 → len (l1 ++ c :: l2) - 1 <= pos →
  str_rfind_if P (l1 ++ c :: l2) pos = len l1.
Proof.
  intros Hc H2 Hpos. unfold str_rfind_if.
  destruct (_ =? 0) eqn:?; [bool_hyps; len_lia|].
  rewrite Z.min_r by lia.
  replace (rscan _ _ _) with (Some (length l1)); [done|].
  symmetry. apply rscan_Some. split_and!.
  - len_lia.
  - exists c. split; [|done]. by rewrite list_lookup_middle.
  - intros k d Hk Hl. rewrite lookup_app_r in Hl by lia.
    destruct (k - length l1)%nat as [|j] eqn:?; [lia|].
    rewrite Forall_forall in H2. apply H2. by eapply list_elem_of_lookup_2.
Qed.

Lemma str_rfind_if_miss P l pos :
  Forall (λ c, P c = false) l → str_rfind_if P l pos = npos.
Proof.
  intros H. unfold str_rfind_if. destruct (_ =? 0); [done|].
  replace (rscan _ _ _) with (@None nat); [done|]. symmetry. apply rscan_None.
  intros k c _ Hk. rewrite Forall_forall in H. apply H. by eapply list_elem_of_lookup_2.
Qed.

(** Split a list at the last element that satisfies a test. *)
Lemma split_last {A} (P : A → bool) (l : list A) :
  Forall (λ x, P x = false) l ∨
  ∃ l1 x l2, l = l1 ++ x :: l2 ∧ Forall (λ y, P y = false) l2 ∧ P x = true.
Proof.
  destruct (split_first P (reverse l)) as [H | (l1 & x & l2 & H & H1 & H2)].
  - left. by rewrite Forall_reverse in H.
  - right. exists (reverse l2), x, (reverse l1). split_and!; [|by rewrite Forall_reverse|done].
    rewrite <-(reverse_involutive l), H, reverse_app, reverse_cons, <-app_assoc. done.
Qed.

(** ** StrSplit *)

Fixpoint split (d : ascii) (l : bytes) : list bytes :=
  match l with
  | [] => [[]]
  | c :: l =>
      if is_char d c then [] :: split d l
      else match split d l with p :: ps => (c :: p) :: ps | [] => [[c]] end
  end.

Fixpoint join (d : ascii) (ps : list bytes) : bytes :=
  match ps with
  | [] => []
  | [p] => p
  | p :: ps => p ++ d :: join d ps
  end.

Lemma split_nonempty d l : split d l ≠ [].
Proof. destruct l as [|c l]; [done|]. cbn. by destruct (is_char d c), (split d l). Qed.

Lemma split_app d p l : d ∉ p → split d (p ++ d :: l) = p :: split d l.
Proof.
  induction p as [|c p IH]; intros Hd; cbn.
  - by rewrite (proj2 (is_char_true d d) eq_refl).
  - apply not_elem_of_cons in Hd as [Hc Hd].
    rewrite (proj2 (is_char_false d c)) by done. by rewrite IH.
Qed.

Lemma split_last_piece d p : d ∉ p → split d p = [p].
Proof.
  induction p as [|c p IH]; intros Hd; cbn; [done|].
  apply not_elem_of_cons in Hd as [Hc Hd].
  rewrite (proj2 (is_char_false d c)) by done. by rewrite IH.
Qed.

Lemma join_cons d p ps : ps ≠ [] → join d (p :: ps) = p ++ d :: join d ps.
Proof. by destruct ps. Qed.

Lemma join_split d l : join d (split d l) = l.
Proof.
  induction l as [|c l IH]; [done|]. cbn. pose proof (split_nonempty d l) as Hne.
  destruct (is_char d c) eqn:Hc.
  - apply is_char_true in Hc as ->. by rewrite join_cons, IH.
  - destruct (split d l) as [|p [|q ps]]; [done|..]; cbn in *; by rewrite IH.
Qed.

Lemma split_no_delim d l : Forall (λ p, d ∉ p) (split d l).
Proof.
  induction l as [|c l IH]; cbn; [constructor; [set_solver | done]|].
  destruct (is_char d c) eqn:Hc; [constructor; [set_solver | done]|].
  apply is_char_false in Hc. pose proof (split_nonempty d l).
  destruct (split d l); [done|]. inversion IH; subst.
  constructor; [|done]. apply not_elem_of_cons. done.
Qed.

Lemma split_join d ps : ps ≠ [] → Forall (λ p, d ∉ p) ps → split d (join d ps) = ps.
Proof.
  induction ps as [|p [|q ps] IH]; intros Hne Hps; [done|..];
    inversion Hps as [|? ? Hp Hps']; subst.
  - by apply split_last_piece.
  - rewrite join_cons, split_app by done. by rewrite IH.
Qed.

Lemma split_piece_length d l p : p ∈ split d l → (length p <= length l)%nat.
Proof.
  revert p. induction l as [|c l IH]; intros p; cbn [split].
  { intros ->%list_elem_of_singleton. done. }
  destruct (is_char d c).
  - intros [->|Hp]%elem_of_cons; [cbn; lia|]. apply IH in Hp. cbn. lia.
  - destruct (split d l) as [|q qs]; [intros ->%list_elem_of_singleton; cbn; lia|].
    intros [->|Hp]%elem_of_cons; cbn; [|specialize (IH p (list_elem_of_further _ _ _ Hp)); cbn in *; lia].
    specialize (IH q (list_elem_of_here _ _)). lia.
Qed.

Lemma split_length d l : length (split d l) = S (length (filter (λ c, c = d) l)).
Proof.
  induction l as [|c l IH]; [done|]. cbn [split]. pose proof (split_nonempty d l).
  rewrite filter_cons. destruct (is_char d c) eqn:Hc.
  - apply is_char_true in Hc. rewrite decide_True by done. cbn. by rewrite IH.
  - apply is_char_false in Hc. rewrite decide_False by done.
    destruct (split d l); [done|]. by rewrite <-IH.
Qed.

Lemma StrSplit_loop_split fuel text d l0 rest result :
  sv_ok text → chars text = l0 ++ rest → (length rest < fuel)%nat →
  StrSplit_loop fuel text d (len l0) result = Ret (result ++ split d rest).
Proof.
  intros Hv. revert l0 rest result.
  induction fuel as [|fuel IH]; intros l0 rest result Hc Hf; [lia|].
  pose proof (sv_ok_fits text Hv) as Hfit. pose proof (len_chars text Hv) as Hlen.
  rewrite Hc in Hfit, Hlen. autorewrite with len in *.
  cbn [StrSplit_loop]. unfold find_first_of_char.
  rewrite find_char_string by (done || (unfold npos; lia)).
  rewrite Hc. unfold str_find_char.
  destruct (split_first (is_char d) rest) as [Hn | (l1 & c & l2 & -> & H1 & ->%is_char_true)].
  - rewrite str_find_if_miss by done. rewrite Z.eqb_refl.
    destruct (substr_ok text (len l0) npos Hv ltac:(lia) ltac:(done)) as (w & -> & Hw & Hcw & _).
    cbn. unfold to_string. rewrite Hcw, Hc, slice_app_r by (unfold npos; lia).
    rewrite split_last_piece; [done|]. by apply Forall_not_char.
  - autorewrite with len in *.
    rewrite str_find_if_hit by (done || by apply is_char_true).
    destruct (npos =? _) eqn:Hp; [bool_hyps; unfold npos in Hp; lia|].
    destruct (_ <=? _) eqn:?; [|lia].
    destruct (substr_ok text (len l0) (len l0 + len l1 - len l0) Hv ltac:(lia) ltac:(lia))
      as (w & -> & Hw & Hcw & _).
    cbn. unfold to_string. rewrite Hcw, Hc.
    replace (len l0 + len l1 - len l0) with (len l1) by lia. rewrite slice_app_mid.
    rewrite u64_small by lia.
    replace (len l0 + len l1 + 1) with (len (l0 ++ l1 ++ [d])) by len_lia.
    rewrite (IH _ l2).
    + rewrite split_app by (by apply Forall_not_char). by rewrite <-app_assoc.
    + rewrite Hc, <-!app_assoc. done.
    + rewrite length_app in Hf. cbn in Hf. lia.
Qed.

Lemma StrSplit_split text d :
  sv_ok text →
  StrSplit text d = Ret (if bool_decide (chars text = []) then [] else split d (chars text)).
Proof.
  intros Hv. unfold StrSplit. rewrite (empty_chars text Hv).
  case_bool_decide; [done|].
  pose proof (length_chars text Hv) as Hl.
  apply (StrSplit_loop_split _ text d [] (chars text) []); [done | done | lia].
Qed.

(** [StrSplit] always ends and loses nothing: joining the pieces with the
    delimiter gives the text back, no piece holds the delimiter and there is one
    piece more than there are delimiters; conversely pieces without the
    delimiter survive join-then-split unchanged.  The empty text gives no piece
    at all. *)
Theorem StrSplit_roundtrip (text : string_view) (d : ascii) (ps : list bytes) :
  sv_ok text →
  (∃ qs, StrSplit text d = Ret qs ∧ join d qs = chars text ∧
         Forall (λ p, d ∉ p) qs ∧
         length qs = if bool_decide (chars text = []) then 0%nat
                     else S (length (filter (λ c, c = d) (chars text)))) ∧
  (Forall (λ p, d ∉ p) ps → chars text = join d ps → chars text ≠ [] →
   StrSplit text d = Ret ps).
Proof.
  intros Hv. rewrite StrSplit_split by done. split.
  - eexists. split; [done|]. case_bool_decide as He; [by rewrite He|].
    split_and!; [apply join_split | apply split_no_delim | apply split_length].
  - intros Hps Hj Hne. rewrite bool_decide_false by done.
    rewrite Hj, split_join; [done | | done].
    intros ->. by rewrite Hj in Hne.
Qed.

Lemma StrSplit_roundtrip_witness :
  StrSplit (sv_of_string (bs "a,,bc")) ","%char = Ret [bs "a"; []; bs "bc"].
Proof.
  apply (StrSplit_roundtrip (sv_of_string (bs "a,,bc")) ","%char).
  - apply sv_ok_string. vm_compute. done.
  - by_decide.
  - vm_compute. done.
  - vm_compute. done.
Defined.

(** ** Trimming *)

(** Remove the longest prefix (suffix) made of characters of the set. *)
Fixpoint drop_set (cs l : bytes) : bytes :=
  match l with
  | [] => []
  | c :: l' => if in_set cs c then drop_set cs l' else l
  end.
Definition drop_set_r (cs l : bytes) : bytes := reverse (drop_set cs (reverse l)).

Definition all_in (cs l : bytes) : Prop := Forall (λ c, c ∈ cs) l.

Lemma all_in_negb cs l : all_in cs l ↔ Forall (λ c, negb (in_set cs c) = false) l.
Proof.
  apply Forall_iff. intros c. rewrite negb_false_iff. symmetry. apply in_set_spec.
Qed.

Lemma default_cutset_ok cut : sv_ok cut → sv_ok (default_cutset cut).
Proof. intros H. unfold default_cutset. destruct (empty cut); [|done]. by apply sv_ok_lit. Qed.

Lemma default_cutset_chars cut :
  sv_ok cut →
  chars (default_cutset cut) = if bool_decide (chars cut = []) then kSpaceChars else chars cut.
Proof.
  intros H. unfold default_cutset. rewrite (empty_chars cut H).
  case_bool_decide; [apply chars_lit | done].
Qed.

Section trim.
Context (s cut : string_view) (Hs : sv_ok s) (Hcut : sv_ok cut).
Let cs : bytes := chars (default_cutset cut).

(** The two outcomes of a one-sided trim: nothing but the set, and then the
    argument itself comes back; or a cut at the first (last) other character. *)
Lemma StrTrimLeft_spec :
  (all_in cs (chars s) ∧ StrTrimLeft s cut = Ret s) ∨
  ∃ l1 c l2 w, chars s = l1 ++ c :: l2 ∧ all_in cs l1 ∧ (c ∉ cs) ∧
               StrTrimLeft s cut = Ret w ∧ sv_ok w ∧ chars w = c :: l2.
Proof using Hs Hcut.
  pose proof (len_chars s Hs) as Hl. pose proof (sv_ok_fits s Hs) as Hf.
  unfold StrTrimLeft.
  rewrite find_first_not_of_string by (done || by apply default_cutset_ok).
  cbn [mbind outcome_bind]. change (chars (default_cutset cut)) with cs.
  unfold str_find_first_not_of.
  destruct (split_first (λ c, negb (in_set cs c)) (chars s))
    as [Hn | (l1 & c & l2 & Heq & H1 & H2)].
  - left. rewrite str_find_if_miss0, Z.eqb_refl by done.
    split; [by apply all_in_negb | done].
  - right. rewrite Heq in *. rewrite str_find_if_hit0 by done.
    autorewrite with len in *.
    destruct (_ =? npos) eqn:?; [bool_hyps; unfold npos in *; lia|].
    destruct (substr_ok s (len l1) npos Hs ltac:(lia) ltac:(done)) as (w & Hw & Hok & Hc & _).
    exists l1, c, l2, w. split_and!; [done | by apply all_in_negb | | done | done |].
    + apply negb_true_iff in H2. by apply in_set_false in H2.
    + rewrite Hc, Heq. apply slice_app_r. unfold npos. len_lia.
Qed.

Lemma StrTrimRight_spec :
  (all_in cs (chars s) ∧ StrTrimRight s cut = Ret s) ∨
  ∃ l1 c l2 w, chars s = l1 ++ c :: l2 ∧ all_in cs l2 ∧ (c ∉ cs) ∧
               StrTrimRight s cut = Ret w ∧ sv_ok w ∧ chars w = l1 ++ [c].
Proof using Hs Hcut.
  pose proof (len_chars s Hs) as Hl. pose proof (sv_ok_fits s Hs) as Hf.
  unfold StrTrimRight.
  rewrite find_last_not_of_string by (done || by apply default_cutset_ok).
  cbn [mbind outcome_bind]. change (chars (default_cutset cut)) with cs.
  unfold str_find_last_not_of.
  destruct (split_last (λ c, negb (in_set cs c)) (chars s))
    as [Hn | (l1 & c & l2 & Heq & H1 & H2)].
  - left. rewrite str_rfind_if_miss, Z.eqb_refl by done.
    split; [by apply all_in_negb | done].
  - right. rewrite Heq in *. rewrite str_rfind_if_hit by (done || (unfold npos; len_lia)).
    autorewrite with len in *.
    destruct (_ =? npos) eqn:?; [bool_hyps; unfold npos in *; lia|].
    rewrite u64_small by lia.
    destruct (substr_ok s 0 (len l1 + 1) Hs ltac:(lia) ltac:(lia)) as (w & Hw & Hok & Hc & _).
    exists l1, c, l2, w. split_and!; [done | by apply all_in_negb | | done | done |].
    + apply negb_true_iff in H2. by apply in_set_false in H2.
    + rewrite Hc, Heq. change (l1 ++ c :: l2) with (l1 ++ [c] ++ l2).
      rewrite app_assoc. replace (len l1 + 1) with (len (l1 ++ [c])) by len_lia.
      apply slice_app_l.
Qed.
End trim.

Lemma drop_set_app cs l1 c l2 : all_in cs l1 → c ∉ cs → drop_set cs (l1 ++ c :: l2) = c :: l2.
Proof.
  intros H Hc. induction H as [|x l1 Hx _ IH]; cbn.
  - by rewrite (proj2 (in_set_false cs c)).
  - by rewrite (proj2 (in_set_spec cs x)).
Qed.

Lemma drop_set_r_app cs l1 c l2 : all_in cs l2 → c ∉ cs → drop_set_r cs (l1 ++ c :: l2) = l1 ++ [c].
Proof.
  intros H Hc. unfold drop_set_r. rewrite reverse_app, reverse_cons, <-app_assoc.
  cbn. rewrite drop_set_app; [|by apply Forall_reverse | done].
  by rewrite reverse_cons, reverse_involutive.
Qed.

(** What a trim makes of the characters: unless they all belong to the set. *)
Definition trimmed (cs l : bytes) : bytes :=
  if forallb (in_set cs) l then l else drop_set_r cs (drop_set cs l).

Lemma forallb_all_in cs l : forallb (in_set cs) l = true ↔ all_in cs l.
Proof.
  rewrite forallb_forall. unfold all_in. rewrite Forall_forall.
  split; intros H c; specialize (H c); rewrite <-?list_elem_of_In in *;
    rewrite in_set_spec in *; done.
Qed.

Lemma StrTrim_trimmed s cut :
  sv_ok s → sv_ok cut →
  ∃ w, StrTrim s cut = Ret w ∧ sv_ok w ∧
       chars w = trimmed (chars (default_cutset cut)) (chars s).
Proof.
  intros Hs Hcut. unfold StrTrim, trimmed.
  destruct (StrTrimLeft_spec s cut Hs Hcut)
    as [[Hall ->] | (l1 & c & l2 & w & Heq & H1 & Hc & -> & Hw & Hcw)]; cbn.
  - rewrite (proj2 (forallb_all_in _ _) Hall).
    destruct (StrTrimRight_spec s cut Hs Hcut)
      as [[_ ->] | (l1 & c & l2 & w & Heq & _ & Hc & _)]; [by exists s|].
    exfalso. apply Hc. unfold all_in in Hall. rewrite Heq, Forall_app, Forall_cons in Hall.
    apply Hall.
  - destruct (forallb _ (chars s)) eqn:Hall.
    { apply forallb_all_in in Hall. unfold all_in in Hall.
      rewrite Heq, Forall_app, Forall_cons in Hall. by destruct Hc; apply Hall. }
    rewrite Heq, drop_set_app by done.
    destruct (StrTrimRight_spec w cut Hw Hcut)
      as [[Hallw _] | (k1 & d & k2 & u & Hequ & H2 & Hd & -> & Hu & Hcu)].
    { unfold all_in in Hallw. rewrite Hcw, Forall_cons in Hallw. by destruct Hc; apply Hallw. }
    exists u. split_and!; [done | done |]. rewrite <-Hcw, Hequ, drop_set_r_app by done. done.
Qed.

(** A trimmed view points into the memory of the view it was cut from. *)
Lemma substr_suffix v pos n w : substr v pos n = Ret w → sv_mem w `suffix_of` sv_mem v.
Proof.
  unfold substr. case_match; [done|]. intros [= <-]. unfold sv_mem, advance. cbn [ptr_].
  destruct (ptr_ v) as [p|]; cbn; [|done].
  exists (take (Z.to_nat pos) p). by rewrite take_drop.
Qed.

Lemma StrTrim_suffix s cut w : StrTrim s cut = Ret w → sv_mem w `suffix_of` sv_mem s.
Proof.
  unfold StrTrim, StrTrimLeft, StrTrimRight. intros H. outcome_inv.
  transitivity (sv_mem x); repeat case_match; outcome_inv; try done; by eapply substr_suffix.
Qed.

(** A nonempty suffix of a C string can be read up to its NUL. *)
Lemma c_str_suffix s l : l ≠ [] → l `suffix_of` s ++ [NUL] → ∃ d, c_str l = Ret d.
Proof.
  intros Hl [k Hk]. destruct l as [|x l' _] using rev_ind; [done|].
  rewrite app_assoc in Hk. apply app_inj_tail in Hk as [_ <-].
  unfold c_str. destruct (scan _ _ _) eqn:Hs; [by eexists|].
  apply scan_None, Forall_app in Hs as [_ Hs]. inversion Hs as [|? ? Hx]. subst.
  by rewrite (proj2 (is_char_true NUL NUL)) in Hx.
Qed.

(** [StrTrim] cuts exactly the leading and trailing characters of the set
    (blanks by default) and keeps the first and last other characters and all
    between them; but a text made only of set characters comes back unchanged,
    not empty. *)
Theorem StrTrim_correct (s cut : string_view) :
  sv_ok s → sv_ok cut →
  let cs := if bool_decide (chars cut = []) then kSpaceChars else chars cut in
  ∃ w, StrTrim s cut = Ret w ∧ sv_ok w ∧
    ((all_in cs (chars s) ∧ chars w = chars s) ∨
     ∃ l1 l2 a, chars s = l1 ++ chars w ++ l2 ∧ all_in cs l1 ∧ all_in cs l2 ∧
                head (chars w) = Some a ∧ (a ∉ cs) ∧
                ∃ z, last (chars w) = Some z ∧ z ∉ cs).
Proof.
  intros Hs Hcut cs.
  assert (chars (default_cutset cut) = cs) as Hcs by by apply default_cutset_chars.
  destruct (StrTrim_trimmed s cut Hs Hcut) as (w & Hw & Hok & Hc).
  rewrite Hcs in Hc. exists w. split_and!; [done | done |].
  unfold trimmed in Hc. destruct (forallb (in_set cs) (chars s)) eqn:Hall.
  { left. by apply forallb_all_in in Hall. }
  right. destruct (split_first (λ c, negb (in_set cs c)) (chars s))
    as [Hn | (l1 & c & l2 & Heq & H1 & H2)].
  { apply all_in_negb, forallb_all_in in Hn. congruence. }
  apply all_in_negb in H1. apply negb_true_iff, in_set_false in H2.
  rewrite Heq, drop_set_app in Hc by done.
  destruct (split_last (λ c, negb (in_set cs c)) (c :: l2))
    as [Hn | (k1 & d & k2 & Heq2 & H3 & H4)].
  { apply all_in_negb in Hn. unfold all_in in Hn. rewrite Forall_cons in Hn.
    by destruct H2; apply Hn. }
  apply all_in_negb in H3. apply negb_true_iff, in_set_false in H4.
  rewrite Heq2, drop_set_r_app in Hc by done.
  exists l1, k2, c. rewrite Hc. split_and!.
  - rewrite Heq, Heq2, <-app_assoc. done.
  - done.
  - done.
  - destruct k1; cbn in *; congruence.
  - done.
  - exists d. by rewrite last_snoc.
Qed.

Lemma StrTrim_correct_witness :
  ∃ w, StrTrim (sv_of_string (bs " x y ")) sv_null = Ret w ∧ chars w = bs "x y".
Proof.
  destruct (StrTrim_correct (sv_of_string (bs " x y ")) sv_null) as (w & Hw & _ & _).
  - apply sv_ok_string. vm_compute. done.
  - apply sv_ok_null.
  - exists w. split; [exact Hw|]. vm_compute in Hw. injection Hw as <-. done.
Defined.

(** ** Matching *)

Definition lower (c : ascii) : Z := tolower (uchar c).

Lemma memcasecmp_zero a b n :
  (n ≤ length a)%nat → (n ≤ length b)%nat →
  memcasecmp a b n = 0 ↔ lower <$> take n a = lower <$> take n b.
Proof.
  revert a b. induction n as [|n IH]; intros [|x a] [|y b]; cbn; try done; try lia.
  intros Ha Hb. fold (lower x) (lower y).
  destruct (_ =? 0) eqn:H; bool_hyps.
  - rewrite IH by lia. split; [intros ->; f_equal; lia | by intros [= _ ->]].
  - split; [lia|]. intros [= Heq _]. lia.
Qed.

Lemma EqualsIgnoreCase_chars a b :
  sv_ok a → sv_ok b →
  EqualsIgnoreCase a b = true ↔ lower <$> chars a = lower <$> chars b.
Proof.
  intros Ha Hb. pose proof (length_chars a Ha) as Hla. pose proof (length_chars b Hb) as Hlb.
  destruct Ha as [Ha _], Hb as [Hb _]. unfold EqualsIgnoreCase, size.
  rewrite andb_true_iff, Z.eqb_eq, Z.eqb_eq. split.
  - intros [Hl Hc]. symmetry in Hc. apply memcasecmp_zero in Hc; [|lia..].
    unfold chars. by rewrite <-Hl.
  - intros Heq. assert (length_ a = length_ b) as Hl.
    { apply (f_equal length) in Heq. rewrite !length_fmap in Heq. lia. }
    split; [done|]. symmetry. apply memcasecmp_zero; [lia..|].
    unfold chars in Heq. by rewrite <-Hl in Heq.
Qed.

(** The prefix test ignores case and nothing else. *)
Lemma StartsWithIgnoreCase_chars text p :
  sv_ok text → sv_ok p →
  ∃ b, StartsWithIgnoreCase text p = Ret b ∧
       (b = true ↔ (lower <$> chars p) `prefix_of` (lower <$> chars text)).
Proof.
  intros Ht Hp. pose proof (length_chars text Ht) as Hlt.
  pose proof (length_chars p Hp) as Hlp.
  unfold StartsWithIgnoreCase, size.
  destruct (length_ p <=? length_ text) eqn:Hle; bool_hyps.
  - destruct (substr_ok text 0 (length_ p) Ht) as (w & -> & Hw & Hcw & _);
      [destruct Hp; lia | destruct Hp; lia |].
    eexists. split; [done|]. rewrite EqualsIgnoreCase_chars by done.
    rewrite Hcw. unfold slice. rewrite drop_0.
    rewrite Z.min_l by (rewrite (len_chars text Ht); lia).
    rewrite fmap_take. split.
    + intros Heq. rewrite <-Heq. apply prefix_take.
    + intros [k ->]. rewrite take_app_le by (rewrite length_fmap; lia).
      apply take_ge. rewrite length_fmap. lia.
  - eexists. split; [done|]. split; [done|].
    intros H%prefix_length. rewrite !length_fmap in H. destruct Hp, Ht. lia.
Qed.

Lemma StartsWith_chars text p :
  sv_ok text → sv_ok p → StartsWith text p = true ↔ chars p `prefix_of` chars text.
Proof.
  intros Ht Hp. pose proof (length_chars text Ht) as Hlt.
  pose proof (length_chars p Hp) as Hlp.
  unfold StartsWith, size. destruct (empty p) eqn:He; cbn.
  { rewrite (chars_empty_true p Hp He). split; [intros _; apply prefix_nil | done]. }
  destruct Hp as [Hp _], Ht as [Ht _].
  destruct (length_ p <=? length_ text) eqn:Hle; bool_hyps; cbn.
  - rewrite Z.eqb_eq, memcmp_zero by lia.
    replace (take (Z.to_nat (length_ p)) (sv_mem text))
      with (take (Z.to_nat (length_ p)) (chars text))
      by (unfold chars; rewrite take_take; f_equal; lia).
    change (take (Z.to_nat (length_ p)) (sv_mem p)) with (chars p). split.
    + intros <-. apply prefix_take.
    + intros [k ->]. by rewrite <-Hlp, take_app_length.
  - split; [done|]. intros H%prefix_length. lia.
Qed.

(** ** StrFields *)

Definition is_cut (c : ascii) : bool := in_set kSpaceChars c.

(** The maximal runs of non-blank characters, [cur] being the run so far. *)
Fixpoint words_from (cur l : bytes) : list bytes :=
  match l with
  | [] => push_nonempty [] cur
  | c :: l =>
      if is_cut c then push_nonempty [] cur ++ words_from [] l
      else words_from (cur ++ [c]) l
  end.
Definition words (l : bytes) : list bytes := words_from [] l.

Lemma words_from_run cur w l :
  Forall (λ c, is_cut c = false) w → words_from cur (w ++ l) = words_from (cur ++ w) l.
Proof.
  intros H. revert cur. induction H as [|c w Hc _ IH]; intros cur; cbn.
  - by rewrite app_nil_r.
  - rewrite Hc, IH, <-app_assoc. done.
Qed.

Lemma words_blank l0 l : Forall (λ c, is_cut c = true) l0 → words (l0 ++ l) = words l.
Proof.
  unfold words. induction 1 as [|c l0 Hc _ IH]; [done|]. cbn. by rewrite Hc, IH.
Qed.

Lemma words_run w c l :
  Forall (λ c, is_cut c = false) w → w ≠ [] → is_cut c = true →
  words (w ++ c :: l) = w :: words l.
Proof.
  intros Hw Hne Hc. unfold words. rewrite words_from_run by done. cbn. rewrite Hc.
  unfold push_nonempty. by rewrite bool_decide_false.
Qed.

Lemma words_last w : Forall (λ c, is_cut c = false) w → w ≠ [] → words w = [w].
Proof.
  intros Hw Hne. unfold words. rewrite <-(app_nil_r w) at 1.
  rewrite words_from_run by done. cbn. unfold push_nonempty. by rewrite bool_decide_false.
Qed.

Lemma forall_negb_space l :
  Forall (λ c, negb (in_set kSpaceChars c) = false) l ↔ Forall (λ c, is_cut c = true) l.
Proof. apply Forall_iff. intros c. apply negb_false_iff. Qed.

Lemma StrFields_loop_words fuel s l0 rest fields :
  s = l0 ++ rest → fits s → (length rest < fuel)%nat → rest ≠ [] →
  (∃ c r, rest = c :: r ∧ is_cut c = false) →
  ∃ start fs, StrFields_loop fuel s (len l0) fields = Ret (start, fs) ∧
    ((start = npos ∧ fs = fields ++ words rest) ∨
     ∃ k w, s = k ++ w ∧ start = len k ∧ w ≠ [] ∧
            Forall (λ c, is_cut c = false) w ∧ fields ++ words rest = fs ++ [w]).
Proof.
  intros -> . revert l0 rest fields.
  induction fuel as [|fuel IH]; intros l0 rest fields Hfit Hf Hne Hhd; [lia|].
  cbn [StrFields_loop]. unfold str_find_first_of.
  autorewrite with len in Hfit.
  destruct (split_first is_cut rest) as [Hn | (w & c & l2 & -> & Hw & Hc)].
  { rewrite str_find_if_miss, Z.eqb_refl by done.
    do 2 eexists. split; [done|]. right. exists l0, rest.
    split_and!; [done..|]. by rewrite words_last. }
  autorewrite with len in *.
  rewrite str_find_if_hit by done.
  destruct (_ =? npos) eqn:Hp; [bool_hyps; unfold npos in Hp; lia|].
  assert (w ≠ []) as Hwne.
  { intros ->. destruct Hhd as (d & r & Heq & Hd). cbn in Heq. simplify_eq. congruence. }
  unfold str_substr. destruct (_ <? len l0) eqn:?; [bool_hyps; len_lia|]. cbn [mbind outcome_bind].
  replace (len l0 + len w - len l0) with (len w) by lia. rewrite slice_app_mid.
  replace (push_nonempty fields w) with (fields ++ [w])
    by (unfold push_nonempty; by rewrite bool_decide_false).
  replace (len l0 + len w) with (len (l0 ++ w)) by len_lia.
  rewrite words_run by done.
  replace (l0 ++ w ++ c :: l2) with ((l0 ++ w) ++ c :: l2) by by rewrite <-app_assoc.
  unfold str_find_first_not_of.
  destruct (split_first (λ c, negb (in_set kSpaceChars c)) (c :: l2))
    as [Hn | (sp & d & l3 & Heq & Hsp & Hd)].
  - rewrite str_find_if_miss by done.
    destruct fuel; [rewrite length_app in Hf; cbn in Hf; lia|].
    cbn [StrFields_loop]. unfold str_find_first_of, str_find_if at 1.
    destruct (npos <? _) eqn:E; [bool_hyps; unfold npos in E; len_lia|]. rewrite Z.eqb_refl.
    do 2 eexists. split; [done|]. left. split; [done|].
    apply forall_negb_space in Hn. inversion Hn; subst.
    by rewrite <-(app_nil_r l2), words_blank.
  - assert (sp ≠ []) as Hspne.
    { intros ->. cbn in Heq. injection Heq as -> _.
      unfold is_cut in Hc. by rewrite Hc in Hd. }
    rewrite Heq, str_find_if_hit by done.
    replace (len (l0 ++ w) + len sp) with (len ((l0 ++ w) ++ sp)) by len_lia.
    rewrite app_assoc.
    destruct sp as [|c' sp]; [done|]. injection Heq as <- ->.
    apply forall_negb_space in Hsp. inversion Hsp; subst.
    rewrite words_blank by done.
    destruct (IH ((l0 ++ w) ++ c :: sp) (d :: l3) (fields ++ [w])) as (st & fs & -> & Hcase).
    + autorewrite with len in *. lia.
    + rewrite !length_app in Hf. cbn in *. rewrite length_app in Hf. cbn in Hf. lia.
    + done.
    + exists d, l3. split; [done|]. by apply negb_true_iff in Hd.
    + exists st, fs. split; [done|]. by rewrite <-app_assoc in Hcase.
Qed.

Lemma StrFields_words s : len s < 2 ^ 63 - 1 → StrFields s = Ret (words s).
Proof.
  intros Hfit. unfold StrFields, str_find_first_not_of.
  destruct (split_first (λ c, negb (in_set kSpaceChars c)) s)
    as [Hn | (sp & d & l & Heq & Hsp & Hd)].
  { rewrite str_find_if_miss0, Z.eqb_refl by done.
    apply forall_negb_space in Hn.
    by rewrite <-(app_nil_r s), words_blank. }
  rewrite Heq in *. rewrite str_find_if_hit0 by done. autorewrite with len in Hfit.
  destruct (_ =? npos) eqn:Hp; [bool_hyps; unfold npos in Hp; lia|].
  apply forall_negb_space in Hsp. rewrite words_blank by done.
  destruct (StrFields_loop_words (S (length (sp ++ d :: l))) _ sp (d :: l) []
    eq_refl) as (st & fs & -> & Hcase).
  - len_lia.
  - rewrite length_app. cbn. lia.
  - done.
  - exists d, l. split; [done|]. by apply negb_true_iff in Hd.
  - cbn [mbind outcome_bind]. destruct Hcase as [[-> ->] | (k & w & Hk & -> & Hne & Hw & Hfs)].
    + destruct (npos <? _) eqn:E; [bool_hyps; unfold npos in E; len_lia|]. done.
    + rewrite Hk. destruct (len k <? _) eqn:E.
      2:{ bool_hyps. destruct w; [done|]. len_lia. }
      assert (len (k ++ w) < 2 ^ 63 - 1) as Hkw by (rewrite <-Hk; len_lia).
      unfold str_substr. destruct (_ <? len k) eqn:?; [bool_hyps; len_lia|].
      cbn [mbind outcome_bind]. rewrite slice_app_r by (unfold npos; len_lia).
      assert (sv_ok (sv_of_string w)) as Hok by (apply sv_ok_string; len_lia).
      destruct (StrTrimRight_spec (sv_of_string w) (lit kSpaceChars) Hok ltac:(by apply sv_ok_lit))
        as [[Hall Htr] | (l1 & c & l2 & u & Hequ & H2 & Hc & Htr & Hu & Hcu)];
        rewrite Htr; cbn [mbind outcome_bind]; unfold to_string.
      * rewrite chars_of_string. rewrite app_nil_l in Hfs. rewrite Hfs.
        unfold push_nonempty. by rewrite bool_decide_false.
      * rewrite chars_of_string in Hequ. rewrite Hcu.
        assert (l2 = []) as ->.
        { destruct l2 as [|e l2]; [done|]. unfold all_in in H2.
          rewrite Forall_cons in H2. destruct H2 as [He _].
          rewrite Hequ, Forall_app, !Forall_cons in Hw. destruct Hw as (_ & _ & Hw & _).
          unfold is_cut in Hw. apply in_set_false in Hw.
          by rewrite default_cutset_chars in He by by apply sv_ok_lit. }
        rewrite <-Hequ. rewrite app_nil_l in Hfs. rewrite Hfs.
        unfold push_nonempty. by rewrite bool_decide_false.
Qed.

Lemma words_from_spec cur l :
  Forall (λ c, is_cut c = false) cur →
  Forall (λ w, w ≠ [] ∧ Forall (λ c, is_cut c = false) w) (words_from cur l) ∧
  concat (words_from cur l) = cur ++ filter (λ c, is_cut c = false) l.
Proof.
  revert cur. induction l as [|c l IH]; intros cur Hcur; cbn [words_from].
  - unfold push_nonempty. case_bool_decide as Hc; subst; cbn; [done|].
    rewrite !app_nil_r. by repeat constructor.
  - rewrite filter_cons. destruct (is_cut c) eqn:Hc.
    + rewrite decide_False by done. destruct (IH [] ltac:(done)) as [H1 H2].
      rewrite concat_app, H2. unfold push_nonempty. case_bool_decide as Hn; subst; cbn.
      * done.
      * rewrite app_nil_r. split; [by constructor | done].
    + rewrite decide_True by done. destruct (IH (cur ++ [c])) as [H1 H2].
      { apply Forall_app. by repeat constructor. }
      by rewrite H2, <-app_assoc.
Qed.

(** [StrFields] ends and returns the maximal blank-free runs of the text, in
    order: no field is empty or holds a blank, together they hold exactly the
    non-blank characters, and a blank or the end of the text closes each one. *)
Theorem StrFields_correct (s w l : bytes) (c : ascii) :
  len s < 2 ^ 63 - 1 →
  (∃ fs, StrFields s = Ret fs ∧
     Forall (λ f, f ≠ [] ∧ Forall (λ c, c ∉ kSpaceChars) f) fs ∧
     concat fs = filter (λ c, c ∉ kSpaceChars) s) ∧
  (s = w ++ c :: l → w ≠ [] → Forall (λ c, c ∉ kSpaceChars) w → c ∈ kSpaceChars →
   StrFields s = fs ← StrFields l; Ret (w :: fs)).
Proof.
  intros Hs. rewrite StrFields_words by done.
  assert (∀ d, is_cut d = false ↔ d ∉ kSpaceChars) as Hsp by (intros; apply in_set_false).
  split.
  - destruct (words_from_spec [] s ltac:(done)) as [H1 H2].
    eexists. split; [done|]. split.
    + eapply Forall_impl; [apply H1|]. cbn. intros f [? Hf]. split; [done|].
      eapply Forall_impl; [apply Hf|]. cbn. intros d. by rewrite Hsp.
    + etrans; [apply H2|]. cbn. apply list_filter_iff. intros d. apply Hsp.
  - intros -> Hne Hw Hc. rewrite StrFields_words by (autorewrite with len in Hs; len_lia).
    cbn. f_equal. apply words_run; [|done|by apply in_set_spec].
    eapply Forall_impl; [apply Hw|]. cbn. intros d. by rewrite Hsp.
Qed.

Lemma StrFields_correct_witness :
  StrFields (bs "ab  c") = Ret [bs "ab"; bs "c"].
Proof.
  rewrite (proj2 (StrFields_correct (bs "ab  c") (bs "ab") (bs " c") SP ltac:(by vm_compute)));
    [vm_compute; reflexivity | reflexivity | discriminate | by_decide | by_decide].
Defined.

(** ** StrReplace *)

(** [r] is [s] with the non-overlapping occurrences of [from], found from the
    left, replaced by [to]. *)
Inductive replaces (from to : bytes) : bytes → bytes → Prop :=
  | replaces_none s :
      (∀ k, (k ≤ length s)%nat → ¬ from `prefix_of` drop k s) → replaces from to s s
  | replaces_first s1 s2 r :
      (∀ k, (k < length s1)%nat → ¬ from `prefix_of` drop k (s1 ++ from ++ s2)) →
      replaces from to s2 r → replaces from to (s1 ++ from ++ s2) (s1 ++ to ++ r).

Lemma replaces_functional from to s r1 r2 :
  replaces from to s r1 → replaces from to s r2 → r1 = r2.
Proof.
  intros H1. revert r2. induction H1 as [s Hs | s1 s2 r Hs _ IH]; intros r2 H2.
  - inversion H2 as [|s1 s2 r Hk Hr]; subst; [done|].
    destruct (Hs (length s1)); [rewrite length_app; lia|].
    rewrite drop_app_length. by apply prefix_app_r.
  - remember (s1 ++ from ++ s2) as s eqn:Hs12.
    destruct H2 as [s Hn | t1 t2 r' Hk Hr].
    + destruct (Hn (length s1)); subst; [rewrite length_app; lia|].
      rewrite drop_app_length. by apply prefix_app_r.
    + assert (length t1 = length s1) as Hl.
      { destruct (Nat.lt_trichotomy (length t1) (length s1)) as [Hlt|[|Hlt]]; [|done|].
        - destruct (Hs (length t1) Hlt). rewrite drop_app_length. by apply prefix_app_r.
        - destruct (Hk (length s1) Hlt). rewrite Hs12, drop_app_length.
          by apply prefix_app_r. }
      apply app_inj_1 in Hs12 as [-> Heq]; [|done].
      apply app_inv_head in Heq as ->. by rewrite (IH r').
Qed.

Lemma str_find_hit str from l0 l1 l2 :
  str = l0 ++ l1 ++ from ++ l2 →
  (∀ k, (k < length l1)%nat → ¬ from `prefix_of` drop k (l1 ++ from ++ l2)) →
  str_find str from (len l0) = len l0 + len l1.
Proof.
  intros -> H. unfold str_find. rewrite (proj2 (Z.leb_le _ _)) by len_lia.
  rewrite Nat2Z.id, drop_app_length.
  replace (search _ _ _) with (Some (length l0 + length l1)%nat); [cbn; lia|].
  symmetry. apply search_Some.
  replace (length l0 + length l1 - length l0)%nat with (length l1) by lia.
  split_and!; [lia | rewrite length_app; lia | | done].
  rewrite drop_app_length. by apply prefix_app_r.
Qed.

Lemma StrReplace_loop_replaces fuel from to done_ rest :
  from ≠ [] → (length rest < fuel)%nat →
  len done_ + (len to + 1) * (len rest + 1) < 2 ^ 63 →
  ∃ r, StrReplace_loop fuel (done_ ++ rest) from to (len done_) = Ret (done_ ++ r) ∧
       replaces from to rest r.
Proof.
  intros Hne. revert done_ rest.
  induction fuel as [|fuel IH]; intros done_ rest Hf Hfit; [lia|].
  cbn [StrReplace_loop].
  destruct (search from rest 0) as [j|] eqn:Hj.
  - apply search_Some in Hj as (_ & Hj & [l2 Hp] & Hno). rewrite Nat.sub_0_r in *.
    assert (rest = take j rest ++ from ++ l2) as Hrest by by rewrite <-Hp, take_drop.
    assert (length (take j rest) = j) as Hlj by (rewrite length_take; lia).
    remember (take j rest) as l1. clear Heql1 Hp. subst rest j.
    rewrite (str_find_hit _ _ _ l1 l2) by done.
    destruct (_ =? npos) eqn:E; [bool_hyps; unfold npos in E; len_lia|].
    unfold str_replace. destruct (_ <? len done_ + len l1) eqn:?; [bool_hyps; len_lia|].
    cbn [mbind outcome_bind].
    replace (take _ (done_ ++ l1 ++ from ++ l2)) with (done_ ++ l1).
    2:{ rewrite app_assoc, take_app_length'; [done|]. rewrite length_app. lia. }
    rewrite Z.min_l by len_lia.
    replace (drop _ (done_ ++ l1 ++ from ++ l2)) with l2.
    2:{ rewrite !app_assoc, drop_app_length'; [done|]. rewrite !length_app. lia. }
    rewrite u64_small by (autorewrite with len in *; nia).
    destruct from as [|f0 from']; [done|].
    autorewrite with len in *. rewrite !length_app in Hf. cbn in Hf.
    replace ((done_ ++ l1) ++ to ++ l2) with ((done_ ++ l1 ++ to) ++ l2)
      by by rewrite <-!app_assoc.
    replace (len done_ + len l1 + len to) with (len (done_ ++ l1 ++ to)) by len_lia.
    destruct (IH (done_ ++ l1 ++ to) l2) as (r & -> & Hr); [lia | len_lia; nia |].
    exists (l1 ++ to ++ r). rewrite <-!app_assoc. split; [done|]. by apply replaces_first.
  - replace (str_find _ _ _) with npos.
    2:{ unfold str_find. destruct (_ <=? _) eqn:?; [|done].
        rewrite Nat2Z.id, drop_app_length, search_shift, Hj. done. }
    rewrite Z.eqb_refl. exists rest. split; [done|].
    apply replaces_none. by rewrite search_None in Hj.
Qed.

(** [StrReplace] with a non-empty [from] ends and replaces the occurrences
    found from the left, never looking again into what it inserted (so it ends
    even when [to] contains [from]); the result is the only such text.  With an
    empty [from] the loop never reaches its exit: each turn finds the empty
    string where it stands. *)
Theorem StrReplace_correct (s from to : bytes) :
  (len to + 1) * (len s + 1) < 2 ^ 63 →
  (from ≠ [] → ∃ r, StrReplace s from to = Ret r ∧ ∀ r', replaces from to s r' ↔ r' = r) ∧
  (from = [] → ∀ fuel,
     len s + Z.of_nat fuel * (len to + 1) < 2 ^ 63 →
     StrReplace_loop fuel s from to 0 = OutOfFuel).
Proof.
  intros Hfit. split.
  - intros Hne. destruct (StrReplace_loop_replaces (S (length s)) from to [] s)
      as (r & Hr & Hrep); [done | lia | len_lia |].
    exists r. split; [exact Hr|]. intros r'. split; [|by intros ->].
    intros Hr'. by eapply replaces_functional.
  - intros ->. assert (∀ fuel done_ rest,
      len (done_ ++ rest) + Z.of_nat fuel * (len to + 1) < 2 ^ 63 →
      StrReplace_loop fuel (done_ ++ rest) [] to (len done_) = OutOfFuel) as H.
    { induction fuel as [|fuel IH]; intros done_ rest Hb; [done|].
      cbn [StrReplace_loop]. rewrite (str_find_hit _ [] done_ [] rest) by (done || (cbn; lia)).
      rewrite Z.add_0_r. destruct (_ =? npos) eqn:E; [bool_hyps; unfold npos in E; len_lia|].
      unfold str_replace. destruct (_ <? len done_) eqn:?; [bool_hyps; len_lia|].
      cbn [mbind outcome_bind]. rewrite Z.min_l by len_lia. rewrite Z.add_0_r, Nat2Z.id.
      rewrite take_app_length, drop_app_length, app_assoc.
      rewrite u64_small by len_lia.
      replace (len done_ + len to) with (len (done_ ++ to)) by len_lia.
      apply IH. len_lia. }
    intros fuel Hfuel. exact (H fuel [] s Hfuel).
Qed.

Lemma StrReplace_correct_witness :
  ∃ r, StrReplace (bs "a-b-") (bs "-") (bs "--") = Ret r ∧ r = bs "a--b--".
Proof.
  destruct (StrReplace_correct (bs "a-b-") (bs "-") (bs "--") ltac:(by vm_compute)) as [H _].
  destruct (H ltac:(discriminate)) as (r & Hr & _).
  exists r. split; [exact Hr|]. vm_compute in Hr. injection Hr as <-. done.
Defined.
