(* ===== verification/Status.v ===== *)
(** * Status values (src/cppboot/base/status.h, status.cc; formatters of fmt.h)

    The codes, their names, the predicates and constructors, and the [errno]
    table.  Here a [Status] is a value; [StatusMem] models the heap
    representation and proves that it implements these values. *)

From S2P Require Import Prelude StdString StringView.

Inductive StatusCode : Set :=
  | kOk
  | kCancelled
  | kUnknown
  | kInvalidArgument
  | kDeadlineExceeded
  | kNotFound
  | kAlreadyExists
  | kPermissionDenied
  | kResourceExhausted
  | kFailedPrecondition
  | kAborted
  | kOutOfRange
  | kUnimplemented
  | kInternal
  | kUnavailable.

#[export] Instance StatusCode_eq_dec : EqDecision StatusCode.
Proof. solve_decision. Defined.

(** The underlying [int] of each enumerator, and back. *)
Definition code_value (c : StatusCode) : Z :=
  match c with
  | kOk => 0 | kCancelled => 1 | kUnknown => 2 | kInvalidArgument => 3
  | kDeadlineExceeded => 4 | kNotFound => 5 | kAlreadyExists => 6
  | kPermissionDenied => 7 | kResourceExhausted => 8 | kFailedPrecondition => 9
  | kAborted => 10 | kOutOfRange => 11 | kUnimplemented => 12 | kInternal => 13
  | kUnavailable => 14
  end.

Definition all_codes : list StatusCode :=
  [kOk; kCancelled; kUnknown; kInvalidArgument; kDeadlineExceeded; kNotFound;
   kAlreadyExists; kPermissionDenied; kResourceExhausted; kFailedPrecondition;
   kAborted; kOutOfRange; kUnimplemented; kInternal; kUnavailable].

Definition code_of_value (z : Z) : option StatusCode :=
  List.find (λ c, code_value c =? z) all_codes.

(** [StatusCodeToString]: a value outside the enumeration has no name. *)
Definition StatusCodeToString (code : Z) : bytes :=
  match code_of_value code with
  | Some kOk => bs "OK"
  | Some kCancelled => bs "CANCELLED"
  | Some kUnknown => bs "UNKNOWN"
  | Some kDeadlineExceeded => bs "DEADLINE_EXCEEDED"
  | Some kInvalidArgument => bs "INVALID_ARGUMENT"
  | Some kNotFound => bs "NOT_FOUND"
  | Some kAlreadyExists => bs "ALREADY_EXISTS"
  | Some kPermissionDenied => bs "PERMISSION_DENIED"
  | Some kResourceExhausted => bs "RESOURCE_EXHAUSTED"
  | Some kFailedPrecondition => bs "FAILED_PRECONDITION"
  | Some kAborted => bs "ABORTED"
  | Some kOutOfRange => bs "OUT_OF_RANGE"
  | Some kUnimplemented => bs "UNIMPLEMENTED"
  | Some kInternal => bs "INTERNAL"
  | Some kUnavailable => bs "UNAVAILABLE"
  | None => []
  end.

(** ** Status values *)

Inductive Status : Type :=
  | OkStatus
  | ErrStatus (code : StatusCode) (msg : bytes).

#[export] Instance Status_eq_dec : EqDecision Status.
Proof. solve_decision. Defined.

Definition status_code (s : Status) : StatusCode :=
  match s with OkStatus => kOk | ErrStatus c _ => c end.
Definition status_message (s : Status) : bytes :=
  match s with OkStatus => [] | ErrStatus _ m => m end.
Definition status_ok (s : Status) : bool :=
  match s with OkStatus => true | ErrStatus _ _ => false end.

(** [Status(code, msg)] asserts that the code is an error. *)
Definition mk_Status (code : StatusCode) (msg : bytes) : outcome Status :=
  _ ← cpp_assert (negb (bool_decide (code = kOk))); Ret (ErrStatus code msg).

(** [ToString]: ["OK"], or the code's name and, if there is one, the message. *)
Definition ToString (s : Status) : bytes :=
  if status_ok s then bs "OK"
  else
    StatusCodeToString (code_value (status_code s)) ++
    (if bool_decide (0 < len (status_message s)) then bs ": " ++ status_message s else []).

Definition has_code (c : StatusCode) (s : Status) : bool := bool_decide (status_code s = c).
Definition IsCancelled := has_code kCancelled.
Definition IsUnknown := has_code kUnknown.
Definition IsDeadlineExceeded := has_code kDeadlineExceeded.
Definition IsInvalidArgument := has_code kInvalidArgument.
Definition IsNotFound := has_code kNotFound.
Definition IsAlreadyExists := has_code kAlreadyExists.
Definition IsPermissionDenied := has_code kPermissionDenied.
Definition IsResourceExhausted := has_code kResourceExhausted.
Definition IsFailedPrecondition := has_code kFailedPrecondition.
Definition IsAborted := has_code kAborted.
Definition IsOutOfRange := has_code kOutOfRange.
Definition IsUnimplemented := has_code kUnimplemented.
Definition IsInternal := has_code kInternal.
Definition IsUnavailable := has_code kUnavailable.

(** The convenience constructors; their code is never [kOk]. *)
Definition CancelledError := ErrStatus kCancelled.
Definition UnknownError := ErrStatus kUnknown.
Definition DeadlineExceededError := ErrStatus kDeadlineExceeded.
Definition InvalidArgumentError := ErrStatus kInvalidArgument.
Definition NotFoundError := ErrStatus kNotFound.
Definition AlreadyExistsError := ErrStatus kAlreadyExists.
Definition PermissionDeniedError := ErrStatus kPermissionDenied.
Definition OutOfRangeError := ErrStatus kOutOfRange.
Definition FailedPreconditionError := ErrStatus kFailedPrecondition.
Definition ResourceExhaustedError := ErrStatus kResourceExhausted.
Definition AbortedError := ErrStatus kAborted.
Definition UnimplementedError := ErrStatus kUnimplemented.
Definition InternalError := ErrStatus kInternal.
Definition UnavailableError := ErrStatus kUnavailable.

(** ** [errno]

    The numbers are those of Linux <errno.h>, where every name the [#ifdef]s
    test is defined. *)

Definition errno_InvalidArgument : list Z :=
  [22 (* EINVAL *); 36 (* ENAMETOOLONG *); 7 (* E2BIG *); 89 (* EDESTADDRREQ *);
   33 (* EDOM *); 14 (* EFAULT *); 84 (* EILSEQ *); 92 (* ENOPROTOOPT *);
   60 (* ENOSTR *); 88 (* ENOTSOCK *); 25 (* ENOTTY *); 91 (* EPROTOTYPE *);
   29 (* ESPIPE *)].
Definition errno_DeadlineExceeded : list Z := [110 (* ETIMEDOUT *); 62 (* ETIME *)].
Definition errno_NotFound : list Z :=
  [19 (* ENODEV *); 2 (* ENOENT *); 123 (* ENOMEDIUM *); 6 (* ENXIO *); 3 (* ESRCH *)].
Definition errno_AlreadyExists : list Z :=
  [17 (* EEXIST *); 99 (* EADDRNOTAVAIL *); 114 (* EALREADY *); 76 (* ENOTUNIQ *)].
Definition errno_PermissionDenied : list Z :=
  [1 (* EPERM *); 13 (* EACCES *); 126 (* ENOKEY *); 30 (* EROFS *)].
Definition errno_FailedPrecondition : list Z :=
  [39 (* ENOTEMPTY *); 21 (* EISDIR *); 20 (* ENOTDIR *); 98 (* EADDRINUSE *);
   9 (* EBADF *); 77 (* EBADFD *); 16 (* EBUSY *); 10 (* ECHILD *); 106 (* EISCONN *);
   120 (* EISNAM *); 15 (* ENOTBLK *); 107 (* ENOTCONN *); 32 (* EPIPE *);
   108 (* ESHUTDOWN *); 26 (* ETXTBSY *); 49 (* EUNATCH *)].
Definition errno_ResourceExhausted : list Z :=
  [28 (* ENOSPC *); 122 (* EDQUOT *); 24 (* EMFILE *); 31 (* EMLINK *); 23 (* ENFILE *);
   105 (* ENOBUFS *); 61 (* ENODATA *); 12 (* ENOMEM *); 63 (* ENOSR *); 87 (* EUSERS *)].
Definition errno_OutOfRange : list Z :=
  [44 (* ECHRNG *); 27 (* EFBIG *); 75 (* EOVERFLOW *); 34 (* ERANGE *)].
Definition errno_Unimplemented : list Z :=
  [65 (* ENOPKG *); 38 (* ENOSYS *); 95 (* ENOTSUP *); 97 (* EAFNOSUPPORT *);
   96 (* EPFNOSUPPORT *); 93 (* EPROTONOSUPPORT *); 94 (* ESOCKTNOSUPPORT *);
   18 (* EXDEV *)].
Definition errno_Unavailable : list Z :=
  [11 (* EAGAIN *); 70 (* ECOMM *); 111 (* ECONNREFUSED *); 103 (* ECONNABORTED *);
   104 (* ECONNRESET *); 4 (* EINTR *); 112 (* EHOSTDOWN *); 113 (* EHOSTUNREACH *);
   100 (* ENETDOWN *); 102 (* ENETRESET *); 101 (* ENETUNREACH *); 37 (* ENOLCK *);
   67 (* ENOLINK *); 64 (* ENONET *)].
Definition errno_Aborted : list Z := [35 (* EDEADLK *); 116 (* ESTALE *)].
Definition errno_Cancelled : list Z := [125 (* ECANCELED *)].

(** The cases of the [switch], in its order. *)
Definition errno_cases : list (list Z * StatusCode) :=
  [([0], kOk);
   (errno_InvalidArgument, kInvalidArgument);
   (errno_DeadlineExceeded, kDeadlineExceeded);
   (errno_NotFound, kNotFound);
   (errno_AlreadyExists, kAlreadyExists);
   (errno_PermissionDenied, kPermissionDenied);
   (errno_FailedPrecondition, kFailedPrecondition);
   (errno_ResourceExhausted, kResourceExhausted);
   (errno_OutOfRange, kOutOfRange);
   (errno_Unimplemented, kUnimplemented);
   (errno_Unavailable, kUnavailable);
   (errno_Aborted, kAborted);
   (errno_Cancelled, kCancelled)].

Definition ErrnoToStatusCode (error_number : Z) : StatusCode :=
  match List.find (λ ec, bool_decide (error_number ∈ ec.1)) errno_cases with
  | Some (_, c) => c
  | None => kUnknown
  end.

(** ** Formatting (fmt.h)

    The formatter of [string_view] prints [data()] as a C string, cut at
    [size()] characters: it stops at a NUL inside the view, reads on to the
    NUL after it, and hands the null pointer of the empty view to [strlen].  ([format_error] is a
    [std::runtime_error].) *)
Definition format_sv (v : string_view) : outcome bytes :=
  match ptr_ v with
  | None => Undef
  | Some p => s ← c_str p; Ret (take (Z.to_nat (size v)) s)
  end.

(** The formatter of [Status]. *)
Definition format_status (s : Status) : bytes := ToString s.

Section errno_to_status.
(** [strerror] belongs to the C library. *)
Context (strerror : Z → bytes).

Definition MessageForErrnoToStatus (error_number : Z) (message : string_view)
    : outcome bytes :=
  m ← format_sv message; Ret (m ++ bs ": " ++ strerror error_number).

Definition ErrnoToStatus (error_number : Z) (message : string_view) : outcome Status :=
  m ← MessageForErrnoToStatus error_number message;
  mk_Status (ErrnoToStatusCode error_number) m.
End errno_to_status.

(** * Properties *)

Lemma code_of_code_value c : code_of_value (code_value c) = Some c.
Proof. by destruct c. Qed.

Lemma code_value_inj c d : code_value c = code_value d → c = d.
Proof. intros H. by apply (f_equal code_of_value) in H; rewrite !code_of_code_value in H; simplify_eq. Qed.

Lemma code_value_range c : 0 <= code_value c < 15.
Proof. destruct c; cbn; lia. Qed.

(** No number is listed twice, so the order of the cases does not matter. *)
Lemma errno_nodup : NoDup (concat errno_cases.*1).
Proof. by_decide. Qed.

Lemma ErrnoToStatusCode_case n l c :
  (l, c) ∈ errno_cases → n ∈ l → ErrnoToStatusCode n = c.
Proof.
  assert (∀ cases : list (list Z * StatusCode), NoDup (concat cases.*1) →
    (l, c) ∈ cases → n ∈ l →
    List.find (λ ec, bool_decide (n ∈ ec.1)) cases = Some (l, c)) as H.
  { induction cases as [|[l' c'] cases IH]; [set_solver|].
    cbn. intros (_ & Hd & Hnd)%NoDup_app [Heq | Hin]%elem_of_cons Hn; simplify_eq.
    - by rewrite bool_decide_true.
    - rewrite bool_decide_false; [by apply IH|]. intros Hn'. apply (Hd n Hn').
      apply list_elem_of_In, in_concat. exists l. split; [|by apply list_elem_of_In].
      apply list_elem_of_In, list_elem_of_fmap. by exists (l, c). }
  intros Hin Hn. unfold ErrnoToStatusCode. by rewrite (H errno_cases errno_nodup Hin Hn).
Qed.

(** Every status code has its own non-empty name, the name determines the
    code, and values outside the enumeration have the empty name; an error
    prints as its code's name, with [": "] and the message exactly when there
    is one, so the printed form of two errors with messages determines both the
    code and the message. *)
Theorem StatusCodeToString_faithful (c d : StatusCode) (z : Z) (m n : bytes) :
  (StatusCodeToString (code_value c) = StatusCodeToString (code_value d) → c = d) ∧
  (StatusCodeToString z = [] ↔ code_of_value z = None) ∧
  (m ≠ [] → n ≠ [] →
   ToString (ErrStatus c m) = ToString (ErrStatus d n) → ErrStatus c m = ErrStatus d n).
Proof.
  split_and!.
  - destruct c, d; try done; discriminate.
  - unfold StatusCodeToString. destruct (code_of_value z) as [[]|]; done.
  - unfold ToString. cbn [status_ok status_code status_message].
    intros Hm Hn. rewrite !bool_decide_true by (destruct m, n; done || len_lia).
    intros Heq. assert (c = d) as ->.
    { destruct c, d; try done; vm_compute in Heq; discriminate. }
    f_equal. by apply app_inv_head in Heq as ?%app_inv_head.
Qed.

Lemma StatusCodeToString_faithful_witness :
  StatusCodeToString (code_value kAborted) = bs "ABORTED" ∧
  (StatusCodeToString 15 = [] ↔ code_of_value 15 = None) ∧
  ErrStatus kNotFound (bs "x") = ErrStatus kNotFound (bs "x").
Proof.
  split; [reflexivity|].
  split; [apply (StatusCodeToString_faithful kOk kOk 15 [] [])|].
  apply (StatusCodeToString_faithful kNotFound kNotFound 0 (bs "x") (bs "x"));
    [discriminate | discriminate | reflexivity].
Defined.

Lemma ErrnoToStatusCode_kOk n : ErrnoToStatusCode n = kOk ↔ n = 0.
Proof.
  split; [|by intros ->]. unfold ErrnoToStatusCode.
  destruct (List.find _ _) as [[l' c']|] eqn:Hf; [|done].
  apply find_some in Hf as [Hin Hn%bool_decide_eq_true]. intros ->.
  cbn in Hin, Hn. repeat destruct Hin as [[= <-]|Hin]; [set_solver | done..].
Qed.

(** [ErrnoToStatusCode] maps 0, and 0 alone, to [kOk]; a listed number gets
    the code of the group it is listed in, whatever the order of the groups,
    and an unlisted one [kUnknown].  So [ErrnoToStatus] builds an error with the
    message and the system's text for every non-zero number, and fails its
    assertion for 0. *)
Theorem ErrnoToStatus_correct (strerror : Z → bytes) (n : Z) (l : list Z)
    (c : StatusCode) (msg : bytes) :
  (ErrnoToStatusCode n = kOk ↔ n = 0) ∧
  ((l, c) ∈ errno_cases → n ∈ l → ErrnoToStatusCode n = c) ∧
  ((∀ l' c', (l', c') ∈ errno_cases → n ∉ l') → ErrnoToStatusCode n = kUnknown) ∧
  (NUL ∉ msg →
   ErrnoToStatus strerror n (sv_of_string msg) =
   if bool_decide (n = 0) then Crash
   else Ret (ErrStatus (ErrnoToStatusCode n) (msg ++ bs ": " ++ strerror n))).
Proof.
  pose proof (ErrnoToStatusCode_kOk n) as Hok.
  split_and!; [done | apply ErrnoToStatusCode_case | |].
  - intros Hno. unfold ErrnoToStatusCode.
    destruct (List.find _ _) as [[l' c']|] eqn:Hf; [|done].
    apply find_some in Hf as [Hin%list_elem_of_In Hn%bool_decide_eq_true].
    by destruct (Hno l' c' Hin).
  - intros Hm. unfold ErrnoToStatus, MessageForErrnoToStatus, format_sv.
    cbn [ptr_ sv_of_string]. rewrite (c_str_terminated msg []) by done. cbn.
    rewrite Nat2Z.id, take_ge by done. unfold mk_Status.
    destruct (decide (n = 0)) as [->|Hn]; [done|].
    rewrite (bool_decide_false (n = 0)) by done.
    rewrite (bool_decide_false (ErrnoToStatusCode n = kOk)) by by rewrite Hok. done.
Qed.

Lemma ErrnoToStatus_correct_witness :
  ErrnoToStatusCode 2 = kNotFound ∧ ErrnoToStatusCode 4095 = kUnknown ∧
  ErrnoToStatus (λ _, bs "gone") 2 (sv_of_string (bs "rm")) =
    Ret (ErrStatus kNotFound (bs "rm: gone")).
Proof.
  split_and!.
  - apply (ErrnoToStatus_correct (λ _, []) 2 errno_NotFound kNotFound []); by_decide.
  - apply (ErrnoToStatus_correct (λ _, []) 4095 [] kOk []).
    intros l c Hin. cbn in Hin.
    repeat (apply elem_of_cons in Hin as [[= -> ->]|Hin]; [by_decide|]).
    by apply elem_of_nil in Hin.
  - etrans; [apply (ErrnoToStatus_correct (λ _, bs "gone") 2 [] kOk (bs "rm")); by_decide|].
    reflexivity.
Defined.
