(* ===== verification/StatusMem.v ===== *)
(** * The memory of [Status] (src/cppboot/base/status.h, status.cc)

    A [Status] object holds [state_], null or a [new char[]] block laid out as
    length (4 bytes), code (1 byte), message.  The constructors, assignments,
    moves, [Update] and the destructor act on a heap of blocks and on the live
    objects; the refinement theorem says that they implement the values of
    [Status.v], without a double delete, a read outside a block or a leak. *)

From S2P Require Import Prelude StdString StringView Status.

Abbreviation loc := positive.
Abbreviation oid := nat.

(** The value of a [state_] member; [Indet] was never assigned. *)
Inductive ptr : Set := Null | Ptr (l : loc) | Indet.
#[export] Instance ptr_eq_dec : EqDecision ptr.
Proof. solve_decision. Defined.

Record world : Type := World {
  blocks : gmap loc bytes;      (* live [new char[]] blocks *)
  fresh : loc;                  (* the next address *)
  objs : gmap oid ptr;          (* live [Status] objects *)
}.

(** ** Memory primitives *)

(** What [new char[n]] leaves in the block. *)
Definition uninit : ascii := char_of 190.

Definition new_array (n : Z) (w : world) : loc * world :=
  (fresh w,
   World (<[fresh w := replicate (Z.to_nat n) uninit]> (blocks w))
     (Pos.succ (fresh w)) (objs w)).

Definition block (l : loc) (w : world) : outcome bytes := or_undef (blocks w !! l).

(** [memcpy] into a block; running past its end is undefined. *)
Definition store (l : loc) (off : nat) (data : bytes) (w : world) : outcome world :=
  b ← block l w;
  if (off + length data <=? length b)%nat
  then Ret (World (<[l := take off b ++ data ++ drop (off + length data) b]> (blocks w))
              (fresh w) (objs w))
  else Undef.

(** [memcpy] out of a block. *)
Definition load (l : loc) (n : nat) (w : world) : outcome bytes :=
  b ← block l w; if (n <=? length b)%nat then Ret (take n b) else Undef.

Definition delete_array (p : ptr) (w : world) : outcome world :=
  match p with
  | Null => Ret w
  | Ptr l => _ ← block l w; Ret (World (delete l (blocks w)) (fresh w) (objs w))
  | Indet => Undef
  end.

Definition get_obj (o : oid) (w : world) : outcome ptr :=
  match objs w !! o with
  | Some Indet | None => Undef
  | Some p => Ret p
  end.
Definition set_obj (o : oid) (p : ptr) (w : world) : world :=
  World (blocks w) (fresh w) (<[o := p]> (objs w)).

(** ** Members of [Status] *)

Definition CopyState (state : loc) (w : world) : outcome (loc * world) :=
  b ← block state w;
  size ← le32_get b;
  let '(result, w) := new_array (u32 (size + 5)) w in
  data ← load state (Z.to_nat (u32 (size + 5))) w;
  w ← store result 0 data w;
  Ret (result, w).

Definition copy_ptr (p : ptr) (w : world) : outcome (ptr * world) :=
  match p with
  | Null => Ret (Null, w)
  | Ptr l => '(r, w) ← CopyState l w; Ret (Ptr r, w)
  | Indet => Undef
  end.

(** [Status()] *)
Definition ctor_default (o : oid) (w : world) : outcome world := Ret (set_obj o Null w).

(** [Status(code, msg)] *)
Definition ctor_code (o : oid) (code : StatusCode) (msg : bytes) (w : world)
    : outcome world :=
  _ ← cpp_assert (negb (bool_decide (code = kOk)));
  let size := u32 (len msg) in
  let '(result, w) := new_array (u32 (size + 5)) w in
  w ← store result 0 (le32 size) w;
  w ← store result 4 [char_of (code_value code)] w;
  w ← store result 5 (take (Z.to_nat size) msg) w;
  Ret (set_obj o (Ptr result) w).

(** [vsnprintf(result + 5, size, ...)] for the text [rendered]: the characters
    that fit, a NUL, and the full length; [None] is an encoding error. *)
Definition vsnprintf (result : loc) (size : Z) (rendered : option bytes) (w : world)
    : outcome (Z * world) :=
  match rendered with
  | None => Ret (-1, w)
  | Some text =>
      w ← store result 5 (take (Z.to_nat (size - 1)) text ++ [NUL]) w;
      Ret (len text, w)
  end.

(** The [for] loop of [Status(code, format, ...)]; falling out of it leaves
    [state_] unassigned. *)
Fixpoint ctor_format_loop (retries : nat) (o : oid) (code : StatusCode)
    (rendered : option bytes) (size : Z) (w : world) : outcome world :=
  match retries with
  | O => Ret (set_obj o Indet w)
  | S retries =>
      n5 ← int_result (size + 5);
      let '(result, w) := new_array n5 w in
      '(n, w) ← vsnprintf result size rendered w;
      if n <? 0 then
        w ← delete_array (Ptr result) w;
        ctor_format_loop retries o code rendered size w
      else if size <=? n then
        size ← int_result (n + 1);
        w ← delete_array (Ptr result) w;
        ctor_format_loop retries o code rendered size w
      else
        w ← store result 0 (le32 (u32 n)) w;
        w ← store result 4 [char_of (code_value code)] w;
        Ret (set_obj o (Ptr result) w)
  end.

(** [Status(code, format, ...)] *)
Definition ctor_format (o : oid) (code : StatusCode) (rendered : option bytes) (w : world)
    : outcome world :=
  _ ← cpp_assert (negb (bool_decide (code = kOk)));
  ctor_format_loop 2 o code rendered 100 w.

(** [Status(const Status&)] *)
Definition ctor_copy (o r : oid) (w : world) : outcome world :=
  pr ← get_obj r w;
  '(p, w) ← copy_ptr pr w;
  Ret (set_obj o p w).

(** [operator=(const Status&)] *)
Definition assign_copy (o r : oid) (w : world) : outcome world :=
  po ← get_obj o w;
  pr ← get_obj r w;
  if bool_decide (po = pr) then Ret w
  else
    w ← delete_array po w;
    '(p, w) ← copy_ptr pr w;
    Ret (set_obj o p w).

(** [Status(Status&&)] *)
Definition ctor_move (o r : oid) (w : world) : outcome world :=
  pr ← get_obj r w;
  Ret (set_obj r Null (set_obj o pr w)).

(** [operator=(Status&&)]: [std::swap] of the pointers. *)
Definition assign_move (o r : oid) (w : world) : outcome world :=
  po ← get_obj o w;
  pr ← get_obj r w;
  Ret (set_obj r po (set_obj o pr w)).

(** [ok()] *)
Definition mem_ok (o : oid) (w : world) : outcome bool :=
  p ← get_obj o w; Ret (bool_decide (p = Null)).

(** [Update(const Status&)] and [Update(Status&&)] *)
Definition update_copy (o r : oid) (w : world) : outcome world :=
  k ← mem_ok o w; if (k : bool) then assign_copy o r w else Ret w.
Definition update_move (o r : oid) (w : world) : outcome world :=
  k ← mem_ok o w; if (k : bool) then assign_move o r w else Ret w.

(** [~Status()] *)
Definition dtor (o : oid) (w : world) : outcome world :=
  p ← get_obj o w;
  w ← delete_array p w;
  Ret (World (blocks w) (fresh w) (delete o (objs w))).

(** [code()], as the [int] under the enumeration. *)
Definition mem_code (o : oid) (w : world) : outcome Z :=
  p ← get_obj o w;
  match p with
  | Ptr l => b ← block l w; c ← or_undef (b !! 4%nat); Ret (schar c)
  | _ => Ret (code_value kOk)
  end.

(** [message()]: a view into the block. *)
Definition mem_message (o : oid) (w : world) : outcome string_view :=
  p ← get_obj o w;
  match p with
  | Ptr l =>
      b ← block l w;
      n ← le32_get b;
      if 0 <? n then sv_of_ptr (Some (drop 5 b)) n else Ret sv_null
  | _ => Ret sv_null
  end.

(** [ToStringSlow()] and [ToString()] *)
Definition mem_ToStringSlow (o : oid) (w : world) : outcome bytes :=
  c ← mem_code o w;
  let result := StatusCodeToString c in
  p ← get_obj o w;
  match p with
  | Ptr l =>
      b ← block l w;
      n ← le32_get b;
      if 0 <? n then
        data ← load l (5 + Z.to_nat n) w;
        Ret ((result ++ bs ": ") ++ drop 5 data)
      else Ret result
  | _ => Ret result
  end.
Definition mem_ToString (o : oid) (w : world) : outcome bytes :=
  k ← mem_ok o w; if (k : bool) then Ret (bs "OK") else mem_ToStringSlow o w.

(** [StatusMessageAsCStr] *)
Definition StatusMessageAsCStr (o : oid) (w : world) : outcome bytes :=
  v ← mem_message o w;
  if empty v then Ret [NUL] else or_undef (ptr_ v).

(** ** Programs that use statuses *)

Inductive op : Type :=
  | CtorDefault (o : oid)
  | CtorCode (o : oid) (code : StatusCode) (msg : bytes)
  | CtorFormat (o : oid) (code : StatusCode) (rendered : option bytes)
  | CtorCopy (o r : oid)
  | CtorMove (o r : oid)
  | AssignCopy (o r : oid)
  | AssignMove (o r : oid)
  | UpdateCopy (o r : oid)
  | UpdateMove (o r : oid)
  | Dtor (o : oid).

Definition exec (c : op) : world → outcome world :=
  match c with
  | CtorDefault o => ctor_default o
  | CtorCode o code msg => ctor_code o code msg
  | CtorFormat o code rendered => ctor_format o code rendered
  | CtorCopy o r => ctor_copy o r
  | CtorMove o r => ctor_move o r
  | AssignCopy o r => assign_copy o r
  | AssignMove o r => assign_move o r
  | UpdateCopy o r => update_copy o r
  | UpdateMove o r => update_move o r
  | Dtor o => dtor o
  end.

Fixpoint exec_all (cs : list op) (w : world) : outcome world :=
  match cs with [] => Ret w | c :: cs => w ← exec c w; exec_all cs w end.

Definition w0 : world := World ∅ 1 ∅.

(** ** Abstract specification: statuses are values

    [None] marks a use the C++ rules out: a constructor on a live object, any
    other operation on a dead one, a [kOk] error, a message too long for the
    32-bit length, or a [printf] that fails. *)

Definition max_msg : Z := 2 ^ 32 - 5.

Definition spec (c : op) (σ : gmap oid Status) : option (gmap oid Status) :=
  match c with
  | CtorDefault o =>
      match σ !! o with None => Some (<[o := OkStatus]> σ) | _ => None end
  | CtorCode o code msg =>
      match σ !! o with
      | None =>
          if bool_decide (code ≠ kOk ∧ len msg < max_msg)
          then Some (<[o := ErrStatus code msg]> σ) else None
      | _ => None
      end
  | CtorFormat o code rendered =>
      match σ !! o, rendered with
      | None, Some msg =>
          if bool_decide (code ≠ kOk ∧ len msg + 6 <= INT_MAX)
          then Some (<[o := ErrStatus code msg]> σ) else None
      | _, _ => None
      end
  | CtorCopy o r =>
      match σ !! o, σ !! r with None, Some s => Some (<[o := s]> σ) | _, _ => None end
  | CtorMove o r =>
      match σ !! o, σ !! r with
      | None, Some s => Some (<[r := OkStatus]> (<[o := s]> σ))
      | _, _ => None
      end
  | AssignCopy o r =>
      match σ !! o, σ !! r with Some _, Some s => Some (<[o := s]> σ) | _, _ => None end
  | AssignMove o r =>
      match σ !! o, σ !! r with
      | Some t, Some s => Some (<[r := t]> (<[o := s]> σ))
      | _, _ => None
      end
  | UpdateCopy o r =>
      match σ !! o, σ !! r with
      | Some t, Some s => Some (if status_ok t then <[o := s]> σ else σ)
      | _, _ => None
      end
  | UpdateMove o r =>
      match σ !! o, σ !! r with
      | Some t, Some s =>
          Some (if status_ok t then <[r := t]> (<[o := s]> σ) else σ)
      | _, _ => None
      end
  | Dtor o =>
      match σ !! o with Some _ => Some (delete o σ) | None => None end
  end.

Fixpoint spec_all (cs : list op) (σ : gmap oid Status) : option (gmap oid Status) :=
  match cs with
  | [] => Some σ
  | c :: cs => match spec c σ with Some σ => spec_all cs σ | None => None end
  end.

(** * Properties *)

(** ** Representation *)

(** A block that holds an error: length, code, message, and whatever the
    allocation had left over. *)
Definition block_of (c : StatusCode) (m b : bytes) : Prop :=
  (∃ extra, b = le32 (len m) ++ [char_of (code_value c)] ++ m ++ extra) ∧
  c ≠ kOk ∧ len m < max_msg.

Definition val_ok (bl : gmap loc bytes) (p : ptr) (s : Status) : Prop :=
  match p, s with
  | Null, OkStatus => True
  | Ptr l, ErrStatus c m => ∃ b, bl !! l = Some b ∧ block_of c m b
  | _, _ => False
  end.

(** The live objects hold the values of [σ], each error in a block of its own,
    and there is no other block. *)
Record Rep (w : world) (σ : gmap oid Status) : Prop := {
  rep_val : ∀ o, match objs w !! o, σ !! o with
                 | Some p, Some s => val_ok (blocks w) p s
                 | None, None => True
                 | _, _ => False
                 end;
  rep_inj : ∀ o1 o2 l,
    objs w !! o1 = Some (Ptr l) → objs w !! o2 = Some (Ptr l) → o1 = o2;
  rep_own : ∀ l, is_Some (blocks w !! l) → ∃ o, objs w !! o = Some (Ptr l);
  rep_fresh : ∀ l, is_Some (blocks w !! l) → (l < fresh w)%positive;
}.

Lemma rep_get w σ o s :
  Rep w σ → σ !! o = Some s →
  ∃ p, objs w !! o = Some p ∧ get_obj o w = Ret p ∧ val_ok (blocks w) p s.
Proof.
  intros HR Hs. pose proof (rep_val w σ HR o) as Hv. rewrite Hs in Hv.
  unfold get_obj. destruct (objs w !! o) as [p|]; [|done].
  exists p. split_and!; [done | by destruct p | done].
Qed.

Lemma rep_none w σ o : Rep w σ → σ !! o = None → objs w !! o = None.
Proof.
  intros HR Hs. pose proof (rep_val w σ HR o) as Hv. rewrite Hs in Hv.
  by destruct (objs w !! o).
Qed.

Lemma val_ok_fresh w σ p s l :
  Rep w σ → val_ok (blocks w) p s → p = Ptr l → l ≠ fresh w.
Proof.
  intros HR Hv -> ->. destruct s; [done|]. destruct Hv as (b & Hb & _).
  pose proof (rep_fresh w σ HR _ (mk_is_Some _ _ Hb)). lia.
Qed.

Lemma rep_put_null w σ o :
  Rep w σ → objs w !! o = None → Rep (set_obj o Null w) (<[o := OkStatus]> σ).
Proof.
  intros HR Ho. destruct HR as [Hv Hi Hw Hf]. split; cbn.
  - intros o'. destruct (decide (o = o')) as [->|Hne].
    + by rewrite !lookup_insert_eq.
    + rewrite !lookup_insert_ne by done. apply Hv.
  - intros o1 o2 l. rewrite !lookup_insert. repeat case_decide; try done. apply Hi.
  - intros l Hl. destruct (Hw l Hl) as [o' Ho']. exists o'.
    rewrite lookup_insert_ne; [done|]. congruence.
  - done.
Qed.

(** A new block for an object that owns none. *)
Lemma rep_fill w σ o c m b :
  Rep (set_obj o Null w) (<[o := OkStatus]> σ) → block_of c m b →
  Rep (World (<[fresh w := b]> (blocks w)) (Pos.succ (fresh w))
         (<[o := Ptr (fresh w)]> (objs w)))
      (<[o := ErrStatus c m]> σ).
Proof.
  intros [Hv Hi Hw Hf] Hb. cbn in *.
  assert (blocks w !! fresh w = None) as Hfr.
  { apply eq_None_not_Some. intros Hl%Hf. lia. }
  assert (∀ o' l, o' ≠ o → objs w !! o' = Some (Ptr l) → l ≠ fresh w) as Hne.
  { intros o' l Ho Hl ->. pose proof (Hv o') as Ho'.
    rewrite !lookup_insert_ne, Hl in Ho' by done.
    destruct (σ !! o') as [[|]|]; try done.
    destruct Ho' as (b' & Hb' & _). congruence. }
  split; cbn.
  - intros o'. destruct (decide (o = o')) as [->|Ho].
    + rewrite !lookup_insert_eq. exists b. by rewrite lookup_insert_eq.
    + pose proof (Hv o') as Ho'. rewrite !lookup_insert_ne in * by done.
      destruct (objs w !! o') as [p|] eqn:Hp, (σ !! o') as [s|]; try done.
      destruct p, s; try done. destruct Ho' as (b' & ? & ?). exists b'.
      rewrite lookup_insert_ne; [done|]. intros ?. by eapply Hne.
  - intros o1 o2 l. rewrite !lookup_insert. repeat case_decide; intros; simplify_eq; try done.
    + by destruct (Hne o2 (fresh w)).
    + by destruct (Hne o1 (fresh w)).
    + apply (Hi o1 o2 l); by rewrite lookup_insert_ne.
  - intros l. rewrite lookup_insert. case_decide as Hl.
    + intros _. subst l. exists o. apply lookup_insert_eq.
    + intros H. destruct (Hw l H) as [o' Ho']. exists o'.
      rewrite lookup_insert in *. by case_decide.
  - intros l. rewrite lookup_insert. case_decide as Hl; [lia|].
    intros H%Hf. lia.
Qed.

(** Deleting what an object points to leaves it owning nothing. *)
Lemma rep_release w σ o p :
  Rep w σ → objs w !! o = Some p → p ≠ Indet →
  ∃ w', delete_array p w = Ret w' ∧ objs w' = objs w ∧ fresh w' = fresh w ∧
        Rep (set_obj o Null w') (<[o := OkStatus]> σ) ∧
        (∀ l, p ≠ Ptr l → blocks w' !! l = blocks w !! l).
Proof.
  intros HR Ho Hp. pose proof HR as [Hv Hi Hw Hf].
  assert (∀ w', (∀ l, p = Ptr l → blocks w' !! l = None) →
    (∀ l, p ≠ Ptr l → blocks w' !! l = blocks w !! l) →
    objs w' = objs w → fresh w' = fresh w →
    Rep (set_obj o Null w') (<[o := OkStatus]> σ)) as Hrep.
  { intros w' Hgone Hkeep Hobjs Hfresh. split; cbn; rewrite ?Hobjs, ?Hfresh.
    - intros o'. destruct (decide (o = o')) as [->|Hne].
      + by rewrite !lookup_insert_eq.
      + rewrite !lookup_insert_ne by done. pose proof (Hv o') as Ho'.
        destruct (objs w !! o') as [p'|] eqn:Hp', (σ !! o') as [s|]; try done.
        destruct p', s; try done. destruct Ho' as (b & ? & ?). exists b.
        rewrite Hkeep; [done|]. intros ->. by destruct Hne; eapply Hi.
    - intros o1 o2 l. rewrite !lookup_insert. repeat case_decide; try done. apply Hi.
    - intros l Hl. destruct (decide (p = Ptr l)) as [->|Hpl].
      { rewrite Hgone in Hl by done. by destruct Hl. }
      rewrite Hkeep in Hl by done. destruct (Hw l Hl) as [o' Ho']. exists o'.
      rewrite lookup_insert_ne; [done|]. congruence.
    - intros l Hl. destruct (decide (p = Ptr l)) as [->|Hpl].
      { rewrite Hgone in Hl by done. by destruct Hl. }
      rewrite Hkeep in Hl by done. by apply Hf. }
  pose proof (Hv o) as Hvo. rewrite Ho in Hvo.
  destruct p as [|l|]; [|destruct (σ !! o) as [[|c m]|]; try done|done].
  - exists w. split_and!; [done..| |done]. by apply Hrep.
  - destruct Hvo as (b & Hb & _). unfold delete_array, block. rewrite Hb. cbn.
    eexists. split; [done|]. cbn. split_and!; [done..| |].
    + apply Hrep; cbn; [|intros l' Hl'|done..].
      * intros l' [= <-]. apply lookup_delete_eq.
      * apply lookup_delete_ne. congruence.
    + intros l' Hl'. cbn. apply lookup_delete_ne. congruence.
Qed.

(** ** Building blocks *)

Lemma store_mid w l pre old post data off :
  blocks w !! l = Some (pre ++ old ++ post) → length old = length data → off = length pre →
  store l off data w
  = Ret (World (<[l := pre ++ data ++ post]> (blocks w)) (fresh w) (objs w)).
Proof.
  intros Hb Hl ->. unfold store, block. rewrite Hb. cbn.
  rewrite (proj2 (Nat.leb_le _ _)) by (rewrite !length_app; lia).
  rewrite take_app_length. do 4 f_equal.
  by rewrite <-Hl, app_assoc, <-length_app, drop_app_length.
Qed.

(** [store_mid] in a block that was just written. *)
Lemma store_fresh l f bl ob pre old post data off :
  length old = length data → off = length pre →
  store l off data (World (<[l := pre ++ old ++ post]> bl) f ob)
  = Ret (World (<[l := pre ++ data ++ post]> bl) f ob).
Proof.
  intros Hl Ho. rewrite (store_mid _ _ pre old post) by (done || apply lookup_insert_eq).
  cbn. by rewrite insert_insert_eq.
Qed.

Lemma store_fresh0 l f bl ob old post data :
  length old = length data →
  store l 0 data (World (<[l := old ++ post]> bl) f ob)
  = Ret (World (<[l := data ++ post]> bl) f ob).
Proof. intros. by apply (store_fresh l f bl ob [] old post data 0). Qed.

(** The world after a new block [b] went to object [o]. *)
Definition with_block (o : oid) (b : bytes) (w : world) : world :=
  World (<[fresh w := b]> (blocks w)) (Pos.succ (fresh w)) (<[o := Ptr (fresh w)]> (objs w)).

(** The three [memcpy]s of the constructor fill the block as [block_of] says. *)
Definition code_block (c : StatusCode) (m : bytes) : bytes :=
  le32 (len m) ++ [char_of (code_value c)] ++ m.

Lemma block_of_code_block c m : c ≠ kOk → len m < max_msg → block_of c m (code_block c m).
Proof. intros. split_and!; [|done..]. exists []. by rewrite app_nil_r. Qed.

Lemma ctor_code_block o c m w :
  c ≠ kOk → len m < max_msg → ctor_code o c m w = Ret (with_block o (code_block c m) w).
Proof.
  intros Hc Hm. unfold max_msg in Hm.
  unfold ctor_code. rewrite bool_decide_false by done. cbn [negb cpp_assert mbind outcome_bind].
  rewrite (u32_small (len m)), (u32_small (len m + 5)) by lia.
  unfold new_array. rewrite Nat2Z.id, (take_ge m) by done.
  replace (Z.to_nat (len m + 5)) with (4 + (1 + length m))%nat by lia.
  rewrite !replicate_add.
  rewrite store_fresh0 by done. cbn [mbind outcome_bind].
  rewrite (store_fresh _ _ _ _ (le32 (len m))) by done. cbn [mbind outcome_bind].
  change (le32 (len m) ++ [char_of (code_value c)] ++ replicate (length m) uninit)
    with ((le32 (len m) ++ [char_of (code_value c)]) ++ replicate (length m) uninit).
  rewrite <-(app_nil_r (replicate (length m) uninit)).
  rewrite (store_fresh _ _ _ _ (le32 (len m) ++ [char_of (code_value c)]))
    by (done || by rewrite length_replicate).
  unfold code_block. cbn. by rewrite app_nil_r.
Qed.

(** One turn of the [printf] loop with enough room. *)
Lemma ctor_format_turn retries o c m size w :
  c ≠ kOk → 0 <= size → len m < size → size + 5 <= INT_MAX →
  ∃ b, block_of c m b ∧
    ctor_format_loop (S retries) o c (Some m) size w = Ret (with_block o b w).
Proof.
  intros Hc H0 Hm Hs. unfold INT_MAX in Hs.
  set (extra := NUL :: replicate (Z.to_nat size - length m - 1) uninit).
  exists (le32 (len m) ++ [char_of (code_value c)] ++ m ++ extra). split.
  { split_and!; [eauto | done | unfold max_msg; lia]. }
  cbn [ctor_format_loop]. rewrite int_result_Ret by (unfold INT_MIN, INT_MAX; lia).
  cbn [mbind outcome_bind]. unfold new_array.
  replace (Z.to_nat (size + 5))
    with (5 + (length (m ++ [NUL]) + (Z.to_nat size - length m - 1)))%nat
    by (rewrite length_app; cbn; lia).
  rewrite !replicate_add. unfold vsnprintf. rewrite take_ge by lia.
  rewrite (store_fresh _ _ _ _ (replicate 5 uninit)) by (done || by rewrite length_replicate).
  cbn [mbind outcome_bind].
  rewrite (proj2 (Z.ltb_ge _ _)), (proj2 (Z.leb_gt _ _)) by lia.
  rewrite u32_small by lia.
  replace (replicate 5 uninit) with (replicate 4 uninit ++ replicate 1 uninit) by done.
  rewrite <-app_assoc, store_fresh0 by done. cbn [mbind outcome_bind].
  rewrite (store_fresh _ _ _ _ (le32 (len m))) by done. cbn [mbind outcome_bind].
  by rewrite <-app_assoc.
Qed.

(** A turn on a format that cannot be rendered. *)
Lemma ctor_format_turn_bad retries o c w :
  blocks w !! fresh w = None →
  ctor_format_loop (S retries) o c None 100 w
  = ctor_format_loop retries o c None 100 (World (blocks w) (Pos.succ (fresh w)) (objs w)).
Proof.
  intros Hfr. cbn [ctor_format_loop]. rewrite int_result_Ret by (unfold INT_MIN, INT_MAX; lia).
  cbn [mbind outcome_bind]. unfold new_array, vsnprintf. cbn [mbind outcome_bind].
  rewrite (proj2 (Z.ltb_lt _ _)) by lia.
  unfold delete_array, block. cbn [blocks]. rewrite lookup_insert_eq.
  cbn [or_undef mbind outcome_bind fresh objs blocks]. by rewrite delete_insert_id.
Qed.

(** The [printf] constructor: at most one retry, and the block of the failed
    turn is gone. *)
Lemma ctor_format_block o c m w :
  c ≠ kOk → len m + 6 <= INT_MAX → blocks w !! fresh w = None →
  ∃ b f, block_of c m b ∧ (fresh w ≤ f)%positive ∧
    ctor_format o c (Some m) w = Ret (with_block o b (World (blocks w) f (objs w))).
Proof.
  intros Hc Hm Hfr. unfold ctor_format. rewrite bool_decide_false by done.
  cbn [negb cpp_assert mbind outcome_bind].
  destruct (Z.lt_ge_cases (len m) 100) as [Hs|Hs].
  { destruct (ctor_format_turn 1 o c m 100 w) as (b & Hb & ->); [done|lia|done|done|].
    exists b, (fresh w). by destruct w. }
  unfold INT_MAX in Hm. cbn [ctor_format_loop].
  rewrite int_result_Ret by (unfold INT_MIN, INT_MAX; lia).
  cbn [mbind outcome_bind]. unfold new_array.
  replace (Z.to_nat (100 + 5)) with (5 + 100)%nat by done.
  rewrite replicate_add. unfold vsnprintf.
  rewrite <-(app_nil_r (replicate 100 uninit)).
  rewrite (store_fresh _ _ _ _ (replicate 5 uninit)).
  2:{ rewrite length_app, length_take, length_replicate. cbn [length].
      replace (Z.to_nat (100 - 1)) with 99%nat by done. lia. }
  2:{ done. }
  cbn [mbind outcome_bind].
  rewrite (proj2 (Z.ltb_ge _ _)), (proj2 (Z.leb_le _ _)) by lia.
  rewrite int_result_Ret by (unfold INT_MIN, INT_MAX; lia).
  cbn [mbind outcome_bind]. unfold delete_array, block. cbn [blocks].
  rewrite lookup_insert_eq. cbn [or_undef mbind outcome_bind fresh objs].
  rewrite delete_insert_id by done.
  destruct (ctor_format_turn 0 o c m (len m + 1)
    (World (blocks w) (Pos.succ (fresh w)) (objs w))) as (b & Hb & Ht);
    [done | lia | lia | unfold INT_MAX; lia |].
  exists b, (Pos.succ (fresh w)). split_and!; [done | lia | exact Ht].
Qed.

Lemma block_of_read c m b :
  block_of c m b →
  le32_get b = Ret (len m) ∧ b !! 4%nat = Some (char_of (code_value c)) ∧
  (length m + 5 ≤ length b)%nat ∧ take (length m) (drop 5 b) = m.
Proof.
  intros ((extra & ->) & _ & Hm). unfold max_msg in Hm. split_and!.
  - rewrite le32_get_le32, u32_small by lia. done.
  - done.
  - rewrite !length_app, length_le32. cbn. lia.
  - apply take_app_length.
Qed.

Lemma CopyState_spec l w c m b :
  blocks w !! l = Some b → block_of c m b → l ≠ fresh w →
  ∃ b', block_of c m b' ∧
    CopyState l w = Ret (fresh w,
      World (<[fresh w := b']> (blocks w)) (Pos.succ (fresh w)) (objs w)).
Proof.
  intros Hb Hof Hl. destruct (block_of_read c m b Hof) as (Hsize & _ & Hlen & _).
  destruct Hof as ((extra & Heq) & Hc & Hm). unfold max_msg in Hm.
  exists (take (length m + 5) b). split.
  { split_and!; [|done | done]. exists []. rewrite Heq, app_nil_r, !app_assoc.
    rewrite take_app_le by (rewrite !length_app, length_le32; cbn; lia).
    apply take_ge. rewrite !length_app, length_le32. cbn. lia. }
  unfold CopyState, block. rewrite Hb. cbn [or_undef mbind outcome_bind].
  rewrite Hsize. cbn [mbind outcome_bind]. rewrite u32_small by lia.
  unfold new_array, load, block. cbn [blocks].
  rewrite lookup_insert_ne by done. rewrite Hb. cbn [or_undef mbind outcome_bind].
  replace (Z.to_nat (len m + 5)) with (length m + 5)%nat by lia.
  rewrite (proj2 (Nat.leb_le _ _)) by lia. cbn [mbind outcome_bind].
  rewrite <-(app_nil_r (replicate _ uninit)).
  rewrite store_fresh0 by (rewrite length_replicate, length_take; lia).
  cbn. by rewrite app_nil_r.
Qed.

(** Copying a value into an object that owns nothing. *)
Lemma rep_copy w σ o p s :
  Rep (set_obj o Null w) (<[o := OkStatus]> σ) → val_ok (blocks w) p s →
  ∃ w', ('(q, w1) ← copy_ptr p w; Ret (set_obj o q w1)) = Ret w' ∧
        Rep w' (<[o := s]> σ).
Proof.
  intros HR Hv. destruct p as [|l|], s as [|c m]; try done; cbn [copy_ptr].
  - eexists. split; [done|]. done.
  - destruct Hv as (b & Hb & Hof).
    pose proof (val_ok_fresh (set_obj o Null w) _ (Ptr l) (ErrStatus c m) l HR
      ltac:(exists b; done) eq_refl) as Hfr.
    destruct (CopyState_spec l w c m b Hb Hof Hfr) as (b' & Hof' & ->).
      cbn. eexists. split; [done|]. exact (rep_fill w σ o c m b' HR Hof').
Qed.

Lemma rep_fresh_up w σ f :
  Rep w σ → (fresh w ≤ f)%positive → Rep (World (blocks w) f (objs w)) σ.
Proof.
  intros [Hv Hi Hw Hf] Hle. split; cbn; [done..|]. intros l Hl%Hf. lia.
Qed.

Lemma rep_fresh_none w σ : Rep w σ → blocks w !! fresh w = None.
Proof. intros HR. apply eq_None_not_Some. intros Hl%(rep_fresh w σ HR). lia. Qed.

(** Exchanging the pointers of two objects exchanges their values. *)
Lemma rep_swap w σ o r po pr so sr :
  Rep w σ → objs w !! o = Some po → objs w !! r = Some pr →
  σ !! o = Some so → σ !! r = Some sr →
  Rep (set_obj r po (set_obj o pr w)) (<[r := so]> (<[o := sr]> σ)).
Proof.
  intros [Hv Hi Hw Hf] Ho Hr Hso Hsr.
  pose proof (Hv o) as Hvo. rewrite Ho, Hso in Hvo.
  pose proof (Hv r) as Hvr. rewrite Hr, Hsr in Hvr.
  assert (∀ x q, <[r:=po]> (<[o:=pr]> (objs w)) !! x = Some q →
    objs w !! (if decide (x = r) then o else if decide (x = o) then r else x) = Some q)
    as Hperm.
  { intros x q. rewrite !lookup_insert. repeat case_decide; naive_solver. }
  split; cbn.
  - intros x. destruct (decide (r = x)) as [<-|]; [by rewrite !lookup_insert_eq|].
    rewrite !(lookup_insert_ne _ r) by done.
    destruct (decide (o = x)) as [<-|]; [by rewrite !lookup_insert_eq|].
    rewrite !lookup_insert_ne by done. apply Hv.
  - intros o1 o2 l H1%Hperm H2%Hperm. pose proof (Hi _ _ _ H1 H2) as He.
    repeat case_decide; congruence.
  - intros l Hl. destruct (Hw l Hl) as [x Hx].
    exists (if decide (x = o) then r else if decide (x = r) then o else x).
    rewrite !lookup_insert. repeat case_decide; congruence.
  - done.
Qed.

(** ** The operations implement the values *)

Lemma rep_delete w σ o :
  Rep (set_obj o Null w) (<[o := OkStatus]> σ) →
  Rep (World (blocks w) (fresh w) (delete o (objs w))) (delete o σ).
Proof.
  intros [Hv Hi Hw Hf]. split; cbn in *.
  - intros o'. destruct (decide (o = o')) as [->|Hne]; [by rewrite !lookup_delete_eq|].
    pose proof (Hv o') as Ho'. rewrite !lookup_insert_ne in Ho' by done.
    by rewrite !lookup_delete_ne.
  - intros o1 o2 l [? H1]%lookup_delete_Some [? H2]%lookup_delete_Some.
    apply (Hi o1 o2 l); by rewrite lookup_insert_ne.
  - intros l Hl. destruct (Hw l Hl) as [o' Ho']. exists o'.
    apply lookup_insert_Some in Ho' as [[_ ?]|[Hne Ho']]; [done|].
    by rewrite lookup_delete_ne.
  - done.
Qed.

Lemma rep_with_block w σ o c m b :
  Rep w σ → σ !! o = None → block_of c m b →
  Rep (with_block o b w) (<[o := ErrStatus c m]> σ).
Proof.
  intros HR Hs Hb. apply (rep_fill w σ o c m b); [|done].
  apply rep_put_null; [done | by eapply rep_none].
Qed.

Lemma val_ok_null bl s : val_ok bl Null s → s = OkStatus.
Proof. by destruct s. Qed.

Lemma val_ok_ok bl p s : val_ok bl p s → bool_decide (p = Null) = status_ok s.
Proof. by destruct p, s. Qed.

Lemma mem_ok_value w o p s :
  get_obj o w = Ret p → val_ok (blocks w) p s → mem_ok o w = Ret (status_ok s).
Proof. intros Hg Hv. unfold mem_ok. rewrite Hg. cbn. by rewrite (val_ok_ok _ _ _ Hv). Qed.

Lemma rep_mem_ok w σ o s : Rep w σ → σ !! o = Some s → mem_ok o w = Ret (status_ok s).
Proof.
  intros HR Hs. destruct (rep_get w σ o s HR Hs) as (p & _ & Hg & Hv).
  by eapply mem_ok_value.
Qed.

Lemma step_assign_copy w σ o r t s :
  Rep w σ → σ !! o = Some t → σ !! r = Some s →
  ∃ w', assign_copy o r w = Ret w' ∧ Rep w' (<[o := s]> σ).
Proof.
  intros HR Ht Hs.
  destruct (rep_get w σ o t HR Ht) as (po & Hpo & Hgo & Hvo).
  destruct (rep_get w σ r s HR Hs) as (pr & Hpr & Hgr & Hvr).
  unfold assign_copy. rewrite Hgo, Hgr. cbn [mbind outcome_bind].
  case_bool_decide as Heq.
  - exists w. split; [done|]. rewrite insert_id; [done|]. subst pr.
    destruct po as [|l|]; [|by assert (o = r) as -> by by eapply (rep_inj w σ HR)|by destruct t].
    by rewrite Ht, (val_ok_null _ _ Hvo), (val_ok_null _ _ Hvr).
  - destruct (rep_release w σ o po HR Hpo) as (w1 & -> & Ho1 & Hf1 & HR1 & Hkeep);
      [by destruct po, t|].
    cbn [mbind outcome_bind]. apply rep_copy; [done|].
    destruct pr as [|l|], s as [|c m]; try done.
    destruct Hvr as (b & ? & ?). exists b. by rewrite Hkeep.
Qed.

Lemma step_assign_move w σ o r t s :
  Rep w σ → σ !! o = Some t → σ !! r = Some s →
  ∃ w', assign_move o r w = Ret w' ∧ Rep w' (<[r := t]> (<[o := s]> σ)).
Proof.
  intros HR Ht Hs.
  destruct (rep_get w σ o t HR Ht) as (po & Hpo & Hgo & _).
  destruct (rep_get w σ r s HR Hs) as (pr & Hpr & Hgr & _).
  unfold assign_move. rewrite Hgo, Hgr. cbn [mbind outcome_bind].
  eexists. split; [done|]. by apply rep_swap.
Qed.

Lemma step_ctor_move w σ o r s :
  Rep w σ → σ !! o = None → σ !! r = Some s →
  ∃ w', ctor_move o r w = Ret w' ∧ Rep w' (<[r := OkStatus]> (<[o := s]> σ)).
Proof.
  intros HR Ho Hs.
  destruct (rep_get w σ r s HR Hs) as (pr & Hpr & Hgr & _).
  assert (o ≠ r) as Hne by congruence.
  unfold ctor_move. rewrite Hgr. cbn [mbind outcome_bind].
  eexists. split; [done|].
  pose proof (rep_put_null w σ o HR (rep_none w σ o HR Ho)) as HR'.
  pose proof (rep_swap _ _ o r Null pr OkStatus s HR') as Hsw. cbn in Hsw.
  unfold set_obj in *. cbn in *. rewrite !insert_insert_eq in Hsw.
  apply Hsw; rewrite ?lookup_insert_eq, ?lookup_insert_ne by done; done.
Qed.

Lemma step_refines c w σ σ' :
  Rep w σ → spec c σ = Some σ' → ∃ w', exec c w = Ret w' ∧ Rep w' σ'.
Proof.
  intros HR. destruct c as [o|o code msg|o code txt|o r|o r|o r|o r|o r|o r|o]; cbn [spec exec].
  - destruct (σ !! o) eqn:Ho; [done|]. intros [= <-]. eexists. split; [done|].
    apply rep_put_null; [done | by eapply rep_none].
  - destruct (σ !! o) eqn:Ho; [done|]. case_bool_decide as Hb; [|done]. intros [= <-].
    destruct Hb as [Hc Hm]. rewrite (ctor_code_block o code msg w Hc Hm).
    eexists. split; [done|]. apply rep_with_block; [done..|]. by apply block_of_code_block.
  - destruct (σ !! o) eqn:Ho, txt as [msg|]; try done.
    case_bool_decide as Hb; [|done]. intros [= <-]. destruct Hb as [Hc Hm].
    destruct (ctor_format_block o code msg w Hc Hm (rep_fresh_none w σ HR))
      as (b & f & Hb & Hle & ->).
    eexists. split; [done|]. apply rep_with_block; [by apply rep_fresh_up | done | done].
  - destruct (σ !! o) eqn:Ho, (σ !! r) as [s0|] eqn:Hr; try done. intros [= <-].
    destruct (rep_get w σ r s0 HR Hr) as (pr & Hpr & Hgr & Hvr).
    unfold ctor_copy. rewrite Hgr. cbn [mbind outcome_bind].
    apply rep_copy; [|done]. apply rep_put_null; [done | by eapply rep_none].
  - destruct (σ !! o) eqn:Ho, (σ !! r) as [s0|] eqn:Hr; try done. intros [= <-].
    by apply step_ctor_move.
  - destruct (σ !! o) eqn:Ho, (σ !! r) as [s0|] eqn:Hr; try done. intros [= <-].
    by eapply step_assign_copy.
  - destruct (σ !! o) eqn:Ho, (σ !! r) as [s0|] eqn:Hr; try done. intros [= <-].
    by apply step_assign_move.
  - destruct (σ !! o) as [t|] eqn:Ho, (σ !! r) as [s0|] eqn:Hr; try done. intros [= <-].
    unfold update_copy. rewrite (rep_mem_ok w σ o t) by done. cbn [mbind outcome_bind].
    destruct (status_ok t); [by eapply step_assign_copy | by exists w].
  - destruct (σ !! o) as [t|] eqn:Ho, (σ !! r) as [s0|] eqn:Hr; try done. intros [= <-].
    unfold update_move. rewrite (rep_mem_ok w σ o t) by done. cbn [mbind outcome_bind].
    destruct (status_ok t); [by apply step_assign_move | by exists w].
  - destruct (σ !! o) as [t|] eqn:Ho; [|done]. intros [= <-].
    destruct (rep_get w σ o t HR Ho) as (p & Hp & Hg & Hv). unfold dtor. rewrite Hg.
    destruct (rep_release w σ o p HR Hp) as (w1 & Hd & Hob & Hf & HR1 & _); [by destruct p, t|].
    cbn [mbind outcome_bind]. rewrite Hd. cbn [mbind outcome_bind].
    eexists. split; [done|]. by apply rep_delete.
Qed.

Lemma run_refines cs w σ σ' :
  Rep w σ → spec_all cs σ = Some σ' → ∃ w', exec_all cs w = Ret w' ∧ Rep w' σ'.
Proof.
  revert w σ. induction cs as [|c cs IH]; intros w σ HR; cbn.
  - intros [= <-]. by exists w.
  - destruct (spec c σ) as [σ1|] eqn:Hs; [|done].
    destruct (step_refines c w σ σ1 HR Hs) as (w1 & -> & HR1). apply IH, HR1.
Qed.

Lemma rep_w0 : Rep w0 ∅.
Proof.
  split; cbn.
  - intros o. by rewrite !lookup_empty.
  - intros o1 o2 l. by rewrite lookup_empty.
  - intros l [b Hb]. by rewrite lookup_empty in Hb.
  - intros l [b Hb]. by rewrite lookup_empty in Hb.
Qed.

(** ** What the members read *)

(** Everything a program can see of a status. *)
Definition observe (o : oid) (w : world) : outcome (bool * Z * bytes * bytes) :=
  k ← mem_ok o w;
  c ← mem_code o w;
  v ← mem_message o w;
  t ← mem_ToString o w;
  Ret (k, c, chars v, t).

Lemma schar_code c : schar (char_of (code_value c)) = code_value c.
Proof. by destruct c. Qed.

Lemma observe_obj w o p s :
  get_obj o w = Ret p → val_ok (blocks w) p s →
  observe o w =
  Ret (status_ok s, code_value (status_code s), status_message s, ToString s).
Proof.
  intros Hg Hv. unfold observe, mem_ToString. rewrite (mem_ok_value w o p s Hg Hv).
  cbn [mbind outcome_bind].
  unfold mem_ToStringSlow, mem_code, mem_message. rewrite Hg. cbn [mbind outcome_bind].
  destruct p as [|l|], s as [|c m]; try done.
  destruct Hv as (b & Hb & Hof). pose proof (block_of_read c m b Hof) as (Hn & H4 & Hlen & Hm).
  destruct Hof as (_ & _ & Hmax). unfold max_msg in Hmax.
  unfold block, load, block. rewrite Hb. cbn [or_undef mbind outcome_bind].
  rewrite H4, Hn. cbn [or_undef mbind outcome_bind]. rewrite schar_code.
  cbn [status_ok status_code status_message]. unfold ToString. cbn [status_ok status_code status_message].
  case_bool_decide as Hpos; [rewrite (proj2 (Z.ltb_lt _ _)) by done
                            | rewrite (proj2 (Z.ltb_ge _ _)) by lia].
  - unfold sv_of_ptr, CheckLengthInternal.
    rewrite (proj2 (Z.leb_le _ _)) by (unfold kMaxSize; lia).
    rewrite (proj2 (Nat.leb_le _ _)) by lia. cbn [cpp_assert mbind outcome_bind].
    unfold chars, sv_mem, default, from_option. cbn [length_ ptr_]. rewrite Nat2Z.id. cbn [id]. rewrite Hm.
    rewrite skipn_firstn_comm. replace (5 + length m - 5)%nat with (length m) by lia.
    by rewrite Hm, <-app_assoc.
  - destruct m; [|len_lia]. cbn. by rewrite app_nil_r.
Qed.

(** C13: statuses are values.  Whatever sequence of constructions, copies, moves,
    assignments, [Update]s and destructions a program makes (within the uses the
    specification allows), the pointer code runs it without an assertion
    failing, a double [delete], or a read or write outside a block; every live
    object then shows exactly the code, message and text of its abstract value,
    objects never share a block, and when the last object is gone no block is
    left. *)
Theorem Status_refines_values (cs : list op) (σ : gmap oid Status) :
  spec_all cs ∅ = Some σ →
  ∃ w, exec_all cs w0 = Ret w ∧
    (∀ o s, σ !! o = Some s →
      observe o w =
      Ret (status_ok s, code_value (status_code s), status_message s, ToString s)) ∧
    (∀ o1 o2 l, objs w !! o1 = Some (Ptr l) → objs w !! o2 = Some (Ptr l) → o1 = o2) ∧
    (σ = ∅ → blocks w = ∅).
Proof.
  intros H. destruct (run_refines cs w0 ∅ σ rep_w0 H) as (w & He & HR).
  exists w. split_and!; [done | | apply (rep_inj w σ HR) |].
  { intros o s Hs. destruct (rep_get w σ o s HR Hs) as (p & _ & Hg & Hv).
    by eapply observe_obj. }
  intros ->. apply map_empty. intros l. apply eq_None_not_Some.
  intros Hl. destruct (rep_own w ∅ HR l Hl) as [o Ho].
  pose proof (rep_val w ∅ HR o) as Hv. by rewrite Ho, lookup_empty in Hv.
Qed.

(** A program that copies, moves, updates and destroys. *)
Definition demo : list op :=
  [CtorCode 0 kNotFound (bs "no file"); CtorDefault 1; AssignCopy 1 0;
   CtorFormat 2 kInternal (Some (bs "fmt")); AssignMove 0 2; UpdateCopy 1 2; CtorMove 3 0].

Lemma Status_refines_values_witness :
  (∃ w, exec_all demo w0 = Ret w ∧
     observe 3 w = Ret (false, 13, bs "fmt", bs "INTERNAL: fmt") ∧
     observe 0 w = Ret (true, 0, [], bs "OK")) ∧
  ∃ w, exec_all (demo ++ (Dtor <$> [0; 1; 2; 3]%nat)) w0 = Ret w ∧ blocks w = ∅.
Proof.
  split.
  - destruct (Status_refines_values demo
      (<[0%nat := OkStatus]> (<[3%nat := ErrStatus kInternal (bs "fmt")]>
        (<[1%nat := ErrStatus kNotFound (bs "no file")]>
          (<[2%nat := ErrStatus kNotFound (bs "no file")]> ∅))))) as (w & He & Ho & _).
    { vm_compute. reflexivity. }
    exists w. split_and!; [exact He | |].
    + rewrite (Ho 3%nat (ErrStatus kInternal (bs "fmt"))); reflexivity.
    + rewrite (Ho 0%nat OkStatus); reflexivity.
  - destruct (Status_refines_values (demo ++ (Dtor <$> [0; 1; 2; 3]%nat)) ∅) as (w & He & _ & _ & Hb).
    { vm_compute. reflexivity. }
    exists w. split; [exact He | apply Hb; reflexivity].
Defined.

(** ** Outside the specification *)

(** [StatusMessageAsCStr] does not return a C string.  The block of an error
    built from a code and a message ends with the message, so whoever looks for
    the terminating NUL of a non-empty message without one reads past the
    block; the empty message is the only one that comes out terminated. *)
Theorem StatusMessageAsCStr_unterminated (o : oid) (c : StatusCode) (m : bytes) (w : world) :
  c ≠ kOk → len m < max_msg → NUL ∉ m →
  (w1 ← ctor_code o c m w; p ← StatusMessageAsCStr o w1; c_str p)
  = if bool_decide (m = []) then Ret [] else Undef.
Proof.
  intros Hc Hm Hnul. rewrite (ctor_code_block o c m w Hc Hm).
  cbn [mbind outcome_bind]. unfold max_msg in Hm.
  unfold StatusMessageAsCStr, mem_message, get_obj, with_block. cbn [objs blocks].
  rewrite lookup_insert_eq. cbn [mbind outcome_bind]. unfold block. cbn [blocks].
  rewrite lookup_insert_eq. cbn [or_undef mbind outcome_bind].
  unfold code_block. rewrite le32_get_le32, u32_small by lia. cbn [mbind outcome_bind].
  case_bool_decide as Hne; [by subst m|].
  assert (0 < len m) by (destruct m; [done | len_lia]).
  rewrite (proj2 (Z.ltb_lt _ _)) by done.
  unfold sv_of_ptr, CheckLengthInternal.
  rewrite (proj2 (Z.leb_le _ _)) by (unfold kMaxSize; lia).
  cbn [cpp_assert mbind outcome_bind]. unfold empty. cbn [length_ ptr_].
  rewrite (proj2 (Z.eqb_neq _ _)) by lia. cbn [or_undef mbind outcome_bind].
  change (drop 5 (le32 (len m) ++ [char_of (code_value c)] ++ m)) with m.
  unfold c_str. by rewrite (proj2 (scan_None _ _ _)) by by apply Forall_not_char.
Qed.

Lemma StatusMessageAsCStr_unterminated_witness :
  (w1 ← ctor_code 0 kNotFound (bs "gone") w0; p ← StatusMessageAsCStr 0 w1; c_str p) = Undef.
Proof.
  exact (StatusMessageAsCStr_unterminated 0 kNotFound (bs "gone") w0 ltac:(discriminate)
           ltac:(by_decide) ltac:(by_decide)).
Defined.

(** The [printf] constructor, completely.  For a text that fits an [int]
    length it builds the error in at most two turns; for a format that
    [vsnprintf] rejects it gives up after two turns having deleted both blocks,
    but it never assigns [state_]: the next use of the object, its destructor
    included, reads an indeterminate pointer. *)
Theorem ctor_format_outcomes (o : oid) (c : StatusCode) (txt : option bytes) (w : world) :
  c ≠ kOk → (∀ l, (fresh w ≤ l)%positive → blocks w !! l = None) →
  match txt with
  | Some m =>
      len m + 6 <= INT_MAX →
      ∃ w', ctor_format o c txt w = Ret w' ∧
        observe o w' = Ret (false, code_value c, m, ToString (ErrStatus c m)) ∧
        ∃ l b, blocks w' = <[l := b]> (blocks w)
  | None =>
      ∃ w', ctor_format o c None w = Ret w' ∧ blocks w' = blocks w ∧
        dtor o w' = Undef ∧ observe o w' = Undef
  end.
Proof.
  intros Hc Hfr. destruct txt as [m|].
  - intros Hm. destruct (ctor_format_block o c m w Hc Hm (Hfr _ (Pos.le_refl _)))
      as (b & f & Hb & Hle & ->).
    eexists. split; [done|]. split; [|eauto].
    rewrite (observe_obj _ o (Ptr f) (ErrStatus c m)); [done| |].
    + unfold get_obj. cbn. by rewrite lookup_insert_eq.
    + exists b. split; [|done]. apply lookup_insert_eq.
  - unfold ctor_format. rewrite bool_decide_false by done.
    cbn [negb cpp_assert mbind outcome_bind].
    rewrite !ctor_format_turn_bad by (cbn; done || (apply Hfr; lia)).
    eexists. split; [done|]. cbn.
    unfold dtor, observe, mem_ok, get_obj. cbn. by rewrite lookup_insert_eq.
Qed.

Lemma ctor_format_outcomes_witness :
  (∃ w', ctor_format 0 kInternal (Some (bs "x=1")) w0 = Ret w' ∧
     observe 0 w' = Ret (false, 13, bs "x=1", bs "INTERNAL: x=1")) ∧
  (∃ w', ctor_format 0 kInternal None w0 = Ret w' ∧ dtor 0 w' = Undef).
Proof.
  assert (∀ l, (fresh w0 ≤ l)%positive → blocks w0 !! l = None) as H0 by reflexivity.
  split.
  - destruct (ctor_format_outcomes 0 kInternal (Some (bs "x=1")) w0 ltac:(discriminate) H0
      ltac:(by_decide)) as (w' & He & Ho & _).
    exists w'. split; [exact He | rewrite Ho; reflexivity].
  - destruct (ctor_format_outcomes 0 kInternal None w0 ltac:(discriminate) H0)
      as (w' & He & _ & Hd & _).
    exists w'. split; [exact He | exact Hd].
Defined.
