(* ===== verification/Buffer.v ===== *)
(** * The byte buffers (src/cppboot/net/buffer.h, src/cppboot/net/net2/buffer.h)

    A vector with a reader and a writer index.  [Module Buffer] is net/buffer.h,
    [Module Net2] the members net2/buffer.h has beside the same ones.  The
    index arithmetic is that of [size_t], and every [assert] is kept: the
    theorems show that none of them fires and that the buffer is a queue of
    bytes. *)

From S2P Require Import Prelude StdString StringView.

(** ** [std::vector<char>] *)

(** [max_size()] *)
Definition vector_max : Z := 2 ^ 63 - 1.

(** [resize]: new elements are zero. *)
Definition vector_resize (n : Z) (l : bytes) : outcome bytes :=
  if n <=? vector_max
  then Ret (take (Z.to_nat n) l ++ replicate (Z.to_nat n - length l) NUL)
  else Throw length_error.

(** Writing [data] from index [pos] on; past the end is undefined. *)
Definition write_at (pos : Z) (data l : bytes) : outcome bytes :=
  if (0 <=? pos) && (pos + len data <=? len l)
  then Ret (take (Z.to_nat pos) l ++ data ++ drop (Z.to_nat pos + length data) l)
  else Undef.

(** Reading [n] characters from index [pos] on. *)
Definition read_at (pos n : Z) (l : bytes) : outcome bytes :=
  if (0 <=? pos) && (pos + n <=? len l)
  then Ret (take (Z.to_nat n) (drop (Z.to_nat pos) l))
  else Undef.

Module Buffer.

Record buffer : Type := Buf { buffer_ : bytes; reader_ : Z; writer_ : Z }.

Definition kCheapPrepend : Z := 8.
Definition kInitialSize : Z := 1024.

(** [Buffer(initial_size)] *)
Definition make (initial_size : Z) : outcome buffer :=
  v ← vector_resize (u64 (kCheapPrepend + initial_size)) [];
  Ret (Buf v kCheapPrepend kCheapPrepend).

Definition swap (b rhs : buffer) : buffer * buffer := (rhs, b).

Definition PrependableBytes (b : buffer) : Z := reader_ b.
Definition ReadableBytes (b : buffer) : Z := u64 (writer_ b - reader_ b).
Definition WritableBytes (b : buffer) : Z := u64 (len (buffer_ b) - writer_ b).

(** What [Peek()] points to. *)
Definition Peek (b : buffer) : bytes := drop (Z.to_nat (reader_ b)) (buffer_ b).

Definition Str (b : buffer) : outcome string_view :=
  noexcept (sv_of_ptr (Some (Peek b)) (ReadableBytes b)).

Definition ToString (b : buffer) : outcome bytes :=
  read_at (reader_ b) (ReadableBytes b) (buffer_ b).

Definition RetriveAll (b : buffer) : buffer := Buf (buffer_ b) kCheapPrepend kCheapPrepend.

Definition Retrive (n : Z) (b : buffer) : buffer :=
  if n <? ReadableBytes b then Buf (buffer_ b) (u64 (reader_ b + n)) (writer_ b)
  else RetriveAll b.

Definition MakeSpace (n : Z) (b : buffer) : outcome buffer :=
  if u64 (WritableBytes b + PrependableBytes b) <? u64 (n + kCheapPrepend) then
    v ← vector_resize (u64 (writer_ b + n)) (buffer_ b);
    Ret (Buf v (reader_ b) (writer_ b))
  else
    _ ← cpp_assert (kCheapPrepend <? reader_ b);
    let readable := ReadableBytes b in
    data ← read_at (reader_ b) readable (buffer_ b);
    v ← write_at kCheapPrepend data (buffer_ b);
    let b := Buf v kCheapPrepend (u64 (kCheapPrepend + readable)) in
    _ ← cpp_assert (readable =? ReadableBytes b);
    Ret b.

(** The body of [EnsureWritableBytes], before [noexcept]. *)
Definition ensure (n : Z) (b : buffer) : outcome buffer :=
  b ← (if WritableBytes b <? n then MakeSpace n b else Ret b);
  _ ← cpp_assert (n <=? WritableBytes b);
  Ret b.
Definition EnsureWritableBytes (n : Z) (b : buffer) : outcome buffer := noexcept (ensure n b).

Definition HasWritten (n : Z) (b : buffer) : outcome buffer :=
  _ ← cpp_assert (n <=? WritableBytes b);
  Ret (Buf (buffer_ b) (reader_ b) (u64 (writer_ b + n))).

Definition Unwrite (n : Z) (b : buffer) : outcome buffer :=
  _ ← cpp_assert (n <=? ReadableBytes b);
  Ret (Buf (buffer_ b) (reader_ b) (u64 (writer_ b - n))).

(** [Append(data, len)] *)
Definition Append (data : bytes) (b : buffer) : outcome buffer :=
  b ← EnsureWritableBytes (len data) b;
  v ← write_at (writer_ b) data (buffer_ b);
  HasWritten (len data) (Buf v (reader_ b) (writer_ b)).

(** [Append(string_view)]: the view's characters, read out of its allocation. *)
Definition Append_sv (s : string_view) (b : buffer) : outcome buffer :=
  data ← read_at 0 (size s) (default [] (ptr_ s));
  Append data b.

End Buffer.

Module Net2.
Import Buffer.

Definition kInitialSize2 : Z := 256.

Definition buf_empty (b : buffer) : bool := ReadableBytes b =? 0.

Definition kCRLF : bytes := CRLF.

(** The index [FindCRLF] points to; [None] is the null pointer. *)
Definition FindCRLF (b : buffer) : outcome (option Z) :=
  s ← ToString b;
  Ret (match search kCRLF s 0 with
       | Some i => Some (reader_ b + Z.of_nat i)
       | None => None
       end).

(** [RetriveUtil(end)], the pointer as an index. *)
Definition RetriveUtil (e : Z) (b : buffer) : outcome buffer :=
  _ ← cpp_assert (reader_ b <=? e);
  _ ← cpp_assert (e <=? writer_ b);
  Ret (Retrive (u64 (e - reader_ b)) b).

Definition RetriveAsString (n : Z) (b : buffer) : outcome (bytes * buffer) :=
  _ ← cpp_assert (n <=? ReadableBytes b);
  result ← read_at (reader_ b) n (buffer_ b);
  Ret (result, Retrive n b).

Definition RetriveAllAsString (b : buffer) : outcome (bytes * buffer) :=
  RetriveAsString (ReadableBytes b) b.

(** [Append] without [noexcept]: a vector that cannot grow throws. *)
Definition Append2 (data : bytes) (b : buffer) : outcome buffer :=
  b ← ensure (len data) b;
  v ← write_at (writer_ b) data (buffer_ b);
  HasWritten (len data) (Buf v (reader_ b) (writer_ b)).

Definition Shrink (reserve : Z) (b : buffer) : outcome buffer :=
  other ← make kInitialSize2;
  other ← ensure (u64 (ReadableBytes b + reserve)) other;
  data ← ToString b;
  other ← Append2 data other;
  Ret (swap b other).1.

End Net2.

(** * Properties *)
Import Buffer.

(** 8 <= reader <= writer <= size, the drawing in the header. *)
Record inv (b : buffer) : Prop := {
  inv_reader : kCheapPrepend <= reader_ b;
  inv_writer : reader_ b <= writer_ b;
  inv_size : writer_ b <= len (buffer_ b);
  inv_max : len (buffer_ b) <= vector_max;
}.

(** The readable bytes. *)
Definition content (b : buffer) : bytes :=
  take (Z.to_nat (writer_ b - reader_ b)) (drop (Z.to_nat (reader_ b)) (buffer_ b)).

Ltac open_inv H :=
  let H1 := fresh in let H2 := fresh in let H3 := fresh in let H4 := fresh in
  pose proof (inv_reader _ H) as H1; pose proof (inv_writer _ H) as H2;
  pose proof (inv_size _ H) as H3; pose proof (inv_max _ H) as H4;
  unfold kCheapPrepend, vector_max in *.

Lemma readable_eq b : inv b → ReadableBytes b = writer_ b - reader_ b.
Proof. intros H. open_inv H. apply u64_small. lia. Qed.
Lemma writable_eq b : inv b → WritableBytes b = len (buffer_ b) - writer_ b.
Proof. intros H. open_inv H. apply u64_small. lia. Qed.

Lemma len_content b : inv b → len (content b) = ReadableBytes b.
Proof.
  intros H. rewrite readable_eq by done. open_inv H. unfold content.
  rewrite length_take, length_drop. lia.
Qed.

Lemma ToString_content b : inv b → ToString b = Ret (content b).
Proof.
  intros H. unfold ToString, read_at. rewrite readable_eq by done. open_inv H.
  destruct (_ && _) eqn:E; [done|lia].
Qed.

Lemma inv_make n : 0 <= n → 8 + n <= vector_max →
  ∃ b, make n = Ret b ∧ inv b ∧ content b = [] ∧ writer_ b = 8 ∧ len (buffer_ b) = 8 + n.
Proof.
  unfold vector_max. intros H0 Hn. unfold make, vector_resize, kCheapPrepend, vector_max.
  rewrite u64_small by lia. rewrite (proj2 (Z.leb_le _ _)) by lia. cbn [mbind outcome_bind].
  rewrite take_nil. cbn [app].
  assert (len (replicate (Z.to_nat (8 + n) - length (@nil ascii)) NUL) = 8 + n) as Hl.
  { rewrite len_replicate. cbn [length]. lia. }
  eexists. split; [done|]. split_and!; [|done..|done].
  split; cbn [buffer_ reader_ writer_]; rewrite ?Hl; unfold kCheapPrepend, vector_max; lia.
Qed.

Lemma RetriveAll_spec b : inv b → inv (RetriveAll b) ∧ content (RetriveAll b) = [].
Proof.
  intros H. open_inv H. split; [|done].
  split; cbn; unfold kCheapPrepend, vector_max; lia.
Qed.

Lemma Retrive_spec n b : inv b → 0 <= n →
  inv (Retrive n b) ∧ content (Retrive n b) = drop (Z.to_nat n) (content b) ∧
  writer_ (Retrive n b) <= writer_ b.
Proof.
  intros H Hn. pose proof (len_content b H) as Hl. unfold Retrive.
  rewrite readable_eq in * by done. open_inv H.
  destruct (n <? _) eqn:E; bool_hyps.
  - rewrite u64_small by lia. split_and!; cbn; [split; cbn; unfold kCheapPrepend, vector_max; lia | | lia].
    unfold content. cbn. rewrite skipn_firstn_comm, drop_drop. f_equal; [lia|]. f_equal. lia.
  - destruct (RetriveAll_spec b H) as [Hi ->]. split_and!; [done | | cbn; unfold kCheapPrepend; lia].
    symmetry. apply drop_ge. lia.
Qed.

Lemma Unwrite_spec n b : inv b → 0 <= n →
  if n <=? len (content b) then
    ∃ b', Unwrite n b = Ret b' ∧ inv b' ∧
      content b' = take (length (content b) - Z.to_nat n) (content b) ∧ writer_ b' <= writer_ b
  else Unwrite n b = Crash.
Proof.
  intros H Hn. rewrite len_content by done. pose proof (len_content b H) as Hl.
  unfold Unwrite. rewrite readable_eq in * by done.
  destruct (n <=? _) eqn:E; [|done]. bool_hyps. cbn [cpp_assert mbind outcome_bind].
  open_inv H. rewrite u64_small by lia. eexists. split; [done|].
  split_and!; [split; cbn; unfold kCheapPrepend, vector_max; lia | | cbn; lia].
  unfold content in *. cbn. rewrite take_take. f_equal. lia.
Qed.

(** Growing keeps what is readable. *)
Lemma content_resize b k :
  inv b → content (Buf (buffer_ b ++ k) (reader_ b) (writer_ b)) = content b.
Proof.
  intros H. open_inv H. unfold content. cbn.
  rewrite drop_app_le by lia. rewrite take_app_le; [done|]. rewrite length_drop. lia.
Qed.

(** Moving the readable bytes to the front keeps them. *)
Lemma move_front b :
  inv b → 8 < reader_ b →
  ∃ v, write_at 8 (content b) (buffer_ b) = Ret v ∧ len v = len (buffer_ b) ∧
    inv (Buf v 8 (8 + len (content b))) ∧
    content (Buf v 8 (8 + len (content b))) = content b.
Proof.
  intros H Hr. pose proof (len_content b H) as Hl. rewrite readable_eq in Hl by done. open_inv H.
  unfold write_at. rewrite (proj2 (Z.leb_le 0 8)), (proj2 (Z.leb_le _ _)) by lia.
  cbn [andb]. eexists. split; [done|].
  replace (Z.to_nat 8) with 8%nat by done.
  assert (length (take 8 (buffer_ b)) = 8%nat) as Ht by (rewrite length_take; lia).
  assert (len (take 8 (buffer_ b) ++ content b ++ drop (8 + length (content b)) (buffer_ b))
          = len (buffer_ b)) as Hlen by len_lia.
  split_and!; [done | split; cbn [buffer_ reader_ writer_]; rewrite ?Hlen;
    unfold kCheapPrepend, vector_max; lia |].
  unfold content at 1. cbn [buffer_ reader_ writer_].
  replace (Z.to_nat 8) with (length (take 8 (buffer_ b))) by done.
  rewrite drop_app_length. replace (Z.to_nat (8 + len (content b) - 8)) with (length (content b)) by lia.
  apply take_app_length.
Qed.

(** The growing branch of [MakeSpace]. *)
Lemma grow_spec n b :
  inv b → len (buffer_ b) - writer_ b < n → writer_ b + n <= vector_max →
  ∃ v, vector_resize (u64 (writer_ b + n)) (buffer_ b) = Ret v ∧
    inv (Buf v (reader_ b) (writer_ b)) ∧
    content (Buf v (reader_ b) (writer_ b)) = content b ∧ len v = writer_ b + n.
Proof.
  intros H Hw Hn. open_inv H. unfold vector_resize. rewrite u64_small by lia.
  rewrite (proj2 (Z.leb_le _ _)) by (unfold vector_max; lia).
  rewrite take_ge by lia. eexists. split; [done|].
  assert (len (buffer_ b ++ replicate (Z.to_nat (writer_ b + n) - length (buffer_ b)) NUL)
          = writer_ b + n) as Hl by (rewrite len_app, len_replicate; lia).
  split_and!; [|by apply content_resize | done].
  split; cbn [buffer_ reader_ writer_]; rewrite ?Hl; unfold kCheapPrepend, vector_max; lia.
Qed.

(** There is room for [n] more bytes, now or after moving or growing. *)
Definition has_room (n : Z) (b : buffer) : Prop :=
  len (content b) + 8 + n <= len (buffer_ b) ∨ writer_ b + n <= vector_max.

#[export] Instance has_room_dec n b : Decision (has_room n b).
Proof. unfold has_room. apply _. Defined.

Lemma ensure_room n b :
  inv b → 0 <= n → has_room n b →
  ∃ b', ensure n b = Ret b' ∧ inv b' ∧ content b' = content b ∧
    n <= WritableBytes b' ∧ writer_ b' <= writer_ b.
Proof.
  intros H H0 Hr. pose proof (len_content b H) as Hlc.
  pose proof (ToString_content b H) as Hts. unfold ToString in Hts. unfold ensure.
  pose proof (readable_eq b H) as Hre. rewrite (writable_eq b H).
  destruct (_ <? n) eqn:E; bool_hyps.
  2:{ cbn [mbind outcome_bind]. rewrite writable_eq by done.
      rewrite (proj2 (Z.leb_le _ _)) by lia. exists b. split_and!; try done.
      by rewrite writable_eq. }
  unfold MakeSpace, PrependableBytes. rewrite Hts, (writable_eq b H), Hre.
  unfold has_room in Hr. open_inv H.
  rewrite (u64_small (_ + reader_ b)), (u64_small (n + 8)) by lia.
  destruct (_ <? n + 8) eqn:E2; bool_hyps.
  - destruct (grow_spec n b H) as (v & -> & Hi & Hc & Hl); [lia | unfold vector_max; lia |].
    cbn [mbind outcome_bind]. pose proof (writable_eq _ Hi) as Hwe. cbn in Hwe.
    rewrite Hwe, Hl, (proj2 (Z.leb_le _ _)) by lia.
    eexists. split; [done|]. split_and!; [done | done | rewrite Hwe, Hl; lia | done].
  - rewrite (proj2 (Z.ltb_lt 8 _)) by lia. cbn [cpp_assert mbind outcome_bind].
    destruct (move_front b H) as (v & -> & Hl & Hi & Hc); [lia|].
    cbn [mbind outcome_bind]. rewrite <-Hre, <-Hlc. rewrite (u64_small (8 + _)) by lia.
    pose proof (len_content _ Hi) as Hle. rewrite Hc in Hle.
    rewrite <-Hle, Z.eqb_refl. cbn [cpp_assert mbind outcome_bind].
    pose proof (writable_eq _ Hi) as Hwe. cbn in Hwe.
    rewrite Hwe, Hl, (proj2 (Z.leb_le _ _)) by lia.
    eexists. split; [done|]. split_and!; [done | done | rewrite Hwe, Hl; lia | cbn; lia].
Qed.

(** Without room: the process ends, except that a length close to 2^64 wraps
    the new size around. *)
Lemma ensure_no_room n b :
  inv b → 0 <= n < 2 ^ 64 → ¬ has_room n b →
  if bool_decide (2 ^ 64 <= writer_ b + n ∧ n < 2 ^ 64 - 8) then
    ∃ b', EnsureWritableBytes n b = Ret b' ∧ len (buffer_ b') < writer_ b'
  else EnsureWritableBytes n b = Crash.
Proof.
  intros H H0 Hr. pose proof (len_content b H) as Hlc.
  pose proof (ToString_content b H) as Hts. unfold ToString in Hts.
  unfold EnsureWritableBytes, ensure.
  pose proof (readable_eq b H) as Hre. rewrite (writable_eq b H).
  unfold has_room in Hr. open_inv H.
  rewrite (proj2 (Z.ltb_lt _ _)) by lia.
  unfold MakeSpace, PrependableBytes. rewrite Hts, (writable_eq b H), Hre.
  unfold kCheapPrepend. rewrite (u64_small (_ + reader_ b)) by lia.
  destruct (Z.lt_ge_cases n (2 ^ 64 - 8)) as [Hn|Hn].
  - rewrite (u64_small (n + 8)) by lia. rewrite (proj2 (Z.ltb_lt _ _)) by lia.
    unfold vector_resize. case_bool_decide as Hw.
    + assert (u64 (writer_ b + n) = writer_ b + n - 2 ^ 64) as ->.
      { unfold u64. symmetry. apply (Z.mod_unique_pos _ _ 1); lia. }
      rewrite (proj2 (Z.leb_le _ _)) by (unfold vector_max; lia). cbn [mbind outcome_bind].
      set (v := take _ _ ++ _).
      assert (len v = writer_ b + n - 2 ^ 64) as Hv.
      { unfold v. rewrite len_app, len_take, len_replicate. lia. }
      unfold WritableBytes. cbn [buffer_ writer_]. rewrite Hv.
      assert (u64 (writer_ b + n - 2 ^ 64 - writer_ b) = n) as ->.
      { unfold u64. symmetry. apply (Z.mod_unique_pos _ _ (-1)); lia. }
      rewrite Z.leb_refl. eexists. split; [done|]. cbn [buffer_ writer_]. rewrite Hv. lia.
    + rewrite u64_small by lia. by rewrite (proj2 (Z.leb_gt _ _)) by (unfold vector_max; lia).
  - rewrite bool_decide_false by lia.
    assert (u64 (n + 8) = n + 8 - 2 ^ 64) as ->.
    { unfold u64. symmetry. apply (Z.mod_unique_pos _ _ 1); lia. }
    rewrite (proj2 (Z.ltb_ge _ _)) by lia.
    destruct (8 <? reader_ b) eqn:E; [|done]. bool_hyps. cbn [cpp_assert mbind outcome_bind].
    destruct (move_front b H) as (v & -> & Hl & Hi & Hc); [lia|].
    cbn [mbind outcome_bind]. rewrite <-Hre, <-Hlc. rewrite (u64_small (8 + _)) by lia.
    pose proof (len_content _ Hi) as Hle. rewrite Hc in Hle.
    rewrite <-Hle, Z.eqb_refl. cbn [cpp_assert mbind outcome_bind].
    pose proof (writable_eq _ Hi) as Hwe. cbn in Hwe. rewrite Hwe, Hl.
    by rewrite (proj2 (Z.leb_gt _ _)) by lia.
Qed.

(** Writing behind the readable bytes and moving the writer appends. *)
Lemma write_append data b :
  inv b → len data <= WritableBytes b →
  ∃ b', (v ← write_at (writer_ b) data (buffer_ b);
         HasWritten (len data) (Buf v (reader_ b) (writer_ b))) = Ret b' ∧
    inv b' ∧ content b' = content b ++ data ∧ writer_ b' = writer_ b + len data ∧
    len (buffer_ b') = len (buffer_ b).
Proof.
  intros H Hw. rewrite writable_eq in Hw by done. pose proof (len_content b H) as Hlc.
  rewrite readable_eq in Hlc by done. open_inv H.
  unfold write_at. rewrite (proj2 (Z.leb_le 0 _)), (proj2 (Z.leb_le _ _)) by lia.
  cbn [andb mbind outcome_bind].
  set (v := take _ _ ++ _).
  assert (len v = len (buffer_ b)) as Hv by (unfold v; len_lia).
  unfold HasWritten, WritableBytes. cbn [buffer_ reader_ writer_]. rewrite Hv.
  rewrite !u64_small by lia. rewrite (proj2 (Z.leb_le _ _)) by lia.
  cbn [cpp_assert mbind outcome_bind].
  eexists. split; [done|]. split_and!; [| |done|done].
  { split; cbn [buffer_ reader_ writer_]; rewrite ?Hv; unfold kCheapPrepend, vector_max; lia. }
  unfold content, v. cbn [buffer_ reader_ writer_].
  rewrite drop_app_le by (rewrite length_take; lia).
  rewrite take_app_ge by (rewrite length_drop, length_take; lia).
  f_equal; [rewrite skipn_firstn_comm; f_equal; lia|].
  rewrite take_app_le by (rewrite length_drop, length_take; lia).
  apply take_ge. rewrite length_drop, length_take. lia.
Qed.

Lemma Append_spec data b :
  inv b → has_room (len data) b →
  ∃ b', Append data b = Ret b' ∧ inv b' ∧ content b' = content b ++ data ∧
    writer_ b' <= writer_ b + len data.
Proof.
  intros H Hr. destruct (ensure_room (len data) b H) as (b1 & He & Hi & Hc & Hw & Hle); [lia|done|].
  unfold Append, EnsureWritableBytes. rewrite He. cbn [noexcept mbind outcome_bind].
  destruct (write_append data b1 Hi Hw) as (b2 & -> & Hi2 & Hc2 & Hw2 & _).
  exists b2. split_and!; [done..| by rewrite Hc2, Hc | lia].
Qed.

(** ** Programs on one buffer *)

Inductive buf_op : Type :=
  | OpAppend (data : bytes)
  | OpRetrive (n : Z)
  | OpRetriveAll
  | OpEnsure (n : Z)
  | OpUnwrite (n : Z)
  | OpRead.                      (* [ToString()] *)

(** One call, with what it returns. *)
Definition buf_step (c : buf_op) (b : buffer) : outcome (buffer * list bytes) :=
  match c with
  | OpAppend data => b ← Append data b; Ret (b, [])
  | OpRetrive n => Ret (Retrive n b, [])
  | OpRetriveAll => Ret (RetriveAll b, [])
  | OpEnsure n => b ← EnsureWritableBytes n b; Ret (b, [])
  | OpUnwrite n => b ← Unwrite n b; Ret (b, [])
  | OpRead => s ← ToString b; Ret (b, [s])
  end.

Fixpoint buf_run (cs : list buf_op) (b : buffer) : outcome (buffer * list bytes) :=
  match cs with
  | [] => Ret (b, [])
  | c :: cs =>
      '(b, o1) ← buf_step c b;
      '(b, o2) ← buf_run cs b;
      Ret (b, o1 ++ o2)
  end.

(** The specification: a queue of bytes. *)
Definition queue_step (c : buf_op) (q : bytes) : outcome (bytes * list bytes) :=
  match c with
  | OpAppend data => Ret (q ++ data, [])
  | OpRetrive n => Ret (drop (Z.to_nat n) q, [])
  | OpRetriveAll => Ret ([], [])
  | OpEnsure _ => Ret (q, [])
  | OpUnwrite n =>
      if n <=? len q then Ret (take (length q - Z.to_nat n) q, []) else Crash
  | OpRead => Ret (q, [q])
  end.

Fixpoint queue_run (cs : list buf_op) (q : bytes) : outcome (bytes * list bytes) :=
  match cs with
  | [] => Ret (q, [])
  | c :: cs =>
      '(q, o1) ← queue_step c q;
      '(q, o2) ← queue_run cs q;
      Ret (q, o1 ++ o2)
  end.

(** The arguments are sizes, and the space asked for never passes what a vector
    can hold. *)
Definition op_cost (c : buf_op) : Z :=
  match c with OpAppend data => len data | OpEnsure n => n | _ => 0 end.
Definition op_valid (c : buf_op) : Prop :=
  match c with OpRetrive n | OpEnsure n | OpUnwrite n => 0 <= n | _ => True end.
Definition cost (cs : list buf_op) : Z := foldr (λ c n, op_cost c + n) 0 cs.

Lemma cost_nonneg cs : Forall op_valid cs → 0 <= cost cs.
Proof.
  induction 1 as [|c cs Hc _ IH]; [done|].
  change (0 <= op_cost c + cost cs). destruct c; cbn [op_cost op_valid] in *; lia.
Qed.

(** One step against the queue. *)
Lemma buf_step_refines c b :
  inv b → op_valid c → writer_ b + op_cost c <= vector_max →
  match queue_step c (content b) with
  | Ret (q, o) => ∃ b', buf_step c b = Ret (b', o) ∧ inv b' ∧ content b' = q ∧
                        writer_ b' <= writer_ b + op_cost c
  | _ => buf_step c b = Crash
  end.
Proof.
  intros H Hv Hc. destruct c as [data|n| |n|n|]; cbn [queue_step buf_step op_cost op_valid] in *.
  - destruct (Append_spec data b H ltac:(by right)) as (b' & -> & ? & ? & ?). by eexists.
  - destruct (Retrive_spec n b H Hv) as (? & ? & ?). eexists. split_and!; [done..|lia].
  - destruct (RetriveAll_spec b H). open_inv H. eexists. split_and!; [done..|]. cbn.
    unfold kCheapPrepend. lia.
  - destruct (ensure_room n b H Hv ltac:(by right)) as (b' & He & ? & ? & ? & ?).
    unfold EnsureWritableBytes. rewrite He. eexists. split_and!; [done..|lia].
  - pose proof (Unwrite_spec n b H Hv) as Hu. destruct (n <=? _).
    + destruct Hu as (b' & -> & ? & ? & ?). eexists. split_and!; [done..|lia].
    + by rewrite Hu.
  - rewrite ToString_content by done. eexists. split_and!; [done..|lia].
Qed.

Lemma buf_run_refines cs b :
  inv b → Forall op_valid cs → writer_ b + cost cs <= vector_max →
  match queue_run cs (content b) with
  | Ret (q, o) => ∃ b', buf_run cs b = Ret (b', o) ∧ inv b' ∧ content b' = q
  | _ => buf_run cs b = Crash
  end.
Proof.
  intros H Hv. revert b H. induction Hv as [|c cs Hc Hcs IH]; intros b H Hmax.
  { by exists b. }
  change (writer_ b + (op_cost c + cost cs) <= vector_max) in Hmax. cbn [queue_run buf_run].
  pose proof (cost_nonneg cs Hcs).
  pose proof (buf_step_refines c b H Hc ltac:(lia)) as Hs.
  destruct (queue_step c (content b)) as [[q o1]| | | |]; cbn; [|by rewrite Hs..].
  destruct Hs as (b1 & -> & Hi1 & <- & Hw1). cbn.
  specialize (IH b1 Hi1 ltac:(lia)).
  destruct (queue_run cs (content b1)) as [[q2 o2]| | | |]; cbn; [|by rewrite IH..].
  destruct IH as (b2 & -> & Hi2 & Hc2). by exists b2.
Qed.

(** C12: the buffer is a queue of bytes.  Starting from a fresh buffer of any
    initial size, every sequence of calls returns exactly what the queue
    returns: [Append] adds at the back, [Retrive] takes at the front, growing
    and moving to the front are invisible, no read or write leaves the vector,
    the drawing's invariant holds at the end, and the only assertion that can
    fail is the one [Unwrite] has for more bytes than are readable. *)
Theorem Buffer_is_queue (initial_size : Z) (cs : list buf_op) :
  0 <= initial_size → Forall op_valid cs → 8 + initial_size + cost cs <= vector_max →
  match queue_run cs [] with
  | Ret (q, o) =>
      ∃ b0 b, make initial_size = Ret b0 ∧ buf_run cs b0 = Ret (b, o) ∧
              inv b ∧ content b = q
  | _ => (b0 ← make initial_size; buf_run cs b0) = Crash
  end.
Proof.
  intros H0 Hv Hmax. pose proof (cost_nonneg cs Hv).
  destruct (inv_make initial_size H0 ltac:(lia)) as (b0 & -> & Hi & Hc & Hw & _).
  pose proof (buf_run_refines cs b0 Hi Hv ltac:(lia)) as Hr. rewrite Hc in Hr.
  destruct (queue_run cs []) as [[q o]| | | |]; [|done..].
  destruct Hr as (b & ? & ? & ?). by exists b0, b.
Qed.

Lemma Buffer_is_queue_witness :
  (∃ b0 b, make 1 = Ret b0 ∧
     buf_run [OpAppend (bs "Hello"); OpRetrive 3; OpAppend (bs "p!"); OpUnwrite 1; OpRead] b0
     = Ret (b, [bs "lop"]) ∧ inv b ∧ content b = bs "lop") ∧
  (b0 ← make 1; buf_run [OpAppend (bs "a"); OpUnwrite 2] b0) = Crash.
Proof.
  split.
  - exact (Buffer_is_queue 1
      [OpAppend (bs "Hello"); OpRetrive 3; OpAppend (bs "p!"); OpUnwrite 1; OpRead]
      ltac:(lia) ltac:(repeat constructor; cbn; lia) ltac:(vm_compute; discriminate)).
  - exact (Buffer_is_queue 1 [OpAppend (bs "a"); OpUnwrite 2]
      ltac:(lia) ltac:(repeat constructor; cbn; lia) ltac:(vm_compute; discriminate)).
Defined.

(** [EnsureWritableBytes] on every [size_t].  When the readable bytes and the
    request fit, in place, after moving them to the front or after growing, the
    room is there and nothing readable changes.  Otherwise the process ends,
    with one exception: a request so close to 2^64 that [writer_ + len] wraps
    around shrinks the vector below the writer index while its closing
    assertion still holds. *)
Theorem EnsureWritableBytes_total (n : Z) (b : buffer) :
  inv b → 0 <= n < 2 ^ 64 →
  if bool_decide (has_room n b) then
    ∃ b', EnsureWritableBytes n b = Ret b' ∧ inv b' ∧ content b' = content b ∧
          n <= WritableBytes b'
  else if bool_decide (2 ^ 64 <= writer_ b + n ∧ n < 2 ^ 64 - 8) then
    ∃ b', EnsureWritableBytes n b = Ret b' ∧ len (buffer_ b') < writer_ b'
  else EnsureWritableBytes n b = Crash.
Proof.
  intros H Hn. case_bool_decide as Hr.
  - destruct (ensure_room n b H) as (b' & He & ? & ? & ? & _); [lia|done|].
    unfold EnsureWritableBytes. rewrite He. by exists b'.
  - by apply ensure_no_room.
Qed.

Lemma EnsureWritableBytes_total_witness :
  (∃ b', EnsureWritableBytes 20 (Buf (bs "....................") 12 14) = Ret b' ∧
     inv b' ∧ content b' = bs ".." ∧ 20 <= WritableBytes b') ∧
  (∃ b', EnsureWritableBytes (2 ^ 64 - 9) (Buf (bs "....................") 8 20) = Ret b' ∧
     len (buffer_ b') < writer_ b').
Proof.
  assert (∀ r w, 8 <= r <= w → w <= 20 → inv (Buf (bs "....................") r w)) as Hi.
  { intros r w ? ?. split; cbn; unfold kCheapPrepend, vector_max; lia. }
  split.
  - exact (EnsureWritableBytes_total 20 _ (Hi 12 14 ltac:(lia) ltac:(lia)) ltac:(lia)).
  - exact (EnsureWritableBytes_total (2 ^ 64 - 9) _ (Hi 8 20 ltac:(lia) ltac:(lia)) ltac:(lia)).
Defined.

(** ** net2 *)
Import Net2.

Lemma Append2_spec data b :
  inv b → has_room (len data) b →
  ∃ b', Append2 data b = Ret b' ∧ inv b' ∧ content b' = content b ++ data.
Proof.
  intros H Hr. destruct (ensure_room (len data) b H) as (b1 & He & Hi & Hc & Hw & _); [lia|done|].
  unfold Append2. rewrite He. cbn [mbind outcome_bind].
  destruct (write_append data b1 Hi Hw) as (b2 & -> & Hi2 & Hc2 & _).
  exists b2. by rewrite Hc2, Hc.
Qed.

Lemma ensure_fits n b : n <= WritableBytes b → ensure n b = Ret b.
Proof.
  intros Hn. unfold ensure. rewrite (proj2 (Z.ltb_ge _ _)) by done. cbn [mbind outcome_bind].
  by rewrite (proj2 (Z.leb_le _ _)).
Qed.

Lemma RetriveAsString_eq n b :
  inv b → 0 <= n <= len (content b) →
  RetriveAsString n b = Ret (take (Z.to_nat n) (content b), Retrive n b).
Proof.
  intros H Hn. pose proof (len_content b H) as Hl. pose proof (readable_eq b H) as Hre.
  unfold RetriveAsString. rewrite <-Hl, (proj2 (Z.leb_le _ _)) by lia.
  cbn [cpp_assert mbind outcome_bind]. unfold read_at. open_inv H.
  rewrite !(proj2 (Z.leb_le _ _)) by lia. cbn [andb mbind outcome_bind].
  do 2 f_equal. unfold content. rewrite take_take. f_equal. lia.
Qed.

Lemma RetriveAsString_spec n b :
  inv b → 0 <= n →
  if n <=? len (content b) then
    ∃ b', RetriveAsString n b = Ret (take (Z.to_nat n) (content b), b') ∧
          inv b' ∧ content b' = drop (Z.to_nat n) (content b)
  else RetriveAsString n b = Crash.
Proof.
  intros H Hn. destruct (n <=? _) eqn:E; bool_hyps.
  - destruct (Retrive_spec n b H Hn) as (? & ? & _).
    exists (Retrive n b). by rewrite RetriveAsString_eq.
  - unfold RetriveAsString. rewrite <-len_content by done. by rewrite (proj2 (Z.leb_gt _ _)).
Qed.

(** The line-oriented members of the second buffer.  [FindCRLF] is null
    exactly when the readable bytes hold no CR LF, and otherwise points to the
    first one: reading up to it takes the line out and leaves the rest, so a
    loop of the two splits the stream at its line ends.  Taking more than there
    is fails the assertion, and [Shrink] keeps the bytes and the reserve. *)
Theorem net2_lines (b : buffer) (n : Z) :
  inv b → 0 <= n → 8 + 256 + len (content b) + n <= vector_max →
  (match search CRLF (content b) 0 with
   | None => FindCRLF b = Ret None
   | Some i =>
       ∃ e b', FindCRLF b = Ret (Some e) ∧ RetriveUtil e b = Ret b' ∧
         inv b' ∧ content b = take i (content b) ++ CRLF ++ drop 2 (content b') ∧
         content b' = drop i (content b) ∧
         RetriveAsString (e - reader_ b) b = Ret (take i (content b), b')
   end) ∧
  (if n <=? len (content b) then
     ∃ b', RetriveAsString n b = Ret (take (Z.to_nat n) (content b), b') ∧
           inv b' ∧ content b' = drop (Z.to_nat n) (content b)
   else RetriveAsString n b = Crash) ∧
  (∃ b', Shrink n b = Ret b' ∧ inv b' ∧ content b' = content b ∧ n <= WritableBytes b').
Proof.
  intros H Hn Hmax. pose proof (len_content b H) as Hl. pose proof (readable_eq b H) as Hre.
  split_and!; [| by apply RetriveAsString_spec |].
  - unfold FindCRLF. rewrite ToString_content by done. cbn [mbind outcome_bind].
    unfold kCRLF. destruct (search CRLF (content b) 0) as [i|] eqn:Hs; [|done].
    apply search_Some in Hs as (_ & Hi & [k Hk] & _). rewrite Nat.sub_0_r in *.
    set (e := reader_ b + Z.of_nat i).
    destruct (Retrive_spec (Z.of_nat i) b H) as (Hi' & Hc' & _); [lia|].
    rewrite Nat2Z.id in Hc'.
    exists e, (Retrive (Z.of_nat i) b). open_inv H.
    split_and!; [done| |done| |done|].
    + unfold RetriveUtil, e. rewrite !(proj2 (Z.leb_le _ _)) by lia.
      cbn [cpp_assert mbind outcome_bind]. rewrite u64_small by lia. do 2 f_equal. lia.
    + rewrite Hc', Hk. change (drop 2 (CRLF ++ k)) with k. by rewrite <-Hk, take_drop.
    + replace (e - reader_ b) with (Z.of_nat i) by (unfold e; lia).
      rewrite RetriveAsString_eq by (done || lia). by rewrite Nat2Z.id.
  - unfold Shrink. destruct (inv_make 256) as (o & Ho & Hio & Hco & Hwo & _);
      [lia | unfold vector_max in *; lia|].
    unfold kInitialSize2. rewrite Ho. cbn [mbind outcome_bind].
    unfold vector_max in Hmax. rewrite u64_small by lia.
    destruct (ensure_room (ReadableBytes b + n) o Hio) as (o1 & -> & Hi1 & Hc1 & Hw1 & Hle1);
      [lia | right; unfold vector_max; lia |].
    cbn [mbind outcome_bind]. rewrite ToString_content by done. cbn [mbind outcome_bind].
    unfold Append2. rewrite (ensure_fits (len (content b)) o1) by lia. cbn [mbind outcome_bind].
    destruct (write_append (content b) o1 Hi1) as (o2 & -> & Hi2 & Hc2 & Hw2 & Hl2); [lia|].
    exists o2. split_and!; [done | done | by rewrite Hc2, Hc1, Hco |].
    rewrite !writable_eq in * by done. lia.
Qed.

Lemma net2_lines_witness :
  (∃ b', RetriveAsString 3 (Buf (bs "........GET" ++ CRLF ++ bs "x") 8 14) = Ret (bs "GET", b') ∧
     content b' = CRLF ++ bs "x") ∧
  search CRLF (bs "GET" ++ CRLF ++ bs "x") 0 = Some 3%nat.
Proof.
  split; [|reflexivity].
  assert (inv (Buf (bs "........GET" ++ CRLF ++ bs "x") 8 14)) as Hi.
  { split; cbn; unfold kCheapPrepend, vector_max; lia. }
  destruct (net2_lines _ 3 Hi ltac:(lia) ltac:(vm_compute; discriminate)) as (_ & H & _).
  destruct H as (b' & H1 & _ & H2). exists b'. split; [exact H1 | exact H2].
Defined.
