(* ===== verification/Fs.v ===== *)
(** * Paths and files (src/cppboot/base/fs.h, fs.cc)

    The path functions are modelled on views and strings; the system calls they
    end in are the operations of the class [FileSystem], so what is modelled is
    which calls each function makes, on which NUL-terminated paths, in which
    order, and what it makes of their results. *)

From S2P Require Import Prelude StdString StringView StrUtil Status.

Definition kPathSeparator : bytes := bs "/".
Definition slash : ascii := "/"%char.

(** ** Paths *)

Definition append_trim_right (result : bytes) (a : string_view) : outcome bytes :=
  v ← StrTrimRight a (lit kPathSeparator); Ret (StrAppend result v).
Definition append_trim (result : bytes) (a : string_view) : outcome bytes :=
  v ← StrTrim a (lit kPathSeparator); Ret (StrAppend (result ++ kPathSeparator) v).

Definition PathJoin2 (a b : string_view) : outcome bytes :=
  result ← append_trim_right [] a;
  append_trim result b.

Definition PathJoin3 (a b c : string_view) : outcome bytes :=
  result ← append_trim_right [] a;
  result ← append_trim result b;
  append_trim result c.

Definition PathJoin4 (a b c d : string_view) : outcome bytes :=
  result ← append_trim_right [] a;
  result ← append_trim result b;
  result ← append_trim result c;
  append_trim result d.

Definition PathJoin5 (a b c d e : string_view) : outcome bytes :=
  result ← append_trim_right [] a;
  result ← append_trim result b;
  result ← append_trim result c;
  result ← append_trim result d;
  append_trim result e.

Definition PathSplit (path : string_view) : outcome (list bytes) :=
  if empty path then Ret []
  else
    c ← sv_index path 0;
    vec ← StrSplit path slash;
    Ret ((if bool_decide (c = slash) then [bs "/"] else []) ++
         filter (λ i, i ≠ []) vec).

Definition GetTempPath (name : bytes) : bytes := bs "/tmp/" ++ name.

Definition Dir (path : string_view) : outcome string_view :=
  pos ← find_last_of path (lit [slash; "\"%char]) npos;
  if negb (pos =? npos) then substr path 0 pos else Ret sv_null.

(** [std::strrchr]: the offset of the last [c] of the C string at [p]. *)
Definition strrchr (p : option bytes) (c : ascii) : outcome (option nat) :=
  p ← or_undef p;
  s ← c_str p;
  Ret (rscan (is_char c) s (length s)).

Definition Basename (path : string_view) : outcome string_view :=
  slash_pos ← strrchr (ptr_ path) slash;
  match slash_pos with
  | Some i => sv_of_cstr (advance (Z.of_nat i + 1) (ptr_ path))
  | None =>
      slash_pos ← strrchr (ptr_ path) "\"%char;
      match slash_pos with
      | Some i => sv_of_cstr (advance (Z.of_nat i + 1) (ptr_ path))
      | None => Ret path
      end
  end.

(** ** System calls *)

(** What a system call sees of a [std::string] handed over with [c_str()]. *)
Fixpoint until_nul (l : bytes) : bytes :=
  match l with
  | [] => []
  | c :: l => if bool_decide (c = NUL) then [] else c :: until_nul l
  end.

Definition ENOENT : Z := 2.
Definition EEXIST : Z := 17.

(** The calls, on a state [S] of the system: [Some errno] is a failure.
    [opendir_readdir] lists a directory in the order of [readdir]; the stream
    calls return what they transferred and [ferror] of the stream. *)
Class FileSystem (S H : Type) : Type := {
  sys_remove : bytes → S → option Z * S;
  sys_mkdir : bytes → Z → S → option Z * S;
  sys_link : bytes → bytes → S → option Z * S;
  sys_symlink : bytes → bytes → S → option Z * S;
  sys_rename : bytes → bytes → S → option Z * S;
  opendir_readdir : bytes → S → option (list bytes);
  sys_realpath : bytes → S → option bytes;
  sys_readlink : bytes → S → option bytes;
  sys_access : bytes → S → bool;
  sys_lstat_isdir : bytes → S → option bool;
  sys_stat_size : bytes → S → option Z;
  ofstream_write : bytes → bytes → S → option S;
  open_append_write : bytes → bytes → S → option Z * S;
  ifstream_read : bytes → S → option bytes;
  fopen : bytes → bytes → S → (Z + H) * S;
  fread : Z → H → S → bytes * S;
  fwrite : bytes → H → S → Z * S;
  ferror : H → S → Z;
  fclose : H → S → S;
}.

Section fs.
Context {S H : Type} `{!FileSystem S H} (strerror : Z → bytes).

(** [ErrnoToStatus(errno, format(...))] *)
Definition fail (e : Z) (msg : bytes) (s : S) : outcome (Status * S) :=
  st ← ErrnoToStatus strerror e (sv_of_string msg); Ret (st, s).

Definition or_fail (r : option Z * S) (msg : bytes) : outcome (Status * S) :=
  match r with
  | (Some e, s) => fail e msg s
  | (None, s) => Ret (OkStatus, s)
  end.

Definition RealPath (path : string_view) (s : S) : outcome bytes :=
  p ← or_undef (ptr_ path);
  p ← c_str p;
  Ret (default [] (sys_realpath p s)).

Definition PATH_MAX : Z := 4096.

(** [readlink] fills at most [PATH_MAX - 1] bytes; the buffer is then read as a
    C string. *)
Definition Readlink (linkpath : bytes) (s : S) : bytes :=
  match sys_readlink (until_nul linkpath) s with
  | Some target => until_nul (take (Z.to_nat (PATH_MAX - 1)) target)
  | None => []
  end.

Definition WriteFile (filename content : bytes) (s : S) : Status * S :=
  if bool_decide (filename = []) then (InvalidArgumentError (bs "no filename"), s)
  else match ofstream_write (until_nul filename) content s with
       | None => (CancelledError (bs "create file failed"), s)
       | Some s => (OkStatus, s)
       end.

Definition AppendFile (filename data : bytes) (s : S) : bool * S :=
  if bool_decide (filename = []) || bool_decide (data = []) then (false, s)
  else let '(n, s) := open_append_write (until_nul filename) data s in
       (bool_decide (0 < default 0 n), s).

Definition ReadFile (filename : string_view) (s : S) : outcome bytes :=
  if empty filename then Ret []
  else
    p ← or_undef (ptr_ filename);
    p ← c_str p;
    Ret (default [] (ifstream_read p s)).

Definition IsFileExist (filename : bytes) (s : S) : bool := sys_access (until_nul filename) s.
Definition IsDir (path : bytes) (s : S) : bool :=
  default false (sys_lstat_isdir (until_nul path) s).
Definition FileSize (path : bytes) (s : S) : Z := default 0 (sys_stat_size (until_nul path) s).

Definition GetDirectoryChildren (path : bytes) (s : S) : list bytes :=
  match opendir_readdir (until_nul path) s with
  | Some names => filter (λ n, n ≠ bs "." ∧ n ≠ bs "..") names
  | None => []
  end.

Definition Remove (path : bytes) (s : S) : outcome (Status * S) :=
  match sys_remove (until_nul path) s with
  | (Some e, s) =>
      if negb (e =? ENOENT) then fail e (bs "failed to delete: " ++ path) s
      else Ret (OkStatus, s)
  | (None, s) => Ret (OkStatus, s)
  end.

(** The [for] loop over the children, given the recursive call. *)
Fixpoint for_children (rec : bytes → S → outcome (Status * S)) (path : bytes)
    (subpaths : list bytes) (s : S) : outcome (Status * S) :=
  match subpaths with
  | [] => Ret (OkStatus, s)
  | i :: subpaths =>
      p ← PathJoin2 (sv_of_string path) (sv_of_string i);
      '(st, s) ← rec p s;
      if negb (status_ok st) then Ret (st, s) else for_children rec path subpaths s
  end.

Fixpoint RemoveAll (fuel : nat) (path : bytes) (s : S) : outcome (Status * S) :=
  match fuel with
  | O => OutOfFuel
  | Datatypes.S fuel =>
      '(st, s) ← for_children (RemoveAll fuel) path (GetDirectoryChildren path s) s;
      if negb (status_ok st) then Ret (st, s) else Remove path s
  end.

Definition Mkdir (path : bytes) (mode : Z) (s : S) : outcome (Status * S) :=
  match sys_mkdir (until_nul path) mode s with
  | (Some e, s) =>
      if negb (e =? EEXIST) then fail e (bs "failed to mkdir: " ++ path) s
      else Ret (OkStatus, s)
  | (None, s) => Ret (OkStatus, s)
  end.

(** The default of the [mode] parameter, 0755. *)
Definition default_mode : Z := 493.

(** The [for] loop of [MkdirAll]; [None] when it ran to its end. *)
Fixpoint MkdirAll_loop (fuel : nat) (buf : bytes) (i : Z) (s : S)
    : outcome (option Status * S) :=
  match fuel with
  | O => OutOfFuel
  | Datatypes.S fuel =>
      if i =? npos then Ret (None, s)
      else
        '(st, s) ← Mkdir (<[Z.to_nat i := NUL]> buf) default_mode s;
        if negb (status_ok st) then Ret (Some st, s)
        else MkdirAll_loop fuel buf (str_find_first_of buf kPathSeparator (u64 (i + 1))) s
  end.

Definition MkdirAll (path : bytes) (mode : Z) (s : S) : outcome (Status * S) :=
  '(st, s) ← MkdirAll_loop (Datatypes.S (length path)) path
               (str_find_first_of path kPathSeparator 1) s;
  match st with
  | Some st => Ret (st, s)
  | None => Mkdir path default_mode s
  end.

Definition Hardlink (src dst : bytes) (s : S) : outcome (Status * S) :=
  or_fail (sys_link (until_nul src) (until_nul dst) s)
    (bs "failed to link " ++ src ++ bs " to " ++ dst).

(** The format string has one placeholder for two arguments. *)
Definition Symlink (src dst : bytes) (s : S) : outcome (Status * S) :=
  or_fail (sys_symlink (until_nul src) (until_nul dst) s)
    (bs "failed to symlink " ++ src ++ bs " to ").

Definition Rename (src dst : bytes) (s : S) : outcome (Status * S) :=
  or_fail (sys_rename (until_nul src) (until_nul dst) s)
    (bs "failed to rename " ++ src ++ bs " to " ++ dst).

Definition copy_buffer_size : Z := 32 * 1024.

(** The read-write loop of [CopyFile]. *)
Fixpoint copy_loop (fuel : nat) (fsrc fdst : H) (s : S) : outcome (Status * S) :=
  match fuel with
  | O => OutOfFuel
  | Datatypes.S fuel =>
      let '(data, s) := fread copy_buffer_size fsrc s in
      if bool_decide (data = []) then
        let err := ferror fsrc s in
        if negb (err =? 0) then fail err (bs "failed to read src file") s
        else Ret (OkStatus, s)
      else
        let '(nwrite, s) := fwrite data fdst s in
        if negb (nwrite =? len data) then
          fail (ferror fdst s) (bs "failed to write dst file with " ++ utoa (len data)) s
        else copy_loop fuel fsrc fdst s
  end.

Definition CopyFile (fuel : nat) (src dst : bytes) (s : S) : outcome (Status * S) :=
  match fopen (until_nul src) (bs "r") s with
  | (inl e, s) => fail e (bs "failed to open src " ++ src) s
  | (inr fsrc, s) =>
      match fopen (until_nul dst) (bs "w") s with
      | (inl e, s) => fail e (bs "failed to create dst " ++ src) (fclose fsrc s)
      | (inr fdst, s) =>
          '(st, s) ← copy_loop fuel fsrc fdst s;
          Ret (st, fclose fdst (fclose fsrc s))
      end
  end.

End fs.

(** * Properties *)

(** ** Components *)

(** The non-empty pieces between slashes. *)
Definition comps (l : bytes) : list bytes := filter (λ i, i ≠ []) (split slash l).

Definition slashes (l : bytes) : Prop := all_in kPathSeparator l.

Lemma split_app_any d l k : split d (l ++ d :: k) = split d l ++ split d k.
Proof.
  induction l as [|c l IH]; cbn.
  - by rewrite (proj2 (is_char_true d d) eq_refl).
  - destruct (is_char d c); rewrite IH; [done|].
    destruct (split d l) eqn:E; [by destruct (split_nonempty d l) | done].
Qed.

Lemma comps_app l k : comps (l ++ slash :: k) = comps l ++ comps k.
Proof. unfold comps. by rewrite split_app_any, filter_app. Qed.

Lemma comps_slash_l l : comps (slash :: l) = comps l.
Proof. apply (comps_app [] l). Qed.

Lemma comps_slashes_l l k : slashes l → comps (l ++ k) = comps k.
Proof.
  induction 1 as [|c l Hc _ IH]; [done|].
  apply list_elem_of_singleton in Hc as ->. cbn [app]. by rewrite comps_slash_l.
Qed.

Lemma comps_slashes l : slashes l → comps l = [].
Proof. intros H. by rewrite <-(app_nil_r l), comps_slashes_l. Qed.

Lemma comps_slashes_r l k : slashes k → comps (l ++ k) = comps l.
Proof.
  intros H. destruct H as [|c k Hc Hk]; [by rewrite app_nil_r|].
  apply list_elem_of_singleton in Hc as ->. rewrite comps_app, (comps_slashes k) by done.
  apply app_nil_r.
Qed.

Lemma sv_ok_sep : sv_ok (lit kPathSeparator).
Proof. by apply sv_ok_lit. Qed.
Lemma chars_sep : chars (default_cutset (lit kPathSeparator)) = kPathSeparator.
Proof. done. Qed.
#[local] Hint Resolve sv_ok_sep : core.

(** The two trims keep the components; the right trim keeps the first
    character. *)
Lemma append_trim_right_comps r a : sv_ok a →
  ∃ w, append_trim_right r a = Ret (r ++ w) ∧ comps w = comps (chars a) ∧
       head w = head (chars a).
Proof.
  intros Ha. unfold append_trim_right.
  destruct (StrTrimRight_spec a (lit kPathSeparator) Ha sv_ok_sep)
    as [[_ ->] | (l1 & c & l2 & w & Heq & H2 & Hc & -> & Hw & Hcw)].
  - by exists (chars a).
  - exists (chars w). split_and!; [done | |].
    + rewrite Heq, Hcw. change (l1 ++ c :: l2) with (l1 ++ [c] ++ l2).
      by rewrite app_assoc, (comps_slashes_r (l1 ++ [c]) l2).
    + rewrite Heq, Hcw. by destruct l1.
Qed.

Lemma append_trim_comps r a : sv_ok a →
  ∃ w, append_trim r a = Ret (r ++ slash :: w) ∧ comps w = comps (chars a).
Proof.
  intros Ha. unfold append_trim.
  destruct (StrTrim_trimmed a (lit kPathSeparator) Ha sv_ok_sep) as (w & -> & Hw & Hcw).
  exists (chars w). cbn [mbind outcome_bind]. unfold StrAppend. split.
  { by rewrite <-app_assoc. }
  rewrite Hcw, chars_sep. unfold trimmed.
  destruct (forallb _ _) eqn:Hall; [done|].
  destruct (split_first (λ c, negb (in_set kPathSeparator c)) (chars a))
    as [Hn | (l1 & c & l2 & Heq & H1 & H2)].
  { apply all_in_negb, forallb_all_in in Hn. congruence. }
  apply all_in_negb in H1. apply negb_true_iff, in_set_false in H2.
  rewrite Heq, drop_set_app, comps_slashes_l by done.
  destruct (split_last (λ c, negb (in_set kPathSeparator c)) (c :: l2))
    as [Hn | (k1 & d & k2 & Heq2 & H3 & H4)].
  { apply all_in_negb in Hn. unfold all_in in Hn. rewrite Forall_cons in Hn.
    by destruct H2; apply Hn. }
  apply all_in_negb in H3. apply negb_true_iff, in_set_false in H4.
  rewrite Heq2, drop_set_r_app by done. change (k1 ++ d :: k2) with (k1 ++ [d] ++ k2).
  by rewrite app_assoc, (comps_slashes_r (k1 ++ [d]) k2).
Qed.

Lemma PathSplit_comps p : sv_ok p →
  PathSplit p = Ret ((if bool_decide (head (chars p) = Some slash) then [bs "/"] else []) ++
                     comps (chars p)).
Proof.
  intros Hp. unfold PathSplit. rewrite StrSplit_split, (empty_chars p Hp) by done.
  case_bool_decide as He; [by rewrite He|].
  destruct (chars p) as [|c l] eqn:Hc; [done|].
  assert (sv_index p 0 = Ret c) as ->.
  { pose proof (len_chars p Hp) as Hl. pose proof (chars_mem p Hp) as Hm.
    rewrite Hc in *. rewrite len_cons in Hl.
    unfold sv_index, size, read. rewrite (proj2 (Z.ltb_lt 0 (length_ p))) by lia.
    by rewrite Hm. }
  cbn [mbind outcome_bind head]. unfold comps.
  destruct (decide (c = slash)) as [->|Hn]; [done|].
  by rewrite !bool_decide_false by congruence.
Qed.

(** What [PathSplit] makes of a string. *)
Definition root (l : bytes) : list bytes :=
  if bool_decide (head l = Some slash) then [bs "/"] else [].

Lemma comps_join ps : Forall (λ p, p ≠ [] ∧ slash ∉ p) ps → ps ≠ [] → comps (join slash ps) = ps.
Proof.
  intros H Hne. unfold comps. rewrite split_join; [|done|].
  - clear Hne. induction H as [|p ps [Hp _] _ IH]; [done|]. by rewrite filter_cons_True, IH.
  - eapply Forall_impl; [done|]. by intros p [].
Qed.

Lemma head_app_nonempty {A} (l k : list A) x : head l = Some x → head (l ++ k) = Some x.
Proof. by destruct l. Qed.

(** One more component. *)
Lemma PathJoin_step r a : sv_ok a →
  ∃ r', append_trim r a = Ret r' ∧ comps r' = comps r ++ comps (chars a) ∧
        head r' = (if bool_decide (r = []) then Some slash else head r).
Proof.
  intros Ha. destruct (append_trim_comps r a Ha) as (w & -> & Hw).
  eexists. split_and!; [done | by rewrite comps_app, Hw | by destruct r].
Qed.

Lemma PathJoin2_spec a b : sv_ok a → sv_ok b →
  ∃ r, PathJoin2 a b = Ret r ∧ comps r = comps (chars a) ++ comps (chars b) ∧
       root r = (if bool_decide (chars a = []) then [bs "/"] else root (chars a)).
Proof.
  intros Ha Hb. unfold PathJoin2.
  destruct (append_trim_right_comps [] a Ha) as (w & -> & Hw & Hh). cbn [mbind outcome_bind app].
  destruct (PathJoin_step w b Hb) as (r & -> & Hr & Hrh).
  exists r. split_and!; [done | by rewrite Hr, Hw |].
  unfold root. rewrite Hrh, <-Hh. destruct w as [|c w], (chars a); done.
Qed.

Lemma PathJoin_more r a : r ≠ [] → sv_ok a →
  ∃ r', append_trim r a = Ret r' ∧ comps r' = comps r ++ comps (chars a) ∧
        root r' = root r ∧ r' ≠ [].
Proof.
  intros Hr Ha. destruct (PathJoin_step r a Ha) as (r' & -> & Hc & Hh).
  rewrite bool_decide_false in Hh by done. exists r'. unfold root. rewrite Hh.
  split_and!; [done..|]. by destruct r, r'.
Qed.

Lemma join_head ps : Forall (λ p, p ≠ [] ∧ slash ∉ p) ps → head (join slash ps) ≠ Some slash.
Proof.
  destruct 1 as [|p ps [Hp Hs] _]; [done|]. destruct p as [|c p]; [done|].
  apply not_elem_of_cons in Hs as [Hs _]. destruct ps; cbn; congruence.
Qed.

Lemma drop_set_sub cs l x : x ∈ drop_set cs l → x ∈ l.
Proof.
  induction l as [|c l IH]; cbn; [done|]. destruct (in_set cs c); [|done].
  intros H. right. by apply IH.
Qed.

Lemma trimmed_sub cs l x : x ∈ trimmed cs l → x ∈ l.
Proof.
  unfold trimmed, drop_set_r. destruct (forallb _ _); [done|].
  by intros H%elem_of_reverse%drop_set_sub%elem_of_reverse%drop_set_sub.
Qed.

Lemma PathJoin2_chars a b r c :
  sv_ok a → sv_ok b → PathJoin2 a b = Ret r → c ∈ r →
  c ∈ chars a ∨ c ∈ chars b ∨ c = slash.
Proof.
  intros Ha Hb. unfold PathJoin2, append_trim_right, append_trim.
  destruct (StrTrim_trimmed b (lit kPathSeparator) Hb sv_ok_sep) as (w & -> & _ & Hw).
  assert (∃ v, StrTrimRight a (lit kPathSeparator) = Ret v ∧ ∀ x, x ∈ chars v → x ∈ chars a)
    as (v & -> & Hv).
  { destruct (StrTrimRight_spec a (lit kPathSeparator) Ha sv_ok_sep)
      as [[_ ->] | (l1 & d & l2 & v & Heq & _ & _ & -> & _ & Hcv)]; [by eexists|].
    exists v. split; [done|]. rewrite Heq, Hcv. set_solver. }
  cbn [mbind outcome_bind]. unfold StrAppend. intros [= <-].
  change kPathSeparator with [slash]. rewrite Hw, !elem_of_app, list_elem_of_singleton.
  intros [[Hc|Hc]|Hc]; [left; auto | auto | ].
  right; left. by eapply trimmed_sub.
Qed.

(** [PathJoin] concatenates components and [PathSplit] returns them.  However
    many slashes the arguments begin or end with, the joined path has the
    components of the arguments in order, so splitting it gives them back; the
    result is absolute when the first argument is, and also when it is empty.
    [PathSplit] inverts joining by slashes for non-empty slash-free names. *)
Theorem PathJoin_components (a b c d e : string_view) (ps : list bytes) :
  sv_ok a → sv_ok b → sv_ok c → sv_ok d → sv_ok e →
  let first := if bool_decide (chars a = []) then [bs "/"] else root (chars a) in
  let cs := λ v, comps (chars v) in
  (∃ r, PathJoin2 a b = Ret r ∧ (fits (r ++ [NUL]) →
     PathSplit (sv_of_string r) = Ret (first ++ cs a ++ cs b))) ∧
  (∃ r, PathJoin3 a b c = Ret r ∧ (fits (r ++ [NUL]) →
     PathSplit (sv_of_string r) = Ret (first ++ cs a ++ cs b ++ cs c))) ∧
  (∃ r, PathJoin4 a b c d = Ret r ∧ (fits (r ++ [NUL]) →
     PathSplit (sv_of_string r) = Ret (first ++ cs a ++ cs b ++ cs c ++ cs d))) ∧
  (∃ r, PathJoin5 a b c d e = Ret r ∧ (fits (r ++ [NUL]) →
     PathSplit (sv_of_string r) = Ret (first ++ cs a ++ cs b ++ cs c ++ cs d ++ cs e))) ∧
  (Forall (λ p, p ≠ [] ∧ slash ∉ p) ps → ps ≠ [] → fits (slash :: join slash ps ++ [NUL]) →
   PathSplit (sv_of_string (join slash ps)) = Ret ps ∧
   PathSplit (sv_of_string (slash :: join slash ps)) = Ret (bs "/" :: ps)).
Proof.
  intros Ha Hb Hc Hd He first cs.
  assert (∀ r k, root r = first → comps r = k → fits (r ++ [NUL]) →
    PathSplit (sv_of_string r) = Ret (first ++ k)) as Hsplit.
  { intros r k <- <- Hf. rewrite PathSplit_comps, chars_of_string; [done|].
    apply sv_ok_string. len_lia. }
  unfold PathJoin3, PathJoin4, PathJoin5.
  destruct (PathJoin2_spec a b Ha Hb) as (r2 & H2 & Hr2 & Hh2).
  pose proof H2 as H2'. unfold PathJoin2 in H2'. apply bind_Ret in H2' as (r1 & -> & Hab).
  cbn [mbind outcome_bind]. rewrite !Hab. cbn [mbind outcome_bind].
  assert (r2 ≠ []) as Hn2.
  { intros ->. unfold append_trim in Hab. apply bind_Ret in Hab as (v & _ & [= Hab]).
    apply (f_equal length) in Hab. unfold StrAppend in Hab. rewrite !length_app in Hab.
    cbn in Hab. lia. }
  destruct (PathJoin_more r2 c Hn2 Hc) as (r3 & H3 & Hr3 & Hh3 & Hn3).
  destruct (PathJoin_more r3 d Hn3 Hd) as (r4 & H4 & Hr4 & Hh4 & Hn4).
  destruct (PathJoin_more r4 e Hn4 He) as (r5 & H5 & Hr5 & Hh5 & _).
  assert (root r3 = first) as Ho3 by by rewrite Hh3.
  assert (root r4 = first) as Ho4 by by rewrite Hh4.
  assert (root r5 = first) as Ho5 by by rewrite Hh5.
  split_and!.
  - exists r2. split; [done|]. by apply Hsplit.
  - exists r3. split; [by rewrite H3|]. apply Hsplit; [done|].
    by rewrite Hr3, Hr2, <-?app_assoc.
  - exists r4. split; [by rewrite H3; cbn; rewrite H4|]. apply Hsplit; [done|].
    by rewrite Hr4, Hr3, Hr2, <-?app_assoc.
  - exists r5. split; [by rewrite H3; cbn; rewrite H4; cbn; rewrite H5|]. apply Hsplit; [done|].
    by rewrite Hr5, Hr4, Hr3, Hr2, <-?app_assoc.
  - intros Hps Hne Hf. autorewrite with len in Hf.
    rewrite !PathSplit_comps, !chars_of_string by (apply sv_ok_string; len_lia).
    rewrite comps_slash_l, comps_join by done. split; [|done].
    by rewrite bool_decide_false by by apply join_head.
Qed.

Lemma PathJoin_components_witness :
  PathJoin2 (lit (bs "/a///")) (lit (bs "///b/c/")) = Ret (bs "/a/b/c") ∧
  PathSplit (sv_of_string (bs "/a/b/c")) = Ret [bs "/"; bs "a"; bs "b"; bs "c"] ∧
  PathSplit (sv_of_string (bs "x/y")) = Ret [bs "x"; bs "y"].
Proof.
  split; [vm_compute; reflexivity|].
  assert (∀ l, len l < 100 → sv_ok (lit l)) as Hok by (intros; apply sv_ok_lit; lia).
  pose proof (PathJoin_components (lit (bs "/a///")) (lit (bs "///b/c/")) (lit []) (lit []) (lit [])
    [bs "x"; bs "y"] ltac:(apply Hok; vm_compute; reflexivity)
    ltac:(apply Hok; vm_compute; reflexivity) ltac:(apply Hok; vm_compute; reflexivity)
    ltac:(apply Hok; vm_compute; reflexivity) ltac:(apply Hok; vm_compute; reflexivity)) as H.
  destruct H as ((r & Hr & Hs) & _ & _ & _ & Hj). split.
  - assert (r = bs "/a/b/c") as ->.
    { apply (f_equal (λ o, match o with Ret x => x | _ => [] end)) in Hr.
      vm_compute in Hr. symmetry. exact Hr. }
    rewrite Hs; [vm_compute; reflexivity | vm_compute; reflexivity].
  - apply Hj; [|discriminate | vm_compute; reflexivity].
    repeat constructor; try discriminate; by_decide.
Defined.

(** ** Directory and base name *)

Lemma until_nul_terminated s : NUL ∉ s → until_nul s = s.
Proof.
  induction s as [|c s IH]; intros H; cbn; [done|].
  apply not_elem_of_cons in H as [Hc Hs]. rewrite bool_decide_false by done. by rewrite IH.
Qed.

(** [c_str()] hands over exactly the string up to its first NUL. *)
Lemma until_nul_split s :
  ∃ r, s ++ [NUL] = until_nul s ++ NUL :: r ∧ NUL ∉ until_nul s.
Proof.
  induction s as [|c s (r & Heq & Hn)]; [exists []; set_solver|].
  cbn [until_nul app]. case_bool_decide as Hc.
  - subst c. exists (s ++ [NUL]). set_solver.
  - exists r. rewrite Heq. set_solver.
Qed.

Lemma c_str_until_nul s : c_str (s ++ [NUL]) = Ret (until_nul s).
Proof. destruct (until_nul_split s) as (r & -> & Hn). by apply c_str_terminated. Qed.

Definition backslash : ascii := "\"%char.

Lemma strrchr_hit d c b rest :
  (NUL ∉ d ++ c :: b) → c ∉ b →
  strrchr (Some ((d ++ c :: b) ++ NUL :: rest)) c = Ret (Some (length d)).
Proof.
  intros Hn Hc. unfold strrchr. cbn [or_undef mbind outcome_bind].
  rewrite c_str_terminated by done. cbn [mbind outcome_bind]. f_equal.
  apply rscan_Some. split_and!; [rewrite length_app; cbn; lia | |].
  - exists c. split; [|by apply is_char_true]. by rewrite list_lookup_middle.
  - intros k x Hk Hl. rewrite lookup_app_r in Hl by lia.
    destruct (k - length d)%nat as [|j] eqn:?; [lia|].
    apply is_char_false. intros ->. by apply Hc, (list_elem_of_lookup_2 _ j).
Qed.

Lemma strrchr_miss s rest c :
  NUL ∉ s → c ∉ s → strrchr (Some (s ++ NUL :: rest)) c = Ret None.
Proof.
  intros Hn Hc. unfold strrchr. cbn [or_undef mbind outcome_bind].
  rewrite c_str_terminated by done. cbn [mbind outcome_bind]. f_equal.
  apply rscan_None. intros k x _ Hk.
  apply is_char_false. intros ->. by apply Hc, (list_elem_of_lookup_2 _ k).
Qed.

Lemma Basename_hit d c b rest n :
  (NUL ∉ d ++ c :: b) → c ∉ b → (c = slash ∨ (c = backslash ∧ slash ∉ d ++ c :: b)) →
  ∃ w, Basename (SV (Some ((d ++ c :: b) ++ NUL :: rest)) n) = Ret w ∧ chars w = b.
Proof.
  intros Hn Hb Hc.
  assert (∃ w, sv_of_cstr (advance (Z.of_nat (length d) + 1)
    (Some ((d ++ c :: b) ++ NUL :: rest))) = Ret w ∧ chars w = b) as (w & Hw & Hcw).
  { unfold advance. cbn [fmap option_fmap option_map].
    replace (drop _ _) with (b ++ NUL :: rest).
    2:{ rewrite <-app_assoc. cbn [app].
        replace (Z.to_nat (Z.of_nat (length d) + 1)) with (length d + 1)%nat by lia.
        rewrite <-drop_drop, drop_app_length. done. }
    unfold sv_of_cstr, StrlenInternal. rewrite c_str_terminated by set_solver.
    cbn [mbind outcome_bind]. eexists. split; [done|].
    unfold chars, sv_mem. cbn. rewrite Nat2Z.id. apply take_app_length. }
  exists w. split; [|done]. unfold Basename. cbn [ptr_].
  destruct Hc as [-> | [-> Hs]].
  - by rewrite strrchr_hit by done.
  - rewrite (strrchr_miss _ _ slash) by done. cbn [mbind outcome_bind].
    change "\"%char with backslash. rewrite strrchr_hit by done. done.
Qed.

Lemma Dir_hit d c b : fits (d ++ c :: b ++ [NUL]) →
  c = slash ∨ c = backslash → slash ∉ b → backslash ∉ b →
  ∃ w, Dir (sv_of_string (d ++ c :: b)) = Ret w ∧ chars w = d.
Proof.
  intros Hf Hc Hs Hb. autorewrite with len in Hf.
  assert (sv_ok (sv_of_string (d ++ c :: b))) as Hv by (apply sv_ok_string; len_lia).
  assert (sv_ok (lit [slash; backslash])) as Hl by by apply sv_ok_lit.
  unfold Dir. change "\"%char with backslash.
  rewrite find_last_of_string by (done || (unfold npos; lia)). cbn [mbind outcome_bind].
  rewrite chars_of_string, chars_lit. unfold str_find_last_of.
  rewrite str_rfind_if_hit.
  - rewrite (proj2 (Z.eqb_neq _ _)) by (unfold npos; lia). cbn [negb].
    destruct (substr_ok (sv_of_string (d ++ c :: b)) 0 (len d) Hv) as (w & -> & _ & Hcw & _);
      [cbn; len_lia | lia |].
    exists w. split; [done|]. rewrite Hcw, chars_of_string. apply slice_app_l.
  - apply in_set_spec. set_solver.
  - apply Forall_forall. intros x Hx. apply in_set_false. set_solver.
  - unfold npos. len_lia.
Qed.

(** [Dir] and [Basename] cut a path at its last separator.  With a name free
    of separators behind the last slash (or, without slashes, backslash) they
    give the directory part and the name; a path without separators has no
    directory and is its own base name.  But [Basename] looks at [data()], not at
    the view: a view of the first [n] characters of a longer path has the base
    name of the longer path. *)
Theorem Dir_Basename_split (d b rest : bytes) (c : ascii) (n : Z) :
  (NUL ∉ d ++ c :: b) → slash ∉ b → backslash ∉ b → fits (d ++ c :: b ++ [NUL]) →
  (c = slash ∨ (c = backslash ∧ slash ∉ d)) →
  (∃ w, Dir (sv_of_string (d ++ c :: b)) = Ret w ∧ chars w = d) ∧
  (∃ w, Basename (sv_of_string (d ++ c :: b)) = Ret w ∧ chars w = b) ∧
  (∃ w, Basename (SV (Some ((d ++ c :: b) ++ NUL :: rest)) n) = Ret w ∧ chars w = b) ∧
  Dir (sv_of_string b) = Ret sv_null ∧
  Basename (sv_of_string b) = Ret (sv_of_string b).
Proof.
  intros Hn Hs Hb Hf Hc.
  assert (c ∉ b) as Hcb by (destruct Hc as [->|[-> _]]; done).
  assert (c = slash ∨ (c = backslash ∧ slash ∉ d ++ c :: b)) as Hc'.
  { destruct Hc as [->|[-> Hd]]; [by left|right]. split; [done|]. set_solver. }
  split_and!.
  - apply Dir_hit; [done | naive_solver | done | done].
  - by apply (Basename_hit d c b []).
  - by apply Basename_hit.
  - autorewrite with len in Hf. unfold Dir. change "\"%char with backslash.
    rewrite find_last_of_string; [|apply sv_ok_string; lia | by apply sv_ok_lit | unfold npos; lia].
    cbn [mbind outcome_bind].
    rewrite chars_of_string, chars_lit. unfold str_find_last_of.
    rewrite str_rfind_if_miss; [done|].
    apply Forall_forall. intros x Hx. apply in_set_false. set_solver.
  - unfold Basename, sv_of_string. cbn [ptr_].
    rewrite (strrchr_miss _ _ slash) by set_solver. cbn [mbind outcome_bind].
    rewrite strrchr_miss; [done | set_solver | done].
Qed.

Lemma Dir_Basename_split_witness :
  (∃ w, Dir (sv_of_string (bs "/path/to/file")) = Ret w ∧ chars w = bs "/path/to") ∧
  (∃ w, Basename (SV (Some (bs "/path/to/file" ++ [NUL])) 5) = Ret w ∧ chars w = bs "file").
Proof.
  assert (NUL ∉ bs "/path/to" ++ slash :: bs "file") as H1 by by_decide.
  assert (slash ∉ bs "file") as H2 by by_decide.
  assert (backslash ∉ bs "file") as H3 by by_decide.
  destruct (Dir_Basename_split (bs "/path/to") (bs "file") [] slash 5 H1 H2 H3
    ltac:(vm_compute; reflexivity) (or_introl eq_refl)) as (Hd & _ & Hb & _).
  split; [exact Hd | exact Hb].
Defined.

(** ** Creating directories *)

Lemma take_until_nul m : take (length m) (until_nul m) = until_nul m.
Proof.
  apply take_ge. induction m as [|c m IH]; cbn; [done|]. case_bool_decide; cbn; lia.
Qed.

Lemma until_nul_app p m : NUL ∉ p → until_nul (p ++ m) = p ++ until_nul m.
Proof.
  induction p as [|c p IH]; intros Hp; [done|]. apply not_elem_of_cons in Hp as [Hc Hp].
  cbn [until_nul app]. rewrite bool_decide_false by done. by rewrite IH.
Qed.

(** A path with a NUL written over one of its slashes. *)
Lemma until_nul_cut p i c : NUL ∉ p → p !! i = Some c → until_nul (<[i := NUL]> p) = take i p.
Proof.
  intros Hn Hc. rewrite insert_take_drop by by eapply lookup_lt_Some.
  rewrite until_nul_app; [cbn [until_nul]; by rewrite app_nil_r|].
  intros H. by apply Hn; eapply (elem_of_take _ i) in H as (j & ? & ?); eapply list_elem_of_lookup_2.
Qed.

Section mkdir.
Context {S H : Type} `{!FileSystem S H} (strerror : Z → bytes).

(** The error message is cut at the first NUL. *)
Lemma fail_cut e m m' (s : S) :
  until_nul m = until_nul m' → fail strerror e m s = fail strerror e m' s.
Proof.
  intros Hm. unfold fail, ErrnoToStatus, MessageForErrnoToStatus, format_sv. cbn [ptr_ sv_of_string].
  rewrite !c_str_until_nul. cbn [mbind outcome_bind size length_].
  unfold size, sv_of_string. cbn [length_]. by rewrite !Nat2Z.id, !take_until_nul, Hm.
Qed.

Lemma fail_not_ok e m (s : S) st s' :
  fail strerror e m s = Ret (st, s') → status_ok st = false.
Proof.
  unfold fail, ErrnoToStatus. intros Hf. apply bind_Ret in Hf as (x & Hx & [= <- <-]).
  apply bind_Ret in Hx as (y & _ & Hy). unfold mk_Status in Hy.
  apply bind_Ret in Hy as (z & _ & [= <-]). done.
Qed.

(** The directories on the way to [l0 ++ l], below [l0]. *)
Fixpoint dir_prefixes (l0 l : bytes) : list bytes :=
  match l with
  | [] => []
  | c :: l => (if is_char slash c then [l0] else []) ++ dir_prefixes (l0 ++ [c]) l
  end.

(** Every directory of the list in turn, up to the first failure. *)
Fixpoint mkdir_each (ps : list bytes) (s : S) : outcome (Status * S) :=
  match ps with
  | [] => Ret (OkStatus, s)
  | p :: ps =>
      '(st, s) ← Mkdir strerror p default_mode s;
      if negb (status_ok st) then Ret (st, s) else mkdir_each ps s
  end.

Lemma Mkdir_cut p q (s : S) :
  until_nul p = until_nul q → Mkdir strerror p default_mode s = Mkdir strerror q default_mode s.
Proof.
  intros Hpq. unfold Mkdir. rewrite Hpq. destruct (sys_mkdir _ _ _) as [[e|] s']; [|done].
  destruct (negb _); [|done]. apply fail_cut. rewrite !until_nul_app by by_decide.
  by rewrite Hpq.
Qed.

Lemma MkdirAll_loop_each fuel p l0 l (s : S) :
  p = l0 ++ l → NUL ∉ p → fits p → (length l < fuel)%nat →
  ('(st, s) ← MkdirAll_loop strerror fuel p (str_find_first_of p kPathSeparator (len l0)) s;
   match st with Some st => Ret (st, s) | None => Mkdir strerror p default_mode s end)
  = mkdir_each (dir_prefixes l0 l ++ [p]) s.
Proof.
  intros Hp Hn Hf. revert l0 l s Hp. induction fuel as [|fuel IH]; intros l0 l s Hp Hl; [lia|].
  cbn [MkdirAll_loop]. unfold str_find_first_of.
  destruct (split_first (in_set kPathSeparator) l) as [Hm | (l1 & c & l2 & -> & H1 & Hc)].
  - rewrite Hp at 1. rewrite str_find_if_miss, Z.eqb_refl by done. cbn [mbind outcome_bind].
    assert (dir_prefixes l0 l = []) as ->.
    { clear -Hm. revert l0. induction Hm as [|x l Hx _ IHl]; intros l0; [done|]. cbn [dir_prefixes].
      rewrite IHl. change kPathSeparator with [slash] in Hx. rewrite in_set_singleton in Hx.
      by rewrite Hx. }
    cbn [mkdir_each app]. destruct (Mkdir _ _ _ _) as [[st s']| | | |]; cbn; [|done..].
    by destruct st.
  - change kPathSeparator with [slash] in *. rewrite in_set_singleton in Hc.
    apply is_char_true in Hc as ->.
    subst p. rewrite !str_find_if_hit by (done || apply in_set_spec; set_solver).
    autorewrite with len in Hf.
    rewrite (proj2 (Z.eqb_neq _ _)) by (unfold npos; lia).
    replace (Z.to_nat (len l0 + len l1)) with (length (l0 ++ l1)) by (rewrite length_app; lia).
    assert (dir_prefixes l0 (l1 ++ slash :: l2)
            = (l0 ++ l1) :: dir_prefixes (l0 ++ l1 ++ [slash]) l2) as ->.
    { clear -H1. revert l0. induction H1 as [|x l1 Hx _ IHl]; intros l0.
      - cbn [dir_prefixes app]. rewrite app_nil_r. by rewrite (proj2 (is_char_true slash slash)).
      - cbn [dir_prefixes app]. rewrite in_set_singleton in Hx. rewrite Hx, IHl.
        by rewrite <-!app_assoc. }
    cbn [mkdir_each app].
    assert (NUL ∉ l0 ++ l1) as Hn1 by set_solver.
    rewrite (Mkdir_cut _ (l0 ++ l1)).
    2:{ rewrite (until_nul_cut _ _ slash); [|done|].
        - rewrite app_assoc, take_app_length. symmetry. by apply until_nul_terminated.
        - rewrite app_assoc. by rewrite list_lookup_middle. }
    destruct (Mkdir _ (l0 ++ l1) _ _) as [[st s']| | | |]; cbn [mbind outcome_bind]; [|done..].
    destruct (negb (status_ok st)); [done|].
    rewrite u64_small by lia.
    replace (len l0 + len l1 + 1) with (len (l0 ++ l1 ++ [slash])) by len_lia.
    change [slash] with kPathSeparator at 2.
    apply (IH (l0 ++ l1 ++ [slash]) l2); [by rewrite <-!app_assoc|].
    rewrite length_app in Hl. cbn in Hl. lia.
Qed.

(** The directories [MkdirAll] makes, outermost first. *)
Definition mkdir_paths (p : bytes) : list bytes :=
  match p with [] => [[]] | c :: l => dir_prefixes [c] l ++ [p] end.

Lemma MkdirAll_each path mode (s : S) :
  NUL ∉ path → fits path →
  MkdirAll strerror path mode s = mkdir_each (mkdir_paths path) s.
Proof.
  intros Hn Hf. unfold MkdirAll. destruct path as [|c l].
  - change (str_find_first_of [] kPathSeparator 1) with npos.
    cbn [MkdirAll_loop length]. rewrite Z.eqb_refl. cbn [mbind outcome_bind mkdir_paths mkdir_each].
    destruct (Mkdir _ _ _ _) as [[[|] s']| | | |]; done.
  - apply (MkdirAll_loop_each _ (c :: l) [c] l); [done..|]. cbn [length]. lia.
Qed.

Lemma mkdir_each_exists (ex : S → bytes → Prop) ps s st s' :
  (∀ p m s s', sys_mkdir p m s = (None, s') → ex s' p) →
  (∀ p m s s', sys_mkdir p m s = (Some EEXIST, s') → ex s' p) →
  (∀ p m s q, ex s q → ex (sys_mkdir p m s).2 q) →
  Forall (λ p, NUL ∉ p) ps →
  mkdir_each ps s = Ret (st, s') → status_ok st = true →
  Forall (ex s') ps ∧ ∀ q, ex s q → ex s' q.
Proof.
  intros Hok Hexist Hmono. revert s. induction ps as [|p ps IH]; intros s Hn; cbn.
  { intros [= <- <-] _. auto. }
  apply Forall_cons in Hn as [Hp Hn].
  intros Hr Hst. apply bind_Ret in Hr as ([st1 s1] & Hm & Hr).
  assert (status_ok st1 = true → ex s1 p ∧ ∀ q, ex s q → ex s1 q) as Hstep.
  { intros H1. unfold Mkdir in Hm. rewrite until_nul_terminated in Hm by done.
    pose proof (Hmono p default_mode s) as Hq.
    destruct (sys_mkdir p default_mode s) as [[e|] s2] eqn:He; cbn in Hq.
    - destruct (e =? EEXIST) eqn:Hee; cbn [negb] in Hm.
      + bool_hyps. subst e. injection Hm as <- <-. eauto.
      + apply fail_not_ok in Hm. congruence.
    - injection Hm as <- <-. eauto. }
  destruct (status_ok st1) eqn:H1; cbn in Hr; [|by injection Hr as <- <-; congruence].
  destruct Hstep as [Hex Hpres]; [done|]. destruct (IH s1 Hn Hr Hst) as [Hall Hpres'].
  split; [constructor; eauto | eauto].
Qed.

End mkdir.

(** [MkdirAll] makes every directory on the way, outermost first, each of
    them with the default mode whatever [mode] says, stops at the first failure
    other than "already exists", and ends.  On a system where a successful (or
    "already exists") [mkdir] leaves the path in place and none takes another
    away, its success means that all of them exist. *)
Theorem MkdirAll_correct {S H : Type} `{!FileSystem S H} (strerror : Z → bytes)
    (ex : S → bytes → Prop) (path : bytes) (mode : Z) (s : S) :
  NUL ∉ path → fits path →
  MkdirAll strerror path mode s = mkdir_each strerror (mkdir_paths path) s ∧
  ((∀ p m s s', sys_mkdir p m s = (None, s') → ex s' p) →
   (∀ p m s s', sys_mkdir p m s = (Some EEXIST, s') → ex s' p) →
   (∀ p m s q, ex s q → ex (sys_mkdir p m s).2 q) →
   ∀ st s', MkdirAll strerror path mode s = Ret (st, s') → status_ok st = true →
   Forall (ex s') (mkdir_paths path)).
Proof.
  intros Hn Hf. pose proof (MkdirAll_each strerror path mode s Hn Hf) as He.
  split; [done|]. intros H1 H2 H3 st s' Hr Hst. rewrite He in Hr.
  eapply mkdir_each_exists in Hr as [Hall _]; [done..| |done].
  clear -Hn. destruct path as [|c l]; [by repeat constructor; set_solver|].
  apply Forall_app. split; [|by repeat constructor].
  assert (∀ l0, (NUL ∉ l0 ++ l) → Forall (λ p, NUL ∉ p) (dir_prefixes l0 l)) as Hd; [|by apply Hd].
  clear c Hn. induction l as [|c l IH]; intros l0 Hn; [constructor|].
  cbn [dir_prefixes]. apply Forall_app. split.
  - destruct (is_char _ _); [|constructor]. repeat constructor. set_solver.
  - apply IH. by rewrite <-app_assoc.
Qed.

(** ** Removing *)

Section remove.
Context {S H : Type} `{!FileSystem S H} (strerror : Z → bytes).
Context (ex : S → bytes → Prop) (height : S → bytes → nat).

(** A system without links, where [remove] takes away the named path alone and
    a listing names existing things that are nearer the leaves. *)
Record remove_laws : Prop := {
  remove_done : ∀ p s s', sys_remove p s = (None, s') → ¬ ex s' p;
  remove_none : ∀ p s s', sys_remove p s = (Some ENOENT, s') → ¬ ex s' p;
  remove_err : ∀ p s e s', sys_remove p s = (Some e, s') → e ≠ 0;
  remove_only : ∀ p s q, q ≠ p → ex (sys_remove p s).2 q ↔ ex s q;
  remove_less : ∀ p s q, ex (sys_remove p s).2 q → ex s q;
  remove_height : ∀ p s q, (height (sys_remove p s).2 q ≤ height s q)%nat;
  list_height : ∀ p s ns n, opendir_readdir p s = Some ns → n ∈ ns →
    n ≠ bs "." → n ≠ bs ".." →
    (NUL ∉ n) ∧ fits (n ++ [NUL]) ∧
    ∀ r, PathJoin2 (sv_of_string p) (sv_of_string n) = Ret r →
         (height s r < height s p)%nat ∧ fits (r ++ [NUL]);
}.

(** The paths that have the components of [p] and more. *)
Definition under (p q : bytes) : Prop := comps p `prefix_of` comps q.

Lemma under_refl p : under p p.
Proof. by unfold under. Qed.

Context (laws : remove_laws).

(** What a removal below [p] may do to the system. *)
Definition removed_below (p : bytes) (s s' : S) : Prop :=
  (∀ q, ex s' q → ex s q) ∧ (∀ q, ¬ under p q → ex s q → ex s' q) ∧
  (∀ q, (height s' q ≤ height s q)%nat).

Lemma removed_below_refl p s : removed_below p s s.
Proof. split_and!; auto. Qed.

Lemma removed_below_trans p q s1 s2 s3 :
  under p q → removed_below q s1 s2 → removed_below p s2 s3 → removed_below p s1 s3.
Proof.
  intros Hpq (H1 & H2 & H3) (H4 & H5 & H6). split_and!; [eauto | | ].
  - intros x Hx Hex. apply H5, H2; [done| |done]. intros Hqx. apply Hx. unfold under in *. by etrans.
  - intros x. etrans; [apply H6 | apply H3].
Qed.

Lemma fail_ret e m (s : S) : e ≠ 0 → ∃ st, fail strerror e m s = Ret (st, s) ∧ status_ok st = false.
Proof.
  intros He. unfold fail, ErrnoToStatus, MessageForErrnoToStatus, format_sv. cbn [ptr_ sv_of_string].
  rewrite c_str_until_nul. cbn [mbind outcome_bind]. unfold mk_Status.
  rewrite bool_decide_false by by rewrite ErrnoToStatusCode_kOk. cbn. by eexists.
Qed.

Lemma Remove_spec p s : NUL ∉ p →
  ∃ st s', Remove strerror p s = Ret (st, s') ∧ removed_below p s s' ∧
           (status_ok st = true → ¬ ex s' p).
Proof.
  intros Hp. unfold Remove. rewrite until_nul_terminated by done.
  assert (removed_below p s (sys_remove p s).2) as Hb.
  { split_and!; [apply (remove_less laws) | | apply (remove_height laws)].
    intros q Hq. apply (remove_only laws). intros ->. by apply Hq, under_refl. }
  destruct (sys_remove p s) as [[e|] s'] eqn:Hr; cbn [snd] in Hb.
  - destruct (e =? ENOENT) eqn:He; cbn [negb].
    + bool_hyps. subst e. exists OkStatus, s'. split_and!; [done..|].
      intros _. by eapply (remove_none laws).
    + destruct (fail_ret e (bs "failed to delete: " ++ p) s') as (st & -> & Hst);
        [by eapply (remove_err laws)|].
      exists st, s'. split_and!; [done..|congruence].
  - exists OkStatus, s'. split_and!; [done..|]. intros _. by eapply (remove_done laws).
Qed.

Lemma RemoveAll_spec fuel p s :
  NUL ∉ p → fits (p ++ [NUL]) → (height s p < fuel)%nat →
  ∃ st s', RemoveAll strerror fuel p s = Ret (st, s') ∧ removed_below p s s' ∧
           (status_ok st = true → ¬ ex s' p).
Proof.
  revert p s. induction fuel as [|fuel IH]; intros p s Hp Hf Hh; [lia|]. cbn [RemoveAll].
  assert (∀ ns s1, (∀ n, n ∈ ns → (NUL ∉ n) ∧ fits (n ++ [NUL]) ∧
      ∀ r, PathJoin2 (sv_of_string p) (sv_of_string n) = Ret r →
           (height s1 r < fuel)%nat ∧ fits (r ++ [NUL])) →
    ∃ st s2, for_children (RemoveAll strerror fuel) p ns s1 = Ret (st, s2) ∧
             removed_below p s1 s2) as Hfor.
  { induction ns as [|n ns IHn]; intros s1 Hns; cbn [for_children].
    { exists OkStatus, s1. split; [done|]. apply removed_below_refl. }
    destruct (Hns n) as (Hn & Hfn & Hr); [set_solver|].
    autorewrite with len in Hf, Hfn.
    destruct (PathJoin2_spec (sv_of_string p) (sv_of_string n)) as (r & Hj & Hc & _);
      [apply sv_ok_string; lia..|].
    pose proof (PathJoin2_chars (sv_of_string p) (sv_of_string n) r NUL) as Hch.
    rewrite !chars_of_string in *.
    destruct (Hr r Hj) as [Hhr Hfr]. rewrite Hj. cbn [mbind outcome_bind].
    destruct (IH r s1) as (st & s2 & -> & Hb & _); [|done|done|].
    { intros Hin. by destruct Hch as [?|[?|?]]; [apply sv_ok_string; lia..|done| | | |]. }
    cbn [mbind outcome_bind]. assert (under p r) as Hu by (exists (comps n); done).
    destruct (status_ok st); cbn [negb].
    - destruct (IHn s2) as (st' & s3 & -> & Hb').
      { intros n' Hn'. destruct (Hns n') as (? & ? & Hr'); [set_solver|]. split_and!; [done..|].
        intros r' Hj'. destruct (Hr' r' Hj'). split; [|done].
        eapply Nat.le_lt_trans; [apply Hb|done]. }
      exists st', s3. split; [done|]. by eapply removed_below_trans.
    - exists st, s2. split; [done|]. eapply removed_below_trans; [done..|].
      apply removed_below_refl. }
  destruct (Hfor (GetDirectoryChildren p s) s) as (st & s1 & -> & Hb).
  { unfold GetDirectoryChildren. rewrite until_nul_terminated by done.
    destruct (opendir_readdir p s) as [ns|] eqn:Hl; [|set_solver].
    intros n [[Hd1 Hd2] Hn]%list_elem_of_filter.
    destruct (list_height laws p s ns n Hl Hn Hd1 Hd2) as (? & ? & Hr). split_and!; [done..|].
    intros r Hj. destruct (Hr r Hj). split; [lia|done]. }
  cbn [mbind outcome_bind]. destruct (status_ok st) eqn:Hst; cbn [negb].
  - destruct (Remove_spec p s1 Hp) as (st' & s2 & -> & Hb' & Hgone).
    exists st', s2. split_and!; [done | eapply removed_below_trans; [apply under_refl|done..] | done].
  - exists st, s1. split_and!; [done | done | congruence].
Qed.

End remove.


(** ** A concrete system: a set of existing paths, without links *)

Definition flat : Type := gset bytes.

(** The name of [q] in the directory [p], when that is where it lies. *)
Definition name_in (p q : bytes) : option bytes :=
  match drop (length p) q with
  | c :: n =>
      if bool_decide (q = p ++ slash :: n ∧ c = slash ∧ n ≠ [] ∧ (slash ∉ n) ∧ (NUL ∉ n) ∧
                      last p ≠ Some slash ∧ p ≠ [] ∧ (length q < 4096)%nat)
      then Some n else None
  | [] => None
  end.

Definition flat_list (p : bytes) (s : flat) : list bytes := omap (name_in p) (elements s).

#[export] Instance flat_fs : FileSystem flat unit := {
  sys_remove p s :=
    if bool_decide (p ∉ s) then (Some ENOENT, s)
    else if bool_decide (flat_list p s = []) then (None, s ∖ {[p]}) else (Some 39, s);
  sys_mkdir p _ s := if bool_decide (p ∈ s) then (Some EEXIST, s) else (None, {[p]} ∪ s);
  sys_link _ _ s := (Some 1, s);
  sys_symlink _ _ s := (Some 1, s);
  sys_rename p q s := if bool_decide (p ∈ s) then (None, {[q]} ∪ s ∖ {[p]}) else (Some ENOENT, s);
  opendir_readdir p s := if bool_decide (p ∈ s) then Some (flat_list p s) else None;
  sys_realpath p s := if bool_decide (p ∈ s) then Some p else None;
  sys_readlink _ _ := None;
  sys_access p s := bool_decide (p ∈ s);
  sys_lstat_isdir p s := if bool_decide (p ∈ s) then Some true else None;
  sys_stat_size p s := None;
  ofstream_write p _ s := Some ({[p]} ∪ s);
  open_append_write _ _ s := (None, s);
  ifstream_read _ _ := None;
  fopen _ _ s := (inl ENOENT, s);
  fread _ _ s := ([], s);
  fwrite _ _ s := (0, s);
  ferror _ _ := 0;
  fclose _ s := s;
}.

Definition flat_max (s : flat) : nat := foldr Nat.max 0%nat (length <$> elements s).
Definition flat_height (s : flat) (p : bytes) : nat := flat_max s - length p.

Lemma flat_max_le s n : (flat_max s ≤ n)%nat ↔ ∀ q, q ∈ s → (length q ≤ n)%nat.
Proof.
  assert (∀ l : list bytes, (foldr Nat.max 0 (length <$> l) ≤ n)%nat ↔
    ∀ q, q ∈ l → (length q ≤ n)%nat) as H.
  { induction l as [|x l IH]; cbn; [set_solver by lia|]. rewrite Nat.max_lub_iff, IH. set_solver. }
  unfold flat_max. rewrite H. by setoid_rewrite elem_of_elements.
Qed.

Lemma flat_max_ge s q : q ∈ s → (length q ≤ flat_max s)%nat.
Proof. by apply flat_max_le. Qed.

(** [PathJoin] of a directory that does not end in a slash and a name. *)
Lemma PathJoin2_name p n r :
  fits (p ++ [NUL]) → fits (n ++ [NUL]) → p ≠ [] → last p ≠ Some slash → n ≠ [] → slash ∉ n →
  PathJoin2 (sv_of_string p) (sv_of_string n) = Ret r → r = p ++ slash :: n.
Proof.
  intros Hfp Hfn Hp Hl Hn Hs. autorewrite with len in Hfp, Hfn.
  assert (sv_ok (sv_of_string p)) as Hvp by (apply sv_ok_string; lia).
  assert (sv_ok (sv_of_string n)) as Hvn by (apply sv_ok_string; lia).
  unfold PathJoin2, append_trim_right, append_trim, StrAppend.
  destruct (StrTrim_trimmed _ (lit kPathSeparator) Hvn sv_ok_sep) as (w & -> & _ & Hw).
  rewrite chars_of_string, chars_sep in Hw. change kPathSeparator with [slash] in *.
  assert (chars w = n) as Hwn.
  { rewrite Hw. unfold trimmed, drop_set_r. destruct (forallb _ _); [done|].
    assert (∀ l, slash ∉ l → drop_set [slash] l = l) as Hd.
    { intros [|c l] Hc; [done|]. cbn. rewrite in_set_singleton.
      rewrite (proj2 (is_char_false slash c)); [done|]. set_solver. }
    rewrite (Hd n), Hd, reverse_involutive; [done| |done]. by rewrite elem_of_reverse. }
  destruct (StrTrimRight_spec _ (lit [slash]) Hvp sv_ok_sep)
    as [[Hall ->] | (l1 & c & l2 & v & Heq & H2 & Hc & -> & _ & Hcv)];
    cbn [mbind outcome_bind app]; rewrite Hwn, ?chars_of_string in *.
  - exfalso. apply Hl. destruct (last p) as [c|] eqn:Hlast.
    + apply last_Some in Hlast as [l' ->]. apply Forall_app in Hall as [_ Hall].
      apply Forall_cons in Hall as [Hall _]. by apply list_elem_of_singleton in Hall as ->.
    + by apply last_None in Hlast.
  - intros [= <-]. destruct l2 as [|d l2] using rev_ind.
    + by rewrite Heq, Hcv, <-app_assoc.
    + exfalso. apply Hl. rewrite Heq. change (l1 ++ c :: l2 ++ [d]) with (l1 ++ [c] ++ l2 ++ [d]).
      rewrite !app_assoc, last_snoc. apply Forall_app in H2 as [_ H2].
      apply Forall_cons in H2 as [H2 _]. by apply list_elem_of_singleton in H2 as ->.
Qed.

Lemma flat_laws : remove_laws (λ s p, (p : bytes) ∈ (s : flat)) flat_height.
Proof.
  split; cbn.
  - intros p s s'. repeat case_bool_decide; intros [= <-]. set_solver.
  - intros p s s'. repeat case_bool_decide; intros [= <-]. done.
  - intros p s e s'. repeat case_bool_decide; intros [= <- <-]; done.
  - intros p s q Hq. repeat case_bool_decide; cbn; [done| |done]. set_solver.
  - intros p s q. repeat case_bool_decide; cbn; [done| |done]. set_solver.
  - intros p s q. repeat case_bool_decide; cbn; [done| |done]. unfold flat_height.
    assert (flat_max (s ∖ {[p]}) ≤ flat_max s)%nat; [|lia].
    apply flat_max_le. intros x Hx. apply flat_max_ge. set_solver.
  - intros p s ns n. case_bool_decide; [|done]. intros [= <-].
    unfold flat_list. intros (q & Hq & Hn)%list_elem_of_omap _ _. apply elem_of_elements in Hq.
    unfold name_in in Hn. destruct (drop _ q) as [|c n']; [done|].
    case_bool_decide as Hc; [|done]. injection Hn as <-.
    destruct Hc as (Heq & _ & Hne & Hs & Hnul & Hl & Hp & Hlen).
    assert (length q = length p + S (length n'))%nat as Hlq by (rewrite Heq, length_app; done).
    split_and!; [done | len_lia |]. intros r Hr.
    apply PathJoin2_name in Hr as ->; [|len_lia..|done|done|done|done].
    pose proof (flat_max_ge s q Hq). unfold flat_height. rewrite <-Heq. split; [lia|len_lia].
Qed.

(** A small tree. *)
Definition demo_fs : flat :=
  {[ bs "/t"; bs "/t/a"; bs "/t/a/b"; bs "/t/c"; bs "/u" ]}.

Lemma MkdirAll_correct_witness :
  ∃ st s', MkdirAll (λ _, []) (bs "/t/x/y") 448 demo_fs = Ret (st, s') ∧
    mkdir_paths (bs "/t/x/y") = [bs "/t"; bs "/t/x"; bs "/t/x/y"] ∧
    Forall (λ p, p ∈ s') (mkdir_paths (bs "/t/x/y")).
Proof.
  assert (match MkdirAll (λ _, []) (bs "/t/x/y") 448 demo_fs with
          | Ret (st, _) => status_ok st | _ => false end = true) as Hok by (vm_compute; reflexivity).
  destruct (MkdirAll (λ _, []) (bs "/t/x/y") 448 demo_fs) as [[st s']| | | |] eqn:Hr;
    try discriminate Hok.
  exists st, s'. split; [reflexivity|]. split; [vm_compute; reflexivity|].
  apply (MkdirAll_correct (λ _, []) (λ (s : flat) p, p ∈ s) (bs "/t/x/y") 448 demo_fs)
    with (st := st).
  - by_decide.
  - vm_compute. reflexivity.
  - intros p m s1 s2. cbn. case_bool_decide; intros [= <-].
    by apply elem_of_union_l, elem_of_singleton.
  - intros p m s1 s2. cbn. case_bool_decide; intros [= <-]. done.
  - intros p m s1 q. cbn. case_bool_decide; [done|]. apply elem_of_union_r.
  - exact Hr.
  - exact Hok.
Defined.


(** ** Copying *)

Section copy.
Context {S H : Type} `{!FileSystem S H} (strerror : Z → bytes).
Context (rd wr : H → S → bytes) (fsrc fdst : H).

(** What the C library documents of two streams without errors: [rd] is what is
    still to be read of one, [wr] what has gone to the other. *)
Record stream_laws : Prop := {
  fread_law : ∀ n s, 0 < n →
    (fread n fsrc s).1 = take (Z.to_nat n) (rd fsrc s) ∧
    rd fsrc (fread n fsrc s).2 = drop (Z.to_nat n) (rd fsrc s) ∧
    wr fdst (fread n fsrc s).2 = wr fdst s ∧
    ferror fsrc (fread n fsrc s).2 = 0;
  fwrite_law : ∀ d s,
    (fwrite d fdst s).1 = len d ∧
    wr fdst (fwrite d fdst s).2 = wr fdst s ++ d ∧
    rd fsrc (fwrite d fdst s).2 = rd fsrc s;
}.

Lemma copy_buffer_pos : 0 < copy_buffer_size.
Proof. reflexivity. Qed.

#[local] Opaque copy_buffer_size.

Lemma copy_loop_copies fuel s :
  stream_laws → (length (rd fsrc s) < fuel)%nat →
  ∃ s', copy_loop strerror fuel fsrc fdst s = Ret (OkStatus, s') ∧
        wr fdst s' = wr fdst s ++ rd fsrc s ∧ rd fsrc s' = [].
Proof.
  intros Hl. revert s. induction fuel as [|fuel IH]; intros s Hf; [lia|]. cbn [copy_loop].
  destruct (fread_law Hl copy_buffer_size s copy_buffer_pos) as (H1 & H2 & H3 & H4).
  destruct (fread copy_buffer_size fsrc s) as [data s1]. cbn [fst snd] in *. subst data.
  assert (Z.to_nat copy_buffer_size = Datatypes.S (Z.to_nat (copy_buffer_size - 1))) as Hb.
  { pose proof copy_buffer_pos. lia. }
  case_bool_decide as He.
  - rewrite H4, Z.eqb_refl. cbn [negb]. exists s1. rewrite Hb in He.
    destruct (rd fsrc s) as [|c l]; [|discriminate He]. rewrite drop_nil in H2.
    clear Hb He. rewrite H3, app_nil_r. auto.
  - clear Hb. destruct (fwrite_law Hl (take (Z.to_nat copy_buffer_size) (rd fsrc s)) s1) as (G1 & G2 & G3).
    destruct (fwrite _ fdst s1) as [n s2]. cbn [fst snd] in *. subst n.
    rewrite Z.eqb_refl. cbn [negb].
    destruct (IH s2) as (s3 & -> & Hw & Hr).
    { rewrite G3, H2, length_drop. pose proof copy_buffer_pos.
      destruct (rd fsrc s); [|cbn [length] in *; lia]. by rewrite take_nil in He. }
    exists s3. split_and!; [done| |done]. by rewrite Hw, G2, G3, H2, H3, <-app_assoc, take_drop.
Qed.
End copy.

(** [CopyFile].  When both files open and no stream fails, it ends and leaves
    in the destination exactly what was to be read of the source.  When the
    source does not open, the status carries the code of [errno] and nothing is
    created.  When reading fails, the status is not the system's error: it is
    what [ErrnoToStatus] makes of the [ferror] flag. *)
Theorem CopyFile_correct {S H : Type} `{!FileSystem S H} (strerror : Z → bytes)
    (rd wr : H → S → bytes) (fsrc fdst : H) (src dst : bytes) (s s1 s2 : S) (e : Z) (s3 : S) :
  (fopen (until_nul src) (bs "r") s = (inr fsrc, s1) →
   fopen (until_nul dst) (bs "w") s1 = (inr fdst, s2) →
   stream_laws rd wr fsrc fdst →
   ∃ s', CopyFile strerror (Datatypes.S (length (rd fsrc s2))) src dst s
         = Ret (OkStatus, fclose fdst (fclose fsrc s')) ∧
         wr fdst s' = wr fdst s2 ++ rd fsrc s2) ∧
  (fopen (until_nul src) (bs "r") s = (inl e, s1) → e ≠ 0 → ∀ fuel,
   ∃ m, CopyFile strerror fuel src dst s = Ret (ErrStatus (ErrnoToStatusCode e) m, s1)) ∧
  (fopen (until_nul src) (bs "r") s = (inr fsrc, s1) →
   fopen (until_nul dst) (bs "w") s1 = (inr fdst, s2) →
   fread copy_buffer_size fsrc s2 = ([], s3) → ferror fsrc s3 ≠ 0 → ∀ fuel,
   ∃ m, CopyFile strerror (Datatypes.S fuel) src dst s
        = Ret (ErrStatus (ErrnoToStatusCode (ferror fsrc s3)) m, fclose fdst (fclose fsrc s3))).
Proof.
  assert (∀ e m (s : S), e ≠ 0 →
    ∃ m', fail strerror e m s = Ret (ErrStatus (ErrnoToStatusCode e) m', s)) as Hfail.
  { intros e' m s' He. unfold fail, ErrnoToStatus, MessageForErrnoToStatus, format_sv.
    cbn [ptr_ sv_of_string]. rewrite c_str_until_nul. cbn [mbind outcome_bind]. unfold mk_Status.
    rewrite bool_decide_false by by rewrite ErrnoToStatusCode_kOk. cbn. by eexists. }
  unfold CopyFile. split_and!.
  - intros -> -> Hl.
    destruct (copy_loop_copies strerror rd wr fsrc fdst _ s2 Hl (Nat.lt_succ_diag_r _))
      as (s' & -> & Hw & _). by exists s'.
  - intros -> He fuel. by apply Hfail.
  - intros -> -> Hr He fuel. cbn [copy_loop]. rewrite Hr, bool_decide_true by done.
    rewrite (proj2 (Z.eqb_neq _ _)) by done. cbn [negb].
    destruct (Hfail (ferror fsrc s3) (bs "failed to read src file") s3 He) as (m & ->).
    by exists m.
Qed.

(** Two streams over a pair: what is left to read, what was written. *)
Definition pair_fs : FileSystem (bytes * bytes) bool := {|
  sys_remove _ s := (None, s); sys_mkdir _ _ s := (None, s); sys_link _ _ s := (None, s);
  sys_symlink _ _ s := (None, s); sys_rename _ _ s := (None, s);
  opendir_readdir _ _ := None; sys_realpath _ _ := None; sys_readlink _ _ := None;
  sys_access _ _ := true; sys_lstat_isdir _ _ := None; sys_stat_size _ _ := None;
  ofstream_write _ _ s := Some s; open_append_write _ _ s := (None, s);
  ifstream_read _ _ := None;
  fopen p _ s := (inr (bool_decide (p = bs "src")), s);
  fread n _ s := (take (Z.to_nat n) s.1, (drop (Z.to_nat n) s.1, s.2));
  fwrite d _ s := (len d, (s.1, s.2 ++ d));
  ferror _ _ := 0;
  fclose _ s := s;
|}.

Lemma CopyFile_correct_witness :
  ∃ s', CopyFile (FileSystem0 := pair_fs) (λ _, []) 6 (bs "src") (bs "dst") (bs "hello", [])
        = Ret (OkStatus, s') ∧ s'.2 = bs "hello".
Proof.
  destruct (CopyFile_correct (FileSystem0 := pair_fs) (λ _, []) (λ _ s, s.1) (λ _ s, s.2)
    true false (bs "src") (bs "dst") (bs "hello", []) (bs "hello", []) (bs "hello", []) 1
    (bs "hello", [])) as (H1 & _ & _).
  destruct (H1 eq_refl eq_refl) as (s' & Hr & Hw).
  { split; intros; cbn; auto. }
  exists s'. split; [exact Hr | exact Hw].
Defined.
