(* ===== verification/FormData.v ===== *)
(** * Form data (src/cppboot/net/http/form_data.h, form_data.cc)

    Key-value pairs of a query or a form body: [Parse] reads them off a view,
    [Encode] writes them in key order. *)

From S2P Require Import Prelude StdString StringView StrUtil Status.

Record FormData : Type := Form { values_ : gmap bytes bytes }.

Definition no_values : FormData := Form ∅.

(** [GetNextToken(&next, end, quota)], the pointers as offsets into the viewed
    characters; [next] may end up one past [end]. *)
Definition GetNextToken (s : bytes) (next : nat) (quota : ascii) : bytes * nat :=
  if (length s <=? next)%nat then ([], next)
  else
    let rest := drop next s in
    let n := default (length rest) (scan (is_char quota) rest 0) in
    (take n rest, S (next + n)).

(** [Set(key, value)]; the key is a C string, null allowed. *)
Definition Set_ (key : option bytes) (value : bytes) (f : FormData) : FormData :=
  match key with
  | Some ((_ :: _) as k) => Form (<[k := value]> (values_ f))
  | _ => f
  end.

Definition Get (key : option bytes) (f : FormData) : bytes :=
  match key with
  | Some ((_ :: _) as k) => default [] (values_ f !! k)
  | _ => []
  end.

(** The [for (;;)] loop of [Parse]. *)
Fixpoint Parse_loop (fuel : nat) (s : bytes) (next : nat) (f : FormData) : outcome FormData :=
  match fuel with
  | O => OutOfFuel
  | S fuel =>
      let '(param, next) := GetNextToken s next "&"%char in
      if bool_decide (param = []) then Ret f
      else
        let sep := str_find_char param "="%char 0 in
        f ← (if sep =? npos then Ret (Form (<[param := []]> (values_ f)))
             else
               k ← str_substr param 0 sep;
               v ← str_substr param (sep + 1) npos;
               Ret (Form (<[k := v]> (values_ f))));
        Parse_loop fuel s next f
  end.

Definition Parse (query : string_view) (f : FormData) : outcome (Status * FormData) :=
  f ← Parse_loop (S (length (chars query))) (chars query) 0 f;
  Ret (OkStatus, f).

(** The [for] loop of [Encode]. *)
Fixpoint Encode_loop (l : list (bytes * bytes)) (add_delimiter : bool) : bytes :=
  match l with
  | [] => []
  | (k, v) :: l => (if add_delimiter then bs "&" else []) ++ k ++ bs "=" ++ v ++ Encode_loop l true
  end.
Definition Encode (f : FormData) : bytes := Encode_loop (map_iter (values_ f)) false.

(** * Properties *)

Definition amp : ascii := "&"%char.
Definition eq_sign : ascii := "="%char.

(** A parameter: everything before the first equal sign, and after it. *)
Fixpoint pair_of (p : bytes) : bytes * bytes :=
  match p with
  | [] => ([], [])
  | c :: p => if is_char eq_sign c then ([], p) else let '(k, v) := pair_of p in (c :: k, v)
  end.

(** The parameters up to the first empty one. *)
Fixpoint live (ps : list bytes) : list bytes :=
  match ps with
  | [] => []
  | p :: ps => if bool_decide (p = []) then [] else p :: live ps
  end.

Lemma pair_of_app k v : eq_sign ∉ k → pair_of (k ++ eq_sign :: v) = (k, v).
Proof.
  induction k as [|c k IH]; intros Hk; cbn [pair_of app].
  - by rewrite (proj2 (is_char_true eq_sign eq_sign)).
  - apply not_elem_of_cons in Hk as [Hc Hk]. rewrite (proj2 (is_char_false eq_sign c)) by done.
    by rewrite IH.
Qed.

Lemma pair_of_none p : eq_sign ∉ p → pair_of p = (p, []).
Proof.
  induction p as [|c p IH]; intros Hp; [done|]. cbn [pair_of].
  apply not_elem_of_cons in Hp as [Hc Hp]. rewrite (proj2 (is_char_false eq_sign c)) by done.
  by rewrite IH.
Qed.

(** The body of the loop inserts the pair of the parameter. *)
Lemma param_insert param f : fits param →
  (let sep := str_find_char param eq_sign 0 in
   if sep =? npos then Ret (Form (<[param := []]> (values_ f)))
   else
     k ← str_substr param 0 sep;
     v ← str_substr param (sep + 1) npos;
     Ret (Form (<[k := v]> (values_ f))))
  = Ret (Form (<[(pair_of param).1 := (pair_of param).2]> (values_ f))).
Proof.
  intros Hf. unfold str_find_char.
  destruct (split_first (is_char eq_sign) param) as [Hn | (k & c & v & -> & Hk & ->%is_char_true)].
  - rewrite str_find_if_miss0, Z.eqb_refl by done.
    by rewrite pair_of_none by by apply Forall_not_char.
  - apply Forall_not_char in Hk as Hk'.
    rewrite str_find_if_hit0 by (done || by apply is_char_true).
    autorewrite with len in Hf. rewrite (proj2 (Z.eqb_neq _ _)) by (unfold npos; lia).
    rewrite pair_of_app by done. unfold str_substr.
    rewrite !(proj2 (Z.ltb_ge _ _)) by len_lia. cbn [mbind outcome_bind fst snd].
    rewrite slice_app_l. change (k ++ eq_sign :: v) with (k ++ [eq_sign] ++ v). rewrite app_assoc.
    replace (len k + 1) with (len (k ++ [eq_sign])) by len_lia.
    by rewrite slice_app_r by (unfold npos; lia).
Qed.

Lemma GetNextToken_split s0 s1 q rest : (* a token and its delimiter *)
  q ∉ s1 → GetNextToken (s0 ++ s1 ++ q :: rest) (length s0) q = (s1, S (length s0 + length s1)).
Proof.
  intros Hq. unfold GetNextToken.
  rewrite (proj2 (Nat.leb_gt _ _)) by (rewrite !length_app; cbn; lia).
  rewrite drop_app_length, scan_hit; [|by apply Forall_not_char | by apply is_char_true].
  cbn. by rewrite Nat.add_0_r, take_app_length.
Qed.

Lemma GetNextToken_last s0 s1 q :
  q ∉ s1 → s1 ≠ [] → GetNextToken (s0 ++ s1) (length s0) q = (s1, S (length s0 + length s1)).
Proof.
  intros Hq Hne. unfold GetNextToken.
  rewrite (proj2 (Nat.leb_gt _ _)) by (rewrite !length_app; destruct s1; cbn; [done|lia]).
  rewrite drop_app_length, scan_miss by by apply Forall_not_char.
  cbn. by rewrite take_ge.
Qed.

Definition insert_pairs (ps : list bytes) (m : gmap bytes bytes) : gmap bytes bytes :=
  insert_all (pair_of <$> ps) m.

Lemma Parse_loop_spec fuel s0 rest f :
  fits (s0 ++ rest) → (length rest < fuel)%nat →
  Parse_loop fuel (s0 ++ rest) (length s0) f
  = Ret (Form (insert_pairs (live (split amp rest)) (values_ f))).
Proof.
  revert s0 rest f. induction fuel as [|fuel IH]; intros s0 rest f Hf Hl; [lia|].
  cbn [Parse_loop]. fold amp. destruct (decide (rest = [])) as [->|Hne].
  { unfold GetNextToken. rewrite app_nil_r, Nat.leb_refl. cbn. by destruct f. }
  destruct (split_first (is_char amp) rest) as [Hn | (l1 & c & l2 & -> & H1 & ->%is_char_true)].
  - apply Forall_not_char in Hn. rewrite GetNextToken_last by done.
    rewrite bool_decide_false by done. fold eq_sign.
    rewrite param_insert by (autorewrite with len in Hf; lia). cbn [mbind outcome_bind].
    rewrite split_last_piece by done. cbn [live]. rewrite bool_decide_false by done.
    unfold insert_pairs, insert_all. cbn [fmap list_fmap foldl].
    destruct fuel as [|fuel]; [destruct rest; cbn in *; [done|lia]|].
    cbn [Parse_loop]. unfold GetNextToken.
    rewrite (proj2 (Nat.leb_le _ _)) by (rewrite length_app; lia).
    rewrite bool_decide_true by done. by destruct (pair_of rest).
  - apply Forall_not_char in H1. rewrite GetNextToken_split by done.
    rewrite split_app by done. cbn [live]. case_bool_decide as He.
    { by destruct f. }
    fold eq_sign. autorewrite with len in Hf. rewrite param_insert by lia. cbn [mbind outcome_bind].
    change (s0 ++ l1 ++ amp :: l2) with (s0 ++ l1 ++ [amp] ++ l2).
    rewrite !app_assoc. replace (S (length s0 + length l1)) with (length ((s0 ++ l1) ++ [amp]))
      by (rewrite !length_app; cbn; lia).
    rewrite IH; [| len_lia | rewrite length_app in Hl; cbn in Hl; lia].
    cbn [values_]. unfold insert_pairs, insert_all. cbn. by destruct (pair_of l1).
Qed.

Lemma Parse_spec v f :
  sv_ok v →
  Parse v f = Ret (OkStatus, Form (insert_pairs (live (split amp (chars v))) (values_ f))).
Proof.
  intros Hv. pose proof (sv_ok_fits v Hv). unfold Parse.
  by rewrite (Parse_loop_spec _ [] (chars v)) by (done || lia).
Qed.

(** ** Encoding *)

(** Keys and values that the format can carry. *)
Definition encodable (m : gmap bytes bytes) : Prop :=
  ∀ k v, m !! k = Some v → (eq_sign ∉ k) ∧ (amp ∉ k) ∧ amp ∉ v.

Definition field (kv : bytes * bytes) : bytes := kv.1 ++ eq_sign :: kv.2.

Lemma Encode_loop_join l b :
  Encode_loop l b = (if b && negb (bool_decide (l = [])) then [amp] else []) ++ join amp (field <$> l).
Proof.
  revert b. induction l as [|[k v] l IH]; intros b; [by destruct b|].
  cbn [Encode_loop]. rewrite IH. cbn [andb fmap list_fmap].
  rewrite (bool_decide_false ((k, v) :: l = [])) by done. cbn [negb]. rewrite andb_true_r.
  f_equal. destruct l as [|kv l].
  - cbn. by rewrite !app_nil_r.
  - rewrite bool_decide_false by done. cbn [negb fmap list_fmap]. rewrite (join_cons amp (field (k, v))) by done.
    change (field (k, v)) with (k ++ eq_sign :: v). rewrite <-!app_assoc. done.
Qed.

Lemma live_all ps : Forall (λ p, p ≠ []) ps → live ps = ps.
Proof.
  induction 1 as [|p ps Hp _ IH]; [done|]. cbn. rewrite bool_decide_false by done. by rewrite IH.
Qed.

Lemma Parse_Encode m f :
  encodable m → fits (Encode (Form m) ++ [NUL]) →
  Parse (sv_of_string (Encode (Form m))) f = Ret (OkStatus, Form (m ∪ values_ f)).
Proof.
  intros Hm Hf. rewrite Parse_spec by (apply sv_ok_string; len_lia).
  rewrite chars_of_string. unfold Encode. cbn [values_]. rewrite Encode_loop_join. cbn [andb app].
  do 3 f_equal. rewrite <-insert_all_map_iter. unfold insert_pairs.
  destruct (decide (map_iter m = [])) as [->|Hne]; [done|].
  assert (Forall (λ kv, m !! kv.1 = Some kv.2) (map_iter m)) as Hall.
  { apply Forall_forall. intros [k v] Hkv. by apply elem_of_map_iter. }
  rewrite split_join; [| by intros ?%fmap_nil_inv |].
  - rewrite live_all by (apply Forall_fmap, Forall_forall; intros [[] ?] _; discriminate).
    f_equal. rewrite <-list_fmap_compose. rewrite <-(list_fmap_id (map_iter m)) at 2.
    apply list_fmap_ext. intros i [k v] Hi. cbn.
    eapply Forall_lookup_1 in Hall; [|done]. destruct (Hm k v Hall) as (? & _).
    by rewrite <-pair_of_app by done.
  - apply Forall_fmap. eapply Forall_impl; [done|]. intros [k v] Hkv. cbn in *.
    destruct (Hm k v Hkv) as (? & ? & ?). unfold field. cbn.
    assert (amp ≠ eq_sign) by done. set_solver.
Qed.

(** Form data survive a round trip.  For keys without an equal sign or an
    ampersand and values without an ampersand, parsing the encoded form over any
    form gives its pairs on top of what was there; in general [Parse] always ends
    with [OkStatus] and records, in order and with later pairs winning, every
    parameter up to the first empty one, whose successors it never sees.
    Nothing is percent-encoded on the way out, so the restriction is needed. *)
Theorem FormData_roundtrip (m : gmap bytes bytes) (f : FormData) (v : string_view)
    (p1 p2 : list bytes) :
  (encodable m → fits (Encode (Form m) ++ [NUL]) →
   Parse (sv_of_string (Encode (Form m))) f = Ret (OkStatus, Form (m ∪ values_ f))) ∧
  (sv_ok v →
   Parse v f = Ret (OkStatus, Form (insert_all (pair_of <$> live (split amp (chars v))) (values_ f)))) ∧
  (sv_ok v → Forall (λ p, p ≠ [] ∧ amp ∉ p) p1 → Forall (λ p, amp ∉ p) p2 →
   chars v = join amp (p1 ++ [] :: p2) → p1 ≠ [] →
   Parse v f = Ret (OkStatus, Form (insert_all (pair_of <$> p1) (values_ f)))).
Proof.
  split_and!; [apply Parse_Encode | apply Parse_spec |].
  intros Hv H1 H2 Hc Hne. rewrite Parse_spec by done. rewrite Hc, split_join.
  - unfold insert_pairs. do 5 f_equal. clear -H1. induction H1 as [|p p1 [Hp _] _ IH]; [done|].
    cbn. rewrite bool_decide_false by done. by rewrite IH.
  - by destruct p1.
  - apply Forall_app. split; [by eapply Forall_impl; [done|]; intros ? []|].
    constructor; [set_solver | done].
Qed.

Lemma FormData_roundtrip_witness :
  Parse (sv_of_string (Encode (Form {[bs "a" := bs "1"; bs "b" := bs "x=y"]})))
    no_values = Ret (OkStatus, Form ({[bs "a" := bs "1"; bs "b" := bs "x=y"]} ∪ ∅)) ∧
  Parse (sv_of_string (bs "a=1&&b=2")) no_values
  = Ret (OkStatus, Form (insert_all [(bs "a", bs "1")] ∅)).
Proof.
  split.
  - apply (FormData_roundtrip _ no_values sv_null [] []); [|vm_compute; reflexivity].
    intros k v. rewrite lookup_insert_Some, lookup_singleton_Some.
    intros [[<- <-]|[_ [<- <-]]]; by_decide.
  - refine (proj2 (proj2 (FormData_roundtrip ∅ no_values (sv_of_string (bs "a=1&&b=2"))
      [bs "a=1"] [bs "b=2"])) _ _ _ _ _).
    + apply sv_ok_string. vm_compute. reflexivity.
    + repeat constructor; [discriminate | by_decide].
    + repeat constructor. by_decide.
    + vm_compute. reflexivity.
    + discriminate.
Defined.
