(* ===== verification/Url.v ===== *)
(** * URLs (src/cppboot/net/http/url.h, url.cc)

    The parser walks a pointer from [data()] towards [end]; pointers are offsets
    into the allocation of the view, and a read outside it is undefined. *)

From S2P Require Import Prelude StdString StringView StrUtil.

Record Url : Type := MkUrl {
  scheme : bytes; host : bytes; raw_path : bytes; raw_query : bytes }.

#[export] Instance Url_eq_dec : EqDecision Url.
Proof. solve_decision. Defined.

Definition IsValid (u : Url) : bool := negb (bool_decide (scheme u = [])).

(** The loop of [ConsumeUtil]: [l] is the memory from [p] on; it goes on past
    the allocation unless it meets [end_] or the character first. *)
Fixpoint consume_loop (l : bytes) (p end_ : Z) (util : ascii) : outcome Z :=
  if p =? end_ then Ret p
  else match l with
       | [] => Undef
       | c :: l => if bool_decide (c = util) then Ret p else consume_loop l (p + 1) end_ util
       end.

(** [ConsumeUtil(&start, end, util)]: the characters passed over and the new
    [start]. *)
Definition ConsumeUtil (mem : bytes) (start end_ : Z) (util : ascii) : outcome (bytes * Z) :=
  p ← consume_loop (drop (Z.to_nat start) mem) start end_ util;
  Ret (slice mem start (p - start), p).

Definition deref (mem : bytes) (p : Z) : outcome ascii := or_undef (mem !! Z.to_nat p).

(** The condition [p[0] != '/' || p[1] != '/' || p[2] == '/'], read in order. *)
Definition no_authority (mem : bytes) (p : Z) : outcome bool :=
  c0 ← deref mem p;
  if bool_decide (c0 ≠ "/"%char) then Ret true
  else
    c1 ← deref mem (p + 1);
    if bool_decide (c1 ≠ "/"%char) then Ret true
    else
      c2 ← deref mem (p + 2);
      Ret (bool_decide (c2 = "/"%char)).

(** [Url(raw_url)] *)
Definition parse_url (raw_url : string_view) : outcome Url :=
  let mem := sv_mem raw_url in
  let end_ := length_ raw_url in
  '(scheme_view, p) ← ConsumeUtil mem 0 end_ ":"%char;
  if bool_decide (scheme_view = []) then Ret (MkUrl [] [] [] [])
  else
    let p := p + 1 in
    stop ← no_authority mem p;
    if (stop : bool) then Ret (MkUrl scheme_view [] [] [])
    else
      let p := p + 2 in
      '(host_view, p) ← ConsumeUtil mem p end_ "/"%char;
      if bool_decide (host_view = []) then Ret (MkUrl scheme_view [] [] [])
      else
        '(path_view, p) ← ConsumeUtil mem p end_ "?"%char;
        c ← deref mem p;
        if bool_decide (c = "?"%char)
        then Ret (MkUrl scheme_view host_view path_view (slice mem (p + 1) (end_ - (p + 1))))
        else Ret (MkUrl scheme_view host_view path_view []).

(** * Properties *)

(** The printed form of a URL. *)
Definition render_url (u : Url) : bytes :=
  scheme u ++ bs "://" ++ host u ++ raw_path u ++
  (if bool_decide (raw_query u = []) then [] else bs "?" ++ raw_query u).

(** URLs the syntax can carry: a scheme, a host, a path that is empty or starts
    with a slash, and a query only behind a path. *)
Record wf_url (u : Url) : Prop := {
  wf_scheme : scheme u ≠ [] ∧ ":"%char ∉ scheme u;
  wf_host : host u ≠ [] ∧ "/"%char ∉ host u;
  wf_path : raw_path u = [] ∧ raw_query u = [] ∨
            head (raw_path u) = Some "/"%char ∧ "?"%char ∉ raw_path u;
}.

Lemma consume_loop_hit l1 c l2 p e : c ∉ l1 → p + len l1 < e ∨ e < p →
  consume_loop (l1 ++ c :: l2) p e c = Ret (p + len l1).
Proof.
  revert p. induction l1 as [|x l1 IH]; intros p Hc He; cbn [consume_loop app].
  - rewrite (proj2 (Z.eqb_neq _ _)) by (cbn in He; lia). rewrite bool_decide_true by done.
    f_equal. cbn. lia.
  - apply not_elem_of_cons in Hc as [Hx Hc]. rewrite len_cons in *.
    rewrite (proj2 (Z.eqb_neq _ _)) by lia. rewrite bool_decide_false by congruence.
    rewrite IH by (done || lia). f_equal. lia.
Qed.

Lemma consume_loop_end l1 l2 c p : c ∉ l1 →
  consume_loop (l1 ++ l2) p (p + len l1) c = Ret (p + len l1).
Proof.
  revert p. induction l1 as [|x l1 IH]; intros p Hc.
  - replace (p + len []) with p by (cbn; lia). destruct l2; cbn [consume_loop app]; by rewrite Z.eqb_refl.
  - apply not_elem_of_cons in Hc as [Hx Hc]. rewrite len_cons in *. cbn [consume_loop app].
    rewrite (proj2 (Z.eqb_neq _ _)) by lia. rewrite bool_decide_false by congruence.
    replace (p + (1 + len l1)) with (p + 1 + len l1) by lia. by apply IH.
Qed.

Lemma ConsumeUtil_hit m0 l1 c l2 e : c ∉ l1 → len (m0 ++ l1) < e ∨ e < len m0 →
  ConsumeUtil (m0 ++ l1 ++ c :: l2) (len m0) e c = Ret (l1, len m0 + len l1).
Proof.
  intros Hc He. unfold ConsumeUtil. rewrite Nat2Z.id, drop_app_length.
  rewrite consume_loop_hit by (done || len_lia). cbn [mbind outcome_bind].
  replace (len m0 + len l1 - len m0) with (len l1) by lia. by rewrite slice_app_mid.
Qed.

Lemma ConsumeUtil_hit0 l1 c l2 e : c ∉ l1 → len l1 < e →
  ConsumeUtil (l1 ++ c :: l2) 0 e c = Ret (l1, len l1).
Proof. intros Hc He. apply (ConsumeUtil_hit [] l1 c l2 e Hc). left. len_lia. Qed.

Lemma ConsumeUtil_end m0 l1 l2 c : c ∉ l1 →
  ConsumeUtil (m0 ++ l1 ++ l2) (len m0) (len m0 + len l1) c = Ret (l1, len m0 + len l1).
Proof.
  intros Hc. unfold ConsumeUtil. rewrite Nat2Z.id, drop_app_length.
  rewrite consume_loop_end by done. cbn [mbind outcome_bind].
  replace (len m0 + len l1 - len m0) with (len l1) by lia. by rewrite slice_app_mid.
Qed.

Lemma deref_at m0 c m1 p : p = len m0 → deref (m0 ++ c :: m1) p = Ret c.
Proof. intros ->. unfold deref. rewrite Nat2Z.id. by rewrite list_lookup_middle. Qed.

Lemma ConsumeUtil_total m0 l l2 c :
  ∃ l1 l', l = l1 ++ l' ∧
    ConsumeUtil (m0 ++ l ++ l2) (len m0) (len m0 + len l) c = Ret (l1, len m0 + len l1).
Proof.
  destruct (split_first (is_char c) l) as [Hn | (l1 & d & l3 & -> & H1 & ->%is_char_true)].
  - apply Forall_not_char in Hn. exists l, []. split; [by rewrite app_nil_r|].
    by apply ConsumeUtil_end.
  - apply Forall_not_char in H1. exists l1, (c :: l3). split; [done|].
    rewrite <-app_assoc. cbn [app]. apply ConsumeUtil_hit; [done|]. len_lia.
Qed.

(** The test of the authority marker, on memory that goes on behind it. *)
Lemma no_authority_at m0 l :
  no_authority (m0 ++ l) (len m0) =
  match l with
  | [] => Undef
  | c0 :: l =>
      if bool_decide (c0 ≠ "/"%char) then Ret true
      else match l with
           | [] => Undef
           | c1 :: l =>
               if bool_decide (c1 ≠ "/"%char) then Ret true
               else match l with
                    | [] => Undef
                    | c2 :: _ => Ret (bool_decide (c2 = "/"%char))
                    end
           end
  end.
Proof.
  assert (∀ i, deref (m0 ++ l) (len m0 + Z.of_nat i) = or_undef (l !! i)) as Hd.
  { intros i. unfold deref. replace (Z.to_nat _) with (length m0 + i)%nat by lia.
    by rewrite lookup_app_r, Nat.add_comm, Nat.add_sub by lia. }
  unfold no_authority. pose proof (Hd 0%nat) as H0. rewrite Z.add_0_r in H0. rewrite H0.
  change 1 with (Z.of_nat 1). change 2 with (Z.of_nat 2). rewrite !Hd.
  destruct l as [|c0 [|c1 [|c2 l]]]; cbn; repeat case_bool_decide; done.
Qed.

Lemma no_authority_total m0 rest :
  ∃ b, no_authority (m0 ++ rest ++ [NUL]) (len m0) = Ret b ∧
       (b = false → ∃ r, rest = "/"%char :: "/"%char :: r).
Proof.
  rewrite no_authority_at. destruct rest as [|c0 [|c1 r]]; cbn [app].
  - rewrite bool_decide_true by done. by eexists.
  - case_bool_decide as H0; [by eexists|]. rewrite bool_decide_true by done. by eexists.
  - case_bool_decide as H0; [by eexists|]. case_bool_decide as H1; [by eexists|].
    subst c0 c1.
    destruct (r ++ [NUL]) eqn:He; [by destruct r|]. eauto.
Qed.

Lemma parse_url_colon s1 rest : ":"%char ∉ s1 →
  ∃ u, parse_url (sv_of_string (s1 ++ ":"%char :: rest)) = Ret u ∧ scheme u = s1.
Proof.
  intros Hs. unfold parse_url, sv_mem, sv_of_string. cbn [ptr_ length_ default from_option id].
  rewrite <-app_assoc. cbn [app].
  rewrite (ConsumeUtil_hit0 s1) by (done || len_lia). cbn [mbind outcome_bind].
  case_bool_decide as He; [subst; by eexists|].
  change (s1 ++ ":"%char :: rest ++ [NUL]) with (s1 ++ [":"%char] ++ rest ++ [NUL]).
  rewrite app_assoc. set (m0 := s1 ++ [":"%char]).
  replace (len s1 + 1) with (len m0) by (unfold m0; len_lia).
  destruct (no_authority_total m0 rest) as (b & -> & Hb). cbn [mbind outcome_bind].
  destruct b; [by eexists|]. destruct Hb as [r ->]; [done|].
  cbn [app]. set (m1 := m0 ++ ["/"%char; "/"%char]).
  replace (m0 ++ "/"%char :: "/"%char :: r ++ [NUL]) with (m1 ++ r ++ [NUL])
    by (unfold m1; by rewrite <-app_assoc).
  replace (len m0 + 2) with (len m1) by (unfold m1; len_lia).
  replace (len (s1 ++ ":"%char :: "/"%char :: "/"%char :: r)) with (len m1 + len r)
    by (unfold m1, m0; len_lia).
  destruct (ConsumeUtil_total m1 r [NUL] "/"%char) as (h & r' & -> & ->). cbn [mbind outcome_bind].
  case_bool_decide as Hh; [by eexists|].
  rewrite <-app_assoc, app_assoc. replace (len m1 + len h) with (len (m1 ++ h)) by len_lia.
  replace (len m1 + len (h ++ r')) with (len (m1 ++ h) + len r') by len_lia.
  destruct (ConsumeUtil_total (m1 ++ h) r' [NUL] "?"%char) as (q & r2 & -> & ->).
  cbn [mbind outcome_bind].
  destruct (lookup_lt_is_Some_2 ((m1 ++ h) ++ (q ++ r2) ++ [NUL]) (Z.to_nat (len (m1 ++ h) + len q)))
    as [c Hc]; [rewrite !length_app; cbn; lia|].
  unfold deref. rewrite Hc. cbn [or_undef mbind outcome_bind]. by case_bool_decide; eexists.
Qed.

Lemma parse_url_no_colon s : s ≠ [] → ":"%char ∉ s →
  parse_url (sv_of_string s) = Undef.
Proof.
  intros Hne Hs. unfold parse_url, sv_mem, sv_of_string. cbn [ptr_ length_ default from_option id].
  pose proof (ConsumeUtil_end [] s [NUL] ":"%char Hs) as He. cbn [app] in He.
  change (len (@nil ascii) + len s) with (len s) in He.
  change (len (@nil ascii)) with 0 in He. rewrite He. cbn [mbind outcome_bind].
  rewrite bool_decide_false by done. unfold no_authority, deref.
  rewrite (lookup_ge_None_2 _ (Z.to_nat (len s + 1))); [done|]. rewrite length_app. cbn. lia.
Qed.

Lemma parse_url_render u : wf_url u → parse_url (sv_of_string (render_url u)) = Ret u.
Proof.
  destruct u as [s h p q]. intros [[Hs Hsc] [Hh Hhc] Hp]. cbn [scheme host raw_path raw_query] in *.
  unfold parse_url, sv_mem, sv_of_string, render_url.
  cbn [ptr_ length_ default from_option id scheme host raw_path raw_query].
  change (bs "://") with [":"%char; "/"%char; "/"%char]. change (bs "?") with ["?"%char].
  set (tail := if bool_decide (q = []) then [] else ["?"%char] ++ q).
  set (e := len _).
  assert (e = len s + 3 + len h + len p + len tail) as He by (unfold e; len_lia).
  replace ((s ++ [":"%char; "/"%char; "/"%char] ++ h ++ p ++ tail) ++ [NUL])
    with (s ++ ":"%char :: ["/"%char; "/"%char] ++ h ++ p ++ tail ++ [NUL]) by (by rewrite <-!app_assoc).
  rewrite ConsumeUtil_hit0 by (done || len_lia). cbn [mbind outcome_bind].
  rewrite bool_decide_false by done.
  replace (s ++ ":"%char :: ["/"%char; "/"%char] ++ h ++ p ++ tail ++ [NUL])
    with ((s ++ [":"%char]) ++ ["/"%char; "/"%char] ++ h ++ p ++ tail ++ [NUL]) by (by rewrite <-!app_assoc).
  replace (len s + 1) with (len (s ++ [":"%char])) by len_lia.
  rewrite no_authority_at. destruct h as [|c h]; [done|]. cbn [app].
  apply not_elem_of_cons in Hhc as Hc. rewrite !bool_decide_false by (congruence || naive_solver).
  cbn [mbind outcome_bind].
  set (m1 := (s ++ [":"%char]) ++ ["/"%char; "/"%char]).
  replace ((s ++ [":"%char]) ++ "/"%char :: "/"%char :: c :: h ++ p ++ tail ++ [NUL])
    with (m1 ++ (c :: h) ++ (p ++ tail) ++ [NUL]) by (unfold m1; by rewrite <-!app_assoc).
  replace (len (s ++ [":"%char]) + 2) with (len m1) by (unfold m1; len_lia).
  assert (len m1 = len s + 3) as Hm1 by (unfold m1; len_lia).
  destruct Hp as [[-> ->]|[Hp Hpq]].
  - change tail with (@nil ascii) in *.
    change ((c :: h) ++ ([] ++ []) ++ [NUL]) with ((c :: h) ++ [NUL]).
    replace e with (len m1 + len (c :: h)) by (rewrite He; len_lia).
    rewrite ConsumeUtil_end by done. cbn [mbind outcome_bind]. rewrite bool_decide_false by done.
    replace (len m1 + len (c :: h)) with (len (m1 ++ c :: h)) by len_lia.
    rewrite app_assoc. pose proof (ConsumeUtil_end (m1 ++ c :: h) [] [NUL] "?"%char) as Hq.
    cbn [app] in Hq. rewrite len_nil, Z.add_0_r in Hq. rewrite Hq by set_solver.
    cbn [mbind outcome_bind]. rewrite deref_at by done. done.
  - destruct p as [|d p]; [done|]. cbn in Hp. injection Hp as ->.
    change ((("/"%char :: p) ++ tail) ++ [NUL]) with ("/"%char :: (p ++ tail) ++ [NUL]).
    rewrite ConsumeUtil_hit by (done || (left; rewrite He; len_lia)).
    cbn [mbind outcome_bind]. rewrite bool_decide_false by done.
    replace (len m1 + len (c :: h)) with (len (m1 ++ c :: h)) by len_lia.
    rewrite app_assoc.
    assert (len tail = if bool_decide (q = []) then 0 else 1 + len q) as Ht
      by (unfold tail; case_bool_decide; len_lia).
    unfold tail. clearbody tail. case_bool_decide as Hq.
    + subst q. replace e with (len (m1 ++ c :: h) + len ("/"%char :: p))
        by (rewrite He; len_lia).
      rewrite app_nil_r. change ("/"%char :: p ++ [NUL]) with (("/"%char :: p) ++ [NUL]).
      rewrite ConsumeUtil_end by done. cbn [mbind outcome_bind].
      rewrite app_assoc, deref_at by len_lia. done.
    + replace ("/"%char :: (p ++ ["?"%char] ++ q) ++ [NUL])
        with (("/"%char :: p) ++ "?"%char :: q ++ [NUL]) by (cbn; by rewrite <-!app_assoc).
      rewrite ConsumeUtil_hit by (done || (left; rewrite He; len_lia)).
      cbn [mbind outcome_bind]. rewrite app_assoc, deref_at by len_lia.
      cbn [mbind outcome_bind]. rewrite bool_decide_true by done.
      change (((m1 ++ c :: h) ++ "/"%char :: p) ++ "?"%char :: q ++ [NUL])
        with (((m1 ++ c :: h) ++ "/"%char :: p) ++ [("?")%char] ++ q ++ [NUL]).
      rewrite app_assoc.
      set (m2 := ((m1 ++ c :: h) ++ "/"%char :: p) ++ [("?")%char]).
      replace (len (m1 ++ c :: h) + len ("/"%char :: p) + 1) with (len m2) by (unfold m2; len_lia).
      replace (e - len m2) with (len q) by (unfold m2; rewrite He; len_lia).
      by rewrite slice_app_mid.
Qed.

(** Parsing a printed URL gives it back.  Every URL with a scheme, a host and
    a path that is empty or starts with a slash survives printing and parsing,
    query included.  On the strings of a program the constructor stays inside the
    string exactly when the string is empty or has a colon somewhere: without one
    it steps over the end and reads behind the terminator. *)
Theorem Url_roundtrip (u : Url) (s : bytes) :
  (wf_url u → parse_url (sv_of_string (render_url u)) = Ret u) ∧
  (parse_url (sv_of_string s) = Undef ↔ s ≠ [] ∧ ":"%char ∉ s) ∧
  (s = [] ∨ ":"%char ∈ s → ∃ u', parse_url (sv_of_string s) = Ret u').
Proof.
  assert (s = [] ∨ ":"%char ∈ s → ∃ u', parse_url (sv_of_string s) = Ret u') as Hret.
  { intros [->|Hin]; [by eexists|].
    destruct (split_first (is_char ":"%char) s) as [Hn | (l1 & c & l2 & -> & H1 & ->%is_char_true)].
    - apply Forall_not_char in Hn. done.
    - apply Forall_not_char in H1. destruct (parse_url_colon l1 l2 H1) as (u' & -> & _). eauto. }
  split_and!; [apply parse_url_render | | done].
  split; [|intros [? ?]; by apply parse_url_no_colon].
  intros Hu. destruct (decide (s = [])) as [Hs|Hs].
  { destruct Hret as (u' & Hr); [auto|]. congruence. }
  split; [done|]. intros Hin. destruct Hret as (u' & Hr); [auto|]. congruence.
Qed.

Lemma Url_roundtrip_witness :
  parse_url (sv_of_string (bs "http://www.example.org:80/a/b?x=1"))
  = Ret (MkUrl (bs "http") (bs "www.example.org:80") (bs "/a/b") (bs "x=1")) ∧
  parse_url (sv_of_string (bs "http")) = Undef.
Proof.
  split.
  - refine (proj1 (Url_roundtrip (MkUrl (bs "http") (bs "www.example.org:80") (bs "/a/b") (bs "x=1"))
      []) _).
    split; cbn; [split; [discriminate|by_decide] | split; [discriminate|by_decide] | right; by_decide].
  - apply (Url_roundtrip (MkUrl [] [] [] []) (bs "http")). split; [discriminate | by_decide].
Defined.
