(* ===== verification/HttpMsg.v ===== *)
(** * HTTP messages (src/cppboot/net/http/header.h, request.h, request.cc,
    response.h, response.cc)

    Requests and replies as records, their header lists, and the bytes they are
    sent as.  The JSON library enters as the text its [dump] returns. *)

From S2P Require Import Prelude StdString StringView Status FormData Url.

Record Header : Type := Hdr { name : bytes; value : bytes }.

#[export] Instance Header_eq_dec : EqDecision Header.
Proof. solve_decision. Defined.

(** [set_header], the same loop in [Request] and [Response]. *)
Fixpoint set_header (n v : bytes) (headers : list Header) : list Header :=
  match headers with
  | [] => [Hdr n v]
  | i :: headers =>
      if bool_decide (name i = n) then Hdr (name i) v :: headers
      else i :: set_header n v headers
  end.

(** [Response::header] *)
Fixpoint header (n : bytes) (headers : list Header) : bytes :=
  match headers with
  | [] => []
  | i :: headers => if bool_decide (name i = n) then value i else header n headers
  end.

(** ** Request *)

Record Request : Type := Req {
  req_method : bytes;
  req_uri : bytes;
  http_version_major : option Z;      (* [None]: never assigned *)
  http_version_minor : option Z;
  req_headers : list Header;
  req_content : bytes;
  req_path : bytes;
  req_subpath : bytes;
  req_params : FormData;
  req_host : bytes;
  req_url : Url;
}.

(** [Request()] *)
Definition new_request : Request :=
  Req [] [] None None [] [] [] [] no_values [] (MkUrl [] [] [] []).

(** [Request(method, raw_url)] *)
Definition make_request (method raw_url : bytes) : outcome Request :=
  url ← parse_url (sv_of_string raw_url);
  if IsValid url then
    let uri := if bool_decide (raw_query url = []) then raw_path url
               else (raw_path url ++ bs "?") ++ raw_query url in
    Ret (Req method uri None None [] [] (raw_path url) [] no_values (host url) url)
  else Ret (Req method [] None None [] [] [] [] no_values [] url).

Definition request_set_header (n v : bytes) (r : Request) : Request :=
  Req (req_method r) (req_uri r) (http_version_major r) (http_version_minor r)
    (set_header n v (req_headers r)) (req_content r) (req_path r) (req_subpath r)
    (req_params r) (req_host r) (req_url r).

Definition Param (key : option bytes) (r : Request) : bytes := Get key (req_params r).

(** [Request::to_buffers] *)
Definition request_to_buffers (r : Request) : bytes :=
  req_method r ++ bs " " ++
  (if bool_decide (raw_query (req_url r) = []) then raw_path (req_url r)
   else raw_path (req_url r) ++ bs "?" ++ raw_query (req_url r)) ++
  bs " HTTP/1.0" ++ CRLF ++
  bs "Host: " ++ host (req_url r) ++ CRLF ++
  bs "Accept: */*" ++ CRLF ++
  (if bool_decide (req_content r = []) then []
   else bs "Content-Length: " ++ utoa (len (req_content r)) ++ CRLF) ++
  bs "TcpConnection: close" ++ CRLF ++ CRLF ++
  (if bool_decide (req_content r = []) then [] else req_content r).

(** ** Response *)

Inductive status_type : Set :=
  | ok | created | accepted | no_content | multiple_choices | moved_permanently
  | moved_temporarily | not_modified | bad_request | unauthorized | forbidden
  | not_found | internal_server_error | not_implemented | bad_gateway
  | service_unavailable.

#[export] Instance status_type_eq_dec : EqDecision status_type.
Proof. solve_decision. Defined.

Definition status_number (s : status_type) : Z :=
  match s with
  | ok => 200 | created => 201 | accepted => 202 | no_content => 204
  | multiple_choices => 300 | moved_permanently => 301 | moved_temporarily => 302
  | not_modified => 304 | bad_request => 400 | unauthorized => 401 | forbidden => 403
  | not_found => 404 | internal_server_error => 500 | not_implemented => 501
  | bad_gateway => 502 | service_unavailable => 503
  end.

(** [status_strings] and their [to_buffer] *)
Definition status_line (s : status_type) : bytes :=
  match s with
  | ok => bs "HTTP/1.0 200 OK"
  | created => bs "HTTP/1.0 201 Created"
  | accepted => bs "HTTP/1.0 202 Accepted"
  | no_content => bs "HTTP/1.0 204 No Content"
  | multiple_choices => bs "HTTP/1.0 300 Multiple Choices"
  | moved_permanently => bs "HTTP/1.0 301 Moved Permanently"
  | moved_temporarily => bs "HTTP/1.0 302 Moved Temporarily"
  | not_modified => bs "HTTP/1.0 304 Not Modified"
  | bad_request => bs "HTTP/1.0 400 Bad Request"
  | unauthorized => bs "HTTP/1.0 401 Unauthorized"
  | forbidden => bs "HTTP/1.0 403 Forbidden"
  | not_found => bs "HTTP/1.0 404 Not Found"
  | internal_server_error => bs "HTTP/1.0 500 Internal Server Error"
  | not_implemented => bs "HTTP/1.0 501 Not Implemented"
  | bad_gateway => bs "HTTP/1.0 502 Bad Gateway"
  | service_unavailable => bs "HTTP/1.0 503 Service Unavailable"
  end ++ CRLF.

Record Response : Type := Resp {
  status : option status_type;        (* [None]: never assigned *)
  headers : list Header;
  content : bytes;
}.

(** [Response()] leaves the status unassigned. *)
Definition new_response : Response := Resp None [] [].

Definition name_value_separator : bytes := bs ": ".
Definition crlf : bytes := CRLF.

(** The loop of [to_buffers]. *)
Definition header_buffers (h : Header) : list bytes :=
  [name h; name_value_separator; value h; crlf].

Definition to_buffers (r : Response) : outcome (list bytes) :=
  s ← or_undef (status r);
  Ret ([status_line s] ++ concat (header_buffers <$> headers r) ++ [crlf] ++ [content r]).

(** [stock_replies] *)
Definition stock_page (title h1 : bytes) : bytes :=
  bs "<html>" ++ bs "<head><title>" ++ title ++ bs "</title></head>" ++
  bs "<body><h1>" ++ h1 ++ bs "</h1></body>" ++ bs "</html>".

Definition stock_content (s : status_type) : bytes :=
  match s with
  | ok => []
  | created => stock_page (bs "Created") (bs "201 Created")
  | accepted => stock_page (bs "Accepted") (bs "202 Accepted")
  | no_content => stock_page (bs "No Content") (bs "204 Content")
  | multiple_choices => stock_page (bs "Multiple Choices") (bs "300 Multiple Choices")
  | moved_permanently => stock_page (bs "Moved Permanently") (bs "301 Moved Permanently")
  | moved_temporarily => stock_page (bs "Moved Temporarily") (bs "302 Moved Temporarily")
  | not_modified => stock_page (bs "Not Modified") (bs "304 Not Modified")
  | bad_request => stock_page (bs "Bad Request") (bs "400 Bad Request")
  | unauthorized => stock_page (bs "Unauthorized") (bs "401 Unauthorized")
  | forbidden => stock_page (bs "Forbidden") (bs "403 Forbidden")
  | not_found => stock_page (bs "Not Found") (bs "404 Not Found")
  | internal_server_error => stock_page (bs "Internal Server Error") (bs "500 Internal Server Error")
  | not_implemented => stock_page (bs "Not Implemented") (bs "501 Not Implemented")
  | bad_gateway => stock_page (bs "Bad Gateway") (bs "502 Bad Gateway")
  | service_unavailable => stock_page (bs "Service Unavailable") (bs "503 Service Unavailable")
  end.

(** The status, the body and the two headers the writers share. *)
Definition write_body (code : status_type) (body type : bytes) (r : Response) : Response :=
  Resp (Some code)
    (set_header (bs "Content-Type") type
       (set_header (bs "Content-Length") (utoa (len body)) (headers r)))
    body.

Definition stock_reply (s : status_type) : Response :=
  write_body s (stock_content s) (bs "text/html") new_response.

Definition WriteText (code : status_type) (body : bytes) : Response → Response :=
  write_body code body (bs "text/plain").
Definition WriteHtml (code : status_type) (body : bytes) : Response → Response :=
  write_body code body (bs "text/html").

Section write_json.
Context {json : Type} (dump : json → bytes).
Definition WriteJson (code : status_type) (body : json) : Response → Response :=
  write_body code (dump body) (bs "application/json").
End write_json.

(** * Properties *)

(** ** Header lists as finite maps that keep the order of arrival *)

Lemma header_set_same n v hs : header n (set_header n v hs) = v.
Proof.
  induction hs as [|h hs IH]; cbn; [by rewrite bool_decide_true|].
  case_bool_decide as Hn; cbn; [by rewrite bool_decide_true | by rewrite bool_decide_false].
Qed.

Lemma header_set_other n n' v hs : n ≠ n' → header n' (set_header n v hs) = header n' hs.
Proof.
  intros Hne. induction hs as [|h hs IH]; cbn; [by rewrite bool_decide_false|].
  case_bool_decide as Hn; cbn; [|by rewrite IH].
  subst n. by rewrite !bool_decide_false.
Qed.

Lemma set_header_names n v hs :
  name <$> set_header n v hs =
  (name <$> hs) ++ (if bool_decide (n ∈ name <$> hs) then [] else [n]).
Proof.
  induction hs as [|h hs IH]; [done|].
  cbn [set_header]. rewrite !fmap_cons. destruct (decide (name h = n)) as [Hn|Hn].
  - rewrite (bool_decide_true (name h = n)) by done.
    rewrite bool_decide_true by (apply elem_of_cons; auto).
    by rewrite fmap_cons, app_nil_r.
  - rewrite (bool_decide_false (name h = n)) by done. rewrite fmap_cons, IH. cbn [app].
    do 2 f_equal.
    rewrite (bool_decide_ext (n ∈ name h :: (name <$> hs)) (n ∈ name <$> hs)); [done|].
    rewrite elem_of_cons. intuition congruence.
Qed.

Lemma set_header_nodup n v hs : NoDup (name <$> hs) → NoDup (name <$> set_header n v hs).
Proof.
  rewrite set_header_names. intros H. case_bool_decide as Hn; [by rewrite app_nil_r|].
  apply NoDup_app. split_and!; [done| |apply NoDup_singleton].
  intros x Hx ->%list_elem_of_singleton. done.
Qed.

Lemma header_elem n v hs : NoDup (name <$> hs) → Hdr n v ∈ hs → header n hs = v.
Proof.
  induction hs as [|h hs IH]; [set_solver|]. cbn.
  intros [Hn Hd]%NoDup_cons [<-|Hin]%elem_of_cons; cbn; [by rewrite bool_decide_true|].
  rewrite bool_decide_false; [by apply IH|]. intros <-. apply Hn.
  apply list_elem_of_fmap. by exists (Hdr (name h) v).
Qed.

Lemma header_absent n hs : n ∉ name <$> hs → header n hs = [].
Proof.
  induction hs as [|h hs IH]; [done|]. cbn. intros [Hne Hn]%not_elem_of_cons.
  rewrite bool_decide_false by congruence. by apply IH.
Qed.

Lemma status_number_inj s t : status_number s = status_number t → s = t.
Proof. by destruct s, t. Qed.

(** The status line names the number of the status. *)
Lemma status_line_number s : ∃ reason,
  status_line s = bs "HTTP/1.0 " ++ utoa (status_number s) ++ bs " " ++ reason ++ CRLF ∧
  (CR ∉ reason) ∧ LF ∉ reason.
Proof.
  exists (take (length (status_line s) - 15) (drop 13 (status_line s))).
  destruct s; (split; [vm_compute; reflexivity | split; by_decide]).
Qed.

(** Header lists behave as finite maps that keep the order of arrival, and a
    reply always describes its own body.  [set_header] changes one name and leaves
    every other value, never makes a name occur twice, and adds a new name at the
    end; after any of the writers (and in every stock reply) the status is the
    one asked for, the content is the body, [Content-Length] is its length in
    decimal and [Content-Type] is the writer's, while all other headers stay. *)
Theorem Response_describes_body (code : status_type) (body type n v : bytes) (r : Response) :
  NoDup (name <$> headers r) →
  let r' := write_body code body type r in
  NoDup (name <$> headers r') ∧
  status r' = Some code ∧ content r' = body ∧
  dec_value (header (bs "Content-Length") (headers r')) = len (content r') ∧
  header (bs "Content-Type") (headers r') = type ∧
  (n ≠ bs "Content-Length" → n ≠ bs "Content-Type" →
   header n (headers r') = header n (headers r)) ∧
  (name <$> headers r) `prefix_of` (name <$> headers r') ∧
  (NoDup (name <$> set_header n v (headers r)) ∧
   header n (set_header n v (headers r)) = v ∧
   ∀ n', n ≠ n' → header n' (set_header n v (headers r)) = header n' (headers r)) ∧
  dec_value (header (bs "Content-Length") (headers (stock_reply code)))
  = len (content (stock_reply code)).
Proof.
  intros Hd. cbn [write_body headers status content].
  assert (bs "Content-Type" ≠ bs "Content-Length") as Hne by done.
  split_and!; try done.
  - by do 2 apply set_header_nodup.
  - rewrite header_set_other, header_set_same by done. apply utoa_value. lia.
  - apply header_set_same.
  - intros H1 H2. by rewrite !header_set_other.
  - rewrite !set_header_names. by do 2 apply prefix_app_r.
  - by apply set_header_nodup.
  - apply header_set_same.
  - intros n' Hn. by apply header_set_other.
  - unfold stock_reply, write_body. cbn [headers content].
    rewrite header_set_other, header_set_same by done. apply utoa_value. lia.
Qed.

Lemma Response_describes_body_witness :
  let r' := write_body not_found (bs "Not found") (bs "text/plain")
              (Resp None [Hdr (bs "X") (bs "1"); Hdr (bs "Content-Length") (bs "7")] []) in
  dec_value (header (bs "Content-Length") (headers r')) = len (content r') ∧
  header (bs "X") (headers r') = bs "1".
Proof.
  destruct (Response_describes_body not_found (bs "Not found") (bs "text/plain") (bs "X") []
    (Resp None [Hdr (bs "X") (bs "1"); Hdr (bs "Content-Length") (bs "7")] [])
    ltac:(by_decide)) as (_ & _ & _ & H1 & _ & H2 & _).
  split; [exact H1 | apply H2; discriminate].
Defined.
