(* ===== verification/RequestParser.v ===== *)
(** * The HTTP request parser (src/cppboot/net/http/server/request_parser.h,
    request_parser.cc)

    [consume] is the character-driven state machine, [parse] its loop over a
    chunk of input with the decoding of the URI at the end.  [headers.back()] of
    an empty vector and an [int] that overflows are undefined; the theorems say
    when the machine meets them, and that it reads back what a client prints. *)

From S2P Require Import Prelude StdString StringView StrUtil Status FormData Url HttpMsg.

Inductive result_type : Set := good | bad | indeterminate.

Inductive state : Set :=
  | method_start | method | uri
  | http_version_h | http_version_t_1 | http_version_t_2 | http_version_p
  | http_version_slash | http_version_major_start | http_version_major_
  | http_version_minor_start | http_version_minor_
  | expecting_newline_1 | header_line_start | header_lws | header_name
  | space_before_header_value | header_value | expecting_newline_2 | expecting_newline_3.

#[export] Instance state_eq_dec : EqDecision state.
Proof. solve_decision. Defined.
#[export] Instance result_eq_dec : EqDecision result_type.
Proof. solve_decision. Defined.

(** ** Character classes, on the [int] a [char] converts to *)

(** The constructor and [reset]. *)
Definition reset : state := method_start.

Definition is_char (c : Z) : bool := (0 <=? c) && (c <=? 127).
Definition is_ctl (c : Z) : bool := ((0 <=? c) && (c <=? 31)) || (c =? 127).
Definition is_tspecial (c : Z) : bool :=
  bool_decide (c ∈ (uchar <$> bs "()<>@,;:\/[]?={} ") ++ [uchar DQ; uchar HT]).
Definition is_digit (c : Z) : bool := (48 <=? c) && (c <=? 57).

(** A character that may not stand in a method or a header name. *)
Definition not_token (c : Z) : bool := negb (is_char c) || is_ctl c || is_tspecial c.

(** ** Updates of the request *)

Definition map_method (f : bytes → bytes) (r : Request) : Request :=
  Req (f (req_method r)) (req_uri r) (http_version_major r) (http_version_minor r)
    (req_headers r) (req_content r) (req_path r) (req_subpath r) (req_params r)
    (req_host r) (req_url r).
Definition map_uri (f : bytes → bytes) (r : Request) : Request :=
  Req (req_method r) (f (req_uri r)) (http_version_major r) (http_version_minor r)
    (req_headers r) (req_content r) (req_path r) (req_subpath r) (req_params r)
    (req_host r) (req_url r).
Definition set_versions (major minor : option Z) (r : Request) : Request :=
  Req (req_method r) (req_uri r) major minor
    (req_headers r) (req_content r) (req_path r) (req_subpath r) (req_params r)
    (req_host r) (req_url r).
Definition set_headers (hs : list Header) (r : Request) : Request :=
  Req (req_method r) (req_uri r) (http_version_major r) (http_version_minor r)
    hs (req_content r) (req_path r) (req_subpath r) (req_params r)
    (req_host r) (req_url r).
Definition set_content (c : bytes) (r : Request) : Request :=
  Req (req_method r) (req_uri r) (http_version_major r) (http_version_minor r)
    (req_headers r) c (req_path r) (req_subpath r) (req_params r)
    (req_host r) (req_url r).
Definition set_path (p : bytes) (f : FormData) (r : Request) : Request :=
  Req (req_method r) (req_uri r) (http_version_major r) (http_version_minor r)
    (req_headers r) (req_content r) p (req_subpath r) f
    (req_host r) (req_url r).

(** [headers.back()], undefined on an empty vector. *)
Definition back_header (f : Header → Header) (r : Request) : outcome Request :=
  h ← or_undef (last (req_headers r));
  Ret (set_headers (take (length (req_headers r) - 1) (req_headers r) ++ [f h]) r).
Definition push_name (c : ascii) (h : Header) : Header := Hdr (name h ++ [c]) (value h).
Definition push_value (c : ascii) (h : Header) : Header := Hdr (name h) (value h ++ [c]).

(** [v * 10 + input - '0'] in [int] *)
Definition next_digit (v : option Z) (input : Z) : outcome (option Z) :=
  v ← or_undef v;
  a ← int_result (v * 10);
  b ← int_result (a + input);
  c ← int_result (b - 48);
  Ret (Some c).

(** ** [consume] *)

Definition consume (st : state) (req : Request) (input : ascii)
    : outcome (result_type * state * Request) :=
  let c := schar input in
  let eqc x := bool_decide (input = x) in
  let go st req := Ret (indeterminate, st, req) in
  let fail := Ret (bad, st, req) in
  match st with
  | method_start =>
      if not_token c then fail else go method (map_method (λ m, m ++ [input]) req)
  | method =>
      if eqc SP then go uri req
      else if not_token c then fail
      else go method (map_method (λ m, m ++ [input]) req)
  | uri =>
      if eqc SP then go http_version_h req
      else if is_ctl c then fail
      else go uri (map_uri (λ u, u ++ [input]) req)
  | http_version_h => if eqc "H"%char then go http_version_t_1 req else fail
  | http_version_t_1 => if eqc "T"%char then go http_version_t_2 req else fail
  | http_version_t_2 => if eqc "T"%char then go http_version_p req else fail
  | http_version_p => if eqc "P"%char then go http_version_slash req else fail
  | http_version_slash =>
      if eqc "/"%char then go http_version_major_start (set_versions (Some 0) (Some 0) req)
      else fail
  | http_version_major_start =>
      if is_digit c then
        v ← next_digit (http_version_major req) c;
        go http_version_major_ (set_versions v (http_version_minor req) req)
      else fail
  | http_version_major_ =>
      if eqc "."%char then go http_version_minor_start req
      else if is_digit c then
        v ← next_digit (http_version_major req) c;
        go http_version_major_ (set_versions v (http_version_minor req) req)
      else fail
  | http_version_minor_start =>
      if is_digit c then
        v ← next_digit (http_version_minor req) c;
        go http_version_minor_ (set_versions (http_version_major req) v req)
      else fail
  | http_version_minor_ =>
      if eqc CR then go expecting_newline_1 req
      else if is_digit c then
        v ← next_digit (http_version_minor req) c;
        go http_version_minor_ (set_versions (http_version_major req) v req)
      else fail
  | expecting_newline_1 => if eqc LF then go header_line_start req else fail
  | header_line_start =>
      if eqc CR then go expecting_newline_3 req
      else if negb (bool_decide (req_headers req = [])) && (eqc SP || eqc HT)
      then go header_lws req
      else if not_token c then fail
      else
        req ← back_header (push_name input) (set_headers (req_headers req ++ [Hdr [] []]) req);
        go header_name req
  | header_lws =>
      if eqc CR then go expecting_newline_2 req
      else if eqc SP || eqc HT then go header_lws req
      else if is_ctl c then fail
      else req ← back_header (push_value input) req; go header_value req
  | header_name =>
      if eqc ":"%char then go space_before_header_value req
      else if not_token c then fail
      else req ← back_header (push_name input) req; go header_name req
  | space_before_header_value => if eqc SP then go header_value req else fail
  | header_value =>
      if eqc CR then go expecting_newline_2 req
      else if is_ctl c then fail
      else req ← back_header (push_value input) req; go header_value req
  | expecting_newline_2 => if eqc LF then go header_line_start req else fail
  | expecting_newline_3 => if eqc LF then Ret (good, st, req) else fail
  end.

(** ** [UrlDecode] *)

(** The value of a hexadecimal digit. *)
Definition hex_value (c : ascii) : option Z :=
  let n := uchar c in
  if (48 <=? n) && (n <=? 57) then Some (n - 48)
  else if (65 <=? n) && (n <=? 70) then Some (n - 55)
  else if (97 <=? n) && (n <=? 102) then Some (n - 87)
  else None.

(** The digits of [is >> std::hex >> value] from at most two characters: a "0x"
    without digits behind it is no number. *)
Definition hex_digits (s : bytes) : option Z :=
  match s with
  | [] => None
  | c :: s =>
      match hex_value c with
      | None => None
      | Some n =>
          match s with
          | [] => Some n
          | d :: _ =>
              if bool_decide (n = 0 ∧ c = "0"%char ∧ (d = "x"%char ∨ d = "X"%char)) then None
              else match hex_value d with Some k => Some (n * 16 + k) | None => Some n end
          end
      end
  end.

(** The whole extraction: blanks are skipped, then a sign is taken. *)
Definition extract_hex (s : bytes) : option Z :=
  match skip_spaces s with
  | c :: s' =>
      if bool_decide (c = "-"%char) then Z.opp <$> hex_digits s'
      else if bool_decide (c = "+"%char) then hex_digits s'
      else hex_digits (c :: s')
  | [] => None
  end.

(** The [for] loop from index [i]; the flag is the returned [bool]. *)
Fixpoint UrlDecode_loop (fuel : nat) (s : bytes) (i : nat) (out : bytes) : outcome (bool * bytes) :=
  match fuel with
  | O => OutOfFuel
  | S fuel =>
      match s !! i with
      | None => Ret (true, out)
      | Some c =>
          if bool_decide (c = "%"%char) then
            if (i + 3 <=? length s)%nat then
              match extract_hex (take 2 (drop (S i) s)) with
              | Some value => UrlDecode_loop fuel s (S (i + 2)) (out ++ [char_of value])
              | None => Ret (false, out)
              end
            else Ret (false, out)
          else if bool_decide (c = "+"%char) then UrlDecode_loop fuel s (S i) (out ++ [SP])
          else UrlDecode_loop fuel s (S i) (out ++ [c])
      end
  end.

Definition UrlDecode (s : bytes) : outcome (bool * bytes) :=
  UrlDecode_loop (S (length s)) s 0 [].

(** ** [parse] *)

Definition parse_uri (req : Request) : outcome Request :=
  let sep := str_find_char (req_uri req) "?"%char 0 in
  if sep =? npos then Ret (set_path (req_uri req) (req_params req) req)
  else
    path ← str_substr (req_uri req) 0 sep;
    query ← str_substr (req_uri req) (sep + 1) npos;
    '(_, params) ← Parse (sv_of_string query) (req_params req);
    Ret (set_path path params req).

(** What [parse] does when a request is complete; [rest] is [begin, end). *)
Definition finish (req : Request) (rest : bytes) : outcome Request :=
  let req := set_content rest req in
  '(_, url_decode) ← UrlDecode (req_uri req);
  parse_uri (map_uri (λ _, url_decode) req).

(** The result, the input left, the state of the parser and the request. *)
Fixpoint parse (st : state) (req : Request) (input : bytes)
    : outcome (result_type * bytes * state * Request) :=
  match input with
  | [] => Ret (indeterminate, [], st, req)
  | c :: input =>
      '(result, st, req) ← consume st req c;
      match result with
      | indeterminate => parse st req input
      | bad => Ret (bad, input, st, req)
      | good => req ← finish req input; Ret (good, input, st, req)
      end
  end.

(** * Properties *)

(** ** Safety of the machine *)

(** What each state relies on. *)
Definition inv (st : state) (req : Request) : Prop :=
  match st with
  | http_version_major_start | http_version_major_ | http_version_minor_start
  | http_version_minor_ =>
      ∃ m n, http_version_major req = Some m ∧ http_version_minor req = Some n ∧
             0 <= m <= INT_MAX ∧ 0 <= n <= INT_MAX
  | header_lws | header_name | space_before_header_value | header_value
  | expecting_newline_2 => req_headers req ≠ []
  | _ => True
  end.

(** The character is a version digit that takes the number past [INT_MAX]. *)
Definition overflows (st : state) (req : Request) (c : ascii) : bool :=
  let over v := is_digit (schar c) && (INT_MAX <? default 0 v * 10 + schar c) in
  match st with
  | http_version_major_start | http_version_major_ => over (http_version_major req)
  | http_version_minor_start | http_version_minor_ => over (http_version_minor req)
  | _ => false
  end.

Lemma next_digit_spec v c : 0 <= v <= INT_MAX → is_digit c = true →
  if INT_MAX <? v * 10 + c then next_digit (Some v) c = Undef
  else next_digit (Some v) c = Ret (Some (v * 10 + c - 48)) ∧ 0 <= v * 10 + c - 48 <= INT_MAX.
Proof.
  unfold is_digit, next_digit. intros Hv [H1 H2]%andb_true_iff. bool_hyps.
  cbn [or_undef mbind outcome_bind]. unfold int_result, INT_MIN, INT_MAX in *.
  destruct (_ <? v * 10 + c) eqn:E; bool_hyps.
  - destruct ((_ <=? v * 10) && _) eqn:E1; [|done]. cbn [mbind outcome_bind].
    destruct ((_ <=? v * 10 + c) && _) eqn:E2; [|done]. bool_hyps. lia.
  - destruct ((_ <=? v * 10) && _) eqn:E1; [|lia]. cbn [mbind outcome_bind].
    destruct ((_ <=? v * 10 + c) && _) eqn:E2; [|lia]. cbn [mbind outcome_bind].
    destruct ((_ <=? v * 10 + c - 48) && _) eqn:E3; [|lia]. cbn. split; [done|lia].
Qed.

Lemma back_header_spec f req hs h :
  req_headers req = hs ++ [h] → back_header f req = Ret (set_headers (hs ++ [f h]) req).
Proof.
  intros H. unfold back_header. rewrite H, last_snoc. cbn [or_undef mbind outcome_bind].
  rewrite length_app. cbn [length]. rewrite Nat.add_sub. by rewrite take_app_length.
Qed.

Lemma headers_back req : req_headers req ≠ [] → ∃ hs h, req_headers req = hs ++ [h].
Proof. intros H. destruct (req_headers req) as [|h hs _] using rev_ind; [done|]. eauto. Qed.

Lemma back_header_ret f req : req_headers req ≠ [] →
  ∃ req', back_header f req = Ret req' ∧ req_headers req' ≠ [] ∧
          req_uri req' = req_uri req.
Proof.
  intros (hs & h & Hh)%headers_back. rewrite (back_header_spec f req hs h Hh).
  eexists. split_and!; [done | | done]. cbn. by destruct hs.
Qed.

(** One version digit, in any of the four states that take one. *)
Lemma digit_step v n c :
  v = Some n → 0 <= n <= INT_MAX → is_digit (schar c) = true →
  next_digit v (schar c)
  = if INT_MAX <? default 0 v * 10 + schar c then Undef
    else Ret (Some (n * 10 + schar c - 48)).
Proof.
  intros -> Hn Hd. pose proof (next_digit_spec n (schar c) Hn Hd) as Hs. cbn [default from_option id].
  destruct (_ <? _); [by rewrite Hs|]. by destruct Hs as [-> _].
Qed.

Lemma digit_range n c : 0 <= n <= INT_MAX → is_digit c = true → (INT_MAX <? n * 10 + c) = false →
  0 <= n * 10 + c - 48 <= INT_MAX.
Proof.
  intros Hn Hd Ho. pose proof (next_digit_spec n c Hn Hd) as Hs. rewrite Ho in Hs. apply Hs.
Qed.

(** A step never throws, and is undefined exactly when a version overflows; it
    keeps the invariant, and adds at most its character to the URI. *)
Definition step_ok (st : state) (req : Request) (c : ascii)
    (o : outcome (result_type * state * Request)) : Prop :=
  ∃ r st' req', o = Ret (r, st', req') ∧ inv st' req' ∧
    (req_uri req' = req_uri req ∨ req_uri req' = req_uri req ++ [c]) ∧
    (r = indeterminate ∨ st' = st ∧ req' = req).

Lemma step_ok_ret st req c r st' req' :
  inv st' req' → (req_uri req' = req_uri req ∨ req_uri req' = req_uri req ++ [c]) →
  (r = indeterminate ∨ st' = st ∧ req' = req) → step_ok st req c (Ret (r, st', req')).
Proof. intros. by exists r, st', req'. Qed.

Lemma step_ok_back st req c f req1 st1 :
  req_headers req1 ≠ [] → req_uri req1 = req_uri req → st1 = header_name ∨ st1 = header_value →
  step_ok st req c (req' ← back_header f req1; Ret (indeterminate, st1, req')).
Proof.
  intros Hh Hu Hst1. destruct (back_header_ret f req1 Hh) as (req2 & -> & Hh2 & Hu2).
  exists indeterminate, st1, req2. rewrite Hu2, Hu.
  split_and!; [done | by destruct Hst1 as [->| ->] | auto | auto].
Qed.

Lemma app_nonempty {A} (l : list A) x : l ++ [x] ≠ [].
Proof. by destruct l. Qed.

#[local] Hint Resolve step_ok_ret step_ok_back app_nonempty : core.

Lemma consume_total st req c : inv st req →
  if overflows st req c then consume st req c = Undef
  else step_ok st req c (consume st req c).
Proof.
  assert (0 <= 0 <= INT_MAX) as H0 by done.
  intros Hinv. destruct st; cbn [overflows consume inv] in *;
    try (repeat case_match; first
      [ apply step_ok_ret; cbn; auto; by (eauto || exists 0, 0) | apply step_ok_back; cbn; auto; fail ]).
  all: try (destruct Hinv as (m & n & Hm & Hn & Hmr & Hnr)).
  1-4: repeat (case_bool_decide; [subst c; cbn; apply step_ok_ret; cbn; eauto 10|]);
    destruct (is_digit (schar c)) eqn:Hd; cbn [andb]; [|apply step_ok_ret; cbn; eauto 10];
    first [rewrite (digit_step _ m) by done | rewrite (digit_step _ n) by done];
    destruct (INT_MAX <? _) eqn:Ho; [done|]; rewrite ?Hm, ?Hn in Ho; cbn in Ho;
    first [pose proof (digit_range _ _ Hmr Hd Ho) | pose proof (digit_range _ _ Hnr Hd Ho)];
    apply step_ok_ret; cbn; eauto 10.
  case_bool_decide; [apply step_ok_ret; cbn; auto|].
  case_bool_decide as Hh; cbn [negb andb].
  - case_match; [apply step_ok_ret; cbn; auto|]. apply step_ok_back; cbn; auto.
  - repeat case_match; [apply step_ok_ret; cbn; auto..|]. apply step_ok_back; cbn; auto.
Qed.

(** [UrlDecode] ends, and its output is no longer than its input. *)
Lemma UrlDecode_loop_total fuel s i out : (length s < fuel + i)%nat → (i ≤ length s)%nat →
  ∃ b out', UrlDecode_loop fuel s i out = Ret (b, out') ∧
            (length out' ≤ length out + (length s - i))%nat.
Proof.
  revert i out. induction fuel as [|fuel IH]; intros i out Hf Hi0; cbn [UrlDecode_loop].
  { lia. }
  destruct (s !! i) as [c|] eqn:Hi; [|eexists _, _; split; [done|lia]].
  apply lookup_lt_Some in Hi.
  assert (∀ k x, (0 < k)%nat → (i + k ≤ length s)%nat → ∃ b out',
    UrlDecode_loop fuel s (i + k) (out ++ [x]) = Ret (b, out') ∧
    (length out' ≤ length out + (length s - i))%nat) as Hnext.
  { intros k x Hk Hle. destruct (IH (i + k)%nat (out ++ [x])) as (b & o & -> & Hl); [lia..|].
    exists b, o. split; [done|]. rewrite length_app in Hl. cbn in Hl. lia. }
  case_bool_decide; [|case_bool_decide].
  - destruct (i + 3 <=? length s)%nat eqn:Hle; [|eexists _, _; split; [done|lia]].
    apply Nat.leb_le in Hle. destruct (extract_hex _); [|eexists _, _; split; [done|lia]].
    replace (S (i + 2)) with (i + 3)%nat by lia. apply Hnext; lia.
  - replace (S i) with (i + 1)%nat by lia. apply Hnext; lia.
  - replace (S i) with (i + 1)%nat by lia. apply Hnext; lia.
Qed.

Lemma UrlDecode_total s : ∃ b out, UrlDecode s = Ret (b, out) ∧ (length out ≤ length s)%nat.
Proof.
  destruct (UrlDecode_loop_total (S (length s)) s 0 []) as (b & out & ? & Hl); [lia..|].
  exists b, out. split; [done|]. cbn in Hl. lia.
Qed.

(** The path and the parameters of a decoded URI. *)
Definition uri_split (u : bytes) (f : FormData) : bytes * FormData :=
  match scan (StdString.is_char "?"%char) u 0 with
  | Some i => (take i u, Form (insert_all (pair_of <$> live (split amp (drop (S i) u))) (values_ f)))
  | None => (u, f)
  end.

Lemma parse_uri_split req : fits (req_uri req ++ [NUL]) →
  parse_uri req = Ret (set_path (uri_split (req_uri req) (req_params req)).1
                         (uri_split (req_uri req) (req_params req)).2 req).
Proof.
  intros Hf. autorewrite with len in Hf. unfold parse_uri, uri_split, str_find_char.
  destruct (split_first (StdString.is_char "?"%char) (req_uri req))
    as [Hn | (l1 & c & l2 & Heq & H1 & Hc)].
  - rewrite str_find_if_miss0, Z.eqb_refl by done. by rewrite scan_miss.
  - rewrite Heq in *. rewrite str_find_if_hit0 by done. autorewrite with len in Hf.
    rewrite (proj2 (Z.eqb_neq _ _)) by (unfold npos; lia).
    rewrite scan_hit by done. cbn [Nat.add]. unfold str_substr.
    rewrite !(proj2 (Z.ltb_ge _ _)) by len_lia. cbn [mbind outcome_bind].
    rewrite slice_app_l. change (l1 ++ c :: l2) with (l1 ++ [c] ++ l2).
    rewrite app_assoc. replace (len l1 + 1) with (len (l1 ++ [c])) by len_lia.
    rewrite slice_app_r by (unfold npos; lia).
    rewrite Parse_spec by (apply sv_ok_string; lia). cbn [mbind outcome_bind fst snd].
    rewrite chars_of_string, Nat.add_0_r. replace (S (length l1)) with (length (l1 ++ [c]))
      by (rewrite length_app; cbn; lia).
    by rewrite drop_app_length, <-app_assoc, take_app_length.
Qed.

(** What a complete request becomes. *)
Definition finished (req : Request) (rest : bytes) (uri : bytes) : Request :=
  let '(path, params) := uri_split uri (req_params req) in
  set_path path params (map_uri (λ _, uri) (set_content rest req)).

Lemma finish_spec req rest : fits (req_uri req ++ [NUL]) →
  ∃ b u, UrlDecode (req_uri req) = Ret (b, u) ∧ finish req rest = Ret (finished req rest u).
Proof.
  intros Hf. destruct (UrlDecode_total (req_uri req)) as (b & u & Hu & Hl).
  exists b, u. split; [done|]. unfold finish. cbn [req_uri set_content]. rewrite Hu.
  cbn [mbind outcome_bind]. autorewrite with len in Hf.
  rewrite parse_uri_split by (cbn; len_lia). unfold finished. cbn [map_uri set_content req_uri req_params].
  by destruct (uri_split u (req_params req)).
Qed.

(** The machine run over input that neither completes nor breaks it. *)
Fixpoint feed (st : state) (req : Request) (input : bytes) : option (state * Request) :=
  match input with
  | [] => Some (st, req)
  | c :: input =>
      match consume st req c with
      | Ret (indeterminate, st, req) => feed st req input
      | _ => None
      end
  end.

Lemma parse_total st req input :
  inv st req → fits (req_uri req ++ input ++ [NUL]) →
  (∃ r rest st' req', parse st req input = Ret (r, rest, st', req') ∧
     (r = indeterminate → inv st' req' ∧ rest = [] ∧ feed st req input = Some (st', req')) ∧
     rest `suffix_of` input) ∨
  (parse st req input = Undef ∧ ∃ a c b st' req', input = a ++ c :: b ∧
     feed st req a = Some (st', req') ∧ overflows st' req' c = true).
Proof.
  revert st req. induction input as [|c input IH]; intros st req Hi Hf; cbn [parse feed].
  { left. eexists _, _, _, _. split; [done|]. split; [done|]. done. }
  autorewrite with len in Hf.
  pose proof (consume_total st req c Hi) as Hc. destruct (overflows st req c) eqn:Ho.
  { right. rewrite Hc. split; [done|]. by exists [], c, input, st, req. }
  destruct Hc as (r & st' & req' & Hcons & Hi' & Hu & _). rewrite Hcons.
  cbn [mbind outcome_bind].
  assert (len (req_uri req') <= len (req_uri req) + 1) as Hlu.
  { destruct Hu as [->| ->]; [lia|]. len_lia. }
  destruct r.
  - destruct (finish_spec req' input) as (b & u & _ & ->); [len_lia|].
    left. eexists _, _, _, _. split; [done|]. split; [done|]. by exists [c].
  - left. eexists _, _, _, _. split; [done|]. split; [done|]. by exists [c].
  - destruct (IH st' req' Hi') as [(r & rest & st2 & req2 & -> & Hr & [k ->]) | (-> & a & d & b & ?)];
      [len_lia | |].
    + left. eexists _, _, _, _. split; [done|]. split; [done|]. by exists (c :: k).
    + right. split; [done|]. destruct H as (st2 & req2 & -> & Hfd & Ho2).
      exists (c :: a), d, b, st2, req2. cbn [feed app]. by rewrite Hcons.
Qed.

(** ** Chunks *)

Lemma feed_app st req a b :
  feed st req (a ++ b) = '(st, req) ← feed st req a; feed st req b.
Proof.
  revert st req. induction a as [|c a IH]; intros st req; [done|]. cbn [feed app].
  destruct (consume st req c) as [[[[] st'] req']| | | |]; done || apply IH.
Qed.

Lemma parse_feed st req a b st' req' :
  feed st req a = Some (st', req') → parse st req (a ++ b) = parse st' req' b.
Proof.
  revert st req. induction a as [|c a IH]; intros st req; cbn [feed parse app]; [by intros [= <- <-]|].
  destruct (consume st req c) as [[[[] st1] req1]| | | |]; try done. apply IH.
Qed.

Lemma feed_cons st req c l st' req' :
  consume st req c = Ret (indeterminate, st', req') →
  feed st req (c :: l) = feed st' req' l.
Proof. intros H. cbn [feed]. by rewrite H. Qed.

Lemma finish_content req a b :
  finish req b = (λ r, set_content b r) <$> finish req a.
Proof.
  unfold finish. destruct req as [m u v1 v2 hs ct p sp f h url]. cbn [req_uri set_content].
  destruct (UrlDecode u) as [[k d]| | | |]; cbn [mbind outcome_bind fmap outcome_fmap]; [|done..].
  unfold parse_uri. cbn [map_uri set_content set_path req_uri req_params].
  destruct (_ =? npos); [done|].
  destruct (str_substr d 0 _); cbn [mbind outcome_bind]; [|done..].
  destruct (str_substr d _ npos); cbn [mbind outcome_bind]; [|done..].
  by destruct (Parse _ f) as [[]| | | |].
Qed.

(** ** What a client prints *)

(** Percent-encoding, with [keep] the characters that stay as they are. *)
Definition hex_digit (n : Z) : ascii := char_of (if n <? 10 then 48 + n else 55 + n).
Definition encode_char (keep : ascii → bool) (c : ascii) : bytes :=
  if keep c then [c] else ["%"%char; hex_digit (uchar c / 16); hex_digit (uchar c mod 16)].
Definition url_encode (keep : ascii → bool) (s : bytes) : bytes := concat (encode_char keep <$> s).

Definition render_header (h : Header) : bytes := name h ++ bs ": " ++ value h ++ CRLF.
Definition render_request (m u : bytes) (major minor : Z) (hs : list Header) (body : bytes) : bytes :=
  m ++ bs " " ++ u ++ bs " HTTP/" ++ utoa major ++ bs "." ++ utoa minor ++ CRLF ++
  concat (render_header <$> hs) ++ CRLF ++ body.

Definition is_token (s : bytes) : Prop := s ≠ [] ∧ Forall (λ c, not_token (schar c) = false) s.
Definition no_ctl (s : bytes) : Prop := Forall (λ c, is_ctl (schar c) = false) s.

(** What a kept character may be. *)
Definition keeps (keep : ascii → bool) : Prop :=
  ∀ c, keep c = true → c ≠ "%"%char ∧ c ≠ "+"%char ∧ c ≠ SP ∧ is_ctl (schar c) = false.

Lemma extract_hex_encode c :
  extract_hex [hex_digit (uchar c / 16); hex_digit (uchar c mod 16)] = Some (uchar c).
Proof.
  assert (forallb (λ c, bool_decide
    (extract_hex [hex_digit (uchar c / 16); hex_digit (uchar c mod 16)] = Some (uchar c)))
    all_chars = true) as H by (vm_compute; reflexivity).
  apply (bool_decide_eq_true_1 _ (forall_chars _ H c)).
Qed.

Lemma UrlDecode_loop_encode keep fuel pre s out : keeps keep →
  (length (url_encode keep s) < fuel)%nat →
  UrlDecode_loop fuel (pre ++ url_encode keep s) (length pre) out = Ret (true, out ++ s).
Proof.
  intros Hk. revert fuel pre out. induction s as [|c s IH]; intros fuel pre out Hf;
    (destruct fuel as [|fuel]; [cbn in Hf; lia|]); cbn [UrlDecode_loop].
  { rewrite lookup_ge_None_2 by (rewrite length_app; cbn; lia). by rewrite app_nil_r. }
  change (url_encode keep (c :: s)) with (encode_char keep c ++ url_encode keep s) in *.
  assert (∀ x, out ++ [x] ++ s = (out ++ [x]) ++ s) as Hout by (intros; by rewrite <-app_assoc).
  unfold encode_char in *. destruct (keep c) eqn:Hc.
  - destruct (Hk c Hc) as (H1 & H2 & _). cbn [app] in *. rewrite list_lookup_middle by done.
    rewrite !bool_decide_false by done.
    change (pre ++ c :: url_encode keep s) with (pre ++ [c] ++ url_encode keep s).
    rewrite app_assoc. replace (S (length pre)) with (length (pre ++ [c]))
      by (rewrite length_app; cbn; lia).
    rewrite IH by (cbn in Hf; lia). by rewrite <-Hout.
  - cbn [app] in *. rewrite list_lookup_middle by done. rewrite bool_decide_true by done.
    set (h1 := hex_digit (uchar c / 16)) in *. set (h2 := hex_digit (uchar c mod 16)) in *.
    rewrite (proj2 (Nat.leb_le _ _)) by (rewrite length_app; cbn; lia).
    change (pre ++ "%"%char :: h1 :: h2 :: url_encode keep s)
      with (pre ++ ["%"%char] ++ [h1; h2] ++ url_encode keep s).
    rewrite app_assoc.
    replace (drop (S (length pre)) _) with ([h1; h2] ++ url_encode keep s).
    2:{ replace (S (length pre)) with (length (pre ++ ["%"%char])) by (rewrite length_app; cbn; lia).
        by rewrite drop_app_length. }
    change (take 2 ([h1; h2] ++ url_encode keep s)) with [h1; h2].
    unfold h1, h2. rewrite extract_hex_encode, char_of_uchar. fold h1 h2.
    rewrite app_assoc. replace (S (length pre + 2)) with (length ((pre ++ ["%"%char]) ++ [h1; h2]))
      by (rewrite !length_app; cbn; lia).
    rewrite IH by (cbn in Hf; lia). by rewrite <-Hout.
Qed.

Lemma UrlDecode_encode keep s : keeps keep → UrlDecode (url_encode keep s) = Ret (true, s).
Proof. intros Hk. apply (UrlDecode_loop_encode keep _ [] s []); [done | lia]. Qed.

Lemma url_encode_chars keep s : keeps keep →
  Forall (λ c, c ≠ SP ∧ is_ctl (schar c) = false) (url_encode keep s).
Proof.
  intros Hk. induction s as [|c s IH]; [constructor|].
  change (url_encode keep (c :: s)) with (encode_char keep c ++ url_encode keep s).
  apply Forall_app. split; [|done]. unfold encode_char. destruct (keep c) eqn:Hc.
  { destruct (Hk c Hc) as (_ & _ & ? & ?). by repeat constructor. }
  assert (∀ d, forallb (λ c, bool_decide
    (hex_digit (d (uchar c)) ≠ SP ∧ is_ctl (schar (hex_digit (d (uchar c)))) = false)) all_chars = true →
    hex_digit (d (uchar c)) ≠ SP ∧ is_ctl (schar (hex_digit (d (uchar c)))) = false) as Hh.
  { intros d H. apply (bool_decide_eq_true_1 _ (forall_chars _ H c)). }
  repeat constructor; [done | by apply (Hh (λ n, n / 16)); vm_compute
    | by apply (Hh (λ n, n / 16)); vm_compute | by apply (Hh (λ n, n mod 16)); vm_compute
    | by apply (Hh (λ n, n mod 16)); vm_compute].
Qed.

(** ** Reading back, segment by segment *)

Lemma token_not_special c : not_token (schar c) = false →
  c ≠ SP ∧ c ≠ ":"%char ∧ c ≠ CR ∧ c ≠ HT.
Proof.
  intros Hc. assert (forallb (λ c, not_token (schar c) ||
    bool_decide (c ≠ SP ∧ c ≠ ":"%char ∧ c ≠ CR ∧ c ≠ HT)) all_chars = true) as H
    by (vm_compute; reflexivity).
  pose proof (forall_chars _ H c) as Hx. cbn in Hx. rewrite Hc in Hx.
  by apply bool_decide_eq_true in Hx.
Qed.

Lemma ctl_CR c : is_ctl (schar c) = false → c ≠ CR.
Proof. by intros Hc ->. Qed.

Lemma feed_method req t : Forall (λ c, not_token (schar c) = false) t →
  feed method req t = Some (method, map_method (λ m, m ++ t) req).
Proof.
  intros Ht. revert req. induction Ht as [|c t Hc _ IH]; intros req; cbn [feed].
  { destruct req; unfold map_method, map_uri, set_headers; cbn. by rewrite app_nil_r. }
  cbn [consume]. destruct (token_not_special c Hc) as (? & _).
  rewrite bool_decide_false, Hc, IH by done. destruct req; unfold map_method, map_uri, set_headers; cbn. by rewrite <-app_assoc.
Qed.

Lemma feed_method_start req t : is_token t →
  feed method_start req t = Some (method, map_method (λ m, m ++ t) req).
Proof.
  intros [Hne Ht]. destruct Ht as [|c t Hc Ht]; [done|]. cbn [feed consume].
  rewrite Hc, feed_method by done. destruct req; unfold map_method, map_uri, set_headers; cbn. by rewrite <-app_assoc.
Qed.

Lemma feed_uri req u : Forall (λ c, c ≠ SP ∧ is_ctl (schar c) = false) u →
  feed uri req u = Some (uri, map_uri (λ m, m ++ u) req).
Proof.
  intros Ht. revert req. induction Ht as [|c t [Hs Hc] _ IH]; intros req; cbn [feed consume].
  { destruct req; unfold map_method, map_uri, set_headers; cbn. by rewrite app_nil_r. }
  rewrite bool_decide_false, Hc, IH by done. destruct req; unfold map_method, map_uri, set_headers; cbn. by rewrite <-app_assoc.
Qed.

Lemma digit_char_facts c : is_digit_char c = true →
  is_digit (schar c) = true ∧ schar c = uchar c ∧ c ≠ "."%char ∧ c ≠ CR.
Proof.
  intros Hc. assert (forallb (λ c, negb (is_digit_char c) || bool_decide
    (is_digit (schar c) = true ∧ schar c = uchar c ∧ c ≠ "."%char ∧ c ≠ CR)) all_chars = true) as H
    by (vm_compute; reflexivity).
  pose proof (forall_chars _ H c) as Hx. cbn in Hx. rewrite Hc in Hx.
  by apply bool_decide_eq_true in Hx.
Qed.

(** A run of version digits, for either number: [upd] stores it. *)
Lemma feed_digits (st : state) (get : Request → option Z) (upd : Z → Request → Request) ds req v :
  (∀ req c, is_digit_char c = true → consume st req c =
     (w ← next_digit (get req) (schar c);
      Ret (indeterminate, st, upd (default 0 w) req))) →
  (∀ req v, get (upd v req) = Some v) → (∀ req v w, upd v (upd w req) = upd v req) →
  Forall (λ c, is_digit_char c = true) ds →
  get req = Some v → 0 <= v → dec_value_from v ds <= INT_MAX - 48 →
  feed st req ds = Some (st, match ds with [] => req | _ => upd (dec_value_from v ds) req end).
Proof.
  intros Hst Hget Hupd Hd. revert req v.
  induction Hd as [|c ds Hc Hds IH]; intros req v Hv H0 Hmax; [done|].
  destruct (digit_char_facts c Hc) as (Hdig & Hsc & _).
  pose proof Hc as Hc'. unfold is_digit_char in Hc'. bool_hyps.
  change (dec_value_from v (c :: ds)) with (dec_value_from (v * 10 + (uchar c - 48)) ds) in *.
  pose proof (dec_value_from_ge (v * 10 + (uchar c - 48)) ds ltac:(lia) Hds) as Hge.
  cbn [feed]. rewrite (Hst req c Hc), (digit_step _ v) by (done || lia).
  rewrite Hv, Hsc. cbn [default from_option id]. rewrite (proj2 (Z.ltb_ge _ _)) by lia.
  cbn [mbind outcome_bind default from_option id].
  replace (v * 10 + uchar c - 48) with (v * 10 + (uchar c - 48)) by lia.
  rewrite (IH _ (v * 10 + (uchar c - 48))) by (done || lia || apply Hget).
  destruct ds; [done|]. by rewrite Hupd.
Qed.

Definition version_max : Z := INT_MAX - 48.

Lemma feed_major req ds n : ds ≠ [] → Forall (λ c, is_digit_char c = true) ds →
  dec_value ds <= version_max → http_version_major req = Some 0 → http_version_minor req = Some n →
  feed http_version_major_start req ds
  = Some (http_version_major_, set_versions (Some (dec_value ds)) (Some n) req).
Proof.
  intros Hne Hd Hmax Hm Hn. unfold version_max in Hmax.
  set (upd := λ v r, set_versions (Some v) (http_version_minor r) r).
  assert (feed http_version_major_ req ds =
    Some (http_version_major_, match ds with [] => req | _ => upd (dec_value_from 0 ds) req end)) as He.
  { apply (feed_digits _ http_version_major upd); try done.
    intros r c Hc. destruct (digit_char_facts c Hc) as (Hdig & _ & Hdot & _). cbn [consume].
    rewrite bool_decide_false, Hdig by done. unfold upd, next_digit.
    destruct (http_version_major r) as [v|]; cbn; [|done].
    destruct (int_result _) as [a| | | |]; cbn; [|done..].
    destruct (int_result _) as [b| | | |]; cbn; [|done..].
    by destruct (int_result _). }
  destruct ds as [|c ds]; [done|]. rewrite <-Hn.
  etrans; [|exact He]. cbn [feed]. apply Forall_cons in Hd as [Hc _].
  destruct (digit_char_facts c Hc) as (Hdig & _ & Hdot & _). cbn [consume].
  by rewrite bool_decide_false, Hdig by done.
Qed.

Lemma feed_minor req ds n : ds ≠ [] → Forall (λ c, is_digit_char c = true) ds →
  dec_value ds <= version_max → http_version_minor req = Some 0 → http_version_major req = Some n →
  feed http_version_minor_start req ds
  = Some (http_version_minor_, set_versions (Some n) (Some (dec_value ds)) req).
Proof.
  intros Hne Hd Hmax Hm Hn. unfold version_max in Hmax.
  set (upd := λ v r, set_versions (http_version_major r) (Some v) r).
  assert (feed http_version_minor_ req ds =
    Some (http_version_minor_, match ds with [] => req | _ => upd (dec_value_from 0 ds) req end)) as He.
  { apply (feed_digits _ http_version_minor upd); try done.
    intros r c Hc. destruct (digit_char_facts c Hc) as (Hdig & _ & _ & Hdot). cbn [consume].
    rewrite bool_decide_false, Hdig by done. unfold upd, next_digit.
    destruct (http_version_minor r) as [v|]; cbn; [|done].
    destruct (int_result _) as [a| | | |]; cbn; [|done..].
    destruct (int_result _) as [b| | | |]; cbn; [|done..].
    by destruct (int_result _). }
  destruct ds as [|c ds]; [done|]. rewrite <-Hn.
  etrans; [|exact He]. cbn [feed]. apply Forall_cons in Hd as [Hc _].
  destruct (digit_char_facts c Hc) as (Hdig & _ & _ & Hdot). cbn [consume].
  by rewrite bool_decide_false, Hdig by done.
Qed.

(** *** Headers *)

Lemma feed_name req hs h t : req_headers req = hs ++ [h] →
  Forall (λ c, not_token (schar c) = false) t →
  feed header_name req t
  = Some (header_name, set_headers (hs ++ [Hdr (name h ++ t) (value h)]) req).
Proof.
  intros Hh Ht. revert req h Hh. induction Ht as [|c t Hc _ IH]; intros req h Hh; cbn [feed].
  { destruct req, h; unfold set_headers; cbn in *. rewrite app_nil_r. by subst. }
  cbn [consume]. destruct (token_not_special c Hc) as (_ & ? & _).
  rewrite bool_decide_false, Hc, (back_header_spec _ _ hs h) by done. cbn [mbind outcome_bind].
  rewrite (IH _ (push_name c h)) by done. destruct req; unfold map_method, map_uri, set_headers; cbn. by rewrite <-app_assoc.
Qed.

Lemma feed_value req hs h t : req_headers req = hs ++ [h] → no_ctl t →
  feed header_value req t
  = Some (header_value, set_headers (hs ++ [Hdr (name h) (value h ++ t)]) req).
Proof.
  intros Hh Ht. revert req h Hh. induction Ht as [|c t Hc _ IH]; intros req h Hh; cbn [feed].
  { destruct req, h; unfold set_headers; cbn in *. rewrite app_nil_r. by subst. }
  cbn [consume]. apply ctl_CR in Hc as Hcr.
  rewrite bool_decide_false, Hc, (back_header_spec _ _ hs h) by done. cbn [mbind outcome_bind].
  rewrite (IH _ (push_value c h)) by done. destruct req; unfold map_method, map_uri, set_headers; cbn. by rewrite <-app_assoc.
Qed.

Definition header_ok (h : Header) : Prop := is_token (name h) ∧ no_ctl (value h).

Lemma feed_header req h : header_ok h →
  feed header_line_start req (render_header h)
  = Some (header_line_start, set_headers (req_headers req ++ [h]) req).
Proof.
  intros [[Hne Ht] Hv]. destruct h as [[|c n] v]; [done|]. cbn [name value] in *.
  apply Forall_cons in Ht as [Hc Ht]. unfold render_header. change (bs ": ") with [":"%char; SP]. cbn [name value app].
  destruct (token_not_special c Hc) as (H1 & _ & H2 & H3).
  cbn [feed consume]. rewrite (bool_decide_false (c = CR)), (bool_decide_false (c = SP)),
    (bool_decide_false (c = HT)), Hc by done.
  cbn [orb]. rewrite andb_false_r.
  rewrite (back_header_spec _ _ (req_headers req) (Hdr [] [])) by done. cbn [mbind outcome_bind].
  rewrite feed_app, (feed_name _ (req_headers req) (push_name c (Hdr [] []))) by done.
  cbn [mbind option_bind app]. do 2 erewrite feed_cons by reflexivity.
  rewrite feed_app, (feed_value _ (req_headers req) (Hdr (c :: n) [])) by done.
  cbn [mbind option_bind app]. do 2 erewrite feed_cons by reflexivity.
  by destruct req.
Qed.

Lemma feed_headers req hs : Forall header_ok hs →
  feed header_line_start req (concat (render_header <$> hs))
  = Some (header_line_start, set_headers (req_headers req ++ hs) req).
Proof.
  intros Hh. revert req. induction Hh as [|h hs Hh _ IH]; intros req.
  { cbn. destruct req; unfold set_headers; cbn. by rewrite app_nil_r. }
  change (concat (render_header <$> h :: hs))
    with (render_header h ++ concat (render_header <$> hs)).
  rewrite feed_app, feed_header by done. cbn [mbind option_bind]. rewrite IH.
  destruct req; unfold map_method, map_uri, set_headers; cbn. by rewrite <-app_assoc.
Qed.

(** A whole request, up to the line feed that completes it. *)
Lemma feed_request m u major minor hs :
  is_token m → Forall (λ c, c ≠ SP ∧ is_ctl (schar c) = false) u →
  0 <= major <= version_max → 0 <= minor <= version_max → Forall header_ok hs →
  feed method_start new_request
    (m ++ bs " " ++ u ++ bs " HTTP/" ++ utoa major ++ bs "." ++ utoa minor ++ CRLF ++
     concat (render_header <$> hs) ++ [CR])
  = Some (expecting_newline_3,
      Req m u (Some major) (Some minor) hs [] [] [] no_values [] (MkUrl [] [] [] [])).
Proof.
  intros Hm Hu Hmaj Hmin Hhs.
  change (bs " ") with [SP]. change (bs ".") with ["."%char].
  change (bs " HTTP/") with [SP; "H"%char; "T"%char; "T"%char; "P"%char; "/"%char].
  rewrite feed_app, feed_method_start by done. cbn [mbind option_bind app].
  erewrite feed_cons by reflexivity.
  rewrite feed_app, feed_uri by done. cbn [mbind option_bind app].
  do 6 erewrite feed_cons by reflexivity.
  rewrite feed_app, (feed_major _ _ 0); [|apply utoa_nonempty; lia | apply utoa_digits; lia
    | rewrite utoa_value; lia | done | done].
  cbn [mbind option_bind]. erewrite feed_cons by reflexivity.
  rewrite feed_app, (feed_minor _ _ (dec_value (utoa major))); [|apply utoa_nonempty; lia
    | apply utoa_digits; lia | rewrite utoa_value; lia | done | done].
  cbn [mbind option_bind]. do 2 erewrite feed_cons by reflexivity.
  rewrite feed_app, feed_headers by done. cbn [mbind option_bind].
  erewrite feed_cons by reflexivity. cbn [feed].
  rewrite !utoa_value by lia. done.
Qed.

(** The end of a request in wire form: whatever its target, it is complete, and
    only decoding and splitting the target are left to do. *)
Lemma parse_render m u major minor hs body :
  is_token m → Forall (λ c, c ≠ SP ∧ is_ctl (schar c) = false) u → fits (u ++ [NUL]) →
  0 <= major <= version_max → 0 <= minor <= version_max → Forall header_ok hs →
  ∃ b d, UrlDecode u = Ret (b, d) ∧
    parse method_start new_request (render_request m u major minor hs body)
    = Ret (good, body, expecting_newline_3,
        finished (Req m u (Some major) (Some minor) hs [] [] [] no_values [] (MkUrl [] [] [] []))
          body d).
Proof.
  intros Hm Hu Hf Hmaj Hmin Hhs. unfold render_request.
  match goal with |- context [parse _ _ ?msg] =>
    replace msg with ((m ++ bs " " ++ u ++ bs " HTTP/" ++ utoa major ++ bs "." ++
      utoa minor ++ CRLF ++ concat (render_header <$> hs) ++ [CR]) ++ LF :: body)
      by (rewrite <-!app_assoc; done) end.
  rewrite (parse_feed _ _ _ _ _ _ (feed_request m u major minor hs Hm Hu Hmaj Hmin Hhs)).
  cbn [parse consume]. rewrite bool_decide_true by done. cbn [mbind outcome_bind].
  match goal with |- context [finish ?r body] =>
    destruct (finish_spec r body Hf) as (b & d & Hd & ->) end.
  by exists b, d.
Qed.

(** C3: the parser reads back what a client prints.  A request line with a token
    method and a percent-encoded URI, a version, headers with token names and
    values without control characters, and a body: fed to a fresh parser it is
    [good], nothing is left unread, and the request holds the method, the decoded
    URI, the version, the headers in order and the body.  The path and the
    parameters come from splitting the decoded URI at its first question mark,
    so an escaped question mark in the path cuts the path too. *)
Theorem Request_roundtrip (keep : ascii → bool) (m u : bytes) (major minor : Z)
    (hs : list Header) (body : bytes) :
  keeps keep → is_token m → fits (url_encode keep u ++ [NUL]) →
  0 <= major <= version_max → 0 <= minor <= version_max → Forall header_ok hs →
  ∃ req, parse method_start new_request
           (render_request m (url_encode keep u) major minor hs body)
         = Ret (good, body, expecting_newline_3, req) ∧
    req_method req = m ∧ req_uri req = u ∧
    http_version_major req = Some major ∧ http_version_minor req = Some minor ∧
    req_headers req = hs ∧ req_content req = body ∧
    (req_path req, req_params req) = uri_split u no_values.
Proof.
  intros Hk Hm Hf Hmaj Hmin Hhs.
  destruct (parse_render m (url_encode keep u) major minor hs body) as (b & d & Hd & ->);
    try done; [by apply url_encode_chars|].
  rewrite UrlDecode_encode in Hd by done. injection Hd as <- <-.
  eexists. split; [done|]. unfold finished. cbn [req_params].
  destruct (uri_split u no_values) as [p f]. cbn. done.
Qed.

(** An indeterminate result has read everything. *)
Lemma parse_indeterminate st req input rest st' req' :
  parse st req input = Ret (indeterminate, rest, st', req') →
  rest = [] ∧ feed st req input = Some (st', req').
Proof.
  revert st req. induction input as [|c input IH]; intros st req; cbn [parse feed].
  { by intros [= <- <- <-]. }
  destruct (consume st req c) as [[[[] st1] req1]| | | |]; cbn [mbind outcome_bind]; try done.
  - by destruct (finish req1 input).
  - apply IH.
Qed.

(** Letters, digits and the characters a path is made of. *)
Definition plain_keep (c : ascii) : bool :=
  is_digit_char c || ((65 <=? uchar c) && (uchar c <=? 90)) ||
  ((97 <=? uchar c) && (uchar c <=? 122)) || bool_decide (c ∈ bs "/?=&-._~").

Lemma plain_keeps : keeps plain_keep.
Proof.
  intros c. assert (forallb (λ c, negb (plain_keep c) || bool_decide
    (c ≠ "%"%char ∧ c ≠ "+"%char ∧ c ≠ SP ∧ is_ctl (schar c) = false)) all_chars = true) as H
    by (vm_compute; reflexivity).
  pose proof (forall_chars _ H c) as Hx. cbn in Hx. intros Hc. rewrite Hc in Hx.
  by apply bool_decide_eq_true in Hx.
Qed.

Lemma Request_roundtrip_witness :
  url_encode plain_keep (bs "/a b?x=1") = bs "/a%20b?x=1" ∧
  ∃ req, parse method_start new_request
    (render_request (bs "POST") (url_encode plain_keep (bs "/a b?x=1")) 1 0
       [Hdr (bs "Host") (bs "h:80")] (bs "body"))
    = Ret (good, bs "body", expecting_newline_3, req) ∧
    req_path req = bs "/a b" ∧ req_content req = bs "body".
Proof.
  split; [vm_compute; reflexivity|].
  destruct (Request_roundtrip plain_keep (bs "POST") (bs "/a b?x=1") 1 0
    [Hdr (bs "Host") (bs "h:80")] (bs "body") plain_keeps)
    as (req & Hr & _ & _ & _ & _ & _ & Hc & Hp).
  - split; [discriminate | by_decide].
  - vm_compute. reflexivity.
  - by_decide.
  - by_decide.
  - constructor; [|constructor]. split; [split; [discriminate | by_decide] | by_decide].
  - exists req. split; [exact Hr|]. split; [|exact Hc].
    apply (f_equal fst) in Hp. cbn [fst] in Hp. rewrite Hp. vm_compute. reflexivity.
Defined.

(** Once the input is refused or complete, more of it changes nothing but what
    is left over. *)
Lemma parse_bad a st req st' req' rest b :
  parse st req a = Ret (bad, rest, st', req') →
  parse st req (a ++ b) = Ret (bad, rest ++ b, st', req').
Proof.
  revert st req. induction a as [|c a IH]; intros st req; [done|]. cbn [parse app].
  destruct (consume st req c) as [[[[] st1] req1]| | | |]; cbn [mbind outcome_bind]; try done.
  - destruct (finish req1 a); cbn; done.
  - by intros [= -> -> ->].
  - apply IH.
Qed.

Lemma parse_good a st req st' req' rest :
  parse st req a = Ret (good, rest, st', req') →
  req_content req' = rest ∧
  ∀ b, parse st req (a ++ b) = Ret (good, rest ++ b, st', set_content (rest ++ b) req').
Proof.
  revert st req. induction a as [|c a IH]; intros st req; [done|]. cbn [parse app].
  destruct (consume st req c) as [[[[] st1] req1]| | | |] eqn:Hc; cbn [mbind outcome_bind]; try done.
  - intros Hp. apply bind_Ret in Hp as (req2 & Hfin & [= -> -> ->]). split.
    + unfold finish in Hfin. apply bind_Ret in Hfin as ([k u] & _ & Hu).
      unfold parse_uri in Hu. case_match; [by injection Hu as <-|].
      apply bind_Ret in Hu as (p & _ & Hu). apply bind_Ret in Hu as (q & _ & Hu).
      apply bind_Ret in Hu as ([s f] & _ & [= <-]). done.
    + intros b. rewrite (finish_content req1 rest), Hfin. done.
  - apply IH.
Qed.

(** C26: the parser does not care how the input is cut, and cannot be broken by
    it.  From a fresh request any input either parses, with the rest of it
    returned when it is complete or refused, or drives one of the two version
    numbers past [INT_MAX]; nothing else is undefined, in particular
    [headers.back()] is never reached without a header.  While the result is
    indeterminate the parser can be continued with the next chunk as if the two
    were one; but once a request is complete, what later chunks bring is not part
    of its content. *)
Theorem parse_chunks (a b : bytes) :
  fits (a ++ b ++ [NUL]) →
  (match parse method_start new_request a with
   | Ret (indeterminate, _, st, req) =>
       parse method_start new_request (a ++ b) = parse st req b
   | Ret (good, rest, st, req) =>
       rest `suffix_of` a ∧ req_content req = rest ∧
       parse method_start new_request (a ++ b)
       = Ret (good, rest ++ b, st, set_content (rest ++ b) req)
   | Ret (bad, rest, st, req) =>
       parse method_start new_request (a ++ b) = Ret (bad, rest ++ b, st, req)
   | Undef =>
       ∃ a1 c a2 st req, a = a1 ++ c :: a2 ∧ feed method_start new_request a1 = Some (st, req) ∧
         overflows st req c = true
   | _ => False
   end).
Proof.
  intros Hf. pose proof (parse_total method_start new_request a I) as Ht.
  autorewrite with len in Hf. cbn [req_uri new_request] in Ht.
  destruct Ht as [(r & rest & st & req & Hp & Hi & Hs) | (Hp & Ho)]; [len_lia | |].
  - rewrite Hp. destruct r.
    + destruct (parse_good a method_start new_request st req rest Hp) as (Hc & Hb).
      split; [done|]. split; [done|]. apply Hb.
    + by apply parse_bad.
    + destruct (Hi eq_refl) as (_ & _ & Hfd). by apply parse_feed.
  - rewrite Hp. destruct Ho as (a1 & c & a2 & st & req & ?). by exists a1, c, a2, st, req.
Qed.

Lemma parse_chunks_witness :
  parse method_start new_request (bs "GET /" ++ bs " HTTP/1.0" ++ CRLF ++ CRLF)
  = parse uri (map_uri (λ _, bs "/") (map_method (λ _, bs "GET") new_request))
      (bs " HTTP/1.0" ++ CRLF ++ CRLF).
Proof.
  exact (parse_chunks (bs "GET /") (bs " HTTP/1.0" ++ CRLF ++ CRLF) ltac:(vm_compute; reflexivity)).
Defined.
