(* ===== verification/ServeMux.v ===== *)
(** * Request dispatch and the file server (src/cppboot/net/http/server/
    serve_mux.h, serve_mux.cc, file_server.h, file_server.cc)

    [ServeMux] keeps exact patterns in a map and the patterns that end in a slash
    in a list, longest first; [FileServer] turns the rest of a path into a file. *)

From S2P Require Import Prelude StdString StringView StrUtil Status FormData Url HttpMsg RequestParser.

Definition set_subpath (p : bytes) (r : Request) : Request :=
  Req (req_method r) (req_uri r) (http_version_major r) (http_version_minor r)
    (req_headers r) (req_content r) (req_path r) p (req_params r) (req_host r) (req_url r).

Section mux.
(** A handler: what it makes of the reply. *)
Context {Func : Type} (call : Func → Request → Response → outcome Response).

Record FuncEntry : Type := Entry { pattern : bytes; fn : Func }.

Record ServeMux : Type := Mux {
  funcs_ : gmap bytes FuncEntry;
  prefix_funcs_ : list FuncEntry;
}.

Definition new_mux : ServeMux := Mux ∅ [].

(** The loop that finds the place of a prefix pattern. *)
Fixpoint insert_prefix (entry : FuncEntry) (l : list FuncEntry) : list FuncEntry :=
  match l with
  | [] => [entry]
  | it :: l =>
      if len (pattern it) <? len (pattern entry) then entry :: it :: l
      else it :: insert_prefix entry l
  end.

Definition set_handler (pat : bytes) (func : Func) (m : ServeMux) : outcome ServeMux :=
  if bool_decide (pat = []) then Ret m
  else if bool_decide (is_Some (funcs_ m !! pat)) then Ret m
  else
    let entry := Entry pat func in
    let funcs := <[pat := entry]> (funcs_ m) in
    c ← or_undef (pat !! (length pat - 1)%nat);
    if bool_decide (c = "/"%char)
    then Ret (Mux funcs (insert_prefix entry (prefix_funcs_ m)))
    else Ret (Mux funcs (prefix_funcs_ m)).

(** The loop over the prefix patterns. *)
Fixpoint serve_prefix (l : list FuncEntry) (req : Request) (resp : Response)
    : outcome (Request * Response) :=
  match l with
  | [] => Ret (req, WriteText not_found (bs "Not found") resp)
  | i :: l =>
      hit ← StartsWithIgnoreCase (sv_of_string (req_path req)) (sv_of_string (pattern i));
      if (hit : bool) then
        sub ← str_substr (req_path req) (u64 (len (pattern i) - 1)) npos;
        let req := set_subpath sub req in
        resp ← call (fn i) req resp;
        Ret (req, resp)
      else serve_prefix l req resp
  end.

Definition ServeHttp (m : ServeMux) (req : Request) (resp : Response)
    : outcome (Request * Response) :=
  match funcs_ m !! req_path req with
  | Some entry => resp ← call (fn entry) req resp; Ret (req, resp)
  | None => serve_prefix (prefix_funcs_ m) req resp
  end.

(** The program's registrations, in order. *)
Fixpoint register (regs : list (bytes * Func)) (m : ServeMux) : outcome ServeMux :=
  match regs with
  | [] => Ret m
  | (p, f) :: regs => m ← set_handler p f m; register regs m
  end.
End mux.
Arguments ServeMux : clear implicits.
Arguments FuncEntry : clear implicits.

(** ** FileServer *)

Record FileServer : Type := Files { root_ : bytes; files_ : gmap bytes bytes }.

Definition AddFile (path content : bytes) (f : FileServer) : FileServer :=
  Files (root_ f) (<[path := content]> (files_ f)).
Definition set_root (root : bytes) (f : FileServer) : FileServer := Files root (files_ f).

Definition mappings : list (bytes * bytes) :=
  [(bs "gif", bs "image/gif"); (bs "htm", bs "text/html"); (bs "html", bs "text/html");
   (bs "jpg", bs "image/jpeg"); (bs "png", bs "image/png")].

Definition ExtensionToType (extension : bytes) : bytes :=
  match List.find (λ m, bool_decide (m.1 = extension)) mappings with
  | Some (_, mime_type) => mime_type
  | None => bs "text/plain"
  end.

(** [headers.resize(2)] *)
Definition resize2 (hs : list Header) : list Header :=
  take 2 hs ++ replicate (2 - length hs) (Hdr [] []).

(** The four assignments to the two headers. *)
Definition file_headers (n : Z) (type : bytes) (hs : list Header) : list Header :=
  <[1%nat := Hdr (bs "Content-Type") type]>
    (<[0%nat := Hdr (bs "Content-Length") (itoa n)]> (resize2 hs)).

Section file_server.
(** [ifstream] in binary mode: the content of a file that opens. *)
Context (open_file : bytes → option bytes).

(** What a system call sees of a string. *)
Definition c_path (l : bytes) : bytes := default l ((λ i, take i l) <$> scan (StdString.is_char NUL) l 0).

Definition serve_file (f : FileServer) (req : Request) (rep : Response) : outcome Response :=
  let request_path := req_subpath req in
  if bool_decide (request_path = []) || negb (bool_decide (head request_path = Some "/"%char)) ||
     negb (str_find request_path (bs "..") 0 =? npos)
  then Ret (stock_reply bad_request)
  else
    let request_path :=
      if bool_decide (last request_path = Some "/"%char)
      then request_path ++ bs "index.html" else request_path in
    let last_slash_pos := str_find_last_of request_path (bs "/") npos in
    let last_dot_pos := str_find_last_of request_path (bs ".") npos in
    extension ← (if negb (last_dot_pos =? npos) && (last_slash_pos <? last_dot_pos)
                 then str_substr request_path (u64 (last_dot_pos + 1)) npos else Ret []);
    let reply body :=
      Ret (Resp (Some ok)
             (file_headers (len body) (ExtensionToType extension) (headers rep)) body) in
    match files_ f !! request_path with
    | Some body => reply body
    | None =>
        match open_file (c_path (root_ f ++ request_path)) with
        | None => Ret (stock_reply not_found)
        | Some data => reply (content rep ++ data)
        end
    end.
End file_server.

(** * Properties *)

(** ** Dispatch *)

Section mux_props.
Context {Func : Type} (call : Func → Request → Response → outcome Response).
Implicit Types (m : ServeMux Func) (regs : list (bytes * Func)).

Definition longer (a b : FuncEntry Func) : Prop := len (pattern b) <= len (pattern a).

(** The list is sorted, longest first; it holds the registered patterns that end
    in a slash, and the map holds every entry under its own pattern. *)
Record mux_ok m : Prop := {
  mux_sorted : StronglySorted longer (prefix_funcs_ m);
  mux_prefix : ∀ e, e ∈ prefix_funcs_ m ↔
    funcs_ m !! pattern e = Some e ∧ last (pattern e) = Some "/"%char;
  mux_keys : ∀ p e, funcs_ m !! p = Some e → pattern e = p ∧ p ≠ [];
}.

Lemma elem_of_insert_prefix (e x : FuncEntry Func) l :
  x ∈ insert_prefix e l ↔ x = e ∨ x ∈ l.
Proof.
  induction l as [|y l IH]; cbn [insert_prefix]; [set_solver|].
  destruct (_ <? _); [set_solver|]. rewrite !elem_of_cons, IH. naive_solver.
Qed.

Lemma insert_prefix_sorted (e : FuncEntry Func) l :
  StronglySorted longer l → StronglySorted longer (insert_prefix e l).
Proof.
  induction 1 as [|y l Hl IH Hy]; cbn [insert_prefix]; [repeat constructor|].
  destruct (_ <? _) eqn:Hlt; bool_hyps.
  - constructor; [by constructor|]. constructor; [unfold longer; lia|].
    eapply Forall_impl; [done|]. unfold longer. intros z. lia.
  - constructor; [done|]. apply Forall_forall. intros x [->|Hx]%elem_of_insert_prefix.
    + unfold longer. lia.
    + by eapply Forall_forall in Hy.
Qed.

Lemma new_mux_ok : mux_ok new_mux.
Proof.
  split; cbn; [constructor | | intros p e; by rewrite lookup_empty].
  intros e. rewrite lookup_empty. set_solver.
Qed.

Lemma set_handler_spec p f m : mux_ok m →
  ∃ m', set_handler p f m = Ret m' ∧ mux_ok m' ∧
    (∀ q, funcs_ m' !! q =
       match funcs_ m !! q with
       | Some e => Some e
       | None => if bool_decide (p = q ∧ p ≠ []) then Some (Entry p f) else None
       end).
Proof.
  intros [Hs Hp Hk]. unfold set_handler. case_bool_decide as Hne.
  { exists m. split_and!; [done..|]. intros q. rewrite bool_decide_false by naive_solver.
    by destruct (funcs_ m !! q). }
  case_bool_decide as Hin.
  { exists m. split_and!; [done..|]. intros q. destruct (funcs_ m !! q) eqn:Hq; [done|].
    rewrite bool_decide_false; [done|]. intros [-> _]. rewrite Hq in Hin. by destruct Hin. }
  apply eq_None_not_Some in Hin.
  destruct (last p) as [c|] eqn:Hlast; [|by apply last_None in Hlast].
  pose proof Hlast as Hlast'. rewrite last_lookup in Hlast. replace (length p - 1)%nat with (pred (length p)) by lia.
  rewrite Hlast. cbn [or_undef mbind outcome_bind].
  assert (∀ l, (∀ e, e ∈ l ↔ <[p := Entry p f]> (funcs_ m) !! pattern e = Some e ∧
                             last (pattern e) = Some "/"%char) → StronglySorted longer l →
    mux_ok (Mux (<[p := Entry p f]> (funcs_ m)) l) ∧
    ∀ q, <[p := Entry p f]> (funcs_ m) !! q =
      match funcs_ m !! q with
      | Some e => Some e
      | None => if bool_decide (p = q ∧ p ≠ []) then Some (Entry p f) else None
      end) as Hok.
  { intros l Hl Hsl. split.
    - split; cbn; [done..|]. intros q e. rewrite lookup_insert_Some.
      intros [[<- <-]|[_ ?]]; [done | by apply Hk].
    - intros q. destruct (decide (p = q)) as [<-|Hpq].
      + rewrite lookup_insert_eq, Hin. by rewrite bool_decide_true.
      + rewrite lookup_insert_ne by done. rewrite bool_decide_false by naive_solver.
        by destruct (funcs_ m !! q). }
  assert (∀ e, funcs_ m !! pattern e = Some e → pattern e ≠ p) as Hnp by (intros e He <-; congruence).
  case_bool_decide as Hc; eexists; (split; [done|]); apply Hok.
  - intros e. rewrite elem_of_insert_prefix, Hp, lookup_insert_Some. split.
    + intros [->|[He Hl]]; [split; [by left | by cbn; rewrite Hlast', Hc]|].
      split; [right; split; [apply not_eq_sym; by apply Hnp | done] | done].
    + intros [[[_ <-]|[_ He]] Hl]; auto.
  - by apply insert_prefix_sorted.
  - intros e. rewrite Hp, lookup_insert_Some. split.
    + intros [He Hl]. split; [right; split; [apply not_eq_sym; by apply Hnp | done] | done].
    + intros [[[<- <-]|[_ He]] Hl]; [|done]. cbn in Hl. rewrite Hlast' in Hl. congruence.
  - done.
Qed.

(** The first non-empty registration of a pattern counts. *)
Fixpoint first_reg regs (p : bytes) : option Func :=
  match regs with
  | [] => None
  | (q, f) :: regs => if bool_decide (q = p ∧ q ≠ []) then Some f else first_reg regs p
  end.

Lemma register_spec regs m : mux_ok m →
  ∃ m', register regs m = Ret m' ∧ mux_ok m' ∧
    ∀ p, funcs_ m' !! p = match funcs_ m !! p with
                          | Some e => Some e
                          | None => Entry p <$> first_reg regs p
                          end.
Proof.
  revert m. induction regs as [|[q f] regs IH]; intros m Hm; cbn [register first_reg].
  { exists m. split_and!; [done..|]. intros p. by destruct (funcs_ m !! p). }
  destruct (set_handler_spec q f m Hm) as (m1 & -> & Hm1 & Hl1). cbn [mbind outcome_bind].
  destruct (IH m1 Hm1) as (m2 & -> & Hm2 & Hl2). exists m2. split_and!; [done..|].
  intros p. rewrite Hl2, Hl1. destruct (funcs_ m !! p); [done|].
  case_bool_decide as Hq; [|done]. by destruct Hq as [-> _].
Qed.
End mux_props.

(** The pattern is a prefix of the path, case aside. *)
Definition ci_prefix (p path : bytes) : Prop := (lower <$> p) `prefix_of` (lower <$> path).

Lemma lower_slash c : lower c = lower "/"%char → c = "/"%char.
Proof.
  intros Hc. assert (forallb (λ c, negb (lower c =? lower "/"%char) || bool_decide (c = "/"%char))
    all_chars = true) as H by (vm_compute; reflexivity).
  pose proof (forall_chars _ H c) as Hx. cbn beta in Hx. rewrite Hc, Z.eqb_refl in Hx.
  by apply bool_decide_eq_true in Hx.
Qed.

(** What is left of the path starts with the slash the pattern ends in. *)
Lemma subpath_slash p path :
  last p = Some "/"%char → ci_prefix p path → head (drop (length p - 1) path) = Some "/"%char.
Proof.
  intros [p' ->]%last_Some [k Hk]. rewrite length_app. cbn [length]. rewrite Nat.add_sub.
  assert (∃ c, path !! length p' = Some c ∧ lower c = lower "/"%char) as (c & Hc & Hl).
  { apply (f_equal (λ l, l !! length p')) in Hk. rewrite list_lookup_fmap in Hk.
    rewrite fmap_app, <-app_assoc in Hk. cbn [fmap list_fmap app] in Hk.
    rewrite <-(length_fmap lower p'), list_lookup_middle, length_fmap in Hk by done.
    destruct (path !! length p') as [c|]; [|done]. injection Hk as Hk. eauto. }
  apply lower_slash in Hl as ->. by rewrite (drop_S _ _ _ Hc).
Qed.

Section mux_dispatch.
Context {Func : Type} (call : Func → Request → Response → outcome Response).

Lemma serve_prefix_spec (l : list (FuncEntry Func)) req resp :
  StronglySorted longer l → fits (req_path req ++ [NUL]) →
  (∀ e, e ∈ l → pattern e ≠ [] ∧ fits (pattern e ++ [NUL])) →
  ((∀ e, e ∈ l → ¬ ci_prefix (pattern e) (req_path req)) ∧
   serve_prefix call l req resp = Ret (req, WriteText not_found (bs "Not found") resp)) ∨
  ∃ e, e ∈ l ∧ ci_prefix (pattern e) (req_path req) ∧
    (∀ e', e' ∈ l → ci_prefix (pattern e') (req_path req) → len (pattern e') <= len (pattern e)) ∧
    serve_prefix call l req resp =
      (let req' := set_subpath (drop (length (pattern e) - 1) (req_path req)) req in
       r ← call (fn e) req' resp; Ret (req', r)).
Proof.
  intros Hs Hf. induction Hs as [|e l Hs IH He]; intros Hl; cbn [serve_prefix].
  { left. split; [set_solver | done]. }
  destruct (Hl e) as [Hne Hfe]; [set_solver|]. autorewrite with len in Hf, Hfe.
  destruct (StartsWithIgnoreCase_chars (sv_of_string (req_path req)) (sv_of_string (pattern e)))
    as (b & -> & Hb); [apply sv_ok_string; lia..|].
  rewrite !chars_of_string in Hb. cbn [mbind outcome_bind].
  destruct b.
  - right. assert (ci_prefix (pattern e) (req_path req)) as Hci by by apply Hb.
    exists e. split_and!; [set_solver | done | |].
    + intros e' [->|He']%elem_of_cons _; [lia|]. eapply Forall_forall in He; [|done]. exact He.
    + assert (0 < len (pattern e)) by (destruct (pattern e); [done | len_lia]).
      pose proof (prefix_length _ _ Hci) as Hle. rewrite !length_fmap in Hle.
      rewrite u64_small by lia. unfold str_substr. rewrite (proj2 (Z.ltb_ge _ _)) by lia.
      cbn [mbind outcome_bind]. unfold slice.
      rewrite take_ge by (rewrite length_drop; unfold npos; lia).
      by replace (Z.to_nat (len (pattern e) - 1)) with (length (pattern e) - 1)%nat by lia.
  - assert (¬ ci_prefix (pattern e) (req_path req)) as Hci by by rewrite <-Hb.
    destruct IH as [[Hno ->] | (e' & He' & Hc & Hmax & ->)].
    + intros e' He'. apply Hl. set_solver.
    + left. split; [|done]. intros e' [->|He']%elem_of_cons; [done | by apply Hno].
    + right. exists e'. split_and!; [set_solver | done | | done].
      intros e2 [->|He2]%elem_of_cons Hc2; [done | by apply Hmax].
Qed.
End mux_dispatch.

(** C23: dispatch picks the handler of the exact path, else the longest prefix.
    Whatever patterns a program registers, registration succeeds, and the first
    handler of each non-empty pattern counts.  A request is handled by the
    handler of its exact path, unchanged; failing that, by the handler of a
    longest pattern that ends in a slash and is a prefix of the path, case aside,
    with the rest of the path, from that slash on, as its subpath; failing that,
    the reply is a 404. *)
Theorem ServeMux_dispatch {Func : Type} (call : Func → Request → Response → outcome Response)
    (regs : list (bytes * Func)) (req : Request) (resp : Response) :
  fits (req_path req ++ [NUL]) → Forall (λ r, fits (r.1 ++ [NUL])) regs →
  let path := req_path req in
  ∃ m, register regs new_mux = Ret m ∧
    match first_reg regs path with
    | Some f => ServeHttp call m req resp = (r ← call f req resp; Ret (req, r))
    | None =>
        ((∀ p f, first_reg regs p = Some f → last p = Some "/"%char → ¬ ci_prefix p path) ∧
         ServeHttp call m req resp = Ret (req, WriteText not_found (bs "Not found") resp)) ∨
        ∃ p f, first_reg regs p = Some f ∧ last p = Some "/"%char ∧ ci_prefix p path ∧
          (∀ p' f', first_reg regs p' = Some f' → last p' = Some "/"%char → ci_prefix p' path →
                    len p' <= len p) ∧
          let req' := set_subpath (drop (length p - 1) path) req in
          head (req_subpath req') = Some "/"%char ∧
          ServeHttp call m req resp = (r ← call f req' resp; Ret (req', r))
    end.
Proof.
  intros Hf Hregs path. destruct (register_spec regs new_mux new_mux_ok) as (m & -> & Hm & Hl).
  assert (∀ p, funcs_ m !! p = Entry p <$> first_reg regs p) as Hlk.
  { intros p. rewrite Hl. cbn. by rewrite lookup_empty. }
  exists m. split; [done|]. unfold ServeHttp. rewrite Hlk. fold path.
  destruct (first_reg regs path) as [f|] eqn:Hfr; [done|]. cbn [fmap option_fmap option_map].
  assert (∀ e, e ∈ prefix_funcs_ m ↔
    first_reg regs (pattern e) = Some (fn e) ∧ last (pattern e) = Some "/"%char) as Hpf.
  { intros e. rewrite (mux_prefix m Hm), Hlk. destruct e as [p f]; cbn.
    destruct (first_reg regs p) as [g|]; cbn; naive_solver. }
  assert (∀ p f, first_reg regs p = Some f → fits (p ++ [NUL])) as Hfits.
  { clear -Hregs. induction Hregs as [|[q g] regs Hq _ IH]; intros p f; [done|]. cbn.
    case_bool_decide as Hp; [|apply IH]. by destruct Hp as [<- _]. }
  destruct (serve_prefix_spec call (prefix_funcs_ m) req resp (mux_sorted m Hm) Hf)
    as [[Hno ->] | (e & He & Hc & Hmax & ->)].
  - intros e He. apply Hpf in He as [He Hlast]. split; [by destruct (pattern e) | by eapply Hfits].
  - left. split; [|done]. intros p f Hp Hlast. apply (Hno (Entry p f)). by apply Hpf.
  - right. apply Hpf in He as [He Hlast]. exists (pattern e), (fn e).
    split_and!; [done..| | |done].
    + intros p' f' Hp' Hlast' Hc'. apply (Hmax (Entry p' f')); [by apply Hpf | done].
    + by apply subpath_slash.
Qed.

(** Handlers that write their own name. *)
Definition demo_call (f : bytes) (req : Request) (resp : Response) : outcome Response :=
  Ret (WriteText ok f resp).
Definition request_for (path : bytes) : Request := set_path path no_values new_request.

Lemma ServeMux_dispatch_witness :
  ∃ m, register [(bs "/a/", bs "2"); (bs "/a/b", bs "3"); (bs "/a/b/", bs "1"); (bs "/a/b/", bs "x")]
         new_mux = Ret m ∧
    (∃ p f, p = bs "/a/b/" ∧ f = bs "1" ∧
       ServeHttp demo_call m (request_for (bs "/a/b/c")) new_response
       = (r ← demo_call f (set_subpath (bs "/c") (request_for (bs "/a/b/c"))) new_response;
          Ret (set_subpath (bs "/c") (request_for (bs "/a/b/c")), r))).
Proof.
  destruct (ServeMux_dispatch demo_call
    [(bs "/a/", bs "2"); (bs "/a/b", bs "3"); (bs "/a/b/", bs "1"); (bs "/a/b/", bs "x")]
    (request_for (bs "/a/b/c")) new_response) as (m & Hm & Hd).
  { vm_compute. reflexivity. }
  { repeat constructor. }
  exists m. split; [exact Hm|].
  change (first_reg _ (req_path (request_for (bs "/a/b/c")))) with (@None bytes) in Hd.
  destruct Hd as [[Hno _] | (p & f & Hp & Hlast & Hc & Hmax & _ & Hr)].
  - exfalso. apply (Hno (bs "/a/b/") (bs "1")); [reflexivity | reflexivity | unfold ci_prefix; by_decide].
  - pose proof (Hmax (bs "/a/b/") (bs "1") eq_refl eq_refl ltac:(unfold ci_prefix; by_decide)) as Hlen.
    cbn [first_reg] in Hp.
    repeat case_bool_decide; simplify_eq; destruct_and?; subst; try (exfalso; apply Hlen; reflexivity);
      try (vm_compute in Hlast; discriminate Hlast).
    exists (bs "/a/b/"), (bs "1"). split; [reflexivity|]. split; [reflexivity|]. exact Hr.
Defined.

(** ** Serving files *)

(** A path that may be opened: absolute below the root, with no ".." in it. *)
Definition safe_path (p : bytes) : Prop :=
  head p = Some "/"%char ∧ ∀ k, ¬ bs ".." `prefix_of` drop k p.

Lemma str_find_none l needle : fits l →
  (str_find l needle 0 =? npos) = true ↔ ∀ k, (k ≤ length l)%nat → ¬ needle `prefix_of` drop k l.
Proof.
  intros Hf. unfold str_find. rewrite (proj2 (Z.leb_le 0 _)) by lia. change (Z.to_nat 0) with 0%nat.
  rewrite drop_0, Z.eqb_eq, <-(search_None needle l 0). unfold to_pos.
  destruct (search needle l 0) as [i|] eqn:Hs; [|done].
  apply search_Some in Hs as (_ & Hi & _). unfold npos. split; [lia|done].
Qed.

(** The name behind the last slash, and its extension. *)
Definition file_name (p : bytes) : bytes := List.last (split "/"%char p) [].
Definition extension_of (p : bytes) : bytes :=
  let ps := split "."%char (file_name p) in
  if (length ps <=? 1)%nat then [] else List.last ps [].

Lemma split_app_len d l r : (1 < length (split d (l ++ d :: r)))%nat.
Proof.
  rewrite split_length, filter_app, filter_cons_True, length_app by done. cbn. lia.
Qed.

Lemma split_last_piece_app d l r : d ∉ r → List.last (split d (l ++ d :: r)) [] = r.
Proof.
  intros Hr. assert (split d (l ++ d :: r) = split d l ++ [r]) as ->.
  { induction l as [|c l IH]; cbn [split app].
    - rewrite (proj2 (is_char_true d d)) by done. by rewrite split_last_piece.
    - destruct (StdString.is_char d c); rewrite IH; [done|].
      destruct (split d l) eqn:E; [by destruct (split_nonempty d l) | done]. }
  apply last_last.
Qed.

Lemma rfind_char_hit (l : bytes) (c : ascii) (r : bytes) : c ∉ r → fits (l ++ c :: r) →
  str_find_last_of (l ++ c :: r) [c] npos = len l.
Proof.
  intros Hr Hf. unfold str_find_last_of. apply str_rfind_if_hit.
  - apply in_set_spec. set_solver.
  - apply Forall_forall. intros x Hx. apply in_set_false. set_solver.
  - unfold npos. lia.
Qed.

Lemma rfind_char_miss (l : bytes) (c : ascii) : c ∉ l → str_find_last_of l [c] npos = npos.
Proof.
  intros Hl. unfold str_find_last_of. apply str_rfind_if_miss.
  apply Forall_forall. intros x Hx. apply in_set_false. set_solver.
Qed.

Lemma split_last_char (c : ascii) (l : bytes) : (c ∉ l) ∨ ∃ l1 l2, l = l1 ++ c :: l2 ∧ c ∉ l2.
Proof.
  destruct (split_last (StdString.is_char c) l) as [H | (l1 & x & l2 & -> & H & ->%is_char_true)].
  - left. by apply Forall_not_char.
  - right. exists l1, l2. split; [done|]. by apply Forall_not_char.
Qed.

(** The computation of the extension never throws. *)
Lemma extension_spec (p : bytes) : fits p → "/"%char ∈ p →
  (let last_slash_pos := str_find_last_of p (bs "/") npos in
   let last_dot_pos := str_find_last_of p (bs ".") npos in
   if negb (last_dot_pos =? npos) && (last_slash_pos <? last_dot_pos)
   then str_substr p (u64 (last_dot_pos + 1)) npos else Ret [])
  = Ret (extension_of p).
Proof.
  intros Hf Hin. change (bs "/") with ["/"%char]. change (bs ".") with ["."%char].
  destruct (split_last_char "/"%char p) as [?|(d & n & -> & Hn)]; [done|].
  rewrite rfind_char_hit by done. unfold extension_of, file_name.
  rewrite split_last_piece_app by done. autorewrite with len in Hf.
  destruct (split_last_char "."%char n) as [Hd|(n1 & e & -> & He)].
  - rewrite split_last_piece by done. cbn [length Nat.leb].
    destruct (split_last_char "."%char d) as [Hd2|(d1 & d2 & -> & Hd2)].
    + rewrite rfind_char_miss by set_solver. by rewrite Z.eqb_refl.
    + replace ((d1 ++ "."%char :: d2) ++ "/"%char :: n) with (d1 ++ "."%char :: d2 ++ "/"%char :: n)
        by (by rewrite <-app_assoc).
      rewrite rfind_char_hit by (try (autorewrite with len in *; lia); set_solver).
      rewrite (proj2 (Z.ltb_ge _ _)) by len_lia. by rewrite andb_false_r.
  - rewrite (proj2 (Nat.leb_gt _ _)).
    2:{ apply split_app_len. }
    rewrite split_last_piece_app by done.
    replace (d ++ "/"%char :: n1 ++ "."%char :: e) with ((d ++ "/"%char :: n1) ++ "."%char :: e)
      by (by rewrite <-app_assoc).
    autorewrite with len in Hf. rewrite rfind_char_hit by (try done; len_lia).
    rewrite (proj2 (Z.eqb_neq _ _)) by (unfold npos; len_lia).
    rewrite (proj2 (Z.ltb_lt _ _)) by len_lia. cbn [negb andb].
    rewrite u64_small by len_lia. unfold str_substr. rewrite (proj2 (Z.ltb_ge _ _)) by len_lia.
    f_equal. change ("."%char :: e) with (["."%char] ++ e). rewrite app_assoc.
    replace (len (d ++ "/"%char :: n1) + 1) with (len ((d ++ "/"%char :: n1) ++ ["."%char])) by len_lia.
    apply slice_app_r. unfold npos. lia.
Qed.

(** The path that is looked up for a request. *)
Definition target (p : bytes) : bytes :=
  if bool_decide (last p = Some "/"%char) then p ++ bs "index.html" else p.

Lemma bs_dots_prefix (l : bytes) : bs ".." `prefix_of` l ↔ ∃ r, l = "."%char :: "."%char :: r.
Proof. done. Qed.

Lemma target_safe p : safe_path p → safe_path (target p).
Proof.
  intros [Hh Hd]. unfold target. case_bool_decide as Hl; [|done].
  apply last_Some in Hl as [q ->]. split; [by destruct q|].
  intros k (r & Hr)%bs_dots_prefix.
  destruct (decide (k < length q)%nat) as [Hk|Hk].
  - rewrite <-app_assoc, drop_app_le in Hr by lia.
    apply (Hd k). rewrite drop_app_le by lia. apply bs_dots_prefix.
    assert (0 < length (drop k q))%nat by (rewrite length_drop; lia).
    destruct (drop k q) as [|a [|b t]]; [cbn in *; lia| |].
    + cbn in Hr. discriminate Hr.
    + cbn in Hr |- *. injection Hr as -> -> _. by eexists.
  - rewrite <-app_assoc, drop_app_ge in Hr by lia.
    remember (k - length q)%nat as j. clear Heqj.
    do 11 (destruct j as [|j]; [discriminate Hr|]).
    rewrite drop_ge in Hr by (cbn; lia). discriminate Hr.
Qed.

Lemma unsafe_test p : fits p →
  bool_decide (p = []) || negb (bool_decide (head p = Some "/"%char)) ||
    negb (str_find p (bs "..") 0 =? npos) = false ↔ safe_path p.
Proof.
  intros Hf. rewrite !orb_false_iff, !negb_false_iff, str_find_none by done.
  rewrite bool_decide_eq_true, bool_decide_eq_false. unfold safe_path. split.
  - intros [[_ Hh] Hd]. split; [done|]. intros k.
    destruct (decide (k <= length p)%nat); [by apply Hd|].
    rewrite drop_ge by lia. by intros [? ?].
  - intros [Hh Hd]. split_and!; [by intros -> | done | intros; apply Hd].
Qed.

Lemma file_headers_spec n type hs : 0 <= n →
  length (file_headers n type hs) = 2%nat ∧
  header (bs "Content-Length") (file_headers n type hs) = utoa n ∧
  header (bs "Content-Type") (file_headers n type hs) = type.
Proof.
  intros Hn. unfold file_headers.
  assert (∃ a b, resize2 hs = [a; b]) as (a & b & ->) by (destruct hs as [|a [|b hs]]; cbn; eauto).
  assert (itoa n = utoa n) as -> by (unfold itoa; by rewrite (proj2 (Z.ltb_ge n 0))).
  split_and!; done.
Qed.

(** What a request for the path [p] finds: an embedded file, or a file of the
    document root. *)
Definition found (open_file : bytes → option bytes) (f : FileServer) (p rest : bytes) : option bytes :=
  match files_ f !! target p with
  | Some body => Some body
  | None => app rest <$> open_file (c_path (root_ f ++ target p))
  end.

(** C22: a path that is not absolute or has ".." anywhere is refused before any
    file is opened; any other path opens at most the document root followed by a
    path that is again free of ".."; the reply carries the whole file, its
    length and the media type of its extension, or is the stock 404. *)
Theorem FileServer_confined open_file f req rep :
  fits (req_subpath req ++ bs "index.html") →
  let p := req_subpath req in
  (¬ safe_path p → serve_file open_file f req rep = Ret (stock_reply bad_request)) ∧
  (safe_path p →
     safe_path (target p) ∧
     match found open_file f p (content rep) with
     | None => serve_file open_file f req rep = Ret (stock_reply not_found)
     | Some body => ∃ r, serve_file open_file f req rep = Ret r ∧
         status r = Some ok ∧ content r = body ∧ length (headers r) = 2%nat ∧
         dec_value (header (bs "Content-Length") (headers r)) = len body ∧
         header (bs "Content-Type") (headers r) = ExtensionToType (extension_of (target p))
     end).
Proof.
  intros Hf p. assert (fits p) as Hfp by (subst p; len_lia). subst p.
  unfold serve_file. pose proof (unsafe_test (req_subpath req) Hfp) as Ht. cbn zeta.
  split; intros Hs.
  - destruct (_ || _); [done|]. by destruct Hs; apply Ht.
  - apply Ht in Hs as Hb. rewrite Hb. pose proof (target_safe _ Hs) as Hst. split; [done|].
    fold (target (req_subpath req)). unfold found.
    set (t := target (req_subpath req)) in *.
    assert (fits t) as Hft.
    { subst t. clear -Hf Hfp. unfold target. by case_bool_decide. }
    assert ("/"%char ∈ t) as Hin.
    { destruct Hst as [Hh _]. destruct t; [done|]. injection Hh as ->. left. }
    pose proof (extension_spec t Hft Hin) as He. cbn zeta in He. rewrite He.
    cbn [mbind outcome_bind].
    assert (∀ body, ∃ r, Ret (Resp (Some ok)
        (file_headers (len body) (ExtensionToType (extension_of t)) (headers rep)) body) = Ret r ∧
      status r = Some ok ∧ content r = body ∧ length (headers r) = 2%nat ∧
      dec_value (header (bs "Content-Length") (headers r)) = len body ∧
      header (bs "Content-Type") (headers r) = ExtensionToType (extension_of t)) as Hr.
    { intros body. eexists. split; [done|]. cbn [status content headers].
      destruct (file_headers_spec (len body) (ExtensionToType (extension_of t)) (headers rep))
        as (H1 & -> & H3); [lia|]. split_and!; try done. apply utoa_value. lia. }
    destruct (files_ f !! t) as [body|]; [apply Hr|].
    destruct (open_file _) as [data|]; [apply Hr | done].
Qed.

(** A document root, and a request of a file below it and of one outside. *)
Definition www (p : bytes) : option bytes :=
  if bool_decide (p = bs "/srv/a/index.html") then Some (bs "<p>hi</p>") else None.
Definition subpath_request (p : bytes) : Request := set_subpath p new_request.

Lemma FileServer_confined_witness :
  let f := Files (bs "/srv") ∅ in
  (∃ r, serve_file www f (subpath_request (bs "/a/")) new_response = Ret r ∧
     content r = bs "<p>hi</p>" ∧ header (bs "Content-Type") (headers r) = bs "text/html") ∧
  serve_file www f (subpath_request (bs "/../etc/passwd")) new_response
    = Ret (stock_reply bad_request) ∧
  serve_file www f (subpath_request (bs "/b")) new_response = Ret (stock_reply not_found).
Proof.
  intros f. split_and!.
  - destruct (FileServer_confined www f (subpath_request (bs "/a/")) new_response) as [_ H];
      [by_decide|].
    destruct H as [_ H].
    { apply unsafe_test; [by_decide | vm_compute; reflexivity]. }
    destruct H as (r & Hr & _ & Hc & _ & _ & Ht). exists r. split; [exact Hr|].
    split; [exact Hc|exact Ht].
  - destruct (FileServer_confined www f (subpath_request (bs "/../etc/passwd")) new_response)
      as [H _]; [by_decide|].
    apply H. intros [_ Hd]. apply (Hd 1%nat). by_decide.
  - destruct (FileServer_confined www f (subpath_request (bs "/b")) new_response) as [_ H];
      [by_decide|].
    destruct H as [_ H].
    { apply unsafe_test; [by_decide | vm_compute; reflexivity]. }
    exact H.
Defined.
