(* ===== verification/HttpServer.v ===== *)
(** * The HTTP server (src/cppboot/net/http/server.cc, server/connection.cc,
    server/connection_manager.cc)

    The server is the state that its completion handlers share: the acceptor, the
    set of managed connections, and the connection objects.  An event is the run
    of one completion handler, or a call of [Shutdown]; what the handlers write
    is the output of a step.  asio decides which pending operation completes, when
    and how: the step relation leaves every choice open that asio documents. *)

From S2P Require Import Prelude StdString StringView StrUtil Status FormData Url HttpMsg RequestParser ServeMux.

(** [std::error_code]: none, [operation_aborted], or any other error. *)
Inductive error_code : Set := no_error | operation_aborted | other_error.
#[export] Instance error_code_eq_dec : EqDecision error_code.
Proof. solve_decision. Defined.

(** A connection: its socket, the operations that are pending on it, and its
    members. *)
Record TcpConnection : Type := Conn {
  socket_open : bool;
  reading : bool;              (* async_read_some is pending *)
  writing : option bytes;      (* async_write is pending, with this data *)
  request_ : Request;
  request_parser_ : RequestParser.state;
  reply_ : Response;
}.

Definition new_connection : TcpConnection := Conn true false None new_request reset new_response.

Record Server : Type := Srv {
  is_open : bool;              (* acceptor_.is_open() *)
  accepting : bool;            (* async_accept is pending *)
  running : bool;              (* the io_context has not been stopped *)
  connections_ : gset nat;
  objects : gmap nat TcpConnection;
}.

Definition new_server : Server := Srv false false true ∅ ∅.

(** What a step writes: the connection and the data of [async_write]. *)
Abbreviation output := (list (nat * bytes)).

Definition set_connections (cs : gset nat) (s : Server) : Server :=
  Srv (is_open s) (accepting s) (running s) cs (objects s).
Definition set_object (id : nat) (c : TcpConnection) (s : Server) : Server :=
  Srv (is_open s) (accepting s) (running s) (connections_ s) (<[id := c]> (objects s)).

(** [TcpConnection::Stop] *)
Definition Stop (c : TcpConnection) : TcpConnection :=
  Conn false (reading c) (writing c) (request_ c) (request_parser_ c) (reply_ c).

Definition DoRead (c : TcpConnection) : TcpConnection :=
  Conn (socket_open c) true (writing c) (request_ c) (request_parser_ c) (reply_ c).

Definition DoWrite (c : TcpConnection) : outcome (TcpConnection * bytes) :=
  buffers ← to_buffers (reply_ c);
  Ret (Conn (socket_open c) (reading c) (Some (concat buffers)) (request_ c)
         (request_parser_ c) (reply_ c), concat buffers).

(** [ConnectionManager::Start], [Stop] and [StopAll] *)
Definition manager_start (id : nat) (c : TcpConnection) (s : Server) : Server :=
  set_object id (DoRead c) (set_connections ({[id]} ∪ connections_ s) s).

Definition manager_stop (id : nat) (c : TcpConnection) (s : Server) : Server :=
  set_object id (Stop c) (set_connections (connections_ s ∖ {[id]}) s).

Definition StopAll (s : Server) : Server :=
  Srv (is_open s) (accepting s) (running s) ∅
    (map_imap (λ id c, Some (if bool_decide (id ∈ connections_ s) then Stop c else c)) (objects s)).

(** [Server::Listen], behind the calls that open, bind and listen (which throw
    when they fail), and [Server::Shutdown]. *)
Definition DoAccept (s : Server) : Server :=
  Srv (is_open s) true (running s) (connections_ s) (objects s).
Definition Listen (opened : outcome unit) (s : Server) : outcome Server :=
  _ ← opened;
  Ret (DoAccept (Srv true (accepting s) (running s) (connections_ s) (objects s))).
Definition Shutdown (s : Server) : Server :=
  let s := StopAll (Srv false (accepting s) (running s) (connections_ s) (objects s)) in
  Srv (is_open s) (accepting s) false (connections_ s) (objects s).

Section server.
Context {Func : Type} (call : Func → Request → Response → outcome Response).
Context (request_handler_ : ServeMux Func).

(** The completion handler of [async_accept]; [id] names the new object. *)
Definition on_accept (ec : error_code) (id : nat) (s : Server) : Server :=
  let s := Srv (is_open s) false (running s) (connections_ s) (objects s) in
  if negb (is_open s) then s
  else
    let s := if bool_decide (ec = no_error) then manager_start id new_connection s else s in
    DoAccept s.

(** The completion handler of [async_read_some]. *)
Definition on_read (ec : error_code) (data : bytes) (id : nat) (c : TcpConnection) (s : Server)
    : outcome (Server * output) :=
  let c := Conn (socket_open c) false (writing c) (request_ c) (request_parser_ c) (reply_ c) in
  if bool_decide (ec = no_error) then
    '(result, _, st, req) ← parse (request_parser_ c) (request_ c) data;
    match result with
    | good =>
        '(req, reply) ← ServeHttp call request_handler_ req (reply_ c);
        '(c, out) ← DoWrite (Conn (socket_open c) (reading c) (writing c) req st reply);
        Ret (set_object id c s, [(id, out)])
    | bad =>
        '(c, out) ← DoWrite (Conn (socket_open c) (reading c) (writing c) req st
                              (stock_reply bad_request));
        Ret (set_object id c s, [(id, out)])
    | indeterminate =>
        Ret (set_object id (DoRead (Conn (socket_open c) (reading c) (writing c) req st (reply_ c))) s,
             [])
    end
  else if negb (bool_decide (ec = operation_aborted)) then Ret (manager_stop id c s, [])
  else Ret (set_object id c s, []).

(** The completion handler of [async_write]; shutting the socket down changes
    nothing in the model before it is closed. *)
Definition on_write (ec : error_code) (id : nat) (c : TcpConnection) (s : Server) : Server :=
  let c := Conn (socket_open c) (reading c) None (request_ c) (request_parser_ c) (reply_ c) in
  if negb (bool_decide (ec = operation_aborted)) then manager_stop id c s else set_object id c s.

Inductive event : Type :=
  | Accepted (ec : error_code) (id : nat)
  | ReadDone (id : nat) (ec : error_code) (data : bytes)
  | WriteDone (id : nat) (ec : error_code)
  | ShutdownCall.

(** What asio may do: complete a pending operation while the context runs, with
    [operation_aborted] only if the socket (or the acceptor) has been closed. *)
Definition enabled (e : event) (s : Server) : bool :=
  match e with
  | Accepted ec id =>
      running s && accepting s && bool_decide (objects s !! id = None) &&
      (negb (bool_decide (ec = operation_aborted)) || negb (is_open s))
  | ReadDone id ec data =>
      match objects s !! id with
      | Some c => running s && reading c &&
                  (negb (bool_decide (ec = operation_aborted)) || negb (socket_open c))
      | None => false
      end
  | WriteDone id ec =>
      match objects s !! id with
      | Some c => running s && bool_decide (is_Some (writing c)) &&
                  (negb (bool_decide (ec = operation_aborted)) || negb (socket_open c))
      | None => false
      end
  | ShutdownCall => true
  end.

Definition step (e : event) (s : Server) : outcome (Server * output) :=
  match e with
  | Accepted ec id => Ret (on_accept ec id s, [])
  | ReadDone id ec data =>
      c ← or_undef (objects s !! id);
      on_read ec data id c s
  | WriteDone id ec =>
      c ← or_undef (objects s !! id);
      Ret (on_write ec id c s, [])
  | ShutdownCall => Ret (Shutdown s, [])
  end.

(** The runs of a server that listens. *)
Inductive runs (s0 : Server) : list event → output → Server → Prop :=
  | runs_nil : runs s0 [] [] s0
  | runs_snoc es os s e s' o :
      runs s0 es os s → enabled e s = true → step e s = Ret (s', o) →
      runs s0 (es ++ [e]) (os ++ o) s'.

(** The same, as a function: a schedule that asio can follow. *)
Fixpoint run (s : Server) (es : list event) : outcome (Server * output) :=
  match es with
  | [] => Ret (s, [])
  | e :: es =>
      if enabled e s then
        '(s, o) ← step e s;
        '(s, os) ← run s es;
        Ret (s, o ++ os)
      else Undef
  end.

(** * Properties *)

(** The bytes a connection has read, and what was written to it. *)
Definition received_by (id : nat) (e : event) : bytes :=
  match e with
  | ReadDone id' no_error data => if bool_decide (id' = id) then data else []
  | _ => []
  end.
Definition received (id : nat) (es : list event) : bytes := concat (received_by id <$> es).
Definition sent (id : nat) (os : output) : list bytes :=
  (filter (λ o, o.1 = id) os).*2.

(** The answer to a complete input: what the handlers make of the request, or
    the stock reply to a malformed one. *)
Definition answer (input : bytes) : outcome bytes :=
  '(result, _, _, req) ← parse reset new_request input;
  match result with
  | good =>
      '(_, reply) ← ServeHttp call request_handler_ req new_response;
      buffers ← to_buffers reply; Ret (concat buffers)
  | bad => buffers ← to_buffers (stock_reply bad_request); Ret (concat buffers)
  | indeterminate => Undef
  end.

(** How the state of a connection follows from its history. *)
Definition conn_ok (id : nat) (es : list event) (os : output) (s : Server) : Prop :=
  match objects s !! id with
  | None => received id es = [] ∧ sent id os = [] ∧ id ∉ connections_ s
  | Some c =>
      (id ∈ connections_ s ↔ socket_open c = true) ∧
      (running s = false → socket_open c = false) ∧
      (running s = true → socket_open c = reading c || bool_decide (is_Some (writing c))) ∧
      match sent id os with
      | [] => parse reset new_request (received id es)
              = Ret (indeterminate, [], request_parser_ c, request_ c) ∧
              reply_ c = new_response ∧ writing c = None
      | [w] => answer (received id es) = Ret w ∧ reading c = false ∧
               (writing c = None ∨ writing c = Some w)
      | _ => False
      end
  end.

Lemma received_snoc id es e : received id (es ++ [e]) = received id es ++ received_by id e.
Proof. unfold received. rewrite fmap_app, concat_app. cbn. by rewrite app_nil_r. Qed.

Lemma sent_app id os o : sent id (os ++ o) = sent id os ++ sent id o.
Proof. unfold sent. by rewrite filter_app, fmap_app. Qed.

(** Reading one more chunk while the request is incomplete. *)
Lemma parse_more input st req data :
  parse reset new_request input = Ret (indeterminate, [], st, req) →
  parse reset new_request (input ++ data) = parse st req data.
Proof. intros [_ Hf]%parse_indeterminate. by apply parse_feed. Qed.

Lemma conn_ok_frame id es os s e s' o :
  conn_ok id es os s → objects s' !! id = objects s !! id →
  (id ∈ connections_ s' ↔ id ∈ connections_ s) → running s' = running s →
  received_by id e = [] → sent id o = [] →
  conn_ok id (es ++ [e]) (os ++ o) s'.
Proof.
  unfold conn_ok. intros Hok -> Hc Hr He Ho.
  rewrite received_snoc, sent_app, He, Ho, !app_nil_r, Hr.
  destruct (objects s !! id) as [c|]; [by rewrite Hc | by rewrite Hc].
Qed.

Lemma sent_one id id' w : sent id [(id', w)] = if bool_decide (id' = id) then [w] else [].
Proof. unfold sent. by case_bool_decide; [rewrite filter_cons_True | rewrite filter_cons_False]. Qed.

Lemma on_accept_ok id es os s ec id' :
  conn_ok id es os s → enabled (Accepted ec id') s = true →
  conn_ok id (es ++ [Accepted ec id']) os (on_accept ec id' s).
Proof.
  intros Hok Hen. rewrite <-(app_nil_r os). cbn [enabled] in Hen.
  assert (objects s !! id' = None ∧ running s = true) as [Hn Hrun] by (bool_hyps; done). clear Hen.
  unfold on_accept. cbn [is_open]. destruct (is_open s); cbn [negb]; [|by eapply conn_ok_frame].
  case_bool_decide as Hec; [|by eapply conn_ok_frame].
  destruct (decide (id' = id)) as [->|Hne].
  - unfold conn_ok in Hok. rewrite Hn in Hok.
    destruct Hok as (Hr & Hs & Hc).
    unfold conn_ok, manager_start. cbn. rewrite lookup_insert_eq, app_nil_r, received_snoc, Hr, Hs.
    cbn. split_and!; try done.
    + set_solver.
    + congruence.
  - eapply conn_ok_frame; try done.
    + unfold manager_start. cbn. by rewrite lookup_insert_ne.
    + unfold manager_start. cbn. set_solver.
Qed.

Lemma shutdown_ok id es os s :
  conn_ok id es os s → conn_ok id (es ++ [ShutdownCall]) os (Shutdown s).
Proof.
  unfold conn_ok. intros Hok. rewrite received_snoc. cbn. rewrite map_lookup_imap, app_nil_r.
  destruct (objects s !! id) as [c|]; cbn; [|set_solver].
  destruct Hok as (Hc & _ & _ & Hs). case_bool_decide as Hin; cbn.
  - split_and!; [set_solver | done | done|]. destruct (sent id os) as [|w [|]]; naive_solver.
  - assert (socket_open c = false) as Ho by (destruct (socket_open c); naive_solver).
    rewrite Ho. split_and!; [set_solver | done | done | done].
Qed.

(** A handler that only changes its own object [c] into [c']. *)
Lemma manager_stop_ok id es os s e c :
  objects s !! id = Some c → conn_ok id es os s → received_by id e = [] → running s = true →
  ∀ c', reading c' = false → writing c' = None → request_ c' = request_ c →
  request_parser_ c' = request_parser_ c → reply_ c' = reply_ c →
  conn_ok id (es ++ [e]) os (manager_stop id c' s).
Proof.
  intros Ho Hok He Hrun c' Hr Hw Hq Hp Hy. unfold conn_ok in *. rewrite Ho in Hok.
  rewrite received_snoc, He, app_nil_r. unfold manager_stop, set_object. cbn.
  rewrite lookup_insert_eq. cbn. destruct Hok as (_ & _ & _ & Hs).
  rewrite Hr, Hw, Hq, Hp, Hy. split_and!; [set_solver | done | done|].
  destruct (sent id os) as [|w [|]]; naive_solver.
Qed.

Lemma manager_stop_frame id id' c s : id' ≠ id →
  objects (manager_stop id' c s) !! id = objects s !! id ∧
  (id ∈ connections_ (manager_stop id' c s) ↔ id ∈ connections_ s).
Proof.
  intros Hne. unfold manager_stop, set_object. cbn. rewrite lookup_insert_ne by done. set_solver.
Qed.

Lemma on_write_ok id es os s ec id' c :
  conn_ok id es os s → objects s !! id' = Some c → enabled (WriteDone id' ec) s = true →
  conn_ok id (es ++ [WriteDone id' ec]) os (on_write ec id' c s).
Proof.
  intros Hok Ho Hen. cbn [enabled] in Hen. rewrite Ho in Hen.
  assert (running s = true ∧ is_Some (writing c) ∧ (ec = operation_aborted → socket_open c = false))
    as (Hrun & Hw & Hab).
  { apply andb_true_iff in Hen as [Hen Hab]. bool_hyps. split_and!; [done..|]. intros ->. cbn in Hab.
    by destruct (socket_open c). }
  destruct (decide (id' = id)) as [->|Hne].
  - pose proof Hok as Hok'. unfold conn_ok in Hok'. rewrite Ho in Hok'.
    destruct Hok' as (_ & _ & Hopen & Hs).
    assert (ec ≠ operation_aborted) as Hec.
    { intros Hec. apply Hab in Hec. rewrite Hopen in Hec by done.
      rewrite (bool_decide_true _ Hw), orb_true_r in Hec. done. }
    unfold on_write. rewrite bool_decide_false by done.
    eapply manager_stop_ok; cbn; try done.
    destruct (sent id os) as [|w [|]]; [|tauto | done].
    destruct Hs as (_ & _ & Hn). rewrite Hn in Hw. by destruct Hw.
  - rewrite <-(app_nil_r os). unfold on_write.
    destruct (manager_stop_frame id id'
      (Conn (socket_open c) (reading c) None (request_ c) (request_parser_ c) (reply_ c)) s Hne).
    destruct (negb _); eapply conn_ok_frame; try done. cbn. by rewrite lookup_insert_ne.
Qed.

(** What the conclusion of a read leaves in the object. *)
Lemma replied_ok id es os s e c st req reply w :
  objects s !! id = Some c → conn_ok id es os s → running s = true →
  socket_open c = true → sent id os = [] →
  answer (received id es ++ received_by id e) = Ret w →
  conn_ok id (es ++ [e]) (os ++ [(id, w)])
    (set_object id (Conn true false (Some w) req st reply) s).
Proof.
  intros Ho Hok Hrun Hopen Hs Ha. unfold conn_ok in *. rewrite Ho in Hok. cbn.
  rewrite lookup_insert_eq, received_snoc, sent_app, Hs, sent_one, (bool_decide_true (id = id)) by done. cbn.
  destruct Hok as (Hc & Hf & _). rewrite Hopen in Hc, Hf.
  repeat split; auto; by apply Hc.
Qed.

Lemma on_read_ok id es os s ec data id' c s' o :
  conn_ok id es os s → objects s !! id' = Some c → enabled (ReadDone id' ec data) s = true →
  on_read ec data id' c s = Ret (s', o) →
  (id' = id → conn_ok id (es ++ [ReadDone id' ec data]) (os ++ o) s').
Proof.
  intros Hok Ho Hen Hstep ->. cbn [enabled] in Hen. rewrite Ho in Hen.
  pose proof Hok as Hok'. unfold conn_ok in Hok'. rewrite Ho in Hok'.
  destruct Hok' as (Hc & Hf & Hopen & Hs).
  assert (running s = true ∧ reading c = true) as [Hrun Hr] by (bool_hyps; done).
  rewrite Hr in Hopen. cbn [orb] in Hopen. specialize (Hopen Hrun).
  destruct (sent id os) as [|w [|]] eqn:Hsent; [|destruct Hs as (_ & ? & _); congruence | done].
  destruct Hs as (Hparse & Hreply & Hw). unfold on_read in Hstep.
  destruct ec; cbn [negb] in Hstep.
  - rewrite bool_decide_true in Hstep by done.
    cbn [socket_open reading writing request_ request_parser_ reply_] in Hstep.
    rewrite Hopen, Hw, Hreply in Hstep.
    apply bind_Ret in Hstep as ([[[r rest] st] req] & Hp & Hstep).
    pose proof (parse_more _ _ _ data Hparse) as Hmore. rewrite Hp in Hmore.
    assert (received_by id (ReadDone id no_error data) = data) as Hrb
      by (cbn; by rewrite bool_decide_true).
    destruct r.
    + apply bind_Ret in Hstep as ([req' reply] & Hh & Hstep).
      apply bind_Ret in Hstep as ([c1 out] & Hd & [= <- <-]).
      unfold DoWrite in Hd. apply bind_Ret in Hd as (bufs & Hb & [= <- <-]). cbn [reply_] in Hb.
      eapply replied_ok; try done. rewrite Hrb. unfold answer. rewrite Hmore.
      cbn [mbind outcome_bind]. rewrite Hh. cbn [mbind outcome_bind]. by rewrite Hb.
    + apply bind_Ret in Hstep as ([c1 out] & Hd & [= <- <-]).
      unfold DoWrite in Hd. apply bind_Ret in Hd as (bufs & Hb & [= <- <-]). cbn [reply_] in Hb.
      eapply replied_ok; try done. rewrite Hrb. unfold answer. rewrite Hmore.
      cbn [mbind outcome_bind]. by rewrite Hb.
    + injection Hstep as <- <-. unfold conn_ok. cbn. rewrite lookup_insert_eq.
      rewrite received_snoc, Hrb, app_nil_r, Hsent, Hmore. cbn.
      apply parse_indeterminate in Hp as [-> _]. rewrite Hopen in Hc, Hf. by split_and!.
  - cbn in Hen. rewrite Hopen, andb_false_r in Hen. done.
  - cbn in Hstep. injection Hstep as <- <-. rewrite app_nil_r.
    eapply manager_stop_ok; cbn; done.
Qed.

Lemma on_read_frame id es os s ec data id' c s' o :
  conn_ok id es os s → on_read ec data id' c s = Ret (s', o) → id' ≠ id →
  conn_ok id (es ++ [ReadDone id' ec data]) (os ++ o) s'.
Proof.
  intros Hok Hstep Hne.
  assert (received_by id (ReadDone id' ec data) = []) as Hrb
    by (cbn; rewrite bool_decide_false by done; by destruct ec).
  assert (objects s' !! id = objects s !! id ∧ (id ∈ connections_ s' ↔ id ∈ connections_ s) ∧
    running s' = running s ∧ sent id o = []) as (H1 & H2 & H3 & H4); [|by eapply conn_ok_frame].
  assert (∀ w, sent id [(id', w)] = []) as Hs1
    by (intros; rewrite sent_one; by rewrite bool_decide_false).
  assert (∀ c1, objects (set_object id' c1 s) !! id = objects s !! id) as Hl
    by (intros; cbn; by rewrite lookup_insert_ne).
  unfold on_read in Hstep. destruct (bool_decide (ec = no_error)).
  - apply bind_Ret in Hstep as ([[[r rest] st] req] & Hp & Hstep). destruct r.
    + apply bind_Ret in Hstep as ([req' reply] & Hh & Hstep).
      apply bind_Ret in Hstep as ([c1 out] & Hd & [= <- <-]). by rewrite Hl, Hs1.
    + apply bind_Ret in Hstep as ([c1 out] & Hd & [= <- <-]). by rewrite Hl, Hs1.
    + injection Hstep as <- <-. by rewrite Hl.
  - destruct (negb _); injection Hstep as <- <-; [|by rewrite Hl].
    destruct (manager_stop_frame id id' (Conn (socket_open c) false (writing c) (request_ c)
      (request_parser_ c) (reply_ c)) s Hne). done.
Qed.

Lemma step_ok id es os s e s' o :
  conn_ok id es os s → enabled e s = true → step e s = Ret (s', o) →
  conn_ok id (es ++ [e]) (os ++ o) s'.
Proof.
  intros Hok Hen Hstep. destruct e as [ec id'|id' ec data|id' ec|]; cbn [step] in Hstep.
  - injection Hstep as <- <-. rewrite app_nil_r. by apply on_accept_ok.
  - apply bind_Ret in Hstep as (c & Ho%or_undef_Ret & Hstep).
    destruct (decide (id' = id)) as [Heq|Hne].
    + by eapply on_read_ok.
    + by eapply on_read_frame.
  - apply bind_Ret in Hstep as (c & Ho%or_undef_Ret & [= <- <-]). rewrite app_nil_r.
    by apply on_write_ok.
  - injection Hstep as <- <-. rewrite app_nil_r. by apply shutdown_ok.
Qed.

Lemma runs_ok s0 es os s id :
  Listen (Ret tt) new_server = Ret s0 → runs s0 es os s → conn_ok id es os s.
Proof.
  intros [= <-]. induction 1 as [|es os s e s' o _ IH Hen Hstep].
  - unfold conn_ok. cbn. rewrite lookup_empty. set_solver.
  - by eapply step_ok.
Qed.

(** C9: every connection is answered at most once, and by its whole input.  In
    every run of a listening server, whatever asio completes and in whatever
    order: as long as nothing has been written to a connection, the bytes it has
    received form an incomplete request; what is written is the answer to exactly
    those bytes, however they were cut.  The manager holds a connection exactly
    while its socket is open; while the server runs that is exactly while one
    operation, never two, is pending on it, so no connection is left behind; and
    after [Shutdown] it holds none. *)
Theorem connection_answered_once s0 es os s id :
  Listen (Ret tt) new_server = Ret s0 → runs s0 es os s →
  match sent id os with
  | [] => ∃ st req, parse reset new_request (received id es) = Ret (indeterminate, [], st, req)
  | [w] => answer (received id es) = Ret w
  | _ => False
  end ∧
  (id ∈ connections_ s ↔ ∃ c, objects s !! id = Some c ∧ socket_open c = true) ∧
  (∀ c, objects s !! id = Some c →
     ¬ (reading c = true ∧ is_Some (writing c)) ∧
     (running s = true → id ∈ connections_ s ↔ reading c = true ∨ is_Some (writing c))) ∧
  (running s = false → id ∉ connections_ s).
Proof.
  intros Hl Hr. pose proof (runs_ok _ _ _ _ id Hl Hr) as Hok. unfold conn_ok in Hok.
  destruct (objects s !! id) as [c|].
  - destruct Hok as (Hc & Hf & Hopen & Hs). split_and!.
    + destruct (sent id os) as [|w [|]]; [|tauto|done]. destruct Hs as (Hp & _). eauto.
    + rewrite Hc. naive_solver.
    + intros c' [= <-]. split.
      * destruct (sent id os) as [|w [|]]; [|intros [? ?]; naive_solver congruence | done].
        destruct Hs as (_ & _ & ->). by intros [_ [? ?]].
      * intros Hrun. rewrite Hc, (Hopen Hrun), orb_true_iff, bool_decide_eq_true. done.
    + intros Hrun. rewrite Hc, (Hf Hrun). done.
  - destruct Hok as (Hrec & Hs & Hc). rewrite Hs, Hrec. split_and!; try done.
    + by eexists _, _.
    + split; [done|]. by intros (? & ? & _).
Qed.

Lemma run_runs es s0 pre os s :
  runs s0 pre os s →
  match run s es with Ret (s', os') => runs s0 (pre ++ es) (os ++ os') s' | _ => True end.
Proof.
  revert pre os s. induction es as [|e es IH]; intros pre os s Hr; cbn [run].
  { by rewrite !app_nil_r. }
  destruct (enabled e s) eqn:Hen; [|done].
  destruct (step e s) as [[s1 o]| | | |] eqn:Hs; try done. cbn [mbind outcome_bind].
  pose proof (IH _ _ _ (runs_snoc _ _ _ _ _ _ _ Hr Hen Hs)) as Hrun.
  destruct (run s1 es) as [[s2 os2]| | | |]; try done. cbn. by rewrite <-!app_assoc in Hrun.
Qed.
End server.

(** A server that greets; two connections interleave, one request arrives in two
    pieces and the other is malformed. *)
Definition greet (body : bytes) (_ : Request) (resp : Response) : outcome Response :=
  Ret (WriteText ok body resp).
Definition greeter : ServeMux bytes :=
  match set_handler (bs "/hi") (bs "hello") new_mux with Ret m => m | _ => new_mux end.
Definition demo_events : list event :=
  [Accepted no_error 0; ReadDone 0 no_error (bs "GET /h"); Accepted no_error 1;
   ReadDone 1 no_error (bs "("); ReadDone 0 no_error (bs "i HTTP/1.0" ++ CRLF ++ CRLF);
   WriteDone 0 no_error].
Definition greeting : bytes :=
  bs "HTTP/1.0 200 OK" ++ CRLF ++ bs "Content-Length: 5" ++ CRLF ++
  bs "Content-Type: text/plain" ++ CRLF ++ CRLF ++ bs "hello".

Lemma connection_answered_once_witness :
  ∃ s0 os s, Listen (Ret tt) new_server = Ret s0 ∧
    runs greet greeter s0 demo_events os s ∧
    answer greet greeter (bs "GET /hi HTTP/1.0" ++ CRLF ++ CRLF) = Ret greeting ∧
    sent 0 os = [greeting] ∧ 0%nat ∉ connections_ s.
Proof.
  destruct (Listen (Ret tt) new_server) as [s0| | | |] eqn:Hl; try discriminate Hl.
  pose proof (run_runs greet greeter demo_events s0 [] [] s0 (runs_nil _ _ _)) as Hr.
  assert (match run greet greeter s0 demo_events with
          | Ret (s, os) => Some (os.*1, sent 0 os, running s, (socket_open <$> objects s !! 0%nat))
          | _ => None end = Some ([1; 0], [greeting], true, Some false)%nat) as Hv.
  { injection Hl as <-. vm_compute. reflexivity. }
  destruct (run greet greeter s0 demo_events) as [[s os]| | | |]; try discriminate Hv.
  cbn [app] in Hr. exists s0, os, s. injection Hv as Hv1 Hv2 Hv3 Hv4.
  destruct (connection_answered_once greet greeter s0 demo_events os s 0 Hl Hr) as (H1 & H2 & _).
  rewrite Hv2 in H1. split; [done|]. split; [exact Hr|]. split; [exact H1|]. split; [exact Hv2|].
  rewrite H2. intros (c & Hc & Ho). rewrite Hc in Hv4. cbn in Hv4. congruence.
Defined.
