(* ===== verification/HttpClient.v ===== *)
(** * The HTTP client (src/cppboot/net/http/client.cc)

    The client writes a request and reads the response through a stream over an
    asio buffer.  The socket delivers the response in chunks, as [read_some]
    happens to return them, and then an error; the stream keeps its own end-of-file
    and failure flags, as [std::istream] does. *)

From S2P Require Import Prelude StdString StringView StrUtil Status FormData Url HttpMsg RequestParser ServeMux HttpServer.

(** How the socket ends: the peer closes it, or another error. *)
Inductive read_end : Set := eof_error | read_error.

Record Socket : Type := Sock { chunks : list bytes; ending : read_end }.

(** [std::istream] over the [asio::streambuf]. *)
Record istream : Type := IStream { sbuf : bytes; eofbit : bool; failbit : bool }.

Definition stream_good (s : istream) : bool := negb (eofbit s) && negb (failbit s).
Definition set_fail (s : istream) : istream := IStream (sbuf s) (eofbit s) true.

(** Skip blanks, as a formatted extraction does first. *)
Definition sentry (s : istream) : istream :=
  if stream_good s then
    let rest := skip_spaces (sbuf s) in
    if bool_decide (rest = []) then IStream [] true true else IStream rest false false
  else set_fail s.

(** [is >> string] *)
Fixpoint word (l : bytes) : bytes * bytes :=
  match l with
  | [] => ([], [])
  | c :: l' => if is_space c then ([], l) else let '(w, r) := word l' in (c :: w, r)
  end.
Definition extract_string (s : istream) : bytes * istream :=
  let s := sentry s in
  if stream_good s then
    let '(w, rest) := word (sbuf s) in (w, IStream rest (bool_decide (rest = [])) false)
  else ([], s).

(** [is >> unsigned int]; [None] when the variable is not assigned. *)
Definition UINT_MAX : Z := 2 ^ 32 - 1.
Definition extract_uint (s : istream) : option Z * istream :=
  let s := sentry s in
  if stream_good s then
    let '(negative, l) :=
      match sbuf s with
      | c :: l => if bool_decide (c = "-"%char) then (true, l)
                  else if bool_decide (c = "+"%char) then (false, l) else (false, sbuf s)
      | [] => (false, [])
      end in
    let '(ds, rest) := digits l in
    let at_end := bool_decide (rest = []) in
    if bool_decide (ds = []) then (Some 0, IStream rest at_end true)
    else if UINT_MAX <? dec_value ds then (Some UINT_MAX, IStream rest at_end true)
    else (Some (if negative : bool then u32 (- dec_value ds) else dec_value ds),
          IStream rest at_end false)
  else (None, s).

(** [std::getline] *)
Fixpoint line_of (l : bytes) : bytes * option bytes :=
  match l with
  | [] => ([], None)
  | c :: l => if bool_decide (c = LF) then ([], Some l)
              else let '(w, r) := line_of l in (c :: w, r)
  end.
Definition getline (s : istream) : bytes * istream :=
  if stream_good s then
    match line_of (sbuf s) with
    | (w, Some rest) => (w, IStream rest false false)
    | (w, None) => (w, IStream [] true (bool_decide (w = [])))
    end
  else ([], set_fail s).

(** [asio::read_until]: the buffer grows until it holds the delimiter; at the end
    of the socket it throws. *)
Fixpoint read_until (delim buf : bytes) (cs : list bytes) : option (bytes * list bytes) :=
  match search delim buf 0 with
  | Some _ => Some (buf, cs)
  | None =>
      match cs with
      | [] => None
      | c :: cs => read_until delim (buf ++ c) cs
      end
  end.

(** The message of a status that is not 200. *)
Definition status_error (code : Z) : Status :=
  InvalidArgumentError (bs "Response returned with status code " ++ utoa code).

(** The loop over the header lines; logging a line without colon is left out. *)
Fixpoint read_headers (fuel : nat) (s : istream) (resp : Response) : outcome (istream * Response) :=
  match fuel with
  | O => OutOfFuel
  | S fuel =>
      let '(hdr, s) := getline s in
      if negb (failbit s) && negb (bool_decide (hdr = [CR])) then
        let colon := str_find_first_of hdr (bs ":") 0 in
        if negb (colon =? npos) then
          n ← str_substr hdr 0 colon;
          v ← str_substr hdr (colon + 1) npos;
          v ← StrTrim (sv_of_string v) sv_null;
          read_headers fuel s
            (Resp (status resp) (set_header n (chars v) (headers resp)) (content resp))
        else read_headers fuel s resp
      else Ret (s, resp)
  end.

Section client.
(** [what()] of the exception for the end of the socket. *)
Context (what : read_end → bytes).

Definition ReadResponse (socket : Socket) (resp : Response) : outcome (Status * Response) :=
  match read_until CRLF [] (chunks socket) with
  | None => Ret (CancelledError (what (ending socket)), resp)
  | Some (buf, cs) =>
      let '(http_version, s) := extract_string (IStream buf false false) in
      let '(status_code, s) := extract_uint s in
      let '(status_message, s) := getline s in
      if failbit s || negb (bool_decide (take 5 http_version = bs "HTTP/")) then
        Ret (InvalidArgumentError (bs "Invalid response"), resp)
      else
        code ← or_undef status_code;
        if negb (code =? 200) then Ret (status_error code, resp)
        else
          match read_until (CRLF ++ CRLF) (sbuf s) cs with
          | None => Ret (CancelledError (what (ending socket)), resp)
          | Some (buf, cs) =>
              '(s, resp) ← read_headers (S (length buf)) (IStream buf (eofbit s) (failbit s)) resp;
              let body := sbuf s ++ concat cs in
              match ending socket with
              | eof_error => Ret (OkStatus, Resp (Some ok) (headers resp) body)
              | read_error => Ret (CancelledError (what read_error), resp)
              end
          end
  end.

(** The host and the service that are looked up. *)
Definition GetEndpointFromUrl (url : Url) : outcome (bytes * bytes) :=
  let colon := str_find_last_of (host url) (bs ":") npos in
  if 0 <? colon then
    h ← str_substr (host url) 0 colon;
    let h := if bool_decide (h = []) then bs "0.0.0.0" else h in
    service ← str_substr (host url) (u64 (colon + 1)) npos;
    Ret (h, service)
  else Ret (host url, scheme url).

(** Resolving, connecting and writing the request; what throws there leaves
    [Do] as an exception. *)
Context (exchange : bytes * bytes → bytes → outcome Socket).

Definition Do (req : Request) (resp : Response) : outcome (Status * Response) :=
  endpoints ← GetEndpointFromUrl (req_url req);
  socket ← exchange endpoints (request_to_buffers req);
  ReadResponse socket resp.

Definition http_Get (url : bytes) (resp : Response) : outcome (Status * Response) :=
  req ← make_request (bs "GET") url;
  Do req resp.

(** [Post], [PostJson] and [PostForm] after they have chosen body and type. *)
Definition post_body (url body type : bytes) (resp : Response) : outcome (Status * Response) :=
  req ← make_request (bs "POST") url;
  Do (request_set_header (bs "Content-Type") type (set_content body req)) resp.

Definition Post (url body : bytes) : Response → outcome (Status * Response) :=
  post_body url body (bs "text/plain").
Definition PostForm (url : bytes) (data : FormData) : Response → outcome (Status * Response) :=
  post_body url (Encode data) (bs "text/html").
End client.

Section client_json.
Context {json : Type} (dump : json → bytes).
Definition PostJson (what : read_end → bytes) (exchange : bytes * bytes → bytes → outcome Socket)
    (url : bytes) (data : json) : Response → outcome (Status * Response) :=
  post_body what exchange url (dump data) (bs "application/json").
End client_json.

(** * Properties *)

(** ** Reading up to a delimiter *)

Definition occurs (delim l : bytes) : Prop := ∃ a b, l = a ++ delim ++ b.

Lemma search_occurs delim l : is_Some (search delim l 0) ↔ occurs delim l.
Proof.
  split.
  - intros [j (_ & Hj & [b Hb] & _)%search_Some]. rewrite Nat.sub_0_r in Hb.
    exists (take j l), b. by rewrite <-Hb, take_drop.
  - intros (a & b & ->). destruct (search delim (a ++ delim ++ b) 0) eqn:Hs; [done|].
    pose proof (proj1 (search_None _ _ _) Hs (length a)) as H. rewrite drop_app_length in H.
    destruct H; [rewrite !length_app; lia | by exists b].
Qed.

Lemma occurs_app_l delim l k : occurs delim l → occurs delim (l ++ k).
Proof. intros (a & b & ->). exists a, (b ++ k). by rewrite <-!app_assoc. Qed.

Lemma read_until_hit delim buf cs : occurs delim (buf ++ concat cs) →
  ∃ buf' cs', read_until delim buf cs = Some (buf', cs') ∧
    buf' ++ concat cs' = buf ++ concat cs ∧ occurs delim buf'.
Proof.
  revert buf. induction cs as [|c cs IH]; intros buf Ho; cbn [read_until].
  - cbn in Ho. rewrite app_nil_r in Ho. apply search_occurs in Ho as Hs.
    destruct Hs as [j ->]. by exists buf, [].
  - destruct (search delim buf 0) eqn:Hs.
    + exists buf, (c :: cs). split_and!; [done..|]. apply search_occurs. by rewrite Hs.
    + destruct (IH (buf ++ c)) as (buf' & cs' & -> & He & Ho').
      { cbn in Ho. by rewrite <-app_assoc. }
      exists buf', cs'. split_and!; [done| |done]. by rewrite He, <-app_assoc.
Qed.

Lemma read_until_miss delim buf cs : ¬ occurs delim (buf ++ concat cs) →
  read_until delim buf cs = None.
Proof.
  revert buf. induction cs as [|c cs IH]; intros buf Ho; cbn [read_until].
  - destruct (search delim buf 0) eqn:Hs; [|done]. destruct Ho.
    apply occurs_app_l, search_occurs. by rewrite Hs.
  - destruct (search delim buf 0) eqn:Hs.
    + destruct Ho. apply occurs_app_l, search_occurs. by rewrite Hs.
    + apply IH. by rewrite <-app_assoc.
Qed.

(** A buffer long enough to hold the delimiter reaches past the first line. *)
Lemma app_cut {A} (l r b x : list A) : b ++ x = l ++ r → (length l <= length b)%nat →
  ∃ r', b = l ++ r' ∧ r' ++ x = r.
Proof.
  intros H Hl. exists (drop (length l) b).
  assert (take (length l) b = l) as Ht.
  { apply (f_equal (take (length l))) in H. by rewrite take_app_le, take_app_length in H. }
  split; [by rewrite <-Ht at 1; rewrite take_drop|].
  apply (app_inv_head l). rewrite app_assoc, <-H. f_equal. by rewrite <-Ht at 1; rewrite take_drop.
Qed.

Lemma first_line l r buf x : CR ∉ l → buf ++ x = l ++ CRLF ++ r → occurs CRLF buf →
  ∃ r', buf = l ++ CRLF ++ r' ∧ r' ++ x = r.
Proof.
  intros Hl He (a & b & ->). rewrite app_assoc in He.
  destruct (decide (length l <= length a)%nat) as [Hle|Hlt].
  - rewrite app_assoc in He. apply app_cut in He as (r' & Hb & He).
    + exists r'. by rewrite (app_assoc a), Hb, <-app_assoc.
    + rewrite !length_app. cbn. lia.
  - exfalso. apply Hl. apply (f_equal (lookup (length a))) in He.
    rewrite <-!app_assoc in He. cbn [app] in He.
    rewrite list_lookup_middle in He by done.
    rewrite lookup_app_l in He by lia. by eapply list_elem_of_lookup_2.
Qed.

(** The header block ends at the first empty line. *)
Definition line_ok (l : bytes) : Prop := l ≠ [] ∧ LF ∉ l.
Definition block (ls : list bytes) : bytes := concat ((λ l, l ++ CRLF) <$> ls).

Lemma lf_position (l r : bytes) i : LF ∉ l → (l ++ CR :: LF :: r) !! i = Some LF →
  (length l < i)%nat.
Proof.
  intros Hl Hi. destruct (decide (i < length l)%nat) as [Hlt|].
  - rewrite lookup_app_l in Hi by done. by apply list_elem_of_lookup_2 in Hi.
  - destruct (decide (i = length l)) as [->|]; [|lia].
    by rewrite list_lookup_middle in Hi.
Qed.

Lemma block_end ls a b r : Forall line_ok ls →
  a ++ CRLF ++ CRLF ++ b = block ls ++ CRLF ++ r →
  (length (block ls ++ CRLF) <= length (a ++ CRLF ++ CRLF))%nat.
Proof.
  intros Hls. revert a. induction Hls as [|l ls [Hne Hlf] Hls IH]; intros a He.
  { rewrite !length_app. cbn. lia. }
  change (block (l :: ls)) with ((l ++ CRLF) ++ block ls) in *.
  rewrite <-!app_assoc in He. cbn [app] in He.
  assert (length a = length l ∨ length a = S (length l) ∨ (length (l ++ CRLF) <= length a)%nat)
    as [Ha|[Ha|Ha]].
  { assert (length l < S (length a))%nat; [|rewrite length_app; cbn; lia].
    eapply (lf_position l _ _ Hlf). rewrite <-He.
    by rewrite lookup_app_r, Nat.sub_succ_l, Nat.sub_diag by lia. }
  - apply app_inj_1 in He as [_ He]; [|done]. injection He as He.
    destruct ls as [|l2 ls]; [rewrite !length_app, Ha; cbn; lia|]. exfalso.
    apply Forall_cons in Hls as [[Hne2 Hlf2] _].
    change (block (l2 :: ls)) with ((l2 ++ CRLF) ++ block ls) in He.
    rewrite <-!app_assoc in He. cbn [app] in He.
    assert (length l2 < 1)%nat; [|by destruct l2; cbn in *; [|lia]].
    eapply (lf_position l2 _ _ Hlf2). by rewrite <-He.
  - exfalso. apply (f_equal (lookup (length a))) in He. rewrite list_lookup_middle in He by done.
    rewrite lookup_app_r, Ha, Nat.sub_succ_l, Nat.sub_diag in He by lia. discriminate He.
  - change (CR :: LF :: CR :: LF :: b) with (CRLF ++ CRLF ++ b) in He.
    change (CR :: LF :: block ls ++ CR :: LF :: r) with (CRLF ++ block ls ++ CRLF ++ r) in He.
    rewrite (app_assoc l) in He. apply app_cut in He as (a' & -> & He); [|done].
    specialize (IH a' He). rewrite !length_app in *. lia.
Qed.

(** ** The parts of a response *)

Definition header_line (h : Header) : bytes := name h ++ bs ": " ++ value h.

(** The value of a header as the client keeps it: without blanks at its ends,
    unless it has nothing but blanks (and the carriage return of its line). *)
Definition kept_value (v : bytes) : bytes := trimmed kSpaceChars (SP :: v ++ [CR]).
Definition keep_headers (hs : list Header) (acc : list Header) : list Header :=
  foldl (λ acc h, set_header (name h) (kept_value (value h)) acc) acc hs.

Record wire_header (h : Header) : Prop := {
  name_no_colon : ":"%char ∉ name h;
  name_no_lf : LF ∉ name h;
  value_no_lf : LF ∉ value h;
}.

Lemma header_bytes hs c :
  concat (concat (header_buffers <$> hs) ++ [crlf] ++ [c])
  = block (header_line <$> hs) ++ CRLF ++ c.
Proof.
  induction hs as [|h hs IH]; [cbn; by rewrite app_nil_r|].
  change (block (header_line <$> h :: hs)) with ((header_line h ++ CRLF) ++ block (header_line <$> hs)).
  rewrite <-!app_assoc, <-IH. unfold header_line.
  change (concat (header_buffers <$> h :: hs)) with (header_buffers h ++ concat (header_buffers <$> hs)).
  rewrite <-(app_assoc (header_buffers h)). unfold header_buffers at 1. cbn [app concat].
  unfold name_value_separator, crlf. by rewrite <-!app_assoc.
Qed.

Lemma to_buffers_bytes s hs c : ∃ bufs, to_buffers (Resp (Some s) hs c) = Ret bufs ∧
  concat bufs = status_line s ++ block (header_line <$> hs) ++ CRLF ++ c.
Proof. eexists. split; [done|]. rewrite <-header_bytes. done. Qed.

Lemma status_line_read s r :
  let '(v, i) := extract_string (IStream (status_line s ++ r) false false) in
  let '(c, i) := extract_uint i in
  let '(m, i) := getline i in
  take 5 v = bs "HTTP/" ∧ c = Some (status_number s) ∧ i = IStream r false false.
Proof. destruct s; vm_compute; done. Qed.

Lemma getline_line l r : LF ∉ l →
  getline (IStream (l ++ LF :: r) false false) = (l, IStream r false false).
Proof.
  intros Hl. unfold getline. cbn [stream_good eofbit failbit negb andb sbuf].
  assert (line_of (l ++ LF :: r) = (l, Some r)) as ->; [|done].
  induction l as [|c l IH]; cbn [line_of app]; [done|].
  apply not_elem_of_cons in Hl as [Hc Hl]. rewrite bool_decide_false by congruence.
  by rewrite IH.
Qed.

Lemma header_line_ok h : wire_header h → line_ok (header_line h ++ [CR]).
Proof.
  intros [_ Hn Hv]. unfold header_line, line_ok. split.
  - by destruct (name h).
  - change (bs ": ") with [":"%char; SP]. rewrite !not_elem_of_app. split; [|by_decide].
    split_and!; [done | by_decide | done].
Qed.

(** A header line is cut at its colon. *)
Lemma split_header h : wire_header h → fits (header_line h ++ [CR]) →
  let hdr := header_line h ++ [CR] in
  let colon := str_find_first_of hdr (bs ":") 0 in
  colon ≠ npos ∧ str_substr hdr 0 colon = Ret (name h) ∧
  ∃ v w, str_substr hdr (colon + 1) npos = Ret v ∧ StrTrim (sv_of_string v) sv_null = Ret w ∧
    chars w = kept_value (value h).
Proof.
  intros [Hn _ _]. unfold header_line. change (bs ": ") with [":"%char; SP].
  rewrite <-!app_assoc. cbn [app]. intros Hf. autorewrite with len in Hf. cbn zeta.
  assert (str_find_first_of (name h ++ ":"%char :: SP :: value h ++ [CR]) (bs ":") 0
    = len (name h)) as ->.
  { unfold str_find_first_of. apply str_find_if_hit0; [|done].
    apply Forall_forall. intros x Hx. apply in_set_false. set_solver. }
  split; [unfold npos; lia|]. unfold str_substr. rewrite !(proj2 (Z.ltb_ge _ _)) by len_lia.
  split; [by rewrite slice_app_l|].
  exists (SP :: value h ++ [CR]).
  destruct (StrTrim_trimmed (sv_of_string (SP :: value h ++ [CR])) sv_null) as (w & Hw & _ & Hc).
  { apply sv_ok_string. len_lia. }
  { apply sv_ok_null. }
  exists w. split; [|split; [done|]].
  - f_equal. change (":"%char :: SP :: value h ++ [CR]) with ([":"%char] ++ SP :: value h ++ [CR]).
    rewrite app_assoc. replace (len (name h) + 1) with (len (name h ++ [":"%char])) by len_lia.
    apply slice_app_r. unfold npos. len_lia.
  - rewrite Hc, chars_of_string. done.
Qed.

Lemma read_headers_block fuel hs c resp : (length hs < fuel)%nat → Forall wire_header hs →
  fits (block (header_line <$> hs)) →
  read_headers fuel (IStream (block (header_line <$> hs) ++ CRLF ++ c) false false) resp
  = Ret (IStream c false false, Resp (status resp) (keep_headers hs (headers resp)) (content resp)).
Proof.
  intros Hf Hw. revert fuel resp Hf. induction Hw as [|h hs Hh Hw IH]; intros fuel resp Hf Hfit;
    (destruct fuel as [|fuel]; [cbn in Hf; lia|]); cbn [read_headers].
  - change (block (header_line <$> []) ++ CRLF ++ c) with ([CR] ++ LF :: c).
    rewrite getline_line by by_decide. cbn [failbit negb andb].
    rewrite bool_decide_true by done. by destruct resp.
  - change (block (header_line <$> h :: hs))
      with ((header_line h ++ CRLF) ++ block (header_line <$> hs)) in *.
    replace (((header_line h ++ CRLF) ++ block (header_line <$> hs)) ++ CRLF ++ c)
      with ((header_line h ++ [CR]) ++ LF :: (block (header_line <$> hs) ++ CRLF ++ c))
      by (rewrite <-!app_assoc; done).
    rewrite getline_line by by apply header_line_ok. cbn [failbit negb andb].
    rewrite bool_decide_false.
    2:{ unfold header_line. destruct (name h) as [|x [|? ?]]; discriminate. }
    cbn [negb]. autorewrite with len in Hfit.
    destruct (split_header h Hh) as (H1 & -> & v & w & -> & Hw' & Hc); [len_lia|].
    rewrite (proj2 (Z.eqb_neq _ _)) by done. cbn [negb mbind outcome_bind]. rewrite Hw'.
    cbn [mbind outcome_bind]. rewrite Hc, IH by (cbn in Hf; len_lia). done.
Qed.

(** A value without blanks at its ends is kept as it is. *)
Definition neat (v : bytes) : Prop :=
  ∃ a z, head v = Some a ∧ last v = Some z ∧ (a ∉ kSpaceChars) ∧ z ∉ kSpaceChars.

Lemma kept_value_neat v : neat v → kept_value v = v.
Proof.
  intros (a & z & Ha & Hz & Hna & Hnz). unfold kept_value, trimmed.
  destruct v as [|a' v]; [done|]. injection Ha as ->.
  destruct (forallb _ _) eqn:Hall.
  { apply forallb_all_in in Hall. unfold all_in in Hall. rewrite Forall_cons in Hall.
    destruct Hall as [_ Hall]. cbn [app] in Hall. rewrite Forall_cons in Hall. by destruct Hall. }
  change (SP :: (a :: v) ++ [CR]) with ([SP] ++ a :: (v ++ [CR])).
  rewrite drop_set_app; [|repeat constructor; by_decide | done].
  change (a :: v ++ [CR]) with ((a :: v) ++ [CR]). apply last_Some in Hz as [l Hl]. rewrite Hl.
  rewrite <-app_assoc. change ([z] ++ [CR]) with (z :: [CR]).
  rewrite drop_set_r_app; [done | repeat constructor; by_decide | done].
Qed.

Lemma set_header_new n v hs : n ∉ name <$> hs → set_header n v hs = hs ++ [Hdr n v].
Proof.
  induction hs as [|h hs IH]; [done|]. rewrite fmap_cons, not_elem_of_cons. intros [Hne Hn].
  cbn [set_header]. rewrite bool_decide_false by congruence. by rewrite IH.
Qed.

Lemma keep_headers_neat hs acc : Forall (λ h, neat (value h)) hs →
  NoDup (name <$> acc ++ hs) → keep_headers hs acc = acc ++ hs.
Proof.
  intros Hn. revert acc. induction Hn as [|h hs Hh Hn IH]; intros acc Hd;
    [by rewrite app_nil_r|].
  unfold keep_headers in *. cbn [foldl]. rewrite kept_value_neat by done.
  rewrite set_header_new.
  - destruct h as [n v]. cbn [name value]. rewrite IH; [by rewrite <-app_assoc|].
    by rewrite <-app_assoc.
  - rewrite fmap_app, NoDup_app in Hd. destruct Hd as (_ & Hd & _). intros Hin.
    apply (Hd _ Hin). rewrite fmap_cons. left.
Qed.

Section client_props.
Context (what : read_end → bytes).

Lemma block_length hs : (length hs <= length (block (header_line <$> hs)))%nat.
Proof.
  induction hs as [|h hs IH]; [done|].
  change (block (header_line <$> h :: hs)) with ((header_line h ++ CRLF) ++ block (header_line <$> hs)).
  rewrite !length_app. cbn. lia.
Qed.

(** The status line has arrived. *)
Lemma ReadResponse_status s r cs e resp :
  concat cs = status_line s ++ r →
  ∃ buf cs', buf ++ concat cs' = r ∧
    ReadResponse what (Sock cs e) resp =
    if negb (status_number s =? 200) then Ret (status_error (status_number s), resp)
    else
      match read_until (CRLF ++ CRLF) buf cs' with
      | None => Ret (CancelledError (what e), resp)
      | Some (buf, cs) =>
          '(s, resp) ← read_headers (S (length buf)) (IStream buf false false) resp;
          match e with
          | eof_error => Ret (OkStatus, Resp (Some ok) (headers resp) (sbuf s ++ concat cs))
          | read_error => Ret (CancelledError (what read_error), resp)
          end
      end.
Proof.
  intros Hcs. destruct (status_line_number s) as (reason & Hline & Hcr & Hlf).
  assert (∃ l, status_line s = l ++ CRLF ∧ CR ∉ l) as (l & Hl & Hl').
  { exists (take (length (status_line s) - 2) (status_line s)).
    destruct s; (split; [vm_compute; reflexivity | by_decide]). }
  destruct (read_until_hit CRLF [] cs) as (buf & cs' & Hr & He & Ho).
  { exists l, r. cbn [app]. by rewrite Hcs, Hl, <-app_assoc. }
  cbn [app] in He. rewrite Hcs, Hl, <-app_assoc in He.
  destruct (first_line l r buf (concat cs') Hl' He Ho) as (r' & -> & Hr').
  exists r', cs'. split; [done|]. unfold ReadResponse. cbn [chunks ending]. rewrite Hr.
  rewrite app_assoc, <-Hl. pose proof (status_line_read s r') as Hs.
  destruct (extract_string _) as [v i1]. destruct (extract_uint i1) as [c i2].
  destruct (getline i2) as [m i3]. destruct Hs as (Hv & -> & ->).
  rewrite Hv. cbn [failbit]. rewrite bool_decide_true by done. done.
Qed.

Lemma block_ends ls : ls ≠ [] → ∃ p, block ls = p ++ CRLF.
Proof.
  destruct ls as [|l ls] using rev_ind; [done|]. intros _. unfold block.
  rewrite fmap_app, concat_app. cbn. rewrite app_nil_r, app_assoc. by eexists.
Qed.

Lemma ReadResponse_ok hs c cs resp :
  Forall wire_header hs → hs ≠ [] → fits (block (header_line <$> hs)) →
  concat cs = status_line ok ++ block (header_line <$> hs) ++ CRLF ++ c →
  ReadResponse what (Sock cs eof_error) resp
  = Ret (OkStatus, Resp (Some ok) (keep_headers hs (headers resp)) c).
Proof.
  intros Hw Hne Hf Hcs.
  destruct (ReadResponse_status ok _ cs eof_error resp Hcs) as (buf & cs' & He & ->).
  cbn [status_number]. rewrite Z.eqb_refl. cbn [negb].
  assert (Forall line_ok (header_line <$> hs)) as Hok.
  { apply Forall_fmap. eapply Forall_impl; [done|]. intros h [? Hl]%header_line_ok.
    apply not_elem_of_app in Hl as [Hl _]. split; [|done]. unfold header_line.
    by destruct (name h). }
  destruct (read_until_hit (CRLF ++ CRLF) buf cs') as (buf' & cs2 & -> & He2 & (a & b & Hb)).
  { rewrite He. destruct (block_ends (header_line <$> hs)) as [p ->]; [by destruct hs|].
    exists p, c. by rewrite <-!app_assoc. }
  rewrite He in He2.
  assert (∃ c1, buf' = (block (header_line <$> hs) ++ CRLF) ++ c1 ∧ c1 ++ concat cs2 = c)
    as (c1 & -> & Hc).
  { apply app_cut; [by rewrite <-app_assoc|]. subst buf'.
    rewrite <-!app_assoc in He2. pose proof (block_end _ _ _ _ Hok He2) as Hl.
    rewrite !length_app in *. cbn in *. lia. }
  rewrite <-!app_assoc, read_headers_block; [|pose proof (block_length hs); rewrite !length_app; lia
    | done | done].
  cbn [mbind outcome_bind sbuf headers]. by rewrite Hc.
Qed.
End client_props.

(** What a server writes, a client reads, however the network cuts it.  For a
    response in wire form: if its status is 200 and it has a header, the client
    reports success and holds the body and every header in order (a value loses
    the blanks at its ends, and a response object that was fresh holds exactly the
    headers sent); any other status is reported as an error that names its number.
    Without a header the client waits for an empty line that has already passed
    and reports the end of the stream as a cancelled call. *)
Theorem Response_received (what : read_end → bytes) (r resp : Response) (bufs cs : list bytes) :
  to_buffers r = Ret bufs → concat cs = concat bufs → fits (concat bufs) →
  Forall wire_header (headers r) →
  match status r with
  | Some ok =>
      (headers r ≠ [] →
         ReadResponse what (Sock cs eof_error) resp
         = Ret (OkStatus, Resp (Some ok) (keep_headers (headers r) (headers resp)) (content r))) ∧
      (Forall (λ h, neat (value h)) (headers r) → NoDup (name <$> headers resp ++ headers r) →
         keep_headers (headers r) (headers resp) = headers resp ++ headers r) ∧
      (headers r = [] → CR ∉ content r →
         ReadResponse what (Sock cs eof_error) resp = Ret (CancelledError (what eof_error), resp))
  | Some s =>
      ReadResponse what (Sock cs eof_error) resp = Ret (status_error (status_number s), resp)
  | None => False
  end.
Proof.
  intros Hb Hcs Hf Hw. destruct r as [[s|] hs c]; [|done]. cbn [status headers content] in *.
  destruct (to_buffers_bytes s hs c) as (bufs' & Hb' & Hbytes).
  rewrite Hb in Hb'. injection Hb' as <-. rewrite Hbytes in Hcs, Hf. clear Hb Hbytes.
  destruct (decide (s = ok)) as [->|Hs].
  - split_and!.
    + intros Hne. apply ReadResponse_ok; try done. autorewrite with len in Hf. len_lia.
    + intros Hn Hd. by apply keep_headers_neat.
    + intros -> Hcr. destruct (ReadResponse_status what ok _ cs eof_error resp Hcs)
        as (buf & cs' & He & ->).
      cbn [status_number]. rewrite Z.eqb_refl. cbn [negb]. rewrite read_until_miss; [done|].
      rewrite He. intros (a & b & Hab). change (block (header_line <$> [])) with (@nil ascii) in Hab.
      cbn [app] in Hab. apply Hcr.
      destruct a as [|x [|y a]]; cbn [app] in Hab; injection Hab as Hab; subst.
      * left.
      * discriminate.
      * apply elem_of_app. right. left.
  - destruct (ReadResponse_status what s _ cs eof_error resp Hcs) as (buf & cs' & _ & H).
    assert ((status_number s =? 200) = false) as Hn by (by destruct s).
    rewrite Hn in H. cbn [negb] in H. destruct s; try exact H. done.
Qed.

Lemma Response_received_witness :
  ReadResponse (λ _, bs "End of file")
    (Sock [bs "HTTP/1.0 200 O"; bs "K" ++ CRLF ++ bs "A: b" ++ CRLF ++ [CR]; [LF] ++ bs "hi"] eof_error)
    new_response = Ret (OkStatus, Resp (Some ok) [Hdr (bs "A") (bs "b")] (bs "hi")) ∧
  ReadResponse (λ _, bs "End of file")
    (Sock [bs "HTTP/1.0 200 OK" ++ CRLF ++ CRLF ++ bs "hi"] eof_error) new_response
  = Ret (CancelledError (bs "End of file"), new_response).
Proof.
  split.
  - destruct (Response_received (λ _, bs "End of file")
      (Resp (Some ok) [Hdr (bs "A") (bs "b")] (bs "hi")) new_response
      (match to_buffers (Resp (Some ok) [Hdr (bs "A") (bs "b")] (bs "hi")) with Ret b => b | _ => [] end)
      [bs "HTTP/1.0 200 O"; bs "K" ++ CRLF ++ bs "A: b" ++ CRLF ++ [CR]; [LF] ++ bs "hi"]) as (H & _).
    + vm_compute. reflexivity.
    + vm_compute. reflexivity.
    + vm_compute. reflexivity.
    + constructor; [|constructor]. split; by_decide.
    + exact (H ltac:(discriminate)).
  - destruct (Response_received (λ _, bs "End of file") (Resp (Some ok) [] (bs "hi")) new_response
      (match to_buffers (Resp (Some ok) [] (bs "hi")) with Ret b => b | _ => [] end)
      [bs "HTTP/1.0 200 OK" ++ CRLF ++ CRLF ++ bs "hi"]) as (_ & _ & H).
    + vm_compute. reflexivity.
    + vm_compute. reflexivity.
    + vm_compute. reflexivity.
    + constructor.
    + apply H; [reflexivity | by_decide].
Defined.

(** ** From end to end *)

(** The target of the request line, and what the server makes of the request:
    the headers are the client's own, those of [set_header] are not sent. *)
Definition request_target (u : Url) : bytes :=
  if bool_decide (raw_query u = []) then raw_path u else raw_path u ++ bs "?" ++ raw_query u.
Definition client_headers (req : Request) : list Header :=
  [Hdr (bs "Host") (host (req_url req)); Hdr (bs "Accept") (bs "*/*")] ++
  (if bool_decide (req_content req = []) then []
   else [Hdr (bs "Content-Length") (utoa (len (req_content req)))]) ++
  [Hdr (bs "TcpConnection") (bs "close")].
Definition served_request (req : Request) (d : bytes) : Request :=
  finished (Req (req_method req) (request_target (req_url req)) (Some 1) (Some 0)
    (client_headers req) [] [] [] no_values [] (MkUrl [] [] [] [])) (req_content req) d.

Lemma request_to_buffers_render req :
  request_to_buffers req
  = render_request (req_method req) (request_target (req_url req)) 1 0 (client_headers req)
      (req_content req).
Proof.
  unfold request_to_buffers, render_request, request_target, client_headers.
  change (utoa 1) with (bs "1"). change (utoa 0) with (bs "0").
  do 3 f_equal. destruct (decide (req_content req = [])) as [Hc|Hc];
    [rewrite !(bool_decide_true (req_content req = [])) by done
    |rewrite !(bool_decide_false (req_content req = [])) by done].
  - rewrite Hc. unfold render_header. cbn [fmap list_fmap app concat name value].
    by rewrite <-!app_assoc.
  - unfold render_header. cbn [fmap list_fmap app concat name value]. by rewrite <-!app_assoc.
Qed.

Lemma is_digit_no_ctl n : is_digit n = true → is_ctl n = false.
Proof. unfold is_digit, is_ctl. lia. Qed.

Lemma utoa_no_ctl n : 0 <= n → no_ctl (utoa n).
Proof.
  intros Hn. eapply Forall_impl; [by apply utoa_digits|]. intros c Hc.
  apply is_digit_no_ctl, (digit_char_facts c Hc).
Qed.

Lemma client_headers_ok req : no_ctl (host (req_url req)) → Forall header_ok (client_headers req).
Proof.
  intros Hh. assert (∀ n v, n ≠ [] → forallb (λ c, negb (not_token (schar c))) n = true → no_ctl v →
    header_ok (Hdr n v)) as Hok.
  { intros n v Hn Ht Hv. split; [|done]. split; [done|]. apply Forall_forall. intros c Hc.
    rewrite forallb_forall in Ht. apply list_elem_of_In, Ht in Hc. by apply negb_true_iff in Hc. }
  unfold client_headers. repeat apply Forall_app_2.
  - constructor; [|constructor; [|constructor]]; (apply Hok; [done | done |]); [done | by_decide].
  - case_bool_decide; constructor; [|constructor]. apply Hok; [done | done |].
    apply utoa_no_ctl. lia.
  - constructor; [|constructor]. apply Hok; [done | done |]. by_decide.
Qed.

Lemma answer_served {Func} (call : Func → Request → Response → outcome Response) mux req d :
  is_token (req_method req) →
  Forall (λ c, c ≠ SP ∧ is_ctl (schar c) = false) (request_target (req_url req)) →
  fits (request_target (req_url req) ++ [NUL]) →
  UrlDecode (request_target (req_url req)) = Ret (true, d) →
  no_ctl (host (req_url req)) →
  answer call mux (request_to_buffers req)
  = ('(_, reply) ← ServeHttp call mux (served_request req d) new_response;
     buffers ← to_buffers reply; Ret (concat buffers)).
Proof.
  intros Hm Hu Hf Hd Hh. rewrite request_to_buffers_render. unfold answer.
  destruct (parse_render (req_method req) (request_target (req_url req)) 1 0 (client_headers req)
    (req_content req) Hm Hu Hf) as (b & d' & Hd' & Hp); [unfold version_max, INT_MAX; lia..
    | by apply client_headers_ok |].
  rewrite Hd in Hd'. injection Hd' as <- <-. unfold reset. by rewrite Hp.
Qed.

Lemma GetEndpoint_total url : fits (host url) → ∃ q, GetEndpointFromUrl url = Ret q.
Proof.
  intros Hf. unfold GetEndpointFromUrl. destruct (0 <? _) eqn:Hc; [|by eexists].
  destruct (split_last_char ":"%char (host url)) as [Hn|(l1 & l2 & Hl & Hn)].
  - change (bs ":") with [":"%char]. rewrite rfind_char_miss by done. unfold str_substr.
    change (u64 (npos + 1)) with 0. rewrite !(proj2 (Z.ltb_ge _ 0)) by lia. by eexists.
  - change (bs ":") with [":"%char]. rewrite Hl in *. rewrite rfind_char_hit by done.
    autorewrite with len in Hf. unfold str_substr. rewrite u64_small by lia.
    rewrite !(proj2 (Z.ltb_ge _ _)) by len_lia. by eexists.
Qed.

(** A network that brings the request to a server in one piece and its answer
    back in whatever pieces. *)
Definition network {Func} (call : Func → Request → Response → outcome Response)
    (mux : ServeMux Func) (cut : bytes → list bytes) (_ : bytes * bytes) (request : bytes)
    : outcome Socket :=
  w ← answer call mux request; Ret (Sock (cut w) eof_error).


Definition demo_call (body : bytes) (req : Request) (resp : Response) : outcome Response :=
  Ret (WriteText ok (body ++ Param (Some (bs "name")) req ++ req_content req) resp).
Definition demo_mux : ServeMux bytes :=
  match set_handler (bs "/hi") (bs "hello ") new_mux with Ret m => m | _ => new_mux end.
Definition demo_request : Request :=
  match make_request (bs "POST") (bs "http://h:80/hi?name=a%20b") with
  | Ret r => set_content (bs "!") r | _ => new_request end.


(** Which host and service a URL leads to.  With a port the host is what
    stands before the last colon and the service what stands behind it.  Without
    a colon the test [colon > 0] holds all the same, and the name of the host is
    looked up as the service too: the scheme is used only for a host that starts
    with its only colon, and the default "0.0.0.0" only for a URL without host. *)
Theorem GetEndpointFromUrl_spec (url : Url) : fits (host url) →
  (∀ h port, host url = h ++ ":"%char :: port → ":"%char ∉ port →
     GetEndpointFromUrl url = Ret (if bool_decide (h = []) then (host url, scheme url) else (h, port))) ∧
  (":"%char ∉ host url → host url ≠ [] → GetEndpointFromUrl url = Ret (host url, host url)) ∧
  (host url = [] → GetEndpointFromUrl url = Ret (bs "0.0.0.0", [])).
Proof.
  intros Hf. unfold GetEndpointFromUrl. change (bs ":") with [":"%char]. split_and!.
  - intros h port Hh Hp. rewrite Hh in *. rewrite rfind_char_hit by done.
    autorewrite with len in Hf. case_bool_decide as Hn.
    + subst h. done.
    + destruct h as [|c h]; [done|]. rewrite (proj2 (Z.ltb_lt 0 _)) by len_lia.
      unfold str_substr. rewrite u64_small by len_lia.
      rewrite !(proj2 (Z.ltb_ge _ _)) by len_lia. cbn [mbind outcome_bind].
      rewrite slice_app_l. rewrite bool_decide_false by done.
      change (":"%char :: port) with ([":"%char] ++ port). rewrite app_assoc.
      replace (len (c :: h) + 1) with (len ((c :: h) ++ [":"%char])) by len_lia.
      rewrite slice_app_r by (unfold npos; len_lia). done.
  - intros Hn Hne. rewrite rfind_char_miss by done. change (0 <? npos) with true. cbn iota.
    unfold str_substr. change (u64 (npos + 1)) with 0. rewrite !(proj2 (Z.ltb_ge _ 0)) by lia.
    cbn [mbind outcome_bind]. rewrite !slice_all by (unfold npos; lia).
    by rewrite bool_decide_false.
  - by intros ->.
Qed.

Lemma GetEndpointFromUrl_spec_witness :
  GetEndpointFromUrl (MkUrl (bs "http") (bs "h:80") [] []) = Ret (bs "h", bs "80") ∧
  GetEndpointFromUrl (MkUrl (bs "http") (bs "h") [] []) = Ret (bs "h", bs "h").
Proof.
  split.
  - apply (GetEndpointFromUrl_spec (MkUrl (bs "http") (bs "h:80") [] [])) with (h := bs "h");
      [vm_compute; reflexivity | reflexivity | by_decide].
  - apply (GetEndpointFromUrl_spec (MkUrl (bs "http") (bs "h") [] []));
      [vm_compute; reflexivity | by_decide | discriminate].
Defined.
