(* ===== verification/FmtBuffer.v ===== *)
(** * Output buffers of the formatting library (src/cppboot/base/internal/fmt/core.h, format.h)

    [buffer] grows through a virtual function that may flush instead; the buffers are the
    growing memory buffer, the ones that write to an iterator or an array, with or without
    a limit, and the one that counts. *)

From S2P Require Import Prelude StdString.

Definition buffer_size : Z := 256.
Definition inline_buffer_size : Z := 500.
Definition max_size : Z := 2 ^ 63 - 1.

(** [fixed_buffer_traits]; without a limit, [buffer_traits], which does not count. *)
Record traits : Type := Traits { count_ : Z; limit_ : option Z }.

(** How much of [size] may be written, with the count behind it. *)
Definition limit (t : traits) (size : Z) : Z * traits :=
  match limit_ t with
  | None => (size, t)
  | Some l =>
      let n := if count_ t <? l then l - count_ t else 0 in
      (if size <? n then size else n, Traits (count_ t + size) (limit_ t))
  end.

(** What is behind a buffer: the memory buffer's own array or the heap; an iterator with
    what has been written to it; an array with what has been written to it, until the
    first flush by writing to the buffer itself; a counter. *)
Inductive sink : Type :=
  | Memory (on_heap : bool)
  | Iterator (out : bytes) (t : traits)
  | Array (direct : bool) (out : bytes) (t : traits)
  | Counting (count : Z).

Record buffer : Type := Buffer { data : bytes; capacity : Z; behind : sink }.

Definition memory_buffer : buffer := Buffer [] inline_buffer_size (Memory false).
Definition iterator_buffer (n : option Z) : buffer := Buffer [] buffer_size (Iterator [] (Traits 0 n)).
Definition array_buffer (n : Z) : buffer := Buffer [] n (Array true [] (Traits 0 (Some n))).
Definition counting_buffer : buffer := Buffer [] buffer_size (Counting 0).

(** [flush]: of an array, only what was written to it directly counts. *)
Definition flush (b : buffer) : buffer :=
  match behind b with
  | Iterator out t =>
      let '(n, t) := limit t (len (data b)) in
      Buffer [] (capacity b) (Iterator (out ++ take (Z.to_nat n) (data b)) t)
  | Array direct out t =>
      let '(n, t) := limit t (len (data b)) in
      if direct then Buffer [] buffer_size (Array false (out ++ take (Z.to_nat n) (data b)) t)
      else Buffer [] (capacity b) (Array direct out t)
  | _ => b
  end.

Definition grow (size : Z) (b : buffer) : buffer :=
  match behind b with
  | Memory _ =>
      let new_capacity := capacity b + capacity b / 2 in
      let new_capacity := if new_capacity <? size then size
                          else if max_size <? new_capacity then if max_size <? size then size else max_size
                          else new_capacity in
      Buffer (data b) new_capacity (Memory true)
  | Iterator _ _ => if len (data b) =? buffer_size then flush b else b
  | Array _ _ _ => if len (data b) =? capacity b then flush b else b
  | Counting n => if negb (len (data b) =? buffer_size) then b
                  else Buffer [] (capacity b) (Counting (n + len (data b)))
  end.

Definition try_reserve (new_capacity : Z) (b : buffer) : buffer :=
  if capacity b <? new_capacity then grow new_capacity b else b.

(** [ptr_[size_++] = value]: undefined when there is no space. *)
Definition push_back (c : ascii) (b : buffer) : outcome buffer :=
  let b := try_reserve (len (data b) + 1) b in
  if capacity b <=? len (data b) then Undef else Ret (Buffer (data b ++ [c]) (capacity b) (behind b)).

Fixpoint append (fuel : nat) (s : bytes) (b : buffer) : outcome buffer :=
  match fuel with
  | O => OutOfFuel
  | S fuel =>
      match s with
      | [] => Ret b
      | _ =>
          let b := try_reserve (len (data b) + len s) b in
          let free_cap := u64 (capacity b - len (data b)) in
          let count := if free_cap <? len s then free_cap else len s in
          append fuel (drop (Z.to_nat count) s)
            (Buffer (data b ++ take (Z.to_nat count) s) (capacity b) (behind b))
      end
  end.

(** [out()] and [count()] *)
Definition written (b : buffer) : bytes :=
  match behind (flush b) with Iterator out _ | Array _ out _ => out | _ => data b end.
Definition count (b : buffer) : Z :=
  match behind b with
  | Iterator _ t | Array _ _ t => count_ t + len (data b)
  | Counting n => n + len (data b)
  | Memory _ => len (data b)
  end.

(** ** What is written *)

Inductive write : Type := Push (c : ascii) | Append (s : bytes).
Definition write_text (w : write) : bytes := match w with Push c => [c] | Append s => s end.
Definition text (l : list write) : bytes := concat (write_text <$> l).

Definition run_write (w : write) (b : buffer) : outcome buffer :=
  match w with Push c => push_back c b | Append s => append (S (length s)) s b end.
Fixpoint run (l : list write) (b : buffer) : outcome buffer :=
  match l with [] => Ret b | w :: l => b ← run_write w b; run l b end.

(** A buffer through which [t] has been written. *)
Definition flushed_ok (tr : traits) (flushed : bytes) : Prop :=
  match limit_ tr with None => count_ tr = 0 | Some n => 0 <= n < 2 ^ 63 ∧ count_ tr = len flushed end.
Definition cut (n : option Z) (s : bytes) : bytes := match n with Some n => take (Z.to_nat n) s | None => s end.

Definition through (b : buffer) (t : bytes) : Prop :=
  len (data b) <= capacity b <= max_size ∧
  match behind b with
  | Memory on_heap => data b = t ∧ (on_heap = false → capacity b = inline_buffer_size) ∧
                      (on_heap = true → inline_buffer_size < capacity b)
  | Iterator out tr => capacity b = buffer_size ∧ ∃ flushed, t = flushed ++ data b ∧ flushed_ok tr flushed ∧
                       out = cut (limit_ tr) flushed
  | Array direct out tr => ∃ flushed n, t = flushed ++ data b ∧ limit_ tr = Some n ∧ flushed_ok tr flushed ∧
                           if direct then flushed = [] ∧ out = [] ∧ capacity b = n
                           else n <= len flushed ∧ out = take (Z.to_nat n) flushed ∧ capacity b = buffer_size
  | Counting n => capacity b = buffer_size ∧ n + len (data b) = len t
  end.

(** * Lemmas *)

(** What a limit lets through of a piece. *)
Lemma limit_cut tr flushed s n tr' : flushed_ok tr flushed → limit tr (len s) = (n, tr') →
  flushed_ok tr' (flushed ++ s) ∧ limit_ tr' = limit_ tr ∧
  cut (limit_ tr) flushed ++ take (Z.to_nat n) s = cut (limit_ tr) (flushed ++ s).
Proof.
  unfold flushed_ok, limit, cut. destruct (limit_ tr) as [l|] eqn:E; intros Hok Hl.
  - destruct Hok as [Hr Hc]. injection Hl as <- <-. cbn [limit_ count_]. split_and!; [lia|lia|len_lia|done|].
    rewrite take_app, Hc. f_equal.
    destruct (len flushed <? l) eqn:E1; bool_hyps.
    + destruct (len s <? l - len flushed) eqn:E2; bool_hyps; [rewrite !take_ge by lia; done|]. f_equal. lia.
    + destruct (len s <? 0) eqn:E2; bool_hyps; [lia|]. f_equal. lia.
  - injection Hl as <- <-. rewrite E. split_and!; [done|done|]. by rewrite Nat2Z.id, take_ge.
Qed.

(** After [try_reserve] there is space for a character at least. *)
Lemma reserve_through k b t : through b t → 0 < k → len t + k < 2 ^ 63 →
  let b' := try_reserve (len (data b) + k) b in through b' t ∧ len (data b') < capacity b'.
Proof.
  intros Hthr Hk Ht. pose proof Hthr as [Hc Hb]. unfold try_reserve. destruct (capacity b <? _) eqn:E; bool_hyps; [|by split; [|lia]].
  unfold grow. destruct (behind b) as [h|out tr|direct out tr|n] eqn:Eb.
  - destruct Hb as (Hd & H1 & H2). subst t. cbv zeta. unfold max_size in *. pose proof (Z.div_mod (capacity b) 2 ltac:(lia)).
    pose proof (Z.mod_pos_bound (capacity b) 2 ltac:(lia)).
    set (nc := if _ <? _ then _ else _).
    assert (len (data b) + k <= nc <= 2 ^ 63 - 1 ∧ capacity b < nc) as Hnc by (subst nc; repeat case_test; bool_hyps; lia).
    assert (inline_buffer_size <= capacity b) by (destruct h; [specialize (H2 eq_refl); lia|specialize (H1 eq_refl); lia]).
    split; [|cbn; lia]. split; cbn; [unfold max_size; lia|]. split_and!; [done|done|intros _; lia].
  - destruct Hb as (Hcap & flushed & Ht' & Hok & Hout). unfold buffer_size in *.
    destruct (len (data b) =? 256) eqn:E2; bool_hyps; [|split; [done|lia]].
    unfold flush. rewrite Eb. destruct (limit tr (len (data b))) as [n tr'] eqn:El.
    destruct (limit_cut tr flushed (data b) n tr' Hok El) as (Hok' & Hl & Hcut). rewrite <-Ht' in Hok', Hcut. rewrite Hout, Hcut.
    split; [|cbn; lia]. split; cbn; [unfold max_size; lia|]. split; [done|]. exists t. rewrite app_nil_r, Hl. done.
  - destruct Hb as (flushed & n & Ht' & Hlim & Hok & Hb).
    destruct (len (data b) =? capacity b) eqn:E2; bool_hyps; [|split; [done|lia]].
    unfold flush. rewrite Eb. destruct (limit tr (len (data b))) as [m tr'] eqn:El.
    destruct (limit_cut tr flushed (data b) m tr' Hok El) as (Hok' & Hl & Hcut). rewrite <-Ht' in Hok', Hcut. rewrite Hlim in *. cbn [cut] in Hcut.
    destruct direct.
    + destruct Hb as (-> & -> & Hcap). split; [|cbn; unfold buffer_size; lia]. split; cbn; [unfold max_size, buffer_size; lia|].
      cbn [app] in Ht'. exists t, n. rewrite app_nil_r. split_and!; [done|done|done|subst t; lia| |done].
      rewrite <-Hcut. unfold cut. by rewrite take_nil.
    + destruct Hb as (Hn & Hout & Hcap). split; [|cbn; unfold buffer_size in *; lia].
      split; cbn; [unfold max_size, buffer_size in *; lia|].
      exists t, n. rewrite app_nil_r. split_and!; [done|done|done| | |done].
      * subst t. len_lia.
      * rewrite Hout, Ht', take_app_le; [done|]. lia.
  - destruct Hb as [Hcap Hn]. unfold buffer_size in *.
    destruct (len (data b) =? 256) eqn:E2; bool_hyps; cbn [negb]; [|split; [done|lia]].
    split; [|cbn; lia]. split; cbn; [unfold max_size; lia|]. split; [done|]. lia.
Qed.

(** Memory has all the space that was asked for; so no piece is cut there. *)
Lemma store_through b t s : through b t → len (data b) + len s <= capacity b →
  through (Buffer (data b ++ s) (capacity b) (behind b)) (t ++ s).
Proof.
  intros [Hc Hb] Hs. split; cbn; [len_lia|]. destruct (behind b) as [h|out tr|direct out tr|n].
  - destruct Hb as (-> & H1 & H2). done.
  - destruct Hb as (Hcap & flushed & -> & Hok & Hout). split; [done|]. exists flushed. by rewrite <-app_assoc.
  - destruct Hb as (flushed & n & -> & Hlim & Hok & Hb). exists flushed, n. by rewrite <-app_assoc.
  - destruct Hb as [Hcap Hn]. split; [done|]. len_lia.
Qed.

Lemma append_through fuel : ∀ s b t, through b t → (length s < fuel)%nat → len t + len s < 2 ^ 63 →
  ∃ b', append fuel s b = Ret b' ∧ through b' (t ++ s).
Proof.
  induction fuel as [|fuel IH]; intros s b t Hb Hf Hl; [lia|]. cbn [append].
  destruct s as [|c s]; [exists b; by rewrite app_nil_r|]. set (l := c :: s) in *.
  assert (0 < len l) as H0 by (subst l; len_lia).
  destruct (reserve_through (len l) b t Hb H0 Hl) as [Hb' Hfree]. set (b' := try_reserve _ b) in *. cbv zeta.
  destruct Hb' as [Hc Hbehind]. pose proof (conj Hc Hbehind : through b' t) as Hb'.
  rewrite u64_small by (unfold max_size in *; lia).
  set (n := if _ <? _ then _ else _). assert (0 < n <= len l ∧ n <= capacity b' - len (data b')) as Hn
    by (subst n; destruct (_ <? _) eqn:E; bool_hyps; lia).
  destruct (IH (drop (Z.to_nat n) l) (Buffer (data b' ++ take (Z.to_nat n) l) (capacity b') (behind b')) (t ++ take (Z.to_nat n) l))
    as (b2 & Hr & Hb2).
  - apply store_through; [done|]. len_lia.
  - rewrite length_drop. lia.
  - len_lia.
  - exists b2. split; [done|]. by rewrite <-app_assoc, take_drop in Hb2.
Qed.

Lemma push_through c b t : through b t → len t + 1 < 2 ^ 63 → ∃ b', push_back c b = Ret b' ∧ through b' (t ++ [c]).
Proof.
  intros Hb Hl. unfold push_back. destruct (reserve_through 1 b t Hb ltac:(lia) Hl) as [Hb' Hfree].
  rewrite (proj2 (Z.leb_gt _ _)) by done. eexists. split; [reflexivity|]. apply store_through; [done|]. cbn. lia.
Qed.

Lemma run_through l : ∀ b t, through b t → len t + len (text l) < 2 ^ 63 →
  ∃ b', run l b = Ret b' ∧ through b' (t ++ text l).
Proof.
  induction l as [|w l IH]; intros b t Hb Hl; [exists b; by rewrite app_nil_r|].
  change (text (w :: l)) with (write_text w ++ text l) in *. rewrite len_app in Hl. cbn [run].
  assert (∃ b1, run_write w b = Ret b1 ∧ through b1 (t ++ write_text w)) as (b1 & -> & Hb1).
  { destruct w as [c|s]; cbn [run_write write_text] in *; [apply push_through; [done|]; autorewrite with len in *; lia|].
    apply append_through; [done|lia|]. lia. }
  cbn [mbind outcome_bind]. destruct (IH b1 (t ++ write_text w) Hb1) as (b2 & -> & Hb2); [len_lia|].
  exists b2. by rewrite app_assoc.
Qed.

Lemma through_written b t : through b t →
  match behind b with
  | Memory _ => data b = t
  | Iterator _ tr | Array _ _ tr => written b = cut (limit_ tr) t ∧ (limit_ tr ≠ None → count b = len t)
  | Counting _ => count b = len t
  end.
Proof.
  intros [Hc Hb]. unfold written, flush, count. destruct (behind b) as [h|out tr|direct out tr|n].
  - by destruct Hb.
  - destruct Hb as (Hcap & flushed & Ht & Hok & Hout). destruct (limit tr (len (data b))) as [m tr'] eqn:El.
    destruct (limit_cut tr flushed (data b) m tr' Hok El) as (_ & _ & Hcut). cbn [behind]. rewrite Hout, Hcut, <-Ht.
    split; [done|]. intros Hne. unfold flushed_ok in Hok. destruct (limit_ tr); [|done]. destruct Hok as [_ ->]. subst t. len_lia.
  - destruct Hb as (flushed & n & Ht & Hlim & Hok & Hb). destruct (limit tr (len (data b))) as [m tr'] eqn:El.
    destruct (limit_cut tr flushed (data b) m tr' Hok El) as (_ & _ & Hcut). rewrite Hlim in *. cbn [cut] in *.
    pose proof Hok as Hok'. unfold flushed_ok in Hok'. rewrite Hlim in Hok'. destruct Hok' as [Hn ->].
    split; [|intros _; subst t; len_lia]. destruct direct; cbn [behind].
    + destruct Hb as (-> & -> & _). rewrite take_nil in Hcut. by rewrite Hcut, <-Ht.
    + destruct Hb as (Hfl & -> & _). subst t. rewrite take_app_le; [done|]. lia.
  - destruct Hb as [_ Hn]. done.
Qed.

(** ** The kind of a buffer stays *)

Definition kind (b : buffer) : nat * option Z :=
  match behind b with
  | Memory _ => (0%nat, None) | Iterator _ t => (1%nat, limit_ t) | Array _ _ t => (2%nat, limit_ t) | Counting _ => (3%nat, None)
  end.

Lemma flush_kind b : kind (flush b) = kind b.
Proof.
  unfold flush, kind. assert (∀ t n, limit_ (limit t n).2 = limit_ t) as Hl by (intros t n; unfold limit; by destruct (limit_ t) eqn:E).
  destruct (behind b) as [h|out tr|direct out tr|n] eqn:E; rewrite ?E; try done;
    specialize (Hl tr (len (data b))); destruct (limit tr _) as [m tr']; cbn in *; [by rewrite Hl|].
  destruct direct; cbn; by rewrite Hl.
Qed.

Lemma reserve_kind k b : kind (try_reserve k b) = kind b.
Proof.
  unfold try_reserve, grow. destruct (_ <? k); [|done].
  destruct (behind b) as [h|out tr|direct out tr|n] eqn:E.
  - unfold kind. by rewrite E.
  - destruct (_ =? _); [apply flush_kind|done].
  - destruct (_ =? _); [apply flush_kind|done].
  - destruct (negb _); [done|]. unfold kind. by rewrite E.
Qed.

Lemma append_kind fuel : ∀ s b b', append fuel s b = Ret b' → kind b' = kind b.
Proof.
  induction fuel as [|fuel IH]; intros s b b' H; [done|]. cbn [append] in H. destruct s as [|c s]; [by injection H as <-|].
  cbv zeta in H. apply IH in H. rewrite H. exact (reserve_kind _ b).
Qed.

Lemma run_kind l : ∀ b b', run l b = Ret b' → kind b' = kind b.
Proof.
  induction l as [|w l IH]; intros b b' H; [by injection H as <-|]. cbn [run] in H. outcome_inv. apply IH in H. rewrite H.
  destruct w as [c|s]; cbn [run_write] in Hx; [|by apply append_kind in Hx].
  unfold push_back in Hx. destruct (_ <=? _); [done|]. injection Hx as <-. exact (reserve_kind _ b).
Qed.

(** * Properties *)

(** What is written to a buffer, one character or a piece of any length at a time and however often
    the buffer grows or flushes on the way, comes out unchanged: the memory buffer holds all of it, the
    buffers with a limit hand on exactly the first characters up to it and count all of them, and the
    counting buffer counts them. No character is stored beyond the capacity. *)
Theorem buffers_write (l : list write) : len (text l) < 2 ^ 63 →
  (∃ b, run l memory_buffer = Ret b ∧ data b = text l ∧ len (text l) <= capacity b) ∧
  (∃ b, run l (iterator_buffer None) = Ret b ∧ written b = text l) ∧
  (∀ n, 0 <= n < 2 ^ 63 →
     (∃ b, run l (iterator_buffer (Some n)) = Ret b ∧ written b = take (Z.to_nat n) (text l) ∧ count b = len (text l)) ∧
     (∃ b, run l (array_buffer n) = Ret b ∧ written b = take (Z.to_nat n) (text l) ∧ count b = len (text l))) ∧
  (∃ b, run l counting_buffer = Ret b ∧ count b = len (text l)).
Proof.
  intros Hl.
  assert (∀ b, through b [] → ∃ b', run l b = Ret b' ∧ through b' (text l) ∧ kind b' = kind b) as Hrun.
  { intros b Hb. destruct (run_through l b [] Hb Hl) as (b' & Hr & Hb'). exists b'. by pose proof (run_kind l b b' Hr). }
  assert (∀ n, 0 <= n < 2 ^ 63 → flushed_ok (Traits 0 (Some n)) []) as Hstart by (by intros n Hn).
  split_and!.
  - destruct (Hrun memory_buffer) as (b & Hr & Hb & Hk); [by vm_compute|]. exists b. split; [done|].
    pose proof (through_written b _ Hb) as Hw. destruct Hb as [Hc _]. unfold kind in Hk.
    destruct (behind b); try done. subst. rewrite <-Hw. split; [done|lia].
  - destruct (Hrun (iterator_buffer None)) as (b & Hr & Hb & Hk).
    { split; [by vm_compute|]. split; [done|]. by exists []. }
    exists b. split; [done|]. pose proof (through_written b _ Hb) as Hw. unfold kind in Hk.
    destruct (behind b) as [|out tr| |]; try done. destruct Hw as [-> _]. cbn in Hk. injection Hk as ->. done.
  - intros n Hn. split.
    + destruct (Hrun (iterator_buffer (Some n))) as (b & Hr & Hb & Hk).
      { split; [by vm_compute|]. split; [done|]. exists []. cbn [limit_ cut]. rewrite take_nil. by split_and!; [|apply Hstart|]. }
      exists b. split; [done|]. pose proof (through_written b _ Hb) as Hw. unfold kind in Hk.
      destruct (behind b) as [|out tr| |]; try done. destruct Hw as [-> Hcnt]. cbn in Hk. injection Hk as Hk. rewrite Hk in *.
      by rewrite Hcnt.
    + destruct (Hrun (array_buffer n)) as (b & Hr & Hb & Hk).
      { split; [cbn; unfold max_size; lia|]. exists [], n. split_and!; try done; apply Hn. }
      exists b. split; [done|]. pose proof (through_written b _ Hb) as Hw. unfold kind in Hk.
      destruct (behind b) as [| |direct out tr|]; try done. destruct Hw as [-> Hcnt]. cbn in Hk. injection Hk as Hk. rewrite Hk in *.
      by rewrite Hcnt.
  - destruct (Hrun counting_buffer) as (b & Hr & Hb & Hk); [by vm_compute|]. exists b. split; [done|].
    pose proof (through_written b _ Hb) as Hw. unfold kind in Hk. by destruct (behind b).
Qed.

Lemma buffers_write_witness :
  let l := [Append (bs "abc"); Push "d"; Append (replicate 600 "x"%char); Push "e"] in
  (∃ b, run l memory_buffer = Ret b ∧ data b = text l ∧ len (text l) <= capacity b) ∧
  (∃ b, run l (array_buffer 5) = Ret b ∧ written b = take 5 (text l) ∧ count b = len (text l)) ∧
  take 5 (text l) = bs "abcdx".
Proof.
  cbv zeta. destruct (buffers_write [Append (bs "abc"); Push "d"; Append (replicate 600 "x"%char); Push "e"]
    ltac:(by vm_compute)) as (H1 & _ & H2 & _).
  split; [exact H1|]. split; [exact (proj2 (H2 5 ltac:(lia)))|vm_compute; reflexivity].
Defined.
