(* ===== verification/FmtNum.v ===== *)
(** * Numerals of the formatting library (src/cppboot/base/internal/fmt/format.h)

    The routines that count and write digits: the number of decimal digits from the
    position of the highest bit and a table, two decimal digits at a time, and the
    bits of a power-of-two base.  The buffers they write are filled from the end. *)

From S2P Require Import Prelude StdString.

(** ** Counting digits *)

(** [__builtin_clzll] and [__builtin_clz] of a number that is not 0. *)
Definition clzll (n : Z) : Z := 63 - Z.log2 n.
Definition clz (n : Z) : Z := 31 - Z.log2 n.

(** [bsr2log10]: the digits of the largest number with that highest bit. *)
Definition bsr2log10 : list Z :=
  [1;  1;  1;  2;  2;  2;  3;  3;  3;  4;  4;  4;  4;  5;  5;  5;
   6;  6;  6;  7;  7;  7;  7;  8;  8;  8;  9;  9;  9;  10; 10; 10;
   10; 11; 11; 11; 12; 12; 12; 13; 13; 13; 13; 14; 14; 14; 15; 15;
   15; 16; 16; 16; 16; 17; 17; 17; 18; 18; 18; 19; 19; 19; 19; 20].

(** [FMT_POWERS_OF_10(factor)] *)
Definition powers_of_10 (factor : Z) : list Z :=
  [factor * 10; factor * 100; factor * 1000; factor * 10000; factor * 100000;
   factor * 1000000; factor * 10000000; factor * 100000000; factor * 1000000000].

Definition zero_or_powers_of_10 : list Z :=
  [0; 0] ++ powers_of_10 1 ++ powers_of_10 1000000000 ++ [10000000000000000000].

Definition do_count_digits64 (n : Z) : Z :=
  let t := nth (Z.to_nat (Z.lxor (clzll (Z.lor n 1)) 63)) bsr2log10 0 in
  t - (if n <? nth (Z.to_nat t) zero_or_powers_of_10 0 then 1 else 0).

(** [FMT_INC(T)], with the length of the spelling of [T] *)
Definition fmt_inc (digits T : Z) : Z := u64 (Z.shiftl digits 32 - T).

Definition inc_table : list Z :=
  [fmt_inc 1 0; fmt_inc 1 0; fmt_inc 1 0;
   fmt_inc 2 10; fmt_inc 2 10; fmt_inc 2 10;
   fmt_inc 3 100; fmt_inc 3 100; fmt_inc 3 100;
   fmt_inc 4 1000; fmt_inc 4 1000; fmt_inc 4 1000;
   fmt_inc 5 10000; fmt_inc 5 10000; fmt_inc 5 10000;
   fmt_inc 6 100000; fmt_inc 6 100000; fmt_inc 6 100000;
   fmt_inc 7 1000000; fmt_inc 7 1000000; fmt_inc 7 1000000;
   fmt_inc 8 10000000; fmt_inc 8 10000000; fmt_inc 8 10000000;
   fmt_inc 9 100000000; fmt_inc 9 100000000; fmt_inc 9 100000000;
   fmt_inc 10 1000000000; fmt_inc 10 1000000000; fmt_inc 10 1000000000;
   fmt_inc 10 1000000000; fmt_inc 10 1000000000].

Definition do_count_digits32 (n : Z) : Z :=
  let inc := nth (Z.to_nat (Z.lxor (clz (Z.lor n 1)) 31)) inc_table 0 in
  i32 (Z.shiftr (u64 (n + inc)) 32).

(** The widths of the unsigned types integers are converted to. *)
Inductive uint_width : Set := W32 | W64.
Definition uint_max (w : uint_width) : Z := match w with W32 => 2 ^ 32 - 1 | W64 => 2 ^ 64 - 1 end.

Definition count_digits (w : uint_width) (n : Z) : Z :=
  match w with W32 => do_count_digits32 n | W64 => do_count_digits64 n end.

(** The version for constant evaluation, four digits at a time. *)
Fixpoint count_digits_fallback (fuel : nat) (n count : Z) : outcome Z :=
  match fuel with
  | O => OutOfFuel
  | S fuel =>
      if n <? 10 then Ret count
      else if n <? 100 then Ret (count + 1)
      else if n <? 1000 then Ret (count + 2)
      else if n <? 10000 then Ret (count + 3)
      else count_digits_fallback fuel (n / 10000) (count + 4)
  end.

(** [count_digits<BITS>]: from the highest bit for 32 bits, by shifting otherwise. *)
Fixpoint count_shifts (fuel : nat) (bits n num_digits : Z) : outcome Z :=
  match fuel with
  | O => OutOfFuel
  | S fuel =>
      let n := Z.shiftr n bits in
      if n =? 0 then Ret (num_digits + 1) else count_shifts fuel bits n (num_digits + 1)
  end.

Definition count_digits_base (w : uint_width) (bits n : Z) : outcome Z :=
  match w with
  | W32 => Ret (Z.lxor (clz (Z.lor n 1)) 31 / bits + 1)
  | W64 => count_shifts 64 bits n 0
  end.

(** ** Writing digits *)

Definition digits2_text : bytes :=
  bs "0001020304050607080910111213141516171819" ++
  bs "2021222324252627282930313233343536373839" ++
  bs "4041424344454647484950515253545556575859" ++
  bs "6061626364656667686970717273747576777879" ++
  bs "8081828384858687888990919293949596979899".
Definition digits2 (value : Z) : bytes := take 2 (drop (Z.to_nat (value * 2)) digits2_text).

(** The loop of [format_decimal]; [acc] is what has been written behind [out]. *)
Fixpoint decimal_loop (fuel : nat) (value : Z) (acc : bytes) : outcome bytes :=
  match fuel with
  | O => OutOfFuel
  | S fuel =>
      if 100 <=? value then decimal_loop fuel (value / 100) (digits2 (value mod 100) ++ acc)
      else if value <? 10 then Ret (char_of (48 + value) :: acc)
      else Ret (digits2 value ++ acc)
  end.

(** [format_decimal(out, value, size)]: the [size] characters of a zeroed buffer. *)
Definition format_decimal (w : uint_width) (value size : Z) : outcome bytes :=
  _ ← cpp_assert (count_digits w value <=? size);
  ds ← decimal_loop 64 value [];
  Ret (replicate (Z.to_nat size - length ds) NUL ++ ds).

Definition hex_digits (upper : bool) : bytes :=
  if upper then bs "0123456789ABCDEF" else bs "0123456789abcdef".

(** The loop of [format_uint<BITS>]. *)
Fixpoint uint_loop (fuel : nat) (bits value : Z) (upper : bool) (acc : bytes) : outcome bytes :=
  match fuel with
  | O => OutOfFuel
  | S fuel =>
      let digit := Z.land value (Z.shiftl 1 bits - 1) in
      let acc := (if bits <? 4 then char_of (48 + digit)
                  else nth (Z.to_nat digit) (hex_digits upper) NUL) :: acc in
      let value := Z.shiftr value bits in
      if value =? 0 then Ret acc else uint_loop fuel bits value upper acc
  end.

(** [format_uint<BITS>(buffer, value, num_digits, upper)]: undefined when the digits
    do not fit. *)
Definition format_uint (bits value num_digits : Z) (upper : bool) : outcome bytes :=
  ds ← uint_loop 64 bits value upper [];
  if num_digits <? len ds then Undef
  else Ret (replicate (Z.to_nat num_digits - length ds) NUL ++ ds).

(** ** What a numeral is

    The value of a digit in either case, and of a numeral. *)
Definition digit_value (c : ascii) : Z :=
  if is_digit_char c then uchar c - 48
  else if (97 <=? uchar c) && (uchar c <=? 102) then uchar c - 87
  else if (65 <=? uchar c) && (uchar c <=? 70) then uchar c - 55
  else 16.

Definition numeral_value (base : Z) (ds : bytes) : Z := foldl (λ a c, a * base + digit_value c) 0 ds.

(** [ds] is the shortest numeral of [n] in that base. *)
Definition is_numeral (base : Z) (upper : bool) (n : Z) (ds : bytes) : Prop :=
  numeral_value base ds = n ∧ ds ≠ [] ∧
  Forall (λ c, digit_value c < base ∧
               (10 <= digit_value c → if upper then uchar c < 97 else 97 <= uchar c)) ds ∧
  (head ds = Some "0"%char → ds = ["0"%char]).

(** * Lemmas *)

(** ** The number of decimal digits *)

Lemma ndig_bounds n : 0 <= n → 1 <= ndig n ∧ n < 10 ^ ndig n ∧ (0 < n → 10 ^ (ndig n - 1) <= n).
Proof.
  induction n as [n IH] using (well_founded_induction (Z.lt_wf 0)). intros Hn. destruct (Z.lt_ge_cases n 10).
  - rewrite ndig_small by lia. cbn. lia.
  - destruct (IH (n / 10)) as (H1 & H2 & H3).
    { split; [apply Z.div_pos; lia|apply Z.div_lt; lia]. }
    { apply Z.div_pos; lia. }
    assert (1 <= n / 10) by (apply Z.div_le_lower_bound; lia). specialize (H3 ltac:(lia)).
    rewrite ndig_step by lia. replace (ndig (n / 10) + 1 - 1) with (ndig (n / 10) - 1 + 1) by lia.
    rewrite !Z.pow_add_r by lia. change (10 ^ 1) with 10. pose proof (Z.div_mod n 10). pose proof (Z.mod_pos_bound n 10).
    lia.
Qed.

(** The digits of [n] from powers of ten around it. *)
Lemma ndig_unique n d : 0 <= n → 1 <= d → n < 10 ^ d → (d = 1 ∨ 10 ^ (d - 1) <= n) → ndig n = d.
Proof.
  intros Hn Hd Hu Hl. destruct (ndig_bounds n Hn) as (H1 & H2 & H3).
  destruct (Z.eq_dec n 0) as [->|Hne].
  { rewrite ndig_small by lia. destruct Hl as [->|Hl]; [done|]. pose proof (Z.pow_pos_nonneg 10 (d - 1)). lia. }
  specialize (H3 ltac:(lia)).
  assert (ndig n - 1 < d) by (apply (Z.pow_lt_mono_r_iff 10); lia).
  destruct Hl as [->|Hl]; [lia|].
  assert (d - 1 < ndig n) by (apply (Z.pow_lt_mono_r_iff 10); lia). lia.
Qed.

(** The tables are right for every position of the highest bit. *)
Definition row64_ok (k : Z) : bool :=
  let t := nth (Z.to_nat k) bsr2log10 0 in
  (1 <=? t) && (2 ^ (k + 1) <=? 10 ^ t) && ((t =? 1) || (10 ^ (t - 2) <=? 2 ^ k)) &&
  (nth (Z.to_nat t) zero_or_powers_of_10 0 =? (if t =? 1 then 0 else 10 ^ (t - 1))).

Definition row32_ok (k : Z) : bool :=
  existsb (λ t,
    (nth (Z.to_nat k) inc_table 0 =? t * 2 ^ 32 - (if t =? 1 then 0 else 10 ^ (t - 1))) &&
    (2 ^ (k + 1) <=? 10 ^ t) && ((t =? 1) || (10 ^ (t - 2) <=? 2 ^ k)))
    [1; 2; 3; 4; 5; 6; 7; 8; 9; 10].

Lemma rows_ok (P : Z → bool) m : forallb P (Z.of_nat <$> seq 0 m) = true → ∀ k, 0 <= k < Z.of_nat m → P k = true.
Proof.
  intros H k Hk. rewrite forallb_forall in H. apply H, list_elem_of_In, list_elem_of_fmap.
  exists (Z.to_nat k). split; [lia|]. apply elem_of_seq. lia.
Qed.

Lemma rows64 k : 0 <= k < 64 → row64_ok k = true.
Proof. apply (rows_ok row64_ok 64). vm_compute. reflexivity. Qed.
Lemma rows32 k : 0 <= k < 32 → row32_ok k = true.
Proof. apply (rows_ok row32_ok 32). vm_compute. reflexivity. Qed.

(** The highest bit of [n | 1]. *)
Lemma log2_lor1 n : 0 <= n → Z.log2 (Z.lor n 1) = Z.log2 n.
Proof. intros Hn. rewrite Z.log2_lor by lia. change (Z.log2 1) with 0. pose proof (Z.log2_nonneg n). lia. Qed.

Lemma lxor_ones m k : 0 <= k <= 2 ^ m - 1 → 0 <= m → Z.lxor (2 ^ m - 1 - k) (2 ^ m - 1) = k.
Proof.
  intros Hk Hm. replace (2 ^ m - 1) with (Z.ones m) in * by (rewrite Z.ones_equiv; lia).
  assert (Z.ones m - k = Z.ldiff (Z.ones m) k) as ->.
  { rewrite Z.sub_nocarry_ldiff; [done|]. apply Z.bits_inj'. intros i Hi. rewrite Z.ldiff_spec, Z.bits_0.
    destruct (Z.lt_ge_cases i m).
    - rewrite Z.ones_spec_low by lia. by rewrite andb_false_r.
    - assert (Z.testbit k i = false) as ->; [|done]. destruct (Z.eq_dec k 0) as [->|]; [apply Z.bits_0|].
      apply Z.bits_above_log2; [lia|]. apply Z.log2_lt_pow2; [lia|].
      apply (Z.lt_le_trans _ (2 ^ m)); [rewrite Z.ones_equiv in Hk; lia|]. apply Z.pow_le_mono_r; lia. }
  apply Z.bits_inj'. intros i Hi. rewrite Z.lxor_spec, Z.ldiff_spec.
  destruct (Z.lt_ge_cases i m).
  - rewrite Z.ones_spec_low by lia. by destruct (Z.testbit k i).
  - rewrite Z.ones_spec_high by lia. destruct (Z.eq_dec k 0) as [->|]; [by rewrite Z.bits_0|].
    rewrite Z.bits_above_log2; [done|lia|]. apply Z.log2_lt_pow2; [lia|].
    apply (Z.lt_le_trans _ (2 ^ m)); [rewrite Z.ones_equiv in Hk; lia|]. apply Z.pow_le_mono_r; lia.
Qed.

Lemma bsr64 n : 0 <= n < 2 ^ 64 → Z.lxor (clzll (Z.lor n 1)) 63 = Z.log2 n ∧ 0 <= Z.log2 n < 64.
Proof.
  intros Hn. assert (0 <= Z.log2 n < 64) as Hl.
  { split; [apply Z.log2_nonneg|]. destruct (Z.eq_dec n 0) as [->|]; [done|]. apply Z.log2_lt_pow2; lia. }
  split; [|done]. unfold clzll. rewrite log2_lor1 by lia. apply (lxor_ones 6); lia.
Qed.

Lemma bsr32 n : 0 <= n < 2 ^ 32 → Z.lxor (clz (Z.lor n 1)) 31 = Z.log2 n ∧ 0 <= Z.log2 n < 32.
Proof.
  intros Hn. assert (0 <= Z.log2 n < 32) as Hl.
  { split; [apply Z.log2_nonneg|]. destruct (Z.eq_dec n 0) as [->|]; [done|]. apply Z.log2_lt_pow2; lia. }
  split; [|done]. unfold clz. rewrite log2_lor1 by lia. apply (lxor_ones 5); lia.
Qed.

Lemma log2_range n : 0 <= n → (n = 0 ∨ 2 ^ Z.log2 n <= n) ∧ n < 2 ^ (Z.log2 n + 1).
Proof.
  intros Hn. destruct (Z.eq_dec n 0) as [->|Hne]; [split; [by left|done]|].
  destruct (Z.log2_spec n ltac:(lia)). split; [by right|]. by rewrite Z.add_1_r.
Qed.

Lemma count64 n : 0 <= n < 2 ^ 64 → do_count_digits64 n = ndig n.
Proof.
  intros Hn. unfold do_count_digits64. destruct (bsr64 n Hn) as [-> Hk].
  pose proof (rows64 _ Hk) as Hrow. unfold row64_ok in Hrow. set (t := nth _ bsr2log10 0) in *.
  bool_hyps. destruct (log2_range n ltac:(lia)) as [Hlo Hhi].
  repeat match goal with H : (_ || _) = true |- _ => apply orb_true_iff in H end. bool_hyps.
  match goal with H : nth _ zero_or_powers_of_10 _ = _ |- _ => rewrite H end. symmetry.
  destruct (t =? 1) eqn:Et; bool_hyps.
  - rewrite Et in *. rewrite (proj2 (Z.ltb_ge n 0)) by lia. apply ndig_unique; lia.
  - match goal with H : false = true ∨ _ |- _ => destruct H as [H|H] end; [done|]. bool_hyps.
    destruct (n <? 10 ^ (t - 1)) eqn:E; bool_hyps.
    + apply ndig_unique; [lia|lia|lia|]. replace (t - 1 - 1) with (t - 2) by lia.
      destruct Hlo as [->|Hlo]; [|lia]. change (Z.log2 0) with 0 in *.
      assert (t - 2 <= 0); [|lia]. apply (Z.pow_le_mono_r_iff 10); lia.
    + rewrite Z.sub_0_r. apply ndig_unique; [lia|lia|lia|by right].
Qed.

Lemma count32 n : 0 <= n < 2 ^ 32 → do_count_digits32 n = ndig n.
Proof.
  intros Hn. unfold do_count_digits32. destruct (bsr32 n Hn) as [-> Hk].
  pose proof (rows32 _ Hk) as Hrow. unfold row32_ok in Hrow. apply existsb_exists in Hrow as (t & Ht & Hrow).
  assert (1 <= t <= 10) as Ht10 by (cbn in Ht; lia). clear Ht. bool_hyps.
  destruct (log2_range n ltac:(lia)) as [Hlo Hhi].
  match goal with H : nth _ inc_table _ = _ |- _ => rewrite H end.
  match goal with H : (_ || _) = true |- _ => apply orb_true_iff in H as [H|H]; bool_hyps end.
  - subst t. cbn [Z.eqb Pos.eqb]. rewrite u64_small by lia. rewrite Z.shiftr_div_pow2 by lia.
    replace (n + (1 * 2 ^ 32 - 0)) with (n + 1 * 2 ^ 32) by lia. rewrite Z.div_add, Z.div_small by lia.
    rewrite i32_small by (unfold INT_MIN, INT_MAX; lia). symmetry. apply ndig_unique; lia.
  - destruct (t =? 1) eqn:Et; bool_hyps.
    { subst t. rewrite u64_small by lia. rewrite Z.shiftr_div_pow2 by lia.
      replace (n + (1 * 2 ^ 32 - 0)) with (n + 1 * 2 ^ 32) by lia. rewrite Z.div_add, Z.div_small by lia.
      rewrite i32_small by (unfold INT_MIN, INT_MAX; lia). symmetry. apply ndig_unique; lia. }
    assert (0 < 10 ^ (t - 1) <= 10 ^ 9) as Hp by (split; [apply Z.pow_pos_nonneg; lia|apply Z.pow_le_mono_r; lia]).
    change (10 ^ 9) with 1000000000 in Hp.
    rewrite u64_small by lia. rewrite Z.shiftr_div_pow2 by lia.
    assert ((n + (t * 2 ^ 32 - 10 ^ (t - 1))) / 2 ^ 32 = t - (if n <? 10 ^ (t - 1) then 1 else 0)) as ->.
    { destruct (n <? 10 ^ (t - 1)) eqn:E; bool_hyps; symmetry.
      - apply (Z.div_unique_pos _ _ _ (n + 2 ^ 32 - 10 ^ (t - 1))); lia.
      - apply (Z.div_unique_pos _ _ _ (n - 10 ^ (t - 1))); lia. }
    rewrite i32_small by (unfold INT_MIN, INT_MAX; destruct (_ <? _); lia). symmetry.
    destruct (n <? 10 ^ (t - 1)) eqn:E; bool_hyps.
    + apply ndig_unique; [lia|lia|lia|]. replace (t - 1 - 1) with (t - 2) by lia.
      destruct Hlo as [->|Hlo]; [|lia]. change (Z.log2 0) with 0 in *.
      assert (t - 2 <= 0); [|lia]. apply (Z.pow_le_mono_r_iff 10); lia.
    + rewrite Z.sub_0_r. apply ndig_unique; [lia|lia|lia|by right].
Qed.

Lemma count_digits_exact w n : 0 <= n <= uint_max w → count_digits w n = ndig n.
Proof. destruct w; cbn [uint_max count_digits]; intros; [apply count32|apply count64]; lia. Qed.

(** ** Writing decimal digits *)

Definition row2_ok (v : Z) : bool := bool_decide (digits2 v = [digit_char (v / 10); digit_char (v mod 10)]).

Lemma digits2_digits v : 0 <= v < 100 → digits2 v = [digit_char (v / 10); digit_char (v mod 10)].
Proof.
  intros Hv. apply (bool_decide_eq_true _), (rows_ok row2_ok 100); [vm_compute; reflexivity|lia].
Qed.

Lemma utoa_two_digits n : 100 <= n → utoa n = utoa (n / 100) ++ digits2 (n mod 100).
Proof.
  intros Hn. rewrite digits2_digits by (apply Z.mod_pos_bound; lia).
  rewrite utoa_step by lia. rewrite utoa_step by (apply Z.div_le_lower_bound; lia).
  rewrite <-app_assoc. cbn [app]. rewrite Z.div_div by lia. f_equal.
  f_equal; [|f_equal]; f_equal; Z.div_mod_to_equations; lia.
Qed.

Lemma decimal_loop_utoa fuel : ∀ n acc, 0 <= n < 100 ^ Z.of_nat fuel → (0 < fuel)%nat →
  decimal_loop fuel n acc = Ret (utoa n ++ acc).
Proof.
  induction fuel as [|fuel IH]; intros n acc Hn Hf; [lia|]. cbn [decimal_loop].
  rewrite Nat2Z.inj_succ, Z.pow_succ_r in Hn by lia.
  destruct (100 <=? n) eqn:E; bool_hyps.
  - destruct fuel as [|fuel]; [cbn in Hn; lia|]. rewrite IH; [|split; [apply Z.div_pos; lia|]; apply Z.div_lt_upper_bound; lia|lia].
    by rewrite (utoa_two_digits n), <-app_assoc by lia.
  - destruct (n <? 10) eqn:E2; bool_hyps.
    + by rewrite utoa_small by lia.
    + rewrite utoa_step by lia. rewrite utoa_small by (split; [apply Z.div_pos; lia|apply Z.div_lt_upper_bound; lia]).
      by rewrite digits2_digits by lia.
Qed.

Lemma format_decimal_utoa w n : 0 <= n <= uint_max w → format_decimal w n (count_digits w n) = Ret (utoa n).
Proof.
  intros Hn. unfold format_decimal. rewrite Z.leb_refl. cbn [cpp_assert mbind outcome_bind].
  rewrite decimal_loop_utoa; [|destruct w; cbn in *; lia|lia]. cbn [mbind outcome_bind].
  rewrite app_nil_r, count_digits_exact by done. unfold ndig.
  rewrite Nat2Z.id. by rewrite Nat.sub_diag.
Qed.

(** ** Power-of-two bases *)

Definition uint_char (bits digit : Z) (upper : bool) : ascii :=
  if bits <? 4 then char_of (48 + digit) else nth (Z.to_nat digit) (hex_digits upper) NUL.

Definition char_ok (bits : Z) (upper : bool) (d : Z) : bool :=
  let c := uint_char bits d upper in
  (digit_value c =? d) && ((d <? 10) || (if upper then uchar c <? 97 else 97 <=? uchar c)) &&
  (negb (bool_decide (c = "0"%char)) || (d =? 0)).

Lemma chars_ok bits upper d : bits ∈ [1; 3; 4] → 0 <= d < 2 ^ bits → char_ok bits upper d = true.
Proof.
  intros Hb Hd. apply (rows_ok (char_ok bits upper) (Z.to_nat (2 ^ bits))); [|lia].
  repeat (apply elem_of_cons in Hb as [->|Hb]; [destruct upper; vm_compute; reflexivity|]).
  by apply elem_of_nil in Hb.
Qed.

Lemma uint_char_spec bits upper d : bits ∈ [1; 3; 4] → 0 <= d < 2 ^ bits →
  let c := uint_char bits d upper in
  digit_value c = d ∧ (10 <= digit_value c → if upper then uchar c < 97 else 97 <= uchar c) ∧
  (c = "0"%char → d = 0).
Proof.
  intros Hb Hd. pose proof (chars_ok bits upper d Hb Hd) as Hok. unfold char_ok in Hok. bool_hyps.
  split_and!; [done| |].
  - intros H10. destruct (d <? 10) eqn:E; bool_hyps; [lia|].
    match goal with H : (false || _) = true |- _ => cbn in H end. destruct upper; bool_hyps; lia.
  - intros Hc. rewrite Hc in *. match goal with H : (negb _ || _) = true |- _ => cbn in H end. by bool_hyps.
Qed.

Lemma numeral_value_snoc base ds c : numeral_value base (ds ++ [c]) = numeral_value base ds * base + digit_value c.
Proof. unfold numeral_value. by rewrite foldl_app. Qed.

Lemma is_numeral_snoc bits upper n ds c d : bits ∈ [1; 3; 4] → 0 <= d < 2 ^ bits → c = uint_char bits d upper →
  n ≠ 0 → is_numeral (2 ^ bits) upper n ds → is_numeral (2 ^ bits) upper (n * 2 ^ bits + d) (ds ++ [c]).
Proof.
  intros Hb Hd -> Hn (Hv & Hne & Hf & Hz). destruct (uint_char_spec bits upper d Hb Hd) as (Hc & Hcase & _).
  split_and!.
  - rewrite numeral_value_snoc. lia.
  - by intros [? ?]%app_eq_nil.
  - apply Forall_app. split; [done|]. repeat constructor; [lia|done].
  - destruct ds as [|c ds]; [done|]. cbn [app head]. intros Hc0. specialize (Hz Hc0). rewrite Hz in Hv. by cbn in Hv.
Qed.

Lemma is_numeral_digit bits upper d : bits ∈ [1; 3; 4] → 0 <= d < 2 ^ bits →
  is_numeral (2 ^ bits) upper d [uint_char bits d upper].
Proof.
  intros Hb Hd. destruct (uint_char_spec bits upper d Hb Hd) as (Hc & Hcase & _). split_and!.
  - unfold numeral_value. cbn. lia.
  - done.
  - repeat constructor; [lia|done].
  - by intros [= ->].
Qed.

Lemma uint_loop_spec bits upper fuel : bits ∈ [1; 3; 4] → ∀ v acc,
  0 <= v < 2 ^ (bits * Z.of_nat fuel) → (0 < fuel)%nat →
  ∃ ds, uint_loop fuel bits v upper acc = Ret (ds ++ acc) ∧ is_numeral (2 ^ bits) upper v ds ∧
    len ds = Z.log2 v / bits + 1.
Proof.
  intros Hb. assert (1 <= bits) as Hb1 by (repeat (apply elem_of_cons in Hb as [->|Hb]; [lia|]); by apply elem_of_nil in Hb).
  induction fuel as [|fuel IH]; intros v acc Hv Hf; [lia|]. cbn [uint_loop].
  replace (Z.shiftl 1 bits - 1) with (Z.ones bits) by (rewrite Z.ones_equiv, Z.shiftl_1_l; lia).
  rewrite Z.land_ones, Z.shiftr_div_pow2 by lia. fold (uint_char bits (v mod 2 ^ bits) upper).
  assert (0 < 2 ^ bits) as Hp by (apply Z.pow_pos_nonneg; lia).
  pose proof (Z.mod_pos_bound v (2 ^ bits) Hp) as Hm. pose proof (Z.div_mod v (2 ^ bits) ltac:(lia)) as Hdm.
  destruct (v / 2 ^ bits =? 0) eqn:E; bool_hyps.
  - exists [uint_char bits (v mod 2 ^ bits) upper]. split; [done|].
    assert (v mod 2 ^ bits = v) as Hvm by lia. rewrite Hvm. split; [by apply is_numeral_digit; [|lia]|].
    rewrite Z.div_small; [done|]. split; [apply Z.log2_nonneg|].
    destruct (Z.eq_dec v 0) as [->|]; [change (Z.log2 0) with 0; lia|]. apply Z.log2_lt_pow2; lia.
  - assert (0 <= v / 2 ^ bits) by (apply Z.div_pos; lia).
    destruct fuel as [|fuel].
    { rewrite Z.mul_1_r in Hv. rewrite Z.div_small in E by lia. lia. }
    destruct (IH (v / 2 ^ bits) (uint_char bits (v mod 2 ^ bits) upper :: acc)) as (ds & -> & Hn & Hl); [|lia|].
    { split; [done|]. apply Z.div_lt_upper_bound; [done|]. rewrite <-Z.pow_add_r by lia.
      replace (bits + bits * Z.of_nat (S fuel)) with (bits * Z.of_nat (S (S fuel))) by lia. lia. }
    exists (ds ++ [uint_char bits (v mod 2 ^ bits) upper]). rewrite <-app_assoc. split; [done|]. split.
    + rewrite Hdm at 1. rewrite (Z.mul_comm (2 ^ bits)). by apply (is_numeral_snoc _ _ _ _ _ (v mod 2 ^ bits)).
    + rewrite len_app, Hl. change (len [_]) with 1. rewrite <-(Z.shiftr_div_pow2 v) by lia.
      rewrite Z.log2_shiftr by lia. assert (bits <= Z.log2 v).
      { apply Z.log2_le_pow2; [lia|]. destruct (Z.lt_ge_cases v (2 ^ bits)); [|done].
        rewrite Z.div_small in E by lia. lia. }
      rewrite Z.max_r by lia. replace (Z.log2 v) with (Z.log2 v - bits + 1 * bits) at 2 by lia.
      rewrite Z.div_add by lia. lia.
Qed.

Lemma count_shifts_spec bits fuel : 1 <= bits → ∀ v k,
  0 <= v < 2 ^ (bits * Z.of_nat fuel) → (0 < fuel)%nat → count_shifts fuel bits v k = Ret (k + (Z.log2 v / bits + 1)).
Proof.
  intros Hb. induction fuel as [|fuel IH]; intros v k Hv Hf; [lia|]. cbn [count_shifts].
  rewrite Z.shiftr_div_pow2 by lia. assert (0 < 2 ^ bits) as Hp by (apply Z.pow_pos_nonneg; lia).
  destruct (v / 2 ^ bits =? 0) eqn:E; bool_hyps.
  - rewrite (Z.div_small (Z.log2 v)); [f_equal; lia|]. split; [apply Z.log2_nonneg|].
    destruct (Z.eq_dec v 0) as [->|]; [change (Z.log2 0) with 0; lia|].
    apply Z.log2_lt_pow2; [lia|]. destruct (Z.lt_ge_cases v (2 ^ bits)); [done|].
    pose proof (Z.div_le_lower_bound v (2 ^ bits) 1 ltac:(lia) ltac:(lia)). lia.
  - assert (0 <= v / 2 ^ bits) by (apply Z.div_pos; lia).
    assert (2 ^ bits <= v).
    { destruct (Z.lt_ge_cases v (2 ^ bits)); [|done]. rewrite Z.div_small in E by lia. lia. }
    destruct fuel as [|fuel]; [rewrite Z.mul_1_r in Hv; lia|].
    rewrite IH; [|split; [done|]|lia].
    + rewrite <-(Z.shiftr_div_pow2 v) by lia. rewrite Z.log2_shiftr by lia.
      assert (bits <= Z.log2 v) by (apply Z.log2_le_pow2; lia). rewrite Z.max_r by lia.
      replace (Z.log2 v) with (Z.log2 v - bits + 1 * bits) at 2 by lia. rewrite Z.div_add by lia. f_equal. lia.
    + apply Z.div_lt_upper_bound; [done|]. rewrite <-Z.pow_add_r by lia.
      replace (bits + bits * Z.of_nat (S fuel)) with (bits * Z.of_nat (S (S fuel))) by lia. lia.
Qed.

Lemma count_base_spec w bits n : bits ∈ [1; 3; 4] → 0 <= n <= uint_max w →
  count_digits_base w bits n = Ret (Z.log2 n / bits + 1).
Proof.
  intros Hb Hn. assert (1 <= bits) as Hb1 by (repeat (apply elem_of_cons in Hb as [->|Hb]; [lia|]); by apply elem_of_nil in Hb).
  destruct w; cbn [uint_max count_digits_base] in *.
  - by destruct (bsr32 n ltac:(lia)) as [-> _].
  - apply (count_shifts_spec bits 64); [done| |lia]. split; [lia|].
    apply (Z.lt_le_trans _ (2 ^ 64)); [lia|]. apply Z.pow_le_mono_r; lia.
Qed.

Lemma format_uint_spec w bits n upper : bits ∈ [1; 3; 4] → 0 <= n <= uint_max w →
  ∃ k ds, count_digits_base w bits n = Ret k ∧ format_uint bits n k upper = Ret ds ∧
    is_numeral (2 ^ bits) upper n ds ∧ len ds = k.
Proof.
  intros Hb Hn. assert (1 <= bits) as Hb1 by (repeat (apply elem_of_cons in Hb as [->|Hb]; [lia|]); by apply elem_of_nil in Hb).
  destruct (uint_loop_spec bits upper 64 Hb n []) as (ds & Hl & Hnum & Hlen); [|lia|].
  { split; [lia|]. apply (Z.lt_le_trans _ (2 ^ 64)); [destruct w; cbn in *; lia|]. apply Z.pow_le_mono_r; lia. }
  rewrite (count_base_spec w) by done. eexists _, ds. split; [done|].
  unfold format_uint. rewrite Hl, app_nil_r. cbn [mbind outcome_bind]. rewrite <-Hlen.
  rewrite Z.ltb_irrefl, Nat2Z.id, Nat.sub_diag. done.
Qed.

(** * Properties *)

(** For every number of its width the number of decimal digits that is read off
    the tables is the length of its decimal numeral, and writing the digits two at a
    time into a buffer of that size gives this numeral; in binary, octal and
    hexadecimal the digits that are counted and written are the shortest numeral of
    the number in that base, in the case that was asked for. *)
Theorem digits_exact (w : uint_width) (n : Z) : 0 <= n <= uint_max w →
  count_digits w n = len (utoa n) ∧
  format_decimal w n (count_digits w n) = Ret (utoa n) ∧
  ∀ bits upper, bits ∈ [1; 3; 4] →
    ∃ k ds, count_digits_base w bits n = Ret k ∧ format_uint bits n k upper = Ret ds ∧
      is_numeral (2 ^ bits) upper n ds ∧ len ds = k.
Proof.
  intros Hn. split_and!; [by apply count_digits_exact|by apply format_decimal_utoa|].
  intros bits upper Hb. by apply format_uint_spec.
Qed.

Lemma digits_exact_witness :
  count_digits W64 18446744073709551615 = 20 ∧
  format_decimal W32 4294967295 (count_digits W32 4294967295) = Ret (bs "4294967295") ∧
  ∃ k ds, count_digits_base W32 4 48879 = Ret k ∧ format_uint 4 48879 k false = Ret ds ∧
    is_numeral 16 false 48879 ds ∧ len ds = k.
Proof.
  split_and!.
  - rewrite (proj1 (digits_exact W64 18446744073709551615 ltac:(vm_compute; split; discriminate))). by vm_compute.
  - rewrite (proj1 (proj2 (digits_exact W32 4294967295 ltac:(vm_compute; split; discriminate)))). by vm_compute.
  - apply (proj2 (proj2 (digits_exact W32 48879 ltac:(vm_compute; split; discriminate))) 4 false). by_decide.
Defined.
