(* ===== verification/FmtSpec.v ===== *)
(** * Format specifiers (src/cppboot/base/internal/fmt/core.h)

    The grammar of a replacement field: argument ids, the specifiers behind the
    colon, and the parse context that counts the automatic ids.  A pointer into the
    format string is what is left of the string behind it.  A [format_error] is a
    [std::runtime_error]. *)

From S2P Require Import Prelude StdString FmtNum.

(** ** Types of arguments, and sets of them *)

Inductive arg_type : Set :=
  | none_type | int_type | uint_type | long_long_type | ulong_long_type | int128_type | uint128_type
  | bool_type | char_type | float_type | double_type | long_double_type
  | cstring_type | string_type | pointer_type | custom_type.
#[export] Instance arg_type_eq_dec : EqDecision arg_type.
Proof. solve_decision. Defined.

Definition type_index (t : arg_type) : Z :=
  match t with
  | none_type => 0 | int_type => 1 | uint_type => 2 | long_long_type => 3 | ulong_long_type => 4
  | int128_type => 5 | uint128_type => 6 | bool_type => 7 | char_type => 8
  | float_type => 9 | double_type => 10 | long_double_type => 11
  | cstring_type => 12 | string_type => 13 | pointer_type => 14 | custom_type => 15
  end.

Definition is_integral_type (t : arg_type) : bool :=
  (type_index none_type <? type_index t) && (type_index t <=? type_index char_type).
Definition is_arithmetic_type (t : arg_type) : bool :=
  (type_index none_type <? type_index t) && (type_index t <=? type_index long_double_type).

Definition set (t : arg_type) : Z := Z.shiftl 1 (type_index t).
Definition in_types (t : arg_type) (s : Z) : bool := negb (Z.land (Z.shiftr s (type_index t)) 1 =? 0).

Definition sint_set : Z := Z.lor (Z.lor (set int_type) (set long_long_type)) (set int128_type).
Definition uint_set : Z := Z.lor (Z.lor (set uint_type) (set ulong_long_type)) (set uint128_type).
Definition bool_set : Z := set bool_type.
Definition char_set : Z := set char_type.
Definition float_set : Z := Z.lor (Z.lor (set float_type) (set double_type)) (set long_double_type).
Definition string_set : Z := set string_type.
Definition cstring_set : Z := set cstring_type.
Definition pointer_set : Z := set pointer_type.
Definition integral_set : Z := Z.lor (Z.lor (Z.lor sint_set uint_set) bool_set) char_set.

(** ** Specifiers *)

Inductive align_t : Set := align_none | align_left | align_right | align_center | align_numeric.
Inductive sign_t : Set := sign_none | sign_minus | sign_plus | sign_space.
Inductive presentation_type : Set :=
  | pres_none | dec | oct | hex_lower | hex_upper | bin_lower | bin_upper
  | hexfloat_lower | hexfloat_upper | exp_lower | exp_upper | fixed_lower | fixed_upper
  | general_lower | general_upper | chr | pres_string | pres_pointer | debug.
#[export] Instance align_eq_dec : EqDecision align_t.
Proof. solve_decision. Defined.
#[export] Instance sign_eq_dec : EqDecision sign_t.
Proof. solve_decision. Defined.
#[export] Instance presentation_eq_dec : EqDecision presentation_type.
Proof. solve_decision. Defined.

(** A reference to an argument: none, its index, or its name. *)
Inductive arg_ref : Type := RefNone | RefIndex (index : Z) | RefName (name : bytes).

Record format_specs : Type := Specs {
  width : Z;
  precision : Z;
  type : presentation_type;
  align : align_t;
  sign : sign_t;
  alt : bool;
  localized : bool;
  fill : bytes;
  width_ref : arg_ref;
  precision_ref : arg_ref;
}.

Definition default_specs : format_specs :=
  Specs 0 (-1) pres_none align_none sign_none false false (bs " ") RefNone RefNone.

Definition set_width (w : Z) (r : arg_ref) (s : format_specs) : format_specs :=
  Specs w (precision s) (type s) (align s) (sign s) (alt s) (localized s) (fill s) r (precision_ref s).
Definition set_precision (p : Z) (r : arg_ref) (s : format_specs) : format_specs :=
  Specs (width s) p (type s) (align s) (sign s) (alt s) (localized s) (fill s) (width_ref s) r.
Definition set_type (t : presentation_type) (s : format_specs) : format_specs :=
  Specs (width s) (precision s) t (align s) (sign s) (alt s) (localized s) (fill s) (width_ref s) (precision_ref s).
Definition set_align (a : align_t) (f : bytes) (s : format_specs) : format_specs :=
  Specs (width s) (precision s) (type s) a (sign s) (alt s) (localized s) f (width_ref s) (precision_ref s).
Definition set_sign (g : sign_t) (s : format_specs) : format_specs :=
  Specs (width s) (precision s) (type s) (align s) g (alt s) (localized s) (fill s) (width_ref s) (precision_ref s).
Definition set_alt (s : format_specs) : format_specs :=
  Specs (width s) (precision s) (type s) (align s) (sign s) true (localized s) (fill s) (width_ref s) (precision_ref s).
Definition set_localized (s : format_specs) : format_specs :=
  Specs (width s) (precision s) (type s) (align s) (sign s) (alt s) true (fill s) (width_ref s) (precision_ref s).

(** [throw_format_error] *)
Definition format_error {A} : outcome A := Throw runtime_error.

(** ** The parse context

    [next_arg_id_]: the next automatic id, or negative after a manual one.  In a constant
    evaluation the context also has the types of the arguments ([compile_parse_context]),
    and ids are checked against them; at run time it has none. *)
Record context : Type := Context { next_arg_id_ : Z; types_ : option (list arg_type) }.

Definition runtime (next_arg_id : Z) : context := Context next_arg_id None.
Coercion runtime : Z >-> context.

Definition do_check_arg_id (id : Z) (ctx : context) : outcome unit :=
  match types_ ctx with
  | Some types => if len types <=? id then format_error else Ret tt
  | None => Ret tt
  end.

Definition next_arg_id (ctx : context) : outcome (Z * context) :=
  let id := next_arg_id_ ctx in
  if id <? 0 then format_error
  else _ ← do_check_arg_id id ctx; Ret (id, Context (id + 1) (types_ ctx)).

Definition check_arg_id (id : Z) (ctx : context) : outcome context :=
  if 0 <? next_arg_id_ ctx then format_error
  else _ ← do_check_arg_id id ctx; Ret (Context (-1) (types_ ctx)).

(** A width or a precision comes from an argument of an integral type. *)
Definition check_dynamic_spec (arg_id : Z) (ctx : context) : outcome unit :=
  match types_ ctx with
  | Some types =>
      match types !! Z.to_nat arg_id with
      | Some t => if (0 <=? arg_id) && negb (is_integral_type t) then format_error else Ret tt
      | None => Ret tt
      end
  | None => Ret tt
  end.

(** ** Parts of a field *)

Definition parse_align (c : ascii) : align_t :=
  if bool_decide (c = "<"%char) then align_left
  else if bool_decide (c = ">"%char) then align_right
  else if bool_decide (c = "^"%char) then align_center
  else align_none.

Definition is_name_start (c : ascii) : bool :=
  ((97 <=? schar c) && (schar c <=? 122)) || ((65 <=? schar c) && (schar c <=? 90)) ||
  bool_decide (c = "_"%char).

(** The number of code units of a code point, from its first one. *)
Definition code_point_length (c : ascii) : Z :=
  Z.land (Z.shiftr 0x3a55000000000000 (2 * Z.shiftr (uchar c) 3)) 0x3 + 1.

(** The loop reads digits into [value]; [prev] is the value before the last one. *)
Fixpoint int_loop (s : bytes) (value prev num_digits last : Z) : Z * Z * Z * Z * bytes :=
  match s with
  | c :: s' =>
      if is_digit_char c
      then int_loop s' (u32 (u32 (value * 10) + (uchar c - 48))) value (num_digits + 1) (uchar c - 48)
      else (value, prev, num_digits, last, s)
  | [] => (value, prev, num_digits, last, [])
  end.

Definition digits10_int : Z := 9.

Definition parse_nonnegative_int (begin : bytes) (error_value : Z) : outcome (Z * bytes) :=
  c ← or_undef (head begin);
  _ ← cpp_assert (is_digit_char c);
  let '(value, prev, num_digits, last, rest) := int_loop begin 0 0 0 0 in
  if num_digits <=? digits10_int then Ret (value, rest)
  else if (num_digits =? digits10_int + 1) && (prev * 10 + last <=? INT_MAX) then Ret (value, rest)
  else Ret (error_value, rest).

Fixpoint name_loop (s : bytes) : bytes * bytes :=
  match s with
  | c :: s' => if is_name_start c || is_digit_char c
               then let '(n, r) := name_loop s' in (c :: n, r) else ([], s)
  | [] => ([], [])
  end.

(** The id, for the handler's [on_auto], [on_index] or [on_name]. *)
Definition do_parse_arg_id (begin : bytes) : outcome (arg_ref * bytes) :=
  match begin with
  | [] => Undef
  | c :: rest =>
      if is_digit_char c then
        '(index, begin) ← (if bool_decide (c = "0"%char) then Ret (0, rest)
                           else parse_nonnegative_int begin INT_MAX);
        match begin with
        | d :: _ => if bool_decide (d = "}"%char) || bool_decide (d = ":"%char)
                    then Ret (RefIndex index, begin) else format_error
        | [] => format_error
        end
      else if negb (is_name_start c) then format_error
      else let '(n, r) := name_loop rest in Ret (RefName (c :: n), r)
  end.

Definition parse_arg_id (begin : bytes) : outcome (arg_ref * bytes) :=
  match begin with
  | [] => Crash
  | c :: _ =>
      if bool_decide (c = "}"%char) || bool_decide (c = ":"%char) then Ret (RefNone, begin)
      else do_parse_arg_id begin
  end.

(** [dynamic_spec_id_handler] *)
Definition on_dynamic_id (r : arg_ref) (ctx : context) : outcome (arg_ref * context) :=
  match r with
  | RefNone => '(id, ctx) ← next_arg_id ctx; _ ← check_dynamic_spec id ctx; Ret (RefIndex id, ctx)
  | RefIndex id => ctx ← check_arg_id id ctx; _ ← check_dynamic_spec id ctx; Ret (RefIndex id, ctx)
  | RefName n => Ret (RefName n, ctx)
  end.

(** [integer | "{" [arg_id] "}"]: the value, the reference, and what is left. *)
Definition parse_dynamic_spec (begin : bytes) (value : Z) (ref : arg_ref) (ctx : context)
    : outcome (bytes * Z * arg_ref * context) :=
  match begin with
  | [] => Crash
  | c :: rest =>
      if is_digit_char c then
        '(val, begin) ← parse_nonnegative_int begin (-1);
        if val =? -1 then format_error else Ret (begin, val, ref, ctx)
      else if bool_decide (c = "{"%char) then
        '(begin, ref, ctx) ←
          (match rest with
           | [] => Ret (rest, ref, ctx)
           | _ => '(r, begin) ← parse_arg_id rest; '(ref, ctx) ← on_dynamic_id r ctx; Ret (begin, ref, ctx)
           end);
        match begin with
        | d :: begin => if bool_decide (d = "}"%char) then Ret (begin, value, ref, ctx) else format_error
        | [] => format_error
        end
      else Ret (begin, value, ref, ctx)
  end.

Definition parse_precision (begin : bytes) (value : Z) (ref : arg_ref) (ctx : context)
    : outcome (bytes * Z * arg_ref * context) :=
  match tail begin with
  | [] => format_error
  | c :: _ => if bool_decide (c = "}"%char) then format_error
              else parse_dynamic_spec (tail begin) value ref ctx
  end.

(** ** The specifiers *)

Inductive state : Set := st_start | st_align | st_sign | st_hash | st_zero | st_width | st_precision | st_locale.

Definition state_index (s : state) : Z :=
  match s with
  | st_start => 0 | st_align => 1 | st_sign => 2 | st_hash => 3 | st_zero => 4
  | st_width => 5 | st_precision => 6 | st_locale => 7
  end.

Definition enter_state (current s : state) (valid : bool) : outcome state :=
  if (state_index s <=? state_index current) || negb valid then format_error else Ret s.

(** The letters that end the specifiers, with the types they may format. *)
Definition presentation (c : ascii) : option (presentation_type * Z) :=
  let eqc d := bool_decide (c = d) in
  if eqc "d"%char then Some (dec, integral_set)
  else if eqc "o"%char then Some (oct, integral_set)
  else if eqc "x"%char then Some (hex_lower, integral_set)
  else if eqc "X"%char then Some (hex_upper, integral_set)
  else if eqc "b"%char then Some (bin_lower, integral_set)
  else if eqc "B"%char then Some (bin_upper, integral_set)
  else if eqc "a"%char then Some (hexfloat_lower, float_set)
  else if eqc "A"%char then Some (hexfloat_upper, float_set)
  else if eqc "e"%char then Some (exp_lower, float_set)
  else if eqc "E"%char then Some (exp_upper, float_set)
  else if eqc "f"%char then Some (fixed_lower, float_set)
  else if eqc "F"%char then Some (fixed_upper, float_set)
  else if eqc "g"%char then Some (general_lower, float_set)
  else if eqc "G"%char then Some (general_upper, float_set)
  else if eqc "c"%char then Some (chr, integral_set)
  else if eqc "s"%char then Some (pres_string, Z.lor (Z.lor bool_set string_set) cstring_set)
  else if eqc "p"%char then Some (pres_pointer, Z.lor pointer_set cstring_set)
  else if eqc "?"%char then Some (debug, Z.lor (Z.lor char_set string_set) cstring_set)
  else None.

Definition parsed : Type := bytes * format_specs * context.

(** One turn of the loop on the character [c]: the result, or where to go on. *)
Definition spec_step (arg : arg_type) (c : ascii) (begin : bytes) (st : state) (specs : format_specs) (ctx : context)
    : outcome (parsed + (bytes * state * format_specs * context)) :=
  let eqc d := bool_decide (c = d) in
  if eqc "<"%char || eqc ">"%char || eqc "^"%char then
    st ← enter_state st st_align true;
    Ret (inr (tail begin, st, set_align (parse_align c) (fill specs) specs, ctx))
  else if eqc "+"%char || eqc "-"%char || eqc " "%char then
    st ← enter_state st st_sign (in_types arg (Z.lor sint_set float_set));
    let g := if eqc "+"%char then sign_plus else if eqc "-"%char then sign_minus else sign_space in
    Ret (inr (tail begin, st, set_sign g specs, ctx))
  else if eqc "#"%char then
    st ← enter_state st st_hash (is_arithmetic_type arg);
    Ret (inr (tail begin, st, set_alt specs, ctx))
  else if eqc "0"%char then
    st ← enter_state st st_zero true;
    if negb (is_arithmetic_type arg) then format_error
    else
      let specs := if bool_decide (align specs = align_none)
                   then set_align align_numeric ("0"%char :: tail (fill specs)) specs else specs in
      Ret (inr (tail begin, st, specs, ctx))
  else if is_digit_char c || eqc "{"%char then
    st ← enter_state st st_width true;
    '(begin, w, r, ctx) ← parse_dynamic_spec begin (width specs) (width_ref specs) ctx;
    Ret (inr (begin, st, set_width w r specs, ctx))
  else if eqc "."%char then
    st ← enter_state st st_precision (in_types arg (Z.lor (Z.lor float_set string_set) cstring_set));
    '(begin, p, r, ctx) ← parse_precision begin (precision specs) (precision_ref specs) ctx;
    Ret (inr (begin, st, set_precision p r specs, ctx))
  else if eqc "L"%char then
    st ← enter_state st st_locale (is_arithmetic_type arg);
    Ret (inr (tail begin, st, set_localized specs, ctx))
  else match presentation c with
  | Some (t, types) =>
      if negb (in_types arg types) then format_error
      else Ret (inl (tail begin, set_type t specs, ctx))
  | None =>
      if eqc "}"%char then Ret (inl (begin, specs, ctx))
      else match begin with
      | [] => Undef
      | b :: _ =>
          if bool_decide (b = "}"%char) then Ret (inl (begin, specs, ctx))
          else
            let n := Z.to_nat (code_point_length b) in
            match drop n begin with
            | [] => format_error
            | a :: rest =>
                if bool_decide (b = "{"%char) then format_error
                else
                  let al := parse_align a in
                  st ← enter_state st st_align (negb (bool_decide (al = align_none)));
                  Ret (inr (rest, st, set_align al (take n begin) specs, ctx))
            end
      end
  end.

(** The loop; [c] is the character the turn looks at. *)
Fixpoint spec_loop (fuel : nat) (arg : arg_type) (c : ascii) (begin : bytes) (st : state)
    (specs : format_specs) (ctx : context) : outcome parsed :=
  match fuel with
  | O => OutOfFuel
  | S fuel =>
      r ← spec_step arg c begin st specs ctx;
      match r with
      | inl p => Ret p
      | inr (begin, st, specs, ctx) =>
          match begin with
          | [] => Ret (begin, specs, ctx)
          | c :: _ => spec_loop fuel arg c begin st specs ctx
          end
      end
  end.

Definition parse_format_specs (begin : bytes) (ctx : context) (arg : arg_type) : outcome parsed :=
  match begin with
  | [] => Ret (begin, default_specs, ctx)
  | [c] => spec_loop 2 arg c begin st_start default_specs ctx
  | c :: next :: _ =>
      let c := if bool_decide (parse_align next = align_none) then c else NUL in
      spec_loop (S (length begin)) arg c begin st_start default_specs ctx
  end.

(** Checks the specifiers of a [char]: whether it is presented as one. *)
Definition check_char_specs (s : format_specs) : outcome bool :=
  if bool_decide (type s ∉ [pres_none; chr; debug]) then Ret false
  else if bool_decide (align s = align_numeric) || negb (bool_decide (sign s = sign_none)) || alt s
  then format_error else Ret true.

(** ** Specifiers as they are written

    A width or a precision: a number, or the argument that holds it. *)
Inductive count : Type := CNum (n : Z) | CArg (r : arg_ref).

Record syntax : Type := Syntax {
  sx_align : option (option bytes * ascii);    (* the fill, and the character of the alignment *)
  sx_sign : option ascii;
  sx_alt : bool;
  sx_zero : bool;
  sx_width : option count;
  sx_precision : option count;
  sx_localized : bool;
  sx_type : option ascii;
}.

Definition ref_text (r : arg_ref) : bytes :=
  match r with RefNone => [] | RefIndex i => utoa i | RefName n => n end.
Definition count_text (c : count) : bytes :=
  match c with CNum n => utoa n | CArg r => bs "{" ++ ref_text r ++ bs "}" end.

Definition align_text (a : option (option bytes * ascii)) : bytes :=
  match a with Some (f, c) => default [] f ++ [c] | None => [] end.

Definition flag_text (b : bool) (c : ascii) : bytes := if b then [c] else [].

Definition spec_text (sx : syntax) : bytes :=
  align_text (sx_align sx) ++ option_list (sx_sign sx) ++ flag_text (sx_alt sx) "#" ++
  flag_text (sx_zero sx) "0" ++
  from_option count_text [] (sx_width sx) ++
  from_option (λ c, bs "." ++ count_text c) [] (sx_precision sx) ++
  flag_text (sx_localized sx) "L" ++ option_list (sx_type sx).

(** What they mean; an automatic or numbered argument may not be allowed any more. *)
Definition meaning_align (a : option (option bytes * ascii)) (s : format_specs) : format_specs :=
  match a with Some (f, c) => set_align (parse_align c) (default (fill s) f) s | None => s end.
Definition meaning_sign (g : option ascii) (s : format_specs) : format_specs :=
  match g with
  | Some c => set_sign (if bool_decide (c = "+"%char) then sign_plus
                        else if bool_decide (c = "-"%char) then sign_minus else sign_space) s
  | None => s
  end.
(** '0' asks for zeros behind the sign, unless there is an alignment. *)
Definition meaning_zero (z : bool) (s : format_specs) : format_specs :=
  if z && bool_decide (align s = align_none) then set_align align_numeric ("0"%char :: tail (fill s)) s else s.
Definition meaning_width (c : option count) (x : format_specs * context) : outcome (format_specs * context) :=
  let '(s, ctx) := x in
  match c with
  | None => Ret (s, ctx)
  | Some (CNum n) => Ret (set_width n RefNone s, ctx)
  | Some (CArg r) => '(r, ctx) ← on_dynamic_id r ctx; Ret (set_width (width s) r s, ctx)
  end.
Definition meaning_precision (c : option count) (x : format_specs * context) : outcome (format_specs * context) :=
  let '(s, ctx) := x in
  match c with
  | None => Ret (s, ctx)
  | Some (CNum n) => Ret (set_precision n RefNone s, ctx)
  | Some (CArg r) => '(r, ctx) ← on_dynamic_id r ctx; Ret (set_precision (precision s) r s, ctx)
  end.
Definition meaning_type (t : option ascii) (s : format_specs) : format_specs :=
  match t ≫= presentation with Some (t, _) => set_type t s | None => s end.

Definition meaning (sx : syntax) (ctx : context) : outcome (format_specs * context) :=
  let s := meaning_zero (sx_zero sx)
             ((if sx_alt sx then set_alt else id) (meaning_sign (sx_sign sx) (meaning_align (sx_align sx) default_specs))) in
  x ← meaning_width (sx_width sx) (s, ctx);
  '(s, ctx) ← meaning_precision (sx_precision sx) x;
  Ret (meaning_type (sx_type sx) ((if sx_localized sx then set_localized else id) s), ctx).

(** A fill is one code point, not a brace. *)
Definition fill_ok (f : bytes) : Prop :=
  match f with
  | [] => False
  | b :: r => len f = code_point_length b ∧ b ≠ "{"%char ∧ b ≠ "}"%char ∧ Forall (λ c, 128 <= uchar c) r
  end.

Definition ref_ok (r : arg_ref) : Prop :=
  match r with
  | RefNone => True
  | RefIndex i => 0 <= i <= INT_MAX
  | RefName [] => False
  | RefName (c :: n) => is_name_start c = true ∧ Forall (λ c, is_name_start c || is_digit_char c = true) n
  end.
Definition count_ok (low : Z) (c : count) : Prop :=
  match c with CNum n => low <= n <= INT_MAX | CArg r => ref_ok r end.

(** The width and the precision are in range. *)
Definition specs_ok (specs : format_specs) : Prop := 0 <= width specs <= INT_MAX ∧ -1 <= precision specs <= INT_MAX.

(** Every specifier is one for the type of the argument. *)
Definition syntax_ok (arg : arg_type) (sx : syntax) : Prop :=
  (∀ f c, sx_align sx = Some (f, c) → parse_align c ≠ align_none ∧ from_option fill_ok True f) ∧
  (∀ c, sx_sign sx = Some c → (c ∈ bs "+- ") ∧ in_types arg (Z.lor sint_set float_set) = true) ∧
  (sx_alt sx || sx_zero sx || sx_localized sx = true → is_arithmetic_type arg = true) ∧
  from_option (count_ok 1) True (sx_width sx) ∧
  from_option (count_ok 0) True (sx_precision sx) ∧
  (is_Some (sx_precision sx) → in_types arg (Z.lor (Z.lor float_set string_set) cstring_set) = true) ∧
  (∀ c, sx_type sx = Some c → ∃ t types, presentation c = Some (t, types) ∧ in_types arg types = true).

(** * Lemmas *)

(** ** Numbers and ids *)

Lemma int_loop_digits ds : ∀ r v p k l, Forall (λ c, is_digit_char c = true) ds →
  from_option (λ c, is_digit_char c = false) True (head r) →
  0 <= v → dec_value_from v ds < 2 ^ 32 → ds ≠ [] →
  ∃ p' l', int_loop (ds ++ r) v p k l = (dec_value_from v ds, p', k + len ds, l', r) ∧
    dec_value_from v ds = p' * 10 + l' ∧ 0 <= l'.
Proof.
  induction ds as [|c ds IH]; intros r v p k l Hd Hr Hv Hu Hne; [done|].
  apply Forall_cons in Hd as [Hc Hd]. cbn [app int_loop]. rewrite Hc.
  assert (0 <= uchar c - 48 <= 9) as Hrng by (unfold is_digit_char in Hc; lia).
  change (dec_value_from v (c :: ds)) with (dec_value_from (v * 10 + (uchar c - 48)) ds) in *.
  pose proof (dec_value_from_ge (v * 10 + (uchar c - 48)) ds ltac:(lia) Hd) as Hge.
  assert (u32 (u32 (v * 10) + (uchar c - 48)) = v * 10 + (uchar c - 48)) as -> by (rewrite (u32_small (v * 10)), u32_small by lia; done).
  destruct ds as [|d ds].
  - exists v, (uchar c - 48). cbn [app length]. split; [|split; [done|lia]].
    destruct r as [|x r]; cbn [int_loop]; [done|]. cbn in Hr. by rewrite Hr.
  - destruct (IH r (v * 10 + (uchar c - 48)) v (k + 1) (uchar c - 48) Hd Hr ltac:(lia) Hu ltac:(done)) as (p' & l' & -> & H1 & H2).
    exists p', l'. split; [|done]. f_equal; [|done..]. do 2 f_equal. len_lia.
Qed.

Lemma utoa_cons n : 0 <= n → ∃ c ds, utoa n = c :: ds ∧ is_digit_char c = true ∧ Forall (λ c, is_digit_char c = true) ds.
Proof.
  intros Hn. pose proof (utoa_digits n Hn) as Hd. pose proof (utoa_nonempty n Hn) as Hne.
  destruct (utoa n) as [|c ds]; [done|]. apply Forall_cons in Hd as [? ?]. eauto.
Qed.

Definition no_digit (r : bytes) : Prop := from_option (λ c, is_digit_char c = false) True (head r).

Lemma parse_utoa n r e : 0 <= n <= INT_MAX → no_digit r → parse_nonnegative_int (utoa n ++ r) e = Ret (n, r).
Proof.
  intros Hn Hr. unfold parse_nonnegative_int.
  destruct (utoa_cons n ltac:(lia)) as (c & ds & Hu & Hc & Hd).
  pose proof (utoa_value n ltac:(lia)) as Hv. unfold dec_value in Hv.
  destruct (int_loop_digits (utoa n) r 0 0 0 0) as (p' & l' & -> & Hpl & Hl); [apply utoa_digits; lia|done|lia| |apply utoa_nonempty; lia|].
  { rewrite Hv. unfold INT_MAX in Hn. lia. }
  rewrite Hu. cbn [app head or_undef mbind outcome_bind]. rewrite Hc. cbn [cpp_assert mbind outcome_bind].
  rewrite <-Hu, Hv in *. fold (ndig n). unfold digits10_int.
  destruct (0 + ndig n <=? 9) eqn:E; bool_hyps; [done|].
  assert (ndig n = 10) as ->.
  { destruct (ndig_bounds n ltac:(lia)) as (H1 & _ & H3).
    assert (10 ^ (ndig n - 1) < 10 ^ 10) as Hp by (specialize (H3 ltac:(destruct (Z.eq_dec n 0) as [->|]; [rewrite ndig_small in E by lia|]; lia)); unfold INT_MAX in Hn; lia).
    apply (Z.pow_lt_mono_r_iff 10) in Hp; lia. }
  rewrite <-Hpl. by rewrite (proj2 (Z.leb_le n INT_MAX)) by lia.
Qed.

Lemma name_loop_name n r : Forall (λ c, is_name_start c || is_digit_char c = true) n →
  from_option (λ c, is_name_start c || is_digit_char c = false) True (head r) → name_loop (n ++ r) = (n, r).
Proof.
  intros Hn Hr. induction Hn as [|c n Hc _ IH]; cbn [app name_loop].
  - destruct r as [|c r]; [done|]. cbn in *. by rewrite Hr.
  - by rewrite Hc, IH.
Qed.

Lemma name_not_digit c : is_name_start c = true →
  is_digit_char c = false ∧ c ≠ "}"%char ∧ c ≠ ":"%char ∧ c ≠ "{"%char.
Proof.
  intros Hc. assert (forallb (λ c, negb (is_name_start c) || bool_decide
    (is_digit_char c = false ∧ c ≠ "}"%char ∧ c ≠ ":"%char ∧ c ≠ "{"%char)) all_chars = true) as H
    by (vm_compute; reflexivity).
  pose proof (forall_chars _ H c) as Hx. cbn in Hx. rewrite Hc in Hx. by apply bool_decide_eq_true in Hx.
Qed.

Lemma digit_not_sep c : is_digit_char c = true →
  c ≠ "}"%char ∧ c ≠ ":"%char ∧ c ≠ "{"%char ∧ c ≠ "."%char ∧ c ≠ "<"%char ∧ c ≠ ">"%char ∧ c ≠ "^"%char ∧
  c ≠ "+"%char ∧ c ≠ "-"%char ∧ c ≠ " "%char ∧ c ≠ "#"%char.
Proof.
  intros Hc. by repeat split; intros ->.
Qed.

(** An id, up to the character behind it. *)
Lemma parse_ref r d rest : ref_ok r → d = "}"%char ∨ d = ":"%char →
  parse_arg_id (ref_text r ++ d :: rest) = Ret (r, d :: rest).
Proof.
  intros Hr Hd. assert (bool_decide (d = "}"%char) || bool_decide (d = ":"%char) = true) as Hsep
    by (destruct Hd as [->| ->]; done).
  assert (is_digit_char d = false ∧ is_name_start d = false) as [Hdd Hdn] by (destruct Hd as [->| ->]; done).
  destruct r as [|i|n]; cbn [ref_text ref_ok] in *.
  - cbn [app parse_arg_id]. by rewrite Hsep.
  - destruct (utoa_cons i ltac:(lia)) as (c & ds & Hu & Hc & Hds). rewrite Hu. cbn [app parse_arg_id].
    destruct (digit_not_sep c Hc) as (H1 & H2 & _). rewrite !bool_decide_false by done. cbn [orb do_parse_arg_id].
    rewrite Hc. destruct (decide (c = "0"%char)) as [->|H0].
    + rewrite bool_decide_true by done. cbn [mbind outcome_bind].
      assert (i = 0 ∧ ds = []) as [-> ->].
      { destruct (Z.eq_dec i 0) as [->|Hi]; [cbn in Hu; by injection Hu as <-|].
        destruct (utoa_head i ltac:(lia)) as (d' & ds' & Hu' & Hd'). rewrite Hu in Hu'. injection Hu' as Hc' _.
        apply (f_equal uchar) in Hc'. rewrite uchar_digit in Hc' by lia. change (uchar "0") with 48 in Hc'. lia. }
      cbn [app]. by rewrite Hsep.
    + rewrite bool_decide_false by done. rewrite app_comm_cons, <-Hu.
      rewrite parse_utoa by (done || lia). cbn [mbind outcome_bind]. by rewrite Hsep.
  - destruct n as [|c n]; [done|]. destruct Hr as [Hc Hn]. destruct (name_not_digit c Hc) as (H1 & H2 & H3 & _).
    cbn [app parse_arg_id]. rewrite !bool_decide_false by done. cbn [orb do_parse_arg_id]. rewrite H1, Hc. cbn [negb].
    rewrite name_loop_name; [done|done|]. cbn. by rewrite Hdd, Hdn.
Qed.

Lemma parse_count c low v ref ctx r : count_ok low c → 0 <= low → no_digit r →
  parse_dynamic_spec (count_text c ++ r) v ref ctx =
    match c with
    | CNum n => Ret (r, n, ref, ctx)
    | CArg a => '(a, ctx) ← on_dynamic_id a ctx; Ret (r, v, a, ctx)
    end.
Proof.
  intros Hc Hlow Hr. destruct c as [n|a]; cbn [count_text count_ok] in *.
  - destruct (utoa_cons n ltac:(lia)) as (x & ds & Hu & Hx & _). rewrite Hu. cbn [app parse_dynamic_spec].
    rewrite Hx, app_comm_cons, <-Hu. rewrite parse_utoa by (done || lia). cbn [mbind outcome_bind].
    by rewrite (proj2 (Z.eqb_neq n (-1))) by lia.
  - rewrite <-!app_assoc. change (bs "}" ++ r) with ("}"%char :: r).
    change (bs "{" ++ ref_text a ++ "}"%char :: r) with ("{"%char :: (ref_text a ++ "}"%char :: r)).
    cbn [parse_dynamic_spec]. change (is_digit_char "{") with false. cbn iota.
    rewrite bool_decide_true by done.
    destruct (ref_text a ++ "}"%char :: r) as [|y l] eqn:E; [by destruct (ref_text a)|]. rewrite <-E.
    rewrite parse_ref by (done || by left). cbn [mbind outcome_bind].
    destruct (on_dynamic_id a ctx) as [[a' ctx']| | | |]; cbn [mbind outcome_bind]; try done.
Qed.

(** ** Every turn ends, and reads on *)

(** An outcome that is an error of the format, or a result that satisfies [P]. *)
Definition error_or {A} (P : A → Prop) (m : outcome A) : Prop :=
  match m with Ret x => P x | Throw e => e = runtime_error | _ => False end.

Lemma error_or_bind {A B} (P : A → Prop) (Q : B → Prop) (m : outcome A) (f : A → outcome B) :
  error_or P m → (∀ x, P x → error_or Q (f x)) → error_or Q (m ≫= f).
Proof. destruct m; cbn; auto. Qed.

Lemma error_or_impl {A} (P Q : A → Prop) m : (∀ x, P x → Q x) → error_or P m → error_or Q m.
Proof. destruct m; cbn; auto. Qed.

Lemma int_loop_length s : ∀ v p k l, let '(_, _, _, _, r) := int_loop s v p k l in (length r ≤ length s)%nat.
Proof.
  induction s as [|c s IH]; intros v p k l; cbn [int_loop]; [done|]. destruct (is_digit_char c); [|done].
  specialize (IH (u32 (u32 (v * 10) + (uchar c - 48))) v (k + 1) (uchar c - 48)).
  destruct (int_loop s _ _ _ _) as [[[[? ?] ?] ?] ?]. cbn. lia.
Qed.

Lemma parse_int_total c s e : is_digit_char c = true →
  ∃ v r, parse_nonnegative_int (c :: s) e = Ret (v, r) ∧ (length r ≤ length s)%nat.
Proof.
  intros Hc. unfold parse_nonnegative_int. cbn [head or_undef mbind outcome_bind int_loop]. rewrite Hc.
  cbn [cpp_assert mbind outcome_bind].
  pose proof (int_loop_length s (u32 (u32 (0 * 10) + (uchar c - 48))) 0 (0 + 1) (uchar c - 48)) as Hl.
  destruct (int_loop s _ _ _ _) as [[[[? ?] ?] ?] r]. repeat case_test; eauto.
Qed.

Lemma name_loop_length s : (length (name_loop s).2 ≤ length s)%nat.
Proof. induction s as [|c s IH]; cbn; [done|]. destruct (_ || _); [|done]. destruct (name_loop s). cbn in *. lia. Qed.

Lemma parse_arg_id_total c s : error_or (λ x, (length x.2 ≤ S (length s))%nat) (parse_arg_id (c :: s)).
Proof.
  cbn [parse_arg_id]. destruct (_ || _); [cbn; lia|]. cbn [do_parse_arg_id].
  destruct (is_digit_char c) eqn:Hc.
  - apply (error_or_bind (λ x : Z * bytes, (length x.2 ≤ length s)%nat)).
    + case_bool_decide; [cbn; lia|]. destruct (parse_int_total c s INT_MAX Hc) as (v & r & -> & Hr). done.
    + intros [i [|d r]] Hr; cbn in *; [done|]. destruct (_ || _); cbn; lia || done.
  - destruct (is_name_start c); [|done]. cbn [negb]. pose proof (name_loop_length s).
    destruct (name_loop s) as [n r]. cbn in *. lia.
Qed.

(** The checks of the context yield an id or an error. *)
Ltac context_total :=
  repeat match goal with
  | |- error_or _ (_ ≫= _) => eapply (error_or_bind (λ _, True))
  | |- error_or _ (if _ then _ else _) => case_match
  | |- error_or _ (match _ with _ => _ end) => case_match
  | |- ∀ _, True → _ => intros ? _
  | |- error_or _ (Ret _) => done
  | |- error_or _ format_error => exact eq_refl
  end.

Lemma next_arg_total ctx : error_or (λ _, True) (next_arg_id ctx).
Proof. unfold next_arg_id, do_check_arg_id. context_total. Qed.

Lemma next_arg_runtime (n : Z) : 0 <= n → next_arg_id n = Ret (n, runtime (n + 1)).
Proof. intros Hn. unfold next_arg_id. cbn [runtime next_arg_id_]. by rewrite (proj2 (Z.ltb_ge n 0)). Qed.

Lemma check_arg_total id ctx : error_or (λ _, True) (check_arg_id id ctx).
Proof. unfold check_arg_id, do_check_arg_id. context_total. Qed.

Lemma on_dynamic_total r ctx : error_or (λ _, True) (on_dynamic_id r ctx).
Proof.
  destruct r as [|id|n]; cbn [on_dynamic_id]; [| |done]; (eapply error_or_bind; [apply next_arg_total || apply check_arg_total|]);
    intros x _; try destruct x; unfold check_dynamic_spec; context_total.
Qed.

Lemma parse_dynamic_total c s v ref ctx :
  error_or (λ x, (length x.1.1.1 ≤ if is_digit_char c || bool_decide (c = "{"%char) then length s else S (length s))%nat)
    (parse_dynamic_spec (c :: s) v ref ctx).
Proof.
  cbn [parse_dynamic_spec]. destruct (is_digit_char c) eqn:Hc.
  - cbn [orb]. destruct (parse_int_total c s (-1) Hc) as (n & r & -> & Hr). cbn [mbind outcome_bind].
    by destruct (_ =? _).
  - cbn [orb]. case_bool_decide; [|cbn; lia].
    apply (error_or_bind (λ x : bytes * arg_ref * context, (length x.1.1 ≤ length s)%nat)).
    + destruct s as [|d s]; [cbn; lia|]. eapply error_or_bind; [apply parse_arg_id_total|].
      intros [r b] Hb. eapply error_or_bind; [apply on_dynamic_total|]. by intros [? ?] _.
    + intros [[[|d b] ?] ?] Hb; cbn in *; [done|]. case_bool_decide; cbn; lia || done.
Qed.

Lemma enter_total st s v : error_or (λ st', st' = s ∧ (state_index st < state_index s) ∧ v = true) (enter_state st s v).
Proof.
  unfold enter_state. destruct (_ || _) eqn:E; [done|]. cbn. apply orb_false_iff in E as [E Ev]. bool_hyps.
  split_and!; [done|lia|by destruct v].
Qed.

Definition step_result (n : nat) (r : parsed + (bytes * state * format_specs * context)) : Prop :=
  match r with
  | inl p => (length p.1.1 ≤ S n)%nat
  | inr x => (length x.1.1.1 ≤ n)%nat
  end.

Lemma code_point_length_range c : 1 <= code_point_length c <= 4.
Proof.
  unfold code_point_length. set (x := Z.shiftr _ _). change 3 with (Z.ones 2). rewrite Z.land_ones by lia.
  pose proof (Z.mod_pos_bound x (2 ^ 2) ltac:(done)). lia.
Qed.

Lemma step_total arg c b s st specs ctx : c = b ∨ c = NUL →
  error_or (step_result (length s)) (spec_step arg c (b :: s) st specs ctx).
Proof.
  intros Hc. unfold spec_step. cbn [tail].
  repeat match goal with
  | |- error_or _ (if _ then _ else _) => case_test
  | |- error_or _ (enter_state _ _ _ ≫= _) => eapply error_or_bind; [apply enter_total|]; intros ? _
  | |- error_or _ (Ret _) => cbn; lia
  | |- error_or _ (Throw _) => reflexivity
  | |- error_or _ format_error => reflexivity
  end.
  - eapply error_or_bind; [apply parse_dynamic_total|]. intros [[[b' w] r] ctx'] Hb. cbn in *.
    destruct Hc as [->| ->]; [|by vm_compute in E3]. by rewrite E3 in Hb.
  - unfold parse_precision. cbn [tail]. destruct s as [|d s]; [exact eq_refl|]. destruct (bool_decide (d = "}"%char)); [exact eq_refl|].
    eapply error_or_bind; [apply parse_dynamic_total|]. intros [[[b' w] r] ctx'] Hb. cbn [fst] in Hb.
    unfold step_result. cbn. revert Hb. destruct (is_digit_char d || _); lia.
  - destruct (presentation c) as [[t types]|].
    { destruct (negb _); [exact eq_refl|cbn; lia]. }
    destruct (bool_decide (c = "}"%char)); [cbn; lia|]. destruct (bool_decide (b = "}"%char)); [cbn; lia|].
    pose proof (code_point_length_range b) as Hn.
    destruct (drop _ _) as [|a rest] eqn:Hd; [exact eq_refl|]. apply (f_equal length) in Hd.
    rewrite length_drop in Hd. cbn [length] in Hd. destruct (bool_decide (b = "{"%char)); [exact eq_refl|].
    eapply error_or_bind; [apply enter_total|]; intros ? _. cbn. lia.
Qed.

Lemma spec_loop_fuel arg : ∀ fuel fuel' c b s st specs ctx, c = b ∨ c = NUL →
  (length (b :: s) < fuel)%nat → (length (b :: s) < fuel')%nat →
  spec_loop fuel arg c (b :: s) st specs ctx = spec_loop fuel' arg c (b :: s) st specs ctx.
Proof.
  induction fuel as [|fuel IH]; intros [|fuel'] c b s st specs ctx Hc Hf Hf'; [lia..|]. cbn [spec_loop].
  pose proof (step_total arg c b s st specs ctx Hc) as Ht. destruct (spec_step _ _ _ _ _ _) as [[p|[[[b' st'] sp'] ctx']]| | | |]; try done.
  cbn [mbind outcome_bind]. destruct b' as [|c' b']; [done|]. cbn in *. apply IH; [by left|cbn; lia|cbn; lia].
Qed.

Lemma spec_loop_total arg : ∀ fuel c b s st specs ctx, c = b ∨ c = NUL → (length (b :: s) < fuel)%nat →
  error_or (λ p, (length p.1.1 ≤ length (b :: s))%nat) (spec_loop fuel arg c (b :: s) st specs ctx).
Proof.
  induction fuel as [|fuel IH]; intros c b s st specs ctx Hc Hf; [lia|]. cbn [spec_loop].
  eapply error_or_bind; [by apply step_total|]. intros [p|[[[b' st'] sp'] ctx']] Hr; cbn in Hr; [done|].
  destruct b' as [|c' b']; [cbn; lia|]. cbn in Hf.
  eapply error_or_impl; [|apply IH; [by left|cbn in *; lia]]. intros p Hp. cbn in *. lia.
Qed.

Lemma parse_specs_total begin ctx arg :
  error_or (λ p, (length p.1.1 ≤ length begin)%nat) (parse_format_specs begin ctx arg).
Proof.
  destruct begin as [|c [|d s]]; cbn [parse_format_specs]; [cbn; lia|apply spec_loop_total; [by left|cbn; lia]|].
  apply spec_loop_total; [|cbn; lia]. case_bool_decide; [by left|by right].
Qed.

(** ** One specifier after the other *)

(** The loop from a place on. *)
Definition specs_from (arg : arg_type) (begin : bytes) (st : state) (specs : format_specs) (ctx : context) : outcome parsed :=
  match begin with
  | [] => Ret (begin, specs, ctx)
  | c :: _ => spec_loop (S (length begin)) arg c begin st specs ctx
  end.

Definition go_on (arg : arg_type) (r : parsed + (bytes * state * format_specs * context)) : outcome parsed :=
  match r with
  | inl p => Ret p
  | inr (b, st, specs, ctx) => specs_from arg b st specs ctx
  end.

Lemma spec_loop_step arg c b s st specs ctx : c = b ∨ c = NUL →
  spec_loop (S (length (b :: s))) arg c (b :: s) st specs ctx = (spec_step arg c (b :: s) st specs ctx ≫= go_on arg).
Proof.
  intros Hc. cbn [spec_loop]. pose proof (step_total arg c b s st specs ctx Hc) as Ht.
  destruct (spec_step _ _ _ _ _ _) as [[p|[[[b' st'] sp'] ctx']]| | | |]; try done.
  cbn [mbind outcome_bind go_on]. destruct b' as [|c' b']; [done|]. cbn in Ht. unfold specs_from.
  apply spec_loop_fuel; [by left|cbn; lia|cbn; lia].
Qed.

Lemma specs_from_step arg b s st specs ctx :
  specs_from arg (b :: s) st specs ctx = (spec_step arg b (b :: s) st specs ctx ≫= go_on arg).
Proof. unfold specs_from. by rewrite spec_loop_step by by left. Qed.

Lemma enter_ok st s : (state_index st < state_index s) → enter_state st s true = Ret s.
Proof. intros H. unfold enter_state. by rewrite (proj2 (Z.leb_gt _ _)) by lia. Qed.

Lemma from_sign arg c r st specs ctx : (c ∈ bs "+- ") → in_types arg (Z.lor sint_set float_set) = true →
  state_index st < state_index st_sign →
  specs_from arg (c :: r) st specs ctx = specs_from arg r st_sign (meaning_sign (Some c) specs) ctx.
Proof.
  intros Hc Ht Hst. rewrite specs_from_step.
  assert (spec_step arg c (c :: r) st specs ctx =
    (st ← enter_state st st_sign (in_types arg (Z.lor sint_set float_set));
     Ret (inr (r, st, meaning_sign (Some c) specs, ctx)))) as ->.
  { repeat (apply elem_of_cons in Hc as [->|Hc]; [reflexivity|]). by apply elem_of_nil in Hc. }
  by rewrite Ht, enter_ok.
Qed.

Lemma from_hash arg r st specs ctx : is_arithmetic_type arg = true → state_index st < state_index st_hash →
  specs_from arg ("#"%char :: r) st specs ctx = specs_from arg r st_hash (set_alt specs) ctx.
Proof.
  intros Ht Hst. rewrite specs_from_step. change (spec_step arg "#" ("#"%char :: r) st specs ctx) with
    (st ← enter_state st st_hash (is_arithmetic_type arg); Ret (inr (r, st, set_alt specs, ctx)) : outcome (parsed + _)).
  by rewrite Ht, enter_ok.
Qed.

Lemma from_zero arg r st specs ctx : is_arithmetic_type arg = true → state_index st < state_index st_zero →
  specs_from arg ("0"%char :: r) st specs ctx = specs_from arg r st_zero (meaning_zero true specs) ctx.
Proof.
  intros Ht Hst. rewrite specs_from_step. change (spec_step arg "0" ("0"%char :: r) st specs ctx) with
    (st ← enter_state st st_zero true;
     if negb (is_arithmetic_type arg) then format_error
     else Ret (inr (r, st, meaning_zero true specs, ctx)) : outcome (parsed + _)).
  by rewrite Ht, enter_ok.
Qed.

Lemma from_locale arg r st specs ctx : is_arithmetic_type arg = true → state_index st < state_index st_locale →
  specs_from arg ("L"%char :: r) st specs ctx = specs_from arg r st_locale (set_localized specs) ctx.
Proof.
  intros Ht Hst. rewrite specs_from_step. change (spec_step arg "L" ("L"%char :: r) st specs ctx) with
    (st ← enter_state st st_locale (is_arithmetic_type arg); Ret (inr (r, st, set_localized specs, ctx)) : outcome (parsed + _)).
  by rewrite Ht, enter_ok.
Qed.

Lemma from_width arg c r st specs ctx : count_ok 1 c → no_digit r → state_index st < state_index st_width →
  width_ref specs = RefNone →
  specs_from arg (count_text c ++ r) st specs ctx =
    ('(s, ctx) ← meaning_width (Some c) (specs, ctx); specs_from arg r st_width s ctx).
Proof.
  intros Hc Hr Hst Hw.
  assert (∃ x l, count_text c ++ r = x :: l ∧ (is_digit_char x || bool_decide (x = "{"%char) = true) ∧ x ≠ "0"%char) as (x & l & Hx & Hd & H0).
  { destruct c as [n|a]; cbn [count_text count_ok] in *; [|eexists _, _; split; [reflexivity|]; by split].
    destruct (utoa_head n ltac:(lia)) as (d & ds & -> & Hd). eexists _, _. split; [reflexivity|].
    rewrite is_digit_digit_char by lia. split; [done|]. intros Hx. apply (f_equal uchar) in Hx.
    rewrite uchar_digit in Hx by lia. change (uchar "0") with 48 in Hx. lia. }
  rewrite Hx, specs_from_step. unfold spec_step.
  assert (x ≠ "<"%char ∧ x ≠ ">"%char ∧ x ≠ "^"%char ∧ x ≠ "+"%char ∧ x ≠ "-"%char ∧ x ≠ " "%char ∧ x ≠ "#"%char) as (?&?&?&?&?&?&?).
  { apply orb_true_iff in Hd as [Hd|Hd]; [|by apply bool_decide_eq_true in Hd as ->].
    pose proof (digit_not_sep x Hd). tauto. }
  rewrite !bool_decide_false by done. cbn [orb].
  rewrite Hd, enter_ok by done. cbn [mbind outcome_bind]. rewrite <-Hx, (parse_count c 1) by (done || lia). rewrite Hw.
  destruct c as [n|a]; cbn [meaning_width mbind outcome_bind go_on]; [done|].
  by destruct (on_dynamic_id a ctx) as [[a' ctx']| | | |].
Qed.

Lemma count_text_head c r low : count_ok low c → 0 <= low →
  ∃ x l, count_text c ++ r = x :: l ∧ x ≠ "}"%char.
Proof.
  intros Hc Hlow. destruct c as [n|a]; cbn [count_text count_ok] in *; [|by eexists _, _].
  destruct (utoa_cons n ltac:(lia)) as (x & ds & -> & Hx & _). eexists _, _. split; [reflexivity|].
  by apply digit_not_sep in Hx as (? & _).
Qed.

Lemma from_precision arg c r st specs ctx : count_ok 0 c → no_digit r → state_index st < state_index st_precision →
  in_types arg (Z.lor (Z.lor float_set string_set) cstring_set) = true → precision_ref specs = RefNone →
  specs_from arg (("."%char :: count_text c) ++ r) st specs ctx =
    ('(s, ctx) ← meaning_precision (Some c) (specs, ctx); specs_from arg r st_precision s ctx).
Proof.
  intros Hc Hr Hst Ht Hp. cbn [app]. rewrite specs_from_step.
  change (spec_step arg "." ("."%char :: count_text c ++ r) st specs ctx) with
    (st ← enter_state st st_precision (in_types arg (Z.lor (Z.lor float_set string_set) cstring_set));
     '(begin, p, r, ctx) ← parse_precision ("."%char :: count_text c ++ r) (precision specs) (precision_ref specs) ctx;
     Ret (inr (begin, st, set_precision p r specs, ctx)) : outcome (parsed + _)).
  rewrite Ht, enter_ok by done. cbn [mbind outcome_bind]. unfold parse_precision. cbn [tail].
  destruct (count_text_head c r 0 Hc ltac:(lia)) as (x & l & Hx & Hne).
  rewrite Hx, bool_decide_false by done. rewrite <-Hx, (parse_count c 0), Hp by (done || lia).
  destruct c as [n|a]; cbn [meaning_precision mbind outcome_bind go_on]; [done|].
  by destruct (on_dynamic_id a ctx) as [[a' ctx']| | | |].
Qed.

(** The letters of the types are no other specifiers. *)
Lemma presentation_letter c t types : presentation c = Some (t, types) →
  (c ∉ bs "<>^+- #0{.L}") ∧ is_digit_char c = false.
Proof.
  intros Hc. assert (forallb (λ c, bool_decide (presentation c = None) || bool_decide
    ((c ∉ bs "<>^+- #0{.L}") ∧ is_digit_char c = false)) all_chars = true) as H by (vm_compute; reflexivity).
  pose proof (forall_chars _ H c) as Hx. cbn beta in Hx. rewrite Hc in Hx. by apply bool_decide_eq_true in Hx.
Qed.

Lemma from_type arg c r st specs ctx t types : presentation c = Some (t, types) → in_types arg types = true →
  specs_from arg (c :: r) st specs ctx = Ret (r, set_type t specs, ctx).
Proof.
  intros Hp Ht. rewrite specs_from_step. unfold spec_step. destruct (presentation_letter c t types Hp) as [Hc Hd].
  rewrite !bool_decide_false by (intros ->; apply Hc; by_decide). rewrite Hd, Hp, Ht. done.
Qed.

Lemma from_close arg r st specs ctx : specs_from arg ("}"%char :: r) st specs ctx = Ret ("}"%char :: r, specs, ctx).
Proof. by rewrite specs_from_step. Qed.

(** ** The start, with the alignment *)

Lemma code_point_length_multi b : 1 < code_point_length b → 192 <= uchar b.
Proof.
  intros Hb. assert (forallb (λ b, (code_point_length b <=? 1) || (192 <=? uchar b)) all_chars = true) as H
    by (vm_compute; reflexivity).
  pose proof (forall_chars _ H b) as Hx. cbn beta in Hx. lia.
Qed.

(** What the loop sees of a character that is none of ASCII, or of NUL. *)
Lemma step_fill arg c b s st specs ctx : c = NUL ∨ c = b ∧ 192 <= uchar b → b ≠ "{"%char → b ≠ "}"%char →
  spec_step arg c (b :: s) st specs ctx =
    let n := Z.to_nat (code_point_length b) in
    match drop n (b :: s) with
    | [] => format_error
    | a :: rest =>
        st ← enter_state st st_align (negb (bool_decide (parse_align a = align_none)));
        Ret (inr (rest, st, set_align (parse_align a) (take n (b :: s)) specs, ctx))
    end.
Proof.
  intros Hc Hb1 Hb2. unfold spec_step.
  assert ((c ∉ bs "<>^+- #0{.L}") ∧ is_digit_char c = false ∧ presentation c = None) as (Hn & Hd & Hp).
  { destruct Hc as [->|[-> Hb]]; [by split_and!; [by_decide|..]|].
    assert (forallb (λ b, (uchar b <? 192) || bool_decide
      ((b ∉ bs "<>^+- #0{.L}") ∧ is_digit_char b = false ∧ presentation b = None)) all_chars = true) as H
      by (vm_compute; reflexivity).
    pose proof (forall_chars _ H b) as Hx. cbn beta in Hx. rewrite (proj2 (Z.ltb_ge _ _)) in Hx by lia.
    by apply bool_decide_eq_true in Hx. }
  rewrite !(bool_decide_false (c = _)) by (intros ->; apply Hn; by_decide). rewrite Hd, Hp. cbn [orb].
  rewrite (bool_decide_false (b = "}"%char)) by done.
  destruct (drop _ _); [done|]. by rewrite (bool_decide_false (b = "{"%char)).
Qed.

Lemma parse_align_some c : parse_align c ≠ align_none → c = "<"%char ∨ c = ">"%char ∨ c = "^"%char.
Proof. unfold parse_align. repeat case_bool_decide; tauto. Qed.

Lemma start_no_align arg r ctx : match r with _ :: d :: _ => parse_align d = align_none | _ => True end →
  parse_format_specs r ctx arg = specs_from arg r st_start default_specs ctx.
Proof.
  destruct r as [|c [|d r]]; cbn [parse_format_specs specs_from]; [done..|]. intros ->.
  by rewrite bool_decide_true.
Qed.

Lemma start_close arg r ctx : parse_format_specs ("}"%char :: r) ctx arg = Ret ("}"%char :: r, default_specs, ctx).
Proof. destruct r as [|d r]; cbn [parse_format_specs]; [done|]. by destruct (bool_decide _). Qed.

Lemma start_align arg c r ctx : parse_align c ≠ align_none → 
  match r with d :: _ => parse_align d = align_none | _ => True end →
  parse_format_specs (c :: r) ctx arg = specs_from arg r st_align (meaning_align (Some (None, c)) default_specs) ctx.
Proof.
  intros Hc Hr. rewrite start_no_align by (by destruct r). rewrite specs_from_step.
  by destruct (parse_align_some c Hc) as [->|[->| ->]].
Qed.

Lemma start_fill arg f c r ctx : fill_ok f → parse_align c ≠ align_none →
  parse_format_specs (f ++ c :: r) ctx arg =
    specs_from arg r st_align (meaning_align (Some (Some f, c)) default_specs) ctx.
Proof.
  intros Hf Hc. destruct f as [|b f]; [done|]. destruct Hf as (Hl & Hb1 & Hb2 & Hf).
  assert (∃ c', parse_format_specs ((b :: f) ++ c :: r) ctx arg =
      spec_loop (S (length ((b :: f) ++ c :: r))) arg c' ((b :: f) ++ c :: r) st_start default_specs ctx ∧
      (c' = NUL ∨ c' = b ∧ 192 <= uchar b)) as (c' & -> & Hc').
  { destruct f as [|d f]; cbn [app parse_format_specs].
    - rewrite bool_decide_false by done. eexists. split; [reflexivity|by left].
    - apply Forall_cons in Hf as [Hd _]. rewrite bool_decide_true.
      + eexists. split; [reflexivity|]. right. split; [done|]. apply code_point_length_multi. rewrite <-Hl. len_lia.
      + unfold parse_align. by rewrite !bool_decide_false by (intros ->; by vm_compute in Hd). }
  cbn [app]. rewrite spec_loop_step by tauto. rewrite step_fill by done. cbv zeta. rewrite <-Hl, Nat2Z.id.
  change (b :: f ++ c :: r) with ((b :: f) ++ c :: r). rewrite drop_app_length, take_app_length.
  rewrite bool_decide_false by done. by rewrite enter_ok.
Qed.

(** ** The text behind the alignment *)

Definition tail_text (sx : syntax) : bytes :=
  flag_text (sx_localized sx) "L" ++ option_list (sx_type sx).
Definition body_text (sx : syntax) : bytes :=
  option_list (sx_sign sx) ++ flag_text (sx_alt sx) "#" ++ flag_text (sx_zero sx) "0" ++
  from_option count_text [] (sx_width sx) ++ from_option (λ c, bs "." ++ count_text c) [] (sx_precision sx) ++
  tail_text sx.

Definition no_align (l : bytes) : Prop := Forall (λ c, parse_align c = align_none) l.

Lemma name_no_align c : is_name_start c || is_digit_char c = true → parse_align c = align_none.
Proof.
  intros Hc. unfold parse_align. by rewrite !bool_decide_false by (intros ->; by vm_compute in Hc).
Qed.

Lemma digits_no_align l : Forall (λ c, is_digit_char c = true) l → no_align l.
Proof. intros H. eapply Forall_impl; [exact H|]. intros c Hc. apply name_no_align. cbn. rewrite Hc. apply orb_true_r. Qed.

Lemma count_no_align c low : count_ok low c → 0 <= low → no_align (count_text c).
Proof.
  intros Hc Hlow. destruct c as [n|r]; cbn [count_text count_ok] in *; [apply digits_no_align, utoa_digits; lia|].
  constructor; [done|]. apply Forall_app. split; [|by repeat constructor].
  destruct r as [|i|[|c n]]; cbn [ref_text ref_ok] in *; [constructor|apply digits_no_align, utoa_digits; lia|done|].
  destruct Hc as [Hc Hn]. constructor; [apply name_no_align; by rewrite Hc|].
  eapply Forall_impl; [exact Hn|]. apply name_no_align.
Qed.

Lemma type_no_align arg sx : syntax_ok arg sx → no_align (option_list (sx_type sx)).
Proof.
  intros (_ & _ & _ & _ & _ & _ & Ht). destruct (sx_type sx) as [c|]; cbn; [|constructor].
  destruct (Ht c eq_refl) as (t & types & Hp & _). destruct (presentation_letter c t types Hp) as [Hc _].
  constructor; [|constructor]. unfold parse_align. by rewrite !bool_decide_false by (intros ->; apply Hc; by_decide).
Qed.

Lemma flag_no_align b c : parse_align c = align_none → no_align (flag_text b c).
Proof. intros H. destruct b; repeat constructor; done. Qed.

Lemma body_no_align arg sx : syntax_ok arg sx → no_align (body_text sx).
Proof.
  intros Hok. pose proof (type_no_align arg sx Hok) as Ht. destruct Hok as (_ & Hs & _ & Hw & Hp & _).
  unfold body_text, tail_text. repeat (apply Forall_app; split); try (by apply flag_no_align); try done.
  - destruct (sx_sign sx) as [c|]; cbn; [|constructor]. destruct (Hs c eq_refl) as [Hc _].
    repeat constructor. repeat (apply elem_of_cons in Hc as [->|Hc]; [done|]). by apply elem_of_nil in Hc.
  - destruct (sx_width sx) as [c|]; cbn in *; [|constructor]. by eapply count_no_align.
  - destruct (sx_precision sx) as [c|]; cbn in *; [|constructor]. constructor; [done|]. by eapply count_no_align.
Qed.

(** What follows a width or a precision is not a digit. *)
Lemma tail_no_digit arg sx rest : syntax_ok arg sx → no_digit (tail_text sx ++ "}"%char :: rest).
Proof.
  intros (_ & _ & _ & _ & _ & _ & Ht). unfold tail_text, no_digit. destruct (sx_localized sx); [done|].
  destruct (sx_type sx) as [c|]; cbn; [|done]. destruct (Ht c eq_refl) as (t & types & Hp & _).
  by destruct (presentation_letter c t types Hp).
Qed.

Lemma from_tail arg sx rest st specs ctx : syntax_ok arg sx → state_index st < state_index st_locale →
  specs_from arg (tail_text sx ++ "}"%char :: rest) st specs ctx =
    Ret ("}"%char :: rest, meaning_type (sx_type sx) ((if sx_localized sx then set_localized else id) specs), ctx).
Proof.
  intros (_ & _ & Hf & _ & _ & _ & Ht) Hst. unfold tail_text.
  assert (∀ st specs, specs_from arg (option_list (sx_type sx) ++ "}"%char :: rest) st specs ctx =
    Ret ("}"%char :: rest, meaning_type (sx_type sx) specs, ctx)) as Htype.
  { intros st' s'. destruct (sx_type sx) as [c|]; cbn [option_list app]; [|apply (from_close arg rest st' s' ctx)].
    destruct (Ht c eq_refl) as (t & types & Hp & Hin). unfold meaning_type. cbn [mbind option_bind]. rewrite Hp. by apply (from_type _ _ _ _ _ _ _ types). }
  destruct (sx_localized sx) eqn:E; cbn [flag_text app]; [|by rewrite Htype].
  rewrite from_locale; [apply Htype|apply Hf; by rewrite orb_true_r|done].
Qed.

(** An optional specifier takes the loop to its state, or leaves it before. *)
Lemma from_signs arg sx r st specs ctx : syntax_ok arg sx → state_index st < state_index st_sign →
  ∃ st', state_index st' < state_index st_hash ∧
    specs_from arg (option_list (sx_sign sx) ++ r) st specs ctx = specs_from arg r st' (meaning_sign (sx_sign sx) specs) ctx.
Proof.
  intros (_ & Hs & _) Hst. destruct (sx_sign sx) as [c|]; cbn [option_list app].
  - destruct (Hs c eq_refl). exists st_sign. split; [done|]. by apply from_sign.
  - exists st. split; [cbn in *; lia|done].
Qed.

Lemma from_flags arg sx r st specs ctx : syntax_ok arg sx → state_index st < state_index st_hash →
  ∃ st', state_index st' < state_index st_width ∧
    specs_from arg (flag_text (sx_alt sx) "#" ++ flag_text (sx_zero sx) "0" ++ r) st specs ctx =
    specs_from arg r st' (meaning_zero (sx_zero sx) ((if sx_alt sx then set_alt else id) specs)) ctx.
Proof.
  intros (_ & _ & Hf & _) Hst.
  assert (∃ st', state_index st' < state_index st_zero ∧
    ∀ r, specs_from arg (flag_text (sx_alt sx) "#" ++ r) st specs ctx =
    specs_from arg r st' ((if sx_alt sx then set_alt else id) specs) ctx) as (st1 & H1 & E1).
  { destruct (sx_alt sx); [exists st_hash|exists st; split; [cbn in *; lia|done]].
    split; [done|]. intros r'. apply from_hash; [by apply Hf|done]. }
  rewrite E1. destruct (sx_zero sx); cbn [flag_text app].
  - exists st_zero. split; [done|]. apply from_zero; [apply Hf; by rewrite orb_true_r|done].
  - exists st1. split; [cbn in *; lia|done].
Qed.

Lemma precision_no_digit arg sx rest : syntax_ok arg sx →
  no_digit (from_option (λ c, bs "." ++ count_text c) [] (sx_precision sx) ++ tail_text sx ++ "}"%char :: rest).
Proof. intros Hok. destruct (sx_precision sx); [done|]. by eapply tail_no_digit. Qed.

Lemma from_counts arg sx rest st specs ctx : syntax_ok arg sx → state_index st < state_index st_width →
  width_ref specs = RefNone → precision_ref specs = RefNone →
  specs_from arg (from_option count_text [] (sx_width sx) ++
    from_option (λ c, bs "." ++ count_text c) [] (sx_precision sx) ++ tail_text sx ++ "}"%char :: rest) st specs ctx =
    (x ← meaning_width (sx_width sx) (specs, ctx);
     '(s, ctx) ← meaning_precision (sx_precision sx) x;
     Ret ("}"%char :: rest, meaning_type (sx_type sx) ((if sx_localized sx then set_localized else id) s), ctx)).
Proof.
  intros Hok Hst Hw Hp. assert (∀ st s ctx, state_index st < state_index st_precision → precision_ref s = RefNone →
    specs_from arg (from_option (λ c, bs "." ++ count_text c) [] (sx_precision sx) ++ tail_text sx ++ "}"%char :: rest) st s ctx =
    ('(s, ctx) ← meaning_precision (sx_precision sx) (s, ctx);
     Ret ("}"%char :: rest, meaning_type (sx_type sx) ((if sx_localized sx then set_localized else id) s), ctx))) as Hprec.
  { clear st specs ctx Hst Hw Hp. intros st s ctx Hst Hp.
    pose proof Hok as (_ & _ & _ & _ & Hc & Hpt & _). destruct (sx_precision sx) as [c|]; cbn [from_option app] in *.
    - pose proof (from_precision arg c _ st s ctx Hc (tail_no_digit arg sx rest Hok) Hst (Hpt ltac:(done)) Hp) as Hfrom.
      change (bs "." ++ count_text c) with ("."%char :: count_text c). rewrite Hfrom.
      destruct (meaning_precision _ _) as [[s' ctx']| | | |]; try done. by apply from_tail.
    - cbn [meaning_precision mbind outcome_bind]. apply from_tail; [done|cbn in *; lia]. }
  pose proof Hok as (_ & _ & _ & Hc & _). destruct (sx_width sx) as [c|]; cbn [from_option app] in *.
  - rewrite (from_width arg c _ st specs ctx Hc (precision_no_digit arg sx rest Hok) Hst Hw).
    destruct c as [n|a]; cbn [meaning_width mbind outcome_bind]; [by apply Hprec|].
    destruct (on_dynamic_id a ctx) as [[a' ctx']| | | |]; try done. by apply Hprec.
  - cbn [meaning_width mbind outcome_bind]. apply Hprec; [cbn in *; lia|done].
Qed.

Lemma from_body arg sx rest st specs ctx : syntax_ok arg sx → state_index st < state_index st_sign →
  width_ref specs = RefNone → precision_ref specs = RefNone →
  specs_from arg (body_text sx ++ "}"%char :: rest) st specs ctx =
    (x ← meaning_width (sx_width sx) (meaning_zero (sx_zero sx)
           ((if sx_alt sx then set_alt else id) (meaning_sign (sx_sign sx) specs)), ctx);
     '(s, ctx) ← meaning_precision (sx_precision sx) x;
     Ret ("}"%char :: rest, meaning_type (sx_type sx) ((if sx_localized sx then set_localized else id) s), ctx)).
Proof.
  intros Hok Hst Hw Hp. unfold body_text. rewrite <-!app_assoc.
  edestruct (from_signs arg sx) as (st1 & H1 & ->); [done..|].
  edestruct (from_flags arg sx) as (st2 & H2 & ->); [done..|].
  apply from_counts; [done..| |].
  all: unfold meaning_zero, meaning_sign; destruct (sx_zero sx && _), (sx_alt sx), (sx_sign sx); done.
Qed.

(** What is written is read back. *)
Lemma parse_specs_text arg sx rest ctx : syntax_ok arg sx →
  parse_format_specs (spec_text sx ++ "}"%char :: rest) ctx arg =
    ('(s, ctx) ← meaning sx ctx; Ret ("}"%char :: rest, s, ctx)).
Proof.
  intros Hok. assert (∀ st specs, state_index st < state_index st_sign →
    specs = meaning_align (sx_align sx) default_specs →
    specs_from arg (body_text sx ++ "}"%char :: rest) st specs ctx = ('(s, ctx) ← meaning sx ctx; Ret ("}"%char :: rest, s, ctx)))
    as Hbody.
  { intros st specs Hst ->. rewrite from_body; [|done|done|by destruct (sx_align sx) as [[? ?]|]..].
    unfold meaning. destruct (meaning_width _ _) as [x| | | |]; try done. cbn [mbind outcome_bind].
    by destruct (meaning_precision _ x) as [[? ?]| | | |]. }
  pose proof (body_no_align arg sx Hok) as Hna. 
  change (spec_text sx) with (align_text (sx_align sx) ++ body_text sx). rewrite <-app_assoc.
  assert (no_align (body_text sx ++ ["}"%char])) as Hna' by (apply Forall_app; split; [done|by repeat constructor]).
  pose proof Hok as (Ha & _). destruct (sx_align sx) as [[[f|] c]|]; cbn [align_text default app].
  - destruct (Ha _ _ eq_refl). rewrite <-app_assoc. cbn [app]. rewrite start_fill by done. by apply Hbody.
  - destruct (Ha _ _ eq_refl). rewrite start_align; [by apply Hbody|done|].
    destruct (body_text sx) as [|d r]; cbn [app]; [done|]. by apply Forall_cons in Hna as [? _].
  - destruct (body_text sx) as [|d [|d' r]]; [|rewrite start_no_align; [by apply Hbody|done]|].
    + cbn [app] in *. by rewrite start_close, <-(Hbody st_start default_specs), from_close.
    + rewrite start_no_align; [by apply Hbody|]. apply Forall_cons in Hna as [_ Hna]. by apply Forall_cons in Hna as [? _].
Qed.

(** ** Numbers are in range *)

(** What the loop has read: exact up to nine digits, and the last step of ten. *)
Definition int_inv (v p k l : Z) : Prop :=
  0 <= k ∧ (k <= 9 → 0 <= v < 10 ^ k) ∧ (k = 10 → v = u32 (u32 (p * 10) + l) ∧ 0 <= p < 10 ^ 9 ∧ 0 <= l <= 9).

Lemma int_loop_inv s : ∀ v p k l, int_inv v p k l →
  let '(v', p', k', l', _) := int_loop s v p k l in int_inv v' p' k' l'.
Proof.
  induction s as [|c s IH]; intros v p k l Hi; cbn [int_loop]; [done|]. destruct (is_digit_char c) eqn:Hc; [|done].
  apply IH. unfold is_digit_char in Hc. destruct Hi as (H0 & H9 & H10). split; [lia|]. split; intros Hk.
  - specialize (H9 ltac:(lia)). assert (10 ^ (k + 1) <= 10 ^ 9) by (apply Z.pow_le_mono_r; lia).
    rewrite Z.pow_add_r in * by lia. change (10 ^ 1) with 10 in *. change (10 ^ 9) with 1000000000 in *.
    rewrite (u32_small (v * 10)), u32_small by lia. lia.
  - assert (k = 9) as -> by lia. specialize (H9 ltac:(lia)). split; [done|]. lia.
Qed.

Lemma parse_int_range s e v r : parse_nonnegative_int s e = Ret (v, r) → 0 <= v <= INT_MAX ∨ v = e.
Proof.
  unfold parse_nonnegative_int. intros H. outcome_inv.
  pose proof (int_loop_inv s 0 0 0 0 ltac:(by split_and!)) as Hi. destruct (int_loop s 0 0 0 0) as [[[[v' p'] k'] l'] r'].
  destruct Hi as (H0 & H9 & H10). unfold digits10_int in *.
  destruct (k' <=? 9) eqn:E; bool_hyps.
  - injection H as <- <-. specialize (H9 E). assert (10 ^ k' <= 10 ^ 9) by (apply Z.pow_le_mono_r; lia).
    change (10 ^ 9) with 1000000000 in *. unfold INT_MAX. lia.
  - destruct (_ && _) eqn:E2; bool_hyps; injection H as <- <-; [|by right].
    destruct (H10 ltac:(lia)) as (-> & Hp & Hl). unfold INT_MAX in *.
    rewrite (u32_small (p' * 10)), u32_small by lia. lia.
Qed.

Lemma parse_dynamic_range s v ref ctx b w r ctx' : parse_dynamic_spec s v ref ctx = Ret (b, w, r, ctx') →
  0 <= w <= INT_MAX ∨ w = v.
Proof.
  destruct s as [|c s]; [done|]. cbn [parse_dynamic_spec]. destruct (is_digit_char c).
  - intros H. outcome_inv. destruct x as [val b']. destruct (val =? -1) eqn:E; [done|]. bool_hyps.
    injection H as <- <- <- <-. apply parse_int_range in Hx. destruct Hx; [by left|lia].
  - case_bool_decide; [|intros H'; injection H' as <- <- <- <-; by right].
    intros Hd. outcome_inv. destruct x as [[b' r'] c']. destruct b' as [|d b']; [done|].
    case_bool_decide; [|done]. injection Hd as <- <- <- <-. by right.
Qed.

Definition step_specs (r : parsed + (bytes * state * format_specs * context)) : format_specs :=
  match r with inl p => p.1.2 | inr x => x.1.2 end.

Lemma spec_step_ok arg c begin st specs ctx r : spec_step arg c begin st specs ctx = Ret r → specs_ok specs →
  specs_ok (step_specs r).
Proof.
  intros Hs Hok. unfold spec_step in Hs.
  repeat match type of Hs with
  | (if ?b then _ else _) = Ret _ => destruct b
  end; outcome_inv; cbn [step_specs fst snd]; try done; try (destruct (bool_decide (align specs = align_none)); done).
  - destruct (negb _); [done|]. injection Hs as <-. cbn. by destruct (bool_decide _).
  - destruct x0 as [[[b w] rf] ctx']. injection Hs as <-. cbn. destruct Hok as [Hw Hp]. split; [|done].
    cbn. apply parse_dynamic_range in Hx0. destruct Hx0; lia.
  - destruct x0 as [[[b w] rf] ctx']. injection Hs as <-. cbn. destruct Hok as [Hw Hp]. split; [done|].
    cbn. unfold parse_precision in Hx0. destruct (tail begin); [done|]. destruct (bool_decide _); [done|].
    apply parse_dynamic_range in Hx0. destruct Hx0; lia.
  - destruct (presentation c) as [[t types]|].
    { destruct (negb _); [done|]. by injection Hs as <-. }
    destruct (bool_decide _); [by injection Hs as <-|]. destruct begin as [|b s]; [done|].
    destruct (bool_decide _); [by injection Hs as <-|]. cbv zeta in Hs. destruct (drop _ _); [done|].
    destruct (bool_decide _); [done|]. outcome_inv. done.
Qed.

Lemma spec_loop_ok arg fuel : ∀ c begin st specs ctx p, spec_loop fuel arg c begin st specs ctx = Ret p → specs_ok specs →
  specs_ok p.1.2.
Proof.
  induction fuel as [|fuel IH]; intros c begin st specs ctx p Hl Hok; [done|]. cbn [spec_loop] in Hl. outcome_inv.
  apply spec_step_ok in Hx; [|done]. destruct x as [q|[[[b st'] sp] ctx']]; cbn in Hx.
  - by injection Hl as <-.
  - destruct b as [|d b]; [by injection Hl as <-|]. by apply IH in Hl.
Qed.

Lemma parse_specs_ok begin ctx arg p : parse_format_specs begin ctx arg = Ret p → specs_ok p.1.2.
Proof.
  assert (specs_ok default_specs) as Hd by (by vm_compute).
  destruct begin as [|c [|d s]]; cbn [parse_format_specs]; [intros H; by injection H as <-|..]; intros H; by eapply spec_loop_ok.
Qed.

(** * Properties *)

(** The parser of replacement fields reads specifiers back. Whatever specifiers a field is written
    with -- an alignment with a fill of one code point, a sign, '#', '0', a width and a precision that are
    numbers or nested fields, 'L' and a type, each allowed for the type of the argument -- the loop stops
    at the closing brace and yields their meaning; the ids of nested fields are taken in their order, and an
    automatic id behind a numbered one (or the other way around) is the error the meaning has. *)
Theorem specs_roundtrip arg sx rest ctx : syntax_ok arg sx →
  parse_format_specs (spec_text sx ++ "}"%char :: rest) ctx arg =
    ('(s, ctx) ← meaning sx ctx; Ret ("}"%char :: rest, s, ctx)).
Proof. apply parse_specs_text. Qed.

(** A fill, a sign, zeros, a width in an automatic argument and the type of a hexadecimal number. *)
Lemma specs_roundtrip_witness :
  let sx := Syntax (Some (Some (bs "*"), "^"%char)) (Some "+"%char) true false (Some (CArg RefNone)) None false (Some "x"%char) in
  spec_text sx = bs "*^+#{}x" ∧ syntax_ok int_type sx ∧
  parse_format_specs (bs "*^+#{}x} tail") 1 int_type =
    ('(s, ctx) ← meaning sx 1; Ret (bs "} tail", s, ctx)).
Proof.
  cbv zeta. set (sx := Syntax _ _ _ _ _ _ _ _).
  assert (syntax_ok int_type sx) as Hok.
  { split_and!; cbn; try done.
    - intros f c [= <- <-]. split; [done|]. cbn. split_and!; [done..|constructor].
    - intros c [= <-]. split; [by_decide|by vm_compute].
    - intros c [= <-]. exists hex_lower, integral_set. by vm_compute. }
  split_and!; [vm_compute; reflexivity|done|].
  exact (specs_roundtrip int_type sx (bs " tail") 1 Hok).
Defined.
