(* ===== verification/FmtUtf8.v ===== *)
(** * Code points of the formatting library (src/cppboot/base/internal/fmt/format.h)

    The branchless UTF-8 decoder, the visit of the code points of a string in blocks of
    four bytes with a padded copy of what is left, the width of a string on a terminal,
    and the index of a code point. *)

From S2P Require Import Prelude StdString FmtNum.

(** ** The decoder *)

Definition utf8_masks : list Z := [0x00; 0x7f; 0x1f; 0x0f; 0x07].
Definition utf8_mins : list Z := [4194304; 0; 128; 2048; 65536].
Definition utf8_shiftc : list Z := [0; 18; 12; 6; 0].
Definition utf8_shifte : list Z := [0; 6; 4; 2; 0].

(** The length from the upper five bits of the first byte; 0 when it cannot be one. *)
Definition utf8_lengths : list Z :=
  [1; 1; 1; 1; 1; 1; 1; 1; 1; 1; 1; 1; 1; 1; 1; 1; 0; 0; 0; 0; 0; 0; 0; 0; 2; 2; 2; 2; 3; 3; 4; 0].

Abbreviation at_index l i := (nth (Z.to_nat i) l 0).
Definition bit (b : bool) : Z := if b then 1 else 0.

Definition utf8_value (l : Z) (b0 b1 b2 b3 : Z) : Z :=
  let c := Z.shiftl (Z.land b0 (at_index utf8_masks l)) 18 in
  let c := Z.lor c (Z.shiftl (Z.land b1 0x3f) 12) in
  let c := Z.lor c (Z.shiftl (Z.land b2 0x3f) 6) in
  let c := Z.lor c (Z.land b3 0x3f) in
  Z.shiftr c (at_index utf8_shiftc l).

Definition utf8_error (l c b1 b2 b3 : Z) : Z :=
  let e := Z.shiftl (bit (c <? at_index utf8_mins l)) 6 in
  let e := Z.lor e (Z.shiftl (bit (Z.shiftr c 11 =? 0x1b)) 7) in
  let e := Z.lor e (Z.shiftl (bit (0x10ffff <? c)) 8) in
  let e := Z.lor e (Z.shiftr (Z.land b1 0xc0) 2) in
  let e := Z.lor e (Z.shiftr (Z.land b2 0xc0) 4) in
  let e := Z.lor e (Z.shiftr b3 6) in
  Z.shiftr (Z.lxor e 0x2a) (at_index utf8_shifte l).

(** The code point, the error, and the bytes to go on by; four bytes are read always. *)
Definition utf8_decode (s : bytes) : outcome (Z * Z * Z) :=
  match s with
  | c0 :: c1 :: c2 :: c3 :: _ =>
      let l := at_index utf8_lengths (Z.shiftr (uchar c0) 3) in
      let c := utf8_value l (uchar c0) (uchar c1) (uchar c2) (uchar c3) in
      Ret (c, utf8_error l c (uchar c1) (uchar c2) (uchar c3), l + bit (l =? 0))
  | _ => Undef
  end.

Definition invalid_code_point : Z := 2 ^ 32 - 1.

(** ** The visit *)

Section visit.
Context {S : Type}.
(** The callback: it gets a code point and its bytes, and says whether to go on. *)
Variable f : Z → bytes → S → S * bool.

(** [decode(buf_ptr, ptr)]: how far to go on, or [None] to stop. *)
Definition decode (buf ptr : bytes) (st : S) : outcome (S * option nat) :=
  '(cp, error, next) ← utf8_decode buf;
  let bad := negb (error =? 0) in
  let n := if bad then 1%nat else Z.to_nat next in
  if (length ptr <? n)%nat then Undef
  else
    let '(st, result) := f (if bad then invalid_code_point else cp) (take n ptr) st in
    Ret (st, if result then Some n else None).

Definition block_size : nat := 4.

(** While a whole block is left. *)
Fixpoint block_loop (fuel : nat) (p : bytes) (st : S) : outcome (S * option bytes) :=
  match fuel with
  | O => OutOfFuel
  | Datatypes.S fuel =>
      if (length p <? block_size)%nat then Ret (st, Some p)
      else
        '(st, n) ← decode p p st;
        match n with
        | None => Ret (st, None)
        | Some n => block_loop fuel (drop n p) st
        end
  end.

(** The rest, in the padded buffer; [left] bytes of it are still to be visited. *)
Fixpoint tail_loop (fuel : nat) (buf_ptr p : bytes) (left : nat) (st : S) : outcome S :=
  match fuel with
  | O => OutOfFuel
  | Datatypes.S fuel =>
      '(st, n) ← decode buf_ptr p st;
      match n with
      | None => Ret st
      | Some n =>
          if (n <? left)%nat then tail_loop fuel (drop n buf_ptr) (drop n p) (left - n) st
          else Ret st
      end
  end.

Definition for_each_codepoint (s : bytes) (st : S) : outcome S :=
  '(st, p) ← (if (block_size <=? length s)%nat then block_loop (Datatypes.S (length s)) s st
              else Ret (st, Some s));
  match p with
  | None => Ret st
  | Some p =>
      if (length p =? 0)%nat then Ret st
      else if (2 * block_size - 1 <? length p)%nat then Undef
      else tail_loop (Datatypes.S (length p)) (p ++ replicate (2 * block_size - 1 - length p) NUL) p (length p) st
  end.
End visit.

(** ** Width *)

(** The columns a code point takes. *)
Definition code_point_width (cp : Z) : Z :=
  let between a b := (a <=? cp) && (cp <=? b) in
  1 + bit ((0x1100 <=? cp) &&
    ((cp <=? 0x115f) || (cp =? 0x2329) || (cp =? 0x232a) ||
     (between 0x2e80 0xa4cf && negb (cp =? 0x303f)) ||
     between 0xac00 0xd7a3 || between 0xf900 0xfaff || between 0xfe10 0xfe19 || between 0xfe30 0xfe6f ||
     between 0xff00 0xff60 || between 0xffe0 0xffe6 || between 0x20000 0x2fffd || between 0x30000 0x3fffd ||
     between 0x1f300 0x1f64f || between 0x1f900 0x1f9ff)).

Definition compute_width (s : bytes) : outcome Z :=
  for_each_codepoint (λ cp _ count, (count + code_point_width cp, true)) s 0.

(** The index of the [n]-th code point: the continuation bytes are not counted. *)
Fixpoint index_loop (s : bytes) (i num n : Z) : option Z :=
  match s with
  | [] => None
  | c :: s =>
      if negb (Z.land (uchar c) 0xc0 =? 0x80)
      then if n <? num + 1 then Some i else index_loop s (i + 1) (num + 1) n
      else index_loop s (i + 1) num n
  end.
Definition code_point_index (s : bytes) (n : Z) : Z := default (len s) (index_loop s 0 0 n).

(** ** What UTF-8 is

    The scalar values, their bytes, and a visit of one after the other. *)
Definition scalar (cp : Z) : Prop := 0 <= cp <= 0x10ffff ∧ ¬ (0xd800 <= cp <= 0xdfff).
#[export] Instance scalar_dec cp : Decision (scalar cp).
Proof. unfold scalar. apply _. Defined.

Definition utf8_encode (cp : Z) : bytes :=
  if cp <? 0x80 then [char_of cp]
  else if cp <? 0x800 then [char_of (0xc0 + cp / 64); char_of (0x80 + cp mod 64)]
  else if cp <? 0x10000 then
    [char_of (0xe0 + cp / 4096); char_of (0x80 + cp / 64 mod 64); char_of (0x80 + cp mod 64)]
  else
    [char_of (0xf0 + cp / 262144); char_of (0x80 + cp / 4096 mod 64); char_of (0x80 + cp / 64 mod 64);
     char_of (0x80 + cp mod 64)].

Definition utf8_text (cps : list Z) : bytes := concat (utf8_encode <$> cps).

Fixpoint visit {S} (f : Z → bytes → S → S * bool) (l : list (Z * bytes)) (st : S) : S :=
  match l with
  | [] => st
  | (cp, sv) :: l => let '(st, result) := f cp sv st in if result then visit f l st else st
  end.

(** * Lemmas *)

(** ** Bits *)

Lemma lor_add a b n : 0 <= n → 0 <= b < 2 ^ n → Z.lor (Z.shiftl a n) b = a * 2 ^ n + b.
Proof.
  intros Hn Hb. assert (Z.land (Z.shiftl a n) b = 0) as Hl.
  { apply Z.bits_inj'. intros i Hi. rewrite Z.land_spec, Z.bits_0.
    destruct (Z.lt_ge_cases i n); [by rewrite Z.shiftl_spec_low by lia|].
    replace b with (b mod 2 ^ n) by (apply Z.mod_small; lia).
    by rewrite Z.mod_pow2_bits_high, andb_false_r by lia. }
  pose proof (Z.add_lor_land (Z.shiftl a n) b) as H. rewrite Z.shiftl_mul_pow2 in * by lia. lia.
Qed.

Lemma land_6 x : Z.land x 0x3f = x mod 64.
Proof. change 0x3f with (Z.ones 6). by rewrite Z.land_ones by lia. Qed.

Lemma utf8_value_sum l b0 b1 b2 b3 : utf8_value l b0 b1 b2 b3 =
  Z.shiftr (Z.land b0 (at_index utf8_masks l) * 2 ^ 18 + b1 mod 64 * 2 ^ 12 + b2 mod 64 * 2 ^ 6 + b3 mod 64)
    (at_index utf8_shiftc l).
Proof.
  unfold utf8_value. rewrite !land_6. f_equal. rewrite <-!Z.lor_assoc.
  pose proof (Z.mod_pos_bound b1 64). pose proof (Z.mod_pos_bound b2 64). pose proof (Z.mod_pos_bound b3 64).
  rewrite (lor_add _ (b3 mod 64)) by lia. rewrite (lor_add _ (_ + _)) by lia. rewrite lor_add by lia. lia.
Qed.

(** What is left of the error: the top bits of the bytes behind the first one. *)
Definition tail_error (l t1 t2 t3 : Z) : Z :=
  Z.shiftr (Z.lxor (Z.lor (Z.lor (16 * t1) (4 * t2)) t3) 0x2a) (at_index utf8_shifte l).

Lemma top_bits c : Z.shiftr (Z.land (uchar c) 0xc0) 2 = 16 * (uchar c / 64) ∧
  Z.shiftr (Z.land (uchar c) 0xc0) 4 = 4 * (uchar c / 64) ∧ Z.shiftr (uchar c) 6 = uchar c / 64 ∧
  0 <= uchar c / 64 < 4.
Proof.
  assert (forallb (λ c, (Z.shiftr (Z.land (uchar c) 0xc0) 2 =? 16 * (uchar c / 64)) &&
    (Z.shiftr (Z.land (uchar c) 0xc0) 4 =? 4 * (uchar c / 64)) && (Z.shiftr (uchar c) 6 =? uchar c / 64)) all_chars = true)
    as H by (vm_compute; reflexivity).
  pose proof (forall_chars _ H c) as Hc. cbn beta in Hc. bool_hyps. pose proof (uchar_range c).
  split_and!; [done..|apply Z.div_pos; lia|apply Z.div_lt_upper_bound; lia].
Qed.

Lemma utf8_error_ok l c c1 c2 c3 : at_index utf8_mins l <= c → Z.shiftr c 11 ≠ 0x1b → c <= 0x10ffff →
  utf8_error l c (uchar c1) (uchar c2) (uchar c3) = tail_error l (uchar c1 / 64) (uchar c2 / 64) (uchar c3 / 64).
Proof.
  intros H1 H2 H3. unfold utf8_error, tail_error.
  rewrite (proj2 (Z.ltb_ge c _)), (proj2 (Z.eqb_neq _ _)), (proj2 (Z.ltb_ge _ c)) by done.
  cbn [bit]. rewrite !Z.shiftl_0_l. cbn [Z.lor].
  by destruct (top_bits c1) as (-> & _), (top_bits c2) as (_ & -> & _), (top_bits c3) as (_ & _ & -> & _).
Qed.

(** The bytes that belong to the code point begin with 10; the others do not matter. *)
Definition tails_ok (l : Z) : bool :=
  forallb (λ t1, forallb (λ t2, forallb (λ t3, tail_error l t1 t2 t3 =? 0)
    (if l =? 4 then [2] else [0; 1; 2; 3])) (if 3 <=? l then [2] else [0; 1; 2; 3]))
    (if 2 <=? l then [2] else [0; 1; 2; 3]).

Lemma tail_error_ok l t1 t2 t3 : l ∈ [1; 2; 3; 4] → 0 <= t1 < 4 → 0 <= t2 < 4 → 0 <= t3 < 4 →
  (2 <= l → t1 = 2) → (3 <= l → t2 = 2) → (4 <= l → t3 = 2) → tail_error l t1 t2 t3 = 0.
Proof.
  intros Hl H1 H2 H3 L1 L2 L3. assert (tails_ok l = true) as Hok.
  { repeat (apply elem_of_cons in Hl as [->|Hl]; [vm_compute; reflexivity|]). by apply elem_of_nil in Hl. }
  unfold tails_ok in Hok. rewrite forallb_forall in Hok.
  specialize (Hok t1 ltac:(destruct (2 <=? l) eqn:E; bool_hyps; cbn; lia)). rewrite forallb_forall in Hok.
  specialize (Hok t2 ltac:(destruct (3 <=? l) eqn:E; bool_hyps; cbn; lia)). rewrite forallb_forall in Hok.
  specialize (Hok t3 ltac:(destruct (l =? 4) eqn:E; bool_hyps; cbn; lia)). by apply Z.eqb_eq in Hok.
Qed.

(** First bytes. *)
Definition lead_length (b : Z) : Z :=
  if b <? 128 then 1 else if b <? 192 then 0 else if b <? 224 then 2 else if b <? 240 then 3
  else if b <? 248 then 4 else 0.
Definition lead_ok (b : Z) : bool :=
  let l := at_index utf8_lengths (Z.shiftr b 3) in
  (l =? lead_length b) &&
  (Z.land b (at_index utf8_masks l) =?
     if b <? 128 then b else if b <? 192 then 0 else if b <? 224 then b - 192 else if b <? 240 then b - 224
     else if b <? 248 then b - 240 else 0).

Lemma leads b : 0 <= b < 256 → lead_ok b = true.
Proof. apply (rows_ok lead_ok 256). vm_compute. reflexivity. Qed.

Lemma lead_spec l x lo : 0 <= x → (l, lo) ∈ [(1, 0); (2, 192); (3, 224); (4, 240)] →
  x < (if l =? 1 then 128 else if l =? 2 then 32 else if l =? 3 then 16 else 8) →
  uchar (char_of (lo + x)) = lo + x ∧ at_index utf8_lengths (Z.shiftr (lo + x) 3) = l ∧
  Z.land (lo + x) (at_index utf8_masks l) = x.
Proof.
  intros H0 Hl Hx. assert (0 <= lo + x < 256 ∧ lead_length (lo + x) = l ∧
    (if lo + x <? 128 then lo + x else if lo + x <? 192 then 0 else if lo + x <? 224 then lo + x - 192
     else if lo + x <? 240 then lo + x - 224 else if lo + x <? 248 then lo + x - 240 else 0) = x) as (Hr & Hlen & Hm).
  { unfold lead_length.
    repeat (apply elem_of_cons in Hl as [[= -> ->]|Hl]; [cbn in Hx; repeat case_test; bool_hyps; lia|]).
    by apply elem_of_nil in Hl. }
  pose proof (leads _ Hr) as Hok. unfold lead_ok in Hok. bool_hyps.
  rewrite uchar_char_of, Z.mod_small by lia. split; [done|]. split; [congruence|].
  by rewrite <-Hm at 2; congruence.
Qed.

Lemma tail_spec d : 0 <= d < 64 → uchar (char_of (0x80 + d)) = 0x80 + d ∧
  uchar (char_of (0x80 + d)) mod 64 = d ∧ uchar (char_of (0x80 + d)) / 64 = 2.
Proof.
  intros Hd. rewrite uchar_char_of, Z.mod_small by lia. split; [done|]. split; Z.div_mod_to_equations; lia.
Qed.

(** ** One code point *)

Lemma utf8_encode_length cp : (1 <= length (utf8_encode cp) <= 4)%nat.
Proof. unfold utf8_encode. repeat case_test; cbn; lia. Qed.

(** A decoder's answer, from the facts about the bytes. *)
Lemma decode_answer l x lo s m c1 c2 c3 rest cp :
  at_index utf8_shiftc l = s → at_index utf8_mins l = m → 0 <= x → (l, lo) ∈ [(1, 0); (2, 192); (3, 224); (4, 240)] →
  x < (if l =? 1 then 128 else if l =? 2 then 32 else if l =? 3 then 16 else 8) →
  Z.shiftr (x * 2 ^ 18 + uchar c1 mod 64 * 2 ^ 12 + uchar c2 mod 64 * 2 ^ 6 + uchar c3 mod 64) s = cp →
  m <= cp → scalar cp →
  (2 <= l → uchar c1 / 64 = 2) → (3 <= l → uchar c2 / 64 = 2) → (4 <= l → uchar c3 / 64 = 2) →
  utf8_decode (char_of (lo + x) :: c1 :: c2 :: c3 :: rest) = Ret (cp, 0, l).
Proof.
  intros <- <- H0 Hl Hx Hv Hm [Hr Hs] L1 L2 L3. cbn [utf8_decode].
  destruct (lead_spec l x lo H0 Hl Hx) as (-> & -> & Ha). rewrite utf8_value_sum, Ha, Hv.
  assert (l ∈ [1; 2; 3; 4]) as Hl4 by (clear -Hl; set_solver).
  rewrite utf8_error_ok; [|done| |lia].
  - destruct (top_bits c1) as (_ & _ & _ & ?), (top_bits c2) as (_ & _ & _ & ?), (top_bits c3) as (_ & _ & _ & ?).
    rewrite tail_error_ok by done. do 2 f_equal.
    rewrite (proj2 (Z.eqb_neq l 0)) by (intros ->; clear -Hl4; set_solver). cbn. lia.
  - rewrite Z.shiftr_div_pow2 by lia. intros E. Z.div_mod_to_equations. lia.
Qed.

Lemma decode_encode cp rest : scalar cp → (4 <= length (utf8_encode cp ++ rest))%nat →
  utf8_decode (utf8_encode cp ++ rest) = Ret (cp, 0, len (utf8_encode cp)).
Proof.
  intros Hs. pose proof Hs as [Hr _]. unfold utf8_encode.
  pose proof (Z.mod_pos_bound cp 64 ltac:(lia)) as M0.
  pose proof (Z.mod_pos_bound (cp / 64) 64 ltac:(lia)) as M1.
  pose proof (Z.mod_pos_bound (cp / 4096) 64 ltac:(lia)) as M2.
  destruct (tail_spec _ M0) as (_ & D0 & T0), (tail_spec _ M1) as (_ & D1 & T1), (tail_spec _ M2) as (_ & D2 & T2).
  destruct (cp <? 0x80) eqn:E1; [|destruct (cp <? 0x800) eqn:E2; [|destruct (cp <? 0x10000) eqn:E3]]; bool_hyps.
  - destruct rest as [|c1 [|c2 [|c3 rest]]]; cbn [app length]; [lia..|]. intros _.
    change cp with (0 + cp) at 1. apply (decode_answer 1 cp 0 18 0); try reflexivity; cbn [Z.eqb Pos.eqb]; try lia; [clear; set_solver| |done].
    pose proof (Z.mod_pos_bound (uchar c1) 64). pose proof (Z.mod_pos_bound (uchar c2) 64). pose proof (Z.mod_pos_bound (uchar c3) 64).
    rewrite Z.shiftr_div_pow2 by lia. symmetry. apply (Z.div_unique_pos _ _ _ (uchar c1 mod 64 * 2 ^ 12 + uchar c2 mod 64 * 2 ^ 6 + uchar c3 mod 64)); lia.
  - destruct rest as [|c2 [|c3 rest]]; cbn [app length]; [lia..|]. intros _.
    apply (decode_answer 2 (cp / 64) 192 12 128); try reflexivity; cbn [Z.eqb Pos.eqb]; try lia; [apply Z.div_pos; lia|clear; set_solver|apply Z.div_lt_upper_bound; lia| |done].
    rewrite D0. pose proof (Z.mod_pos_bound (uchar c2) 64). pose proof (Z.mod_pos_bound (uchar c3) 64).
    rewrite Z.shiftr_div_pow2 by lia. symmetry. apply (Z.div_unique_pos _ _ _ (uchar c2 mod 64 * 2 ^ 6 + uchar c3 mod 64)); [lia|].
    pose proof (Z.div_mod cp 64). lia.
  - destruct rest as [|c3 rest]; cbn [app length]; [lia..|]. intros _.
    apply (decode_answer 3 (cp / 4096) 224 6 2048); try reflexivity; cbn [Z.eqb Pos.eqb]; try lia; [apply Z.div_pos; lia|clear; set_solver|apply Z.div_lt_upper_bound; lia| |done].
    rewrite D0, D1. pose proof (Z.mod_pos_bound (uchar c3) 64).
    rewrite Z.shiftr_div_pow2 by lia. symmetry. apply (Z.div_unique_pos _ _ _ (uchar c3 mod 64)); [lia|].
    Z.div_mod_to_equations. lia.
  - cbn [app length]. intros _.
    apply (decode_answer 4 (cp / 262144) 240 0 65536); try reflexivity; cbn [Z.eqb Pos.eqb]; try lia; [apply Z.div_pos; lia|clear; set_solver|apply Z.div_lt_upper_bound; lia| |done].
    rewrite D0, D1, D2. rewrite Z.shiftr_0_r. Z.div_mod_to_equations. lia.
Qed.

(** ** Any bytes *)

Lemma lead_range c : 0 <= at_index utf8_lengths (Z.shiftr (uchar c) 3) <= 4.
Proof.
  pose proof (leads _ (uchar_range c)) as Hok. unfold lead_ok in Hok. bool_hyps.
  match goal with H : _ = lead_length _ |- _ => rewrite H end. unfold lead_length. repeat case_test; lia.
Qed.

(** The error has the tail's among its bits. *)
Lemma tail_error_bits l c c1 c2 c3 : 0 <= l <= 4 → utf8_error l c (uchar c1) (uchar c2) (uchar c3) = 0 →
  tail_error l (uchar c1 / 64) (uchar c2 / 64) (uchar c3 / 64) = 0.
Proof.
  intros Hl He. assert (0 <= at_index utf8_shifte l) as Hk.
  { assert (l = 0 ∨ l = 1 ∨ l = 2 ∨ l = 3 ∨ l = 4) as [->|[->|[->|[->| ->]]]] by lia; done. }
  unfold utf8_error in He. unfold tail_error.
  destruct (top_bits c1) as (E1 & _ & _ & R1), (top_bits c2) as (_ & E2 & _ & R2), (top_bits c3) as (_ & _ & E3 & R3).
  rewrite E1, E2, E3 in He. set (k := at_index utf8_shifte l) in *. set (t1 := uchar c1 / 64) in *.
  set (t2 := uchar c2 / 64) in *. set (t3 := uchar c3 / 64) in *. clearbody t1 t2 t3 k.
  assert (0 <= Z.lor (Z.lor (16 * t1) (4 * t2)) t3 < 2 ^ 6) as Ht.
  { assert (t1 = 0 ∨ t1 = 1 ∨ t1 = 2 ∨ t1 = 3) as D1 by lia. assert (t2 = 0 ∨ t2 = 1 ∨ t2 = 2 ∨ t2 = 3) as D2 by lia.
    assert (t3 = 0 ∨ t3 = 1 ∨ t3 = 2 ∨ t3 = 3) as D3 by lia.
    destruct D1 as [->|[->|[->| ->]]], D2 as [->|[->|[->| ->]]], D3 as [->|[->|[->| ->]]]; vm_compute; by split. }
  apply Z.bits_inj'. intros i Hi. apply (f_equal (λ z, Z.testbit z i)) in He. rewrite Z.bits_0 in *.
  rewrite !Z.shiftr_spec, Z.lxor_spec in * by done.
  destruct (Z.lt_ge_cases (i + k) 6).
  - rewrite !Z.lor_spec, !Z.shiftl_spec in He by lia.
    rewrite !(Z.testbit_neg_r _ (_ - _)) in He by lia. cbn [orb] in He.
    by rewrite !Z.lor_spec.
  - rewrite <-(Z.mod_small _ _ Ht). rewrite Z.mod_pow2_bits_high by lia.
    change 0x2a with (0x2a mod 2 ^ 6). by rewrite Z.mod_pow2_bits_high by lia.
Qed.

Definition tails_only (l : Z) : bool :=
  forallb (λ t1, forallb (λ t2, forallb (λ t3, negb (tail_error l t1 t2 t3 =? 0) ||
    (((l <? 2) || (t1 =? 2)) && ((l <? 3) || (t2 =? 2)) && ((l <? 4) || (t3 =? 2)))) [0; 1; 2; 3]) [0; 1; 2; 3]) [0; 1; 2; 3].

Lemma tail_error_only l t1 t2 t3 : 1 <= l <= 4 → 0 <= t1 < 4 → 0 <= t2 < 4 → 0 <= t3 < 4 → tail_error l t1 t2 t3 = 0 →
  (2 <= l → t1 = 2) ∧ (3 <= l → t2 = 2) ∧ (4 <= l → t3 = 2).
Proof.
  intros Hl H1 H2 H3 He. assert (tails_only l = true) as Hok.
  { assert (l = 1 ∨ l = 2 ∨ l = 3 ∨ l = 4) as [->|[->|[->| ->]]] by lia; vm_compute; reflexivity. }
  unfold tails_only in Hok. rewrite forallb_forall in Hok. specialize (Hok t1 ltac:(cbn; lia)).
  rewrite forallb_forall in Hok. specialize (Hok t2 ltac:(cbn; lia)).
  rewrite forallb_forall in Hok. specialize (Hok t3 ltac:(cbn; lia)). rewrite He in Hok. cbn [Z.eqb negb orb] in Hok. lia.
Qed.

(** Four bytes are always decoded; without an error, all bytes of the code point are
    there. *)
Lemma decode_any s : s ≠ [] → ∃ cp e n, (∀ r, utf8_decode ((s ++ [NUL; NUL; NUL]) ++ r) = Ret (cp, e, n)) ∧
  1 <= n <= 4 ∧ (e = 0 → n <= len s).
Proof.
  intros Hs. destruct s as [|c0 s]; [done|].
  assert (∃ c1 c2 c3 t, s ++ [NUL; NUL; NUL] = c1 :: c2 :: c3 :: t ∧
    (length s = 0%nat → c1 = NUL) ∧ ((length s <= 1)%nat → c2 = NUL) ∧ ((length s <= 2)%nat → c3 = NUL))
    as (c1 & c2 & c3 & t & Ht & N1 & N2 & N3).
  { destruct s as [|c1 [|c2 [|c3 s]]]; cbn; eexists _, _, _, _; split_and!; try reflexivity; intros; try done; lia. }
  cbn [app]. rewrite Ht. eexists _, _, _. split; [intros r; reflexivity|].
  pose proof (lead_range c0) as Hl. set (l := at_index utf8_lengths _) in *. clearbody l. split.
  { destruct (l =? 0) eqn:E; bool_hyps; cbn; lia. }
  intros He. apply tail_error_bits in He; [|done].
  destruct (Z.eq_dec l 0) as [->|Hne]; [cbn; lia|]. rewrite (proj2 (Z.eqb_neq l 0)) by done. cbn [bit].
  apply tail_error_only in He as (H1 & H2 & H3); [|lia|apply top_bits..].
  assert (uchar NUL / 64 = 0) as H0 by reflexivity.
  assert (¬ (2 <= l ∧ length s = 0%nat)) by (intros [? ?]; rewrite N1 in H1 by done; lia).
  assert (¬ (3 <= l ∧ (length s <= 1)%nat)) by (intros [? ?]; rewrite N2 in H2 by done; lia).
  assert (¬ (4 <= l ∧ (length s <= 2)%nat)) by (intros [? ?]; rewrite N3 in H3 by done; lia).
  cbn [length]. lia.
Qed.

(** The code point a string begins with, and its bytes. *)
Definition piece (s : bytes) : Z * bytes :=
  match utf8_decode (s ++ [NUL; NUL; NUL]) with
  | Ret (cp, e, n) => if e =? 0 then (cp, take (Z.to_nat n) s) else (invalid_code_point, take 1 s)
  | _ => (invalid_code_point, take 1 s)
  end.

Fixpoint pieces (fuel : nat) (s : bytes) : list (Z * bytes) :=
  match fuel, s with
  | S fuel, _ :: _ => piece s :: pieces fuel (drop (length (piece s).2) s)
  | _, _ => []
  end.
Definition code_points (s : bytes) : list (Z * bytes) := pieces (length s) s.

Lemma piece_prefix s : s ≠ [] → ∃ r, s = (piece s).2 ++ r ∧ (1 <= length (piece s).2)%nat.
Proof.
  intros Hs. destruct (decode_any s Hs) as (cp & e & n & Hd & Hn & He).
  specialize (Hd []). rewrite app_nil_r in Hd. unfold piece. rewrite Hd.
  assert (1 <= length s)%nat by (destruct s; cbn; [done|lia]).
  destruct (e =? 0) eqn:E; bool_hyps; cbn [snd]; eexists; (split; [symmetry; apply take_drop|]); rewrite length_take; lia.
Qed.

Lemma pieces_fuel fuel : ∀ fuel' s, (length s ≤ fuel)%nat → (length s ≤ fuel')%nat → pieces fuel s = pieces fuel' s.
Proof.
  induction fuel as [|fuel IH]; intros [|fuel'] s H1 H2; try (destruct s; [done|cbn in *; lia]).
  destruct s as [|c s]; [done|]. cbn [pieces]. f_equal.
  destruct (piece_prefix (c :: s) ltac:(done)) as (r & Hr & Hl). set (k := (piece (c :: s)).2) in *.
  rewrite Hr, drop_app_length. apply (f_equal length) in Hr. rewrite length_app in Hr. apply IH; lia.
Qed.

Lemma code_points_step s : s ≠ [] → code_points s = piece s :: code_points (drop (length (piece s).2) s).
Proof.
  intros Hs. unfold code_points. destruct s as [|c s]; [done|]. cbn [length pieces]. f_equal.
  destruct (piece_prefix (c :: s) ltac:(done)) as (r & Hr & Hl). apply pieces_fuel.
  - rewrite length_drop. cbn [length]. lia.
  - done.
Qed.

Lemma code_points_concat s : concat ((code_points s).*2) = s.
Proof.
  remember (length s) as n eqn:Hn. revert s Hn. induction n as [n IH] using lt_wf_ind. intros s ->.
  destruct (decide (s = [])) as [->|Hs]; [done|]. rewrite code_points_step by done.
  destruct (piece_prefix s Hs) as (r & Hr & Hl). cbn [fmap list_fmap concat].
  assert (drop (length (piece s).2) s = r) as -> by (rewrite Hr at 2; by rewrite drop_app_length).
  rewrite (IH (length r)); [done| |done]. apply (f_equal length) in Hr. rewrite length_app in Hr. lia.
Qed.

Lemma utf8_value_nonneg l b0 b1 b2 b3 : 0 <= b0 → 0 <= utf8_value l b0 b1 b2 b3.
Proof.
  intros H0. rewrite utf8_value_sum. apply Z.shiftr_nonneg.
  pose proof (Z.mod_pos_bound b1 64). pose proof (Z.mod_pos_bound b2 64). pose proof (Z.mod_pos_bound b3 64).
  assert (0 <= Z.land b0 (at_index utf8_masks l)) by (apply Z.land_nonneg; by left). lia.
Qed.

Lemma code_points_ok s : Forall (λ x, 0 <= x.1 ∧ (1 <= length x.2)%nat) (code_points s).
Proof.
  remember (length s) as n eqn:Hn. revert s Hn. induction n as [n IH] using lt_wf_ind. intros s ->.
  destruct (decide (s = [])) as [->|Hs]; [constructor|]. rewrite code_points_step by done.
  destruct (piece_prefix s Hs) as (r & Hr & Hl). constructor; [split; [|done]|].
  - unfold piece. destruct (decode_any s Hs) as (cp & e & n & Hd & _). specialize (Hd []). rewrite app_nil_r in Hd.
    rewrite Hd. destruct (e =? 0); [|done]. destruct s as [|c0 s]; [done|]. cbn [app utf8_decode] in Hd.
    destruct (s ++ [NUL; NUL; NUL]) as [|? [|? [|? ?]]]; try discriminate Hd. injection Hd as <- _ _.
    apply utf8_value_nonneg. pose proof (uchar_range c0). lia.
  - apply (IH (length (drop (length (piece s).2) s))); [|done]. rewrite length_drop. destruct s; cbn in *; [done|lia].
Qed.

(** ** The loops visit the code points *)

Lemma utf8_decode_app a r : (4 <= length a)%nat → utf8_decode (a ++ r) = utf8_decode a.
Proof. destruct a as [|? [|? [|? [|? ?]]]]; cbn [length]; intros; try lia; done. Qed.

Section visits.
Context {S : Type}.
Variable f : Z → bytes → S → S * bool.

(** One call of [decode], on a buffer that holds what it needs. *)
Lemma decode_piece buf p st : p ≠ [] → utf8_decode buf = utf8_decode (p ++ [NUL; NUL; NUL]) →
  decode f buf p st = let '(st, result) := f (piece p).1 (piece p).2 st in
                      Ret (st, if result then Some (length (piece p).2) else None).
Proof.
  intros Hp Hd. unfold decode, piece. rewrite Hd. destruct (decode_any p Hp) as (cp & e & n & Hany & Hn & He).
  specialize (Hany []). rewrite app_nil_r in Hany. rewrite Hany. cbn [mbind outcome_bind].
  assert (1 <= length p)%nat by (destruct p; cbn; [done|lia]).
  destruct (e =? 0) eqn:E; bool_hyps; cbn [negb fst snd].
  - rewrite (proj2 (Nat.ltb_ge _ _)) by lia. by rewrite length_take, Nat.min_l by lia.
  - rewrite (proj2 (Nat.ltb_ge _ _)) by lia. by rewrite length_take, Nat.min_l by lia.
Qed.

Lemma visit_step p st : p ≠ [] → visit f (code_points p) st =
  let '(st, result) := f (piece p).1 (piece p).2 st in
  if result then visit f (code_points (drop (length (piece p).2) p)) st else st.
Proof. intros Hp. rewrite code_points_step by done. cbn [visit]. by destruct (piece p). Qed.

Lemma block_loop_visit fuel : ∀ p st, (length p < fuel)%nat →
  ∃ st' q, block_loop f fuel p st = Ret (st', q) ∧
    match q with
    | None => visit f (code_points p) st = st'
    | Some q => (length q < 4)%nat ∧ visit f (code_points p) st = visit f (code_points q) st'
    end.
Proof.
  induction fuel as [|fuel IH]; intros p st Hf; [lia|]. cbn [block_loop]. unfold block_size.
  destruct (length p <? 4)%nat eqn:E; [apply Nat.ltb_lt in E; by eexists _, _|apply Nat.ltb_ge in E].
  assert (p ≠ []) as Hp by (intros ->; cbn in E; lia).
  rewrite decode_piece by (done || by rewrite utf8_decode_app). rewrite visit_step by done.
  destruct (f _ _ st) as [st1 [|]]; cbn [mbind outcome_bind]; [|by eexists _, _].
  apply IH. destruct (piece_prefix p Hp) as (_ & _ & Hl). rewrite length_drop. lia.
Qed.

Lemma tail_loop_visit fuel : ∀ p z st, p ≠ [] → (length p < fuel)%nat → (3 <= z)%nat →
  tail_loop f fuel (p ++ replicate z NUL) p (length p) st = Ret (visit f (code_points p) st).
Proof.
  induction fuel as [|fuel IH]; intros p z st Hp Hf Hz; [lia|]. cbn [tail_loop].
  rewrite decode_piece; [|done|].
  2:{ destruct z as [|[|[|z]]]; [lia..|]. cbn [replicate].
      change (NUL :: NUL :: NUL :: replicate z NUL) with ([NUL; NUL; NUL] ++ replicate z NUL).
      rewrite app_assoc. apply utf8_decode_app. rewrite length_app. cbn. destruct p; cbn; [done|lia]. }
  rewrite visit_step by done. destruct (piece_prefix p Hp) as (r & Hr & Hl).
  destruct (f _ _ st) as [st1 [|]]; cbn [mbind outcome_bind]; [|done].
  set (k := length (piece p).2) in *. assert (drop k p = r) as Hk by (unfold k; rewrite Hr at 2; by rewrite drop_app_length).
  assert (length p = (k + length r)%nat) as Hlen by (unfold k; rewrite Hr at 1; by rewrite length_app).
  rewrite Hk. destruct (k <? length p)%nat eqn:E.
  - apply Nat.ltb_lt in E. rewrite drop_app_le, Hk by lia. replace (length p - k)%nat with (length r) by lia.
    apply IH; [intros ->; cbn in *; lia|lia|done].
  - apply Nat.ltb_ge in E. destruct r; [done|cbn in *; lia].
Qed.

Lemma for_each_visit s st : for_each_codepoint f s st = Ret (visit f (code_points s) st).
Proof.
  unfold for_each_codepoint. assert (∃ st' q,
    (if (block_size <=? length s)%nat then block_loop f (Datatypes.S (length s)) s st else Ret (st, Some s)) = Ret (st', q) ∧
    match q with
    | None => visit f (code_points s) st = st'
    | Some q => (length q < 4)%nat ∧ visit f (code_points s) st = visit f (code_points q) st'
    end) as (st' & q & -> & Hq).
  { unfold block_size. destruct (4 <=? length s)%nat eqn:E; [apply block_loop_visit; lia|].
    apply Nat.leb_gt in E. by eexists _, _. }
  cbn [mbind outcome_bind]. destruct q as [q|]; [|by rewrite Hq]. destruct Hq as [Hl Hv].
  destruct (length q =? 0)%nat eqn:E.
  { apply Nat.eqb_eq in E. destruct q; [|done]. by rewrite Hv. }
  apply Nat.eqb_neq in E. unfold block_size. rewrite (proj2 (Nat.ltb_ge _ _)) by lia.
  rewrite Hv. apply tail_loop_visit; [by intros ->|lia|lia].
Qed.
End visits.

(** ** The bytes of scalar values *)

Lemma piece_encode cp r : scalar cp → piece (utf8_encode cp ++ r) = (cp, utf8_encode cp).
Proof.
  intros Hs. unfold piece. pose proof (utf8_encode_length cp). rewrite <-app_assoc, decode_encode; [|done|].
  - by rewrite Z.eqb_refl, Nat2Z.id, take_app_length.
  - rewrite !length_app. cbn [length]. lia.
Qed.

Lemma code_points_text cps : Forall scalar cps → code_points (utf8_text cps) = (λ cp, (cp, utf8_encode cp)) <$> cps.
Proof.
  intros H. induction H as [|cp cps Hs _ IH]; [done|]. unfold utf8_text. cbn [fmap list_fmap concat].
  pose proof (utf8_encode_length cp). rewrite code_points_step, piece_encode; [|done|destruct (utf8_encode cp); cbn in *; [lia|done]].
  cbn [snd]. rewrite drop_app_length. by f_equal.
Qed.

(** * Properties *)

(** The visit of the code points of a string reads back what UTF-8 writes: for any Unicode scalar
    values the callback gets exactly these, each with its bytes, in their order and until it stops.  Of a
    string of any bytes the visit ends without a read outside of the string or its padded copy, and the
    pieces the callback gets are, one behind the other, the string. *)
Theorem utf8_visit :
  (∀ S (f : Z → bytes → S → S * bool) cps st, Forall scalar cps →
     for_each_codepoint f (utf8_text cps) st = Ret (visit f ((λ cp, (cp, utf8_encode cp)) <$> cps) st)) ∧
  (∀ s, ∃ l, for_each_codepoint (λ cp sv l, (l ++ [(cp, sv)], true)) s [] = Ret l ∧ concat l.*2 = s).
Proof.
  split.
  - intros S f cps st H. by rewrite for_each_visit, code_points_text.
  - intros s. rewrite for_each_visit. eexists. split; [reflexivity|]. rewrite <-(code_points_concat s) at 2.
    assert (∀ l k, visit (λ cp sv l, (l ++ [(cp, sv)], true)) l k = k ++ l) as ->; [|done].
    induction l as [|[cp sv] l IH]; intros k; cbn [visit]; [by rewrite app_nil_r|]. by rewrite IH, <-app_assoc.
Qed.

Lemma utf8_visit_witness :
  for_each_codepoint (λ cp _ l, (l ++ [cp], true)) (utf8_text [65; 0xe9; 0x4e2d; 0x1f600]) [] =
    Ret (visit (λ cp _ l, (l ++ [cp], true)) ((λ cp, (cp, utf8_encode cp)) <$> [65; 0xe9; 0x4e2d; 0x1f600]) []).
Proof. apply (proj1 utf8_visit). repeat constructor; by_decide. Defined.
