(* ===== verification/FmtEscape.v ===== *)
(** * Escaped output of the formatting library (src/cppboot/base/internal/fmt/format.h, format-inl.h)

    The table of the code points that are printable, and the debug form of strings and
    characters, in which the others are written as escape sequences. *)

From S2P Require Import Prelude StdString FmtNum FmtUtf8.

(** ** Printable code points

    Runs of code points with the same upper byte, as the number of lower bytes that are
    not printable, and the lower bytes; the lengths of printable and other runs in turn. *)

Definition singletons0 : list (Z * Z) :=
  [(0x00, 1); (0x03, 5); (0x05, 6); (0x06, 3); (0x07, 6); (0x08, 8); (0x09, 17); (0x0a, 28); (0x0b, 25);
   (0x0c, 20); (0x0d, 16); (0x0e, 13); (0x0f, 4); (0x10, 3); (0x12, 18); (0x13, 9); (0x16, 1); (0x17, 5);
   (0x18, 2); (0x19, 3); (0x1a, 7); (0x1c, 2); (0x1d, 1); (0x1f, 22); (0x20, 3); (0x2b, 3); (0x2c, 2);
   (0x2d, 11); (0x2e, 1); (0x30, 3); (0x31, 2); (0x32, 1); (0xa7, 2); (0xa9, 2); (0xaa, 4); (0xab, 8);
   (0xfa, 2); (0xfb, 5); (0xfd, 4); (0xfe, 3); (0xff, 9)].

Definition singletons0_lower : list Z :=
  [0xad; 0x78; 0x79; 0x8b; 0x8d; 0xa2; 0x30; 0x57; 0x58; 0x8b; 0x8c; 0x90; 0x1c; 0x1d; 0xdd; 0x0e; 0x0f;
   0x4b; 0x4c; 0xfb; 0xfc; 0x2e; 0x2f; 0x3f; 0x5c; 0x5d; 0x5f; 0xb5; 0xe2; 0x84; 0x8d; 0x8e; 0x91; 0x92;
   0xa9; 0xb1; 0xba; 0xbb; 0xc5; 0xc6; 0xc9; 0xca; 0xde; 0xe4; 0xe5; 0xff; 0x00; 0x04; 0x11; 0x12; 0x29;
   0x31; 0x34; 0x37; 0x3a; 0x3b; 0x3d; 0x49; 0x4a; 0x5d; 0x84; 0x8e; 0x92; 0xa9; 0xb1; 0xb4; 0xba; 0xbb;
   0xc6; 0xca; 0xce; 0xcf; 0xe4; 0xe5; 0x00; 0x04; 0x0d; 0x0e; 0x11; 0x12; 0x29; 0x31; 0x34; 0x3a; 0x3b;
   0x45; 0x46; 0x49; 0x4a; 0x5e; 0x64; 0x65; 0x84; 0x91; 0x9b; 0x9d; 0xc9; 0xce; 0xcf; 0x0d; 0x11; 0x29;
   0x45; 0x49; 0x57; 0x64; 0x65; 0x8d; 0x91; 0xa9; 0xb4; 0xba; 0xbb; 0xc5; 0xc9; 0xdf; 0xe4; 0xe5; 0xf0;
   0x0d; 0x11; 0x45; 0x49; 0x64; 0x65; 0x80; 0x84; 0xb2; 0xbc; 0xbe; 0xbf; 0xd5; 0xd7; 0xf0; 0xf1; 0x83;
   0x85; 0x8b; 0xa4; 0xa6; 0xbe; 0xbf; 0xc5; 0xc7; 0xce; 0xcf; 0xda; 0xdb; 0x48; 0x98; 0xbd; 0xcd; 0xc6;
   0xce; 0xcf; 0x49; 0x4e; 0x4f; 0x57; 0x59; 0x5e; 0x5f; 0x89; 0x8e; 0x8f; 0xb1; 0xb6; 0xb7; 0xbf; 0xc1;
   0xc6; 0xc7; 0xd7; 0x11; 0x16; 0x17; 0x5b; 0x5c; 0xf6; 0xf7; 0xfe; 0xff; 0x80; 0x0d; 0x6d; 0x71; 0xde;
   0xdf; 0x0e; 0x0f; 0x1f; 0x6e; 0x6f; 0x1c; 0x1d; 0x5f; 0x7d; 0x7e; 0xae; 0xaf; 0xbb; 0xbc; 0xfa; 0x16;
   0x17; 0x1e; 0x1f; 0x46; 0x47; 0x4e; 0x4f; 0x58; 0x5a; 0x5c; 0x5e; 0x7e; 0x7f; 0xb5; 0xc5; 0xd4; 0xd5;
   0xdc; 0xf0; 0xf1; 0xf5; 0x72; 0x73; 0x8f; 0x74; 0x75; 0x96; 0x2f; 0x5f; 0x26; 0x2e; 0x2f; 0xa7; 0xaf;
   0xb7; 0xbf; 0xc7; 0xcf; 0xd7; 0xdf; 0x9a; 0x40; 0x97; 0x98; 0x30; 0x8f; 0x1f; 0xc0; 0xc1; 0xce; 0xff;
   0x4e; 0x4f; 0x5a; 0x5b; 0x07; 0x08; 0x0f; 0x10; 0x27; 0x2f; 0xee; 0xef; 0x6e; 0x6f; 0x37; 0x3d; 0x3f;
   0x42; 0x45; 0x90; 0x91; 0xfe; 0xff; 0x53; 0x67; 0x75; 0xc8; 0xc9; 0xd0; 0xd1; 0xd8; 0xd9; 0xe7; 0xfe;
   0xff].

Definition singletons1 : list (Z * Z) :=
  [(0x00, 6); (0x01, 1); (0x03, 1); (0x04, 2); (0x08, 8); (0x09, 2); (0x0a, 5); (0x0b, 2); (0x0e, 4);
   (0x10, 1); (0x11, 2); (0x12, 5); (0x13, 17); (0x14, 1); (0x15, 2); (0x17, 2); (0x19, 13); (0x1c, 5);
   (0x1d, 8); (0x24, 1); (0x6a, 3); (0x6b, 2); (0xbc, 2); (0xd1, 2); (0xd4, 12); (0xd5, 9); (0xd6, 2);
   (0xd7, 2); (0xda, 1); (0xe0, 5); (0xe1, 2); (0xe8, 2); (0xee, 32); (0xf0, 4); (0xf8, 2); (0xf9, 2);
   (0xfa, 2); (0xfb, 1)].

Definition singletons1_lower : list Z :=
  [0x0c; 0x27; 0x3b; 0x3e; 0x4e; 0x4f; 0x8f; 0x9e; 0x9e; 0x9f; 0x06; 0x07; 0x09; 0x36; 0x3d; 0x3e; 0x56;
   0xf3; 0xd0; 0xd1; 0x04; 0x14; 0x18; 0x36; 0x37; 0x56; 0x57; 0x7f; 0xaa; 0xae; 0xaf; 0xbd; 0x35; 0xe0;
   0x12; 0x87; 0x89; 0x8e; 0x9e; 0x04; 0x0d; 0x0e; 0x11; 0x12; 0x29; 0x31; 0x34; 0x3a; 0x45; 0x46; 0x49;
   0x4a; 0x4e; 0x4f; 0x64; 0x65; 0x5c; 0xb6; 0xb7; 0x1b; 0x1c; 0x07; 0x08; 0x0a; 0x0b; 0x14; 0x17; 0x36;
   0x39; 0x3a; 0xa8; 0xa9; 0xd8; 0xd9; 0x09; 0x37; 0x90; 0x91; 0xa8; 0x07; 0x0a; 0x3b; 0x3e; 0x66; 0x69;
   0x8f; 0x92; 0x6f; 0x5f; 0xee; 0xef; 0x5a; 0x62; 0x9a; 0x9b; 0x27; 0x28; 0x55; 0x9d; 0xa0; 0xa1; 0xa3;
   0xa4; 0xa7; 0xa8; 0xad; 0xba; 0xbc; 0xc4; 0x06; 0x0b; 0x0c; 0x15; 0x1d; 0x3a; 0x3f; 0x45; 0x51; 0xa6;
   0xa7; 0xcc; 0xcd; 0xa0; 0x07; 0x19; 0x1a; 0x22; 0x25; 0x3e; 0x3f; 0xc5; 0xc6; 0x04; 0x20; 0x23; 0x25;
   0x26; 0x28; 0x33; 0x38; 0x3a; 0x48; 0x4a; 0x4c; 0x50; 0x53; 0x55; 0x56; 0x58; 0x5a; 0x5c; 0x5e; 0x60;
   0x63; 0x65; 0x66; 0x6b; 0x73; 0x78; 0x7d; 0x7f; 0x8a; 0xa4; 0xaa; 0xaf; 0xb0; 0xc0; 0xd0; 0xae; 0xaf;
   0x79; 0xcc; 0x6e; 0x6f; 0x93].

Definition normal0 : list Z :=
  [0x00; 0x20; 0x5f; 0x22; 0x82; 0xdf; 0x04; 0x82; 0x44; 0x08; 0x1b; 0x04; 0x06; 0x11; 0x81; 0xac; 0x0e;
   0x80; 0xab; 0x35; 0x28; 0x0b; 0x80; 0xe0; 0x03; 0x19; 0x08; 0x01; 0x04; 0x2f; 0x04; 0x34; 0x04; 0x07;
   0x03; 0x01; 0x07; 0x06; 0x07; 0x11; 0x0a; 0x50; 0x0f; 0x12; 0x07; 0x55; 0x07; 0x03; 0x04; 0x1c; 0x0a;
   0x09; 0x03; 0x08; 0x03; 0x07; 0x03; 0x02; 0x03; 0x03; 0x03; 0x0c; 0x04; 0x05; 0x03; 0x0b; 0x06; 0x01;
   0x0e; 0x15; 0x05; 0x3a; 0x03; 0x11; 0x07; 0x06; 0x05; 0x10; 0x07; 0x57; 0x07; 0x02; 0x07; 0x15; 0x0d;
   0x50; 0x04; 0x43; 0x03; 0x2d; 0x03; 0x01; 0x04; 0x11; 0x06; 0x0f; 0x0c; 0x3a; 0x04; 0x1d; 0x25; 0x5f;
   0x20; 0x6d; 0x04; 0x6a; 0x25; 0x80; 0xc8; 0x05; 0x82; 0xb0; 0x03; 0x1a; 0x06; 0x82; 0xfd; 0x03; 0x59;
   0x07; 0x15; 0x0b; 0x17; 0x09; 0x14; 0x0c; 0x14; 0x0c; 0x6a; 0x06; 0x0a; 0x06; 0x1a; 0x06; 0x59; 0x07;
   0x2b; 0x05; 0x46; 0x0a; 0x2c; 0x04; 0x0c; 0x04; 0x01; 0x03; 0x31; 0x0b; 0x2c; 0x04; 0x1a; 0x06; 0x0b;
   0x03; 0x80; 0xac; 0x06; 0x0a; 0x06; 0x21; 0x3f; 0x4c; 0x04; 0x2d; 0x03; 0x74; 0x08; 0x3c; 0x03; 0x0f;
   0x03; 0x3c; 0x07; 0x38; 0x08; 0x2b; 0x05; 0x82; 0xff; 0x11; 0x18; 0x08; 0x2f; 0x11; 0x2d; 0x03; 0x20;
   0x10; 0x21; 0x0f; 0x80; 0x8c; 0x04; 0x82; 0x97; 0x19; 0x0b; 0x15; 0x88; 0x94; 0x05; 0x2f; 0x05; 0x3b;
   0x07; 0x02; 0x0e; 0x18; 0x09; 0x80; 0xb3; 0x2d; 0x74; 0x0c; 0x80; 0xd6; 0x1a; 0x0c; 0x05; 0x80; 0xff;
   0x05; 0x80; 0xdf; 0x0c; 0xee; 0x0d; 0x03; 0x84; 0x8d; 0x03; 0x37; 0x09; 0x81; 0x5c; 0x14; 0x80; 0xb8;
   0x08; 0x80; 0xcb; 0x2a; 0x38; 0x03; 0x0a; 0x06; 0x38; 0x08; 0x46; 0x08; 0x0c; 0x06; 0x74; 0x0b; 0x1e;
   0x03; 0x5a; 0x04; 0x59; 0x09; 0x80; 0x83; 0x18; 0x1c; 0x0a; 0x16; 0x09; 0x4c; 0x04; 0x80; 0x8a; 0x06;
   0xab; 0xa4; 0x0c; 0x17; 0x04; 0x31; 0xa1; 0x04; 0x81; 0xda; 0x26; 0x07; 0x0c; 0x05; 0x05; 0x80; 0xa5;
   0x11; 0x81; 0x6d; 0x10; 0x78; 0x28; 0x2a; 0x06; 0x4c; 0x04; 0x80; 0x8d; 0x04; 0x80; 0xbe; 0x03; 0x1b;
   0x03; 0x0f; 0x0d].

Definition normal1 : list Z :=
  [0x5e; 0x22; 0x7b; 0x05; 0x03; 0x04; 0x2d; 0x03; 0x66; 0x03; 0x01; 0x2f; 0x2e; 0x80; 0x82; 0x1d; 0x03;
   0x31; 0x0f; 0x1c; 0x04; 0x24; 0x09; 0x1e; 0x05; 0x2b; 0x05; 0x44; 0x04; 0x0e; 0x2a; 0x80; 0xaa; 0x06;
   0x24; 0x04; 0x24; 0x04; 0x28; 0x08; 0x34; 0x0b; 0x01; 0x80; 0x90; 0x81; 0x37; 0x09; 0x16; 0x0a; 0x08;
   0x80; 0x98; 0x39; 0x03; 0x63; 0x08; 0x09; 0x30; 0x16; 0x05; 0x21; 0x03; 0x1b; 0x05; 0x01; 0x40; 0x38;
   0x04; 0x4b; 0x05; 0x2f; 0x04; 0x0a; 0x07; 0x09; 0x07; 0x40; 0x20; 0x27; 0x04; 0x0c; 0x09; 0x36; 0x03;
   0x3a; 0x05; 0x1a; 0x07; 0x04; 0x0c; 0x07; 0x50; 0x49; 0x37; 0x33; 0x0d; 0x33; 0x07; 0x2e; 0x08; 0x0a;
   0x81; 0x26; 0x52; 0x4e; 0x28; 0x08; 0x2a; 0x56; 0x1c; 0x14; 0x17; 0x09; 0x4e; 0x04; 0x1e; 0x0f; 0x43;
   0x0e; 0x19; 0x07; 0x0a; 0x06; 0x48; 0x08; 0x27; 0x09; 0x75; 0x0b; 0x3f; 0x41; 0x2a; 0x06; 0x3b; 0x05;
   0x0a; 0x06; 0x51; 0x06; 0x01; 0x05; 0x10; 0x03; 0x05; 0x80; 0x8b; 0x62; 0x1e; 0x48; 0x08; 0x0a; 0x80;
   0xa6; 0x5e; 0x22; 0x45; 0x0b; 0x0a; 0x06; 0x0d; 0x13; 0x39; 0x07; 0x0a; 0x36; 0x2c; 0x04; 0x10; 0x80;
   0xc0; 0x3c; 0x64; 0x53; 0x0c; 0x48; 0x09; 0x0a; 0x46; 0x45; 0x1b; 0x48; 0x08; 0x53; 0x1d; 0x39; 0x81;
   0x07; 0x46; 0x0a; 0x1d; 0x03; 0x47; 0x49; 0x37; 0x03; 0x0e; 0x08; 0x0a; 0x06; 0x39; 0x07; 0x0a; 0x81;
   0x36; 0x19; 0x80; 0xb7; 0x01; 0x0f; 0x32; 0x0d; 0x83; 0x9b; 0x66; 0x75; 0x0b; 0x80; 0xc4; 0x8a; 0xbc;
   0x84; 0x2f; 0x8f; 0xd1; 0x82; 0x47; 0xa1; 0xb9; 0x82; 0x39; 0x07; 0x2a; 0x04; 0x02; 0x60; 0x26; 0x0a;
   0x46; 0x0a; 0x28; 0x05; 0x13; 0x82; 0xb0; 0x5b; 0x65; 0x4b; 0x04; 0x39; 0x07; 0x11; 0x40; 0x05; 0x0b;
   0x02; 0x0e; 0x97; 0xf8; 0x08; 0x84; 0xd6; 0x2a; 0x09; 0xa2; 0xf7; 0x81; 0x1f; 0x31; 0x03; 0x11; 0x04;
   0x08; 0x81; 0x8c; 0x89; 0x04; 0x6b; 0x05; 0x0d; 0x03; 0x09; 0x07; 0x10; 0x93; 0x60; 0x80; 0xf6; 0x0a;
   0x73; 0x08; 0x6e; 0x17; 0x46; 0x80; 0x9a; 0x14; 0x0c; 0x57; 0x09; 0x19; 0x80; 0x87; 0x81; 0x47; 0x03;
   0x85; 0x42; 0x0f; 0x15; 0x85; 0x50; 0x2b; 0x80; 0xd5; 0x2d; 0x03; 0x1a; 0x04; 0x02; 0x81; 0x70; 0x3a;
   0x05; 0x01; 0x85; 0x00; 0x80; 0xd7; 0x29; 0x4c; 0x04; 0x0a; 0x04; 0x02; 0x83; 0x11; 0x44; 0x4c; 0x3d;
   0x80; 0xc2; 0x3c; 0x06; 0x01; 0x04; 0x55; 0x05; 0x1b; 0x34; 0x02; 0x81; 0x0e; 0x2c; 0x04; 0x64; 0x0c;
   0x56; 0x0a; 0x80; 0xae; 0x38; 0x1d; 0x0d; 0x2c; 0x04; 0x09; 0x07; 0x02; 0x0e; 0x06; 0x80; 0x9a; 0x83;
   0xd8; 0x08; 0x0d; 0x03; 0x0d; 0x03; 0x74; 0x0c; 0x59; 0x07; 0x0c; 0x14; 0x0c; 0x04; 0x38; 0x08; 0x0a;
   0x06; 0x28; 0x08; 0x22; 0x4e; 0x81; 0x54; 0x0c; 0x15; 0x03; 0x03; 0x05; 0x07; 0x09; 0x19; 0x07; 0x07;
   0x09; 0x03; 0x0d; 0x07; 0x29; 0x80; 0xcb; 0x25; 0x0a; 0x84; 0x06].

(** The [n] lower bytes from the front on: whether [x] is one of them. *)
Fixpoint lower_loop (n : nat) (lowers : list Z) (x : Z) : outcome bool :=
  match n with
  | O => Ret false
  | S n =>
      match lowers with
      | [] => Undef
      | l :: lowers => if l =? x then Ret true else lower_loop n lowers x
      end
  end.

(** [true] when the code point is found, so that it is not printable. *)
Fixpoint singleton_loop (singletons : list (Z * Z)) (lowers : list Z) (upper x : Z) : outcome bool :=
  match singletons with
  | [] => Ret false
  | (s_upper, lower_count) :: singletons =>
      let n := Z.to_nat lower_count in
      if upper <? s_upper then Ret false
      else
        found ← (if upper =? s_upper then lower_loop n lowers x else Ret false);
        if found : bool then Ret true else singleton_loop singletons (drop n lowers) upper x
  end.

Fixpoint normal_loop (normal : list Z) (xsigned : Z) (current : bool) : outcome bool :=
  match normal with
  | [] => Ret current
  | v :: normal =>
      if negb (Z.land v 0x80 =? 0) then
        match normal with
        | [] => Undef
        | w :: normal =>
            let xsigned := xsigned - Z.lor (Z.shiftl (Z.land v 0x7f) 8) w in
            if xsigned <? 0 then Ret current else normal_loop normal xsigned (negb current)
        end
      else
        let xsigned := xsigned - v in
        if xsigned <? 0 then Ret current else normal_loop normal xsigned (negb current)
  end.

Definition is_printable16 (x : Z) (singletons : list (Z * Z)) (lowers normal : list Z) : outcome bool :=
  found ← singleton_loop singletons lowers (Z.shiftr x 8) (Z.land x 0xff);
  if found : bool then Ret false else normal_loop normal x true.

Definition is_printable (cp : Z) : outcome bool :=
  let lower := u16 cp in
  if cp <? 0x10000 then is_printable16 lower singletons0 singletons0_lower normal0
  else if cp <? 0x20000 then is_printable16 lower singletons1 singletons1_lower normal1
  else if (0x2a6de <=? cp) && (cp <? 0x2a700) then Ret false
  else if (0x2b735 <=? cp) && (cp <? 0x2b740) then Ret false
  else if (0x2b81e <=? cp) && (cp <? 0x2b820) then Ret false
  else if (0x2cea2 <=? cp) && (cp <? 0x2ceb0) then Ret false
  else if (0x2ebe1 <=? cp) && (cp <? 0x2f800) then Ret false
  else if (0x2fa1e <=? cp) && (cp <? 0x30000) then Ret false
  else if (0x3134b <=? cp) && (cp <? 0xe0100) then Ret false
  else if (0xe01f0 <=? cp) && (cp <? 0x110000) then Ret false
  else Ret (cp <? 0x110000).

(** ** Escape sequences *)

Definition needs_escape (cp : Z) : outcome bool :=
  if (cp <? 0x20) || (cp =? 0x7f) || (cp =? 34) || (cp =? 92) then Ret true
  else b ← is_printable cp; Ret (negb b).

(** What [find_escape] finds: the text before, and the code point with its bytes and the
    text behind it. *)
Definition find_escape_result : Type := bytes * option (Z * bytes * bytes).

(** The callback of [find_escape]; its state has the bytes that have been passed. *)
Definition find_callback (cp : Z) (sv : bytes) (st : nat * outcome (option (Z * bytes)))
    : nat * outcome (option (Z * bytes)) * bool :=
  let '(n, result) := st in
  match needs_escape cp with
  | Ret true => (n, Ret (Some (cp, sv)), false)
  | Ret false => ((n + length sv)%nat, result, true)
  | _ => (n, Undef, false)
  end.

Definition find_escape (s : bytes) : outcome find_escape_result :=
  '(n, result) ← for_each_codepoint find_callback s (0%nat, Ret None);
  r ← result;
  match r with
  | Some (cp, sv) => Ret (take n s, Some (cp, sv, drop (n + length sv) s))
  | None => Ret (s, None)
  end.

Definition write_codepoint (width : nat) (prefix : ascii) (cp : Z) : outcome bytes :=
  ds ← uint_loop 64 4 cp false [];
  if (width <? length ds)%nat then Undef
  else Ret ("\"%char :: prefix :: replicate (width - length ds) "0"%char ++ ds).

Fixpoint write_bytes_escaped (sv : bytes) : outcome bytes :=
  match sv with
  | [] => Ret []
  | c :: sv => a ← write_codepoint 2 "x" (Z.land (u32 (schar c)) 0xff); b ← write_bytes_escaped sv; Ret (a ++ b)
  end.

Definition write_escaped_cp (cp : Z) (sv : bytes) : outcome bytes :=
  if cp =? 10 then Ret (bs "\n")
  else if cp =? 13 then Ret (bs "\r")
  else if cp =? 9 then Ret (bs "\t")
  else if (cp =? 34) || (cp =? 39) || (cp =? 92) then Ret ("\"%char :: [char_of cp])
  else if cp <? 0x100 then write_codepoint 2 "x" cp
  else if cp <? 0x10000 then write_codepoint 4 "u" cp
  else if cp <? 0x110000 then write_codepoint 8 "U" cp
  else write_bytes_escaped sv.

(** The loop of [write_escaped_string]. *)
Fixpoint escape_loop (fuel : nat) (s : bytes) : outcome bytes :=
  match fuel with
  | O => OutOfFuel
  | S fuel =>
      '(before, escape) ← find_escape s;
      match escape with
      | None => Ret before
      | Some (cp, sv, rest) =>
          w ← write_escaped_cp cp sv;
          match rest with
          | [] => Ret (before ++ w)
          | _ => r ← escape_loop fuel rest; Ret (before ++ w ++ r)
          end
      end
  end.

Definition write_escaped_string (s : bytes) : outcome bytes :=
  r ← escape_loop (S (length s)) s; Ret (DQ :: r ++ [DQ]).

Definition write_escaped_char (v : ascii) : outcome bytes :=
  let cp := u32 (schar v) in
  e ← needs_escape cp;
  r ← (if (e : bool) && negb (bool_decide (v = DQ)) || bool_decide (v = "'"%char) then write_escaped_cp cp [v]
       else Ret [v]);
  Ret ("'"%char :: r ++ ["'"%char]).

(** ** Reading escaped text back

    The value of hexadecimal digits, given as code points. *)
Definition hex_value (ds : list Z) : option Z :=
  if forallb (λ d, (0 <=? d) && (d <? 256) && (digit_value (char_of d) <? 16)) ds
  then Some (numeral_value 16 (char_of <$> ds)) else None.

Fixpoint unescape (l : list Z) : option (list Z) :=
  match l with
  | [] => Some []
  | c :: l =>
      if c =? 34 then None
      else if negb (c =? 92) then cons c <$> unescape l
      else match l with
      | [] => None
      | e :: l =>
          if e =? 110 then cons 10 <$> unescape l
          else if e =? 114 then cons 13 <$> unescape l
          else if e =? 116 then cons 9 <$> unescape l
          else if (e =? 34) || (e =? 39) || (e =? 92) then cons e <$> unescape l
          else if e =? 120 then
            match l with
            | a :: b :: l => v ← hex_value [a; b]; cons v <$> unescape l
            | _ => None
            end
          else if e =? 117 then
            match l with
            | a :: b :: c :: d :: l => v ← hex_value [a; b; c; d]; cons v <$> unescape l
            | _ => None
            end
          else if e =? 85 then
            match l with
            | a :: b :: c :: d :: e :: f :: g :: h :: l => v ← hex_value [a; b; c; d; e; f; g; h]; cons v <$> unescape l
            | _ => None
            end
          else None
      end
  end.

(** * Lemmas *)

(** ** The table is complete *)

Lemma lower_loop_total n : ∀ lowers x, (n <= length lowers)%nat → ∃ b, lower_loop n lowers x = Ret b.
Proof.
  induction n as [|n IH]; intros [|l lowers] x Hl; cbn in *; [eauto..|lia|]. destruct (l =? x); [eauto|].
  apply IH. lia.
Qed.

Definition counts (s : list (Z * Z)) : nat := sum_list ((λ p, Z.to_nat p.2) <$> s).

Lemma singleton_loop_total s : ∀ lowers u x, (counts s <= length lowers)%nat → ∃ b, singleton_loop s lowers u x = Ret b.
Proof.
  induction s as [|[v n] s IH]; intros lowers u x Hl; cbn [singleton_loop]; [eauto|].
  unfold counts in *. cbn in Hl. destruct (u <? v); [eauto|].
  destruct (lower_loop_total (Z.to_nat n) lowers x ltac:(lia)) as [b Hb].
  assert (∃ b, singleton_loop s (drop (Z.to_nat n) lowers) u x = Ret b) as Hr by (apply IH; rewrite length_drop; lia).
  destruct (u =? v); [rewrite Hb; cbn [mbind outcome_bind]; destruct b; eauto|done].
Qed.

Fixpoint runs_ok (normal : list Z) : bool :=
  match normal with
  | [] => true
  | v :: normal =>
      if negb (Z.land v 0x80 =? 0) then match normal with [] => false | _ :: normal => runs_ok normal end
      else runs_ok normal
  end.

Lemma normal_loop_total k : ∀ normal x b, (length normal <= k)%nat → runs_ok normal = true →
  ∃ c, normal_loop normal x b = Ret c.
Proof.
  induction k as [|k IH]; intros [|v normal] x b Hk Hok; cbn in *; eauto; [lia|].
  destruct (negb _).
  - destruct normal as [|w normal]; [done|]. destruct (_ <? 0); [eauto|]. apply IH; [cbn in *; lia|done].
  - destruct (_ <? 0); [eauto|]. apply IH; [lia|done].
Qed.

Lemma is_printable_total cp : ∃ b, is_printable cp = Ret b.
Proof.
  assert (∀ x s l n, (counts s <= length l)%nat → runs_ok n = true → ∃ b, is_printable16 x s l n = Ret b) as H16.
  { intros x s l n Hs Hn. unfold is_printable16.
    destruct (singleton_loop_total s l (Z.shiftr x 8) (Z.land x 0xff) Hs) as [b ->]. cbn [mbind outcome_bind].
    destruct b; [eauto|]. by eapply normal_loop_total. }
  unfold is_printable. destruct (cp <? 0x10000); [|destruct (cp <? 0x20000)].
  - apply H16; [|reflexivity]. apply Nat.leb_le. vm_compute. reflexivity.
  - apply H16; [|reflexivity]. apply Nat.leb_le. vm_compute. reflexivity.
  - repeat case_test; eauto.
Qed.

Lemma needs_escape_total cp : ∃ b, needs_escape cp = Ret b.
Proof.
  unfold needs_escape. destruct (_ || _); [eauto|]. destruct (is_printable_total cp) as [b ->]. cbn. eauto.
Qed.

(** The printable characters of ASCII. *)
Definition ascii_row (c : Z) : bool := (c <? 32) || (127 <=? c) || bool_decide (is_printable c = Ret true).
Lemma ascii_printable c : 32 <= c < 127 → is_printable c = Ret true.
Proof.
  intros Hc. apply (bool_decide_eq_true (is_printable c = Ret true)).
  assert (ascii_row c = true) as H by (apply (rows_ok ascii_row 128); [vm_compute; reflexivity|lia]).
  unfold ascii_row in H. rewrite (proj2 (Z.ltb_ge c 32)), (proj2 (Z.leb_gt 127 c)) in H by lia. done.
Qed.

(** ** The search *)

Definition escapes (cp : Z) : bool := bool_decide (needs_escape cp = Ret true).

Lemma needs_escape_escapes cp : needs_escape cp = Ret (escapes cp).
Proof.
  unfold escapes. destruct (needs_escape_total cp) as [[] H]; rewrite H; [by rewrite bool_decide_true|].
  by rewrite bool_decide_false.
Qed.

Lemma visit_find pre : ∀ n r l, Forall (λ x, escapes x.1 = false) pre →
  visit find_callback (pre ++ l) (n, r) = visit find_callback l ((n + length (concat pre.*2))%nat, r).
Proof.
  induction pre as [|[cp sv] pre IH]; intros n r l H; cbn [app visit find_callback fmap list_fmap concat]; [f_equal; f_equal; cbn; lia|].
  apply Forall_cons in H as [Hc H]. cbn in Hc. cbn [find_callback].
  rewrite needs_escape_escapes, Hc. cbn [snd]. rewrite length_app, Nat.add_assoc. by apply IH.
Qed.

Lemma utf8_text_app a b : utf8_text (a ++ b) = utf8_text a ++ utf8_text b.
Proof. unfold utf8_text. by rewrite fmap_app, concat_app. Qed.
Lemma utf8_text_cons a b : utf8_text (a :: b) = utf8_encode a ++ utf8_text b.
Proof. done. Qed.

Lemma encoded_bytes cps : concat (((λ cp, (cp, utf8_encode cp)) <$> cps).*2) = utf8_text cps.
Proof. unfold utf8_text. by rewrite <-list_fmap_compose. Qed.

Lemma find_escape_none cps : Forall scalar cps → Forall (λ cp, escapes cp = false) cps →
  find_escape (utf8_text cps) = Ret (utf8_text cps, None).
Proof.
  intros Hs He. unfold find_escape. rewrite for_each_visit, code_points_text by done.
  rewrite <-(app_nil_r (_ <$> cps)), visit_find; [done|]. by apply Forall_fmap.
Qed.

Lemma find_escape_some pre cp post : Forall scalar (pre ++ cp :: post) → Forall (λ cp, escapes cp = false) pre →
  escapes cp = true →
  find_escape (utf8_text (pre ++ cp :: post)) = Ret (utf8_text pre, Some (cp, utf8_encode cp, utf8_text post)).
Proof.
  intros Hs He Hc. unfold find_escape. rewrite for_each_visit, code_points_text by done.
  rewrite fmap_app. cbn [fmap list_fmap]. rewrite visit_find by (by apply Forall_fmap). rewrite encoded_bytes.
  cbn [visit find_callback]. rewrite needs_escape_escapes, Hc. cbn [mbind outcome_bind].
  rewrite utf8_text_app, utf8_text_cons. cbn [Nat.add]. rewrite take_app_length.
  do 4 f_equal. rewrite app_assoc, <-length_app. by rewrite drop_app_length.
Qed.

(** ** The sequences *)

Definition ascii_text (l : bytes) : Prop := Forall (λ c, uchar c < 128) l.

Lemma utf8_text_ascii l : ascii_text l → utf8_text (uchar <$> l) = l.
Proof.
  intros H. induction H as [|c l Hc _ IH]; [done|]. cbn [fmap list_fmap]. rewrite utf8_text_cons, IH.
  unfold utf8_encode. rewrite (proj2 (Z.ltb_lt _ _)) by done. by rewrite char_of_uchar.
Qed.

Lemma ascii_scalar l : ascii_text l → Forall scalar (uchar <$> l).
Proof.
  intros H. apply Forall_fmap. eapply Forall_impl; [exact H|]. intros c Hc. cbn in Hc. pose proof (uchar_range c).
  unfold compose, scalar. lia.
Qed.

Lemma hex_char_ok c : digit_value c < 16 → 48 <= uchar c < 127.
Proof.
  intros H. assert (forallb (λ c, (16 <=? digit_value c) || ((48 <=? uchar c) && (uchar c <? 127))) all_chars = true) as Hall
    by (vm_compute; reflexivity).
  pose proof (forall_chars _ Hall c) as Hc. cbn beta in Hc. lia.
Qed.

Lemma hex_value_chars ds : Forall (λ c, digit_value c < 16) ds → hex_value (uchar <$> ds) = Some (numeral_value 16 ds).
Proof.
  intros H. unfold hex_value. assert (char_of <$> (uchar <$> ds) = ds) as E.
  { rewrite <-list_fmap_compose. rewrite <-(list_fmap_id ds) at 2. apply list_fmap_ext. intros _ c _.
    unfold compose. apply char_of_uchar. }
  rewrite E. rewrite (proj2 (forallb_forall _ _)); [done|]. intros z Hz. apply list_elem_of_In, list_elem_of_fmap in Hz as (c & -> & Hc).
  rewrite Forall_forall in H. specialize (H c Hc). cbn in H. rewrite char_of_uchar. pose proof (uchar_range c). lia.
Qed.

Lemma numeral_value_zeros n ds : numeral_value 16 (replicate n "0"%char ++ ds) = numeral_value 16 ds.
Proof. induction n as [|n IH]; [done|]. cbn [replicate app]. unfold numeral_value in *. cbn [foldl]. exact IH. Qed.

Lemma write_codepoint_spec width prefix cp : 0 <= cp < 16 ^ Z.of_nat width → (1 <= width <= 8)%nat →
  ∃ ds, write_codepoint width prefix cp = Ret ("\"%char :: prefix :: ds) ∧ length ds = width ∧
    numeral_value 16 ds = cp ∧ Forall (λ c, digit_value c < 16) ds.
Proof.
  intros Hcp Hw. unfold write_codepoint.
  destruct (uint_loop_spec 4 false 64 ltac:(by_decide) cp []) as (ds & -> & (Hv & Hne & Hf & _) & Hl); [|lia|].
  { split; [lia|]. apply (Z.lt_le_trans _ (16 ^ Z.of_nat width)); [lia|]. change 16 with (2 ^ 4).
    rewrite <-Z.pow_mul_r by lia. apply Z.pow_le_mono_r; lia. }
  rewrite app_nil_r. cbn [mbind outcome_bind].
  assert (len ds <= Z.of_nat width) as Hlen.
  { rewrite Hl. assert (Z.log2 cp / 4 < Z.of_nat width); [|lia]. apply Z.div_lt_upper_bound; [lia|].
    destruct (Z.eq_dec cp 0) as [->|]; [change (Z.log2 0) with 0; lia|]. apply Z.log2_lt_pow2; [lia|].
    rewrite Z.pow_mul_r by lia. change (2 ^ 4) with 16. lia. }
  rewrite (proj2 (Nat.ltb_ge _ _)) by lia. eexists. split; [reflexivity|]. split_and!.
  - rewrite length_app, length_replicate. lia.
  - by rewrite numeral_value_zeros.
  - apply Forall_app. split; [apply Forall_replicate; reflexivity|]. eapply Forall_impl; [exact Hf|]. by intros c [? _].
Qed.

(** What is written for one code point, and how it is read. *)
Definition reads_as (out : list Z) (cp : Z) : Prop :=
  (∀ r, unescape (out ++ r) = cons cp <$> unescape r) ∧ Forall scalar out ∧
  Forall (λ c, is_printable c = Ret true) out.

Lemma ascii_all_printable l : Forall (λ c, 32 <= uchar c < 127) l →
  ascii_text l ∧ Forall (λ c, is_printable c = Ret true) (uchar <$> l).
Proof.
  intros H. split.
  - eapply Forall_impl; [exact H|]. cbn. lia.
  - apply Forall_fmap. eapply Forall_impl; [exact H|]. intros c Hc. by apply ascii_printable.
Qed.

Lemma reads_ascii l cp : Forall (λ c, 32 <= uchar c < 127) l →
  (∀ r, unescape ((uchar <$> l) ++ r) = cons cp <$> unescape r) →
  ∃ out, l = utf8_text out ∧ reads_as out cp.
Proof.
  intros Hl Hr. destruct (ascii_all_printable l Hl) as [Ha Hp]. exists (uchar <$> l).
  split; [by rewrite utf8_text_ascii|]. split; [done|]. split; [by apply ascii_scalar|done].
Qed.

Lemma write_codepoint_reads width prefix cp : 0 <= cp < 16 ^ Z.of_nat width →
  (width, prefix) ∈ [(2%nat, "x"%char); (4%nat, "u"%char); (8%nat, "U"%char)] →
  ∃ out, write_codepoint width prefix cp = Ret (utf8_text out) ∧ reads_as out cp.
Proof.
  intros Hcp Hw. assert ((1 <= width <= 8)%nat ∧ 32 <= uchar prefix < 127) as [Hr Hpr].
  { repeat (apply elem_of_cons in Hw as [[= -> ->]|Hw]; [split; [lia|by vm_compute]|]). by apply elem_of_nil in Hw. }
  destruct (write_codepoint_spec width prefix cp Hcp Hr) as (ds & -> & Hl & Hv & Hd).
  destruct (reads_ascii ("\"%char :: prefix :: ds) cp) as (out & Hout & Ho); [| |rewrite Hout; by eauto].
  - constructor; [by vm_compute|]. constructor; [done|]. eapply Forall_impl; [exact Hd|]. intros c Hc.
    pose proof (hex_char_ok c Hc). lia.
  - intros r. pose proof (hex_value_chars ds Hd) as Hh. rewrite Hv in Hh. cbn [fmap list_fmap app].
    apply elem_of_cons in Hw as [[= -> ->]|Hw].
    { destruct ds as [|? [|? [|? ?]]]; try discriminate Hl. cbn [fmap list_fmap app] in *. cbn [unescape].
      change (uchar "\") with 92. change (uchar "x") with 120. cbn [Z.eqb Pos.eqb negb orb]. by rewrite Hh. }
    apply elem_of_cons in Hw as [[= -> ->]|Hw].
    { destruct ds as [|? [|? [|? [|? [|? ?]]]]]; try discriminate Hl. cbn [fmap list_fmap app] in *. cbn [unescape].
      change (uchar "\") with 92. change (uchar "u") with 117. cbn [Z.eqb Pos.eqb negb orb]. by rewrite Hh. }
    apply list_elem_of_singleton in Hw as [= -> ->].
    do 8 (destruct ds as [|? ds]; [discriminate Hl|]). destruct ds; [|discriminate Hl].
    cbn [fmap list_fmap app] in *. cbn [unescape].
    change (uchar "\") with 92. change (uchar "U") with 85. cbn [Z.eqb Pos.eqb negb orb]. by rewrite Hh.
Qed.

Lemma plain_reads cp : scalar cp → escapes cp = false → reads_as [cp] cp.
Proof.
  intros Hs He. assert (needs_escape cp = Ret false) as Hn by (by rewrite needs_escape_escapes, He).
  unfold needs_escape in Hn. destruct (_ || _) eqn:E; [done|]. bool_hyps.
  destruct (is_printable_total cp) as [b Hb]. rewrite Hb in Hn. cbn in Hn. destruct b; [|done].
  split_and!; [|by constructor|by constructor].
  intros r. cbn [app unescape]. by rewrite !(proj2 (Z.eqb_neq _ _)) by done.
Qed.

Lemma escaped_reads cp : scalar cp → escapes cp = true →
  ∃ out, write_escaped_cp cp (utf8_encode cp) = Ret (utf8_text out) ∧ reads_as out cp.
Proof.
  intros [Hr _] He. unfold write_escaped_cp. repeat case_test; bool_hyps.
  - subst cp. destruct (reads_ascii (bs "\n") 10) as (out & Ho & ?); [by repeat constructor; vm_compute|done|]. rewrite Ho. eauto.
  - subst cp. destruct (reads_ascii (bs "\r") 13) as (out & Ho & ?); [by repeat constructor; vm_compute|done|]. rewrite Ho. eauto.
  - subst cp. destruct (reads_ascii (bs "\t") 9) as (out & Ho & ?); [by repeat constructor; vm_compute|done|]. rewrite Ho. eauto.
  - assert (cp = 34 ∨ cp = 39 ∨ cp = 92) as Hc by lia.
    destruct (reads_ascii ["\"%char; char_of cp] cp) as (out & Ho & ?); [| |rewrite Ho; eauto].
    + by destruct Hc as [->|[->| ->]]; repeat constructor; vm_compute.
    + by destruct Hc as [->|[->| ->]].
  - apply write_codepoint_reads; [cbn; lia|by_decide].
  - apply write_codepoint_reads; [cbn; lia|by_decide].
  - apply write_codepoint_reads; [cbn; lia|by_decide].
  - lia.
Qed.

(** ** The text *)

Definition reads_all (out cps : list Z) : Prop :=
  (∀ r, unescape (out ++ r) = app cps <$> unescape r) ∧ Forall scalar out ∧ Forall (λ c, is_printable c = Ret true) out.

Lemma reads_all_nil : reads_all [] [].
Proof. split_and!; [|constructor..]. intros r. cbn [app]. by destruct (unescape r). Qed.

Lemma reads_all_cons out cp o cps : reads_as out cp → reads_all o cps → reads_all (out ++ o) (cp :: cps).
Proof.
  intros (H1 & H2 & H3) (R1 & R2 & R3). split_and!; [|apply Forall_app; by split..].
  intros r. rewrite <-app_assoc, H1, R1. by destruct (unescape r).
Qed.

Lemma reads_all_plain cps : Forall scalar cps → Forall (λ cp, escapes cp = false) cps → reads_all cps cps.
Proof.
  intros Hs. induction Hs as [|cp cps Hc _ IH]; intros He; [apply reads_all_nil|].
  apply Forall_cons in He as [Hce He]. apply (reads_all_cons [cp]); [by apply plain_reads|by apply IH].
Qed.

Lemma reads_all_app a x b y : reads_all a x → reads_all b y → reads_all (a ++ b) (x ++ y).
Proof.
  intros (H1 & H2 & H3) (R1 & R2 & R3). split_and!; [|apply Forall_app; by split..].
  intros r. rewrite <-app_assoc, H1, R1. destruct (unescape r); cbn; [|done]. by rewrite app_assoc.
Qed.

Lemma escape_loop_text fuel : ∀ cps, Forall scalar cps → (length (utf8_text cps) < fuel)%nat →
  ∃ out, escape_loop fuel (utf8_text cps) = Ret (utf8_text out) ∧ reads_all out cps.
Proof.
  induction fuel as [|fuel IH]; intros cps Hs Hf; [lia|]. cbn [escape_loop].
  destruct (split_first escapes cps) as [He | (pre & cp & post & -> & He & Hc)].
  - rewrite find_escape_none by done. exists cps. split; [done|]. by apply reads_all_plain.
  - rewrite find_escape_some by done. cbn [mbind outcome_bind].
    apply Forall_app in Hs as [Hpre Hs]. apply Forall_cons in Hs as [Hcp Hpost].
    destruct (escaped_reads cp Hcp Hc) as (w & -> & Hw). cbn [mbind outcome_bind].
    pose proof (reads_all_plain pre Hpre He) as Rp. pose proof (utf8_encode_length cp) as Hl.
    rewrite utf8_text_app, utf8_text_cons, !length_app in Hf.
    destruct post as [|cp' post].
    { exists (pre ++ w). rewrite utf8_text_app. split; [done|]. apply reads_all_app; [done|].
      rewrite <-(app_nil_r w). apply reads_all_cons; [done|apply reads_all_nil]. }
    destruct (IH (cp' :: post) Hpost ltac:(lia)) as (o & Ho & Ro).
    assert (utf8_text (cp' :: post) ≠ []) as Hne.
    { rewrite utf8_text_cons. pose proof (utf8_encode_length cp'). destruct (utf8_encode cp'); cbn in *; [lia|done]. }
    exists (pre ++ w ++ o). rewrite !utf8_text_app. split; [|by apply reads_all_app, reads_all_cons].
    destruct (utf8_text (cp' :: post)); [done|]. by rewrite Ho.
Qed.

(** ** Strings of any bytes *)

Lemma find_escape_any s : ∃ before r, find_escape s = Ret (before, r) ∧
  match r with Some (cp, _, rest) => 0 <= cp ∧ (length rest < length s)%nat | None => True end.
Proof.
  unfold find_escape. rewrite for_each_visit. pose proof (code_points_ok s) as Hok. pose proof (code_points_concat s) as Hc.
  destruct (split_first (λ x : Z * bytes, escapes x.1) (code_points s)) as [He | (pre & [cp sv] & post & Heq & He & Hcp)].
  - rewrite <-(app_nil_r (code_points s)), visit_find by done. by eexists _, _.
  - rewrite Heq in Hok, Hc |- *. rewrite visit_find by done. cbn [visit find_callback]. cbn in Hcp.
    rewrite needs_escape_escapes, Hcp. cbn [mbind outcome_bind]. eexists _, _. split; [reflexivity|].
    apply Forall_app in Hok as [_ Hok]. apply Forall_cons in Hok as [[H0 H1] _]. cbn [fst snd] in *. split; [done|].
    rewrite length_drop. apply (f_equal length) in Hc. rewrite fmap_app, concat_app, length_app in Hc.
    cbn [fmap list_fmap concat snd] in Hc. rewrite length_app in Hc. lia.
Qed.

Lemma write_bytes_escaped_total sv : ∃ t, write_bytes_escaped sv = Ret t.
Proof.
  induction sv as [|c sv [t Ht]]; cbn [write_bytes_escaped]; [eauto|].
  destruct (write_codepoint_spec 2 "x" (Z.land (u32 (schar c)) 0xff)) as (ds & -> & _); [|lia|].
  { change 0xff with (Z.ones 8). rewrite Z.land_ones by lia. change (16 ^ Z.of_nat 2) with (2 ^ 8).
    apply Z.mod_pos_bound. lia. }
  rewrite Ht. cbn. eauto.
Qed.

Lemma write_escaped_cp_total cp sv : 0 <= cp → ∃ t, write_escaped_cp cp sv = Ret t.
Proof.
  intros H0. unfold write_escaped_cp. repeat case_test; bool_hyps; eauto; [..|apply write_bytes_escaped_total].
  1: destruct (write_codepoint_spec 2 "x" cp) as (ds & -> & _); [cbn; lia|lia|eauto].
  1: destruct (write_codepoint_spec 4 "u" cp) as (ds & -> & _); [cbn; lia|lia|eauto].
  1: destruct (write_codepoint_spec 8 "U" cp) as (ds & -> & _); [cbn; lia|lia|eauto].
Qed.

Lemma escape_loop_total fuel : ∀ s, (length s < fuel)%nat → ∃ t, escape_loop fuel s = Ret t.
Proof.
  induction fuel as [|fuel IH]; intros s Hf; [lia|]. cbn [escape_loop].
  destruct (find_escape_any s) as (before & r & -> & Hr). cbn [mbind outcome_bind].
  destruct r as [[[cp sv] rest]|]; [|eauto]. destruct Hr as [H0 Hl].
  destruct (write_escaped_cp_total cp sv H0) as [w ->]. cbn [mbind outcome_bind].
  destruct rest as [|c rest]; [eauto|]. destruct (IH (c :: rest) ltac:(lia)) as [t ->]. cbn. eauto.
Qed.

Lemma write_escaped_string_total s : ∃ t, write_escaped_string s = Ret t.
Proof. unfold write_escaped_string. destruct (escape_loop_total (S (length s)) s ltac:(lia)) as [t ->]. cbn. eauto. Qed.

Lemma write_escaped_char_total v : ∃ t, write_escaped_char v = Ret t.
Proof.
  unfold write_escaped_char. rewrite needs_escape_escapes. cbn [mbind outcome_bind].
  assert (0 <= u32 (schar v)) as H0 by (apply Z.mod_pos_bound; lia).
  destruct (write_escaped_cp_total (u32 (schar v)) [v] H0) as [t ->]. destruct (_ || _); cbn; eauto.
Qed.

(** * Properties *)

(** C21: the debug form of a string can be read back. For any Unicode scalar values in UTF-8, what is
    written is UTF-8 again, between quotes; all of it is printable, there is no quote inside that is not
    escaped, and reading its escape sequences gives the scalar values one for one. *)
Theorem escaped_string_roundtrip cps : Forall scalar cps →
  ∃ out, write_escaped_string (utf8_text cps) = Ret (utf8_text (34 :: out ++ [34])) ∧
    Forall scalar out ∧ Forall (λ c, is_printable c = Ret true) out ∧ unescape out = Some cps.
Proof.
  intros Hs. destruct (escape_loop_text (S (length (utf8_text cps))) cps Hs ltac:(lia)) as (out & Ho & Hr & Hsc & Hp).
  exists out. unfold write_escaped_string. rewrite Ho. split_and!; [|done|done|].
  - cbn [mbind outcome_bind]. by rewrite utf8_text_cons, utf8_text_app.
  - specialize (Hr []). rewrite app_nil_r in Hr. rewrite Hr. cbn. by rewrite app_nil_r.
Qed.

Lemma escaped_string_roundtrip_witness :
  let cps := [72; 105; 10; 34; 0x7f; 0xe9; 0x200b; 0x10ffff] in
  ∃ out, write_escaped_string (utf8_text cps) = Ret (utf8_text (34 :: out ++ [34])) ∧
    Forall scalar out ∧ Forall (λ c, is_printable c = Ret true) out ∧ unescape out = Some cps.
Proof. cbv zeta. apply escaped_string_roundtrip. repeat constructor; by_decide. Defined.

(** Of other bytes the form is ambiguous: a lone byte and the code point of its value. *)
Lemma escaped_bytes_ambiguous :
  write_escaped_string [char_of 0x85] = write_escaped_string (utf8_text [0x85]) ∧
  [char_of 0x85] ≠ utf8_text [0x85].
Proof. split; [vm_compute; reflexivity|done]. Qed.
