(* ===== verification/FmtWrite.v ===== *)
(** * Writers of the formatting library (src/cppboot/base/internal/fmt/format.h)

    The arguments (without the floating-point and 128-bit ones), padding, integers in the
    bases with their prefixes, digit grouping by a locale, characters, booleans, strings,
    C strings and pointers.  A writer yields what it appends to the output. *)

From S2P Require Import Prelude StdString FmtNum FmtSpec FmtUtf8 FmtEscape.

(** ** Arguments *)

Inductive format_arg : Type :=
  | AInt (v : Z) | AUInt (v : Z) | ALongLong (v : Z) | AULongLong (v : Z)
  | ABool (b : bool)
  | AChar (c : ascii)
  | ACString (p : Z) (s : bytes)        (* the pointer, null when 0, and what it points to *)
  | AString (s : bytes)
  | APointer (p : Z)
  (* the [format] of a handle: from the text of the specifiers and the parse context, what
     is left of both, and the output *)
  | ACustom (format : bytes → context → outcome (bytes * context * bytes)).

Definition type_of (a : format_arg) : arg_type :=
  match a with
  | AInt _ => int_type | AUInt _ => uint_type | ALongLong _ => long_long_type | AULongLong _ => ulong_long_type
  | ABool _ => bool_type | AChar _ => char_type
  | ACString _ _ => cstring_type | AString _ => string_type | APointer _ => pointer_type | ACustom _ => custom_type
  end.

(** The arguments of a call, and which of them have names. *)
Record format_args : Type := Args { args : list format_arg; named_args : list (bytes * Z) }.

Definition get (fa : format_args) (id : Z) : option format_arg :=
  if id <? 0 then None else args fa !! Z.to_nat id.

Definition get_id (fa : format_args) (name : bytes) : Z :=
  match list_find (λ n, n.1 = name) (named_args fa) with Some (_, (_, id)) => id | None => -1 end.

Definition get_named (fa : format_args) (name : bytes) : option format_arg :=
  let id := get_id fa name in if 0 <=? id then get fa id else None.

(** A locale, as far as integers use it: the sizes of the groups of digits, and what is
    between them. *)
Record locale : Type := Locale { numpunct_grouping : list Z; numpunct_thousands_sep : ascii }.
Definition classic_locale : locale := Locale [] ","%char.
(** [std::locale()], which nothing in the repository sets. *)
Definition global_locale : locale := classic_locale.

(** ** Padding *)

Fixpoint fill_n (n : nat) (f : bytes) : bytes := match n with O => [] | S n => f ++ fill_n n f end.

Definition align_index (a : align_t) : nat :=
  match a with align_none => 0 | align_left => 1 | align_right => 2 | align_center => 3 | align_numeric => 4 end.

(** The strings of shifts; the one for [align_numeric] is the terminating NUL. *)
Definition shifts_left : list Z := [0x1f; 0x1f; 0x00; 0x01; 0x00].
Definition shifts_right : list Z := [0x00; 0x1f; 0x00; 0x01; 0x00].

(** [write_padded<align>(out, specs, size, width, f)] *)
Definition write_padded (shifts : list Z) (specs : format_specs) (columns : Z) (f : outcome bytes) : outcome bytes :=
  _ ← cpp_assert (0 <=? width specs);
  let padding := if columns <? width specs then width specs - columns else 0 in
  let left_padding := Z.shiftr padding (nth (align_index (align specs)) shifts 0) in
  let right_padding := padding - left_padding in
  t ← f;
  Ret (fill_n (Z.to_nat left_padding) (fill specs) ++ t ++ fill_n (Z.to_nat right_padding) (fill specs)).

Definition write_bytes (s : bytes) (specs : format_specs) : outcome bytes :=
  write_padded shifts_left specs (len s) (Ret s).

(** ** Pointers *)

Definition ptr_text (value : Z) : outcome (Z * outcome bytes) :=
  num_digits ← count_digits_base W64 4 value;
  Ret (num_digits + 2, ds ← format_uint 4 value num_digits false; Ret (bs "0x" ++ ds)).

Definition write_ptr (value : Z) (specs : format_specs) : outcome bytes :=
  '(size, text) ← ptr_text value; write_padded shifts_right specs size text.

(** ** Integers *)

(** The characters of a prefix are its three lower bytes, its size is the fourth. *)
Fixpoint prefix_loop (fuel : nat) (p : Z) : bytes :=
  match fuel with
  | O => []
  | S fuel => if p =? 0 then [] else char_of (Z.land p 0xff) :: prefix_loop fuel (Z.shiftr p 8)
  end.
Definition prefix_chars (prefix : Z) : bytes := prefix_loop 3 (Z.land prefix 0xffffff).
Definition prefix_size (prefix : Z) : Z := Z.shiftr prefix 24.

(** [write_int_data]: the size, and the zeros. *)
Definition write_int_data (num_digits prefix : Z) (specs : format_specs) : outcome (Z * Z) :=
  let size := prefix_size prefix + num_digits in
  if bool_decide (align specs = align_numeric) then
    _ ← cpp_assert (0 <=? width specs);
    Ret (if size <? width specs then (width specs, width specs - size) else (size, 0))
  else if num_digits <? precision specs then Ret (prefix_size prefix + precision specs, precision specs - num_digits)
  else Ret (size, 0).

Definition write_int_digits (num_digits prefix : Z) (specs : format_specs) (write_digits : outcome bytes) : outcome bytes :=
  if Z.lor (width specs) (precision specs + 1) =? 0 then
    ds ← write_digits; Ret (prefix_chars prefix ++ ds)
  else
    '(size, padding) ← write_int_data num_digits prefix specs;
    write_padded shifts_right specs size
      (ds ← write_digits; Ret (prefix_chars prefix ++ replicate (Z.to_nat padding) "0"%char ++ ds)).

Definition prefix_append (prefix value : Z) : Z :=
  let prefix' := Z.lor prefix (if negb (prefix =? 0) then u32 (Z.shiftl value 8) else value) in
  u32 (prefix' + Z.shiftl (1 + (if 0xff <? value then 1 else 0)) 24).

Definition sign_index (s : sign_t) : nat :=
  match s with sign_none => 0 | sign_minus => 1 | sign_plus => 2 | sign_space => 3 end.
Definition sign_prefixes : list Z := [0; 0; Z.lor 0x1000000 (uchar "+"); Z.lor 0x1000000 (uchar " ")].

Definition u_of (w : uint_width) (z : Z) : Z := match w with W32 => u32 z | W64 => u64 z end.

Definition make_write_int_arg (w : uint_width) (value : Z) (s : sign_t) : Z * Z :=
  let abs_value := u_of w value in
  if value <? 0 then (u_of w (0 - abs_value), Z.lor 0x01000000 (uchar "-"))
  else (abs_value, nth (sign_index s) sign_prefixes 0).

Definition check_debug (specs : format_specs) : bool := bool_decide (type specs = debug).

Definition write_char (value : ascii) (specs : format_specs) : outcome bytes :=
  write_padded shifts_left specs 1 (if check_debug specs then write_escaped_char value else Ret [value]).

(** [write_int(out, arg, specs, loc)]: by the presentation. *)
Definition write_int (w : uint_width) (abs_value prefix : Z) (specs : format_specs) : outcome bytes :=
  match type specs with
  | pres_none | dec =>
      let num_digits := count_digits w abs_value in
      write_int_digits num_digits prefix specs (format_decimal w abs_value num_digits)
  | hex_lower | hex_upper =>
      let upper := bool_decide (type specs = hex_upper) in
      let prefix := if alt specs
                    then prefix_append prefix (Z.lor (Z.shiftl (uchar (if upper then "X" else "x")) 8) (uchar "0"))
                    else prefix in
      num_digits ← count_digits_base w 4 abs_value;
      write_int_digits num_digits prefix specs (format_uint 4 abs_value num_digits upper)
  | bin_lower | bin_upper =>
      let upper := bool_decide (type specs = bin_upper) in
      let prefix := if alt specs
                    then prefix_append prefix (Z.lor (Z.shiftl (uchar (if upper then "B" else "b")) 8) (uchar "0"))
                    else prefix in
      num_digits ← count_digits_base w 1 abs_value;
      write_int_digits num_digits prefix specs (format_uint 1 abs_value num_digits false)
  | oct =>
      num_digits ← count_digits_base w 3 abs_value;
      (* the prefix counts as a digit *)
      let prefix := if alt specs && (precision specs <=? num_digits) && negb (abs_value =? 0)
                    then prefix_append prefix (uchar "0") else prefix in
      write_int_digits num_digits prefix specs (format_uint 3 abs_value num_digits false)
  | chr => write_char (char_of abs_value) specs
  | _ => format_error
  end.

(** ** Grouped digits

    [digit_grouping]: the groups that are left with the position of the last separator. *)
Record digit_grouping : Type := Grouping { grouping : list Z; thousands_sep : bytes }.

(** [format_facet(loc)] *)
Definition facet (loc : locale) : digit_grouping :=
  Grouping (numpunct_grouping loc) (match numpunct_grouping loc with [] => [] | _ => [numpunct_thousands_sep loc] end).

Definition next (g : digit_grouping) (st : list Z * Z) : outcome (Z * (list Z * Z)) :=
  let '(group, pos) := st in
  match thousands_sep g with
  | [] => Ret (INT_MAX, st)
  | _ =>
      match group with
      | [] => match last (grouping g) with
              | Some b => Ret (pos + b, (group, pos + b))
              | None => Undef
              end
      | b :: group => if (b <=? 0) || (b =? 127) then Ret (INT_MAX, st) else Ret (pos + b, (group, pos + b))
      end
  end.

(** The positions before [num_digits], counted from the right. *)
Fixpoint separators (fuel : nat) (g : digit_grouping) (st : list Z * Z) (num_digits : Z) : outcome (list Z) :=
  match fuel with
  | O => OutOfFuel
  | S fuel =>
      '(i, st) ← next g st;
      if (i =? 0) || (num_digits <=? i) then Ret []
      else l ← separators fuel g st num_digits; Ret (i :: l)
  end.

Fixpoint count_loop (fuel : nat) (g : digit_grouping) (st : list Z * Z) (num_digits : Z) : outcome Z :=
  match fuel with
  | O => OutOfFuel
  | S fuel =>
      '(i, st) ← next g st;
      if num_digits <=? i then Ret 0 else n ← count_loop fuel g st num_digits; Ret (n + 1)
  end.
Definition count_separators (g : digit_grouping) (num_digits : Z) : outcome Z :=
  count_loop (S (Z.to_nat num_digits)) g (grouping g, 0) num_digits.

(** The digits; the separator to come is the first of [seps]. *)
Fixpoint apply_loop (sep : bytes) (seps : list Z) (digits : bytes) : outcome bytes :=
  match digits with
  | [] => Ret []
  | d :: digits' =>
      match seps with
      | [] => Undef
      | s :: seps' =>
          if len digits =? s then r ← apply_loop sep seps' digits'; Ret (sep ++ d :: r)
          else r ← apply_loop sep seps digits'; Ret (d :: r)
      end
  end.
Definition apply (g : digit_grouping) (digits : bytes) : outcome bytes :=
  l ← separators (S (length digits)) g (grouping g, 0) (len digits);
  apply_loop (thousands_sep g) (reverse (0 :: l)) digits.

Definition write_int_grouped (value prefix : Z) (specs : format_specs) (g : digit_grouping) : outcome bytes :=
  let num_digits := count_digits W64 value in
  digits ← format_decimal W64 value num_digits;
  seps ← count_separators g num_digits;
  let size := (if negb (prefix =? 0) then 1 else 0) + num_digits + seps in
  write_padded shifts_right specs size
    (r ← apply g digits; Ret ((if negb (prefix =? 0) then [char_of prefix] else []) ++ r)).

(** [write_loc] of an integer, through [loc_writer]. *)
Definition write_loc (w : uint_width) (value : Z) (specs : format_specs) (loc : locale) : outcome bytes :=
  let '(abs_value, prefix) := make_write_int_arg w value (sign specs) in
  write_int_grouped abs_value prefix specs (facet loc).

(** [write(out, value, specs, loc)] of an integer *)
Definition write_integer (w : uint_width) (value : Z) (specs : format_specs) (loc : locale) : outcome bytes :=
  if localized specs then write_loc w value specs loc
  else let '(abs_value, prefix) := make_write_int_arg w value (sign specs) in write_int w abs_value prefix specs.

(** ** The other types *)

Definition write_char_arg (c : ascii) (specs : format_specs) (loc : locale) : outcome bytes :=
  is_char ← check_char_specs specs;
  if (is_char : bool) then write_char c specs else write_integer W32 (uchar c) specs loc.

Definition write_string (s : bytes) (specs : format_specs) : outcome bytes :=
  let size := if (0 <=? precision specs) && (precision specs <? len s)
              then code_point_index s (precision specs) else len s in
  let data := take (Z.to_nat size) s in
  columns ← (if width specs =? 0 then Ret 0
             else if check_debug specs then t ← write_escaped_string s; Ret (len t)
             else compute_width data);
  write_padded shifts_left specs columns (if check_debug specs then write_escaped_string s else Ret data).

(** [strlen] of a null pointer is undefined. *)
Definition write_cstring (p : Z) (s : bytes) (specs : format_specs) : outcome bytes :=
  if negb (bool_decide (type specs = pres_pointer)) then if p =? 0 then Undef else write_string s specs
  else write_ptr p specs.

(** The locale of an integer in place of a [bool] is the global one. *)
Definition write_bool (b : bool) (specs : format_specs) : outcome bytes :=
  if negb (bool_decide (type specs = pres_none)) && negb (bool_decide (type specs = pres_string))
  then write_integer W32 (if b then 1 else 0) specs global_locale
  else write_bytes (if b then bs "true" else bs "false") specs.

(** ** Without specifiers *)

Definition write_decimal (w : uint_width) (value : Z) : outcome bytes :=
  let abs_value := u_of w value in
  let negative := value <? 0 in
  let abs_value := if negative then u_of w (u_of w (Z.lnot abs_value) + 1) else abs_value in
  ds ← format_decimal w abs_value (count_digits w abs_value);
  Ret ((if negative then ["-"%char] else []) ++ ds).

(** [default_arg_formatter] *)
Definition default_format (a : format_arg) (loc : locale) : outcome bytes :=
  match a with
  | AInt v | AUInt v => write_decimal W32 v
  | ALongLong v | AULongLong v => write_decimal W64 v
  | ABool b => write_bool b default_specs
  | AChar c => Ret [c]
  | ACString p s => if p =? 0 then format_error else Ret s
  | AString s => Ret s
  | APointer p => write_ptr p default_specs
  | ACustom format => '(_, _, out) ← format [] 0; Ret out
  end.

(** [arg_formatter] *)
Definition format_with (a : format_arg) (specs : format_specs) (loc : locale) : outcome bytes :=
  match a with
  | AInt v | AUInt v => write_integer W32 v specs loc
  | ALongLong v | AULongLong v => write_integer W64 v specs loc
  | ABool b => write_bool b specs
  | AChar c => write_char_arg c specs loc
  | ACString p s => write_cstring p s specs
  | AString s => write_string s specs
  | APointer p => write_ptr p specs
  | ACustom _ => Ret []
  end.

(** ** Dynamic widths and precisions *)

(** [width_checker] and [precision_checker] *)
Definition check_dynamic (a : format_arg) : outcome Z :=
  match a with
  | AInt v | AUInt v | ALongLong v | AULongLong v => if v <? 0 then format_error else Ret v
  | _ => format_error
  end.

Definition get_dynamic_spec (a : option format_arg) : outcome Z :=
  match a with
  | None => format_error
  | Some a => value ← check_dynamic a; if INT_MAX <? value then format_error else Ret value
  end.

Definition handle_dynamic_spec (value : Z) (ref : arg_ref) (fa : format_args) : outcome Z :=
  match ref with
  | RefNone => Ret value
  | RefIndex i => get_dynamic_spec (get fa i)
  | RefName n => get_dynamic_spec (get_named fa n)
  end.

(** ** What is written

    The padding of a text of so many columns; [right] is the alignment that numbers have
    by themselves. *)
Definition padding (specs : format_specs) (columns : Z) : Z := Z.max 0 (width specs - columns).
Definition left_padding (right : bool) (specs : format_specs) (columns : Z) : Z :=
  let p := padding specs columns in
  match align specs with
  | align_none => if right then p else 0
  | align_left => 0
  | align_right | align_numeric => p
  | align_center => p / 2
  end.
Definition pad (right : bool) (specs : format_specs) (columns : Z) (t : bytes) : bytes :=
  let l := left_padding right specs columns in
  fill_n (Z.to_nat l) (fill specs) ++ t ++ fill_n (Z.to_nat (padding specs columns - l)) (fill specs).

(** Sign, base and zeros of an integer. *)
Definition sign_text (v : Z) (s : sign_t) : bytes :=
  if v <? 0 then bs "-" else match s with sign_plus => bs "+" | sign_space => bs " " | _ => [] end.

Definition base_text (specs : format_specs) (v digits : Z) : bytes :=
  if alt specs then
    match type specs with
    | hex_lower => bs "0x" | hex_upper => bs "0X" | bin_lower => bs "0b" | bin_upper => bs "0B"
    | oct => if (precision specs <=? digits) && negb (v =? 0) then bs "0" else []
    | _ => []
    end
  else [].

Definition zeros (specs : format_specs) (head digits : Z) : Z :=
  if bool_decide (align specs = align_numeric) then Z.max 0 (width specs - (head + digits))
  else Z.max 0 (precision specs - digits).

(** The text of an integer: what is before the digits, and the digits. *)
Definition int_text (specs : format_specs) (head ds : bytes) : bytes :=
  let z := zeros specs (len head) (len ds) in
  pad true specs (len head + z + len ds) (head ++ replicate (Z.to_nat z) "0"%char ++ ds).

(** The digits of a number in the base of a presentation. *)
Definition digits_of (t : presentation_type) (n : Z) (ds : bytes) : Prop :=
  match t with
  | pres_none | dec => ds = utoa n
  | hex_lower => is_numeral 16 false n ds
  | hex_upper => is_numeral 16 true n ds
  | bin_lower | bin_upper => is_numeral 2 false n ds
  | oct => is_numeral 8 false n ds
  | _ => False
  end.
Definition int_presentation (t : presentation_type) : Prop :=
  t ∈ [pres_none; dec; hex_lower; hex_upper; bin_lower; bin_upper; oct].

(** Values of the signed and the unsigned type of a width. *)
Definition int_value (w : uint_width) (v : Z) : Prop := - (uint_max w + 1) / 2 <= v <= uint_max w.

(** * Lemmas *)

(** ** Padding *)

Lemma write_padded_spec (right : bool) specs columns t : 0 <= width specs <= INT_MAX → 0 <= columns →
  write_padded (if right then shifts_right else shifts_left) specs columns (Ret t) = Ret (pad right specs columns t).
Proof.
  intros Hw Hc. unfold write_padded. rewrite (proj2 (Z.leb_le _ _)) by lia. cbn [cpp_assert mbind outcome_bind].
  assert ((if columns <? width specs then width specs - columns else 0) = padding specs columns) as ->.
  { unfold padding. destruct (columns <? width specs) eqn:E; bool_hyps; lia. }
  assert (0 <= padding specs columns < 2 ^ 31) as Hp by (unfold padding, INT_MAX in *; lia).
  assert (Z.shiftr (padding specs columns) (nth (align_index (align specs)) (if right then shifts_right else shifts_left) 0) =
    left_padding right specs columns) as ->; [|done].
  assert (Z.shiftr (padding specs columns) 0x1f = 0) as H31 by (rewrite Z.shiftr_div_pow2, Z.div_small by lia; done).
  assert (Z.shiftr (padding specs columns) 1 = padding specs columns / 2) as H1 by (by rewrite Z.shiftr_div_pow2 by lia).
  unfold left_padding. destruct (align specs), right; cbn [align_index nth shifts_left shifts_right];
    rewrite ?Z.shiftr_0_r; done.
Qed.

Lemma pad_nothing right specs columns t : width specs <= columns → pad right specs columns t = t.
Proof.
  intros H. unfold pad, left_padding. assert (padding specs columns = 0) as -> by (unfold padding; lia).
  assert (∀ b, (match align specs with align_none => if b : bool then 0 else 0 | align_left => 0
    | align_right | align_numeric => 0 | align_center => 0 / 2 end) = 0) as -> by (intros []; by destruct (align specs)).
  cbn [Z.to_nat fill_n Z.sub Z.opp Z.add app]. by rewrite app_nil_r.
Qed.

(** ** Integers *)

Lemma write_int_digits_spec n prefix specs ds : specs_ok specs → 0 <= n → 0 <= prefix_size prefix → len ds = n →
  let z := zeros specs (prefix_size prefix) n in
  write_int_digits n prefix specs (Ret ds) =
    Ret (pad true specs (prefix_size prefix + z + n) (prefix_chars prefix ++ replicate (Z.to_nat z) "0"%char ++ ds)).
Proof.
  intros [Hw Hp] Hn Hs Hl. cbv zeta. unfold write_int_digits.
  destruct (Z.lor (width specs) (precision specs + 1) =? 0) eqn:E; bool_hyps.
  { apply Z.lor_eq_0_iff in E as [E1 E2]. assert (zeros specs (prefix_size prefix) n = 0) as ->.
    { unfold zeros. rewrite E1. case_bool_decide; lia. }
    cbn [mbind outcome_bind]. by rewrite pad_nothing by lia. }
  assert (write_int_data n prefix specs = Ret (prefix_size prefix + zeros specs (prefix_size prefix) n + n,
    zeros specs (prefix_size prefix) n)) as ->.
  { unfold write_int_data, zeros. case_bool_decide.
    - rewrite (proj2 (Z.leb_le _ _)) by lia. cbn [cpp_assert mbind outcome_bind].
      destruct (_ <? width specs) eqn:E1; bool_hyps; do 2 f_equal; lia.
    - destruct (n <? precision specs) eqn:E1; bool_hyps; do 2 f_equal; lia. }
  cbn [mbind outcome_bind]. apply (write_padded_spec true); [done|]. unfold zeros. case_bool_decide; lia.
Qed.

(** The prefixes: their characters and sizes. *)
Definition sign_of_prefix (v : Z) (s : sign_t) : Z :=
  if v <? 0 then Z.lor 0x01000000 (uchar "-") else nth (sign_index s) sign_prefixes 0.

Lemma make_write_int_arg_spec w v s : int_value w v →
  make_write_int_arg w v s = (Z.abs v, sign_of_prefix v s) ∧ 0 <= Z.abs v <= uint_max w.
Proof.
  intros Hv. unfold make_write_int_arg, sign_of_prefix. destruct w; unfold int_value, u_of, uint_max in *.
  - change (- (2 ^ 32 - 1 + 1) / 2) with (- 2 ^ 31) in Hv. destruct (v <? 0) eqn:E; bool_hyps.
    + assert (u32 v = v + 2 ^ 32) as -> by (unfold u32; symmetry; apply (Z.mod_unique_pos _ _ (-1)); lia).
      split; [|lia]. f_equal. unfold u32. symmetry. apply (Z.mod_unique_pos _ _ (-1)); lia.
    + rewrite u32_small by lia. split; [f_equal; lia|lia].
  - change (- (2 ^ 64 - 1 + 1) / 2) with (- 2 ^ 63) in Hv. destruct (v <? 0) eqn:E; bool_hyps.
    + assert (u64 v = v + 2 ^ 64) as -> by (unfold u64; symmetry; apply (Z.mod_unique_pos _ _ (-1)); lia).
      split; [|lia]. f_equal. unfold u64. symmetry. apply (Z.mod_unique_pos _ _ (-1)); lia.
    + rewrite u64_small by lia. split; [f_equal; lia|lia].
Qed.

Definition prefix_is (prefix : Z) (t : bytes) : Prop := prefix_chars prefix = t ∧ prefix_size prefix = len t.

Lemma sign_prefix v s : prefix_is (sign_of_prefix v s) (sign_text v s).
Proof. unfold sign_of_prefix, sign_text. destruct (v <? 0); [done|]. by destruct s. Qed.

Definition base_prefixes : list (Z * bytes) :=
  [(Z.lor (Z.shiftl (uchar "x") 8) (uchar "0"), bs "0x"); (Z.lor (Z.shiftl (uchar "X") 8) (uchar "0"), bs "0X");
   (Z.lor (Z.shiftl (uchar "b") 8) (uchar "0"), bs "0b"); (Z.lor (Z.shiftl (uchar "B") 8) (uchar "0"), bs "0B");
   (uchar "0", bs "0")].

(** With the prefix of a base, if it is asked for. *)
Lemma append_prefix v s (asked : bool) value t : (value, t) ∈ base_prefixes →
  prefix_is (if asked then prefix_append (sign_of_prefix v s) value else sign_of_prefix v s)
    (sign_text v s ++ (if asked then t else [])).
Proof.
  intros Ht. destruct asked; [|rewrite app_nil_r; apply sign_prefix]. unfold sign_of_prefix, sign_text, base_prefixes in *.
  repeat (apply elem_of_cons in Ht as [[= -> ->]|Ht]; [destruct (v <? 0); [done|]; by destruct s|]).
  by apply elem_of_nil in Ht.
Qed.

(** A presentation in a base of a power of two; the prefix may depend on the digits. *)
Lemma write_based w bits upper v s (asked : Z → bool) value t specs : bits ∈ [1; 3; 4] → 0 <= Z.abs v <= uint_max w →
  specs_ok specs → (value, t) ∈ base_prefixes →
  ∃ ds, is_numeral (2 ^ bits) upper (Z.abs v) ds ∧
    (num_digits ← count_digits_base w bits (Z.abs v);
     write_int_digits num_digits
       (if asked num_digits then prefix_append (sign_of_prefix v s) value else sign_of_prefix v s) specs
       (format_uint bits (Z.abs v) num_digits upper)) =
    Ret (int_text specs (sign_text v s ++ (if asked (len ds) then t else [])) ds).
Proof.
  intros Hb Hn Hok Ht. destruct (format_uint_spec w bits (Z.abs v) upper Hb Hn) as (k & ds & -> & Hf & Hnum & Hl).
  exists ds. split; [done|]. cbn [mbind outcome_bind]. rewrite Hf.
  destruct (append_prefix v s (asked k) value t Ht) as [Hc Hs].
  rewrite write_int_digits_spec by (done || lia). subst k. unfold int_text. by rewrite Hc, Hs.
Qed.

Lemma write_decimal_digits w v s specs : 0 <= Z.abs v <= uint_max w → specs_ok specs →
  write_int_digits (count_digits w (Z.abs v)) (sign_of_prefix v s) specs
    (format_decimal w (Z.abs v) (count_digits w (Z.abs v))) =
  Ret (int_text specs (sign_text v s) (utoa (Z.abs v))).
Proof.
  intros Hn Hok. destruct (sign_prefix v s) as [Hc Hs]. rewrite format_decimal_utoa, count_digits_exact by done. unfold ndig.
  rewrite write_int_digits_spec by (done || lia). unfold int_text. by rewrite Hc, Hs.
Qed.

(** ** Strings *)

Lemma index_cont s : ∀ r i num n, Forall (λ c, Z.land (uchar c) 0xc0 = 0x80) s →
  index_loop (s ++ r) i num n = index_loop r (i + len s) num n.
Proof.
  induction s as [|c s IH]; intros r i num n H; cbn [app index_loop]; [f_equal; cbn; lia|].
  apply Forall_cons in H as [-> H]. cbn [Z.eqb Pos.eqb negb]. rewrite IH by done. f_equal. len_lia.
Qed.

Lemma encode_lead cp : scalar cp → ∃ c t, utf8_encode cp = c :: t ∧ Z.land (uchar c) 0xc0 ≠ 0x80 ∧
  Forall (λ c, Z.land (uchar c) 0xc0 = 0x80) t.
Proof.
  intros [Hr _]. assert (∀ c, uchar c < 128 ∨ 192 <= uchar c → Z.land (uchar c) 0xc0 ≠ 0x80) as Hlead.
  { intros c Hc E. destruct (top_bits c) as (H1 & _ & _ & _). rewrite E in H1. change (Z.shiftr 0x80 2) with 32 in H1.
    pose proof (uchar_range c). Z.div_mod_to_equations. lia. }
  assert (∀ d, 0 <= d < 64 → Z.land (uchar (char_of (0x80 + d))) 0xc0 = 0x80) as Htail.
  { intros d Hd. apply (bool_decide_eq_true _). assert (∀ d, 0 <= d < Z.of_nat 64 →
      (Z.land (uchar (char_of (0x80 + d))) 0xc0 =? 0x80) = true) as H by (apply rows_ok; vm_compute; reflexivity).
    apply bool_decide_eq_true. by apply Z.eqb_eq, H. }
  pose proof (Z.mod_pos_bound cp 64). pose proof (Z.mod_pos_bound (cp / 64) 64). pose proof (Z.mod_pos_bound (cp / 4096) 64).
  unfold utf8_encode. repeat case_test; bool_hyps; eexists _, _; (split; [reflexivity|]); (split; [apply Hlead|]);
    [rewrite uchar_char_of, Z.mod_small by lia; lia|constructor|..].
  1,3,5: rewrite uchar_char_of, Z.mod_small; Z.div_mod_to_equations; lia.
  all: repeat constructor; apply Htail; lia.
Qed.

Lemma index_text cps : ∀ i num n, Forall scalar cps → num <= n →
  index_loop (utf8_text cps) i num n =
    if n - num <? len cps then Some (i + len (utf8_text (take (Z.to_nat (n - num)) cps))) else None.
Proof.
  induction cps as [|cp cps IH]; intros i num n Hs Hn.
  { cbn. rewrite (proj2 (Z.ltb_ge _ _)) by lia. done. }
  apply Forall_cons in Hs as [Hc Hs]. rewrite utf8_text_cons. destruct (encode_lead cp Hc) as (c & t & He & Hl & Ht).
  assert (len (utf8_encode cp) = 1 + len t) as Hlen by (rewrite He; len_lia).
  rewrite He. cbn [app index_loop]. rewrite (proj2 (Z.eqb_neq _ _)) by done. cbn [negb].
  destruct (n <? num + 1) eqn:E; bool_hyps.
  - replace (n - num) with 0 by lia. cbn [Z.to_nat take]. rewrite (proj2 (Z.ltb_lt _ _)) by len_lia.
    change (Z.to_nat 0) with 0%nat. f_equal. cbn. lia.
  - rewrite index_cont by done. rewrite IH by (done || lia).
    replace (Z.to_nat (n - num)) with (S (Z.to_nat (n - (num + 1)))) by lia. cbn [take]. rewrite utf8_text_cons.
    replace (n - num <? len (cp :: cps)) with (n - (num + 1) <? len cps) by (autorewrite with len; lia).
    destruct (_ <? len cps); [|done]. f_equal. rewrite len_app. lia.
Qed.

Lemma index_code_point cps n : Forall scalar cps → 0 <= n →
  code_point_index (utf8_text cps) n = len (utf8_text (take (Z.to_nat n) cps)).
Proof.
  intros Hs Hn. unfold code_point_index. rewrite index_text by done. rewrite Z.sub_0_r.
  destruct (n <? len cps) eqn:E; bool_hyps; cbn [default]; [done|]. by rewrite take_ge by lia.
Qed.

Lemma text_length cps : (length cps <= length (utf8_text cps))%nat.
Proof.
  induction cps as [|cp cps IH]; [done|]. rewrite utf8_text_cons, length_app. pose proof (utf8_encode_length cp). cbn. lia.
Qed.

Lemma take_text n cps : take (length (utf8_text (take n cps))) (utf8_text cps) = utf8_text (take n cps).
Proof. rewrite <-(take_drop n cps) at 2. by rewrite utf8_text_app, take_app_length. Qed.

Definition columns (cps : list Z) : Z := foldr (λ cp a, code_point_width cp + a) 0 cps.

Lemma code_point_width_pos cp : 1 <= code_point_width cp <= 2.
Proof. unfold code_point_width. destruct (_ && _); cbn; lia. Qed.

Lemma columns_pos cps : 0 <= columns cps.
Proof. induction cps as [|cp cps IH]; cbn; [done|]. pose proof (code_point_width_pos cp). unfold columns in IH. lia. Qed.

Lemma compute_width_text cps : Forall scalar cps → compute_width (utf8_text cps) = Ret (columns cps).
Proof.
  intros Hs. unfold compute_width. rewrite for_each_visit, code_points_text by done. f_equal. clear Hs.
  assert (∀ k, visit (λ cp _ count, (count + code_point_width cp, true)) ((λ cp, (cp, utf8_encode cp)) <$> cps) k = k + columns cps) as ->; [|lia].
  induction cps as [|cp cps IH]; intros k; cbn; [lia|]. rewrite IH. unfold columns. cbn. lia.
Qed.

Lemma write_string_text cps specs : Forall scalar cps → specs_ok specs → type specs ≠ debug →
  let shown := if 0 <=? precision specs then take (Z.to_nat (precision specs)) cps else cps in
  write_string (utf8_text cps) specs = Ret (pad false specs (columns shown) (utf8_text shown)).
Proof.
  intros Hs [Hw Hp] Ht shown.
  assert (Forall scalar shown) as Hshown by (subst shown; case_match; [by apply Forall_take|done]).
  unfold write_string, check_debug. rewrite bool_decide_false by done.
  assert (take (Z.to_nat (if (0 <=? precision specs) && (precision specs <? len (utf8_text cps))
    then code_point_index (utf8_text cps) (precision specs) else len (utf8_text cps))) (utf8_text cps) = utf8_text shown) as ->.
  { subst shown. pose proof (text_length cps). destruct (0 <=? precision specs) eqn:E1; bool_hyps; cbn [andb].
    - destruct (precision specs <? _) eqn:E2; bool_hyps.
      + rewrite index_code_point, Nat2Z.id by done. apply take_text.
      + rewrite Nat2Z.id, !take_ge by lia. done.
    - rewrite Nat2Z.id. by rewrite take_ge by lia. }
  destruct (width specs =? 0) eqn:E; bool_hyps; cbn [mbind outcome_bind].
  - rewrite (write_padded_spec false) by lia. pose proof (columns_pos shown). by rewrite !pad_nothing by lia.
  - rewrite compute_width_text by done. cbn [mbind outcome_bind]. apply (write_padded_spec false); [done|apply columns_pos].
Qed.

(** ** Grouping *)

(** There is a separator only with groups. *)
Definition grouping_ok (g : digit_grouping) : Prop := grouping g = [] → thousands_sep g = [].

Lemma facet_ok loc : grouping_ok (facet loc).
Proof. unfold grouping_ok, facet. cbn. by intros ->. Qed.

(** Where the groups are left: behind all of them the last one is positive. *)
Definition group_state (g : digit_grouping) (st : list Z * Z) : Prop :=
  (st.1 `suffix_of` grouping g) ∧ 0 <= st.2 ∧
  (thousands_sep g ≠ [] → st.1 = [] → ∃ b, last (grouping g) = Some b ∧ 0 < b).

Lemma next_spec g st : grouping_ok g → group_state g st →
  ∃ i st', next g st = Ret (i, st') ∧ group_state g st' ∧ 0 < i ∧ (i = INT_MAX ∨ i = st'.2 ∧ st.2 < i).
Proof.
  intros Hg (Hsuf & Hpos & Hlast). destruct st as [group pos]. cbn [fst snd] in *. unfold next.
  destruct (thousands_sep g) as [|s ss] eqn:Es.
  { eexists _, _. split; [reflexivity|]. rewrite <-Es in *. split; [done|]. unfold INT_MAX. split; [lia|by left]. }
  destruct group as [|b group].
  - destruct (Hlast ltac:(done) eq_refl) as (b & Hb & Hp). rewrite Hb. eexists _, _. split; [reflexivity|].
    split; [|cbn; lia]. split_and!; cbn; [done|lia|]. intros _ _. by exists b.
  - destruct (_ || _) eqn:E; [eexists _, _; split; [reflexivity|]; split; [by rewrite <-Es in Hlast|]; unfold INT_MAX; split; [lia|by left]|].
    bool_hyps. eexists _, _. split; [reflexivity|]. split; [|cbn; lia]. split_and!; cbn.
    + destruct Hsuf as [k Hk]. exists (k ++ [b]). by rewrite <-app_assoc.
    + lia.
    + intros _ ->. destruct Hsuf as [k Hk]. exists b. rewrite Hk, last_snoc. split; [done|lia].
Qed.

Lemma start_state g : grouping_ok g → group_state g (grouping g, 0).
Proof. intros Hs. split_and!; cbn; [done|lia|]. intros Hne Hg. by rewrite Hs in Hne. Qed.

(** The positions grow from the last separator to the number of digits. *)
Fixpoint increasing (lo hi : Z) (l : list Z) : Prop :=
  match l with [] => True | x :: l => lo < x < hi ∧ increasing x hi l end.

Lemma separators_spec g n : grouping_ok g → n < INT_MAX → ∀ fuel st, group_state g st → n - st.2 < Z.of_nat fuel →
  (0 < fuel)%nat →
  ∃ l, separators fuel g st n = Ret l ∧ count_loop fuel g st n = Ret (len l) ∧ increasing st.2 n l.
Proof.
  intros Hg Hn. induction fuel as [|fuel IH]; intros st Hst Hf H0; [lia|]. cbn [separators count_loop].
  destruct (next_spec g st Hg Hst) as (i & st' & -> & Hst' & Hi & Hc). cbn [mbind outcome_bind].
  rewrite (proj2 (Z.eqb_neq i 0)) by lia. cbn [orb]. destruct (n <=? i) eqn:E; bool_hyps; [by eexists|].
  destruct Hc as [->|[-> Hlt]]; [lia|]. 
  destruct (IH st' Hst' ltac:(lia) ltac:(lia)) as (l & -> & -> & Hl). cbn [mbind outcome_bind].
  eexists. split; [reflexivity|]. split; [f_equal; len_lia|]. cbn. split; [lia|done].
Qed.

(** Writing the digits puts in one separator for every position, and nothing else. *)
Fixpoint decreasing (hi : Z) (l : list Z) : Prop :=
  match l with [] => False | x :: l => x < hi ∧ (l = [] → x = 0) ∧ (l ≠ [] → 0 < x ∧ decreasing x l) end.

Lemma apply_loop_spec sep digits : ∀ seps, decreasing (len digits + 1) seps →
  ∃ out, apply_loop sep seps digits = Ret out ∧ len out = len digits + (len seps - 1) * len sep ∧
    (∀ c, (c ∉ sep) → (c ∈ out) → (c ∈ digits)) ∧
    (∀ P : ascii → bool, Forall (λ c, P c = true) digits → Forall (λ c, P c = false) sep → List.filter P out = digits).
Proof.
  induction digits as [|d digits IH]; intros seps Hd; cbn [apply_loop].
  { destruct seps as [|s [|s' seps]]; cbn in Hd; [done| |].
    - eexists. split; [reflexivity|]. split; [cbn; lia|]. split; [done|]. done.
    - destruct Hd as (H1 & _ & H2). destruct (H2 ltac:(done)). lia. }
  destruct seps as [|s seps]; [done|]. destruct Hd as (H1 & H2 & H3).
  destruct (len (d :: digits) =? s) eqn:E; bool_hyps.
  - assert (seps ≠ []) as Hne by (intros ->; specialize (H2 eq_refl); autorewrite with len in E; lia).
    destruct (H3 Hne) as [Hp Hdec]. destruct (IH seps) as (out & -> & Hl & Hin & Hfil).
    { destruct seps as [|x seps]; [done|]. cbn in *. autorewrite with len in *. destruct Hdec as (? & ? & ?). split; [lia|done]. }
    cbn [mbind outcome_bind]. eexists. split; [reflexivity|]. split; [|split].
    + autorewrite with len. lia.
    + intros c Hc. rewrite elem_of_app, !elem_of_cons. naive_solver.
    + intros P HP Hs. pose proof (Forall_cons_1 _ _ _ HP) as [HPd HPds]. rewrite List.filter_app. cbn [List.filter].
      rewrite HPd, Hfil by done. assert (List.filter P sep = []) as ->; [|done].
      clear -Hs. induction Hs as [|c sep Hc _ IH]; cbn; [done|]. by rewrite Hc.
  - destruct (IH (s :: seps)) as (out & -> & Hl & Hin & Hfil).
    { cbn. autorewrite with len in *. split; [lia|done]. }
    cbn [mbind outcome_bind]. eexists. split; [reflexivity|]. split; [|split].
    + autorewrite with len in *. lia.
    + intros c Hc. rewrite !elem_of_cons. naive_solver.
    + intros P HP Hs. pose proof (Forall_cons_1 _ _ _ HP) as [HPd HPds]. cbn [List.filter]. by rewrite HPd, Hfil.
Qed.

Lemma increasing_decreasing l : ∀ lo hi k, increasing lo hi l → 0 < lo → decreasing (lo + 1) (lo :: k) → lo < hi →
  decreasing hi (reverse l ++ lo :: k).
Proof.
  induction l as [|x l IH]; intros lo hi k Hinc Hlo Hk Hhi.
  - cbn [reverse app]. change (reverse [] ++ lo :: k) with (lo :: k). destruct Hk as (H1 & H2 & H3). split; [done|]. done.
  - destruct Hinc as [Hx Hinc]. rewrite reverse_cons, <-app_assoc. cbn [app]. apply IH; [done|lia| |lia].
    split; [lia|]. split; [done|]. intros _. split; [lia|]. destruct Hk as (H1 & H2 & H3). split; [lia|]. done.
Qed.

Lemma stack_decreasing n l : 0 <= n → increasing 0 n l → decreasing (n + 1) (reverse (0 :: l)).
Proof.
  intros Hn Hl. rewrite reverse_cons. destruct l as [|x l]; [cbn; split; [lia|]; done|].
  destruct Hl as [Hx Hl]. rewrite reverse_cons, <-app_assoc. cbn [app].
  apply increasing_decreasing; [|lia| |lia].
  - clear -Hl. revert x Hl. induction l as [|y l IH]; intros x Hl; [done|]. destruct Hl as [? ?]. split; [lia|by apply IH].
  - cbn. split; [lia|]. split; [done|]. intros _. split; [lia|]. split; [lia|done].
Qed.

Lemma apply_spec g digits : grouping_ok g → len digits < INT_MAX →
  ∃ out n, apply g digits = Ret out ∧ count_separators g (len digits) = Ret n ∧ 0 <= n ∧
    len out = len digits + n * len (thousands_sep g) ∧
    (∀ P : ascii → bool, Forall (λ c, P c = true) digits → Forall (λ c, P c = false) (thousands_sep g) →
       List.filter P out = digits).
Proof.
  intros Hg Hd. destruct (separators_spec g (len digits) Hg Hd (S (length digits)) (grouping g, 0) (start_state g Hg))
    as (l & Hs & Hc & Hi); [cbn; lia|lia|].
  destruct (apply_loop_spec (thousands_sep g) digits (reverse (0 :: l))) as (out & Ho & Hl & _ & Hf).
  { apply stack_decreasing; [lia|done]. }
  exists out, (len l). unfold apply, count_separators. rewrite Hs, Nat2Z.id, Hc. cbn [mbind outcome_bind].
  split; [done|]. split; [done|]. split; [lia|]. split; [|done]. rewrite Hl, length_reverse. autorewrite with len. lia.
Qed.

Lemma count_no_separator g n : thousands_sep g = [] → n <= INT_MAX → count_separators g n = Ret 0.
Proof.
  intros Hs Hn. unfold count_separators. cbn [count_loop next]. rewrite Hs. cbn [mbind outcome_bind].
  by rewrite (proj2 (Z.leb_le _ _)).
Qed.

(** ** Integers in every presentation *)

Lemma write_int_text w v specs : 0 <= Z.abs v <= uint_max w → specs_ok specs → int_presentation (type specs) →
  ∃ ds, digits_of (type specs) (Z.abs v) ds ∧
    write_int w (Z.abs v) (sign_of_prefix v (sign specs)) specs =
      Ret (int_text specs (sign_text v (sign specs) ++ base_text specs v (len ds)) ds).
Proof.
  intros Hn Hok Hp.
  assert (∀ upper value t, (value, t) ∈ base_prefixes →
    _) as Hhex by (intros upper value t; exact (write_based w 4 upper v (sign specs) (λ _, alt specs) value t specs ltac:(by_decide) Hn Hok)).
  assert (∀ value t, (value, t) ∈ base_prefixes →
    _) as Hbin by (intros value t; exact (write_based w 1 false v (sign specs) (λ _, alt specs) value t specs ltac:(by_decide) Hn Hok)).
  pose proof (write_based w 3 false v (sign specs)
    (λ k, alt specs && (precision specs <=? k) && negb (Z.abs v =? 0)) (uchar "0") (bs "0") specs ltac:(by_decide) Hn Hok ltac:(by_decide)) as Hoct.
  unfold write_int, base_text, int_presentation in *.
  repeat (apply elem_of_cons in Hp as [Hp|Hp]; [rewrite Hp|]); [..|by apply elem_of_nil in Hp].
  1,2: exists (utoa (Z.abs v)); split; [done|]; rewrite write_decimal_digits by done; by destruct (alt specs); rewrite app_nil_r.
  - apply (Hhex false); by_decide.
  - apply (Hhex true); by_decide.
  - apply Hbin; by_decide.
  - apply Hbin; by_decide.
  - destruct Hoct as (ds & Hds & ->). exists ds. split; [done|]. do 3 f_equal.
    assert ((Z.abs v =? 0) = (v =? 0)) as -> by (apply Bool.eq_iff_eq_true; lia). by destruct (alt specs).
Qed.

(** The sign of a localized integer. *)
Lemma sign_char v s : let p := sign_of_prefix v s in
  (if negb (p =? 0) then [char_of p] else []) = sign_text v s ∧ (if negb (p =? 0) then 1 else 0) = len (sign_text v s).
Proof. unfold sign_of_prefix, sign_text. destruct (v <? 0); [done|]. by destruct s. Qed.

Lemma write_grouped_text w v s specs loc : 0 <= Z.abs v <= uint_max w → specs_ok specs →
  is_digit_char (numpunct_thousands_sep loc) = false →
  ∃ grouped, List.filter is_digit_char grouped = utoa (Z.abs v) ∧
    let t := sign_text v s ++ grouped in
    write_int_grouped (Z.abs v) (sign_of_prefix v s) specs (facet loc) = Ret (pad true specs (len t) t).
Proof.
  intros Hn [Hw _] Hsep. assert (0 <= Z.abs v <= uint_max W64) as Hn64 by (destruct w; cbn in *; lia).
  unfold write_int_grouped. rewrite format_decimal_utoa, count_digits_exact by done.
  assert (ndig (Z.abs v) <= 20) as Hd.
  { destruct (ndig_bounds (Z.abs v) ltac:(lia)) as (_ & _ & H). destruct (Z.eq_dec (Z.abs v) 0) as [->|]; [by vm_compute|].
    specialize (H ltac:(lia)). cbn in Hn64.
    destruct (Z.le_gt_cases (ndig (Z.abs v)) 20); [done|].
    assert (10 ^ 20 <= 10 ^ (ndig (Z.abs v) - 1)) by (apply Z.pow_le_mono_r; lia). lia. }
  destruct (apply_spec (facet loc) (utoa (Z.abs v)) (facet_ok loc)) as (out & n & Ho & Hc & Hn0 & Hl & Hf).
  { unfold ndig in Hd. unfold INT_MAX. lia. }
  exists out. split.
  - apply Hf; [apply utoa_digits; lia|]. unfold facet. cbn. destruct (numpunct_grouping loc); by repeat constructor.
  - unfold ndig. cbn [mbind outcome_bind]. rewrite Hc. cbn [mbind outcome_bind]. rewrite Ho. cbn [mbind outcome_bind]. destruct (sign_char v s) as [-> ->].
    rewrite (write_padded_spec true) by (done || lia). do 2 f_equal. rewrite len_app, Hl.
    destruct (numpunct_grouping loc) as [|b l] eqn:E; unfold facet in *; rewrite E in *; cbn [thousands_sep] in *.
    + assert (n = 0) as -> by (rewrite count_no_separator in Hc by (done || (unfold ndig, INT_MAX in *; lia)); by injection Hc). cbn. lia.
    + change (len [_]) with 1. lia.
Qed.


(** ** Every writer ends *)

Lemma write_padded_total (right : bool) specs columns f : specs_ok specs → 0 <= columns → (∃ t, f = Ret t) →
  ∃ t, write_padded (if right then shifts_right else shifts_left) specs columns f = Ret t.
Proof. intros [Hw _] Hc [t ->]. rewrite write_padded_spec by done. eauto. Qed.

Lemma write_integer_total w v specs loc : int_value w v → specs_ok specs → is_digit_char (numpunct_thousands_sep loc) = false →
  error_or (λ _, True) (write_integer w v specs loc).
Proof.
  intros Hv Hok Hsep. destruct (make_write_int_arg_spec w v (sign specs) Hv) as [Harg Habs].
  unfold write_integer, write_loc. rewrite Harg. destruct (localized specs).
  { destruct (write_grouped_text w v (sign specs) specs loc) as (g & _ & ->); done. }
  destruct (decide (int_presentation (type specs))) as [Hp|Hp].
  { destruct (write_int_text w v specs Habs Hok Hp) as (ds & _ & ->). done. }
  unfold write_int. destruct (type specs) eqn:E; try reflexivity; try (exfalso; apply Hp; by_decide).
  unfold write_char. destruct (write_padded_total false specs 1 (if check_debug specs then write_escaped_char (char_of (Z.abs v))
    else Ret [char_of (Z.abs v)]) Hok ltac:(lia)) as [t Ht]; [|by rewrite Ht].
  destruct (check_debug specs); [apply write_escaped_char_total|eauto].
Qed.

Lemma write_string_total s specs : specs_ok specs → ∃ t, write_string s specs = Ret t.
Proof.
  intros Hok. unfold write_string. set (data := take _ s). destruct (write_escaped_string_total s) as [e He].
  assert (∃ c, (if width specs =? 0 then Ret 0 else if check_debug specs then t ← write_escaped_string s; Ret (len t)
    else compute_width data) = Ret c ∧ 0 <= c) as (c & -> & Hc).
  { rewrite He. destruct (width specs =? 0); [by exists 0|]. destruct (check_debug specs); [by eexists; split; [reflexivity|lia]|].
    unfold compute_width. rewrite for_each_visit. eexists. split; [reflexivity|].
    assert (∀ l k, 0 <= k → 0 <= visit (λ cp (_ : bytes) count, (count + code_point_width cp, true)) l k) as H; [|by apply H].
    induction l as [|[cp sv] l IH]; intros k Hk; cbn [visit]; [done|]. apply IH. pose proof (code_point_width_pos cp). lia. }
  cbn [mbind outcome_bind]. apply (write_padded_total false); [done|done|]. rewrite He. destruct (check_debug specs); eauto.
Qed.

Lemma write_ptr_total p specs : 0 <= p < 2 ^ 64 → specs_ok specs → ∃ t, write_ptr p specs = Ret t.
Proof.
  intros Hp Hok. unfold write_ptr, ptr_text.
  destruct (format_uint_spec W64 4 p false ltac:(by_decide)) as (k & ds & -> & Hf & _ & Hl); [cbn; lia|].
  cbn [mbind outcome_bind]. rewrite Hf. apply (write_padded_total true); [done|lia|cbn; eauto].
Qed.

(** The values of the types of arguments; custom arguments that end. *)
Definition arg_ok (a : format_arg) : Prop :=
  match a with
  | AInt v => INT_MIN <= v <= INT_MAX
  | AUInt v => 0 <= v < 2 ^ 32
  | ALongLong v => - 2 ^ 63 <= v < 2 ^ 63
  | AULongLong v => 0 <= v < 2 ^ 64
  | ACString p _ => 0 < p < 2 ^ 64
  | APointer p => 0 <= p < 2 ^ 64
  | ACustom format => ∀ s ctx, error_or (λ r, (length r.1.1 <= length s)%nat) (format s ctx)
  | _ => True
  end.

Lemma error_or_Ret {A} (m : outcome A) : (∃ x, m = Ret x) → error_or (λ _, True) m.
Proof. by intros [x ->]. Qed.

Lemma int_value_32 v : INT_MIN <= v < 2 ^ 32 → int_value W32 v.
Proof. unfold int_value, INT_MIN. cbn [uint_max]. change (- (2 ^ 32 - 1 + 1) / 2) with (- 2 ^ 31). lia. Qed.
Lemma int_value_64 v : - 2 ^ 63 <= v < 2 ^ 64 → int_value W64 v.
Proof. unfold int_value. cbn [uint_max]. change (- (2 ^ 64 - 1 + 1) / 2) with (- 2 ^ 63). lia. Qed.

Lemma write_bool_total b specs : specs_ok specs →
  error_or (λ _, True) (write_bool b specs).
Proof.
  intros Hok. unfold write_bool. destruct (_ && _).
  - apply write_integer_total; [apply int_value_32; unfold INT_MIN; destruct b; lia|done|done].
  - apply error_or_Ret. apply (write_padded_total false); [done|lia|eauto].
Qed.

Lemma format_with_total a specs loc : arg_ok a → specs_ok specs → is_digit_char (numpunct_thousands_sep loc) = false →
  error_or (λ _, True) (format_with a specs loc).
Proof.
  intros Ha Hok Hsep. destruct a; cbn [format_with arg_ok] in *;
    try (apply write_integer_total; [first [apply int_value_32; unfold INT_MIN, INT_MAX in *; lia|apply int_value_64; lia]|done|done]).
  - by apply write_bool_total.
  - unfold write_char_arg, check_char_specs. destruct (bool_decide _); cbn [mbind outcome_bind].
    + apply write_integer_total; [|done|done]. apply int_value_32. pose proof (uchar_range c). unfold INT_MIN. lia.
    + destruct (_ || _); [exact eq_refl|]. cbn [mbind outcome_bind]. apply error_or_Ret. unfold write_char.
      apply (write_padded_total false); [done|lia|]. destruct (check_debug specs); [apply write_escaped_char_total|eauto].
  - unfold write_cstring. destruct (negb _).
    + rewrite (proj2 (Z.eqb_neq p 0)) by lia. by apply error_or_Ret, write_string_total.
    + apply error_or_Ret, write_ptr_total; [lia|done].
  - by apply error_or_Ret, write_string_total.
  - by apply error_or_Ret, write_ptr_total.
  - done.
Qed.

Lemma write_decimal_text w v : int_value w v → write_decimal w v = Ret (itoa v).
Proof.
  intros Hv. assert ((if v <? 0 then u_of w (u_of w (Z.lnot (u_of w v)) + 1) else u_of w v) = Z.abs v ∧ 0 <= Z.abs v <= uint_max w)
    as [Ha Hr].
  { destruct w; unfold int_value, u_of, uint_max in *.
    - change (- (2 ^ 32 - 1 + 1) / 2) with (- 2 ^ 31) in Hv. destruct (v <? 0) eqn:E; bool_hyps; [|rewrite u32_small by lia; lia].
      assert (u32 v = v + 2 ^ 32) as -> by (unfold u32; symmetry; apply (Z.mod_unique_pos _ _ (-1)); lia).
      assert (u32 (Z.lnot (v + 2 ^ 32)) = - v - 1) as ->.
      { unfold u32, Z.lnot. symmetry. apply (Z.mod_unique_pos _ _ (-1)); lia. }
      rewrite u32_small by lia. lia.
    - change (- (2 ^ 64 - 1 + 1) / 2) with (- 2 ^ 63) in Hv. destruct (v <? 0) eqn:E; bool_hyps; [|rewrite u64_small by lia; lia].
      assert (u64 v = v + 2 ^ 64) as -> by (unfold u64; symmetry; apply (Z.mod_unique_pos _ _ (-1)); lia).
      assert (u64 (Z.lnot (v + 2 ^ 64)) = - v - 1) as ->.
      { unfold u64, Z.lnot. symmetry. apply (Z.mod_unique_pos _ _ (-1)); lia. }
      rewrite u64_small by lia. lia. }
  unfold write_decimal, itoa. rewrite Ha, format_decimal_utoa by done. cbn [mbind outcome_bind].
  destruct (v <? 0) eqn:E; bool_hyps; cbn [app]; do 3 f_equal; lia.
Qed.

(** What an argument is without specifiers. *)
Definition default_text (a : format_arg) : outcome bytes :=
  match a with
  | AInt v | AUInt v | ALongLong v | AULongLong v => Ret (itoa v)
  | ABool b => Ret (if b then bs "true" else bs "false")
  | AChar c => Ret [c]
  | ACString p s => if p =? 0 then format_error else Ret s
  | AString s => Ret s
  | APointer p => write_ptr p default_specs
  | ACustom format => '(_, _, out) ← format [] 0; Ret out
  end.

Lemma default_format_text a loc : arg_ok a → default_format a loc = default_text a.
Proof.
  intros Ha. destruct a; cbn [default_format default_text arg_ok] in *; try done;
    try (apply write_decimal_text; first [apply int_value_32; unfold INT_MIN, INT_MAX in *; lia|apply int_value_64; lia]).
  unfold write_bool. cbn [type default_specs]. rewrite bool_decide_true by done. cbn [negb andb].
  unfold write_bytes. rewrite (write_padded_spec false) by (cbn; unfold INT_MAX; lia). by rewrite pad_nothing by (cbn; lia).
Qed.

Lemma default_format_total a loc : arg_ok a → error_or (λ _, True) (default_format a loc).
Proof.
  intros Ha. rewrite default_format_text by done. destruct a; cbn [default_text arg_ok] in *; try done.
  - by destruct (p =? 0).
  - apply error_or_Ret, write_ptr_total; [done|by vm_compute].
  - eapply error_or_bind; [apply Ha|]. by intros [[? ?] ?] _.
Qed.

(** * Properties *)

(** C20: integers are written as their specifiers say. For every value of an [int], [unsigned], [long long]
    or [unsigned long long] and every presentation in a base, the text is the sign, the prefix of the base,
    zeros, and the shortest numeral of the absolute value in that base and case, padded by the fill to the
    width: to the left, to the right or around as the alignment says, or by the zeros when they were asked
    for. In a locale it is the sign and the decimal numeral with nothing but separators put in, and the
    width counts these. *)
Theorem integer_written w v specs loc : int_value w v → specs_ok specs →
  (localized specs = false → int_presentation (type specs) →
   ∃ ds, digits_of (type specs) (Z.abs v) ds ∧
     write_integer w v specs loc = Ret (int_text specs (sign_text v (sign specs) ++ base_text specs v (len ds)) ds)) ∧
  (localized specs = true → is_digit_char (numpunct_thousands_sep loc) = false →
   ∃ grouped, List.filter is_digit_char grouped = utoa (Z.abs v) ∧
     let t := sign_text v (sign specs) ++ grouped in
     write_integer w v specs loc = Ret (pad true specs (len t) t)).
Proof.
  intros Hv Hok. destruct (make_write_int_arg_spec w v (sign specs) Hv) as [Harg Habs].
  unfold write_integer, write_loc. rewrite Harg. split.
  - intros -> Hp. by apply write_int_text.
  - intros -> Hsep. by apply (write_grouped_text w).
Qed.

Lemma integer_written_witness :
  (∃ ds, digits_of hex_upper 48879 ds ∧
    write_integer W32 (-48879) (Specs 12 (-1) hex_upper align_numeric sign_none true false (bs "0") RefNone RefNone) classic_locale =
    Ret (int_text (Specs 12 (-1) hex_upper align_numeric sign_none true false (bs "0") RefNone RefNone) (bs "-0X") ds)) ∧
  write_integer W32 (-48879) (Specs 12 (-1) hex_upper align_numeric sign_none true false (bs "0") RefNone RefNone) classic_locale =
    Ret (bs "-0X00000BEEF").
Proof.
  split; [|vm_compute; reflexivity].
  exact (proj1 (integer_written W32 (-48879) (Specs 12 (-1) hex_upper align_numeric sign_none true false (bs "0") RefNone RefNone)
    classic_locale ltac:(by vm_compute) ltac:(by vm_compute)) eq_refl ltac:(by_decide)).
Defined.

(** Zeros that are asked for in a locale come before the sign. *)
Lemma localized_zeros :
  write_integer W32 (-42) (Specs 6 (-1) pres_none align_numeric sign_none false true (bs "0") RefNone RefNone) classic_locale =
    Ret (bs "000-42").
Proof. vm_compute. reflexivity. Qed.

(** Strings are cut after code points and padded by columns. For any Unicode scalar values in UTF-8,
    as a string or a C string, a precision leaves that many of them, and the fill takes the columns up to
    the width that they do not: on the right, unless the alignment says otherwise. *)
Theorem string_written cps specs loc : Forall scalar cps → specs_ok specs → type specs ≠ debug →
  let shown := if 0 <=? precision specs then take (Z.to_nat (precision specs)) cps else cps in
  format_with (AString (utf8_text cps)) specs loc = Ret (pad false specs (columns shown) (utf8_text shown)) ∧
  ∀ p, p ≠ 0 → type specs ≠ pres_pointer →
    format_with (ACString p (utf8_text cps)) specs loc = Ret (pad false specs (columns shown) (utf8_text shown)).
Proof.
  intros Hs Hok Ht shown. pose proof (write_string_text cps specs Hs Hok Ht) as Hstr.
  cbn [format_with]. split; [done|]. intros p Hp0 Hpt. unfold write_cstring. rewrite bool_decide_false by done.
  by rewrite (proj2 (Z.eqb_neq p 0)).
Qed.

Lemma string_written_witness :
  let specs := Specs 7 2 pres_none align_center sign_none false false (bs "*") RefNone RefNone in
  format_with (AString (utf8_text [0x4e2d; 0xe9; 0x41])) specs classic_locale =
    Ret (pad false specs (columns [0x4e2d; 0xe9]) (utf8_text [0x4e2d; 0xe9])) ∧
  columns [0x4e2d; 0xe9] = 3.
Proof.
  cbv zeta. split; [|reflexivity].
  apply (string_written [0x4e2d; 0xe9; 0x41] (Specs 7 2 pres_none align_center sign_none false false (bs "*") RefNone RefNone));
    [repeat constructor; by_decide|by vm_compute|done].
Defined.
