(* ===== verification/Fmt.v ===== *)
(** * Format strings (src/cppboot/base/internal/fmt/core.h, format.h)

    The parser of replacement fields and its two loops, against an interface of handlers,
    and the handler that formats, with [vformat_to]. *)

From S2P Require Import Prelude StdString StringView Status FmtNum FmtSpec FmtUtf8 FmtEscape FmtWrite.

(** ** Handlers

    What the parser calls; [S] is the state of the handler.  [on_format_specs] gets the
    text behind the colon and yields what is left of it. *)
Class Handler (S : Type) : Type := {
  on_text : bytes → S → outcome S;
  on_auto_id : S → outcome (Z * S);
  on_index_id : Z → S → outcome (Z * S);
  on_name_id : bytes → S → outcome (Z * S);
  on_replacement_field : Z → S → outcome S;
  on_format_specs : Z → bytes → S → outcome (bytes * S);
}.

(** A handler takes no text for nothing, and reads on in its specifiers. *)
Class HandlerLaws (S : Type) {H : Handler S} : Prop := {
  on_text_nil st : on_text [] st = Ret st;
  on_format_specs_rest id s st : match on_format_specs id s st with
                                 | Ret (rest, _) => (length rest ≤ length s)%nat
                                 | _ => True
                                 end;
}.

Section parser.
Context {S : Type} `{Handler S}.

(** [id_adapter] *)
Definition on_arg_id (r : arg_ref) (st : S) : outcome (Z * S) :=
  match r with RefNone => on_auto_id st | RefIndex i => on_index_id i st | RefName n => on_name_id n st end.

(** From the opening brace on. *)
Definition parse_replacement_field (begin : bytes) (st : S) : outcome (bytes * S) :=
  match tail begin with
  | [] => format_error
  | c :: rest =>
      if bool_decide (c = "}"%char) then
        '(id, st) ← on_auto_id st;
        st ← on_replacement_field id st;
        Ret (rest, st)
      else if bool_decide (c = "{"%char) then
        st ← on_text ["{"%char] st;
        Ret (rest, st)
      else
        '(r, begin) ← parse_arg_id (c :: rest);
        '(arg_id, st) ← on_arg_id r st;
        match begin with
        | d :: begin =>
            if bool_decide (d = "}"%char) then
              st ← on_replacement_field arg_id st;
              Ret (begin, st)
            else if bool_decide (d = ":"%char) then
              '(begin, st) ← on_format_specs arg_id begin st;
              match begin with
              | e :: begin => if bool_decide (e = "}"%char) then Ret (begin, st) else format_error
              | [] => format_error
              end
            else format_error
        | [] => format_error
        end
  end.

(** The loop for small strings; [text] is between [begin] and [p]. *)
Fixpoint small_loop (fuel : nat) (text p : bytes) (st : S) : outcome S :=
  match fuel with
  | O => OutOfFuel
  | Datatypes.S fuel =>
      match p with
      | [] => on_text text st
      | c :: p' =>
          if bool_decide (c = "{"%char) then
            st ← on_text text st;
            '(begin, st) ← parse_replacement_field p st;
            small_loop fuel [] begin st
          else if bool_decide (c = "}"%char) then
            match p' with
            | d :: begin =>
                if bool_decide (d = "}"%char) then
                  st ← on_text (text ++ [c]) st;
                  small_loop fuel [] begin st
                else format_error
            | [] => format_error
            end
          else small_loop fuel (text ++ [c]) p' st
      end
  end.

(** [find], by [memchr]: what is before the character, and from it on. *)
Fixpoint find (c : ascii) (s : bytes) : option (bytes * bytes) :=
  match s with
  | [] => None
  | d :: s' =>
      if bool_decide (d = c) then Some ([], s)
      else match find c s' with Some (b, r) => Some (d :: b, r) | None => None end
  end.

(** [writer]: text without an opening brace. *)
Fixpoint writer_loop (fuel : nat) (from : bytes) (st : S) : outcome S :=
  match fuel with
  | O => OutOfFuel
  | Datatypes.S fuel =>
      match find "}"%char from with
      | None => on_text from st
      | Some (before, r) =>
          match tail r with
          | d :: from =>
              if bool_decide (d = "}"%char) then
                st ← on_text (before ++ ["}"%char]) st;
                writer_loop fuel from st
              else format_error
          | [] => format_error
          end
      end
  end.
Definition writer (from : bytes) (st : S) : outcome S :=
  match from with [] => Ret st | _ => writer_loop (Datatypes.S (length from)) from st end.

(** The loop for big strings. *)
Fixpoint big_loop (fuel : nat) (begin : bytes) (st : S) : outcome S :=
  match fuel with
  | O => OutOfFuel
  | Datatypes.S fuel =>
      match begin with
      | [] => Ret st
      | c :: rest =>
          let found := if bool_decide (c = "{"%char) then Some ([], begin)
                       else match find "{"%char rest with Some (b, p) => Some (c :: b, p) | None => None end in
          match found with
          | None => writer begin st
          | Some (before, p) =>
              st ← writer before st;
              '(begin, st) ← parse_replacement_field p st;
              big_loop fuel begin st
          end
      end
  end.

Definition parse_format_string (format_str : bytes) (st : S) : outcome S :=
  if len format_str <? 32 then small_loop (Datatypes.S (length format_str)) [] format_str st
  else big_loop (Datatypes.S (length format_str)) format_str st.
End parser.

(** ** Formatting *)

(** [format_handler]: the output, and the id of the parse context. *)
Record format_state : Type := FormatState { out : bytes; next_id : context }.

Definition append (t : bytes) (st : format_state) : format_state := FormatState (out st ++ t) (next_id st).
Definition set_id (ctx : context) (st : format_state) : format_state := FormatState (out st) ctx.

Definition get_arg (fa : format_args) (id : Z) : outcome format_arg :=
  match get fa id with Some a => Ret a | None => format_error end.

Section format.
Variable fa : format_args.
Variable loc : locale.

Definition format_on_specs (id : Z) (begin : bytes) (st : format_state) : outcome (bytes * format_state) :=
  arg ← get_arg fa id;
  match arg with
  | ACustom format =>
      '(begin, ctx, t) ← format begin (next_id st);
      Ret (begin, append t (set_id ctx st))
  | _ =>
      '(begin, specs, ctx) ← parse_format_specs begin (next_id st) (type_of arg);
      w ← handle_dynamic_spec (width specs) (width_ref specs) fa;
      let specs := set_width w (width_ref specs) specs in
      p ← handle_dynamic_spec (precision specs) (precision_ref specs) fa;
      let specs := set_precision p (precision_ref specs) specs in
      match begin with
      | c :: _ =>
          if bool_decide (c = "}"%char) then
            t ← format_with arg specs loc;
            Ret (begin, append t (set_id ctx st))
          else format_error
      | [] => format_error
      end
  end.

Definition format_handler : Handler format_state := {|
  on_text t st := Ret (append t st);
  on_auto_id st := '(id, ctx) ← next_arg_id (next_id st); Ret (id, set_id ctx st);
  on_index_id id st := ctx ← check_arg_id id (next_id st); Ret (id, set_id ctx st);
  on_name_id name st := let id := get_id fa name in if id <? 0 then format_error else Ret (id, st);
  on_replacement_field id st := arg ← get_arg fa id; t ← default_format arg loc; Ret (append t st);
  on_format_specs := format_on_specs;
|}.

(** [vformat_to]: what is appended to the buffer. *)
Definition vformat_to (fmt : bytes) : outcome bytes :=
  if bool_decide (fmt = bs "{}") then arg ← get_arg fa 0; default_format arg loc
  else st ← parse_format_string (H := format_handler) fmt (FormatState [] 0); Ret (out st).
End format.

(** [format(fmt, args...)] *)
Definition format (fmt : bytes) (l : list format_arg) : outcome bytes := vformat_to (Args l []) classic_locale fmt.

(** [format_to_n(out, n, fmt, args...)] *)
Definition format_to_n (n : Z) (fmt : bytes) (l : list format_arg) : outcome bytes :=
  t ← format fmt l; Ret (take (Z.to_nat n) t).

(** ** The formatters of the repository (src/cppboot/base/fmt.h)

    A view is printed as the C string of its data, at most as long as the view. *)
Definition sv_format (v : string_view) (s : bytes) (ctx : context) : outcome (bytes * context * bytes) :=
  p ← (match ptr_ v with
       | None => Ret (ACString 0 [])
       | Some p => t ← c_str p; Ret (ACString 1 t)
       end);
  t ← format_to_n (size v) (bs "{:s}") [p];
  Ret (s, ctx, t).
Definition sv_formatter (v : string_view) : format_arg := ACustom (sv_format v).

Definition status_format (st : Status) (s : bytes) (ctx : context) : outcome (bytes * context * bytes) :=
  t ← format (bs "{}") [AString (ToString st)];
  Ret (s, ctx, t).
Definition status_formatter (st : Status) : format_arg := ACustom (status_format st).

(** ** Format strings as they are written *)

Inductive segment : Type :=
  | Text (t : bytes)
  | Field (r : arg_ref) (sx : option syntax).

Fixpoint escape_braces (t : bytes) : bytes :=
  match t with
  | [] => []
  | c :: t => (if bool_decide (c = "{"%char) || bool_decide (c = "}"%char) then [c; c] else [c]) ++ escape_braces t
  end.

Definition segment_text (g : segment) : bytes :=
  match g with
  | Text t => escape_braces t
  | Field r None => bs "{" ++ ref_text r ++ bs "}"
  | Field r (Some sx) => bs "{" ++ ref_text r ++ bs ":" ++ spec_text sx ++ bs "}"
  end.
Definition format_text (l : list segment) : bytes := concat (segment_text <$> l).

Section meaning.
Variable fa : format_args.
Variable loc : locale.

(** The id of a field. *)
Definition field_id (r : arg_ref) (ctx : context) : outcome (Z * context) :=
  match r with
  | RefNone => next_arg_id ctx
  | RefIndex i => ctx ← check_arg_id i ctx; Ret (i, ctx)
  | RefName n => let id := get_id fa n in if id <? 0 then format_error else Ret (id, ctx)
  end.

(** The specifiers with the dynamic width and precision filled in. *)
Definition fill_in (s : format_specs) : outcome format_specs :=
  w ← handle_dynamic_spec (width s) (width_ref s) fa;
  p ← handle_dynamic_spec (precision s) (precision_ref s) fa;
  Ret (set_precision p (precision_ref s) (set_width w (width_ref s) s)).

Definition segment_meaning (g : segment) (ctx : context) : outcome (bytes * context) :=
  match g with
  | Text t => Ret (t, ctx)
  | Field r None =>
      '(id, ctx) ← field_id r ctx; arg ← get_arg fa id; t ← default_format arg loc; Ret (t, ctx)
  | Field r (Some sx) =>
      '(id, ctx) ← field_id r ctx; arg ← get_arg fa id;
      '(s, ctx) ← meaning sx ctx; s ← fill_in s; t ← format_with arg s loc; Ret (t, ctx)
  end.

Fixpoint format_meaning (l : list segment) (ctx : context) : outcome bytes :=
  match l with
  | [] => Ret []
  | g :: l => '(t, ctx) ← segment_meaning g ctx; r ← format_meaning l ctx; Ret (t ++ r)
  end.

(** The ids are well formed, and the specifiers are for the arguments that they get. *)
Definition segment_ok (g : segment) (ctx : context) : Prop :=
  match g with
  | Text _ => True
  | Field r None => ref_ok r
  | Field r (Some sx) =>
      ref_ok r ∧ ∀ id ctx' arg, field_id r ctx = Ret (id, ctx') → get fa id = Some arg →
        type_of arg ≠ custom_type ∧ syntax_ok (type_of arg) sx
  end.

Fixpoint segments_ok (l : list segment) (ctx : context) : Prop :=
  match l with
  | [] => True
  | g :: l => segment_ok g ctx ∧ ∀ t ctx', segment_meaning g ctx = Ret (t, ctx') → segments_ok l ctx'
  end.
End meaning.

(** * Lemmas *)

(** ** The loops *)

Section loops.
Context {S : Type} `{HL : HandlerLaws S}.

Lemma parse_field_rest c s st rest st' : parse_replacement_field (c :: s) st = Ret (rest, st') → (length rest ≤ length s)%nat.
Proof.
  unfold parse_replacement_field. cbn [tail]. destruct s as [|d s]; [done|]. repeat case_bool_decide.
  - intros Hr. outcome_inv. destruct x as [id st1]. outcome_inv. cbn. lia.
  - intros Hr. outcome_inv. cbn. lia.
  - intros Hr. outcome_inv. destruct x as [r b]. pose proof (parse_arg_id_total d s) as Ht. rewrite Hx in Ht. cbn in Ht.
    outcome_inv. destruct x as [id st1]. destruct b as [|e b]; [done|]. cbn in Ht. repeat case_bool_decide; [| |done].
    + outcome_inv. cbn. lia.
    + outcome_inv. destruct x as [b' st2]. pose proof (on_format_specs_rest id b st1) as Hl. rewrite Hx1 in Hl.
      destruct b' as [|f b']; [done|]. case_bool_decide; [|done]. injection Hr as <- _. cbn in *. lia.
Qed.

(** With enough fuel, its amount does not matter. *)
Lemma small_loop_fuel fuel : ∀ fuel' text p st, (length p < fuel)%nat → (length p < fuel')%nat →
  small_loop fuel text p st = small_loop fuel' text p st.
Proof.
  induction fuel as [|fuel IH]; intros [|fuel'] text p st H1 H2; [lia..|]. cbn [small_loop].
  destruct p as [|c p]; [done|]. cbn in H1, H2. repeat case_bool_decide.
  - destruct (on_text text st) as [st1| | | |]; try done. cbn [mbind outcome_bind].
    destruct (parse_replacement_field (c :: p) st1) as [[b st2]| | | |] eqn:E; try done. cbn [mbind outcome_bind].
    apply parse_field_rest in E. apply IH; lia.
  - destruct p as [|d p]; [done|]. case_bool_decide; [|done]. cbn in H1, H2.
    destruct (on_text _ st); try done. cbn [mbind outcome_bind]. apply IH; lia.
  - apply IH; lia.
Qed.

Definition small (text p : bytes) (st : S) : outcome S := small_loop (Datatypes.S (length p)) text p st.

Lemma small_loop_small fuel text p st : (length p < fuel)%nat → small_loop fuel text p st = small text p st.
Proof. intros. apply small_loop_fuel; lia. Qed.

Lemma small_nil text st : small text [] st = on_text text st.
Proof. done. Qed.

Lemma small_open text p st : small text ("{"%char :: p) st =
  (st ← on_text text st; '(begin, st) ← parse_replacement_field ("{"%char :: p) st; small [] begin st).
Proof.
  unfold small at 1. cbn [small_loop]. rewrite bool_decide_true by done.
  destruct (on_text text st) as [st1| | | |]; try done. cbn [mbind outcome_bind].
  destruct (parse_replacement_field _ st1) as [[b st2]| | | |] eqn:E; try done. cbn [mbind outcome_bind].
  apply parse_field_rest in E. apply small_loop_small. cbn. lia.
Qed.

Lemma small_close text p st : small text ("}"%char :: p) st =
  match p with
  | d :: begin => if bool_decide (d = "}"%char) then st ← on_text (text ++ ["}"%char]) st; small [] begin st else format_error
  | [] => format_error
  end.
Proof.
  unfold small at 1. cbn [small_loop]. rewrite bool_decide_false, bool_decide_true by done.
  destruct p as [|d p]; [done|]. case_bool_decide; [|done].
  destruct (on_text _ st) as [st1| | | |]; try done. cbn [mbind outcome_bind]. apply small_loop_small. cbn. lia.
Qed.

Lemma small_other text c p st : c ≠ "{"%char → c ≠ "}"%char → small text (c :: p) st = small (text ++ [c]) p st.
Proof. intros H1 H2. unfold small at 1. cbn [small_loop]. rewrite !bool_decide_false by done. apply small_loop_small. cbn. lia. Qed.

Lemma small_plain s : ∀ text p st, Forall (λ c, c ≠ "{"%char ∧ c ≠ "}"%char) s → small text (s ++ p) st = small (text ++ s) p st.
Proof.
  induction s as [|c s IH]; intros text p st Hs; cbn [app]; [by rewrite app_nil_r|].
  apply Forall_cons in Hs as [[H1 H2] Hs]. rewrite small_other, IH by done. by rewrite <-app_assoc.
Qed.

Lemma find_spec c s : match find c s with
  | None => Forall (λ d, d ≠ c) s
  | Some (b, r) => s = b ++ r ∧ Forall (λ d, d ≠ c) b ∧ ∃ r', r = c :: r'
  end.
Proof.
  induction s as [|d s IH]; cbn [find]; [constructor|]. case_bool_decide as E.
  - subst d. split_and!; [done|constructor|eauto].
  - destruct (find c s) as [[b r]|]; [|by constructor]. destruct IH as (-> & Hb & Hr). split_and!; [done|by constructor|done].
Qed.

(** What follows a run of text: its end, or an opening brace. *)
Definition at_brace (p : bytes) : Prop := match p with [] => True | c :: _ => c = "{"%char end.

Lemma small_flush text p st : at_brace p → small text p st = (st ← on_text text st; small [] p st).
Proof.
  destruct p as [|c p]; cbn [at_brace].
  - intros _. rewrite small_nil. destruct (on_text text st) as [st1| | | |]; try done. cbn [mbind outcome_bind].
    by rewrite small_nil, on_text_nil.
  - intros ->. rewrite small_open. destruct (on_text text st) as [st1| | | |]; try done. cbn [mbind outcome_bind].
    by rewrite small_open, on_text_nil.
Qed.

Lemma writer_loop_small fuel : ∀ from p st, (length from < fuel)%nat → Forall (λ c, c ≠ "{"%char) from → at_brace p →
  small [] (from ++ p) st = (st ← writer_loop fuel from st; small [] p st).
Proof.
  induction fuel as [|fuel IH]; intros from p st Hf Hn Hp; [lia|]. cbn [writer_loop].
  pose proof (find_spec "}"%char from) as Hfind. destruct (find "}"%char from) as [[b r]|].
  - destruct Hfind as (-> & Hb & r' & ->). cbn [tail]. apply Forall_app in Hn as [Hnb Hnr].
    rewrite <-app_assoc, small_plain.
    2:{ apply Forall_and. by split. }
    cbn [app]. rewrite small_close. destruct r' as [|d r']; cbn [app].
    { destruct p as [|d p]; [done|]. cbn in Hp. subst d. done. }
    case_bool_decide; [|done]. destruct (on_text _ st) as [st1| | | |]; try done. cbn [mbind outcome_bind].
    rewrite length_app in Hf. cbn in Hf. apply IH; [lia| |done].
    apply Forall_cons in Hnr as [_ Hnr]. by apply Forall_cons in Hnr as [_ ?].
  - rewrite small_plain, small_flush; [done|done|]. apply Forall_and. by split.
Qed.

Lemma writer_small from p st : Forall (λ c, c ≠ "{"%char) from → at_brace p →
  small [] (from ++ p) st = (st ← writer from st; small [] p st).
Proof.
  intros Hn Hp. unfold writer. destruct from as [|c from]; [done|]. apply writer_loop_small; [lia|done|done].
Qed.

Lemma big_loop_small fuel : ∀ begin st, (length begin < fuel)%nat → big_loop fuel begin st = small [] begin st.
Proof.
  induction fuel as [|fuel IH]; intros begin st Hf; [lia|]. cbn [big_loop].
  destruct begin as [|c rest]; [by rewrite small_nil, on_text_nil|].
  set (found := if bool_decide (c = "{"%char) then _ else _).
  assert (match found with
          | None => Forall (λ d, d ≠ "{"%char) (c :: rest)
          | Some (b, r) => c :: rest = b ++ r ∧ Forall (λ d, d ≠ "{"%char) b ∧ ∃ r', r = "{"%char :: r'
          end) as Hfound.
  { subst found. case_bool_decide as E; [subst c; split_and!; [done|constructor|eauto]|].
    pose proof (find_spec "{"%char rest) as Hfind. destruct (find "{"%char rest) as [[b r]|]; [|by constructor].
    destruct Hfind as (-> & Hb & Hr). split_and!; [done|by constructor|done]. }
  destruct found as [[b r]|].
  - destruct Hfound as (Hcr & Hb & r' & ->). rewrite Hcr, writer_small by done.
    destruct (writer b st) as [st1| | | |]; try done. cbn [mbind outcome_bind].
    rewrite small_open, on_text_nil. cbn [mbind outcome_bind].
    destruct (parse_replacement_field _ st1) as [[b' st2]| | | |] eqn:E; try done. cbn [mbind outcome_bind].
    apply parse_field_rest in E. apply IH. apply (f_equal length) in Hcr. rewrite length_app in Hcr. cbn in *. lia.
  - rewrite <-(app_nil_r (c :: rest)) at 2. rewrite writer_small by done.
    destruct (writer _ st) as [st1| | | |]; try done. cbn [mbind outcome_bind]. by rewrite small_nil, on_text_nil.
Qed.

Lemma parse_format_string_small s st : parse_format_string s st = small [] s st.
Proof.
  unfold parse_format_string. destruct (_ <? _); [done|]. apply big_loop_small. lia.
Qed.
End loops.

(** ** The handler that formats *)

(** The formatters of custom arguments read on. *)
Definition arg_reads (a : format_arg) : Prop :=
  match a with
  | ACustom fn => ∀ s ctx, match fn s ctx with Ret r => (length r.1.1 <= length s)%nat | _ => True end
  | _ => True
  end.

Lemma arg_ok_reads a : arg_ok a → arg_reads a.
Proof. destruct a as [v|v|v|v|v|v|v ?|v|v|fn]; try done. intros H s ctx. specialize (H s ctx). by destruct (fn s ctx). Qed.

Section handler.
Variable fa : format_args.
Variable loc : locale.
Hypothesis args_read : Forall arg_reads (args fa).
#[local] Instance the_handler : Handler format_state := format_handler fa loc.

Lemma get_forall (P : format_arg → Prop) id a : Forall P (args fa) → get fa id = Some a → P a.
Proof.
  intros HP. unfold get. destruct (id <? 0); [done|]. intros H. by apply (Forall_lookup_1 _ _ _ _ HP H).
Qed.

Lemma append_nil st : append [] st = st.
Proof. destruct st. unfold append. cbn. by rewrite app_nil_r. Qed.
Lemma append_append a b st : append b (append a st) = append (a ++ b) st.
Proof. unfold append. cbn. by rewrite app_assoc. Qed.

Lemma specs_rest id s st : match on_format_specs id s st with
  | Ret (rest, _) => (length rest ≤ length s)%nat
  | _ => True
  end.
Proof.
  cbn [on_format_specs the_handler format_handler]. unfold format_on_specs, get_arg.
  destruct (get fa id) as [a|] eqn:Ha; [|done]. cbn [mbind outcome_bind]. apply (get_forall _ _ _ args_read) in Ha.
  assert (∀ t (k : bytes * format_specs * context → outcome (bytes * format_state)),
    (∀ r, match k r with Ret (rest, _) => rest = r.1.1 | _ => True end) →
    match parse_format_specs s (next_id st) t ≫= k with Ret (rest, _) => (length rest ≤ length s)%nat | _ => True end) as Hp.
  { intros t k Hk. pose proof (parse_specs_total s (next_id st) t) as Ht.
    destruct (parse_format_specs _ _ _) as [r| | | |]; try done. cbn [mbind outcome_bind]. specialize (Hk r).
    destruct (k r) as [[rest st']| | | |]; try done. by subst rest. }
  destruct a as [v|v|v|v|v|v|v ?|v|v|fn]; try (apply Hp; intros [[bb sp] ctx]; repeat (
    match goal with |- context [handle_dynamic_spec ?v ?r fa] => destruct (handle_dynamic_spec v r fa); try done end;
    cbn [mbind outcome_bind]);
    destruct bb as [|cc bb]; [done|]; case_bool_decide; [|done]; destruct (format_with _ _ _); done).
  specialize (Ha s (next_id st)). destruct (fn s _) as [[[b ctx] t]| | | |]; done.
Qed.

Lemma handler_laws : HandlerLaws format_state.
Proof.
  constructor; [|apply specs_rest]. intros st. cbn. by rewrite append_nil.
Qed.
#[local] Existing Instance handler_laws.

(** Text that has not been written yet may as well have been. *)
Lemma small_pending n : ∀ text p st, (length p <= n)%nat → small text p st = small [] p (append text st).
Proof.
  induction n as [|n IH]; intros text p st Hn.
  { destruct p; [|cbn in Hn; lia]. rewrite !small_nil. cbn. by rewrite append_nil. }
  destruct p as [|c p]; [rewrite !small_nil; cbn; by rewrite append_nil|]. cbn in Hn.
  destruct (decide (c = "{"%char)) as [->|H1]; [rewrite !small_open; cbn [on_text the_handler format_handler]; by rewrite append_nil|].
  destruct (decide (c = "}"%char)) as [->|H2].
  - rewrite !small_close. destruct p as [|d p]; [done|]. case_bool_decide; [|done].
    cbn [on_text the_handler format_handler mbind outcome_bind app]. by rewrite append_append.
  - rewrite !small_other by done. rewrite (IH (text ++ [c])) by lia. rewrite (IH ([] ++ [c])) by lia.
    by rewrite append_append.
Qed.

Lemma small_text text p st : small text p st = small [] p (append text st).
Proof. by apply (small_pending (length p)). Qed.

Lemma small_escaped t : ∀ p st, small [] (escape_braces t ++ p) st = small [] p (append t st).
Proof.
  induction t as [|c t IH]; intros p st; cbn [escape_braces]; [by rewrite append_nil|].
  rewrite <-app_assoc. destruct (decide (c = "{"%char)) as [->|H1].
  - rewrite bool_decide_true by done. cbn [orb app]. rewrite small_open.
    cbn [on_text the_handler format_handler mbind outcome_bind]. rewrite append_nil.
    unfold parse_replacement_field. cbn [tail]. rewrite bool_decide_false, bool_decide_true by done.
    cbn [on_text the_handler format_handler mbind outcome_bind]. by rewrite IH, append_append.
  - destruct (decide (c = "}"%char)) as [->|H2].
    + rewrite bool_decide_false, bool_decide_true by done. cbn [orb app]. rewrite small_close, bool_decide_true by done.
      cbn [on_text the_handler format_handler mbind outcome_bind app]. by rewrite IH, append_append.
    + rewrite !bool_decide_false by done. cbn [orb app]. rewrite small_other, small_text by done.
      by rewrite IH, append_append.
Qed.

Lemma on_arg_id_field r st : on_arg_id r st = ('(id, ctx) ← field_id fa r (next_id st); Ret (id, set_id ctx st)).
Proof.
  destruct r as [|i|n]; cbn [on_arg_id on_auto_id on_index_id on_name_id the_handler format_handler field_id].
  - done.
  - by destruct (check_arg_id i (next_id st)).
  - destruct (_ <? 0); [done|]. cbn. by destruct st.
Qed.

Lemma ref_head r d rest : ref_ok r → d = "}"%char ∨ d = ":"%char → r = RefNone ∧ d = "}"%char ∨
  ∃ x l, ref_text r ++ d :: rest = x :: l ∧ x ≠ "}"%char ∧ x ≠ "{"%char.
Proof.
  intros Hr Hd. destruct r as [|i|n]; cbn [ref_text ref_ok] in *.
  - destruct Hd as [->| ->]; [by left|right]. by eexists _, _.
  - right. destruct (utoa_cons i ltac:(lia)) as (c & ds & -> & Hc & _). destruct (digit_not_sep c Hc) as (? & _ & ? & _).
    by eexists _, _.
  - right. destruct n as [|c n]; [done|]. destruct Hr as [Hc _]. destruct (name_not_digit c Hc) as (_ & ? & _ & ?).
    by eexists _, _.
Qed.

(** The state behind the id of a field. *)
Lemma parse_field r d rest st : ref_ok r → d = "}"%char ∨ d = ":"%char →
  parse_replacement_field ("{"%char :: ref_text r ++ d :: rest) st =
    ('(id, ctx) ← field_id fa r (next_id st);
     if bool_decide (d = "}"%char) then
       st ← on_replacement_field id (set_id ctx st); Ret (rest, st)
     else
       '(begin, st) ← on_format_specs id rest (set_id ctx st);
       match begin with
       | e :: begin => if bool_decide (e = "}"%char) then Ret (begin, st) else format_error
       | [] => format_error
       end).
Proof.
  intros Hr Hd. unfold parse_replacement_field. cbn [tail].
  destruct (ref_head r d rest Hr Hd) as [[-> ->] | (x & l & Hx & Hx1 & Hx2)].
  - cbn [ref_text app]. rewrite !bool_decide_true by done. cbn [on_auto_id the_handler format_handler field_id].
    by destruct (next_arg_id (next_id st)) as [[id ctx]| | | |].
  - rewrite Hx, !bool_decide_false by done. rewrite <-Hx, parse_ref by done. cbn [mbind outcome_bind].
    rewrite on_arg_id_field. destruct (field_id fa r (next_id st)) as [[id ctx]| | | |]; try done. cbn [mbind outcome_bind].
    destruct Hd as [->| ->]; [by rewrite bool_decide_true|]. by rewrite bool_decide_false, bool_decide_true by done.
Qed.

Lemma on_specs_text id arg sx rest st : get fa id = Some arg → type_of arg ≠ custom_type → syntax_ok (type_of arg) sx →
  on_format_specs id (spec_text sx ++ "}"%char :: rest) st =
    ('(s, ctx) ← meaning sx (next_id st); s ← fill_in fa s; t ← format_with arg s loc;
     Ret ("}"%char :: rest, append t (set_id ctx st))).
Proof.
  intros Hg Ht Hok. cbn [on_format_specs the_handler format_handler]. unfold format_on_specs, get_arg. rewrite Hg.
  cbn [mbind outcome_bind]. pose proof (parse_specs_text (type_of arg) sx rest (next_id st) Hok) as Hp.
  destruct arg; try done; cbn [type_of] in Hp |- *; rewrite Hp; unfold fill_in;
    destruct (meaning sx (next_id st)) as [[sp ctx]| | | |]; try done; cbn [mbind outcome_bind];
    destruct (handle_dynamic_spec (width sp) _ fa) as [w| | | |]; try done; cbn [mbind outcome_bind];
    (change (precision (set_width w (width_ref sp) sp)) with (precision sp));
    (change (precision_ref (set_width w (width_ref sp) sp)) with (precision_ref sp));
    destruct (handle_dynamic_spec (precision sp) _ fa) as [p'| | | |]; done.
Qed.

Lemma small_segments l : ∀ st, segments_ok fa loc l (next_id st) →
  (st' ← small [] (format_text l) st; Ret (out st')) =
    (t ← format_meaning fa loc l (next_id st); Ret (out st ++ t)).
Proof.
  induction l as [|g l IH]; intros st Hok.
  { change (format_text []) with (@nil ascii). rewrite small_nil. cbn. done. }
  destruct Hok as [Hg Hok]. change (format_text (g :: l)) with (segment_text g ++ format_text l).
  cbn [format_meaning]. destruct g as [t|r [sx|]]; cbn [segment_text segment_meaning] in *.
  - rewrite small_escaped, IH by (by apply (Hok t)). cbn [mbind outcome_bind next_id append out].
    destruct (format_meaning fa loc l (next_id st)); try done. cbn. by rewrite app_assoc.
  - destruct Hg as [Hr Hsx].
    assert ((bs "{" ++ ref_text r ++ bs ":" ++ spec_text sx ++ bs "}") ++ format_text l =
      "{"%char :: ref_text r ++ ":"%char :: spec_text sx ++ "}"%char :: format_text l) as ->.
    { rewrite <-!app_assoc. done. }
    rewrite small_open, on_text_nil. cbn [mbind outcome_bind]. rewrite parse_field by (done || by right).
    destruct (field_id fa r (next_id st)) as [[id ctx]| | | |] eqn:Hid; try done. cbn [mbind outcome_bind] in *.
    rewrite bool_decide_false by done. unfold get_arg in *. destruct (get fa id) as [arg|] eqn:Hget.
    2:{ cbn [on_format_specs the_handler format_handler]. unfold format_on_specs, get_arg. by rewrite Hget. }
    destruct (Hsx id ctx arg eq_refl Hget) as [Hc Hs]. rewrite (on_specs_text id arg) by done.
    cbn [mbind outcome_bind next_id set_id] in *. 
    destruct (meaning sx ctx) as [[s ctx']| | | |]; try done. cbn [mbind outcome_bind] in *.
    destruct (fill_in fa s) as [s'| | | |]; try done. cbn [mbind outcome_bind] in *.
    destruct (format_with arg s' loc) as [t| | | |]; try done. cbn [mbind outcome_bind] in *.
    rewrite bool_decide_true by done. cbn [mbind outcome_bind].
    rewrite IH by (by apply (Hok t)). cbn [append set_id out next_id].
    destruct (format_meaning fa loc l ctx'); try done. cbn. by rewrite app_assoc.
  - assert ((bs "{" ++ ref_text r ++ bs "}") ++ format_text l = "{"%char :: ref_text r ++ "}"%char :: format_text l) as ->.
    { rewrite <-!app_assoc. done. }
    rewrite small_open, on_text_nil. cbn [mbind outcome_bind]. rewrite parse_field by (done || by left).
    destruct (field_id fa r (next_id st)) as [[id ctx]| | | |] eqn:Hid; try done. cbn [mbind outcome_bind] in *.
    rewrite bool_decide_true by done. cbn [on_replacement_field the_handler format_handler].
    unfold get_arg in *. destruct (get fa id) as [arg|] eqn:Hget; try done. cbn [mbind outcome_bind] in *.
    destruct (default_format arg loc) as [t| | | |]; try done. cbn [mbind outcome_bind] in *.
    rewrite IH by (by apply (Hok t)). cbn [append set_id out next_id].
    destruct (format_meaning fa loc l ctx); try done. cbn. by rewrite app_assoc.
Qed.

Lemma vformat_small s : vformat_to fa loc s = (st ← small [] s (FormatState [] 0); Ret (out st)).
Proof.
  unfold vformat_to. case_bool_decide as E.
  - subst s. change (bs "{}") with (format_text [Field RefNone None]). rewrite small_segments; [|by cbn].
    cbn. destruct (get_arg fa 0) as [a| | | |]; try done. cbn. destruct (default_format a loc) as [t| | | |]; try done. cbn.
    by rewrite app_nil_r.
  - by rewrite parse_format_string_small.
Qed.

(** ** Every format string ends *)

Hypothesis args_ok : Forall arg_ok (args fa).
Hypothesis sep_ok : is_digit_char (numpunct_thousands_sep loc) = false.

Lemma dynamic_total v r : -1 <= v <= INT_MAX → error_or (λ x, x = v ∧ r = RefNone ∨ 0 <= x <= INT_MAX) (handle_dynamic_spec v r fa).
Proof.
  intros Hv. assert (∀ a, error_or (λ x, x = v ∧ r = RefNone ∨ 0 <= x <= INT_MAX) (get_dynamic_spec a)) as Hd.
  { intros [a|]; [|exact eq_refl]. unfold get_dynamic_spec. destruct a; try exact eq_refl;
      cbn [check_dynamic]; destruct (_ <? 0) eqn:E1; try exact eq_refl; cbn [mbind outcome_bind];
      destruct (INT_MAX <? _) eqn:E2; try exact eq_refl; bool_hyps; cbn; right; lia. }
  destruct r; cbn [handle_dynamic_spec]; [by left|apply Hd..].
Qed.

Lemma on_specs_total id s st : error_or (λ x, (length x.1 ≤ length s)%nat) (on_format_specs id s st).
Proof.
  cbn [on_format_specs the_handler format_handler]. unfold format_on_specs, get_arg.
  destruct (get fa id) as [a|] eqn:Ha; [|exact eq_refl]. cbn [mbind outcome_bind]. apply (get_forall _ _ _ args_ok) in Ha.
  assert (∀ t, t = type_of a → error_or (λ x, (length x.1 ≤ length s)%nat)
    ('(begin, specs, ctx) ← parse_format_specs s (next_id st) t;
     w ← handle_dynamic_spec (width specs) (width_ref specs) fa;
     let specs := set_width w (width_ref specs) specs in
     p ← handle_dynamic_spec (precision specs) (precision_ref specs) fa;
     let specs := set_precision p (precision_ref specs) specs in
     match begin with
     | c :: _ =>
         if bool_decide (c = "}"%char) then
           t ← format_with a specs loc; Ret (begin, append t (set_id ctx st))
         else format_error
     | [] => format_error
     end)) as Hp.
  { intros t _. pose proof (parse_specs_total s (next_id st) t) as Ht.
    pose proof (parse_specs_ok s (next_id st) t) as Hok.
    destruct (parse_format_specs _ _ _) as [[[bb sp] ctx]| | | |]; try done. specialize (Hok _ eq_refl). cbn [fst snd] in *.
    cbn [mbind outcome_bind]. destruct Hok as [Hw Hpr].
    eapply error_or_bind; [apply dynamic_total; lia|]. intros w Hw'. cbv zeta.
    eapply error_or_bind; [apply dynamic_total; exact Hpr|]. intros q Hq.
    destruct bb as [|c bb]; [exact eq_refl|]. case_bool_decide; [|exact eq_refl].
    eapply error_or_bind; [apply format_with_total; [done| |done]|by intros ? _].
    split; cbn; [destruct Hw' as [[-> _]|]; lia|]. cbn in Hq. destruct Hq as [[-> _]|]; lia. }
  destruct a as [v|v|v|v|v|v|v ?|v|v|fn]; try (by apply Hp).
  eapply error_or_bind; [apply Ha|]. by intros [[b ctx] t] Hb.
Qed.

Lemma parse_field_total s st : error_or (λ x, (length x.1 ≤ length s)%nat) (parse_replacement_field ("{"%char :: s) st).
Proof.
  unfold parse_replacement_field. cbn [tail]. destruct s as [|c s]; [exact eq_refl|].
  assert (∀ id st, error_or (λ _, True) (on_replacement_field id st)) as Hf.
  { intros id st'. cbn [on_replacement_field the_handler format_handler]. unfold get_arg.
    destruct (get fa id) as [a|] eqn:Ha; [|exact eq_refl]. cbn [mbind outcome_bind]. apply (get_forall _ _ _ args_ok) in Ha.
    eapply error_or_bind; [by apply default_format_total|]. done. }
  case_bool_decide; [|case_bool_decide].
  - cbn [on_auto_id the_handler format_handler]. eapply (error_or_bind (λ _, True)).
    { eapply error_or_bind; [apply next_arg_total|]. by intros [id ctx] _. }
    intros [id st'] _. eapply error_or_bind; [apply Hf|]. intros st2 _. cbn. lia.
  - cbn. lia.
  - eapply error_or_bind; [apply parse_arg_id_total|]. intros [r b] Hb. cbn [snd] in Hb.
    assert (error_or (λ _, True) (on_arg_id r st)) as Hid.
    { rewrite on_arg_id_field. eapply (error_or_bind (λ _, True)); [|by intros [? ?] _].
      destruct r as [|i|n]; cbn [field_id]; [apply next_arg_total| |by case_match].
      eapply error_or_bind; [apply check_arg_total|done]. }
    eapply error_or_bind; [exact Hid|]. intros [id st'] _. destruct b as [|d b]; [exact eq_refl|].
    case_bool_decide; [|case_bool_decide; [|exact eq_refl]].
    + eapply error_or_bind; [apply Hf|]. intros st2 _. cbn in *. lia.
    + eapply error_or_bind; [apply on_specs_total|]. intros [[|e b'] st2] Hb'; [exact eq_refl|].
      case_bool_decide; [|exact eq_refl]. cbn in *. lia.
Qed.

Lemma small_total n : ∀ text p st, (length p <= n)%nat → error_or (λ _, True) (small text p st).
Proof.
  induction n as [|n IH]; intros text p st Hn; destruct p as [|c p]; try (by rewrite small_nil); [cbn in Hn; lia|]. cbn in Hn.
  destruct (decide (c = "{"%char)) as [->|H1].
  - rewrite small_open. cbn [on_text the_handler format_handler mbind outcome_bind].
    eapply error_or_bind; [apply parse_field_total|]. intros [b st'] Hb. cbn in Hb. apply IH. lia.
  - destruct (decide (c = "}"%char)) as [->|H2]; [|rewrite small_other by done; apply IH; lia].
    rewrite small_close. destruct p as [|d p]; [exact eq_refl|]. case_bool_decide; [|exact eq_refl].
    cbn [on_text the_handler format_handler mbind outcome_bind]. cbn in Hn. apply IH. lia.
Qed.
End handler.

Lemma format_text_meaning fa loc l : Forall arg_reads (args fa) → segments_ok fa loc l 0 →
  vformat_to fa loc (format_text l) = format_meaning fa loc l 0.
Proof.
  intros Ha Hl. rewrite vformat_small, small_segments by done. cbn [next_id out].
  by destruct (format_meaning fa loc l 0).
Qed.

(** Automatic fields one after the other. *)
Lemma auto_ok fa loc sx l n arg s ctx : 0 <= n → get fa n = Some arg → type_of arg ≠ custom_type →
  syntax_ok (type_of arg) sx → meaning sx (n + 1) = Ret (s, ctx) → segments_ok fa loc l ctx →
  segments_ok fa loc (Field RefNone (Some sx) :: l) n.
Proof.
  intros Hn Hg Hc Hs Hm Hl. assert (field_id fa RefNone n = Ret (n, runtime (n + 1))) as Hid by by apply next_arg_runtime.
  split; [split; [done|]|].
  - rewrite Hid. intros id ctx' a Hi Ha. injection Hi as <- <-. rewrite Hg in Ha. by injection Ha as <-.
  - intros t ctx'. cbn [segment_meaning]. rewrite Hid. unfold get_arg. cbn [mbind outcome_bind]. rewrite Hg.
    cbn [mbind outcome_bind]. rewrite Hm. cbn [mbind outcome_bind]. intros H. outcome_inv. done.
Qed.

Lemma plain_auto_ok fa loc l n : 0 <= n → segments_ok fa loc l (n + 1) → segments_ok fa loc (Field RefNone None :: l) n.
Proof.
  intros Hn Hl. split; [done|]. intros t ctx'. cbn [segment_meaning field_id]. rewrite next_arg_runtime by done. cbn [mbind outcome_bind]. intros H. outcome_inv. done.
Qed.

Lemma text_ok fa loc t l n : segments_ok fa loc l n → segments_ok fa loc (Text t :: l) n.
Proof. intros Hl. split; [done|]. intros t' ctx' H. by injection H as <- <-. Qed.

Lemma auto_meaning fa loc sx l n arg s ctx : 0 <= n → get fa n = Some arg → meaning sx (n + 1) = Ret (s, ctx) →
  format_meaning fa loc (Field RefNone (Some sx) :: l) n =
    (s ← fill_in fa s; t ← format_with arg s loc; r ← format_meaning fa loc l ctx; Ret (t ++ r)).
Proof.
  intros Hn Hg Hm. cbn [format_meaning segment_meaning field_id]. rewrite next_arg_runtime by done. unfold get_arg.
  cbn [mbind outcome_bind]. rewrite Hg. cbn [mbind outcome_bind].
  rewrite Hm. cbn [mbind outcome_bind]. destruct (fill_in fa s) as [s'| | | |]; try done. cbn [mbind outcome_bind].
  by destruct (format_with arg s' loc).
Qed.

Lemma plain_auto_meaning fa loc l n arg : 0 <= n → get fa n = Some arg →
  format_meaning fa loc (Field RefNone None :: l) n =
    (t ← default_format arg loc; r ← format_meaning fa loc l (n + 1); Ret (t ++ r)).
Proof.
  intros Hn Hg. cbn [format_meaning segment_meaning field_id]. rewrite next_arg_runtime by done. unfold get_arg.
  cbn [mbind outcome_bind]. rewrite Hg. cbn [mbind outcome_bind].
  by destruct (default_format arg loc).
Qed.

Lemma text_meaning fa loc t l n : format_meaning fa loc (Text t :: l) n = (r ← format_meaning fa loc l n; Ret (t ++ r)).
Proof. done. Qed.

(** ** C strings with the specifier of strings *)

Lemma write_string_plain s specs : width specs = 0 → precision specs = -1 → type specs ≠ debug → write_string s specs = Ret s.
Proof.
  intros Hw Hp Ht. unfold write_string, check_debug. rewrite Hw, Hp, bool_decide_false by done. cbn [Z.leb Z.compare andb Z.eqb].
  rewrite Nat2Z.id, take_ge by done. cbn [mbind outcome_bind].
  rewrite (write_padded_spec false) by (rewrite ?Hw; unfold INT_MAX; lia). by rewrite pad_nothing by lia.
Qed.

(** The specifiers of a type alone. *)
Definition type_only (c : ascii) : syntax := Syntax None None false false None None false (Some c).

Lemma type_only_ok arg c t types : presentation c = Some (t, types) → in_types arg types = true → syntax_ok arg (type_only c).
Proof.
  intros Hp Ht. split_and!; cbn; try done; try (by intros [? [=]]).
  intros d Hd. injection Hd as <-. by eexists _, _.
Qed.

Lemma format_s_cstring p t : 0 < p < 2 ^ 64 → format (bs "{:s}") [ACString p t] = Ret t.
Proof.
  intros Hp. unfold format. change (bs "{:s}") with (format_text [Field RefNone (Some (type_only "s"))]).
  assert (meaning (type_only "s") (0 + 1) = Ret (set_type pres_string default_specs, runtime 1)) as Hm by done.
  rewrite format_text_meaning; [|by repeat constructor|].
  - erewrite auto_meaning; [|done|reflexivity|exact Hm]. change (fill_in _ _) with (Ret (set_type pres_string default_specs)).
    cbn [mbind outcome_bind format_with]. unfold write_cstring. rewrite (proj2 (Z.eqb_neq p 0)) by lia.
    rewrite bool_decide_false by done. cbn [negb]. rewrite write_string_plain by done. cbn. by rewrite app_nil_r.
  - eapply auto_ok; [done|reflexivity|done|by eapply type_only_ok|exact Hm|done].
Qed.

Lemma sv_format_text v s ctx : sv_format v s ctx = (t ← format_sv v; Ret (s, ctx, t)).
Proof.
  unfold sv_format, format_sv, format_to_n. destruct (ptr_ v) as [p|]; cbn [mbind outcome_bind]; [|vm_compute; reflexivity].
  destruct (c_str p) as [t| | | |]; try done. cbn [mbind outcome_bind]. by rewrite format_s_cstring by done.
Qed.

Lemma sv_formatter_reads v : arg_reads (sv_formatter v).
Proof. intros s ctx. rewrite sv_format_text. destruct (format_sv v); try done. cbn. lia. Qed.

Lemma status_format_text st s ctx : status_format st s ctx = Ret (s, ctx, format_status st).
Proof.
  unfold status_format, format. change (bs "{}") with (format_text [Field RefNone None]).
  rewrite format_text_meaning; [|by repeat constructor|by apply plain_auto_ok].
  erewrite plain_auto_meaning; [|done|reflexivity]. cbn. by rewrite app_nil_r.
Qed.

(** * Properties *)

(** The two loops over a format string are the same. For every handler that takes no text for nothing
    and reads on in its specifiers, and every format string, the loop that looks at one character after the
    other and the one that searches for braces in two passes make the same calls: they end in the same
    state, or in the same error. *)
Theorem loops_agree {S} `{HandlerLaws S} (format_str : bytes) (st : S) :
  big_loop (Datatypes.S (length format_str)) format_str st =
  small_loop (Datatypes.S (length format_str)) [] format_str st.
Proof. apply big_loop_small. lia. Qed.

Lemma loops_agree_witness :
  let l := [AInt 1; AString (bs "two")] in
  big_loop (H := format_handler (Args l []) classic_locale) 41
    (bs "{} and {:>5}, in braces {{}} and no more.") (FormatState [] 0) =
  small_loop (H := format_handler (Args l []) classic_locale) 41 []
    (bs "{} and {:>5}, in braces {{}} and no more.") (FormatState [] 0).
Proof.
  cbv zeta. refine (@loops_agree _ (format_handler (Args [AInt 1; AString (bs "two")] []) classic_locale) _
    (bs "{} and {:>5}, in braces {{}} and no more.") (FormatState [] 0)).
  apply handler_laws. repeat constructor.
Defined.

(** C11: format strings mean what they are written as. A string made of text with its braces doubled and
    of fields, with automatic ids, numbers or names and with specifiers for the arguments they get, yields
    the texts and the formatted arguments one behind the other; mixing automatic ids with numbers, an
    argument that is not there and a dynamic width or precision that is no number in range are errors. *)
Theorem format_roundtrip fa loc (l : list segment) : Forall arg_reads (args fa) → segments_ok fa loc l 0 →
  vformat_to fa loc (format_text l) = format_meaning fa loc l 0.
Proof. apply format_text_meaning. Qed.

Lemma format_roundtrip_witness :
  let fa := Args [AInt (-7); AString (bs "x"); AUInt 9] [(bs "n", 2)] in
  let l := [Text (bs "{a}"); Field RefNone None; Text (bs " ");
            Field RefNone (Some (Syntax (Some (Some (bs "."), ">"%char)) None false false (Some (CArg (RefName (bs "n")))) None false None))] in
  format_text l = bs "{{a}}{} {:.>{n}}" ∧
  vformat_to fa classic_locale (format_text l) = format_meaning fa classic_locale l 0 ∧
  format_meaning fa classic_locale l 0 = Ret (bs "{a}-7 ........x").
Proof.
  cbv zeta. split_and!; [vm_compute; reflexivity| |vm_compute; reflexivity].
  apply format_roundtrip.
  - repeat constructor; by vm_compute.
  - split; [done|]. intros t1 c1 E1. vm_compute in E1. injection E1 as <- <-.
    split; [done|]. intros t2 c2 E2. vm_compute in E2. injection E2 as <- <-.
    split; [done|]. intros t3 c3 E3. vm_compute in E3. injection E3 as <- <-.
    split; [|by intros ? ? _]. split; [done|]. intros id ctx' arg Hid Hg. vm_compute in Hid. injection Hid as <- <-.
    vm_compute in Hg. injection Hg as <-. split; [done|]. split_and!; try done.
    + intros f c Hf. injection Hf as <- <-. split; [done|]. cbn. split_and!; [done..|constructor].
Defined.

(** C38: whatever the format string, formatting ends with a text or with [format_error]. No format string,
    however malformed, makes the library assert, read outside of it or of an argument, or go on for ever,
    provided that the C strings are not null and the formatters of custom arguments end. *)
Theorem vformat_total fa loc fmt : Forall arg_ok (args fa) → is_digit_char (numpunct_thousands_sep loc) = false →
  error_or (λ _, True) (vformat_to fa loc fmt).
Proof.
  intros Ha Hs. assert (Forall arg_reads (args fa)) as Hr by (eapply Forall_impl; [exact Ha|apply arg_ok_reads]).
  rewrite vformat_small by done. eapply error_or_bind; [by eapply (small_total fa loc Hr Ha Hs)|]. done.
Qed.

Lemma vformat_total_witness :
  error_or (λ _, True) (vformat_to (Args [AString (bs "a"); AInt 3] []) classic_locale (bs "{:{}} {0} } {")).
Proof. apply vformat_total; [repeat constructor; by vm_compute|done]. Defined.


(** The message of an error number is what its format string says: the formatter of views and the
    placeholders of "{}: {}" give the view's characters up to a NUL or its size, a colon and the text
    for the number, as the model of the statuses has it; formatting the null view is undefined in both. *)
Theorem errno_message_formatted (strerror : Z → bytes) (n : Z) (message : string_view) :
  format (bs "{}: {}") [sv_formatter message; ACString 1 (strerror n)] =
    MessageForErrnoToStatus strerror n message.
Proof.
  unfold MessageForErrnoToStatus, format.
  change (bs "{}: {}") with (format_text [Field RefNone None; Text (bs ": "); Field RefNone None]).
  rewrite format_text_meaning; [|constructor; [apply sv_formatter_reads|by constructor]
                                |by apply plain_auto_ok, text_ok, plain_auto_ok].
  erewrite plain_auto_meaning; [|done|reflexivity]. rewrite text_meaning.
  erewrite plain_auto_meaning; [|done|reflexivity].
  change (default_format (sv_formatter message) classic_locale) with ('(_, _, out) ← sv_format message [] 0; Ret out).
  rewrite sv_format_text. destruct (format_sv message) as [m| | | |]; try done. cbn. by rewrite app_nil_r.
Qed.
