(* ===== verification/FmtCheck.v ===== *)
(** * Checked format strings (src/cppboot/base/internal/fmt/core.h)

    [format_string_checker]: the handler that reads a format string with the types of the
    arguments only.  In a constant evaluation its context has the types, so that dynamic
    widths and precisions are checked too; a build of C++11 runs the same code at run time. *)

From S2P Require Import Prelude StdString FmtNum FmtSpec FmtUtf8 FmtEscape FmtWrite Fmt.

(** ** Types of arguments *)

(** [parse_func]: from the text of the specifiers to what is left of it. *)
Definition parse_func : Type := bytes → context → outcome (bytes * context).

(** A type that the library formats itself, or one with a formatter of its own. *)
Inductive checked_type : Type :=
  | Builtin (t : arg_type)
  | Custom (parse : parse_func).

Definition mapped_type (t : checked_type) : arg_type :=
  match t with Builtin t => t | Custom _ => custom_type end.

(** [formatter<T>::parse] of the built-in types *)
Definition formatter_parse (t : arg_type) : parse_func := λ s ctx,
  '(rest, specs, ctx) ← parse_format_specs s ctx t;
  _ ← (if bool_decide (t = char_type) then check_char_specs specs else Ret true);
  Ret (rest, ctx).

(** [parse_format_specs<T, ParseContext>] *)
Definition parse_funcs (t : checked_type) : parse_func :=
  match t with Builtin t => formatter_parse t | Custom parse => parse end.

(** ** The checker *)

Section checker.
Variable l : list checked_type.

(** The methods of [compile_parse_context] that the checker calls itself. *)
Definition compile_next_arg_id (ctx : context) : outcome (Z * context) :=
  '(id, ctx) ← next_arg_id ctx;
  if len l <=? id then format_error else Ret (id, ctx).
Definition compile_check_arg_id (id : Z) (ctx : context) : outcome context :=
  ctx ← check_arg_id id ctx;
  if len l <=? id then format_error else Ret ctx.

(** Names can be checked from C++20 on only. *)
Definition format_string_checker : Handler context := {|
  on_text t ctx := Ret ctx;
  on_auto_id := compile_next_arg_id;
  on_index_id id ctx := ctx ← compile_check_arg_id id ctx; Ret (id, ctx);
  on_name_id name ctx := format_error;
  on_replacement_field id ctx := Ret ctx;
  on_format_specs id begin ctx :=
    match (if id <? 0 then None else l !! Z.to_nat id) with
    | Some t => parse_funcs t begin ctx
    | None => Ret (begin, ctx)
    end;
|}.

(** [check_format_string]; [constant]: whether a compiler evaluates it. *)
Definition check_format_string (constant : bool) (fmt : bytes) : outcome bool :=
  _ ← parse_format_string (H := format_string_checker) fmt
        (Context 0 (if constant then Some (mapped_type <$> l) else None));
  Ret true.
End checker.

(** ** What it promises *)

(** The types of a list of arguments. A formatter of its own reads the same with the types
    and without, formats what it has read, and has a form without specifiers. *)
Definition run (ctx : context) : context := runtime (next_arg_id_ ctx).

Definition has_type (a : format_arg) (t : checked_type) : Prop :=
  match t with
  | Builtin t => type_of a = t ∧ t ≠ custom_type
  | Custom parse =>
      match a with
      | ACustom fn =>
          (∀ s ctx rest ctx', parse s ctx = Ret (rest, ctx') → (length rest ≤ length s)%nat ∧
             types_ ctx' = types_ ctx ∧ ∃ t, fn s (run ctx) = Ret (rest, run ctx', t)) ∧
          ∃ r, fn [] 0 = Ret r
      | _ => False
      end
  end.

(** An error that a string of checked specifiers still has: a width or a precision in an
    argument that is no number in range.  The argument is there, of an integral type, when
    the compiler has checked it and it has a number. *)
Definition bad_count (constant : bool) (fa : format_args) : Prop :=
  ∃ r, handle_dynamic_spec 0 r fa = format_error ∧
    match r with
    | RefNone => False
    | RefIndex i => constant = true → ∃ a, get fa i = Some a ∧ is_integral_type (type_of a) = true
    | RefName _ => True
    end.

(** * Lemmas *)

(** ** The context at run time *)

(** What reads with the types reads the same without. *)
Definition agree {A} (f : context → outcome (A * context)) : Prop :=
  ∀ ctx x ctx', f ctx = Ret (x, ctx') → f (run ctx) = Ret (x, run ctx') ∧ types_ ctx' = types_ ctx.

Lemma agree_Ret {A} (x : A) : agree (λ ctx, Ret (x, ctx)).
Proof. intros ctx y ctx' H. by injection H as <- <-. Qed.

Lemma agree_bind {A B} (f : context → outcome (A * context)) (g : A → context → outcome (B * context)) :
  agree f → (∀ x, agree (g x)) → agree (λ ctx, '(x, ctx) ← f ctx; g x ctx).
Proof.
  intros Hf Hg ctx y ctx' H. outcome_inv. destruct x as [x c]. destruct (Hf _ _ _ Hx) as [-> Ht].
  cbn [mbind outcome_bind]. destruct (Hg _ _ _ _ H) as [-> Ht']. split; [done|by etrans].
Qed.

Lemma agree_const {A B} (m : outcome A) (g : A → context → outcome (B * context)) :
  (∀ x, agree (g x)) → agree (λ ctx, x ← m; g x ctx).
Proof. intros Hg ctx y ctx' H. destruct m as [x| | | |]; try done. by apply Hg. Qed.

Lemma agree_Throw {A} e : agree (λ _, Throw e : outcome (A * context)).
Proof. done. Qed.

Lemma next_arg_agree : agree next_arg_id.
Proof.
  intros ctx x ctx' H. unfold next_arg_id in *. cbn [run runtime next_arg_id_]. destruct (_ <? 0); [done|].
  outcome_inv. done.
Qed.

Lemma check_arg_agree id ctx ctx' : check_arg_id id ctx = Ret ctx' →
  check_arg_id id (run ctx) = Ret (run ctx') ∧ types_ ctx' = types_ ctx.
Proof.
  intros H. unfold check_arg_id in *. cbn [run runtime next_arg_id_]. destruct (0 <? _); [done|]. outcome_inv. done.
Qed.

Lemma on_dynamic_agree r : agree (on_dynamic_id r).
Proof.
  destruct r as [|id|n]; cbn [on_dynamic_id]; [| |apply agree_Ret].
  - apply agree_bind; [apply next_arg_agree|]. intros id ctx x ctx' H. outcome_inv. done.
  - intros ctx x ctx' H. apply bind_Ret in H as (c & Hc & H). cbn [on_dynamic_id].
    destruct (check_arg_agree _ _ _ Hc) as [-> Ht]. by outcome_inv.
Qed.

Lemma parse_dynamic_agree b v r : agree (parse_dynamic_spec b v r).
Proof.
  change (agree (λ ctx, parse_dynamic_spec b v r ctx)). destruct b as [|c b]; [done|]. cbn [parse_dynamic_spec].
  destruct (is_digit_char c).
  - apply agree_const. intros [n b']. destruct (_ =? _); [apply agree_Throw|apply (agree_Ret (b', n, r))].
  - case_bool_decide; [|apply (agree_Ret (c :: b, v, r))].
    apply (agree_bind (λ ctx, match b with
      | [] => Ret (b, r, ctx)
      | _ => '(r, begin) ← parse_arg_id b; '(ref, ctx) ← on_dynamic_id r ctx; Ret (begin, ref, ctx)
      end) (λ x ctx, let '(begin, ref) := x in match begin with
        | d :: begin => if bool_decide (d = "}"%char) then Ret (begin, v, ref, ctx) else format_error
        | [] => format_error
        end)).
    + destruct b as [|d b]; [apply (agree_Ret ([], r))|]. apply agree_const. intros [r' b'].
      apply agree_bind; [apply on_dynamic_agree|]. intros r2. apply (agree_Ret (b', r2)).
    + intros [[|d b'] r']; [apply agree_Throw|]. cbn [fst snd]. case_bool_decide; [apply (agree_Ret (b', v, r'))|apply agree_Throw].
Qed.

(** A turn of the loop over the specifiers. *)
Definition run_step (r : parsed + (bytes * state * format_specs * context)) :=
  match r with
  | inl (b, specs, ctx) => inl (b, specs, run ctx)
  | inr (b, st, specs, ctx) => inr (b, st, specs, run ctx)
  end.
Definition step_context (r : parsed + (bytes * state * format_specs * context)) : context :=
  match r with inl p => p.2 | inr x => x.2 end.

Lemma parse_precision_agree b v r : agree (parse_precision b v r).
Proof.
  change (agree (λ ctx, parse_precision b v r ctx)). unfold parse_precision. destruct (tail b) as [|c b']; [apply agree_Throw|].
  case_bool_decide; [apply agree_Throw|apply parse_dynamic_agree].
Qed.

Lemma spec_step_agree arg c begin st specs ctx r : spec_step arg c begin st specs ctx = Ret r →
  spec_step arg c begin st specs (run ctx) = Ret (run_step r) ∧ types_ (step_context r) = types_ ctx.
Proof.
  unfold spec_step. intros H.
  repeat match type of H with
  | (if _ then _ else _) = _ => case_test
  | enter_state _ _ _ ≫= _ = _ => apply bind_Ret in H as (? & -> & H)
  | Ret _ = Ret _ => by injection H as <-
  | parse_dynamic_spec _ _ _ _ ≫= _ = _ =>
      apply bind_Ret in H as ([[[? ?] ?] ?] & Hd & H); apply parse_dynamic_agree in Hd as [-> ?]; by injection H as <-
  end.
  - done.
  - apply bind_Ret in H as ([[[? ?] ?] ?] & Hd & H). apply parse_precision_agree in Hd as [Hd ?].
    cbn [mbind outcome_bind]. rewrite Hd. by injection H as <-.
  - destruct (presentation c) as [[t types]|].
    { destruct (negb _); [done|]. by injection H as <-. }
    destruct (bool_decide (c = "}"%char)); [by injection H as <-|]. destruct begin as [|b begin]; [done|].
    destruct (bool_decide (b = "}"%char)); [by injection H as <-|]. destruct (drop _ _) as [|a rest]; [done|].
    destruct (bool_decide (b = "{"%char)); [done|]. apply bind_Ret in H as (? & -> & H). by injection H as <-.
Qed.

Lemma spec_loop_agree arg : ∀ fuel c begin st specs, agree (spec_loop fuel arg c begin st specs).
Proof.
  induction fuel as [|fuel IH]; intros c begin st specs ctx p ctx' H; [done|]. cbn [spec_loop] in *.
  apply bind_Ret in H as (r & Hr & H). apply spec_step_agree in Hr as [-> Ht]. cbn [mbind outcome_bind].
  destruct r as [[[b sp] c1]|[[[b st'] sp] c1]]; cbn [run_step step_context snd] in *; [by injection H as <- <-|].
  destruct b as [|d b]; [by injection H as <- <-|]. apply IH in H as [-> Ht']. split; [done|by etrans].
Qed.

Lemma parse_specs_agree begin arg : agree (λ ctx, parse_format_specs begin ctx arg).
Proof. destruct begin as [|c [|d s]]; [apply (agree_Ret ([], default_specs))|apply spec_loop_agree..]. Qed.

(** ** What parsed specifiers are like *)

(** The number of a dynamic count has been checked, and the presentation fits the type. *)
Definition ref_checked (types : option (list arg_type)) (r : arg_ref) : Prop :=
  match r, types with
  | RefIndex i, Some types => 0 <= i ∧ ∃ t, types !! Z.to_nat i = Some t ∧ is_integral_type t = true
  | _, _ => True
  end.
Definition type_fits (arg : arg_type) (t : presentation_type) : Prop :=
  t = pres_none ∨ ∃ c types, presentation c = Some (t, types) ∧ in_types arg types = true.
Definition specs_checked (types : option (list arg_type)) (arg : arg_type) (s : format_specs) : Prop :=
  ref_checked types (width_ref s) ∧ ref_checked types (precision_ref s) ∧ type_fits arg (type s).

Lemma parse_arg_id_index b i rest : parse_arg_id b = Ret (RefIndex i, rest) → 0 <= i.
Proof.
  destruct b as [|c b]; [done|]. cbn [parse_arg_id]. destruct (_ || _); [by intros [=]|]. cbn [do_parse_arg_id].
  destruct (is_digit_char c).
  - intros H. apply bind_Ret in H as ([j r] & Hj & H). assert (0 <= j) as Hj0.
    { case_bool_decide; [by injection Hj as <- <-|]. apply parse_int_range in Hj. unfold INT_MAX in *. lia. }
    destruct r as [|d r]; [done|]. destruct (_ || _); [|done]. by injection H as <- <-.
  - destruct (is_name_start c); [|done]. cbn [negb]. destruct (name_loop b). by intros [=].
Qed.

Lemma dynamic_ref_checked r ctx r' ctx' : on_dynamic_id r ctx = Ret (r', ctx') → (∀ i, r = RefIndex i → 0 <= i) →
  ref_checked (types_ ctx) r'.
Proof.
  assert (∀ id (c : context), do_check_arg_id id ctx = Ret tt → 0 <= id → types_ c = types_ ctx → check_dynamic_spec id c = Ret tt →
    ref_checked (types_ ctx) (RefIndex id)) as Hk.
  { intros id c Hd Hid Ht Hc. unfold do_check_arg_id, check_dynamic_spec in *. rewrite Ht in *. cbn.
    destruct (types_ ctx) as [types|]; [|done]. destruct (len types <=? id) eqn:El; [done|]. bool_hyps. split; [done|].
    destruct (lookup_lt_is_Some_2 types (Z.to_nat id)) as [t Hl]; [lia|]. rewrite Hl in *. eexists; split; [done|].
    rewrite (proj2 (Z.leb_le 0 id)) in Hc by done. by destruct (is_integral_type t). }
  intros H Hi. destruct r as [|i|n]; cbn [on_dynamic_id] in H; [| |by injection H as <- <-].
  - apply bind_Ret in H as ([id c] & Hn & H). apply bind_Ret in H as ([] & Hc & H). injection H as <- <-.
    unfold next_arg_id in Hn. destruct (_ <? 0) eqn:E; [done|]. bool_hyps. apply bind_Ret in Hn as ([] & Hd & Hn).
    injection Hn as <- <-. by eapply Hk.
  - apply bind_Ret in H as (c & Hn & H). apply bind_Ret in H as ([] & Hc & H). injection H as <- <-.
    unfold check_arg_id in Hn. destruct (0 <? _); [done|]. apply bind_Ret in Hn as ([] & Hd & Hn). injection Hn as <-.
    eapply Hk; [done|by apply Hi|done..].
Qed.

Lemma parse_dynamic_checked b v r ctx b' v' r' ctx' : parse_dynamic_spec b v r ctx = Ret (b', v', r', ctx') →
  ref_checked (types_ ctx) r → ref_checked (types_ ctx) r'.
Proof.
  destruct b as [|c b]; [done|]. cbn [parse_dynamic_spec]. intros H Hr. destruct (is_digit_char c).
  - apply bind_Ret in H as ([n rest] & _ & H). destruct (_ =? _); [done|]. by injection H as <- <- <- <-.
  - case_bool_decide; [|by injection H as <- <- <- <-]. apply bind_Ret in H as ([[b2 r2] c2] & Hd & H).
    assert (ref_checked (types_ ctx) r2) as Hr2.
    { destruct b as [|d b]; [by injection Hd as <- <- <-|]. apply bind_Ret in Hd as ([r3 b3] & Hp & Hd).
      apply bind_Ret in Hd as ([r4 c4] & Ho & Hd). injection Hd as <- <- <-. eapply dynamic_ref_checked; [exact Ho|].
      intros i ->. by eapply parse_arg_id_index. }
    destruct b2 as [|d b2]; [done|]. case_bool_decide; [|done]. by injection H as <- <- <- <-.
Qed.

Lemma spec_step_checked arg c begin st specs ctx r : spec_step arg c begin st specs ctx = Ret r →
  specs_checked (types_ ctx) arg specs → specs_checked (types_ ctx) arg (step_specs r).
Proof.
  intros H (Hw & Hp & Hf). unfold spec_step in H.
  repeat match type of H with
  | (if _ then _ else _) = _ => case_test
  | enter_state _ _ _ ≫= _ = _ => apply bind_Ret in H as (? & _ & H)
  | Ret _ = Ret _ => by injection H as <-
  | parse_dynamic_spec _ _ _ _ ≫= _ = _ =>
      apply bind_Ret in H as ([[[? ?] ?] ?] & Hd & H); apply parse_dynamic_checked in Hd; by injection H as <-
  end.
  - done.
  - injection H as <-. cbn [step_specs fst snd]. case_match; by split_and!.
  - apply bind_Ret in H as ([[[? ?] ?] ?] & Hd & H). injection H as <-. unfold parse_precision in Hd.
    destruct (tail begin); [done|]. case_bool_decide; [done|]. by apply parse_dynamic_checked in Hd.
  - destruct (presentation c) as [[t types]|] eqn:Hc.
    { destruct (in_types arg types) eqn:E'; [|done]. injection H as <-. split_and!; [done..|right]. by exists c, types. }
    destruct (bool_decide (c = "}"%char)); [by injection H as <-|]. destruct begin as [|b begin]; [done|].
    destruct (bool_decide (b = "}"%char)); [by injection H as <-|]. destruct (drop _ _) as [|a rest]; [done|].
    destruct (bool_decide (b = "{"%char)); [done|]. apply bind_Ret in H as (? & _ & H). by injection H as <-.
Qed.

Lemma spec_loop_checked arg : ∀ fuel c begin st specs ctx p, spec_loop fuel arg c begin st specs ctx = Ret p →
  specs_checked (types_ ctx) arg specs → specs_checked (types_ ctx) arg p.1.2.
Proof.
  induction fuel as [|fuel IH]; intros c begin st specs ctx p H Hs; [done|]. cbn [spec_loop] in H.
  apply bind_Ret in H as (r & Hr & H). pose proof (spec_step_checked _ _ _ _ _ _ _ Hr Hs) as Hs'.
  apply spec_step_agree in Hr as [_ Ht].
  destruct r as [[[b sp] c1]|[[[b st'] sp] c1]]; cbn [step_specs step_context fst snd] in *; [by injection H as <-|].
  destruct b as [|d b]; [by injection H as <-|]. rewrite <-Ht. eapply IH; [exact H|]. by rewrite Ht.
Qed.

Lemma parse_specs_checked begin ctx arg p : parse_format_specs begin ctx arg = Ret p → specs_checked (types_ ctx) arg p.1.2.
Proof.
  assert (specs_checked (types_ ctx) arg default_specs) as Hd by (split_and!; [done..|by left]).
  destruct begin as [|c [|d s]]; cbn [parse_format_specs]; [intros H; by injection H as <-|..];
    intros H; by eapply spec_loop_checked.
Qed.

(** ** Specifiers that fit are formatted *)

Definition presentations : list (presentation_type * Z) :=
  [(dec, integral_set); (oct, integral_set); (hex_lower, integral_set); (hex_upper, integral_set);
   (bin_lower, integral_set); (bin_upper, integral_set); (hexfloat_lower, float_set); (hexfloat_upper, float_set);
   (exp_lower, float_set); (exp_upper, float_set); (fixed_lower, float_set); (fixed_upper, float_set);
   (general_lower, float_set); (general_upper, float_set); (chr, integral_set);
   (pres_string, Z.lor (Z.lor bool_set string_set) cstring_set); (pres_pointer, Z.lor pointer_set cstring_set);
   (debug, Z.lor (Z.lor char_set string_set) cstring_set)].

(** The presentations that fit a type. *)
Definition fits (arg : arg_type) : list presentation_type :=
  pres_none :: omap (λ p, if in_types arg p.2 then Some p.1 else None) presentations.

Lemma presentation_in c p : presentation c = Some p → p ∈ presentations.
Proof.
  unfold presentation. intros H. apply (bool_decide_eq_true_1 (p ∈ presentations)).
  repeat (match type of H with (if ?b then _ else _) = _ => destruct b; [by injection H as <-|] end). done.
Qed.

Lemma type_fits_in arg t : type_fits arg t → t ∈ fits arg.
Proof.
  intros [->|(c & types & Hc & Ht)]; [by left|right]. apply presentation_in in Hc. apply list_elem_of_omap.
  exists (t, types). cbn. by rewrite Ht.
Qed.

(** Integers. *)
Lemma write_integer_fits w v specs loc : int_value w v → specs_ok specs → is_digit_char (numpunct_thousands_sep loc) = false →
  int_presentation (type specs) ∨ type specs = chr → ∃ t, write_integer w v specs loc = Ret t.
Proof.
  intros Hv Hok Hsep Ht. destruct (make_write_int_arg_spec w v (sign specs) Hv) as [Harg Habs].
  unfold write_integer, write_loc. rewrite Harg. destruct (localized specs).
  { destruct (write_grouped_text w v (sign specs) specs loc) as (g & _ & ->); eauto. }
  destruct Ht as [Hp|Hc].
  { destruct (write_int_text w v specs Habs Hok Hp) as (ds & _ & ->). eauto. }
  unfold write_int. rewrite Hc. unfold write_char, check_debug. rewrite Hc, bool_decide_false by done.
  apply (write_padded_total false); [done|lia|eauto].
Qed.

Lemma fits_integer arg t : arg ∈ [int_type; uint_type; long_long_type; ulong_long_type] → t ∈ fits arg →
  int_presentation t ∨ t = chr.
Proof.
  intros Ha Ht. assert (t ∈ [pres_none; dec; oct; hex_lower; hex_upper; bin_lower; bin_upper; chr]) as H.
  { do 4 (apply elem_of_cons in Ha as [->|Ha]; [exact Ht|]). by apply elem_of_nil in Ha. }
  destruct t; try (by right); try (left; unfold int_presentation; by_decide); exfalso; revert H; by_decide.
Qed.

Lemma fits_bool t : t ∈ fits bool_type → t ≠ pres_none → t ≠ pres_string → int_presentation t ∨ t = chr.
Proof.
  intros H. change (fits bool_type) with [pres_none; dec; oct; hex_lower; hex_upper; bin_lower; bin_upper; chr; pres_string] in H.
  destruct t; intros; try done; try (by right); try (left; unfold int_presentation; by_decide); exfalso; revert H; by_decide.
Qed.

Lemma fits_char t : t ∈ fits char_type → t ∉ [pres_none; chr; debug] → int_presentation t ∨ t = chr.
Proof.
  intros H. change (fits char_type) with [pres_none; dec; oct; hex_lower; hex_upper; bin_lower; bin_upper; chr; debug] in H.
  destruct t; intros Hn; try (exfalso; apply Hn; by_decide); try (left; unfold int_presentation; by_decide);
    exfalso; revert H; by_decide.
Qed.

(** An argument with the specifiers that have been parsed for its type. *)
Lemma format_with_fits a specs loc : arg_ok a → specs_ok specs → is_digit_char (numpunct_thousands_sep loc) = false →
  type_of a ≠ custom_type → type_fits (type_of a) (type specs) →
  (type_of a = char_type → ∃ b, check_char_specs specs = Ret b) →
  ∃ t, format_with a specs loc = Ret t.
Proof.
  intros Ha Hok Hsep Hc Hf Hch. apply type_fits_in in Hf.
  destruct a as [v|v|v|v|v|v|v ?|v|v|fn]; cbn [format_with arg_ok type_of] in *; try done;
    try (apply write_integer_fits; [first [apply int_value_32; unfold INT_MIN, INT_MAX in *; lia|apply int_value_64; lia]|done|done|];
         eapply fits_integer; [|exact Hf]; by_decide).
  - unfold write_bool. destruct (negb _ && _) eqn:E.
    + bool_hyps. apply write_integer_fits; [apply int_value_32; unfold INT_MIN; destruct v; lia|done|done|by apply fits_bool].
    + apply (write_padded_total false); [done|lia|eauto].
  - destruct (Hch eq_refl) as [b Hb]. unfold write_char_arg. rewrite Hb. cbn [mbind outcome_bind]. destruct b.
    + unfold write_char. apply (write_padded_total false); [done|lia|].
      destruct (check_debug specs); [apply write_escaped_char_total|eauto].
    + apply write_integer_fits; [|done|done|].
      { apply int_value_32. pose proof (uchar_range v). unfold INT_MIN. lia. }
      apply fits_char; [done|]. unfold check_char_specs in Hb. case_bool_decide; [done|]. by destruct (_ || _).
  - unfold write_cstring. destruct (negb _).
    + rewrite (proj2 (Z.eqb_neq v 0)) by lia. by apply write_string_total.
    + apply write_ptr_total; [lia|done].
  - by apply write_string_total.
  - by apply write_ptr_total.
Qed.

(** ** The checker and the formatter, step by step *)

Section checked.
Variable fa : format_args.
Variable loc : locale.
Variable l : list checked_type.
Variable constant : bool.
Hypothesis have_types : Forall2 has_type (args fa) l.
Hypothesis args_ok : Forall arg_ok (args fa).
Hypothesis sep_ok : is_digit_char (numpunct_thousands_sep loc) = false.

#[local] Instance the_checker : Handler context := format_string_checker l.
#[local] Instance the_formatter : Handler format_state := format_handler fa loc.

Definition the_types : option (list arg_type) := if constant then Some (mapped_type <$> l) else None.

(** The context of the checker and the state of the formatter. *)
Definition related (ctx : context) (st : format_state) : Prop := next_id st = run ctx ∧ types_ ctx = the_types.

(** A result that satisfies [P], or the error of a count. *)
Definition ok_or_bad {A} (P : A → Prop) (m : outcome A) : Prop :=
  match m with Ret x => P x | Throw e => e = runtime_error ∧ bad_count constant fa | _ => False end.

Lemma ok_or_bad_bind {A B} (P : A → Prop) (Q : B → Prop) (m : outcome A) (f : A → outcome B) :
  ok_or_bad P m → (∀ x, P x → ok_or_bad Q (f x)) → ok_or_bad Q (m ≫= f).
Proof. destruct m; cbn; auto. Qed.

Lemma type_lookup i t : l !! i = Some t → ∃ a, args fa !! i = Some a ∧ has_type a t ∧ arg_ok a.
Proof.
  intros Ht. destruct (Forall2_lookup_r _ _ _ _ _ have_types Ht) as (a & Ha & Hat). exists a. split_and!; [done..|].
  by apply (Forall_lookup_1 _ _ _ _ args_ok Ha).
Qed.

Lemma arg_lookup id : 0 <= id → id < len l → ∃ a t, l !! Z.to_nat id = Some t ∧ get fa id = Some a ∧ has_type a t ∧ arg_ok a.
Proof.
  intros H0 Hid. destruct (lookup_lt_is_Some_2 l (Z.to_nat id)) as [t Ht]; [lia|].
  destruct (type_lookup _ _ Ht) as (a & Ha & Hat). exists a, t. split; [done|]. unfold get.
  by rewrite (proj2 (Z.ltb_ge id 0)).
Qed.

Lemma checker_laws : HandlerLaws context.
Proof.
  constructor; [done|]. intros id s ctx. cbn [on_format_specs the_checker format_string_checker].
  destruct (if id <? 0 then _ else _) as [t|] eqn:E; [|done]. destruct (id <? 0); [done|].
  destruct (type_lookup _ _ E) as (a & _ & Hat & _). destruct t as [t|parse]; cbn [parse_funcs has_type] in *.
  - unfold formatter_parse. pose proof (parse_specs_total s ctx t) as Ht.
    destruct (parse_format_specs s ctx t) as [[[rest sp] c]| | | |]; try done. cbn [mbind outcome_bind fst] in *.
    by destruct (if bool_decide _ then _ else _).
  - destruct a as [v|v|v|v|v|v|v ?|v|v|fn]; try done. destruct Hat as [Hp _].
    destruct (parse s ctx) as [[rest c]| | | |] eqn:Ep; try done. by apply Hp in Ep as [? _].
Qed.
#[local] Existing Instance checker_laws.

Lemma formatter_laws : HandlerLaws format_state.
Proof. apply handler_laws. eapply Forall_impl; [exact args_ok|apply arg_ok_reads]. Qed.
#[local] Existing Instance formatter_laws.

(** A count: as parsed, or in range, or the error. *)
Lemma count_sim v r : -1 <= v <= INT_MAX → ref_checked the_types r →
  ok_or_bad (λ x, x = v ∧ r = RefNone ∨ 0 <= x <= INT_MAX) (handle_dynamic_spec v r fa).
Proof.
  intros Hv Hr. pose proof (dynamic_total fa v r Hv) as Ht.
  destruct (handle_dynamic_spec v r fa) as [x|e| | |] eqn:E; try done. cbn in Ht. subst e. split; [done|].
  exists r. destruct r as [|i|n]; [done| |done]. split; [done|]. intros Hc. unfold the_types in Hr. rewrite Hc in Hr. destruct Hr as (H0 & t & Hl & Hi).
  rewrite list_lookup_fmap in Hl. destruct (l !! Z.to_nat i) as [ct|] eqn:Ec; [|done]. injection Hl as <-.
  destruct (arg_lookup i H0) as (a & ct' & Hc' & Hg & Hat & _).
  { apply lookup_lt_Some in Ec. lia. }
  rewrite Ec in Hc'. injection Hc' as <-. exists a. split; [done|]. destruct ct as [t|parse]; [|done]. by destruct Hat as [-> _].
Qed.

Lemma replacement_sim id ctx st : 0 <= id → id < len l → related ctx st →
  ∃ st', on_replacement_field (S := format_state) id st = Ret st' ∧ related ctx st'.
Proof.
  intros H0 Hid [Hn Ht]. destruct (arg_lookup id H0 Hid) as (a & t & Hl & Hg & Hat & Hok).
  cbn [on_replacement_field the_formatter format_handler]. unfold get_arg. rewrite Hg. cbn [mbind outcome_bind].
  assert (∃ x, default_format a loc = Ret x) as [x ->]; [|by eexists].
  rewrite default_format_text by done. destruct a as [v|v|v|v|v|v|v ?|v|v|fn]; cbn [default_text arg_ok] in *; eauto.
  - rewrite (proj2 (Z.eqb_neq v 0)) by lia. eauto.
  - by apply write_ptr_total.
  - destruct t as [t|parse]; [by destruct Hat as [<- ?]|]. destruct Hat as [_ [[[? ?] ?] ->]]. cbn. eauto.
Qed.

Lemma custom_sim parse a id s ctx st rest ctx' : has_type a (Custom parse) → get fa id = Some a → related ctx st →
  parse s ctx = Ret (rest, ctx') →
  ∃ st', on_format_specs (S := format_state) id s st = Ret (rest, st') ∧ related ctx' st'.
Proof.
  intros Hat Hg [Hn Ht] Hp. destruct a as [v|v|v|v|v|v|v ?|v|v|fn]; try done. destruct Hat as [Hc _].
  destruct (Hc _ _ _ _ Hp) as (_ & Htc & t & Hf).
  cbn [on_format_specs the_formatter format_handler]. unfold format_on_specs, get_arg. rewrite Hg. cbn [mbind outcome_bind].
  rewrite Hn, Hf. cbn [mbind outcome_bind]. eexists. split; [done|]. split; [done|]. by etrans.
Qed.

(** The specifiers of an argument up to the closing brace. *)
Lemma builtin_sim a id s ctx st rest ctx' : type_of a ≠ custom_type → arg_ok a → get fa id = Some a → related ctx st →
  formatter_parse (type_of a) s ctx = Ret ("}"%char :: rest, ctx') →
  ok_or_bad (λ x, x.1 = "}"%char :: rest ∧ related ctx' x.2) (on_format_specs (S := format_state) id s st).
Proof.
  intros Hnc Hok Hg [Hn Ht] Hp. unfold formatter_parse in Hp. apply bind_Ret in Hp as ([[r sp] c] & Hp & Hq).
  apply bind_Ret in Hq as (b & Hb & Hq). injection Hq as -> <-.
  pose proof (parse_specs_checked _ _ _ _ Hp) as (Hw & Hpr & Hf). rewrite Ht in Hw, Hpr.
  pose proof (parse_specs_ok _ _ _ _ Hp) as Hso. destruct (parse_specs_agree _ _ _ _ _ Hp) as [Hrun Htc].
  assert (∀ w p, specs_ok (set_precision p (precision_ref sp) (set_width w (width_ref sp) sp)) →
    ∃ t, format_with a (set_precision p (precision_ref sp) (set_width w (width_ref sp) sp)) loc = Ret t) as Hfw.
  { intros w p Hok'. apply format_with_fits; try done. intros Ec. rewrite bool_decide_true in Hb by done. by exists b. }
  cbn [fst snd] in *. rename c into ctx''.
  assert (on_format_specs (S := format_state) id s st =
    (w ← handle_dynamic_spec (width sp) (width_ref sp) fa;
     p ← handle_dynamic_spec (precision sp) (precision_ref sp) fa;
     t ← format_with a (set_precision p (precision_ref sp) (set_width w (width_ref sp) sp)) loc;
     Ret ("}"%char :: rest, append t (set_id (run ctx'') st)))) as ->.
  { cbn [on_format_specs the_formatter format_handler]. unfold format_on_specs, get_arg. rewrite Hg, Hn.
    cbn [mbind outcome_bind]. destruct a as [v|v|v|v|v|v|v ?|v|v|fn]; try done; cbn [type_of] in *;
      rewrite Hrun; cbn [mbind outcome_bind precision precision_ref set_width]; rewrite ?bool_decide_true by done; done. }
  eapply ok_or_bad_bind; [apply count_sim; [destruct Hso; lia|done]|]. intros w Hw'.
  eapply ok_or_bad_bind; [apply count_sim; [destruct Hso; lia|done]|]. intros p Hp'.
  destruct (Hfw w p) as [t ->]; [|split; [done|]; split; [done|]; by etrans].
  destruct Hso. split; cbn; [destruct Hw' as [[-> _]|]; lia|destruct Hp' as [[-> _]|]; lia].
Qed.

Lemma arg_id_sim r ctx id c st : on_arg_id (S := context) r ctx = Ret (id, c) → (∀ i, r = RefIndex i → 0 <= i) →
  related ctx st → 0 <= id ∧ id < len l ∧ ∃ st', on_arg_id (S := format_state) r st = Ret (id, st') ∧ related c st'.
Proof.
  intros H Hi [Hn Ht]. destruct r as [|i|n]; cbn [on_arg_id on_auto_id on_index_id on_name_id the_checker the_formatter
    format_string_checker format_handler] in *; [| |done].
  - unfold compile_next_arg_id in H. apply bind_Ret in H as ([j c'] & Hj & H). destruct (len l <=? j) eqn:E; [done|].
    injection H as <- <-. bool_hyps. destruct (next_arg_agree _ _ _ Hj) as [Hr Htc]. rewrite Hn, Hr. cbn [mbind outcome_bind].
    split; [|split; [done|eexists; split; [done|]; split; [done|by etrans]]].
    unfold next_arg_id in Hj. destruct (_ <? 0) eqn:E0; [done|]. bool_hyps. apply bind_Ret in Hj as (? & _ & Hj). by injection Hj as <- _.
  - unfold compile_check_arg_id in H. apply bind_Ret in H as (c' & H & Hid). injection Hid as <- <-.
    apply bind_Ret in H as (c2 & Hc & H). destruct (len l <=? i) eqn:E; [done|]. injection H as <-. bool_hyps.
    destruct (check_arg_agree _ _ _ Hc) as [Hr Htc]. rewrite Hn, Hr. cbn [mbind outcome_bind].
    split; [by apply Hi|]. split; [done|]. eexists. split; [done|]. split; [done|by etrans].
Qed.

Lemma specs_sim id s ctx st rest ctx' : 0 <= id → id < len l → related ctx st →
  on_format_specs (S := context) id s ctx = Ret ("}"%char :: rest, ctx') →
  ok_or_bad (λ x, x.1 = "}"%char :: rest ∧ related ctx' x.2) (on_format_specs (S := format_state) id s st).
Proof.
  intros H0 Hid Hrel H. destruct (arg_lookup id H0 Hid) as (a & t & Hl & Hg & Hat & Hok).
  cbn [on_format_specs the_checker format_string_checker] in H. rewrite (proj2 (Z.ltb_ge id 0)), Hl in H by done.
  destruct t as [t|parse]; cbn [parse_funcs] in H.
  - destruct Hat as [<- Hc]. by eapply builtin_sim.
  - destruct (custom_sim parse a id s ctx st _ _ Hat Hg Hrel H) as (st' & -> & ?). done.
Qed.

Lemma field_sim s ctx st rest ctx' : related ctx st →
  parse_replacement_field (S := context) ("{"%char :: s) ctx = Ret (rest, ctx') →
  ok_or_bad (λ x, x.1 = rest ∧ related ctx' x.2) (parse_replacement_field (S := format_state) ("{"%char :: s) st).
Proof.
  intros Hrel H. unfold parse_replacement_field in *. cbn [tail] in *. destruct s as [|c s]; [done|].
  case_bool_decide; [|case_bool_decide].
  - apply bind_Ret in H as ([id c1] & Hid & H). injection H as <- <-.
    destruct (arg_id_sim RefNone ctx id c1 st Hid ltac:(done) Hrel) as (Hi0 & Hl & st1 & Hst & Hrel1).
    cbn [on_arg_id] in Hst. rewrite Hst. cbn [mbind outcome_bind].
    destruct (replacement_sim id c1 st1 Hi0 Hl Hrel1) as (st2 & -> & ?). done.
  - injection H as <- <-. done.
  - apply bind_Ret in H as ([r b] & Hp & H). rewrite Hp. cbn [mbind outcome_bind].
    apply bind_Ret in H as ([id c1] & Hid & H).
    destruct (arg_id_sim r ctx id c1 st Hid) as (Hi0 & Hl & st1 & -> & Hrel1); [|done|].
    { intros i ->. by eapply parse_arg_id_index. }
    cbn [mbind outcome_bind]. destruct b as [|d b]; [done|]. case_bool_decide; [|case_bool_decide; [|done]].
    + injection H as <- <-. destruct (replacement_sim id c1 st1 Hi0 Hl Hrel1) as (st2 & -> & ?). done.
    + apply bind_Ret in H as ([b2 c2] & Hs & H). destruct b2 as [|e b2]; [done|].
      case_bool_decide; [|done]. subst e. injection H as <- <-.
      eapply ok_or_bad_bind; [by eapply specs_sim|]. intros [b3 st2] [Hb3 Hr3]. cbn [fst snd] in *. rewrite Hb3.
      by rewrite bool_decide_true.
Qed.

Lemma small_sim n : ∀ text p ctx st ctx', (length p <= n)%nat → related ctx st →
  small (S := context) text p ctx = Ret ctx' → ok_or_bad (related ctx') (small (S := format_state) text p st).
Proof.
  induction n as [|n IH]; intros text p ctx st ctx' Hn Hrel H; (destruct p as [|c p]; [|cbn in Hn]); try lia.
  1, 2: rewrite (small_nil (S := context)) in H; rewrite (small_nil (S := format_state)); injection H as <-; by destruct Hrel.
  destruct (decide (c = "{"%char)) as [->|H1].
  - rewrite (small_open (S := context)) in H; rewrite (small_open (S := format_state)). cbn [on_text the_checker the_formatter format_handler format_string_checker mbind outcome_bind] in *.
    apply bind_Ret in H as ([b c1] & Hp & H). pose proof (parse_field_rest _ _ _ _ _ Hp) as Hl.
    eapply ok_or_bad_bind; [eapply (field_sim p ctx (append text st)); [|exact Hp]; by destruct Hrel|].
    intros [b' st'] [Hb Hr]. cbn [fst snd] in *. subst b'. eapply IH; [|exact Hr|exact H]. lia.
  - destruct (decide (c = "}"%char)) as [->|H2]; [|rewrite (small_other (S := context)) in H by done; rewrite (small_other (S := format_state)) by done; eapply IH; [|exact Hrel|exact H]; lia].
    rewrite (small_close (S := context)) in H; rewrite (small_close (S := format_state)). destruct p as [|d p]; [done|]. case_bool_decide; [|done].
    cbn [on_text the_checker the_formatter format_handler format_string_checker mbind outcome_bind] in *. cbn in Hn.
    eapply IH; [|by destruct Hrel|exact H]. lia.
Qed.

Lemma checked_format fmt b : check_format_string l constant fmt = Ret b →
  ok_or_bad (λ _, True) (vformat_to fa loc fmt).
Proof.
  intros H. unfold check_format_string in H. apply bind_Ret in H as (ctx' & H & _).
  change (parse_format_string fmt (Context 0 the_types) = Ret ctx') in H. rewrite parse_format_string_small in H.
  rewrite vformat_small by (eapply Forall_impl; [exact args_ok|apply arg_ok_reads]).
  eapply ok_or_bad_bind; [|done]. eapply small_sim; [done| |exact H]. done.
Qed.
End checked.

(** * Properties *)


