(* ===== verification/Log.v ===== *)
(** * The log (src/cppboot/base: log.h, log.cc; src/cppboot/plugins/hello)

    The severities, the base name of a source file, and the functions behind the macros
    [CPPBOOT_LOG] and [CPPBOOT_CHECK]: they format a message and give it to the function that
    is registered.  The one that is registered at first prints a line with [println]. *)

From S2P Require Import Prelude StdString FmtNum FmtSpec FmtUtf8 FmtEscape FmtWrite Fmt.

(** ** Severities: an [enum class] over [int] *)

Definition LogSeverity : Type := Z.
Definition kDebug : LogSeverity := 0.
Definition kInfo : LogSeverity := 1.
Definition kWarning : LogSeverity := 2.
Definition kError : LogSeverity := 3.
Definition kFatal : LogSeverity := 4.

Definition LogSeverityName (s : LogSeverity) : bytes :=
  if s =? kDebug then bs "DEBUG"
  else if s =? kInfo then bs "INFO"
  else if s =? kWarning then bs "WARNING"
  else if s =? kError then bs "ERROR"
  else if s =? kFatal then bs "FATAL"
  else bs "UNKNOWN".

(** ** Base names: the search starts at the end *)

Definition is_separator (c : ascii) : bool := bool_decide (c = "/"%char) || bool_decide (c = "\"%char).

Fixpoint Basename (fname : bytes) (offset : nat) : outcome bytes :=
  match offset with
  | O => Ret fname
  | S k =>
      c ← or_undef (fname !! k);
      if is_separator c then Ret (drop offset fname) else Basename fname k
  end.

(** ** Logging *)

Section log.
(** What a log function changes, and what the standard output makes of a text. *)
Context {Sink : Type} (print : bytes → Sink → outcome Sink).

Definition InternalLogFunction : Type := LogSeverity → bytes → Z → bytes → Sink → outcome Sink.

(** [fmt::println] *)
Definition println (fmt : bytes) (args : list format_arg) (st : Sink) : outcome Sink :=
  text ← format fmt args;
  line ← format (bs "{}" ++ [LF]) [AString text];
  print line st.

Definition null_log_func : InternalLogFunction := λ severity file line message st,
  println (bs "[{} {}:{}] {}")
    [ACString 1 (LogSeverityName severity); ACString 1 file; AInt line; AString message] st.

(** The function that is registered, and the rest. *)
Record logger : Type := Logger { internal_log_function : InternalLogFunction; rest : Sink }.

Definition new_logger (st : Sink) : logger := Logger null_log_func st.

Definition RegisterInternalLogFunction (func : InternalLogFunction) (l : logger) : logger := Logger func (rest l).

Definition CallLogHandler (severity : LogSeverity) (file : bytes) (line : Z) (message : bytes) (l : logger) : outcome logger :=
  st ← internal_log_function l severity file line message (rest l);
  Ret (Logger (internal_log_function l) st).

Definition CallRawLogHandler := CallLogHandler.

Definition Log (severity : LogSeverity) (file : bytes) (line : Z) (fmt : bytes) (args : list format_arg) (l : logger) : outcome logger :=
  message ← format fmt args;
  CallLogHandler severity file line message l.

Definition RawLog (severity : LogSeverity) (file : bytes) (line : Z) (fmt : bytes) (args : list format_arg) (l : logger) : outcome logger :=
  message ← format fmt args;
  CallRawLogHandler severity file line message l.

(** The macros, at a place of a source file. *)
Definition CPPBOOT_LOG (severity : LogSeverity) (FILE : bytes) (LINE : Z) (fmt : bytes) (args : list format_arg) (l : logger) : outcome logger :=
  basename ← Basename FILE (length FILE);
  Log severity basename LINE fmt args l.

Definition CPPBOOT_RAW_LOG (severity : LogSeverity) (FILE : bytes) (LINE : Z) (fmt : bytes) (args : list format_arg) (l : logger) : outcome logger :=
  basename ← Basename FILE (length FILE);
  RawLog severity basename LINE fmt args l.

(** [condition]: its value and its text; the message is a C string. *)
Definition CPPBOOT_CHECK (condition : bool) (text message : bytes) (FILE : bytes) (LINE : Z) (l : logger) : outcome logger :=
  if negb condition then
    CPPBOOT_LOG kFatal FILE LINE (bs "Check {:s} failed: {:s}") [ACString 1 text; ACString 1 message] l
  else Ret l.

(** ** The plugin "hello": its two functions *)

Definition hello_init (FILE : bytes) (LINE : Z) (l : logger) : outcome (Z * logger) :=
  l ← CPPBOOT_LOG kInfo FILE LINE (bs "Hello init") [] l; Ret (0, l).

Definition hello_exit (FILE : bytes) (LINE : Z) (l : logger) : outcome logger :=
  CPPBOOT_LOG kInfo FILE LINE (bs "Hello exit") [] l.

(** * Lemmas *)

Lemma format_plain_line text : format (bs "{}" ++ [LF]) [AString text] = Ret (text ++ [LF]).
Proof.
  unfold format. change (bs "{}" ++ [LF]) with (format_text [Field RefNone None; Text [LF]]).
  rewrite format_text_meaning; [|by repeat constructor|by apply plain_auto_ok, text_ok].
  by erewrite plain_auto_meaning; [rewrite text_meaning|done|reflexivity].
Qed.

Lemma println_text fmt args st : println fmt args st = (text ← format fmt args; print (text ++ [LF]) st).
Proof. unfold println. destruct (format fmt args) as [t| | | |]; [|done..]. cbn [mbind outcome_bind]. by rewrite format_plain_line. Qed.

Definition log_line (severity : LogSeverity) (file : bytes) (line : Z) (message : bytes) : bytes :=
  bs "[" ++ LogSeverityName severity ++ bs " " ++ file ++ bs ":" ++ itoa line ++ bs "] " ++ message.

Lemma format_log_line name file line message : INT_MIN <= line <= INT_MAX →
  format (bs "[{} {}:{}] {}") [ACString 1 name; ACString 1 file; AInt line; AString message] =
    Ret (bs "[" ++ name ++ bs " " ++ file ++ bs ":" ++ itoa line ++ bs "] " ++ message).
Proof.
  intros Hl. unfold format.
  change (bs "[{} {}:{}] {}") with (format_text
    [Text (bs "["); Field RefNone None; Text (bs " "); Field RefNone None; Text (bs ":"); Field RefNone None;
     Text (bs "] "); Field RefNone None]).
  rewrite format_text_meaning; [|by repeat constructor|
    apply text_ok, plain_auto_ok; [done|]; apply text_ok, plain_auto_ok; [done|];
    apply text_ok, plain_auto_ok; [done|]; by apply text_ok, plain_auto_ok].
  repeat first [rewrite text_meaning | erewrite plain_auto_meaning; [|done|reflexivity]].
  rewrite !default_format_text by (cbn; lia || done). cbn [default_text Z.eqb mbind outcome_bind format_meaning].
  by rewrite app_nil_r.
Qed.

Lemma null_log_line severity file line message st : INT_MIN <= line <= INT_MAX →
  null_log_func severity file line message st = print (log_line severity file line message ++ [LF]) st.
Proof. intros Hl. unfold null_log_func. by rewrite println_text, format_log_line. Qed.

(** The base name is what is behind the last separator. *)
Lemma Basename_split fname : ∀ offset, (offset <= length fname)%nat → Forall (λ c, is_separator c = false) (drop offset fname) →
  ∃ dir base, Basename fname offset = Ret base ∧ fname = dir ++ base ∧
    Forall (λ c, is_separator c = false) base ∧ (dir = [] ∨ ∃ d c, dir = d ++ [c] ∧ is_separator c = true).
Proof.
  induction offset as [|k IH]; intros Hk Hs; cbn [Basename].
  { exists [], fname. split_and!; try done; by left. }
  destruct (lookup_lt_is_Some_2 fname k ltac:(lia)) as [c Hc]. rewrite Hc. cbn [or_undef mbind outcome_bind].
  destruct (is_separator c) eqn:E.
  - exists (take (S k) fname), (drop (S k) fname). split_and!; [done|by rewrite take_drop|done|right].
    exists (take k fname), c. split; [|done]. by apply take_S_r.
  - apply IH; [lia|]. rewrite (drop_S _ _ _ Hc). by constructor.
Qed.

Lemma Basename_file fname : ∃ dir base, Basename fname (length fname) = Ret base ∧ fname = dir ++ base ∧
  Forall (λ c, is_separator c = false) base ∧ (dir = [] ∨ ∃ d c, dir = d ++ [c] ∧ is_separator c = true).
Proof. apply Basename_split; [done|]. by rewrite drop_ge. Qed.

(** The message of a failed check. *)
Lemma format_check text message :
  format (bs "Check {:s} failed: {:s}") [ACString 1 text; ACString 1 message] =
    Ret (bs "Check " ++ text ++ bs " failed: " ++ message).
Proof.
  unfold format. change (bs "Check {:s} failed: {:s}") with (format_text
    [Text (bs "Check "); Field RefNone (Some (type_only "s")); Text (bs " failed: "); Field RefNone (Some (type_only "s"))]).
  set (fa := FmtWrite.Args _ _).
  assert (meaning (type_only "s") (0 + 1) = Ret (set_type pres_string default_specs, runtime 1)) as H1 by done.
  assert (meaning (type_only "s") (1 + 1) = Ret (set_type pres_string default_specs, runtime 2)) as H2 by done.
  rewrite format_text_meaning; [|by repeat constructor|].
  2:{ apply text_ok. eapply auto_ok; [done|reflexivity|done|by eapply type_only_ok|exact H1|]. apply text_ok.
      eapply auto_ok; [done|reflexivity|done|by eapply type_only_ok|exact H2|done]. }
  rewrite text_meaning. erewrite auto_meaning; [|done|reflexivity|exact H1]. rewrite text_meaning.
  erewrite auto_meaning; [|done|reflexivity|exact H2].
  change (fill_in fa (set_type pres_string default_specs)) with (Ret (set_type pres_string default_specs)).
  cbn [mbind outcome_bind format_with]. unfold write_cstring. cbn [Z.eqb]. rewrite bool_decide_false by done. cbn [negb].
  rewrite !write_string_plain by done. cbn [mbind outcome_bind format_meaning]. by rewrite app_nil_r.
Qed.

(** * Properties *)

(** What is logged is a line of its own. [CPPBOOT_LOG] gives the function that is registered the
    severity, the part of the file name behind the last separator, the line number and the formatted
    message; the function that is registered at first prints "[SEVERITY file:line] message" and a newline,
    and an error of the format leaves before anything is printed. [CPPBOOT_CHECK] does nothing on a true
    condition; on a false one it logs its text and its message as FATAL -- and the program goes on. *)
Theorem log_written severity FILE LINE fmt args l : INT_MIN <= LINE <= INT_MAX →
  ∃ dir base, FILE = dir ++ base ∧ Forall (λ c, is_separator c = false) base ∧
    (dir = [] ∨ ∃ d c, dir = d ++ [c] ∧ is_separator c = true) ∧
    CPPBOOT_LOG severity FILE LINE fmt args l =
      (message ← format fmt args;
       st ← internal_log_function l severity base LINE message (rest l);
       Ret (Logger (internal_log_function l) st)) ∧
    (internal_log_function l = null_log_func →
     CPPBOOT_LOG severity FILE LINE fmt args l =
       (message ← format fmt args;
        st ← print (log_line severity base LINE message ++ [LF]) (rest l);
        Ret (Logger null_log_func st)) ∧
     ∀ condition text message, CPPBOOT_CHECK condition text message FILE LINE l =
       if condition then Ret l
       else st ← print (log_line kFatal base LINE (bs "Check " ++ text ++ bs " failed: " ++ message) ++ [LF]) (rest l);
            Ret (Logger null_log_func st)).
Proof.
  intros Hl. destruct (Basename_file FILE) as (dir & base & Hb & HF & Hs & Hd). exists dir, base.
  assert (∀ sv f a, CPPBOOT_LOG sv FILE LINE f a l = (message ← format f a;
    st ← internal_log_function l sv base LINE message (rest l); Ret (Logger (internal_log_function l) st))) as Hlog.
  { intros sv f a. unfold CPPBOOT_LOG. by rewrite Hb. }
  split_and!; [done..|]. intros Hn. split.
  - rewrite Hlog, Hn. destruct (format fmt args) as [m| | | |]; [|done..]. cbn [mbind outcome_bind]. by rewrite null_log_line.
  - intros condition text message. unfold CPPBOOT_CHECK. destruct condition; [done|]. cbn [negb].
    rewrite Hlog, format_check, Hn. cbn [mbind outcome_bind]. by rewrite null_log_line.
Qed.

End log.

Lemma log_written_witness :
  (∃ dir base, bs "src/app/main.cc" = dir ++ base ∧ Forall (λ c, is_separator c = false) base ∧
    CPPBOOT_LOG kInfo (bs "src/app/main.cc") 12 (bs "{} of {}") [AInt 1; AInt 2] (new_logger (λ t st, Ret (st ++ t)) []) =
      (message ← format (bs "{} of {}") [AInt 1; AInt 2];
       st ← Ret ([] ++ log_line kInfo base 12 message ++ [LF]);
       Ret (Logger (null_log_func (λ t st, Ret (st ++ t))) st))) ∧
  null_log_func (λ t st, Ret (st ++ t)) kInfo (bs "main.cc") 12 (bs "1 of 2") [] = Ret (bs "[INFO main.cc:12] 1 of 2" ++ [LF]).
Proof.
  split; [|vm_compute; reflexivity].
  destruct (log_written (λ t st, Ret (st ++ t)) kInfo (bs "src/app/main.cc") 12 (bs "{} of {}") [AInt 1; AInt 2]
    (new_logger (λ t st, Ret (st ++ t)) []) ltac:(unfold INT_MIN, INT_MAX; lia)) as (dir & base & HF & Hs & _ & _ & Hn).
  exists dir, base. split; [done|]. split; [done|]. exact (proj1 (Hn eq_refl)).
Defined.
