(* ===== verification/IoContext.v ===== *)
(** * The event loop (src/cppboot/net/io: context.h, kqueue.cc)

    A queue of functors that wait for the next turn of the loop.  A turn polls the kernel queue,
    whose events nobody looks at, then takes the whole queue and calls what is in it.  What a
    functor does to the program is a parameter; what it posts goes through [Post]. *)

From S2P Require Import Prelude.

Section context.
(** [call fn a]: the state that [fn] leaves, and the functors it posts, in their order. *)
Context {Functor A : Type} (call : Functor → A → outcome (A * list Functor)).

Record Context : Type := Ctx { quit_ : bool; pending_functors_ : list Functor }.

Definition new_context : Context := Ctx false [].

(** Nothing is written to the kernel queue: the poll goes on until its time is over. *)
Definition WeakUpPoll (c : Context) : Context := c.

Definition Stop (c : Context) : Context := WeakUpPoll (Ctx true (pending_functors_ c)).

Definition Post (cb : Functor) (c : Context) : Context := Ctx (quit_ c) (pending_functors_ c ++ [cb]).

Definition QueueSize (c : Context) : Z := len (pending_functors_ c).

(** [kevent] fills [events_], which is not used. *)
Definition PollOnce (c : Context) : Context := c.

Fixpoint call_all (functors : list Functor) (c : Context) (a : A) : outcome (Context * A) :=
  match functors with
  | [] => Ret (c, a)
  | fn :: functors =>
      '(a, posts) ← call fn a;
      call_all functors (foldl (λ c cb, Post cb c) c posts) a
  end.

Definition DoPendingFunctors (c : Context) (a : A) : outcome (Context * A) :=
  let functors := pending_functors_ c in
  call_all functors (Ctx (quit_ c) []) a.

Definition RunOnce (c : Context) (a : A) : outcome (Context * A) := DoPendingFunctors (PollOnce c) a.

(** What happens to the loop from outside. *)
Inductive event : Type := EPost (cb : Functor) | ERunOnce | EStop.

Definition step (e : event) (x : Context * A) : outcome (Context * A) :=
  match e with
  | EPost cb => Ret (Post cb x.1, x.2)
  | ERunOnce => RunOnce x.1 x.2
  | EStop => Ret (Stop x.1, x.2)
  end.

Fixpoint run (es : list event) (x : Context * A) : outcome (Context * A) :=
  match es with
  | [] => Ret x
  | e :: es => x ← step e x; run es x
  end.
End context.

(** ** Who may touch the queue

    The accesses of two threads, one that posts and one that runs the loop: [Post] takes no
    lock, the loop holds the mutex while it swaps. *)

Inductive poster : Set := post_idle | post_pushing | post_done.
Inductive looper : Set := loop_idle | loop_locked | loop_swapping | loop_swapped | loop_calling.

Record threads : Type := Threads { the_poster : poster; the_looper : looper; locked : bool }.

Inductive thread_step : threads → threads → Prop :=
  | push_begin l m : thread_step (Threads post_idle l m) (Threads post_pushing l m)
  | push_end l m : thread_step (Threads post_pushing l m) (Threads post_done l m)
  | lock p : thread_step (Threads p loop_idle false) (Threads p loop_locked true)
  | swap_begin p m : thread_step (Threads p loop_locked m) (Threads p loop_swapping m)
  | swap_end p m : thread_step (Threads p loop_swapping m) (Threads p loop_swapped m)
  | unlock p m : thread_step (Threads p loop_swapped m) (Threads p loop_calling false).

(** Two accesses to the vector at once, at least one of which changes it. *)
Definition racing (t : threads) : Prop := the_poster t = post_pushing ∧ the_looper t = loop_swapping.

(** * Lemmas *)

(** The run with what has been called and what has been posted, in their orders. *)
Section history.
Context {Functor A : Type} (call : Functor → A → outcome (A * list Functor)).

Record history : Type := History { program : A; called : list Functor; posted : list Functor }.

Definition call_history (fn : Functor) (h : history) : outcome (history * list Functor) :=
  '(a, posts) ← call fn (program h);
  Ret (History a (called h ++ [fn]) (posted h ++ posts), posts).

(** An event, with the functors posted from outside. *)
Definition step_history (e : event) (x : Context * history) : outcome (Context * history) :=
  '(c, h) ← step call_history e x;
  Ret (c, match e with EPost cb => History (program h) (called h) (posted h ++ [cb]) | _ => h end).

Fixpoint run_history (es : list event) (x : Context * history) : outcome (Context * history) :=
  match es with
  | [] => Ret x
  | e :: es => x ← step_history e x; run_history es x
  end.

Lemma post_all posts c : foldl (λ c cb, Post cb c) c posts = @Ctx Functor (quit_ c) (pending_functors_ c ++ posts).
Proof.
  revert c. induction posts as [|p posts IH]; intros c; cbn [foldl]; [rewrite app_nil_r; by destruct c|].
  rewrite IH. cbn. by rewrite <-app_assoc.
Qed.

Lemma call_all_history fns : ∀ c h c' h', call_all call_history fns c h = Ret (c', h') →
  called h' = called h ++ fns ∧ quit_ c' = quit_ c ∧
  ∃ posts, posted h' = posted h ++ posts ∧ pending_functors_ c' = pending_functors_ c ++ posts.
Proof.
  induction fns as [|fn fns IH]; intros c h c' h' H; cbn [call_all] in H.
  { injection H as <- <-. split_and!; [by rewrite app_nil_r|done|]. exists []. by rewrite !app_nil_r. }
  apply bind_Ret in H as ([h1 posts] & H1 & H). unfold call_history in H1. apply bind_Ret in H1 as ([a p1] & Hc & H1).
  injection H1 as <- <-. rewrite post_all in H. apply IH in H as (Hcd & Hq & posts' & Hp & Hpe). cbn in *.
  split_and!; [by rewrite Hcd, <-app_assoc|done|]. exists (p1 ++ posts'). by rewrite Hp, Hpe, <-!app_assoc.
Qed.

Lemma call_history_eq fn h : call_history fn h =
  ('(a, posts) ← call fn (program h); Ret (History a (called h ++ [fn]) (posted h ++ posts), posts)).
Proof. done. Qed.

(** A run of the loop with its history is the run. *)
Lemma call_all_program fns : ∀ c h, call_all call fns c (program h) =
  ('(c', h') ← call_all call_history fns c h; Ret (c', program h')).
Proof.
  induction fns as [|fn fns IH]; intros c h; cbn [call_all]; [done|]. rewrite call_history_eq.
  destruct (call fn (program h)) as [[a posts]| | | |]; [|done..]. cbn [mbind outcome_bind]. apply (IH _ (History a _ _)).
Qed.

Lemma step_program e c h : step call e (c, program h) = ('(c', h') ← step_history e (c, h); Ret (c', program h')).
Proof.
  unfold step_history. destruct e as [cb| |]; [done| |done]. cbn [step fst snd]. unfold RunOnce, DoPendingFunctors.
  rewrite (call_all_program _ _ h). destruct (call_all call_history _ _ h) as [[c' h']| | | |]; done.
Qed.

Lemma run_program es : ∀ c h, run call es (c, program h) = ('(c', h') ← run_history es (c, h); Ret (c', program h')).
Proof.
  induction es as [|e es IH]; intros c h; cbn [run run_history]; [done|]. rewrite step_program.
  destruct (step_history e (c, h)) as [[c' h']| | | |]; [|done..]. cbn [mbind outcome_bind]. apply IH.
Qed.

Definition in_turn (x : Context * history) : Prop := called x.2 ++ pending_functors_ x.1 = posted x.2.

Lemma step_in_turn e x x' : in_turn x → step_history e x = Ret x' → in_turn x'.
Proof.
  destruct x as [c h]. unfold in_turn, step_history. cbn [fst snd]. intros Hi H.
  apply bind_Ret in H as ([c1 h1] & Hs & H). injection H as <-. cbn [fst snd].
  destruct e as [cb| |]; cbn [step fst snd] in Hs.
  - injection Hs as <- <-. cbn. by rewrite app_assoc, Hi.
  - apply call_all_history in Hs as (-> & _ & posts & -> & ->). cbn. by rewrite <-Hi.
  - injection Hs as <- <-. done.
Qed.

Lemma run_in_turn es : ∀ x x', in_turn x → run_history es x = Ret x' → in_turn x'.
Proof.
  induction es as [|e es IH]; intros x x' Hi H; cbn [run_history] in H; [by injection H as <-|].
  apply bind_Ret in H as (x1 & Hs & H). eapply IH; [|exact H]. by eapply step_in_turn.
Qed.

(** The loop ends when the functors do. *)
Lemma call_all_returns fns : (∀ fn a, ∃ r, call fn a = Ret r) → ∀ c a, ∃ r, call_all call fns c a = Ret r.
Proof.
  intros Hc. induction fns as [|fn fns IH]; intros c a; cbn [call_all]; [eauto|].
  destruct (Hc fn a) as [[a' posts] ->]. cbn [mbind outcome_bind]. apply IH.
Qed.

Lemma run_returns es : (∀ fn a, ∃ r, call fn a = Ret r) → ∀ x, ∃ r, run call es x = Ret r.
Proof.
  intros Hc. induction es as [|e es IH]; intros [c a]; cbn [run]; [eauto|].
  assert (∃ x, step call e (c, a) = Ret x) as [x ->]; [|apply IH].
  destruct e as [cb| |]; cbn [step fst snd]; [eauto| |eauto]. by apply call_all_returns.
Qed.

(** * Properties *)

(** C35: functors are called in the order in which they were posted, each once. In every sequence of calls
    of [Post], [RunOnce] and [Stop] on a new context, what has been called followed by what still waits is
    what has been posted, by whomever; a turn calls exactly what was waiting when it began, and leaves what
    the functors post meanwhile for the next one -- so it ends, even when they post themselves, if each of
    them returns. *)
Theorem functors_in_order (es : list event) (a : A) (c : Context) (h : history) :
  run_history es (new_context, History a [] []) = Ret (c, h) →
  run call es (new_context, a) = Ret (c, program h) ∧
  called h ++ pending_functors_ c = posted h ∧
  (∀ c' h', step_history ERunOnce (c, h) = Ret (c', h') →
     called h' = called h ++ pending_functors_ c ∧ called h' ++ pending_functors_ c' = posted h') ∧
  ((∀ fn a, ∃ r, call fn a = Ret r) → ∀ x, ∃ r, step call ERunOnce x = Ret r).
Proof.
  intros H. assert (in_turn (c, h)) as Hi by (eapply run_in_turn; [|exact H]; done). split_and!.
  - pose proof (run_program es new_context (History a [] [])) as Hr. cbn [program] in Hr. by rewrite Hr, H.
  - exact Hi.
  - intros c' h' Hs. split; [|exact (step_in_turn _ _ _ Hi Hs)]. unfold step_history in Hs.
    apply bind_Ret in Hs as ([c1 h1] & Hs & H1). injection H1 as <- <-. cbn [step fst snd] in Hs.
    by apply call_all_history in Hs as (-> & _).
  - intros Hc x. by apply (call_all_returns _ Hc).
Qed.
End history.

(** A functor is a number; it adds it to a sum, and posts the number below it. *)
Definition countdown (n : nat) (sum : nat) : outcome (nat * list nat) :=
  Ret ((sum + n)%nat, match n with O => [] | S k => [k] end).

Lemma functors_in_order_witness :
  let es := [EPost 2; EPost 5; ERunOnce; EPost 7; ERunOnce]%nat in
  run countdown es (new_context, 0%nat) = Ret (Ctx false [0; 3; 6]%nat, 19%nat) ∧
  called (History 19%nat [2; 5; 1; 4; 7]%nat [2; 5; 1; 4; 7; 0; 3; 6]%nat) ++ [0; 3; 6]%nat = [2; 5; 1; 4; 7; 0; 3; 6]%nat.
Proof.
  cbv zeta.
  destruct (functors_in_order countdown [EPost 2; EPost 5; ERunOnce; EPost 7; ERunOnce]%nat 0%nat (Ctx false [0; 3; 6]%nat)
    (History 19%nat [2; 5; 1; 4; 7]%nat [2; 5; 1; 4; 7; 0; 3; 6]%nat) ltac:(vm_compute; reflexivity)) as (Hr & Ho & _).
  split; [exact Hr|exact Ho].
Defined.

(** [Post] from another thread can meet the swap of the loop. *)
Lemma post_races : ∃ ts : list threads,
  head ts = Some (Threads post_idle loop_idle false) ∧
  (∀ i a b, ts !! i = Some a → ts !! S i = Some b → thread_step a b) ∧
  ∃ t, last ts = Some t ∧ racing t.
Proof.
  exists [Threads post_idle loop_idle false; Threads post_pushing loop_idle false;
          Threads post_pushing loop_locked true; Threads post_pushing loop_swapping true].
  split; [done|]. split; [|by eexists].
  intros [|[|[|[|i]]]] a b Ha Hb; cbn in *; try done; injection Ha as <-; injection Hb as <-; constructor.
Qed.
