(* ===== verification/Timestamp.v ===== *)
(** * Timestamps (src/cppboot/base: timestamp.h, timestamp.cc)

    A [Timestamp] is a count of microseconds, an [int64_t].  Of the C library,
    [gmtime_r] and the conversions of [snprintf] that the code uses are here. *)

From S2P Require Import Prelude StdString.

Definition INT64_MIN : Z := - 2 ^ 63.
Definition INT64_MAX : Z := 2 ^ 63 - 1.
(** Signed 64-bit arithmetic: an overflow is undefined. *)
Definition int64_result (z : Z) : outcome Z :=
  if (INT64_MIN <=? z) && (z <=? INT64_MAX) then Ret z else Undef.

(** ** [snprintf] *)

Definition pad (c : ascii) (w : nat) (s : bytes) : bytes := replicate (w - length s) c ++ s.

(** [%wd] *)
Definition fmt_d (w : nat) (z : Z) : bytes := pad " " w (itoa z).
(** [%0wd]: the zeros go behind the sign. *)
Definition fmt_0d (w : nat) (z : Z) : bytes :=
  if z <? 0 then "-"%char :: pad "0" (w - 1) (utoa (- z)) else pad "0" w (utoa z).

(** What [snprintf] leaves in a buffer of [size] characters, as a C string. *)
Definition snprintf (size : Z) (s : bytes) : bytes := take (Z.to_nat (size - 1)) s.

(** ** [gmtime_r] *)

Record tm : Type := {
  tm_year : Z; tm_mon : Z; tm_mday : Z; tm_hour : Z; tm_min : Z; tm_sec : Z;
}.

(** The day of an era of 400 years that starts with March 1st: the year in the era
    (from March to February), the month and the day. *)
Definition era_date (doe : Z) : Z * Z * Z :=
  let yoe := (doe - doe / 1460 + doe / 36524 - doe / 146096) / 365 in
  let doy := doe - (365 * yoe + yoe / 4 - yoe / 100) in
  let mp := (5 * doy + 2) / 153 in
  let m := if mp <? 10 then mp + 3 else mp - 9 in
  (if m <=? 2 then yoe + 1 else yoe, m, doy - (153 * mp + 2) / 5 + 1).

(** The date of a day counted from 1970-01-01. *)
Definition civil (z : Z) : Z * Z * Z :=
  let z := z + 719468 in
  let '(y, m, d) := era_date (z mod 146097) in
  (y + 400 * (z / 146097), m, d).

Definition gmtime_r (seconds : Z) : tm :=
  let '(y, m, d) := civil (seconds / 86400) in
  let r := seconds mod 86400 in
  {| tm_year := y - 1900; tm_mon := m - 1; tm_mday := d;
     tm_hour := r / 3600; tm_min := r / 60 mod 60; tm_sec := r mod 60 |}.

(** ** [Timestamp] *)

Definition kMicroSecondsPerSecond : Z := 1000000.

Definition Timestamp := Z.

Definition Invalid : Timestamp := 0.
Definition timestamp_IsValid (t : Timestamp) : bool := 0 <? t.
Definition seconds_since_epoch (t : Timestamp) : Z := Z.quot t kMicroSecondsPerSecond.
Definition timestamp_swap (a b : Timestamp) : Timestamp * Timestamp := (b, a).
Definition timestamp_lt (a b : Timestamp) : bool := a <? b.
Definition timestamp_eq (a b : Timestamp) : bool := a =? b.

Definition FromUnixTime (t microseconds : Z) : outcome Timestamp :=
  us ← int64_result (t * kMicroSecondsPerSecond);
  int64_result (us + microseconds).

(** [Now()], from what [gettimeofday] says. *)
Definition Now (tv_sec tv_usec : Z) : outcome Timestamp :=
  us ← int64_result (tv_sec * kMicroSecondsPerSecond);
  int64_result (us + tv_usec).

Definition timestamp_ToString (t : Timestamp) : bytes :=
  let seconds := Z.quot t kMicroSecondsPerSecond in
  let microseconds := Z.rem t kMicroSecondsPerSecond in
  snprintf 32 (itoa seconds ++ bs "." ++ fmt_0d 6 microseconds).

Definition ToFormattedString (show_microseconds : bool) (t : Timestamp) : bytes :=
  let seconds := Z.quot t kMicroSecondsPerSecond in
  let tm_time := gmtime_r seconds in
  let date :=
    fmt_d 4 (tm_year tm_time + 1900) ++ fmt_0d 2 (tm_mon tm_time + 1) ++ fmt_0d 2 (tm_mday tm_time) ++
    bs " " ++ fmt_0d 2 (tm_hour tm_time) ++ bs ":" ++ fmt_0d 2 (tm_min tm_time) ++ bs ":" ++
    fmt_0d 2 (tm_sec tm_time) in
  if show_microseconds then
    let microseconds := Z.rem t kMicroSecondsPerSecond in
    snprintf 64 (date ++ bs "." ++ fmt_0d 6 microseconds)
  else snprintf 64 date.

Example epoch : ToFormattedString true 951782400000001 = bs "20000229 00:00:00.000001".
Proof. reflexivity. Qed.
Example before_epoch : ToFormattedString true (-1) = bs "19700101 00:00:00.-00001".
Proof. reflexivity. Qed.
Example as_tested : timestamp_ToString 1234005678 = bs "1234.005678".
Proof. reflexivity. Qed.

(** ** The calendar *)

Definition leap (y : Z) : bool :=
  (y mod 4 =? 0) && (negb (y mod 100 =? 0) || (y mod 400 =? 0)).

Definition month_days (y m : Z) : Z :=
  if m =? 2 then if leap y then 29 else 28
  else if (m =? 4) || (m =? 6) || (m =? 9) || (m =? 11) then 30 else 31.

Definition next_day (date : Z * Z * Z) : Z * Z * Z :=
  let '(y, m, d) := date in
  if d <? month_days y m then (y, m, d + 1)
  else if m <? 12 then (y, m + 1, 1) else (y + 1, 1, 1).

(** The date [n] days after January 1st, 1970. *)
Definition calendar (n : nat) : Z * Z * Z := Nat.iter n next_day (1970, 1, 1).

(** [n] in [w] digits. *)
Fixpoint digits (w : nat) (n : Z) : bytes :=
  match w with
  | O => []
  | S w => digits w (n / 10) ++ [digit_char (n mod 10)]
  end.

(** * Lemmas *)

(** ** Digits *)

Lemma digits_0 w : digits w 0 = replicate w "0"%char.
Proof.
  induction w as [|w IH]; [done|]. cbn [digits]. change (0 / 10) with 0. rewrite IH.
  change [digit_char (0 mod 10)] with (replicate 1 "0"%char).
  rewrite <-replicate_add. f_equal. lia.
Qed.

Lemma length_digits w n : length (digits w n) = w.
Proof. revert n. induction w as [|w IH]; intros n; [done|]. cbn [digits]. rewrite length_app, IH. cbn. lia. Qed.

Lemma pad_dec_digits fuel : ∀ n w,
  0 <= n < 10 ^ Z.of_nat w → n < 2 ^ Z.of_nat fuel → (0 < fuel)%nat → (0 < w)%nat →
  pad "0" w (dec_digits fuel n []) = digits w n.
Proof.
  induction fuel as [|fuel IH]; intros n w Hn Hf Hf0 Hw; [lia|]. cbn [dec_digits].
  destruct w as [|w]; [lia|]. cbn [digits]. pose proof (Z.div_mod n 10 ltac:(lia)) as Hdm.
  pose proof (Z.mod_pos_bound n 10 ltac:(lia)) as Hm.
  destruct (n <? 10) eqn:Hlt; bool_hyps.
  - rewrite Z.mod_small, Z.div_small by lia. rewrite digits_0. unfold pad. cbn [length].
    f_equal. f_equal. lia.
  - assert (1 <= n / 10) by (apply Z.div_le_lower_bound; lia).
    rewrite Nat2Z.inj_succ, Z.pow_succ_r in Hn, Hf by lia.
    assert (w ≠ 0%nat) by (intros ->; change (10 ^ Z.of_nat 0) with 1 in Hn; lia).
    assert (fuel ≠ 0%nat) by (intros ->; change (2 ^ Z.of_nat 0) with 1 in Hf; lia).
    rewrite dec_digits_app. rewrite <-(IH (n / 10) w) by lia. unfold pad.
    rewrite length_app. cbn [length]. rewrite app_assoc. f_equal. f_equal. f_equal. lia.
Qed.

Lemma pad_utoa w n : 0 <= n < 10 ^ Z.of_nat w → (0 < w)%nat → pad "0" w (utoa n) = digits w n.
Proof.
  intros Hn Hw. apply pad_dec_digits; [done| |lia|done].
  rewrite Nat2Z.inj_succ, Z2Nat.id by apply Z.log2_nonneg.
  destruct (Z.eq_dec n 0) as [->|]; [done|]. pose proof (Z.log2_spec n ltac:(lia)). lia.
Qed.

Lemma fmt_0d_digits w n : 0 <= n < 10 ^ Z.of_nat w → (0 < w)%nat → fmt_0d w n = digits w n.
Proof.
  intros Hn Hw. unfold fmt_0d. rewrite (proj2 (Z.ltb_ge _ _)) by lia. by apply pad_utoa.
Qed.

Lemma bytes_cmp_app_l l a b : bytes_cmp (l ++ a) (l ++ b) = bytes_cmp a b.
Proof. induction l as [|c l IH]; [done|]. cbn. by rewrite Z.compare_refl. Qed.

Lemma digits_lt w : ∀ a b s t, 0 <= a → a < b → b < 10 ^ Z.of_nat w →
  bytes_cmp (digits w a ++ s) (digits w b ++ t) = Lt.
Proof.
  induction w as [|w IH]; intros a b s t Ha Hab Hb; [cbn in Hb; lia|].
  rewrite Nat2Z.inj_succ, Z.pow_succ_r in Hb by lia. cbn [digits]. rewrite <-!app_assoc.
  pose proof (Z.div_mod a 10 ltac:(lia)). pose proof (Z.div_mod b 10 ltac:(lia)).
  pose proof (Z.mod_pos_bound a 10 ltac:(lia)). pose proof (Z.mod_pos_bound b 10 ltac:(lia)).
  destruct (Z.eq_dec (a / 10) (b / 10)) as [He|Hne].
  - rewrite He, bytes_cmp_app_l. cbn [app bytes_cmp]. rewrite !uchar_digit by lia.
    by rewrite (proj2 (Z.compare_lt_iff _ _)) by lia.
  - apply IH; [apply Z.div_pos; lia|lia|apply Z.div_lt_upper_bound; lia].
Qed.

(** ** Dates *)

Definition shift (k : Z) (date : Z * Z * Z) : Z * Z * Z := (date.1.1 + 400 * k, date.1.2, date.2).

Lemma leap_shift y k : leap (y + 400 * k) = leap y.
Proof.
  unfold leap. replace (y + 400 * k) with (y + (4 * k) * 100) at 2 by lia.
  replace (y + 400 * k) with (y + k * 400) at 2 by lia.
  replace (y + 400 * k) with (y + (100 * k) * 4) by lia. by rewrite !Z.mod_add by lia.
Qed.

Lemma next_day_shift k date : next_day (shift k date) = shift k (next_day date).
Proof.
  destruct date as [[y m] d]. unfold next_day, shift, month_days. cbn [fst snd]. rewrite leap_shift.
  repeat case_match; cbn [fst snd]; do 2 f_equal; lia.
Qed.

(** The first day of a year of the era, and its date: month and day by the number
    of the day from March 1st. *)
Definition year_start (y : Z) : Z := 365 * y + y / 4 - y / 100 + y / 400.

Definition month_day (doy : Z) : Z * Z :=
  let mp := (5 * doy + 2) / 153 in
  (if mp <? 10 then mp + 3 else mp - 9, doy - (153 * mp + 2) / 5 + 1).

Definition year_date (y doy : Z) : Z * Z * Z :=
  let '(m, d) := month_day doy in (if m <=? 2 then y + 1 else y, m, d).

Definition year_of (doe : Z) : Z := (doe - doe / 1460 + doe / 36524 - doe / 146096) / 365.

Lemma year_of_step doe : 0 <= doe < 146096 → year_of doe <= year_of (doe + 1).
Proof.
  intros H. unfold year_of. apply Z.div_le_mono; [lia|].
  rewrite (Z.div_small doe 146096) by lia.
  Z.to_euclidean_division_equations. lia.
Qed.

Lemma year_of_mono a b : 0 <= a → a <= b → b < 146097 → year_of a <= year_of b.
Proof.
  intros Ha Hab. pattern b. apply Zlt_lower_bound_ind with (z := a); [|done].
  intros x IH Hx Hb. destruct (Z.eq_dec x a) as [->|]; [lia|].
  etrans; [apply (IH (x - 1)); lia|].
  replace x with (x - 1 + 1) at 2 by lia. apply year_of_step. lia.
Qed.

(** A test of every number from 0 to [n - 1]. *)
Definition all_below (n : nat) (P : Z → bool) : bool := forallb (λ i, P (Z.of_nat i)) (seq 0 n).

Lemma all_below_spec n P : all_below n P = true → ∀ z, 0 <= z < Z.of_nat n → P z = true.
Proof.
  unfold all_below. rewrite forallb_forall. intros H z Hz.
  rewrite <-(Z2Nat.id z) by lia. apply H. apply in_seq. lia.
Qed.

Lemma years_checked : all_below 400 (λ y,
  (year_of (year_start y) =? y) && (year_of (year_start (y + 1) - 1) =? y) &&
  (year_start (y + 1) - year_start y =? if leap (y + 1) then 366 else 365) &&
  (0 <=? year_start y) && (year_start (y + 1) <=? 146097)) = true.
Proof. vm_compute. reflexivity. Qed.

Definition next_month_day (md : Z * Z) : Z * Z :=
  let '(m, d) := md in
  if (m =? 2) || (d <? month_days 1 m) then (m, d + 1)
  else if m <? 12 then (m + 1, 1) else (1, 1).

Lemma days_checked : all_below 364 (λ doy,
  let '(m, d) := month_day doy in let '(m', d') := next_month_day (m, d) in
  let '(m2, d2) := month_day (doy + 1) in
  (m' =? m2) && (d' =? d2) && (negb (m =? 2) || (d <? 28))) = true.
Proof. vm_compute. reflexivity. Qed.

Lemma ranges_checked : all_below 366 (λ doy,
  let '(m, d) := month_day doy in (1 <=? m) && (m <=? 12) && (1 <=? d) && (d <=? 31)) = true.
Proof. vm_compute. reflexivity. Qed.

Lemma year_facts y : 0 <= y < 400 →
  year_of (year_start y) = y ∧ year_of (year_start (y + 1) - 1) = y ∧
  year_start (y + 1) = year_start y + (if leap (y + 1) then 366 else 365) ∧
  0 <= year_start y ∧ year_start (y + 1) <= 146097.
Proof.
  intros Hy. pose proof (all_below_spec _ _ years_checked y ltac:(lia)) as H.
  rewrite !andb_true_iff, !Z.eqb_eq, !Z.leb_le in H. lia.
Qed.

(** The year of a day. *)
Lemma find_year n : (n <= 400)%nat → ∀ doe, 0 <= doe < year_start (Z.of_nat n) →
  ∃ y, 0 <= y < Z.of_nat n ∧ year_start y <= doe < year_start (y + 1).
Proof.
  induction n as [|n IH]; intros Hn doe Hd; [change (year_start (Z.of_nat 0)) with 0 in Hd; lia|].
  destruct (Z.lt_ge_cases doe (year_start (Z.of_nat n))) as [H|H].
  - destruct (IH ltac:(lia) doe ltac:(lia)) as (y & Hy & ?). exists y. lia.
  - exists (Z.of_nat n). rewrite Nat2Z.inj_succ, <-Z.add_1_r in Hd. lia.
Qed.

Lemma era_date_year y doe : 0 <= y < 400 → year_start y <= doe < year_start (y + 1) →
  era_date doe = year_date y (doe - year_start y).
Proof.
  intros Hy Hd. destruct (year_facts y Hy) as (H1 & H2 & H3 & H4 & H5).
  assert (year_of doe = y) as He.
  { pose proof (year_of_mono (year_start y) doe). pose proof (year_of_mono doe (year_start (y + 1) - 1)). lia. }
  unfold era_date. fold (year_of doe). rewrite He.
  replace (doe - (365 * y + y / 4 - y / 100)) with (doe - year_start y); [done|].
  unfold year_start. rewrite (Z.div_small y 400) by lia. lia.
Qed.

Lemma year_day_step y doy : 0 <= doy <= 363 → next_day (year_date y doy) = year_date y (doy + 1).
Proof.
  intros Hd. pose proof (all_below_spec _ _ days_checked doy ltac:(lia)) as H. cbn beta in H.
  unfold year_date. destruct (month_day doy) as [m d] eqn:Em. unfold next_month_day in H.
  destruct (month_day (doy + 1)) as [m2 d2]. unfold next_day.
  pose proof (all_below_spec _ _ ranges_checked doy ltac:(lia)) as Hr. cbn beta in Hr. rewrite Em in Hr.
  rewrite !andb_true_iff, !Z.leb_le in Hr.
  assert (m ≠ 2 → ∀ y', month_days y' m = month_days 1 m) as Hm
    by (intros Hne y'; unfold month_days; by rewrite (proj2 (Z.eqb_neq m 2) Hne)).
  destruct (m =? 2) eqn:E2; bool_hyps.
  - subst m. cbn [orb negb andb] in H. bool_hyps. subst m2 d2. change (2 <=? 2) with true. cbn match.
    assert ((d <? month_days (y + 1) 2) = true) as ->; [|done].
    unfold month_days. cbn. destruct (leap (y + 1)); lia.
  - rewrite Hm by done. cbn [orb negb] in H.
    destruct (d <? month_days 1 m); [|destruct (m <? 12) eqn:E12]; cbn [orb negb] in H;
      bool_hyps; subst m2 d2; [done|..].
    + destruct (m <=? 2) eqn:E3, (m + 1 <=? 2) eqn:E4; bool_hyps; try done; lia.
    + assert (m = 12) as -> by lia. done.
Qed.

Lemma last_of_february y b : leap y = b →
  next_day (y, 2, if b then 29 else 28) = (y, 3, 1).
Proof.
  intros H. unfold next_day, month_days. change (2 =? 2) with true. cbn match. rewrite H. by destruct b.
Qed.

Lemma era_step doe : 0 <= doe < 146096 → era_date (doe + 1) = next_day (era_date doe).
Proof.
  intros H. destruct (find_year 400 ltac:(lia) doe) as (y & Hy & Hd); [change (year_start (Z.of_nat 400)) with 146097; lia|].
  rewrite (era_date_year y doe Hy Hd). destruct (year_facts y Hy) as (_ & _ & H3 & _).
  destruct (Z.eq_dec (doe + 1) (year_start (y + 1))) as [He|Hne].
  - assert (y < 399) as Hy2.
    { destruct (Z.eq_dec y 399) as [->|]; [|lia]. change (year_start (399 + 1)) with 146097 in He. lia. }
    destruct (year_facts (y + 1) ltac:(lia)) as (_ & _ & H4 & _).
    rewrite (era_date_year (y + 1) (doe + 1)) by (destruct (leap (y + 1 + 1)); lia).
    replace (doe + 1 - year_start (y + 1)) with 0 by lia.
    replace (doe - year_start y) with (if leap (y + 1) then 365 else 364) by (destruct (leap (y + 1)); lia).
    destruct (leap (y + 1)) eqn:El.
    + change (year_date y 365) with (y + 1, 2, 29). symmetry. exact (last_of_february _ true El).
    + change (year_date y 364) with (y + 1, 2, 28). symmetry. exact (last_of_february _ false El).
  - rewrite (era_date_year y (doe + 1) Hy) by lia.
    replace (doe + 1 - year_start y) with (doe - year_start y + 1) by lia.
    destruct (Z.eq_dec (doe - year_start y) 364) as [He4|]; [|symmetry; apply year_day_step; destruct (leap (y + 1)); lia].
    rewrite He4. destruct (leap (y + 1)) eqn:El; [|lia].
    change (year_date y 364) with (y + 1, 2, 28). unfold next_day, month_days.
    change (2 =? 2) with true. cbn match. by rewrite El.
Qed.

Lemma era_ranges doe : 0 <= doe < 146097 →
  let '(y, m, d) := era_date doe in 0 <= y <= 400 ∧ 1 <= m <= 12 ∧ 1 <= d <= 31.
Proof.
  intros H. destruct (find_year 400 ltac:(lia) doe) as (y & Hy & Hd); [change (year_start (Z.of_nat 400)) with 146097; lia|].
  rewrite (era_date_year y doe Hy Hd). destruct (year_facts y Hy) as (_ & _ & H3 & _). unfold year_date.
  pose proof (all_below_spec _ _ ranges_checked (doe - year_start y)) as Hr. cbn beta in Hr.
  destruct (month_day _) as [m d]. rewrite !andb_true_iff, !Z.leb_le in Hr.
  destruct (leap (y + 1)); destruct (m <=? 2); lia.
Qed.

Lemma civil_shift z : civil z = shift ((z + 719468) / 146097) (era_date ((z + 719468) mod 146097)).
Proof. unfold civil. by destruct (era_date _) as [[y m] d]. Qed.

(** The day after a day is the next one of the calendar. *)
Lemma civil_next z : civil (z + 1) = next_day (civil z).
Proof.
  rewrite !civil_shift, next_day_shift.
  replace (z + 1 + 719468) with (z + 719468 + 1) by lia. set (n := z + 719468).
  pose proof (Z.div_mod n 146097 ltac:(lia)) as Hdm. pose proof (Z.mod_pos_bound n 146097 ltac:(lia)).
  destruct (Z.eq_dec (n mod 146097) 146096) as [He|Hne].
  - assert ((n + 1) / 146097 = n / 146097 + 1 ∧ (n + 1) mod 146097 = 0) as [-> ->].
    { replace (n + 1) with ((n / 146097 + 1) * 146097) by lia. by rewrite Z.div_mul, Z.mod_mul by lia. }
    rewrite He. unfold shift. change (next_day (era_date 146096)) with (400, 3, 1).
    change (era_date 0) with (0, 3, 1). cbn [fst snd]. do 2 f_equal. lia.
  - assert ((n + 1) / 146097 = n / 146097 ∧ (n + 1) mod 146097 = n mod 146097 + 1) as [-> ->].
    { replace (n + 1) with (n mod 146097 + 1 + n / 146097 * 146097) by lia.
      rewrite Z.div_add, Z.mod_add, Z.div_small, Z.mod_small by lia. lia. }
    by rewrite era_step by lia.
Qed.

Lemma civil_calendar n : civil (Z.of_nat n) = calendar n.
Proof.
  induction n as [|n IH]; [reflexivity|].
  rewrite Nat2Z.inj_succ, <-Z.add_1_r, civil_next, IH. done.
Qed.

Lemma civil_ranges z :
  let '(y, m, d) := civil z in 1 <= m <= 12 ∧ 1 <= d <= 31.
Proof.
  rewrite civil_shift. pose proof (Z.mod_pos_bound (z + 719468) 146097 ltac:(lia)) as H.
  pose proof (era_ranges _ H) as Ho. unfold shift. destruct (era_date _) as [[y m] d].
  cbn [fst snd]. lia.
Qed.

(** ** The order of dates *)

Definition date_lt (a b : Z * Z * Z) : Prop :=
  a.1.1 < b.1.1 ∨ a.1.1 = b.1.1 ∧ (a.1.2 < b.1.2 ∨ a.1.2 = b.1.2 ∧ a.2 < b.2).

#[export] Instance date_lt_trans : Transitive date_lt.
Proof. intros [[a1 a2] a3] [[b1 b2] b3] [[c1 c2] c3]. unfold date_lt. cbn. lia. Qed.

Lemma next_day_lt date : date_lt date (next_day date).
Proof.
  destruct date as [[y m] d]. unfold next_day, date_lt.
  destruct (_ <? _); cbn; [lia|]. destruct (m <? 12); cbn; lia.
Qed.

Lemma calendar_lt a b : (a < b)%nat → date_lt (calendar a) (calendar b).
Proof.
  induction 1 as [|b _ IH]; [apply next_day_lt|]. etrans; [exact IH|]. apply next_day_lt.
Qed.

Lemma calendar_year n : 1970 <= (calendar n).1.1.
Proof.
  destruct n as [|n]; [done|]. pose proof (calendar_lt 0 (S n) ltac:(lia)) as H.
  destruct H as [H|[H _]]; change ((calendar 0).1.1) with 1970 in H; lia.
Qed.

Lemma calendar_ranges n :
  1 <= (calendar n).1.2 <= 12 ∧ 1 <= (calendar n).2 <= 31.
Proof.
  rewrite <-civil_calendar. pose proof (civil_ranges (Z.of_nat n)).
  by destruct (civil (Z.of_nat n)) as [[y m] d].
Qed.

(** ** The text *)

Lemma dec_value_from_lt a ds : Forall (λ c, is_digit_char c = true) ds →
  dec_value_from a ds < (a + 1) * 10 ^ len ds.
Proof.
  intros Hd. revert a. induction Hd as [|c ds Hc _ IH]; intros a; [cbn; lia|].
  cbn [dec_value_from foldl]. specialize (IH (a * 10 + (uchar c - 48))).
  unfold is_digit_char in Hc. bool_hyps. cbn [length]. rewrite Nat2Z.inj_succ, Z.pow_succ_r by lia.
  eapply Z.lt_le_trans; [exact IH|].
  rewrite (Z.mul_comm 10), Z.mul_assoc, (Z.mul_comm (_ * _) 10), Z.mul_assoc.
  apply Z.mul_le_mono_nonneg_r; [apply Z.pow_nonneg; lia|lia].
Qed.

Lemma fmt_d_year y : 1000 <= y <= 9999 → fmt_d 4 y = digits 4 y.
Proof.
  intros Hy. rewrite <-pad_utoa by (cbn; lia). unfold fmt_d, itoa.
  rewrite (proj2 (Z.ltb_ge _ _)) by lia. unfold pad.
  assert (4 <= length (utoa y))%nat as H4; [|by replace (4 - length (utoa y))%nat with 0%nat by lia].
  destruct (utoa_spec y) as (Hv & Hd & _); [lia|].
  pose proof (dec_value_from_lt 0 _ Hd) as H. fold (dec_value (utoa y)) in H. rewrite Hv in H.
  destruct (decide (4 <= length (utoa y))%nat) as [|Hn]; [done|].
  assert (10 ^ len (utoa y) <= 10 ^ 3) by (apply Z.pow_le_mono_r; lia). lia.
Qed.

(** A date and a time of day, in fields of a fixed width. *)
Definition stamp (date : Z * Z * Z) (h mi s us : Z) : bytes :=
  digits 4 date.1.1 ++ digits 2 date.1.2 ++ digits 2 date.2 ++ bs " " ++ digits 2 h ++ bs ":" ++
  digits 2 mi ++ bs ":" ++ digits 2 s ++ bs "." ++ digits 6 us.

Lemma length_stamp date h mi s us : length (stamp date h mi s us) = 24%nat.
Proof. unfold stamp. rewrite !length_app, !length_digits. done. Qed.

Definition day_of (t : Timestamp) : nat := Z.to_nat (t / 1000000 / 86400).
Definition sec_of (t : Timestamp) : Z := t / 1000000 mod 86400.

Lemma formatted t :
  0 <= t → (calendar (day_of t)).1.1 <= 9999 →
  ToFormattedString true t = stamp (calendar (day_of t)) (sec_of t / 3600) (sec_of t / 60 mod 60)
    (sec_of t mod 60) (t mod 1000000).
Proof.
  intros Ht Hy. unfold ToFormattedString, kMicroSecondsPerSecond.
  rewrite Z.quot_div_nonneg, Z.rem_mod_nonneg by lia. unfold gmtime_r. fold (sec_of t).
  pose proof (Z.mod_pos_bound (t / 1000000) 86400 ltac:(lia)) as Hs. fold (sec_of t) in Hs.
  assert (civil (t / 1000000 / 86400) = calendar (day_of t)) as Hc.
  { rewrite <-civil_calendar. unfold day_of. rewrite Z2Nat.id; [done|].
    apply Z.div_pos; [apply Z.div_pos; lia|lia]. }
  rewrite Hc. pose proof (calendar_ranges (day_of t)) as [Hm Hd]. pose proof (calendar_year (day_of t)) as Hy1.
  destruct (calendar (day_of t)) as [[y m] d] eqn:Hcal. cbn [fst snd] in *.
  cbn [tm_year tm_mon tm_mday tm_hour tm_min tm_sec].
  replace (y - 1900 + 1900) with y by lia. replace (m - 1 + 1) with m by lia.
  pose proof (Z.mod_pos_bound (sec_of t) 60 ltac:(lia)). pose proof (Z.mod_pos_bound (sec_of t / 60) 60 ltac:(lia)).
  pose proof (Z.mod_pos_bound t 1000000 ltac:(lia)).
  assert (0 <= sec_of t / 3600 < 24) by (split; [apply Z.div_pos; lia|apply Z.div_lt_upper_bound; lia]).
  rewrite fmt_d_year by lia.
  rewrite !fmt_0d_digits by (change (10 ^ Z.of_nat 2) with 100 || change (10 ^ Z.of_nat 6) with 1000000; lia).
  unfold snprintf. rewrite <-!app_assoc. fold (stamp (y, m, d) (sec_of t / 3600) (sec_of t / 60 mod 60)
    (sec_of t mod 60) (t mod 1000000)). apply take_ge. change (Z.to_nat (64 - 1)) with 63%nat.
  rewrite <-(length_stamp (y, m, d) (sec_of t / 3600) (sec_of t / 60 mod 60) (sec_of t mod 60) (t mod 1000000)).
  lia.
Qed.

(** Comparing field by field. *)
Lemma digits_cmp w a b s t : 0 <= a < 10 ^ Z.of_nat w → 0 <= b < 10 ^ Z.of_nat w →
  a < b ∨ a = b ∧ bytes_cmp s t = Lt → bytes_cmp (digits w a ++ s) (digits w b ++ t) = Lt.
Proof. intros Ha Hb [H|[-> H]]; [apply digits_lt; lia|by rewrite bytes_cmp_app_l]. Qed.

Lemma time_lt h mi s us h' mi' s' us' :
  0 <= h < 24 → 0 <= mi < 60 → 0 <= s < 60 → 0 <= us < 1000000 →
  0 <= h' < 24 → 0 <= mi' < 60 → 0 <= s' < 60 → 0 <= us' < 1000000 →
  ((h * 60 + mi) * 60 + s) * 1000000 + us < ((h' * 60 + mi') * 60 + s') * 1000000 + us' →
  bytes_cmp (digits 2 h ++ bs ":" ++ digits 2 mi ++ bs ":" ++ digits 2 s ++ bs "." ++ digits 6 us)
    (digits 2 h' ++ bs ":" ++ digits 2 mi' ++ bs ":" ++ digits 2 s' ++ bs "." ++ digits 6 us') = Lt.
Proof.
  intros. assert (10 ^ Z.of_nat 2 = 100 ∧ 10 ^ Z.of_nat 6 = 1000000) as [E2 E6] by done.
  apply digits_cmp; [lia..|]. destruct (Z.eq_dec h h') as [->|]; [right|left; lia]. split; [done|].
  rewrite bytes_cmp_app_l. apply digits_cmp; [lia..|].
  destruct (Z.eq_dec mi mi') as [->|]; [right|left; lia]. split; [done|].
  rewrite bytes_cmp_app_l. apply digits_cmp; [lia..|].
  destruct (Z.eq_dec s s') as [->|]; [right|left; lia]. split; [done|].
  rewrite bytes_cmp_app_l, <-(app_nil_r (digits 6 us)), <-(app_nil_r (digits 6 us')).
  apply digits_lt; lia.
Qed.

Lemma stamp_lt d d' h mi s us h' mi' s' us' :
  (0 <= d.1.1 <= 9999 ∧ 1 <= d.1.2 <= 12 ∧ 1 <= d.2 <= 31) →
  (0 <= d'.1.1 <= 9999 ∧ 1 <= d'.1.2 <= 12 ∧ 1 <= d'.2 <= 31) →
  date_lt d d' ∨ d = d' ∧
    bytes_cmp (digits 2 h ++ bs ":" ++ digits 2 mi ++ bs ":" ++ digits 2 s ++ bs "." ++ digits 6 us)
      (digits 2 h' ++ bs ":" ++ digits 2 mi' ++ bs ":" ++ digits 2 s' ++ bs "." ++ digits 6 us') = Lt →
  bytes_cmp (stamp d h mi s us) (stamp d' h' mi' s' us') = Lt.
Proof.
  intros (Hy & Hm & Hd) (Hy' & Hm' & Hd') H.
  assert (10 ^ Z.of_nat 2 = 100 ∧ 10 ^ Z.of_nat 4 = 10000) as [E2 E4] by done.
  unfold stamp. destruct H as [H|[-> H]]; [|by rewrite !bytes_cmp_app_l].
  apply digits_cmp; [lia..|]. destruct H as [H|[-> H]]; [by left|right]. split; [done|].
  apply digits_cmp; [lia..|]. destruct H as [H|[-> H]]; [by left|right]. split; [done|].
  apply digits_cmp; [lia..|]. by left.
Qed.

(** The parts of a time of day. *)
Lemma day_parts t : 0 <= t →
  t / 1000000 / 86400 * 86400000000 + ((sec_of t / 3600 * 60 + sec_of t / 60 mod 60) * 60 + sec_of t mod 60) *
    1000000 + t mod 1000000 = t ∧
  0 <= sec_of t / 3600 < 24 ∧ 0 <= sec_of t / 60 mod 60 < 60 ∧ 0 <= sec_of t mod 60 < 60 ∧
  0 <= t mod 1000000 < 1000000.
Proof.
  intros Ht. unfold sec_of.
  replace 3600 with (60 * 60) by done. rewrite <-Z.div_div by lia.
  pose proof (Z.div_mod t 1000000 ltac:(lia)). pose proof (Z.mod_pos_bound t 1000000 ltac:(lia)).
  set (q := t / 1000000) in *. set (r := q mod 86400).
  pose proof (Z.div_mod q 86400 ltac:(lia)). pose proof (Z.mod_pos_bound q 86400 ltac:(lia)).
  pose proof (Z.div_mod r 60 ltac:(lia)). pose proof (Z.mod_pos_bound r 60 ltac:(lia)).
  pose proof (Z.div_mod (r / 60) 60 ltac:(lia)). pose proof (Z.mod_pos_bound (r / 60) 60 ltac:(lia)).
  split_and!; lia.
Qed.

(** * Properties *)

(** The text of a timestamp is its date and time, and sorts as time does.
    For a timestamp from 1970 to the end of 9999, [ToFormattedString] writes the
    date that is that many days after January 1st, 1970 in the Gregorian calendar,
    and the time of that day, in 24 characters that the buffer holds; of two
    timestamps the earlier one has the smaller text. *)
Theorem formatted_sorts (a b : Timestamp) :
  0 <= a → a < b → (calendar (day_of b)).1.1 <= 9999 →
  ToFormattedString true a = stamp (calendar (day_of a)) (sec_of a / 3600) (sec_of a / 60 mod 60)
    (sec_of a mod 60) (a mod 1000000) ∧
  length (ToFormattedString true a) = 24%nat ∧
  bytes_cmp (ToFormattedString true a) (ToFormattedString true b) = Lt.
Proof.
  intros Ha Hab Hy.
  destruct (day_parts a Ha) as (Ea & Ha1 & Ha2 & Ha3 & Ha4).
  destruct (day_parts b ltac:(lia)) as (Eb & Hb1 & Hb2 & Hb3 & Hb4).
  assert (a / 1000000 / 86400 <= b / 1000000 / 86400) as Hd
    by (apply Z.div_le_mono; [lia|apply Z.div_le_mono; lia]).
  assert (0 <= a / 1000000 / 86400) as Hd0 by (apply Z.div_pos; [apply Z.div_pos; lia|lia]).
  assert (date_lt (calendar (day_of a)) (calendar (day_of b)) ∨
          a / 1000000 / 86400 = b / 1000000 / 86400) as Hc.
  { destruct (Z.eq_dec (a / 1000000 / 86400) (b / 1000000 / 86400)); [by right|left].
    apply calendar_lt. unfold day_of. lia. }
  assert (day_of a = day_of b ∨ date_lt (calendar (day_of a)) (calendar (day_of b))) as Hc2.
  { destruct Hc as [|He]; [by right|left]. unfold day_of. by rewrite He. }
  assert ((calendar (day_of a)).1.1 <= 9999) as Hya.
  { destruct Hc2 as [->|[|[]]]; lia. }
  rewrite (formatted b), (formatted a) by (done || lia). split; [done|]. split; [apply length_stamp|].
  pose proof (calendar_year (day_of a)). pose proof (calendar_ranges (day_of a)).
  pose proof (calendar_year (day_of b)). pose proof (calendar_ranges (day_of b)).
  apply stamp_lt; [lia..|]. destruct Hc as [Hc|He]; [by left|right].
  split; [unfold day_of; by rewrite He|]. apply time_lt; lia.
Qed.

Lemma formatted_sorts_witness :
  bytes_cmp (ToFormattedString true 951782399999999) (ToFormattedString true 951782400000000) = Lt ∧
  calendar (day_of 951782400000000) = (2000, 2, 29).
Proof.
  assert (calendar (day_of 951782400000000) = (2000, 2, 29)) as H by (vm_compute; reflexivity).
  split; [|exact H].
  apply (formatted_sorts 951782399999999 951782400000000); [lia|lia|rewrite H; cbn; lia].
Defined.
