(* ===== verification/Args.v ===== *)
(** * Command line arguments (src/cppboot/adv/args.cc)

    The tokenizer cuts a line into words; [Parse] turns words into values of the
    registered flags; the getters read a value or the default of its flag. *)

From S2P Require Import Prelude StdString StringView StrUtil Status.

Inductive ArgType : Set := kBool | kLong | kString.
#[export] Instance ArgType_eq_dec : EqDecision ArgType.
Proof. solve_decision. Defined.

Record ArgFlag : Type := Flag {
  type : ArgType;
  short_name : ascii;
  long_name : bytes;
  default_value : bytes;
  help : bytes;
}.

Definition IsLetter (c : ascii) : bool :=
  ((97 <=? schar c) && (schar c <=? 122)) || ((65 <=? schar c) && (schar c <=? 90)).
Definition IsDigit (c : ascii) : bool := (48 <=? schar c) && (schar c <=? 57).
Definition IsLetterOrDigit (c : ascii) : bool := IsLetter c || IsDigit c.

(** ** Tokenizer

    The text is a C string: [current_] is what is left of it, and reading at its
    end finds the NUL. *)

Definition SQ : ascii := ascii_of_N 39.
Definition is_quota (c : ascii) : bool := bool_decide (c = SQ) || bool_decide (c = DQ).

Fixpoint skip_space (current : bytes) : bytes :=
  match current with
  | c :: rest => if schar c <=? 32 then skip_space rest else current
  | [] => []
  end.

(** The loop up to the closing quote; [None] at the end of the text. *)
Fixpoint quoted (quota : ascii) (p : bytes) : option (bytes * bytes) :=
  match p with
  | [] => None
  | c :: p => if bool_decide (c = quota) then Some ([], p)
              else '(w, rest) ← quoted quota p; Some (c :: w, rest)
  end.

(** The loop over an ordinary word; [None] at a quote. *)
Fixpoint plain (p : bytes) : option (bytes * bytes) :=
  match p with
  | [] => Some ([], [])
  | c :: p' =>
      if 32 <? schar c then
        if is_quota c then None else '(w, rest) ← plain p'; Some (c :: w, rest)
      else Some ([], p)
  end.

(** The status, and on success the value and the rest of the text. *)
Definition MoveNext (current : bytes) : Status + (bytes * bytes) :=
  match skip_space current with
  | [] => inr ([], current)
  | c :: rest =>
      if is_quota c then
        match quoted c rest with
        | None => inl (InvalidArgumentError (bs "Can't find end of Quota"))
        | Some (value, rest) => inr (value, rest)
        end
      else
        match plain (c :: rest) with
        | None => inl (InvalidArgumentError (bs "Quota not first word"))
        | Some (value, rest) => inr (value, rest)
        end
  end.

Fixpoint ParseArgLine_loop (fuel : nat) (current : bytes) (args : list bytes)
    : outcome (Status * list bytes) :=
  match fuel with
  | O => OutOfFuel
  | S fuel =>
      match MoveNext current with
      | inl st => Ret (st, args)
      | inr (value, rest) =>
          if bool_decide (value = []) then Ret (OkStatus, args)
          else ParseArgLine_loop fuel rest (args ++ [value])
      end
  end.

Definition ParseArgLine (line : bytes) (args : list bytes) : outcome (Status * list bytes) :=
  ParseArgLine_loop (S (length line)) line args.

(** ** Args *)

Record Args : Type := MkArgs {
  short_flags_ : gmap ascii ArgFlag;
  long_flags_ : gmap bytes ArgFlag;
  values_ : gmap bytes bytes;
}.

Definition AddFlag (flag : ArgFlag) (a : Args) : Args :=
  MkArgs
    (if negb (bool_decide (short_name flag = NUL))
     then <[short_name flag := flag]> (short_flags_ a) else short_flags_ a)
    (if 2 <=? len (long_name flag)
     then <[long_name flag := flag]> (long_flags_ a) else long_flags_ a)
    (values_ a).

(** [Args()] *)
Definition help_flag : ArgFlag := Flag kBool "h"%char (bs "help") [] (bs "This help text").
Definition new_args : Args := AddFlag help_flag (MkArgs ∅ ∅ ∅).

(** A C string argument is [None] for the null pointer. *)
Definition AddBool (s : ascii) (l h : option bytes) (a : Args) : Args :=
  match l with
  | Some l => if negb (bool_decide (s = NUL))
              then AddFlag (Flag kBool s l [] (default [] h)) a else a
  | None => a
  end.

Definition AddString (s : ascii) (l d h : option bytes) (a : Args) : outcome Args :=
  match l with
  | Some l => if negb (bool_decide (s = NUL))
              then d ← or_undef d; Ret (AddFlag (Flag kString s l d (default [] h)) a)
              else Ret a
  | None => Ret a
  end.

Definition AddLong (s : ascii) (l : option bytes) (d : Z) (h : option bytes) (a : Args) : Args :=
  match l with
  | Some l => if negb (bool_decide (s = NUL))
              then AddFlag (Flag kLong s l (itoa d) (default [] h)) a else a
  | None => a
  end.

Definition GetValue (l : option bytes) (a : Args) : bytes :=
  match l with
  | None => []
  | Some l =>
      match values_ a !! l with
      | Some v => v
      | None => match long_flags_ a !! l with Some f => default_value f | None => [] end
      end
  end.

Definition GetBool (l : option bytes) (a : Args) : bool := negb (bool_decide (GetValue l a = [])).
Definition GetString (l : option bytes) (a : Args) : bytes := GetValue l a.
Definition GetLong (l : option bytes) (a : Args) : outcome Z := stoll (GetValue l a).

(** [v[i]] of a view asserts that the index is in range. *)
Definition char_at (v : bytes) (i : nat) : outcome ascii :=
  match v !! i with Some c => Ret c | None => Crash end.

Definition GetFlag (name : bytes) (a : Args) : outcome (option ArgFlag) :=
  let long :=
    if 4 <=? len name then
      c ← char_at name 1;
      if bool_decide (c = "-"%char) then
        if forallb IsLetterOrDigit (drop 2 name)
        then Ret (long_flags_ a !! drop 2 name) else Ret None
      else Ret None
    else Ret None in
  if len name =? 2 then
    c ← char_at name 1;
    if IsLetterOrDigit c then
      match short_flags_ a !! c with Some f => Ret (Some f) | None => long end
    else long
  else long.

(** The loop of [Parse] over the arguments from index [i]. *)
Fixpoint Parse_loop (args : list bytes) (current : option ArgFlag) (result : gmap bytes bytes)
    (a : Args) : outcome (Status + (option ArgFlag * gmap bytes bytes)) :=
  match args with
  | [] => Ret (inr (current, result))
  | arg :: args =>
      c ← char_at arg 0;
      if bool_decide (c = "-"%char) then
        match current with
        | Some _ => Ret (inl (InvalidArgumentError (bs "flag no value")))
        | None =>
            flag ← GetFlag arg a;
            match flag with
            | None => Ret (inl (InvalidArgumentError (bs "flag not found")))
            | Some f =>
                if bool_decide (type f = kBool)
                then Parse_loop args None (<[long_name f := bs "true"]> result) a
                else Parse_loop args (Some f) result a
            end
        end
      else
        match current with
        | None => Ret (inl (InvalidArgumentError (bs "no flag")))
        | Some f => Parse_loop args None (<[long_name f := arg]> result) a
        end
  end.

Definition set_values (v : gmap bytes bytes) (a : Args) : Args :=
  MkArgs (short_flags_ a) (long_flags_ a) v.

(** [Impl::Parse] *)
Definition Parse_args (args : list bytes) (a : Args) : outcome (Status * Args) :=
  let a := set_values ∅ a in
  match args with
  | [] => Ret (OkStatus, a)
  | arg0 :: rest =>
      c ← char_at arg0 0;
      r ← Parse_loop (if bool_decide (c = "-"%char) then args else rest) None ∅ a;
      match r with
      | inl st => Ret (st, a)
      | inr (Some _, _) => Ret (InvalidArgumentError (bs "flag no value"), a)
      | inr (None, result) => Ret (OkStatus, set_values result a)
      end
  end.

(** [Parse(arg_line)] *)
Definition Parse_line (arg_line : bytes) (a : Args) : outcome (Status * Args) :=
  '(st, args) ← ParseArgLine arg_line [];
  if status_ok st then Parse_args args a else Ret (st, a).

(** [Parse(argc, argv)]; [None] is the null pointer that ends the array. *)
Fixpoint trim_args (argv : list (option bytes)) (args : list bytes) : outcome (list bytes) :=
  match argv with
  | Some s :: argv =>
      w ← StrTrim (sv_of_string s) (lit [SP; CR; HT; LF]);
      trim_args argv (if bool_decide (chars w = []) then args else args ++ [chars w])
  | _ => Ret args
  end.

Definition Parse_argv (argc : Z) (argv : list (option bytes)) (a : Args) : outcome (Status * Args) :=
  args ← trim_args (take (Z.to_nat argc) argv) [];
  Parse_args args a.

Example parse_ex :
  let a := AddLong "n"%char (Some (bs "count")) 7 None new_args in
  match Parse_line (bs "prog -h --count '42'") a with
  | Ret (st, a) => (st, GetBool (Some (bs "help")) a, GetLong (Some (bs "count")) a)
  | _ => (OkStatus, false, Undef)
  end = (OkStatus, true, Ret 42).
Proof. vm_compute. reflexivity. Qed.

(** * Properties *)

(** ** The lines of words *)

Definition blank (c : ascii) : bool := schar c <=? 32.
Definition word_char (c : ascii) : Prop := blank c = false ∧ is_quota c = false.
Definition ends_word (l : bytes) : Prop := ∀ c, head l = Some c → blank c = true.

(** The words of a line.  An empty pair of quotes ends it: what follows is
    dropped. *)
Inductive words : list bytes → bytes → Prop :=
  | words_end sp : Forall (λ c, blank c = true) sp → words [] sp
  | words_empty sp q rest :
      Forall (λ c, blank c = true) sp → is_quota q = true → words [] (sp ++ q :: q :: rest)
  | words_plain sp c t rest ws :
      Forall (λ c, blank c = true) sp → Forall word_char (c :: t) → ends_word rest →
      words ws rest → words ((c :: t) :: ws) (sp ++ (c :: t) ++ rest)
  | words_quoted sp q c t rest ws :
      Forall (λ c, blank c = true) sp → is_quota q = true → q ∉ c :: t →
      words ws rest → words ((c :: t) :: ws) (sp ++ q :: (c :: t) ++ q :: rest).

Lemma quota_not_blank q : is_quota q = true → blank q = false.
Proof.
  intros Hq. assert (forallb (λ c, negb (is_quota c) || negb (blank c)) all_chars = true) as H
    by (vm_compute; reflexivity).
  pose proof (forall_chars _ H q) as Hx. cbn beta in Hx. rewrite Hq in Hx. by apply negb_true_iff in Hx.
Qed.

Lemma skip_space_app sp l : Forall (λ c, blank c = true) sp → skip_space (sp ++ l) = skip_space l.
Proof.
  induction 1 as [|c sp Hc _ IH]; [done|]. cbn [app skip_space]. unfold blank in Hc. by rewrite Hc.
Qed.

Lemma skip_space_stop c l : blank c = false → skip_space (c :: l) = c :: l.
Proof. intros Hc. cbn. unfold blank in Hc. by rewrite Hc. Qed.

Lemma skip_space_spec l : ∃ sp, Forall (λ c, blank c = true) sp ∧ l = sp ++ skip_space l ∧
  ∀ c, head (skip_space l) = Some c → blank c = false.
Proof.
  induction l as [|c l (sp & Hsp & Hl & Hh)]; [by exists []|]. cbn [skip_space].
  destruct (schar c <=? 32) eqn:Hc.
  - exists (c :: sp). split_and!; [by constructor | cbn; by f_equal | done].
  - exists []. split_and!; [done..|]. by intros c' [= <-].
Qed.

Lemma quoted_spec q p w rest : quoted q p = Some (w, rest) ↔ p = w ++ q :: rest ∧ q ∉ w.
Proof.
  split.
  - revert w. induction p as [|c p IH]; intros w; cbn [quoted]; [done|].
    case_bool_decide as Hc; [intros [= <- <-]; subst; set_solver|].
    destruct (quoted q p) as [[w' r]|]; [|done]. cbn. intros [= <- ->].
    destruct (IH w' eq_refl) as [-> Hq]. set_solver.
  - intros [-> Hq]. induction w as [|c w IH]; cbn [app quoted]; [by rewrite bool_decide_true|].
    apply not_elem_of_cons in Hq as [Hc Hq]. rewrite bool_decide_false by congruence.
    by rewrite IH.
Qed.

Lemma plain_spec p w rest :
  plain p = Some (w, rest) ↔ p = w ++ rest ∧ Forall word_char w ∧ ends_word rest.
Proof.
  assert (∀ c, (32 <? schar c) = negb (blank c)) as Hb by (intros c; unfold blank; lia).
  split.
  - revert w. induction p as [|c p IH]; intros w; cbn [plain]; [by intros [= <- <-]|].
    rewrite Hb. destruct (blank c) eqn:Hc; cbn [negb].
    + intros [= <- <-]. split_and!; [done..|]. by intros c' [= <-].
    + destruct (is_quota c) eqn:Hq; [done|].
      destruct (plain p) as [[w' r]|]; [|done]. cbn. intros [= <- ->].
      destruct (IH w' eq_refl) as (-> & Hw & Hr). split_and!; [done | by constructor | done].
  - intros (-> & Hw & Hr). induction Hw as [|c w [Hc Hq] Hw IH]; cbn [app].
    + destruct rest as [|c rest]; [done|]. cbn [plain]. rewrite Hb.
      by rewrite (Hr c eq_refl).
    + cbn [plain]. rewrite Hb, Hc, Hq, IH. done.
Qed.

Lemma plain_nonempty c p w rest :
  blank c = false → plain (c :: p) = Some (w, rest) → ∃ t, w = c :: t.
Proof.
  intros Hc. cbn [plain]. unfold blank in Hc. rewrite (proj2 (Z.ltb_lt 32 _)) by lia.
  destruct (is_quota c); [done|]. destruct (plain p) as [[w' r]|]; [|done].
  intros [= <- _]. by eexists.
Qed.

(** What [MoveNext] does with a line whose blanks have been skipped. *)
Lemma MoveNext_blank sp l : Forall (λ c, blank c = true) sp → l ≠ [] →
  (∀ c, head l = Some c → blank c = false) → MoveNext (sp ++ l) = MoveNext l.
Proof.
  intros Hsp Hl Hh. unfold MoveNext. rewrite skip_space_app by done.
  destruct l as [|c l]; [done|]. by rewrite skip_space_stop by by apply Hh.
Qed.

Lemma words_sound l ws : words ws l → ∀ fuel acc, (length l < fuel)%nat →
  ParseArgLine_loop fuel l acc = Ret (OkStatus, acc ++ ws).
Proof.
  induction 1 as [sp Hsp|sp q rest Hsp Hq|sp c t rest ws Hsp Ht He Hw IH
    |sp q c t rest ws Hsp Hq Hn Hw IH]; intros fuel acc Hf;
    (destruct fuel as [|fuel]; [lia|]); cbn [ParseArgLine_loop].
  - unfold MoveNext. rewrite <-(app_nil_r sp), skip_space_app by done. cbn. by rewrite app_nil_r.
  - rewrite MoveNext_blank by (done || by intros ? [= <-]; apply quota_not_blank).
    unfold MoveNext. rewrite skip_space_stop, Hq by by apply quota_not_blank.
    cbn [quoted]. rewrite bool_decide_true by done. by rewrite bool_decide_true, app_nil_r.
  - apply Forall_cons in Ht as Hc. destruct Hc as [[Hb Hq] _]. cbn [app].
    rewrite MoveNext_blank by (done || by intros ? [= <-]).
    unfold MoveNext. rewrite skip_space_stop, Hq by done.
    rewrite (proj2 (plain_spec (c :: t ++ rest) (c :: t) rest)) by done.
    rewrite bool_decide_false, IH by (done || rewrite !length_app in Hf; cbn in Hf; lia).
    by rewrite <-app_assoc.
  - rewrite MoveNext_blank by (done || by intros ? [= <-]; apply quota_not_blank).
    unfold MoveNext. rewrite skip_space_stop, Hq by by apply quota_not_blank.
    rewrite (proj2 (quoted_spec q ((c :: t) ++ q :: rest) (c :: t) rest)) by done.
    rewrite bool_decide_false, IH by (done || rewrite !length_app in Hf; cbn in Hf;
      rewrite length_app in Hf; cbn in Hf; lia).
    by rewrite <-app_assoc.
Qed.

(** Every line ends in one of three ways. *)
Definition no_end_of_quota : Status := InvalidArgumentError (bs "Can't find end of Quota").
Definition quota_inside : Status := InvalidArgumentError (bs "Quota not first word").

Lemma words_complete fuel l acc : (length l < fuel)%nat →
  (∃ ws, words ws l ∧ ParseArgLine_loop fuel l acc = Ret (OkStatus, acc ++ ws)) ∨
  ∃ st ws, ParseArgLine_loop fuel l acc = Ret (st, ws) ∧ (st = no_end_of_quota ∨ st = quota_inside).
Proof.
  revert l acc. induction fuel as [|fuel IH]; intros l acc Hf; [lia|].
  destruct (skip_space_spec l) as (sp & Hsp & Hl & Hh). cbn [ParseArgLine_loop]. unfold MoveNext.
  destruct (skip_space l) as [|c r] eqn:Hr.
  { left. exists []. rewrite app_nil_r in Hl. subst sp. split; [by constructor|].
    cbn. by rewrite app_nil_r. }
  assert (length r < fuel)%nat as Hrf by (rewrite Hl, length_app in Hf; cbn in Hf; lia).
  destruct (is_quota c) eqn:Hq.
  - destruct (quoted c r) as [[w rest]|] eqn:Hw; [|right; eexists _, _; split; [done|by left]].
    apply quoted_spec in Hw as [-> Hn]. case_bool_decide as Hwe.
    + left. subst w. exists []. rewrite app_nil_r. split; [|done]. rewrite Hl. by constructor.
    + destruct (IH rest (acc ++ [w])) as [(ws & Hws & ->)|?]; [|left | by right].
      { rewrite length_app in Hrf. cbn in Hrf. lia. }
      destruct w as [|d w]; [done|]. exists ((d :: w) :: ws). rewrite Hl, <-app_assoc.
      split; [|done]. by apply words_quoted.
  - destruct (plain (c :: r)) as [[w rest]|] eqn:Hw; [|right; eexists _, _; split; [done|by right]].
    destruct (plain_nonempty _ _ _ _ (Hh c eq_refl) Hw) as [t ->].
    apply plain_spec in Hw as (Hw & Ht & He). rewrite bool_decide_false by done.
    destruct (IH rest (acc ++ [c :: t])) as [(ws & Hws & ->)|?]; [|left | by right].
    { apply (f_equal length) in Hw. rewrite length_app in Hw. cbn in Hw. lia. }
    exists ((c :: t) :: ws). rewrite Hl, Hw, <-app_assoc. split; [|done]. by apply words_plain.
Qed.

Lemma words_nonempty l ws : words ws l → Forall (λ w, w ≠ []) ws.
Proof. induction 1; by repeat constructor. Qed.

(** C24: the tokenizer cuts every line into the words of a grammar, and always ends.
    A word is a run of characters above the blank (as signed chars, so that a byte
    from 128 on separates words like a blank does) without quotes, or anything
    between two equal quotes; an empty pair of quotes ends the line, whatever
    stands behind it.  Exactly the lines of this grammar are accepted, with their
    words; any other line is refused with one of two messages. *)
Theorem ParseArgLine_words (l : bytes) :
  (∀ ws, ParseArgLine l [] = Ret (OkStatus, ws) ↔ words ws l) ∧
  ((∃ ws, words ws l) ∨
   ∃ st ws, ParseArgLine l [] = Ret (st, ws) ∧ (st = no_end_of_quota ∨ st = quota_inside)) ∧
  (∀ ws, words ws l → Forall (λ w, w ≠ []) ws).
Proof.
  unfold ParseArgLine.
  destruct (words_complete (S (length l)) l [] ltac:(lia)) as [(ws & Hws & Hp)|(st & ws & Hp & Hst)].
  - split_and!; [|left; by exists ws|intros ws0; apply words_nonempty].
    intros ws'. rewrite Hp. cbn [app]. split; [by intros [= <-]|]. intros Hws'.
    pose proof (words_sound l ws' Hws' (S (length l)) [] ltac:(lia)) as Hs.
    rewrite Hp in Hs. by injection Hs as <-.
  - split_and!; [|right; by exists st, ws|intros ws0; apply words_nonempty].
    intros ws'. split.
    + rewrite Hp. intros [= -> _]. by destruct Hst.
    + intros Hws'. apply (words_sound l ws' Hws'). lia.
Qed.

(** ** Values *)

Definition is_flag (tok : bytes) : Prop := head tok = Some "-"%char.

(** What a list of arguments assigns, in order. *)
Inductive assigns (a : Args) : list bytes → list (bytes * bytes) → Prop :=
  | assigns_nil : assigns a [] []
  | assigns_bool tok f rest kvs :
      is_flag tok → GetFlag tok a = Ret (Some f) → type f = kBool → assigns a rest kvs →
      assigns a (tok :: rest) ((long_name f, bs "true") :: kvs)
  | assigns_value tok f v rest kvs :
      is_flag tok → GetFlag tok a = Ret (Some f) → type f ≠ kBool → ¬ is_flag v →
      assigns a rest kvs → assigns a (tok :: v :: rest) ((long_name f, v) :: kvs).

(** A first argument that is no flag is the name of the program. *)
Definition without_program (args : list bytes) : list bytes :=
  match args with
  | [] => []
  | a0 :: rest => if bool_decide (head a0 = Some "-"%char) then args else rest
  end.

Lemma GetFlag_total tok a : ∃ f, GetFlag tok a = Ret f.
Proof.
  unfold GetFlag. assert (∀ n, n < len tok → 0 <= n → ∃ c, char_at tok (Z.to_nat n) = Ret c) as Hc.
  { intros n Hn H0. unfold char_at. destruct (lookup_lt_is_Some_2 tok (Z.to_nat n)) as [c ->]; [lia|].
    by exists c. }
  assert (∃ f, (if 4 <=? len tok then
    c ← char_at tok 1;
    if bool_decide (c = "-"%char) then
      if forallb IsLetterOrDigit (drop 2 tok)
      then Ret (long_flags_ a !! drop 2 tok) else Ret None
    else Ret None
  else Ret None) = Ret f) as [f Hf].
  { destruct (4 <=? len tok) eqn:Hl; [|by eexists]. destruct (Hc 1) as [c Hc1]; [lia..|].
    change (Z.to_nat 1) with 1%nat in Hc1. rewrite Hc1. cbn.
    destruct (bool_decide _); [|by eexists]. destruct (forallb _ _); by eexists. }
  cbn zeta. rewrite !Hf. destruct (len tok =? 2) eqn:Hl; [|by exists f].
  destruct (Hc 1) as [c Hc1]; [lia..|]. change (Z.to_nat 1) with 1%nat in Hc1. rewrite Hc1.
  cbn [mbind outcome_bind]. destruct (IsLetterOrDigit c); [|by exists f].
  destruct (short_flags_ a !! c) as [g|]; [by exists (Some g) | by exists f].
Qed.

Lemma char_at_0 c t : char_at (c :: t) 0 = Ret c.
Proof. done. Qed.

Definition is_refusal (st : Status) : Prop :=
  st = InvalidArgumentError (bs "flag no value") ∨ st = InvalidArgumentError (bs "flag not found") ∨
  st = InvalidArgumentError (bs "no flag").

(** The loop, with or without a flag that waits for its value. *)
Lemma Parse_loop_assigns args result a : Forall (λ w, w ≠ []) args →
  (∃ kvs, assigns a args kvs ∧ Parse_loop args None result a = Ret (inr (None, insert_all kvs result))) ∨
  (∀ kvs, ¬ assigns a args kvs) ∧
  ((∃ st, Parse_loop args None result a = Ret (inl st) ∧ is_refusal st) ∨
   ∃ f r, Parse_loop args None result a = Ret (inr (Some f, r))).
Proof.
  remember (length args) as n eqn:Hn. revert args result Hn.
  induction (lt_wf n) as [n _ IH]. intros args result -> Hne.
  destruct Hne as [|tok rest Htok Hrest]; [left; exists []; split; [constructor | reflexivity]|].
  destruct tok as [|c t]; [done|]. cbn [Parse_loop]. rewrite char_at_0. cbn [mbind outcome_bind].
  case_bool_decide as Hc.
  2:{ right. split.
      - intros kvs H. inversion H as [|? ? ? ? Hf|? ? ? ? ? Hf]; subst; injection Hf as ->; done.
      - left. eexists. split; [done|]. right. by right. }
  subst c. destruct (GetFlag_total ("-"%char :: t) a) as [[f|] Hf]; rewrite Hf; cbn [mbind outcome_bind].
  2:{ right. split.
      - intros kvs H. inversion H; congruence.
      - left. eexists. split; [done|]. right. by left. }
  case_bool_decide as Ht.
  - destruct (IH (length rest) ltac:(cbn; lia) rest (<[long_name f := bs "true"]> result) eq_refl Hrest)
      as [(kvs & Hk & ->)|(Hno & H)].
    + left. eexists. split; [by apply assigns_bool|]. done.
    + right. split; [|done]. intros kvs H'. inversion H'; subst; first [congruence | by eapply Hno].
  - destruct Hrest as [|v rest Hv Hrest].
    + right. split; [|right; by eexists _, _]. intros kvs H. inversion H; subst; congruence.
    + destruct v as [|c v]; [done|]. cbn [Parse_loop]. rewrite char_at_0. cbn [mbind outcome_bind].
      case_bool_decide as Hc.
      * right. split; [|left; eexists; split; [done|by left]].
        intros kvs H. inversion H as [|? ? ? ? ? Hf2|? ? ? ? ? ? ? ? Hnf]; subst; first [congruence | by destruct Hnf].
      * destruct (IH (length rest) ltac:(cbn; lia) rest (<[long_name f := c :: v]> result) eq_refl Hrest)
          as [(kvs & Hk & ->)|(Hno & H)].
        -- left. eexists. split; [apply assigns_value; try done; by intros [= ->]|]. done.
        -- right. split; [|done]. intros kvs H'. inversion H'; subst; first [congruence | by eapply Hno].
Qed.

Lemma assigns_set_values v a args kvs : assigns (set_values v a) args kvs ↔ assigns a args kvs.
Proof.
  split; induction 1; [constructor | by apply assigns_bool | by apply assigns_value
    | constructor | by apply assigns_bool | by apply assigns_value].
Qed.

(** C25: [Parse] stores exactly what its arguments assign, or nothing.  Behind the
    name of the program the arguments must be flags in turn, a boolean flag alone
    and any other followed by a value that does not start with a dash; then the
    values are those assigned, the last one of a name counting.  Anything else is
    refused with one of three messages, and all values, the old ones included,
    are gone. *)
Theorem Parse_args_assigns (args : list bytes) (a : Args) : Forall (λ w, w ≠ []) args →
  (∃ kvs, assigns a (without_program args) kvs ∧
     Parse_args args a = Ret (OkStatus, set_values (insert_all kvs ∅) a)) ∨
  (∀ kvs, ¬ assigns a (without_program args) kvs) ∧
  ∃ st, Parse_args args a = Ret (st, set_values ∅ a) ∧ is_refusal st.
Proof.
  intros Hne. destruct args as [|a0 rest]; [left; exists []; split; [constructor | done]|].
  unfold Parse_args. assert (char_at a0 0 = Ret (default NUL (head a0))) as ->.
  { apply Forall_cons in Hne as [Ha _]. by destruct a0. }
  cbn [mbind outcome_bind].
  assert ((if bool_decide (default NUL (head a0) = "-"%char) then a0 :: rest else rest)
    = without_program (a0 :: rest)) as ->.
  { cbn [without_program]. apply Forall_cons in Hne as [Ha _]. destruct a0 as [|c t]; [done|]. cbn.
    destruct (decide (c = "-"%char)) as [->|Hc]; [done|].
    rewrite !bool_decide_false by congruence. done. }
  assert (Forall (λ w, w ≠ []) (without_program (a0 :: rest))) as Hw.
  { cbn [without_program]. case_bool_decide; [done|]. by apply Forall_cons in Hne as [_ ?]. }
  destruct (Parse_loop_assigns _ ∅ (set_values ∅ a) Hw)
    as [(kvs & Hk & ->)|(Hno & [(st & -> & Hst)|(f & r & ->)])]; cbn [mbind outcome_bind].
  - left. exists kvs. by rewrite assigns_set_values in Hk.
  - right. split; [|by exists st]. intros kvs. rewrite <-(assigns_set_values ∅). apply Hno.
  - right. split; [|eexists; split; [done|by left]]. intros kvs.
    rewrite <-(assigns_set_values ∅). apply Hno.
Qed.

Lemma Parse_args_assigns_witness :
  ∃ st, Parse_args [bs "prog"; bs "--verbose"] new_args = Ret (st, set_values ∅ new_args) ∧
        is_refusal st.
Proof.
  destruct (Parse_args_assigns [bs "prog"; bs "--verbose"] new_args) as [(kvs & Hk & _)|(_ & H)].
  - by_decide.
  - exfalso. change (without_program [bs "prog"; bs "--verbose"]) with [bs "--verbose"] in Hk.
    assert (GetFlag (bs "--verbose") new_args = Ret None) as Hn by (vm_compute; reflexivity).
    inversion Hk; subst;
      match goal with Hs : _ = Ret (Some _) |- _ => discriminate (eq_trans (eq_sym Hn) Hs) end.
  - exact H.
Defined.

Definition is_name (l : bytes) : Prop := (2 <= length l)%nat ∧ forallb IsLetterOrDigit l = true.

Lemma GetFlag_long l a : is_name l → GetFlag (bs "--" ++ l) a = Ret (long_flags_ a !! l).
Proof.
  intros [Hl Hn]. change (bs "--") with ["-"%char; "-"%char]. unfold GetFlag. cbn [app]. cbn zeta.
  rewrite (proj2 (Z.eqb_neq _ 2)), (proj2 (Z.leb_le 4 _)) by len_lia.
  cbn [char_at lookup list_lookup mbind outcome_bind]. rewrite bool_decide_true by done.
  change (drop 2 ("-"%char :: "-"%char :: l)) with l. by rewrite Hn.
Qed.

Lemma GetFlag_short s f a : IsLetterOrDigit s = true → short_flags_ a !! s = Some f →
  GetFlag ["-"%char; s] a = Ret (Some f).
Proof. intros Hs Hf. unfold GetFlag. cbn. by rewrite Hs, Hf. Qed.

Lemma itoa_sign n : n < 0 ↔ is_flag (itoa n).
Proof.
  unfold itoa, is_flag. destruct (n <? 0) eqn:Hn; bool_hyps; [done|]. split; [lia|].
  intros Hh. exfalso. pose proof (utoa_digits n ltac:(lia)) as Hd.
  destruct (utoa n); [done|]. injection Hh as ->. apply Forall_cons in Hd as [Hd _]. done.
Qed.

(** A flag and one argument. *)
Lemma Parse_pair tok v f a : is_flag tok → GetFlag tok (set_values ∅ a) = Ret (Some f) →
  type f ≠ kBool → v ≠ [] →
  Parse_args [tok; v] a =
  Ret (if bool_decide (is_flag v)
       then (InvalidArgumentError (bs "flag no value"), set_values ∅ a)
       else (OkStatus, set_values {[long_name f := v]} a)).
Proof.
  intros Hf Hg Ht Hv. assert (char_at tok 0 = Ret "-"%char) as Hc0.
  { unfold is_flag in Hf. destruct tok as [|c t]; [done|]. by injection Hf as ->. }
  destruct v as [|c v]; [done|]. unfold Parse_args. rewrite Hc0. cbn [mbind outcome_bind].
  rewrite (bool_decide_true ("-"%char = "-"%char)) by done. cbn [Parse_loop]. rewrite Hc0.
  cbn [mbind outcome_bind]. rewrite (bool_decide_true ("-"%char = "-"%char)) by done. rewrite Hg.
  cbn [mbind outcome_bind]. rewrite (bool_decide_false (type f = kBool)) by done. rewrite char_at_0.
  cbn [mbind outcome_bind]. unfold is_flag. cbn [head].
  rewrite (bool_decide_ext (Some c = Some "-"%char) (c = "-"%char)) by naive_solver.
  by case_bool_decide.
Qed.

Lemma itoa_nonempty n : itoa n ≠ [].
Proof.
  unfold itoa. destruct (n <? 0) eqn:Hn; bool_hyps; [done|]. by apply utoa_nonempty.
Qed.

Lemma stoll_letter c v : IsLetter c = true → stoll (c :: v) = Throw invalid_argument.
Proof.
  intros Hc.
  assert (∀ c, negb (IsLetter c) || bool_decide (is_space c = false ∧ c ≠ "-"%char ∧ c ≠ "+"%char ∧
    is_digit_char c = false) = true) as Hl by (apply forall_chars; vm_compute; reflexivity).
  specialize (Hl c). rewrite Hc in Hl. cbn [negb orb] in Hl. apply bool_decide_eq_true in Hl.
  destruct Hl as (H1 & H2 & H3 & H4). unfold stoll. cbn [skip_spaces]. rewrite H1, !bool_decide_false by done.
  cbn [digits]. by rewrite H4.
Qed.

(** A number goes through the command line unchanged.  A flag added with
    [AddLong] yields its default while it is not given; given by its short or its
    long name, any non-negative [long long] comes back from [GetLong], the last
    one if there are several.  A negative number is taken for a flag and refused,
    and a value that does not start with a number makes [GetLong] throw. *)
Theorem GetLong_roundtrip (s : ascii) (l : bytes) (d : Z) (h : option bytes) (a : Args) (tok : bytes) :
  s ≠ NUL → IsLetterOrDigit s = true → is_name l → LLONG_MIN <= d <= LLONG_MAX →
  tok = ["-"%char; s] ∨ tok = bs "--" ++ l →
  let a' := AddLong s (Some l) d h a in
  GetLong (Some l) (set_values ∅ a') = Ret d ∧
  (∀ n, 0 <= n <= LLONG_MAX → ∃ a'', Parse_args [tok; itoa n] a' = Ret (OkStatus, a'') ∧
     GetLong (Some l) a'' = Ret n) ∧
  (∀ n, n < 0 → Parse_args [tok; itoa n] a'
     = Ret (InvalidArgumentError (bs "flag no value"), set_values ∅ a')) ∧
  (∀ c v, IsLetter c = true → ∃ a'', Parse_args [tok; c :: v] a' = Ret (OkStatus, a'') ∧
     GetLong (Some l) a'' = Throw invalid_argument).
Proof.
  intros Hs Hls Hn Hd Htok a'.
  set (f := Flag kLong s l (itoa d) (default [] h)).
  assert (short_flags_ a' !! s = Some f ∧ long_flags_ a' !! l = Some f) as [Hsf Hlf].
  { subst a'. unfold AddLong. rewrite bool_decide_false by done. cbn [negb]. unfold AddFlag.
    cbn [short_flags_ long_flags_ short_name long_name].
    rewrite bool_decide_false by done. rewrite (proj2 (Z.leb_le 2 _)) by (destruct Hn; cbn; lia).
    cbn [negb]. by rewrite !lookup_insert_eq. }
  assert (GetFlag tok (set_values ∅ a') = Ret (Some f) ∧ is_flag tok) as [Hg Hf].
  { destruct Htok as [-> | ->]; split; try done; [by apply GetFlag_short|].
    rewrite GetFlag_long by done. by f_equal. }
  assert (∀ v, GetLong (Some l) (set_values {[l := v]} a') = stoll v) as Hget.
  { intros v. unfold GetLong, GetValue. cbn [values_ set_values]. by rewrite lookup_singleton_eq. }
  split_and!.
  - unfold GetLong, GetValue. cbn [values_ set_values long_flags_]. rewrite lookup_empty, Hlf.
    by apply stoll_itoa.
  - intros n Hr. exists (set_values {[l := itoa n]} a').
    rewrite (Parse_pair tok (itoa n) f), bool_decide_false; try done.
    + split; [done|]. rewrite Hget. apply stoll_itoa. unfold LLONG_MIN, LLONG_MAX in *. lia.
    + rewrite <-itoa_sign. lia.
    + apply itoa_nonempty.
  - intros n Hneg. rewrite (Parse_pair tok (itoa n) f), bool_decide_true; try done.
    + by apply itoa_sign.
    + apply itoa_nonempty.
  - intros c v Hc. exists (set_values {[l := c :: v]} a').
    rewrite (Parse_pair tok (c :: v) f), bool_decide_false; try done.
    + split; [done|]. rewrite Hget. by apply stoll_letter.
    + intros [= ->]. done.
Qed.

Lemma GetLong_roundtrip_witness :
  ∃ a'', Parse_args [bs "--count"; itoa 42] (AddLong "c"%char (Some (bs "count")) 7 None new_args)
    = Ret (OkStatus, a'') ∧ GetLong (Some (bs "count")) a'' = Ret 42.
Proof.
  destruct (GetLong_roundtrip "c"%char (bs "count") 7 None new_args (bs "--count")) as (_ & H & _).
  - discriminate.
  - reflexivity.
  - split; [cbn; lia | reflexivity].
  - vm_compute. split; discriminate.
  - by right.
  - apply (H 42). vm_compute. split; discriminate.
Defined.
