(* ===== verification/ArgsHelp.v ===== *)
(** * The help text of the command line (src/cppboot/adv/args.cc, [Args::Help])

    One line for each flag, laid out by the formatting library. *)

From S2P Require Import Prelude StdString StringView Status FmtNum FmtSpec FmtUtf8 FmtEscape FmtWrite Fmt Args.

(** The names are handed over as C strings. *)
Definition help_line (f : ArgFlag) : outcome bytes :=
  name ← c_str (long_name f ++ [NUL]);
  text ← c_str (help f ++ [NUL]);
  t ← format (bs "{:c}, --{:<15} {}") [AChar (short_name f); ACString 1 name; ACString 1 text];
  Ret (t ++ (if bool_decide (default_value f = []) then [] else bs " (default: " ++ default_value f ++ bs ")") ++ [LF]).

Fixpoint help_lines (l : list ArgFlag) : outcome bytes :=
  match l with
  | [] => Ret []
  | f :: l => t ← help_line f; r ← help_lines l; Ret (t ++ r)
  end.

Definition Help (a : Args.Args) : outcome bytes :=
  r ← help_lines (map_iter (long_flags_ a)).*2; Ret (bs "Arguments:" ++ [LF] ++ r).

(** * Lemmas *)

Definition char_spec : syntax := type_only "c".
Definition name_spec : syntax := Syntax (Some (None, "<"%char)) None false false (Some (CNum 15)) None false None.

Definition line_segments : list segment :=
  [Field RefNone (Some char_spec); Text (bs ", --"); Field RefNone (Some name_spec); Text (bs " "); Field RefNone None].

Lemma line_segments_text : format_text line_segments = bs "{:c}, --{:<15} {}".
Proof. vm_compute. reflexivity. Qed.

Lemma name_spec_ok : syntax_ok cstring_type name_spec.
Proof.
  split_and!; cbn; try done; try (by intros [? [=]]).
  intros f c Hf. by injection Hf as <- <-.
Qed.

Definition left_15 : format_specs := Specs 15 (-1) pres_none align_left sign_none false false (bs " ") RefNone RefNone.

Lemma fill_n_one n c : fill_n n [c] = replicate n c.
Proof. induction n as [|n IH]; [done|]. cbn [fill_n replicate app]. by rewrite IH. Qed.

Lemma pad_left_15 n t : pad false left_15 n t = t ++ replicate (Z.to_nat (15 - n)) SP.
Proof.
  unfold pad, left_padding, padding. cbn [align left_15 width fill Z.to_nat fill_n app]. change (bs " ") with [SP].
  rewrite fill_n_one. assert (Z.to_nat (Z.max 0 (15 - n) - 0) = Z.to_nat (15 - n)) as -> by lia. by rewrite fill_n_one.
Qed.

Lemma format_line c name text : Forall scalar name →
  format (bs "{:c}, --{:<15} {}") [AChar c; ACString 1 (utf8_text name); ACString 1 text] =
    Ret ([c] ++ bs ", --" ++ utf8_text name ++ replicate (Z.to_nat (15 - columns name)) SP ++ bs " " ++ text).
Proof.
  intros Hn. unfold format. rewrite <-line_segments_text. set (fa := FmtWrite.Args _ _).
  assert (meaning char_spec (0 + 1) = Ret (set_type chr default_specs, runtime 1)) as Hc by done.
  assert (meaning name_spec (1 + 1) = Ret (left_15, runtime 2)) as Hm by done.
  rewrite format_text_meaning; [|by repeat constructor|].
  2:{ eapply auto_ok; [done|reflexivity|done|by eapply type_only_ok|exact Hc|]. apply text_ok.
      eapply auto_ok; [done|reflexivity|done|apply name_spec_ok|exact Hm|]. by apply text_ok, plain_auto_ok. }
  unfold line_segments. erewrite auto_meaning; [|done|reflexivity|exact Hc]. rewrite text_meaning.
  erewrite auto_meaning; [|done|reflexivity|exact Hm]. rewrite text_meaning.
  erewrite plain_auto_meaning; [|done|reflexivity].
  change (fill_in fa (set_type chr default_specs)) with (Ret (set_type chr default_specs)).
  change (fill_in fa left_15) with (Ret left_15). cbn [mbind outcome_bind].
  change (format_with (AChar c) (set_type chr default_specs) classic_locale) with (Ret [c]).
  cbn [mbind outcome_bind format_with]. unfold write_cstring. cbn [Z.eqb]. rewrite bool_decide_false by done. cbn [negb].
  rewrite write_string_text by (done || by vm_compute).
  cbn [mbind outcome_bind default_format Z.eqb format_meaning]. rewrite pad_left_15, app_nil_r, <-app_assoc. done.
Qed.

(** A flag whose texts are C strings, its name in UTF-8. *)
Definition flag_ok (f : ArgFlag) : Prop :=
  (∃ cps, Forall scalar cps ∧ long_name f = utf8_text cps) ∧ (NUL ∉ long_name f) ∧ (NUL ∉ help f).

Definition line_text (f : ArgFlag) : bytes :=
  let gap := 15 - columns (code_points (long_name f)).*1 in
  [short_name f] ++ bs ", --" ++ long_name f ++ replicate (Z.to_nat gap) SP ++ bs " " ++ help f ++
  (if bool_decide (default_value f = []) then [] else bs " (default: " ++ default_value f ++ bs ")") ++ [LF].

Lemma Ret_bind {A B} (x : A) (f : A → outcome B) : Ret x ≫= f = f x.
Proof. done. Qed.

Lemma help_line_text f : flag_ok f → help_line f = Ret (line_text f).
Proof.
  intros ((cps & Hs & Hn) & Hnul & Hh). unfold help_line.
  rewrite (c_str_terminated (long_name f) []), Ret_bind, (c_str_terminated (help f) []), Ret_bind by done.
  assert ((code_points (long_name f)).*1 = cps) as Hcps.
  { rewrite Hn, code_points_text by done. rewrite <-list_fmap_compose. apply list_fmap_id. }
  pose proof (format_line (short_name f) cps (help f) Hs) as Hf. rewrite <-Hn, <-Hcps in Hf.
  rewrite Hf, Ret_bind. unfold line_text. by rewrite <-!app_assoc.
Qed.

(** * Properties *)

(** [Help] has one line for each flag, in the order of the long names: the short name, the long name
    in a column that is filled with blanks to fifteen characters, the help text and, unless it is empty,
    the default. *)
Theorem Help_layout (a : Args.Args) : Forall flag_ok (map_iter (long_flags_ a)).*2 →
  Help a = Ret (bs "Arguments:" ++ [LF] ++ concat (line_text <$> (map_iter (long_flags_ a)).*2)).
Proof.
  intros Hf. unfold Help. assert (∀ l, Forall flag_ok l → help_lines l = Ret (concat (line_text <$> l))) as ->; [|done|done].
  clear. intros l Hl. induction Hl as [|f l Hf _ IH]; [done|]. cbn [help_lines]. by rewrite help_line_text, IH.
Qed.

Lemma Help_layout_witness :
  let a := AddLong "n"%char (Some (bs "count")) 7 (Some (bs "How many")) new_args in
  Help a = Ret (bs "Arguments:" ++ [LF] ++ concat (line_text <$> (map_iter (long_flags_ a)).*2)) ∧
  concat (line_text <$> (map_iter (long_flags_ a)).*2) =
    bs "n, --count           How many (default: 7)" ++ [LF] ++ bs "h, --help            This help text" ++ [LF].
Proof.
  cbv zeta. split; [|vm_compute; reflexivity]. apply Help_layout.
  assert ((map_iter (long_flags_ (AddLong "n"%char (Some (bs "count")) 7 (Some (bs "How many")) new_args))).*2 =
    [Flag kLong "n"%char (bs "count") (bs "7") (bs "How many"); help_flag]) as -> by (vm_compute; reflexivity).
  repeat constructor; cbn [long_name help help_flag].
  - exists [99; 111; 117; 110; 116]. split; [repeat constructor; by_decide|vm_compute; reflexivity].
  - by_decide.
  - by_decide.
  - exists [104; 101; 108; 112]. split; [repeat constructor; by_decide|vm_compute; reflexivity].
  - by_decide.
  - by_decide.
Defined.
