(* ===== verification/Plugin.v ===== *)
(** * Plugins (src/cppboot/adv/plugin_manager.cc, plugin_loader.cc, plugin.h,
    src/cppboot/plugins/debugger/debugger.cc)

    The manager loads plugins by name through a loader, keeps the graph of their
    dependencies as sets of shared pointers, and runs their init and exit
    functions.  The loader is an interface; [DllLoader] implements it over the
    dynamic linker. *)

From S2P Require Import Prelude StdString StringView StrUtil Status Fs.

(** [struct cppboot_plugin]; a pointer is [None] when it is null. *)
Record cppboot_plugin : Type := PluginHeader {
  plugin_name : option bytes;
  depends : option bytes;
  init : option nat;
  exit : option nat;
}.

Definition VerifyPluginHeader (hdr : option cppboot_plugin) : Status :=
  match hdr with
  | None => InvalidArgumentError (bs "no plugin")
  | Some h =>
      if bool_decide (default [] (plugin_name h) = []) then InvalidArgumentError (bs "no name")
      else if bool_decide (init h = None) then InvalidArgumentError (bs "no init func")
      else if bool_decide (exit h = None) then InvalidArgumentError (bs "no exit func")
      else OkStatus
  end.

(** ** The loader interface

    [S] is the state of the process: what the loader keeps, and whatever the
    functions of the plugins change. *)
Class PluginLoader (S : Type) : Type := {
  loader_load : bytes → S → outcome (Status * option cppboot_plugin * S);
  loader_unload : bytes → S → outcome (Status * S);
  run_init : nat → bytes → S → Z * S;
  run_exit : nat → S → S;
}.

(** A name that leaves room for the rest of a path. *)
Definition small (n : bytes) : Prop := len n < 2 ^ 62.

(** What a loader promises: its operations return and keep its own invariant, and
    a loaded plugin carries the name it was loaded by (the macro that defines a
    plugin makes sure) and texts that fit in memory. *)
Class LoaderLaws (S : Type) `{!PluginLoader S} : Type := {
  loader_inv : S → Prop;
  load_returns : ∀ n s, loader_inv s → small n →
    ∃ st h s', loader_load n s = Ret (st, h, s') ∧ loader_inv s' ∧
      (st = OkStatus → ∀ h', h = Some h' →
         plugin_name h' = Some n ∧ fits (default [] (depends h') ++ [NUL]));
  unload_returns : ∀ n s, loader_inv s →
    ∃ st s', loader_unload n s = Ret (st, s') ∧ loader_inv s';
  init_inv : ∀ f p s, loader_inv s → loader_inv (run_init f p s).2;
  exit_inv : ∀ f s, loader_inv s → loader_inv (run_exit f s);
}.

(** ** PluginManagerImpl *)

Record Plugin : Type := MkPlugin {
  hdr : option cppboot_plugin;
  param : bytes;
  sources : gset nat;    (* what plugins depend on me *)
  targets : gset nat;    (* what plugins do I depend on *)
}.

Record PluginManager (S : Type) : Type := Manager {
  mods_ : gmap bytes nat;
  plugins : gmap nat Plugin;    (* the objects behind the shared pointers *)
  world : S;
}.
Arguments Manager {S} mods_ plugins world.
Arguments mods_ {S} p.
Arguments plugins {S} p.
Arguments world {S} p.

Section manager.
Context {S : Type} `{!PluginLoader S}.
Implicit Types m : PluginManager S.

Definition set_plugin (p : nat) (x : Plugin) (m : PluginManager S) : PluginManager S :=
  Manager (mods_ m) (<[p := x]> (plugins m)) (world m).
Definition set_mods (mods : gmap bytes nat) (m : PluginManager S) : PluginManager S :=
  Manager mods (plugins m) (world m).
Definition set_world (s : S) (m : PluginManager S) : PluginManager S :=
  Manager (mods_ m) (plugins m) s.
Definition get_plugin (p : nat) (m : PluginManager S) : outcome Plugin := or_undef (plugins m !! p).

Definition add_source (a : nat) (x : Plugin) : Plugin :=
  MkPlugin (hdr x) (param x) (sources x ∪ {[a]}) (targets x).
Definition add_target (b : nat) (x : Plugin) : Plugin :=
  MkPlugin (hdr x) (param x) (sources x) (targets x ∪ {[b]}).
Definition drop_source (a : nat) (x : Plugin) : Plugin :=
  MkPlugin (hdr x) (param x) (sources x ∖ {[a]}) (targets x).

(** Plugin [a] uses [b]. *)
Definition AddpluginUsage (a b : nat) (m : PluginManager S) : outcome (PluginManager S) :=
  y ← get_plugin b m;
  let m := set_plugin b (add_source a y) m in
  x ← get_plugin a m;
  Ret (set_plugin a (add_target b x) m).

(** The loop over the required names. *)
Fixpoint verify_names (plugin : nat) (l : list bytes) (m : PluginManager S)
    : outcome (Status * PluginManager S) :=
  match l with
  | [] => Ret (OkStatus, m)
  | i :: l =>
      name ← StrTrim (sv_of_string i) (lit (bs " "));
      if empty name then verify_names plugin l m
      else
        match mods_ m !! to_string name with
        | None => d ← c_str (sv_mem name); Ret (NotFoundError (bs "depend on " ++ d), m)
        | Some b => m ← AddpluginUsage plugin b m; verify_names plugin l m
        end
  end.

Definition VerifyDependence (plugin : nat) (m : PluginManager S)
    : outcome (Status * PluginManager S) :=
  x ← get_plugin plugin m;
  h ← or_undef (hdr x);
  match depends h with
  | None => Ret (OkStatus, m)
  | Some d => l ← StrSplit (sv_of_string d) ","%char; verify_names plugin l m
  end.

Definition InitPulgin (plugin : nat) (h : option cppboot_plugin) (prm : bytes) (m : PluginManager S)
    : outcome (Status * PluginManager S) :=
  let st := VerifyPluginHeader h in
  if status_ok st then
    '(st, m) ← VerifyDependence plugin m;
    if status_ok st then
      h ← or_undef h;
      f ← or_undef (init h);
      let '(err, s) := run_init f prm (world m) in
      let m := set_world s m in
      if negb (err =? 0) then Ret (InvalidArgumentError (bs "init retrn error"), m)
      else Ret (st, m)
    else Ret (st, m)
  else Ret (st, m).

Definition Load (name prm : option bytes) (m : PluginManager S)
    : outcome (Status * PluginManager S) :=
  match name with
  | None | Some [] => Ret (InvalidArgumentError (bs "no plugin name"), m)
  | Some name =>
      if bool_decide (is_Some (mods_ m !! name)) then Ret (AlreadyExistsError name, m)
      else
        '(st, h, s) ← loader_load name (world m);
        let m := set_world s m in
        if negb (status_ok st) then Ret (st, m)
        else
          let me := fresh (dom (plugins m)) in
          let m := set_plugin me (MkPlugin h [] ∅ ∅) m in
          let prm := default [] prm in
          '(st, m) ← InitPulgin me h prm m;
          if negb (status_ok st) then
            '(_, s) ← loader_unload name (world m); Ret (st, set_world s m)
          else
            x ← get_plugin me m;
            let m := set_plugin me (MkPlugin (hdr x) prm (sources x) (targets x)) m in
            h ← or_undef h;
            key ← or_undef (plugin_name h);
            Ret (OkStatus, set_mods (<[key := me]> (mods_ m)) m)
  end.

(** The loop over the targets. *)
Fixpoint drop_sources (me : nat) (l : list nat) (m : PluginManager S) : outcome (PluginManager S) :=
  match l with
  | [] => Ret m
  | t :: l => y ← get_plugin t m; drop_sources me l (set_plugin t (drop_source me y) m)
  end.

Definition Unload (name : option bytes) (m : PluginManager S) : outcome (Status * PluginManager S) :=
  match name with
  | None | Some [] => Ret (InvalidArgumentError (bs "empty plugin name"), m)
  | Some name =>
      match mods_ m !! name with
      | None => Ret (NotFoundError name, m)
      | Some me =>
          x ← get_plugin me m;
          if negb (bool_decide (sources x = ∅))
          then Ret (CancelledError (bs "has depend on by others"), m)
          else
            m ← drop_sources me (elements (targets x)) m;
            let m := set_mods (delete name (mods_ m)) m in
            h ← or_undef (hdr x);
            f ← or_undef (exit h);
            let m := set_world (run_exit f (world m)) m in
            key ← or_undef (plugin_name h);
            '(_, s) ← loader_unload key (world m);
            Ret (OkStatus, set_world s m)
      end
  end.
End manager.

(** ** DllLoader

    The dynamic linker: opening and closing shared objects, the plugin header at a
    symbol, and the functions it points to. *)
Class DynLinker (D : Type) : Type := {
  dlopen : bytes → D → option Z * D;
  dlsym : Z → bytes → D → option cppboot_plugin;
  dlclose : Z → D → Z * D;
  dlerror : D → bytes;
  call_init : nat → bytes → D → Z * D;
  call_exit : nat → D → D;
}.

Record DllLoader : Type := Dll { dir_ : bytes; handles_ : gmap bytes Z }.

Section dll_loader.
Context {D : Type} `{!DynLinker D}.

Definition GetPluginPath (name : bytes) (l : DllLoader) : outcome bytes :=
  PathJoin2 (sv_of_string (dir_ l)) (sv_of_string (StrCat3 (bs "libplugin_") name (bs ".so"))).

Definition plugin_entry : bytes := bs "cppboot_plugin_entry".

(** [DllLoader::Load]; [result] tells whether the result pointer is set. *)
Definition dll_load (name : option bytes) (result : bool) (s : DllLoader * D)
    : outcome (Status * option cppboot_plugin * (DllLoader * D)) :=
  let '(l, d) := s in
  match name with
  | None | Some [] => Ret (InvalidArgumentError (bs "no name"), None, (l, d))
  | Some name =>
      if negb result then Ret (InvalidArgumentError (bs "invalid result"), None, (l, d))
      else
        path ← GetPluginPath name l;
        let '(handle, d) := dlopen path d in
        match handle with
        | None =>
            Ret (CancelledError (bs "load plugin " ++ name ++ bs " failed: " ++ dlerror d), None, (l, d))
        | Some handle =>
            match dlsym handle plugin_entry d with
            | None =>
                let '(_, d) := dlclose handle d in
                Ret (CancelledError (bs "load plugin " ++ name ++
                       bs " failed: no symbol cppboot_plugin_entry"), None, (l, d))
            | Some hdr => Ret (OkStatus, Some hdr, (Dll (dir_ l) (<[name := handle]> (handles_ l)), d))
            end
        end
  end.

(** [DllLoader::Unload] *)
Definition dll_unload (name : option bytes) (s : DllLoader * D) : outcome (Status * (DllLoader * D)) :=
  let '(l, d) := s in
  match name with
  | None | Some [] => Ret (InvalidArgumentError (bs "no name"), (l, d))
  | Some name =>
      match handles_ l !! name with
      | Some handle =>
          let '(err, d) := dlclose handle d in
          if negb (err =? 0) then Ret (UnknownError (dlerror d), (l, d))
          else Ret (OkStatus, (Dll (dir_ l) (delete name (handles_ l)), d))
      | None => Ret (NotFoundError name, (l, d))
      end
  end.

(** [~DllLoader]; the log of a handle that does not close is left out. *)
Definition dll_destroy (s : DllLoader * D) : D :=
  foldl (λ d h, (dlclose h.2 d).2) s.2 (map_iter (handles_ s.1)).

#[export] Instance dll_plugin_loader : PluginLoader (DllLoader * D) := {
  loader_load n s := dll_load (Some n) true s;
  loader_unload n s := dll_unload (Some n) s;
  run_init f p s := let '(err, d) := call_init f p s.2 in (err, (s.1, d));
  run_exit f s := (s.1, call_exit f s.2);
}.
End dll_loader.

(** ** Debugger

    Commands and their handlers; [H] is a handler. *)
Section debugger.
Context {H : Type} (OnDebugRequest : H → bytes → bytes → Status).

Definition Debugger : Type := gmap bytes H.

Definition Register (command : option bytes) (handler : option H) (cmds : Debugger) : Status * Debugger :=
  match command with
  | None | Some [] => (InvalidArgumentError (bs "no command"), cmds)
  | Some command =>
      match handler with
      | None => (InvalidArgumentError (bs "no handler"), cmds)
      | Some h => (OkStatus, <[command := h]> cmds)
      end
  end.

Definition Unregister (command : option bytes) (cmds : Debugger) : Debugger :=
  match command with
  | None | Some [] => cmds
  | Some command => delete command cmds
  end.

Definition OnRequest (command args : bytes) (cmds : Debugger) : Status :=
  match cmds !! command with
  | Some h => OnDebugRequest h command args
  | None => NotFoundError command
  end.
End debugger.

(** * Properties *)

(** The names a plugin requires: the fields between commas, without the blanks
    around them, as far as anything is left. *)
Definition required (h : cppboot_plugin) : list bytes :=
  match depends h with
  | None | Some [] => []
  | Some d => filter (λ n, n ≠ []) (trimmed (bs " ") <$> split ","%char d)
  end.

Section manager_props.
Context {S : Type} `{!PluginLoader S, !LoaderLaws S}.
Implicit Types m : PluginManager S.

(** The graph invariant: every registered plugin is an object with a complete
    header under its own name; what it points to is registered and points back;
    and all its required names are registered. *)
Record manager_ok m : Prop := {
  ok_world : loader_inv (world m);
  ok_object : ∀ n p, mods_ m !! n = Some p → ∃ x h, plugins m !! p = Some x ∧ hdr x = Some h ∧
    plugin_name h = Some n ∧ is_Some (exit h);
  ok_targets : ∀ n p x t, mods_ m !! n = Some p → plugins m !! p = Some x → t ∈ targets x →
    ∃ n' y, mods_ m !! n' = Some t ∧ plugins m !! t = Some y ∧ p ∈ sources y;
  ok_required : ∀ n p x h, mods_ m !! n = Some p → plugins m !! p = Some x → hdr x = Some h →
    ∀ d, d ∈ required h → ∃ t, mods_ m !! d = Some t ∧ t ∈ targets x;
}.

(** [m'] differs from [m] in that plugin [p] uses the plugins of [D] as well. *)
Record uses (p : nat) (D : gset nat) m m' : Prop := {
  uses_mods : mods_ m' = mods_ m;
  uses_world : world m' = world m;
  uses_plugins : ∀ q, plugins m' !! q = (λ x, MkPlugin (hdr x) (param x)
    (sources x ∪ (if decide (q ∈ D) then {[p]} else ∅))
    (targets x ∪ (if decide (q = p) then D else ∅))) <$> plugins m !! q;
}.

Lemma plugin_eq h prm (s1 s2 t1 t2 : gset nat) : s1 = s2 → t1 = t2 →
  Some (MkPlugin h prm s1 t1) = Some (MkPlugin h prm s2 t2).
Proof. by intros -> ->. Qed.

Lemma uses_refl p m : uses p ∅ m m.
Proof.
  split; [done..|]. intros q. destruct (plugins m !! q) as [[]|]; [|done]. cbn [fmap option_fmap option_map hdr param sources targets].
  apply plugin_eq; repeat case_decide; set_solver.
Qed.

Lemma uses_trans p D1 D2 m1 m2 m3 : p ∉ D1 → p ∉ D2 →
  uses p D1 m1 m2 → uses p D2 m2 m3 → uses p (D1 ∪ D2) m1 m3.
Proof.
  intros Hp1 Hp2 [Hm1 Hw1 Hx1] [Hm2 Hw2 Hx2]. split; [congruence..|].
  intros q. rewrite Hx2, Hx1. destruct (plugins m1 !! q) as [[]|]; [|done]. cbn [fmap option_fmap option_map hdr param sources targets].
  apply plugin_eq; repeat case_decide; set_solver.
Qed.

Lemma AddpluginUsage_spec a b m : a ≠ b →
  is_Some (plugins m !! a) → is_Some (plugins m !! b) →
  ∃ m', AddpluginUsage a b m = Ret m' ∧ uses a {[b]} m m'.
Proof.
  intros Hab [x Hx] [y Hy]. unfold AddpluginUsage, get_plugin. rewrite Hy.
  cbn [or_undef mbind outcome_bind]. cbn [plugins set_plugin]. rewrite lookup_insert_ne, Hx by done.
  cbn [or_undef mbind outcome_bind]. eexists. split; [done|]. split; [done..|]. intros q.
  cbn [plugins set_plugin]. destruct (decide (q = a)) as [->|Hqa].
  - rewrite lookup_insert_eq, Hx. cbn [fmap option_fmap option_map hdr param sources targets]. unfold add_target. apply plugin_eq; repeat case_decide; set_solver.
  - rewrite lookup_insert_ne by done. destruct (decide (q = b)) as [->|Hqb].
    + rewrite lookup_insert_eq, Hy. cbn [fmap option_fmap option_map hdr param sources targets]. unfold add_source. apply plugin_eq; repeat case_decide; set_solver.
    + rewrite lookup_insert_ne by done. destruct (plugins m !! q) as [[]|]; [|done]. cbn [fmap option_fmap option_map hdr param sources targets].
      apply plugin_eq; repeat case_decide; set_solver.
Qed.

(** The names of a list of fields. *)
Definition names_of (l : list bytes) : list bytes := filter (λ n, n ≠ []) (trimmed (bs " ") <$> l).

Lemma trim_name i : fits (i ++ [NUL]) →
  ∃ w, StrTrim (sv_of_string i) (lit (bs " ")) = Ret w ∧ chars w = trimmed (bs " ") i ∧
       empty w = bool_decide (trimmed (bs " ") i = []).
Proof.
  intros Hf. destruct (StrTrim_trimmed (sv_of_string i) (lit (bs " "))) as (w & Hw & Hok & Hc).
  { apply sv_ok_string. len_lia. }
  { apply sv_ok_string. vm_compute. reflexivity. }
  rewrite chars_of_string in Hc. change (chars (default_cutset (lit (bs " ")))) with (bs " ") in Hc.
  exists w. split_and!; [done..|]. by rewrite empty_chars, Hc.
Qed.

(** The registered plugins are objects, and [p] is another one. *)
Definition room_for (p : nat) m : Prop :=
  is_Some (plugins m !! p) ∧ ∀ n b, mods_ m !! n = Some b → is_Some (plugins m !! b) ∧ b ≠ p.

Lemma room_for_uses p D m m' : room_for p m → uses p D m m' → room_for p m'.
Proof.
  intros [Hp Hr] [Hm _ Hx]. split; [by rewrite Hx, fmap_is_Some|].
  intros n b. rewrite Hm, Hx, fmap_is_Some. apply Hr.
Qed.

Lemma verify_names_spec p l m :
  room_for p m → Forall (λ i, fits (i ++ [NUL])) l →
  ∃ st m' D, verify_names p l m = Ret (st, m') ∧ uses p D m m' ∧
    (∀ b, b ∈ D → ∃ n, mods_ m !! n = Some b) ∧
    ((st = OkStatus ∧ ∀ n, n ∈ names_of l → ∃ b, mods_ m !! n = Some b ∧ b ∈ D) ∨
     (∃ d, st = NotFoundError d) ∧ ∃ n, n ∈ names_of l ∧ mods_ m !! n = None).
Proof.
  intros Hr Hl. revert m Hr. induction Hl as [|i l Hi Hl IH]; intros m Hr; cbn [verify_names].
  { exists OkStatus, m, ∅. split; [done|]. split; [apply uses_refl|]. split; [set_solver|].
    left. split; [done|]. set_solver. }
  destruct (trim_name i Hi) as (w & Hw & Hc & He). rewrite Hw. cbn [mbind outcome_bind]. rewrite He.
  unfold names_of. rewrite fmap_cons. case_bool_decide as Hn.
  { rewrite filter_cons_False by (intros ?; done). by apply IH. }
  rewrite filter_cons_True by done. unfold to_string. rewrite Hc.
  destruct (mods_ m !! trimmed (bs " ") i) as [b|] eqn:Hb.
  - destruct (proj2 Hr _ _ Hb) as [Hpb Hbp].
    destruct (AddpluginUsage_spec p b m) as (m1 & -> & Hu); [done | apply Hr | done|].
    cbn [mbind outcome_bind].
    destruct (IH m1 (room_for_uses _ _ _ _ Hr Hu)) as (st & m2 & D & -> & Hu2 & HD & Hst).
    rewrite (uses_mods _ _ _ _ Hu) in HD, Hst.
    exists st, m2, ({[b]} ∪ D). split; [done|].
    assert (p ∉ D) as HpD by (intros [n Hin]%HD; by apply (proj2 Hr) in Hin as [_ ?]).
    split; [eapply uses_trans; [set_solver | done | done | done]|].
    split; [set_solver|]. destruct Hst as [[-> Hall]|[Hd (n & Hin & Hno)]]; [left|right].
    + split; [done|]. intros n [->|Hin]%elem_of_cons; [set_solver|].
      destruct (Hall n Hin) as (b' & ? & ?). exists b'. set_solver.
    + split; [done|]. exists n. split; [by right|done].
  - assert (∃ d, c_str (sv_mem w) = Ret d) as [d ->].
    { apply (c_str_suffix i); [|by apply StrTrim_suffix in Hw]. intros Hm. apply Hn. rewrite <-Hc.
      unfold chars. by rewrite Hm, take_nil. }
    cbn [mbind outcome_bind]. eexists _, m, ∅. split; [done|]. split; [apply uses_refl|].
    split; [set_solver|]. right. split; [by eexists|]. eexists. split; [left|done].
Qed.
Lemma uses_set_world p D s m m' : uses p D m m' → uses p D (set_world s m) (set_world s m').
Proof. intros [Hm Hw Hx]. by split. Qed.

Lemma names_of_required h d : depends h = Some d →
  names_of (if bool_decide (d = []) then [] else split ","%char d) = required h.
Proof. intros Hd. unfold required. rewrite Hd. by destruct d. Qed.

Lemma VerifyDependence_spec p h m x : room_for p m → plugins m !! p = Some x → hdr x = Some h →
  fits (default [] (depends h) ++ [NUL]) →
  ∃ st m' D, VerifyDependence p m = Ret (st, m') ∧ uses p D m m' ∧
    (∀ b, b ∈ D → ∃ n, mods_ m !! n = Some b) ∧
    ((st = OkStatus ∧ ∀ n, n ∈ required h → ∃ b, mods_ m !! n = Some b ∧ b ∈ D) ∨
     (∃ d, st = NotFoundError d) ∧ ∃ n, n ∈ required h ∧ mods_ m !! n = None).
Proof.
  intros Hr Hx Hh Hf. unfold VerifyDependence, get_plugin. rewrite Hx. cbn [or_undef mbind outcome_bind].
  rewrite Hh. cbn [or_undef mbind outcome_bind]. destruct (depends h) as [d|] eqn:Hd.
  - change (fits (d ++ [NUL])) in Hf. rewrite StrSplit_split by (apply sv_ok_string; len_lia).
    rewrite chars_of_string. cbn [mbind outcome_bind]. rewrite <-(names_of_required h d Hd).
    apply verify_names_spec; [done|]. case_bool_decide; [constructor|].
    apply Forall_forall. intros i Hi. apply split_piece_length in Hi. len_lia.
  - exists OkStatus, m, ∅. split; [done|]. split; [apply uses_refl|]. split; [set_solver|].
    left. split; [done|]. unfold required. rewrite Hd. set_solver.
Qed.

Lemma InitPulgin_spec p h prm m x : room_for p m → plugins m !! p = Some x → hdr x = h →
  (∀ h', h = Some h' → fits (default [] (depends h') ++ [NUL])) → loader_inv (world m) →
  ∃ st m' D s, InitPulgin p h prm m = Ret (st, set_world s m') ∧ uses p D m m' ∧ loader_inv s ∧
    (∀ b, b ∈ D → ∃ n, mods_ m !! n = Some b) ∧
    (status_ok st = true → ∃ h', h = Some h' ∧ is_Some (exit h') ∧
       ∀ n, n ∈ required h' → ∃ b, mods_ m !! n = Some b ∧ b ∈ D).
Proof.
  intros Hr Hx Hh Hf Hw. unfold InitPulgin.
  assert (∀ m, set_world (world m) m = m) as Hsw by by intros [].
  destruct (status_ok (VerifyPluginHeader h)) eqn:Hv.
  2:{ exists (VerifyPluginHeader h), m, ∅, (world m). rewrite Hsw. split; [done|].
      split; [apply uses_refl|]. split; [done|]. split; [set_solver|]. congruence. }
  destruct h as [h|]; [|done]. destruct (VerifyDependence_spec p h m x) as (st & m1 & D & -> & Hu & HD & Hst);
    [done | done | done | by apply Hf|]. cbn [mbind outcome_bind].
  rewrite <-(uses_world _ _ _ _ Hu) in Hw.
  assert (is_Some (init h) ∧ is_Some (exit h)) as [[f Hi] He].
  { cbn [VerifyPluginHeader] in Hv. destruct (bool_decide _); [done|].
    destruct (init h); [|done]. destruct (exit h); done. }
  destruct (status_ok st) eqn:Hok.
  - cbn [or_undef mbind outcome_bind]. rewrite Hi. cbn [or_undef mbind outcome_bind].
    pose proof (init_inv f prm _ Hw) as Hs.
    destruct (run_init f prm (world m1)) as [err s]. cbn [snd] in Hs.
    destruct (err =? 0); cbn [negb].
    + exists st, m1, D, s. do 4 (split; [done|]). intros _. exists h.
      split; [done|]. split; [done|]. destruct Hst as [[_ Hall]|[[d ->] _]]; done.
    + eexists _, m1, D, s. by do 4 (split; [done|]).
  - exists st, m1, D, (world m1). rewrite Hsw. do 4 (split; [done|]). congruence.
Qed.

(** A step that only adds to an object [me] that is not registered, and to the
    sources of others. *)
Record grows (me : nat) m m' : Prop := {
  grows_world : loader_inv (world m');
  grows_mods : mods_ m' = mods_ m;
  grows_plugins : ∀ q x, q ≠ me → plugins m !! q = Some x → ∃ x', plugins m' !! q = Some x' ∧
    hdr x' = hdr x ∧ targets x' = targets x ∧ sources x ⊆ sources x';
}.

Lemma grows_ok me m m' : manager_ok m → (∀ n, mods_ m !! n ≠ Some me) → grows me m m' →
  manager_ok m'.
Proof.
  intros [_ Ho Ht Hq] Hme [Hw Hm Hg].
  assert (∀ n p x', mods_ m !! n = Some p → plugins m' !! p = Some x' →
    ∃ x, plugins m !! p = Some x ∧ hdr x' = hdr x ∧ targets x' = targets x ∧ sources x ⊆ sources x') as Hback.
  { intros n p x' Hn Hp. destruct (Ho n p Hn) as (x & h & Hx & _). exists x. split; [done|].
    destruct (Hg p x) as (x2 & Hx2 & ?); [by intros ->; by apply Hme in Hn | done|].
    by simplify_eq. }
  split; rewrite ?Hm; [done|..].
  - intros n p Hn. destruct (Ho n p Hn) as (x & h & Hx & Hh & ?).
    destruct (Hg p x) as (x' & Hx' & He & _); [by intros ->; by apply Hme in Hn | done|].
    exists x', h. by rewrite He.
  - intros n p x' t Hn Hx'. destruct (Hback n p x' Hn Hx') as (x & Hx & _ & -> & _). intros Hin.
    destruct (Ht n p x t Hn Hx Hin) as (n' & y & Hn' & Hy & Hs).
    destruct (Hg t y) as (y' & Hy' & _ & _ & Hsub); [by intros ->; by apply Hme in Hn' | done|].
    exists n', y'. set_solver.
  - intros n p x' h Hn Hx'. destruct (Hback n p x' Hn Hx') as (x & Hx & -> & -> & _).
    by apply Hq with (n := n) (p := p).
Qed.

Lemma register_ok n me x h m : manager_ok m → (∀ n, mods_ m !! n ≠ Some me) → mods_ m !! n = None →
  plugins m !! me = Some x → hdr x = Some h → plugin_name h = Some n → is_Some (exit h) →
  (∀ t, t ∈ targets x → ∃ n' y, mods_ m !! n' = Some t ∧ plugins m !! t = Some y ∧ me ∈ sources y) →
  (∀ d, d ∈ required h → ∃ t, mods_ m !! d = Some t ∧ t ∈ targets x) →
  manager_ok (set_mods (<[n := me]> (mods_ m)) m).
Proof.
  intros [Hw Ho Ht Hq] Hme Hn Hx Hh Hname He Htx Hrx.
  assert (∀ n' t, mods_ m !! n' = Some t → <[n := me]> (mods_ m) !! n' = Some t) as Hkeep.
  { intros n' t Hn'. rewrite lookup_insert_ne; [done|]. by intros ->; rewrite Hn in Hn'. }
  split; cbn; [done|..].
  - intros n' p [[<- <-]|[_ Hn']]%lookup_insert_Some; [by exists x, h | by apply Ho].
  - intros n' p x' t [[<- <-]|[_ Hn']]%lookup_insert_Some Hx' Hin; simplify_eq.
    + destruct (Htx t Hin) as (n2 & y & ? & ?). exists n2, y. naive_solver.
    + destruct (Ht n' p x' t Hn' Hx' Hin) as (n2 & y & ? & ?). exists n2, y. naive_solver.
  - intros n' p x' h' [[<- <-]|[_ Hn']]%lookup_insert_Some Hx' Hh' d Hd; simplify_eq.
    + destruct (Hrx d Hd) as (t & ? & ?). eauto.
    + destruct (Hq n' p x' h' Hn' Hx' Hh' d Hd) as (t & ? & ?). eauto.
Qed.
(** An object that is not registered, and is a source of the plugin [d]. *)
Record pinned (z : nat) (d : bytes) m : Prop := {
  pin_object : is_Some (plugins m !! z);
  pin_free : ∀ n, mods_ m !! n ≠ Some z;
  pin_source : ∃ b y, mods_ m !! d = Some b ∧ plugins m !! b = Some y ∧ z ∈ sources y;
}.

(** What every call does to the two. *)
Definition keeps_ok m m' : Prop :=
  manager_ok m' ∧ ∀ z d, pinned z d m → pinned z d m'.

Lemma set_world_ok s m : loader_inv s → manager_ok m → manager_ok (set_world s m).
Proof. intros Hs [_ H1 H2 H3]. by split. Qed.

Lemma set_world_pinned s z d m : pinned z d m → pinned z d (set_world s m).
Proof. intros [H1 H2 H3]. by split. Qed.

Lemma keeps_refl m : manager_ok m → keeps_ok m m.
Proof. by split. Qed.

Lemma keeps_set_world s m m' : loader_inv s → keeps_ok m m' → keeps_ok m (set_world s m').
Proof. intros Hs [H1 H2]. split; [by apply set_world_ok|]. intros. by apply set_world_pinned, H2. Qed.

Lemma grows_keeps me m m' : manager_ok m → plugins m !! me = None → grows me m m' → keeps_ok m m'.
Proof.
  intros Hok Hme Hg.
  assert (∀ n, mods_ m !! n ≠ Some me) as Hfree.
  { intros n Hn. destruct (ok_object _ Hok _ _ Hn) as (x & h & Hx & _). congruence. }
  split; [by eapply grows_ok|]. intros z d [[x Hx] Hz (b & y & Hb & Hy & Hs)]. split.
  - destruct (grows_plugins _ _ _ Hg z x) as (x' & -> & _); [congruence|done|by eexists].
  - by rewrite (grows_mods _ _ _ Hg).
  - rewrite (grows_mods _ _ _ Hg). destruct (grows_plugins _ _ _ Hg b y) as (y' & Hy' & _ & _ & ?);
      [congruence | done|]. exists b, y'. set_solver.
Qed.

Lemma grows_set me x s m m' : loader_inv s → grows me m m' →
  grows me m (set_plugin me x (set_world s m')).
Proof.
  intros Hs [_ Hm Hg]. split; [done..|]. intros q y Hq Hy. cbn. rewrite lookup_insert_ne by done. by apply Hg.
Qed.

(** The object that [Load] makes, and what the initialisation adds to it. *)
Definition fresh_plugin (h : option cppboot_plugin) (s : S) m : PluginManager S :=
  set_plugin (fresh (dom (plugins m))) (MkPlugin h [] ∅ ∅) (set_world s m).

Lemma fresh_none m : plugins m !! fresh (dom (plugins m)) = None.
Proof. apply not_elem_of_dom, is_fresh. Qed.

Lemma fresh_room h s m : manager_ok m → room_for (fresh (dom (plugins m))) (fresh_plugin h s m).
Proof.
  intros Hok. unfold fresh_plugin. split; cbn; [by rewrite lookup_insert_eq|]. intros n b Hb.
  destruct (ok_object _ Hok _ _ Hb) as (x & _ & Hx & _).
  assert (b ≠ fresh (dom (plugins m))) by (intros ->; by rewrite fresh_none in Hx).
  by rewrite lookup_insert_ne, Hx by done.
Qed.

Lemma uses_grows h s D m m' : loader_inv s → uses (fresh (dom (plugins m))) D (fresh_plugin h s m) m' →
  grows (fresh (dom (plugins m))) m m'.
Proof.
  intros Hs [Hm Hw Hx]. split; [by rewrite Hw | done|]. intros q x Hq Hqx. rewrite Hx. cbn [fresh_plugin plugins set_plugin].
  rewrite lookup_insert_ne by done. cbn [plugins set_world]. rewrite Hqx.
  eexists. split; [done|]. cbn [hdr sources targets]. rewrite decide_False by done. set_solver.
Qed.

Lemma fresh_free m : manager_ok m → ∀ n b, mods_ m !! n = Some b → b ≠ fresh (dom (plugins m)).
Proof.
  intros Hok n b Hb ->. destruct (ok_object _ Hok _ _ Hb) as (x & _ & Hx & _).
  by rewrite fresh_none in Hx.
Qed.

(** What the initialisation has made of the objects. *)
Lemma fresh_uses h s D m m2 : uses (fresh (dom (plugins m))) D (fresh_plugin h s m) m2 →
  (∃ ss, plugins m2 !! fresh (dom (plugins m)) = Some (MkPlugin h [] ss D)) ∧
  ∀ t y, t ≠ fresh (dom (plugins m)) → plugins m !! t = Some y → t ∈ D →
    ∃ y', plugins m2 !! t = Some y' ∧ fresh (dom (plugins m)) ∈ sources y'.
Proof.
  set (me := fresh (dom (plugins m))). intros Hu. split.
  - pose proof (uses_plugins _ _ _ _ Hu me) as Hx. unfold fresh_plugin in Hx.
    cbn [plugins set_plugin] in Hx. fold me in Hx. rewrite lookup_insert_eq in Hx.
    cbn [fmap option_fmap option_map hdr param sources targets] in Hx.
    rewrite (decide_True (P := me = me)), (left_id_L ∅ (∪) D) in Hx by done. by eexists.
  - intros t y Ht Hy HtD. pose proof (uses_plugins _ _ _ _ Hu t) as Hx. unfold fresh_plugin in Hx.
    cbn [plugins set_plugin set_world] in Hx. fold me in Hx.
    rewrite lookup_insert_ne, Hy in Hx by done. cbn [fmap option_fmap option_map] in Hx.
    rewrite (decide_True _ _ HtD) in Hx. eexists. split; [done|]. cbn [sources]. set_solver.
Qed.

Lemma register_keeps name h prm s s2 D ss m m2 :
  let me := fresh (dom (plugins m)) in
  manager_ok m → loader_inv s → loader_inv s2 →
  mods_ m !! name = None → plugin_name h = Some name → is_Some (exit h) →
  uses me D (fresh_plugin (Some h) s m) m2 →
  (∀ b, b ∈ D → ∃ n, mods_ m !! n = Some b) →
  (∀ n, n ∈ required h → ∃ b, mods_ m !! n = Some b ∧ b ∈ D) →
  keeps_ok m (set_mods (<[name := me]> (mods_ m))
    (set_plugin me (MkPlugin (Some h) prm ss D) (set_world s2 m2))).
Proof.
  intros me Hok Hs Hs2 Hn Hname He Hu HD Hreq.
  pose proof (uses_grows _ _ _ _ _ Hs Hu) as Hg. fold me in Hg.
  pose proof (fresh_free m Hok) as Hfree. fold me in Hfree.
  set (m3 := set_plugin me (MkPlugin (Some h) prm ss D) (set_world s2 m2)).
  assert (keeps_ok m m3) as [Hok3 Hpin3].
  { apply (grows_keeps me); [done | apply fresh_none|]. by apply grows_set. }
  assert (mods_ m3 = mods_ m) as Hm3 by apply (grows_mods _ _ _ Hg).
  split.
  - rewrite <-Hm3. apply (register_ok name me (MkPlugin (Some h) prm ss D) h); rewrite ?Hm3; try done.
    + intros n' Hn'. by apply Hfree in Hn'.
    + apply lookup_insert_eq.
    + cbn [targets]. intros t Ht. destruct (HD t Ht) as [n' Hn'].
      assert (t ≠ me) as Htm by by eapply Hfree.
      destruct (ok_object _ Hok _ _ Hn') as (x & _ & Hx & _).
      destruct (proj2 (fresh_uses _ _ _ _ _ Hu) t x Htm Hx Ht) as (y & Hy & Hsy).
      exists n', y. split; [done|]. split; [|done]. cbn. by rewrite lookup_insert_ne.
  - intros z d Hp. destruct (Hpin3 z d Hp) as [Hz Hzf (b & y & Hb & Hy & Hsy)].
    rewrite Hm3 in Hzf, Hb. split; [done| |].
    + intros n'. cbn [mods_ set_mods]. rewrite lookup_insert_Some. intros [[_ <-]|[_ Hn']];
        [|by apply Hzf in Hn'].
      destruct (pin_object _ _ _ Hp) as [x Hx].
      by rewrite (fresh_none m : plugins m !! me = None) in Hx.
    + exists b, y. split; [|done]. cbn [mods_ set_mods]. rewrite lookup_insert_ne; [done|].
      intros <-. by rewrite Hn in Hb.
Qed.

Lemma Load_keeps name prm m : manager_ok m → small (default [] name) →
  ∃ st m', Load name prm m = Ret (st, m') ∧ keeps_ok m m'.
Proof.
  intros Hok Hsmall. unfold Load.
  destruct name as [[|c n]|]; [by eexists _, m; split; [|apply keeps_refl]| |
    by eexists _, m; split; [|apply keeps_refl]].
  set (name := c :: n). case_bool_decide as Hn; [by eexists _, m; split; [|apply keeps_refl]|].
  apply eq_None_not_Some in Hn.
  destruct (load_returns name (world m)) as (st & h & s & -> & Hs & Hnames);
    [by apply ok_world | done|]. cbn [mbind outcome_bind].
  destruct (status_ok st) eqn:Hst; cbn [negb].
  2:{ eexists _, _. split; [done|]. by apply keeps_set_world, keeps_refl. }
  assert (st = OkStatus) as -> by by destruct st. specialize (Hnames eq_refl).
  cbn zeta. change (set_plugin _ _ (set_world s m)) with (fresh_plugin h s m).
  set (me := fresh (dom (plugins m))). change (dom (plugins (set_world s m))) with (dom (plugins m)).
  fold me. set (m1 := fresh_plugin h s m).
  destruct (InitPulgin_spec me h (default [] prm) m1 (MkPlugin h [] ∅ ∅)) as
    (st & m2 & D & s2 & -> & Hu & Hs2 & HD & Hdone);
    [by apply fresh_room | apply lookup_insert_eq | done | naive_solver | done |].
  cbn [mbind outcome_bind]. pose proof (uses_grows h s D m m2 Hs Hu) as Hg.
  pose proof (grows_keeps me m m2 Hok (fresh_none m) Hg) as Hk.
  destruct (status_ok st); cbn [negb].
  2:{ destruct (unload_returns name s2 Hs2) as (st3 & s3 & Hl & Hs3). cbn [world set_world].
      rewrite Hl. eexists _, _. split; [done|]. by do 2 (apply keeps_set_world; [done|]). }
  destruct (Hdone eq_refl) as (h' & -> & He & Hreq). clear Hdone.
  destruct (Hnames h' eq_refl) as [Hname _].
  destruct (fresh_uses _ _ _ _ _ Hu) as [[ss Hss] _]. fold me in Hss.
  unfold get_plugin. cbn [plugins set_world]. rewrite Hss. cbn [or_undef mbind outcome_bind].
  rewrite Hname. cbn [or_undef mbind outcome_bind].
  eexists _, _. split; [done|]. cbn [hdr sources targets].
  match goal with |- context [<[name := me]> ?mods] => change mods with (mods_ m2) end.
  rewrite (grows_mods _ _ _ Hg). by apply (register_keeps name h' _ s s2).
Qed.

Lemma drop_sources_spec me l m : (∀ t, t ∈ l → is_Some (plugins m !! t)) →
  ∃ m', drop_sources me l m = Ret m' ∧ mods_ m' = mods_ m ∧ world m' = world m ∧
    ∀ q, plugins m' !! q =
      (λ x, if decide (q ∈ l) then drop_source me x else x) <$> plugins m !! q.
Proof.
  revert m. induction l as [|t l IH]; intros m Hl; cbn [drop_sources].
  { exists m. split_and!; [done..|]. intros q. destruct (plugins m !! q); [|done].
    cbn [fmap option_fmap option_map]. case_decide; [set_solver | done]. }
  destruct (Hl t) as [y Hy]; [left|]. unfold get_plugin. rewrite Hy. cbn [or_undef mbind outcome_bind].
  destruct (IH (set_plugin t (drop_source me y) m)) as (m' & -> & Hm & Hw & Hq).
  { intros t' Ht'. cbn. destruct (decide (t' = t)) as [->|]; [by rewrite lookup_insert_eq|].
    rewrite lookup_insert_ne by done. apply Hl. by right. }
  exists m'. split_and!; [done..|]. intros q. rewrite Hq. cbn [plugins set_plugin].
  destruct (decide (q = t)) as [->|Hqt].
  - rewrite lookup_insert_eq, Hy. cbn [fmap option_fmap option_map].
    rewrite (decide_True (P := t ∈ t :: l)) by left. case_decide; [|done].
    unfold drop_source. cbn. do 2 f_equal. set_solver.
  - rewrite lookup_insert_ne by done. destruct (plugins m !! q); [|done].
    cbn [fmap option_fmap option_map]. repeat case_decide; (done || set_solver).
Qed.

(** Taking a plugin without sources out of the graph. *)
Lemma unregister_ok n p x m m1 : manager_ok m → mods_ m !! n = Some p → plugins m !! p = Some x →
  sources x = ∅ → mods_ m1 = mods_ m → world m1 = world m →
  (∀ q, plugins m1 !! q =
    (λ y, if decide (q ∈ elements (targets x)) then drop_source p y else y) <$> plugins m !! q) →
  manager_ok (set_mods (delete n (mods_ m1)) m1).
Proof.
  intros Hok Hn Hx Hs Hm1 Hw Hq. pose proof Hok as [Hok_w Ho Ht Hr].
  assert (∀ n', mods_ m !! n' = Some p → n' = n) as Hinj.
  { intros n' Hn'. destruct (Ho n p Hn) as (x1 & h1 & ? & ? & ? & _).
    destruct (Ho n' p Hn') as (x2 & h2 & ? & ? & ? & _). by simplify_eq. }
  assert (∀ q y', plugins m1 !! q = Some y' → ∃ y, plugins m !! q = Some y ∧ hdr y' = hdr y ∧
    targets y' = targets y ∧ ∀ z, z ∈ sources y → z ≠ p → z ∈ sources y') as Hback.
  { intros q y' Hy'. rewrite Hq in Hy'. destruct (plugins m !! q) as [y|]; [|done].
    cbn [fmap option_fmap option_map] in Hy'. injection Hy' as <-. exists y. split; [done|].
    case_decide; [|done]. cbn. set_solver. }
  (* nothing that stays points to the plugin that goes *)
  assert (∀ n' q y t, n' ≠ n → mods_ m !! n' = Some q → plugins m !! q = Some y → t ∈ targets y →
    t ≠ p) as Hne.
  { intros n' q y t Hnn Hn' Hy Hty ->. destruct (Ht n' q y p Hn' Hy Hty) as (n2 & x2 & _ & Hx2 & Hs2).
    simplify_eq. rewrite Hs in Hs2. set_solver. }
  split; cbn; rewrite ?Hm1; [by rewrite Hw|..].
  - intros n' q [Hnn Hn']%lookup_delete_Some. destruct (Ho n' q Hn') as (y & h & Hy & Hh & Hrest).
    rewrite Hq, Hy. eexists _, h. split; [done|]. split; [|done]. by case_decide.
  - intros n' q y' t [Hnn Hn']%lookup_delete_Some Hy' Hty.
    destruct (Hback q y' Hy') as (y & Hy & _ & Hty' & _). rewrite Hty' in Hty.
    pose proof (Hne n' q y t (not_eq_sym Hnn) Hn' Hy Hty) as Htp.
    destruct (Ht n' q y t Hn' Hy Hty) as (n2 & z & Hn2 & Hz & Hqz).
    exists n2. eexists. rewrite lookup_delete_ne by (intros ->; congruence). split; [done|].
    rewrite Hq, Hz. split; [done|]. case_decide; [|done]. cbn.
    assert (q ≠ p) by (intros ->; by apply Hinj in Hn'). set_solver.
  - intros n' q y' h [Hnn Hn']%lookup_delete_Some Hy' Hh' d Hd.
    destruct (Hback q y' Hy') as (y & Hy & Hhy & Hty' & _). rewrite Hhy in Hh'. rewrite Hty'.
    destruct (Hr n' q y h Hn' Hy Hh' d Hd) as (t & Hdt & Ht').
    exists t. split; [|done]. rewrite lookup_delete_ne; [done|].
    intros ->. rewrite Hn in Hdt. injection Hdt as ->.
    by eapply (Hne n' q y t).
Qed.

Lemma unregister_pinned n p x m m1 z d : mods_ m !! n = Some p → plugins m !! p = Some x →
  sources x = ∅ → mods_ m1 = mods_ m →
  (∀ q, plugins m1 !! q =
    (λ y, if decide (q ∈ elements (targets x)) then drop_source p y else y) <$> plugins m !! q) →
  pinned z d m → pinned z d (set_mods (delete n (mods_ m1)) m1).
Proof.
  intros Hn Hx Hs Hm1 Hq [Hz Hzf (b & y & Hb & Hy & Hsy)]. split; cbn; rewrite ?Hm1.
  - by rewrite Hq, fmap_is_Some.
  - intros n'. rewrite lookup_delete_Some. intros [_ Hn']. by apply Hzf in Hn'.
  - exists b. eexists. split; [rewrite lookup_delete_ne; [done|]|].
    { intros ->. simplify_eq. set_solver. }
    rewrite Hq, Hy. split; [done|]. case_decide; [|done]. cbn.
    assert (z ≠ p) by (intros ->; by apply Hzf in Hn). set_solver.
Qed.

(** What [Unload] answers. *)
Lemma Unload_spec name m : manager_ok m →
  ∃ st m', Unload name m = Ret (st, m') ∧ keeps_ok m m' ∧
    ∀ n p x, name = Some n → n ≠ [] → mods_ m !! n = Some p → plugins m !! p = Some x →
      sources x ≠ ∅ → st = CancelledError (bs "has depend on by others") ∧ m' = m.
Proof.
  intros Hok. unfold Unload.
  destruct name as [[|c n]|]; [by eexists _, m; split; [|split; [apply keeps_refl|naive_solver]]| |
    by eexists _, m; split; [|split; [apply keeps_refl|naive_solver]]].
  set (name := c :: n). destruct (mods_ m !! name) as [p|] eqn:Hn.
  2:{ eexists _, m. split; [done|]. split; [by apply keeps_refl|]. intros n' p x [= <-] _ Hn'.
      by rewrite Hn in Hn'. }
  destruct (ok_object _ Hok _ _ Hn) as (x & h & Hx & Hh & Hname & [f He]).
  unfold get_plugin. rewrite Hx. cbn [or_undef mbind outcome_bind].
  destruct (decide (sources x = ∅)) as [Hs|Hs].
  - rewrite bool_decide_true by done. cbn [negb].
    destruct (drop_sources_spec p (elements (targets x)) m) as (m1 & -> & Hm1 & Hw1 & Hq).
    { intros t Ht%elem_of_elements. destruct (ok_targets _ Hok _ _ _ _ Hn Hx Ht) as (? & y & _ & ? & _).
      by eexists. }
    cbn [mbind outcome_bind]. rewrite Hh. cbn [or_undef mbind outcome_bind]. rewrite He.
    cbn [or_undef mbind outcome_bind]. rewrite Hname. cbn [or_undef mbind outcome_bind].
    cbn [world set_world set_mods].
    assert (loader_inv (run_exit f (world m1))) as Hs1 by (apply exit_inv; rewrite Hw1; apply Hok).
    destruct (unload_returns name _ Hs1) as (st & s & -> & Hs2).
    eexists _, _. split; [done|]. split.
    + do 2 (apply keeps_set_world; [done|]). split; [by eapply unregister_ok|].
      intros z d. by eapply unregister_pinned.
    + intros n' p' x' [= <-] _ Hn' Hx' Hs'. by simplify_eq.
  - rewrite bool_decide_false by done. cbn [negb]. eexists _, m. split; [done|].
    split; [by apply keeps_refl|]. done.
Qed.
(** A program's calls, in order. *)
Inductive plugin_call : Type :=
  | LoadCall (name prm : option bytes)
  | UnloadCall (name : option bytes).

Definition call_ok (c : plugin_call) : Prop :=
  match c with LoadCall n _ => small (default [] n) | UnloadCall _ => True end.

Definition exec (c : plugin_call) m : outcome (Status * PluginManager S) :=
  match c with LoadCall n p => Load n p m | UnloadCall n => Unload n m end.

Fixpoint run_calls (cs : list plugin_call) m : outcome (PluginManager S) :=
  match cs with
  | [] => Ret m
  | c :: cs => '(_, m) ← exec c m; run_calls cs m
  end.

Lemma run_calls_keeps cs m : Forall call_ok cs → manager_ok m →
  ∃ m', run_calls cs m = Ret m' ∧ keeps_ok m m'.
Proof.
  intros Hcs. revert m. induction Hcs as [|c cs Hc Hcs IH]; intros m Hok; cbn [run_calls].
  { exists m. split; [done|]. by apply keeps_refl. }
  assert (∃ st m1, exec c m = Ret (st, m1) ∧ keeps_ok m m1) as (st & m1 & -> & Hok1 & Hp1).
  { destruct c as [n p|n]; cbn [exec]; [by apply Load_keeps|].
    destruct (Unload_spec n m Hok) as (st & m1 & H & Hk & _). by exists st, m1. }
  cbn [mbind outcome_bind]. destruct (IH m1 Hok1) as (m2 & -> & Hok2 & Hp2).
  exists m2. split; [done|]. split; [done|]. auto.
Qed.

Lemma new_manager_ok s : loader_inv s → manager_ok (Manager ∅ ∅ s).
Proof. intros Hs. by split; cbn; [done|..]; intros ? ?; rewrite lookup_empty. Qed.

Lemma required_nonempty h d : d ∈ required h → d ≠ [].
Proof.
  unfold required. destruct (depends h) as [[|c l]|]; [set_solver| |set_solver].
  by intros [? _]%list_elem_of_filter.
Qed.

(** A source, registered or not, keeps a plugin from being unloaded. *)
Lemma source_stays d b y m : manager_ok m → d ≠ [] → mods_ m !! d = Some b →
  plugins m !! b = Some y → sources y ≠ ∅ →
  Unload (Some d) m = Ret (CancelledError (bs "has depend on by others"), m).
Proof.
  intros Hok Hd Hb Hy Hs. destruct (Unload_spec (Some d) m Hok) as (st & m' & -> & _ & Hspec).
  by destruct (Hspec d b y eq_refl Hd Hb Hy Hs) as [-> ->].
Qed.

Lemma pinned_stays z d m : manager_ok m → pinned z d m ∧ d ≠ [] →
  Unload (Some d) m = Ret (CancelledError (bs "has depend on by others"), m).
Proof.
  intros Hok [[_ _ (b & y & Hb & Hy & Hin)] Hd]. apply (source_stays d b y); try done. set_solver.
Qed.

(** The dependencies of a plugin that is not yet initialised are pinned by it. *)
Lemma verify_fresh h s1 m : manager_ok m → loader_inv s1 →
  fits (default [] (depends h) ++ [NUL]) → (∀ n, n ∈ required h → is_Some (mods_ m !! n)) →
  ∃ m2, VerifyDependence (fresh (dom (plugins m))) (fresh_plugin (Some h) s1 m) = Ret (OkStatus, m2) ∧
    world m2 = s1 ∧ manager_ok m2 ∧
    ∀ d, d ∈ required h → pinned (fresh (dom (plugins m))) d m2.
Proof.
  intros Hok Hs1 Hfit Hall.
  assert (plugins (fresh_plugin (Some h) s1 m) !! fresh (dom (plugins m))
    = Some (MkPlugin (Some h) [] ∅ ∅)) as Hme by apply lookup_insert_eq.
  destruct (VerifyDependence_spec _ h _ _ (fresh_room (Some h) s1 m Hok) Hme eq_refl Hfit)
    as (st & m2 & D & Hvd & Hu & HD & [[-> Hreq]|[_ (n & Hin & Hno)]]);
    [|by destruct (Hall n Hin) as [? Hn2]; cbn in Hno; rewrite Hn2 in Hno].
  exists m2. split; [done|]. split; [by rewrite (uses_world _ _ _ _ Hu)|].
  pose proof (grows_keeps _ m m2 Hok (fresh_none m) (uses_grows _ _ _ _ _ Hs1 Hu)) as [Hok2 _].
  split; [done|]. intros d Hd. destruct (Hreq d Hd) as (b & Hb & HbD). cbn in Hb.
  destruct (ok_object _ Hok _ _ Hb) as (y & _ & Hy & _).
  destruct (fresh_uses _ _ _ _ _ Hu) as [[ss Hss] Hsrc].
  destruct (Hsrc b y (fresh_free m Hok d b Hb) Hy HbD) as (y' & Hy' & Hin).
  split; [by eexists| |]; rewrite (uses_mods _ _ _ _ Hu).
  - intros n' Hn'. by apply (fresh_free m Hok) in Hn'.
  - by exists b, y'.
Qed.

(** C33: the plugins a plugin depends on stay loaded.  Whatever is loaded and
    unloaded, in whatever order and with whatever failures, every call returns,
    and in the end every registered plugin has a complete header under its own
    name, every name it requires is registered, and what it requires is unloaded
    only after it: the manager refuses to unload a plugin that a registered plugin
    uses. *)
Theorem dependencies_stay_loaded (s : S) (cs : list plugin_call) :
  loader_inv s → Forall call_ok cs →
  ∃ m, run_calls cs (Manager ∅ ∅ s) = Ret m ∧ manager_ok m ∧
    ∀ n p x h d, mods_ m !! n = Some p → plugins m !! p = Some x → hdr x = Some h →
      d ∈ required h → is_Some (mods_ m !! d) ∧
      Unload (Some d) m = Ret (CancelledError (bs "has depend on by others"), m).
Proof.
  intros Hs Hcs. destruct (run_calls_keeps cs _ Hcs (new_manager_ok s Hs)) as (m & -> & Hok & _).
  exists m. split; [done|]. split; [done|]. intros n p x h d Hn Hx Hh Hd.
  destruct (ok_required _ Hok n p x h Hn Hx Hh d Hd) as (t & Ht & Hin). split; [by eexists|].
  destruct (ok_targets _ Hok n p x t Hn Hx Hin) as (n' & y & Hn' & Hy & Hs').
  apply (source_stays d t y); [done | by eapply required_nonempty | done | done | set_solver].
Qed.

(** A plugin that fails to initialise pins what it depends on.  If [init]
    reports an error, [Load] unloads the plugin and returns the error, but the
    object it had made stays among the sources of its dependencies: from then on,
    whatever is called, each of them can never be unloaded again. *)
Theorem failed_load_pins (name : bytes) (prm : option bytes) (h : cppboot_plugin) (f : nat)
    (s1 : S) (m : PluginManager S) (cs : list plugin_call) (d : bytes) :
  manager_ok m → small name → name ≠ [] → mods_ m !! name = None →
  loader_load name (world m) = Ret (OkStatus, Some h, s1) →
  VerifyPluginHeader (Some h) = OkStatus → init h = Some f →
  (run_init f (default [] prm) s1).1 ≠ 0 →
  (∀ n, n ∈ required h → is_Some (mods_ m !! n)) → d ∈ required h → Forall call_ok cs →
  ∃ m' m'', Load (Some name) prm m = Ret (InvalidArgumentError (bs "init retrn error"), m') ∧
    run_calls cs m' = Ret m'' ∧
    Unload (Some d) m'' = Ret (CancelledError (bs "has depend on by others"), m'').
Proof.
  intros Hok Hsmall Hne Hn Hl Hv Hi Herr Hall Hd Hcs.
  destruct (load_returns name (world m)) as (st & h' & s' & Hl' & Hs1 & Hnames);
    [by apply ok_world | done|]. rewrite Hl in Hl'. injection Hl' as <- <- <-.
  destruct (Hnames eq_refl h eq_refl) as [_ Hfit].
  destruct (verify_fresh h s1 m Hok Hs1 Hfit Hall) as (m2 & Hvd & Hw2 & Hok2 & Hpin).
  destruct (run_init f (default [] prm) s1) as [err s2] eqn:Hrun. cbn [fst] in Herr.
  pose proof (init_inv f (default [] prm) s1 Hs1) as Hs2. rewrite Hrun in Hs2. cbn [snd] in Hs2.
  destruct (unload_returns name s2 Hs2) as (st3 & s3 & Hul & Hs3).
  assert (manager_ok (set_world s3 (set_world s2 m2))) as Hok3
    by by do 2 (apply set_world_ok; [done|]).
  destruct (run_calls_keeps cs _ Hcs Hok3) as (m'' & Hrc & Hok'' & Hpin'').
  exists (set_world s3 (set_world s2 m2)), m''. split; [|split; [done|]].
  - unfold Load. destruct name as [|c n]; [done|].
    rewrite bool_decide_false by (rewrite Hn; by intros [? ?]).
    rewrite Hl. cbn [mbind outcome_bind status_ok negb]. cbn zeta.
    change (set_plugin _ _ (set_world s1 m)) with (fresh_plugin (Some h) s1 m).
    change (dom (plugins (set_world s1 m))) with (dom (plugins m)).
    unfold InitPulgin. rewrite Hv. cbn [status_ok]. rewrite Hvd.
    cbn [mbind outcome_bind status_ok or_undef]. rewrite Hi. cbn [mbind outcome_bind or_undef].
    rewrite Hw2, Hrun, (proj2 (Z.eqb_neq _ _) Herr).
    cbn [negb mbind outcome_bind status_ok InvalidArgumentError world set_world]. by rewrite Hul.
  - apply (pinned_stays (fresh (dom (plugins m)))); [done|].
    split; [|by eapply required_nonempty]. apply Hpin''. do 2 apply set_world_pinned. by apply Hpin.
Qed.
End manager_props.

(** ** The loader keeps the promises of the interface *)

(** What is assumed of the linker: the shared object at the path of a plugin holds
    the header of that plugin. *)
Class PluginFiles (D : Type) `{!DynLinker D} : Prop :=
  file_header : ∀ l n path d hd d' h, GetPluginPath n l = Ret path → dlopen path d = (Some hd, d') →
    dlsym hd plugin_entry d' = Some h →
    plugin_name h = Some n ∧ fits (default [] (depends h) ++ [NUL]).

Lemma GetPluginPath_total n l : small n → small (dir_ l) → ∃ path, GetPluginPath n l = Ret path.
Proof.
  intros Hn Hl. unfold GetPluginPath, StrCat3, small in *.
  destruct (PathJoin2_spec (sv_of_string (dir_ l))
    (sv_of_string ((([] ++ bs "libplugin_") ++ n) ++ bs ".so"))) as (r & -> & _); [..|by eexists].
  - apply sv_ok_string. lia.
  - apply sv_ok_string. rewrite !len_app. change (len (bs "libplugin_")) with 10.
    change (len (bs ".so")) with 3. change (len []) with 0. lia.
Qed.

#[export] Instance dll_loader_laws {D} `{!DynLinker D, !PluginFiles D} : LoaderLaws (DllLoader * D).
Proof.
  refine {| loader_inv s := small (dir_ s.1) |}.
  - intros n [l d] Hl Hn. cbn [loader_load dll_plugin_loader dll_load].
    destruct n as [|c n]; [by eexists _, _, _|]. cbn [negb].
    destruct (GetPluginPath_total (c :: n) l Hn Hl) as [path Hp]. rewrite Hp. cbn [mbind outcome_bind].
    destruct (dlopen path d) as [[hd|] d1] eqn:Ho; [|by eexists _, _, _].
    destruct (dlsym hd plugin_entry d1) as [h|] eqn:Hs.
    + eexists _, _, _. split; [done|]. split; [done|]. intros _ h' [= <-]. by eapply file_header.
    + destruct (dlclose hd d1) as [e d2]. by eexists _, _, _.
  - intros n [l d] Hl. cbn [loader_unload dll_plugin_loader dll_unload].
    destruct n as [|c n]; [by eexists _, _|].
    destruct (handles_ l !! (c :: n)) as [hd|]; [|by eexists _, _].
    destruct (dlclose hd d) as [e d1]. destruct (e =? 0); by eexists _, _.
  - intros f p [l d] Hl. cbn. by destruct (call_init f p d).
  - by intros f [l d].
Defined.

(** ** A process with two plugins; [log] uses [fmt], and fails if told to *)

Definition demo_header (n : bytes) : option cppboot_plugin :=
  if bool_decide (n = bs "fmt") then Some (PluginHeader (Some n) None (Some 0%nat) (Some 0%nat))
  else if bool_decide (n = bs "log")
       then Some (PluginHeader (Some n) (Some (bs "fmt,")) (Some 1%nat) (Some 0%nat))
       else None.

#[export] Instance demo_loader : PluginLoader unit := {
  loader_load n s :=
    match demo_header n with
    | Some h => Ret (OkStatus, Some h, s)
    | None => Ret (CancelledError n, None, s)
    end;
  loader_unload _ s := Ret (OkStatus, s);
  run_init _ prm s := (if bool_decide (prm = bs "fail") then 1 else 0, s);
  run_exit _ s := s;
}.

#[export] Instance demo_laws : LoaderLaws unit.
Proof.
  refine {| loader_inv _ := True |}; try done; [|by intros; eexists _, _].
  intros n s _ _. cbn [loader_load demo_loader]. destruct (demo_header n) as [h|] eqn:Hh.
  - eexists _, _, _. split; [done|]. split; [done|]. intros _ h' [= <-].
    unfold demo_header in Hh. repeat case_bool_decide; [injection Hh as <-..|done]; by subst.
  - eexists _, _, _. split; [done|]. done.
Defined.

Definition demo_calls : list plugin_call :=
  [LoadCall (Some (bs "fmt")) None; LoadCall (Some (bs "log")) None; UnloadCall (Some (bs "fmt"))].

Lemma dependencies_stay_loaded_witness :
  ∃ m, run_calls demo_calls (Manager ∅ ∅ tt) = Ret m ∧ is_Some (mods_ m !! bs "log") ∧
    Unload (Some (bs "fmt")) m = Ret (CancelledError (bs "has depend on by others"), m).
Proof.
  destruct (dependencies_stay_loaded tt demo_calls) as (m & Hm & _ & H);
    [exact I | repeat constructor; by_decide|].
  assert (match run_calls demo_calls (Manager ∅ ∅ tt) with
          | Ret m => (λ p, (p, hdr <$> plugins m !! p)) <$> mods_ m !! bs "log" | _ => None end
    = Some (1%nat, Some (demo_header (bs "log")))) as Hv by (vm_compute; reflexivity).
  rewrite Hm in Hv. destruct (mods_ m !! bs "log") as [p|] eqn:Hp; [|discriminate Hv].
  injection Hv as -> Hv. destruct (plugins m !! 1%nat) as [x|] eqn:Hx; [|discriminate Hv].
  injection Hv as Hv. exists m. split; [exact Hm|]. split; [by eexists|].
  apply (H (bs "log") 1%nat x (PluginHeader (Some (bs "log")) (Some (bs "fmt,")) (Some 1%nat) (Some 0%nat))
    (bs "fmt") Hp Hx Hv). by_decide.
Defined.

Lemma failed_load_pins_witness :
  ∃ m m', run_calls [LoadCall (Some (bs "fmt")) None] (Manager ∅ ∅ tt) = Ret m ∧
    Load (Some (bs "log")) (Some (bs "fail")) m
      = Ret (InvalidArgumentError (bs "init retrn error"), m') ∧
    Unload (Some (bs "fmt")) m' = Ret (CancelledError (bs "has depend on by others"), m').
Proof.
  destruct (run_calls_keeps [LoadCall (Some (bs "fmt")) None] (Manager ∅ ∅ tt))
    as (m & Hm & Hok & _); [repeat constructor; by_decide | by apply new_manager_ok|].
  assert (match run_calls [LoadCall (Some (bs "fmt")) None] (Manager ∅ ∅ tt) with
          | Ret m => (mods_ m !! bs "log", mods_ m !! bs "fmt") | _ => (None, None) end
    = (None, Some 0%nat)) as Hv by (vm_compute; reflexivity).
  rewrite Hm in Hv. injection Hv as Hlog Hfmt.
  destruct (failed_load_pins (bs "log") (Some (bs "fail"))
    (PluginHeader (Some (bs "log")) (Some (bs "fmt,")) (Some 1%nat) (Some 0%nat)) 1 tt m [] (bs "fmt") Hok)
    as (m' & m'' & Hl & Hr & Hu).
  - vm_compute. reflexivity.
  - discriminate.
  - exact Hlog.
  - destruct (world m). reflexivity.
  - reflexivity.
  - reflexivity.
  - discriminate.
  - intros n Hn. replace (required _) with [bs "fmt"] in Hn by (vm_compute; reflexivity).
    apply list_elem_of_singleton in Hn as ->. by eexists.
  - by_decide.
  - constructor.
  - injection Hr as ->. by exists m, m''.
Defined.
