(* ===== verification/Env.v ===== *)
(** * The global environment (src/cppboot/adv/env.cc, env.h, object.h)

    A table of reference-counted objects and a table of strings.  Objects live in a
    store, so that two owners of one object see one count; a call that reaches a
    deleted object is undefined.  Counts are integers: 2^63 references to one
    object do not fit in memory. *)

From S2P Require Import Prelude StdString Status.

(** ** Object *)

(** An object of the store; [nref_] is its count, and it stays in the store, dead,
    after [delete this]. *)
Record Object : Type := MkObject { object_id : option bytes; nref_ : Z; alive : bool }.

Abbreviation store := (gmap nat Object).

(** An object that is there and has not been deleted. *)
Definition deref (o : nat) (st : store) : outcome Object :=
  x ← or_undef (st !! o);
  if alive x then Ret x else Undef.

Definition ref_count (o : nat) (st : store) : outcome Z := x ← deref o st; Ret (nref_ x).

Definition AddRefManually (o : nat) (st : store) : outcome store :=
  x ← deref o st;
  Ret (<[o := MkObject (object_id x) (nref_ x + 1) true]> st).

Definition Release (o : nat) (st : store) : outcome store :=
  x ← deref o st;
  let n := nref_ x - 1 in
  Ret (<[o := MkObject (object_id x) n (negb (n =? 0))]> st).

(** [new]: the count starts at zero. *)
Definition new_object (id : option bytes) (o : nat) (st : store) : store :=
  <[o := MkObject id 0 true]> st.

(** ** ObjectEnv *)

Abbreviation object_env := (gmap bytes nat).

Definition env_Insert (obj : option nat) (objs : object_env) (st : store)
    : outcome (Status * object_env * store) :=
  match obj with
  | None => Ret (InvalidArgumentError (bs "no service"), objs, st)
  | Some o =>
      x ← deref o st;
      match object_id x with
      | None | Some [] => Ret (InvalidArgumentError (bs "no name"), objs, st)
      | Some name =>
          if bool_decide (is_Some (objs !! name)) then Ret (AlreadyExistsError name, objs, st)
          else
            st ← AddRefManually o st;
            Ret (OkStatus, <[name := o]> objs, st)
      end
  end.

Definition env_Remove (name : option bytes) (objs : object_env) (st : store)
    : outcome (object_env * store) :=
  match name with
  | None | Some [] => Ret (objs, st)
  | Some name =>
      match objs !! name with
      | Some o => st ← Release o st; Ret (delete name objs, st)
      | None => Ret (objs, st)
      end
  end.

(** [receiver] tells whether [pobj] is set. *)
Definition env_Get (name : option bytes) (receiver : bool) (objs : object_env) (st : store)
    : outcome (Status * option nat * store) :=
  match name with
  | None | Some [] => Ret (InvalidArgumentError (bs "no name"), None, st)
  | Some name =>
      if negb receiver then Ret (InvalidArgumentError (bs "no receiver"), None, st)
      else
        match objs !! name with
        | None => Ret (NotFoundError name, None, st)
        | Some o => st ← AddRefManually o st; Ret (OkStatus, Some o, st)
        end
  end.

(** ** StringEnv *)

Abbreviation string_env := (gmap bytes bytes).

Definition str_Insert (key value : option bytes) (ss : string_env) : string_env :=
  match key with
  | None | Some [] => ss
  | Some key => <[key := default [] value]> ss
  end.
Definition str_Remove (key : option bytes) (ss : string_env) : string_env :=
  match key with
  | None | Some [] => ss
  | Some key => delete key ss
  end.
Definition str_Get (key : option bytes) (ss : string_env) : bytes :=
  match key with
  | None | Some [] => []
  | Some key => default [] (ss !! key)
  end.

(** ** GlobalEnvImpl *)

Record GlobalEnv : Type := MkEnv { obj_env_ : object_env; str_env_ : string_env }.

Definition InsertObject (obj : option nat) (e : GlobalEnv) (st : store) : outcome (Status * GlobalEnv * store) :=
  '(r, objs, st) ← env_Insert obj (obj_env_ e) st; Ret (r, MkEnv objs (str_env_ e), st).
Definition RemoveObject (name : option bytes) (e : GlobalEnv) (st : store) : outcome (GlobalEnv * store) :=
  '(objs, st) ← env_Remove name (obj_env_ e) st; Ret (MkEnv objs (str_env_ e), st).
Definition GetObject (name : option bytes) (receiver : bool) (e : GlobalEnv) (st : store)
    : outcome (Status * option nat * store) := env_Get name receiver (obj_env_ e) st.
Definition InsertString (key value : option bytes) (e : GlobalEnv) : GlobalEnv :=
  MkEnv (obj_env_ e) (str_Insert key value (str_env_ e)).
Definition RemoveString (key : option bytes) (e : GlobalEnv) : GlobalEnv :=
  MkEnv (obj_env_ e) (str_Remove key (str_env_ e)).
Definition GetString (key : option bytes) (e : GlobalEnv) : bytes := str_Get key (str_env_ e).

Definition New : GlobalEnv := MkEnv ∅ ∅.

(** ** A program that uses the environment

    [held] counts the references the program itself owns; it is bookkeeping of
    the model, not state of the code. *)
Record process : Type := Process { env : GlobalEnv; objs : store; held : gmap nat nat }.

Definition holds (o : nat) (p : process) : nat := default 0%nat (held p !! o).
Definition set_held (o n : nat) (p : process) : process :=
  Process (env p) (objs p) (<[o := n]> (held p)).

Inductive env_call : Type :=
  | NewObject (o : nat) (id : option bytes)   (* p = new T, taken by a counting pointer *)
  | CopyRef (o : nat)
  | DropRef (o : nat)
  | Insert (obj : option nat)
  | Remove (name : option bytes)
  | Get (name : option bytes).

(** The program only uses references it owns. *)
Definition allowed (c : env_call) (p : process) : bool :=
  match c with
  | NewObject o _ => bool_decide (objs p !! o = None)
  | CopyRef o | DropRef o => (0 <? holds o p)%nat
  | Insert (Some o) => (0 <? holds o p)%nat
  | _ => true
  end.

Definition do_call (c : env_call) (p : process) : outcome process :=
  match c with
  | NewObject o id =>
      st ← AddRefManually o (new_object id o (objs p));
      Ret (Process (env p) st (<[o := 1%nat]> (held p)))
  | CopyRef o =>
      st ← AddRefManually o (objs p);
      Ret (set_held o (S (holds o p)) (Process (env p) st (held p)))
  | DropRef o =>
      st ← Release o (objs p);
      Ret (set_held o (pred (holds o p)) (Process (env p) st (held p)))
  | Insert obj =>
      '(_, e, st) ← InsertObject obj (env p) (objs p); Ret (Process e st (held p))
  | Remove name =>
      '(e, st) ← RemoveObject name (env p) (objs p); Ret (Process e st (held p))
  | Get name =>
      '(_, o, st) ← GetObject name true (env p) (objs p);
      let p := Process (env p) st (held p) in
      Ret (match o with Some o => set_held o (S (holds o p)) p | None => p end)
  end.

Fixpoint run_env (cs : list env_call) (p : process) : outcome process :=
  match cs with
  | [] => Ret p
  | c :: cs => p ← do_call c p; run_env cs p
  end.

(** Every call is one the program may make. *)
Fixpoint disciplined (cs : list env_call) (p : process) : Prop :=
  match cs with
  | [] => True
  | c :: cs => allowed c p = true ∧ ∀ p', do_call c p = Ret p' → disciplined cs p'
  end.

Definition new_process : process := Process New ∅ ∅.

(** * Properties *)

(** The references of the table to an object. *)
Definition in_env (o : nat) (x : Object) (e : object_env) : Z :=
  match object_id x with
  | Some n => if bool_decide (e !! n = Some o) then 1 else 0
  | None => 0
  end.

(** Every count is exact; an object is alive exactly while something refers to it;
    the table binds objects under their own names; and what is held exists. *)
Record counted (p : process) : Prop := {
  count_exact : ∀ o x, objs p !! o = Some x →
    nref_ x = Z.of_nat (holds o p) + in_env o x (obj_env_ (env p)) ∧
    alive x = (0 <? nref_ x);
  bound_names : ∀ n o, obj_env_ (env p) !! n = Some o →
    ∃ x, objs p !! o = Some x ∧ object_id x = Some n;
  held_exists : ∀ o, (0 < holds o p)%nat → is_Some (objs p !! o);
}.

Lemma in_env_range o x e : 0 <= in_env o x e <= 1.
Proof. unfold in_env. repeat case_match; lia. Qed.

Lemma deref_counted p o x : counted p → objs p !! o = Some x →
  (0 < holds o p)%nat ∨ in_env o x (obj_env_ (env p)) = 1 → deref o (objs p) = Ret x ∧ alive x = true.
Proof.
  intros Hc Hx Hr. destruct (count_exact _ Hc o x Hx) as [Hn Ha].
  pose proof (in_env_range o x (obj_env_ (env p))).
  assert (alive x = true) as Hal by (rewrite Ha; lia).
  unfold deref. rewrite Hx. cbn [or_undef mbind outcome_bind]. by rewrite Hal.
Qed.

(** A call that changes the count of one object, with what refers to it. *)
Lemma recount p o x n b e s h :
  counted p → objs p !! o = Some x →
  n = Z.of_nat (default 0%nat (h !! o)) + in_env o x e → b = (0 <? n) →
  (∀ q, q ≠ o → h !! q = held p !! q) →
  (∀ q y, q ≠ o → in_env q y e = in_env q y (obj_env_ (env p))) →
  (∀ m q, e !! m = Some q → q = o ∧ object_id x = Some m ∨ obj_env_ (env p) !! m = Some q) →
  counted (Process (MkEnv e s) (<[o := MkObject (object_id x) n b]> (objs p)) h).
Proof.
  intros Hc Hx Hn Hb Hh He Hm. split; cbn [objs env obj_env_].
  - intros q y Hy. unfold holds. cbn [held]. destruct (decide (q = o)) as [->|Hq].
    + rewrite lookup_insert_eq in Hy. injection Hy as <-. cbn [nref_ alive]. split; [|done].
      rewrite Hn. done.
    + rewrite lookup_insert_ne in Hy by done. rewrite Hh, He by done.
      by apply (count_exact _ Hc).
  - intros m q Hmq. destruct (Hm m q Hmq) as [[-> Hid]|Hold].
    + rewrite lookup_insert_eq. eexists. split; [done|]. done.
    + destruct (bound_names _ Hc m q Hold) as (y & Hy & Hid). destruct (decide (q = o)) as [->|Hq].
      * rewrite lookup_insert_eq. simplify_eq. by eexists.
      * rewrite lookup_insert_ne by done. by eexists.
  - intros q. unfold holds. cbn [held]. destruct (decide (q = o)) as [->|Hq]; intros Hq'.
    + rewrite lookup_insert_eq. by eexists.
    + rewrite lookup_insert_ne by done. rewrite Hh in Hq' by done. by apply (held_exists _ Hc).
Qed.

(** The two changes of a held count. *)
Lemma recount_held p o x n k :
  counted p → objs p !! o = Some x → n = Z.of_nat k + in_env o x (obj_env_ (env p)) →
  counted (Process (env p) (<[o := MkObject (object_id x) n (0 <? n)]> (objs p)) (<[o := k]> (held p))).
Proof.
  intros Hc Hx Hn. destruct (env p) as [e s] eqn:He. cbn [obj_env_] in *.
  apply recount; rewrite ?He; try done.
  - by rewrite lookup_insert_eq.
  - intros q Hq. by rewrite lookup_insert_ne.
  - intros m q. by right.
Qed.

Lemma AddRef_counted p o x : counted p → objs p !! o = Some x →
  (0 < holds o p)%nat ∨ in_env o x (obj_env_ (env p)) = 1 →
  ∃ st, AddRefManually o (objs p) = Ret st ∧
    st = <[o := MkObject (object_id x) (nref_ x + 1) (0 <? nref_ x + 1)]> (objs p).
Proof.
  intros Hc Hx Hr. destruct (deref_counted p o x Hc Hx Hr) as [Hd Ha].
  destruct (count_exact _ Hc o x Hx) as [_ Hal]. rewrite Ha in Hal.
  unfold AddRefManually. rewrite Hd. cbn [mbind outcome_bind]. eexists. split; [done|].
  by rewrite (proj2 (Z.ltb_lt 0 _)) by lia.
Qed.

Lemma Release_counted p o x : counted p → objs p !! o = Some x →
  (0 < holds o p)%nat ∨ in_env o x (obj_env_ (env p)) = 1 →
  Release o (objs p) = Ret (<[o := MkObject (object_id x) (nref_ x - 1) (0 <? nref_ x - 1)]> (objs p)).
Proof.
  intros Hc Hx Hr. destruct (deref_counted p o x Hc Hx Hr) as [Hd Ha].
  destruct (count_exact _ Hc o x Hx) as [_ Hal]. rewrite Ha in Hal.
  unfold Release. rewrite Hd. cbn [mbind outcome_bind]. do 3 f_equal.
  destruct (Z.eqb_spec (nref_ x - 1) 0) as [->|]; [done|]. cbn [negb].
  by rewrite (proj2 (Z.ltb_lt 0 _)) by lia.
Qed.

Lemma Insert_counted p obj : counted p → allowed (Insert obj) p = true →
  ∃ p', do_call (Insert obj) p = Ret p' ∧ counted p'.
Proof.
  intros Hc Hal. cbn [do_call]. unfold InsertObject, env_Insert.
  assert (∀ p, Process (MkEnv (obj_env_ (env p)) (str_env_ (env p))) (objs p) (held p) = p) as Heta
    by by intros [[]].
  destruct obj as [o|]; [|by exists p; cbn; rewrite Heta].
  cbn [allowed] in Hal. apply Nat.ltb_lt in Hal.
  destruct (held_exists _ Hc o Hal) as [x Hx].
  destruct (deref_counted p o x Hc Hx (or_introl Hal)) as [-> _]. cbn [mbind outcome_bind].
  destruct (object_id x) as [[|c n]|] eqn:Hid; [by exists p; cbn; rewrite Heta| |
    by exists p; cbn; rewrite Heta].
  case_bool_decide as Hb; [by exists p; cbn; rewrite Heta|].
  apply eq_None_not_Some in Hb.
  destruct (AddRef_counted p o x Hc Hx (or_introl Hal)) as (st & -> & ->). cbn [mbind outcome_bind].
  eexists. split; [done|]. destruct (count_exact _ Hc o x Hx) as [Hn _].
  assert (in_env o x (obj_env_ (env p)) = 0) as Hz.
  { unfold in_env. rewrite Hid, bool_decide_false; [done|]. by rewrite Hb. }
  apply recount; try done.
  - rewrite Hn, Hz. unfold holds, in_env. cbn [object_id]. rewrite Hid, lookup_insert_eq, bool_decide_true by done. lia.
  - intros q y Hq. unfold in_env. destruct (object_id y) as [m|]; [|done].
    apply (f_equal (λ b : bool, if b then 1 else 0)). apply bool_decide_ext.
    rewrite lookup_insert_Some. split; [|by intros H; right; split; [intros <-; congruence|]].
    by intros [[_ ->]|[_ ?]].
  - intros m q. rewrite lookup_insert_Some. intros [[<- <-]|[_ ?]]; [by left | by right].
Qed.

Lemma Remove_counted p name : counted p → ∃ p', do_call (Remove name) p = Ret p' ∧ counted p'.
Proof.
  intros Hc. cbn [do_call]. unfold RemoveObject, env_Remove.
  assert (∀ p, Process (MkEnv (obj_env_ (env p)) (str_env_ (env p))) (objs p) (held p) = p) as Heta
    by by intros [[]].
  destruct name as [[|c n]|]; [by exists p; cbn; rewrite Heta| |
    by exists p; cbn; rewrite Heta].
  destruct (obj_env_ (env p) !! (c :: n)) as [o|] eqn:Hb; [|by exists p; cbn; rewrite Heta].
  destruct (bound_names _ Hc _ _ Hb) as (x & Hx & Hid).
  assert (in_env o x (obj_env_ (env p)) = 1) as H1.
  { unfold in_env. by rewrite Hid, bool_decide_true. }
  rewrite (Release_counted p o x Hc Hx (or_intror H1)). cbn [mbind outcome_bind].
  eexists. split; [done|]. destruct (count_exact _ Hc o x Hx) as [Hn _].
  apply recount; try done.
  - rewrite Hn, H1. unfold holds, in_env. cbn [object_id]. rewrite Hid, lookup_delete_eq, bool_decide_false by done. lia.
  - intros q y Hq. unfold in_env. destruct (object_id y) as [m|]; [|done].
    apply (f_equal (λ b : bool, if b then 1 else 0)). apply bool_decide_ext.
    rewrite lookup_delete_Some. split; [by intros [_ ?]|].
    intros Hm. split; [|done]. intros <-. congruence.
  - intros m q. rewrite lookup_delete_Some. intros [_ ?]. by right.
Qed.

Lemma Get_counted p name : counted p → ∃ p', do_call (Get name) p = Ret p' ∧ counted p'.
Proof.
  intros Hc. cbn [do_call]. unfold GetObject, env_Get.
  assert (∀ p, Process (env p) (objs p) (held p) = p) as Heta by by intros [].
  destruct name as [[|c n]|]; [by exists p; cbn; rewrite Heta| |
    by exists p; cbn; rewrite Heta].
  cbn [negb]. destruct (obj_env_ (env p) !! (c :: n)) as [o|] eqn:Hb;
    [|by exists p; cbn; rewrite Heta].
  destruct (bound_names _ Hc _ _ Hb) as (x & Hx & Hid).
  assert (in_env o x (obj_env_ (env p)) = 1) as H1.
  { unfold in_env. by rewrite Hid, bool_decide_true. }
  destruct (AddRef_counted p o x Hc Hx (or_intror H1)) as (st & -> & ->). cbn [mbind outcome_bind].
  eexists. split; [done|]. destruct (count_exact _ Hc o x Hx) as [Hn _].
  unfold set_held. cbn [env objs held].
  apply (recount_held p o x); [done..|]. rewrite Hn. unfold holds. cbn [held]. lia.
Qed.

Lemma do_call_counted c p : counted p → allowed c p = true →
  ∃ p', do_call c p = Ret p' ∧ counted p'.
Proof.
  intros Hc Hal. destruct c as [o id|o|o|obj|name|name];
    [| | | by apply Insert_counted | by apply Remove_counted | by apply Get_counted];
    cbn [allowed do_call] in *.
  - apply bool_decide_eq_true in Hal. unfold AddRefManually, deref, new_object.
    rewrite lookup_insert_eq. cbn [or_undef mbind outcome_bind alive object_id nref_].
    eexists. split; [done|]. rewrite insert_insert_eq.
    assert (holds o p = 0%nat ∧ ∀ n, obj_env_ (env p) !! n ≠ Some o) as [Hh Hfree].
    { split.
      - destruct (holds o p) eqn:Hh; [done|]. destruct (held_exists _ Hc o) as [x Hx]; [lia|congruence].
      - intros n Hn. destruct (bound_names _ Hc n o Hn) as (x & Hx & _). congruence. }
    split; cbn [objs env].
    + intros q y. unfold holds. cbn [held]. rewrite !lookup_insert_Some. intros [[<- <-]|[Hq Hy]].
      * rewrite lookup_insert_eq. cbn [nref_ alive]. split; [|done]. unfold in_env. cbn [object_id].
        destruct id as [n|]; [|done]. rewrite bool_decide_false; [done | apply Hfree].
      * rewrite lookup_insert_ne by done. by apply (count_exact _ Hc).
    + intros n q Hq. destruct (bound_names _ Hc n q Hq) as (y & Hy & Hid).
      exists y. rewrite lookup_insert_ne by (intros <-; congruence). done.
    + intros q. unfold holds. cbn [held]. destruct (decide (q = o)) as [->|Hq].
      * rewrite lookup_insert_eq. intros _. rewrite lookup_insert_eq. by eexists.
      * rewrite !lookup_insert_ne by done. apply (held_exists _ Hc).
  - apply Nat.ltb_lt in Hal. destruct (held_exists _ Hc o Hal) as [x Hx].
    destruct (AddRef_counted p o x Hc Hx (or_introl Hal)) as (st & -> & ->). cbn [mbind outcome_bind].
    eexists. split; [done|]. destruct (count_exact _ Hc o x Hx) as [Hn _].
    unfold set_held. cbn [env objs held]. apply (recount_held p o x); [done..|]. rewrite Hn. lia.
  - apply Nat.ltb_lt in Hal. destruct (held_exists _ Hc o Hal) as [x Hx].
    rewrite (Release_counted p o x Hc Hx (or_introl Hal)). cbn [mbind outcome_bind].
    eexists. split; [done|]. destruct (count_exact _ Hc o x Hx) as [Hn _].
    unfold set_held. cbn [env objs held]. apply (recount_held p o x); [done..|]. rewrite Hn. lia.
Qed.

(** No object of the environment is used after it is deleted, and none is
    leaked by it.  Whatever a program does that only uses references it owns -
    making objects, copying and dropping references, inserting, looking up and
    removing under any name - every call returns, and at every end the count of an
    object is the number of references the program holds plus one if the table
    binds it, the object is alive exactly while that is not zero, and everything
    the table binds is alive. *)
Theorem env_counts (cs : list env_call) : disciplined cs new_process →
  ∃ p, run_env cs new_process = Ret p ∧ counted p ∧
    ∀ n o, obj_env_ (env p) !! n = Some o → ∃ x, objs p !! o = Some x ∧ alive x = true.
Proof.
  assert (counted new_process) as Hc.
  { split; cbn; [intros ? ?; by rewrite lookup_empty | intros ? ?; by rewrite lookup_empty|].
    intros o. unfold holds. cbn. rewrite lookup_empty. cbn. lia. }
  revert Hc. generalize new_process. induction cs as [|c cs IH]; intros p Hc Hd; cbn [run_env].
  - exists p. split; [done|]. split; [done|]. intros n o Hn.
    destruct (bound_names _ Hc n o Hn) as (x & Hx & Hid). exists x. split; [done|].
    eapply deref_counted; [done..|]. right. unfold in_env. by rewrite Hid, bool_decide_true.
  - destruct Hd as [Hal Hd]. destruct (do_call_counted c p Hc Hal) as (p' & Hp & Hc').
    rewrite Hp. cbn [mbind outcome_bind]. apply IH; [done|]. by apply Hd.
Qed.

Definition demo_env_calls : list env_call :=
  [NewObject 0 (Some (bs "svc")); Insert (Some 0%nat); DropRef 0; Get (Some (bs "svc"));
   Remove (Some (bs "svc")); DropRef 0].

(** [disciplined], by evaluation. *)
Fixpoint checks (cs : list env_call) (p : process) : bool :=
  match cs with
  | [] => true
  | c :: cs => allowed c p && match do_call c p with Ret p' => checks cs p' | _ => true end
  end.

Lemma checks_disciplined cs p : checks cs p = true → disciplined cs p.
Proof.
  revert p. induction cs as [|c cs IH]; intros p; cbn [checks disciplined]; [done|].
  intros [Ha Hc]%andb_true_iff. split; [done|]. intros p' Hp. rewrite Hp in Hc. by apply IH.
Qed.

Lemma env_counts_witness :
  ∃ p, run_env demo_env_calls new_process = Ret p ∧ counted p ∧
    (alive <$> objs p !! 0%nat) = Some false.
Proof.
  destruct (env_counts demo_env_calls) as (p & Hp & Hc & _).
  - apply checks_disciplined. vm_compute. reflexivity.
  - exists p. split; [exact Hp|]. split; [exact Hc|].
    assert (match run_env demo_env_calls new_process with
            | Ret p => alive <$> objs p !! 0%nat | _ => None end = Some false) as Hv
      by (vm_compute; reflexivity).
    rewrite Hp in Hv. exact Hv.
Defined.
