(* ===== verification/JsonValue.v ===== *)
(** * JSON values (src/cppboot/base/internal/json/json.hpp, [basic_json])

    The value type behind [cppboot::json], as far as the program uses it: the
    tagged union, an object as a [std::map] (a list of members in key order),
    [operator[]] with a key, [push_back], iteration and the conversions to
    [bool], [std::string] and integers.  A [double] is the standard library's
    [spec_float]; its conversion to an integer type is undefined out of range. *)

From Stdlib Require Export SpecFloat.
From S2P Require Import Prelude StdString.

(** ** [value_t] and the value *)

#[warnings="-register-all"]
Inductive json : Type :=
  | JNull
  | JBool (b : bool)
  | JInt (z : Z)                        (* number_integer, std::int64_t *)
  | JUint (z : Z)                       (* number_unsigned, std::uint64_t *)
  | JFloat (f : spec_float)             (* number_float, double *)
  | JString (s : bytes)
  | JBinary (s : bytes) (subtype : option Z)    (* byte_container_with_subtype *)
  | JArray (l : list json)
  | JObject (l : list (bytes * json)).  (* members in key order *)

Definition type_error (id : Z) : exn := json_exception id.

(** ** [std::map<std::string, A>] as the list of its entries *)
Section members.
Context {A : Type}.

(** [m[k] = v] *)
Fixpoint member_set (k : bytes) (v : A) (l : list (bytes * A)) : list (bytes * A) :=
  match l with
  | [] => [(k, v)]
  | (k', v') :: l' =>
      match bytes_cmp k k' with
      | Lt => (k, v) :: l
      | Eq => (k', v) :: l'
      | Gt => (k', v') :: member_set k v l'
      end
  end.

(** [find] *)
Fixpoint member_get (k : bytes) (l : list (bytes * A)) : option A :=
  match l with
  | [] => None
  | (k', v) :: l' => if bool_decide (k = k') then Some v else member_get k l'
  end.

(** [emplace(k, v)]: nothing happens when the key is there. *)
Definition member_emplace (k : bytes) (v : A) (l : list (bytes * A)) : list (bytes * A) :=
  match member_get k l with Some _ => l | None => member_set k v l end.

End members.

(** ** Access *)

(** [operator[](key)]: a null value becomes an object, and a key that is not
    there gets a null value.  The value as it is left, and the element. *)
Definition json_index (key : bytes) (j : json) : outcome (json * json) :=
  match j with
  | JNull => Ret (JObject [(key, JNull)], JNull)
  | JObject l =>
      let l := member_emplace key JNull l in
      Ret (JObject l, default JNull (member_get key l))
  | _ => Throw (type_error 305)
  end.

(** [j[key] = v] *)
Definition json_set (key : bytes) (v : json) (j : json) : outcome json :=
  match j with
  | JNull => Ret (JObject [(key, v)])
  | JObject l => Ret (JObject (member_set key v l))
  | _ => Throw (type_error 305)
  end.

Definition push_back (v : json) (j : json) : outcome json :=
  match j with
  | JNull => Ret (JArray [v])
  | JArray l => Ret (JArray (l ++ [v]))
  | _ => Throw (type_error 308)
  end.

(** What a range-based [for] visits: nothing for null, the elements or the
    members' values, and a primitive value itself, once. *)
Definition json_items (j : json) : list json :=
  match j with
  | JNull => []
  | JArray l => l
  | JObject l => l.*2
  | _ => [j]
  end.

(** ** Conversions *)

(** A [double] cut to an integer: toward zero; NaN and infinities have none. *)
Definition float_trunc (f : spec_float) : option Z :=
  match f with
  | S754_zero _ => Some 0
  | S754_finite s m e =>
      let a := if 0 <=? e then Z.pos m * 2 ^ e else Z.pos m / 2 ^ (- e) in
      Some (if s : bool then - a else a)
  | _ => None
  end.

(** [static_cast] of a [double] to an integer type with the values [lo] to [hi]. *)
Definition float_to (lo hi : Z) (f : spec_float) : outcome Z :=
  match float_trunc f with
  | Some z => if (lo <=? z) && (z <=? hi) then Ret z else Undef
  | None => Undef
  end.

(** [from_json] to an arithmetic type: [wrap] is the conversion between integers. *)
Definition json_arith (lo hi : Z) (wrap : Z → Z) (j : json) : outcome Z :=
  match j with
  | JUint z | JInt z => Ret (wrap z)
  | JFloat f => float_to lo hi f
  | JBool b => Ret (if b then 1 else 0)
  | _ => Throw (type_error 302)
  end.

Definition json_uint32 : json → outcome Z := json_arith 0 (2 ^ 32 - 1) u32.
Definition json_int : json → outcome Z := json_arith INT_MIN INT_MAX i32.

Definition json_bool (j : json) : outcome bool :=
  match j with JBool b => Ret b | _ => Throw (type_error 302) end.

Definition json_string (j : json) : outcome bytes :=
  match j with JString s => Ret s | _ => Throw (type_error 302) end.

(** * Lemmas *)

(** Induction through the lists of elements and members. *)
Lemma json_ind' (P : json → Prop) :
  P JNull → (∀ b, P (JBool b)) → (∀ z, P (JInt z)) → (∀ z, P (JUint z)) →
  (∀ f, P (JFloat f)) → (∀ s, P (JString s)) → (∀ s st, P (JBinary s st)) →
  (∀ l, Forall P l → P (JArray l)) →
  (∀ l, Forall (λ kv, P kv.2) l → P (JObject l)) →
  ∀ j, P j.
Proof.
  intros H1 H2 H3 H4 H5 H6 H7 H8 H9. fix IH 1.
  intros [ | b | z | z | f | s | s t | l | l]; [exact H1 | exact (H2 b) | exact (H3 z) | exact (H4 z)
    | exact (H5 f) | exact (H6 s) | exact (H7 s t) | | ].
  - apply H8. induction l as [|x l IHl]; constructor; [apply IH | exact IHl].
  - apply H9. induction l as [|[k x] l IHl]; constructor; [apply IH | exact IHl].
Qed.

Definition bytes_lt (a b : bytes) : Prop := bytes_cmp a b = Lt.
#[export] Instance bytes_lt_trans : Transitive bytes_lt.
Proof. intros a b c. apply bytes_cmp_lt_trans. Qed.
Lemma bytes_lt_irrefl a : ¬ bytes_lt a a.
Proof. unfold bytes_lt. by rewrite bytes_cmp_refl. Qed.

Section member_lemmas.
Context {A : Type}.
Implicit Types (l : list (bytes * A)) (k : bytes) (v : A).

(** The keys of a map, in order. *)
Definition key_lt (p q : bytes * A) : Prop := bytes_lt p.1 q.1.
Definition in_order l : Prop := StronglySorted key_lt l.

Lemma member_get_set k v l : member_get k (member_set k v l) = Some v.
Proof.
  induction l as [|[k' v'] l IH]; cbn; [by rewrite bool_decide_true|].
  destruct (bytes_cmp k k') eqn:E; cbn.
  - apply bytes_cmp_eq in E as ->. by rewrite bool_decide_true.
  - by rewrite bool_decide_true.
  - rewrite bool_decide_false; [done|]. intros ->. by rewrite bytes_cmp_refl in E.
Qed.

Lemma member_get_set_ne k k' v l : k ≠ k' → member_get k (member_set k' v l) = member_get k l.
Proof.
  intros Hk. induction l as [|[k2 v2] l IH]; cbn; [by rewrite bool_decide_false|].
  destruct (bytes_cmp k' k2) eqn:E; cbn.
  - apply bytes_cmp_eq in E as ->. by rewrite !bool_decide_false by done.
  - by rewrite (bool_decide_false (k = k')).
  - by rewrite IH.
Qed.

Lemma key_lt_elem k v l : Forall (key_lt (k, v)) l → k ∉ l.*1.
Proof.
  intros Hf Hin. apply list_elem_of_fmap in Hin as ([k' v'] & -> & Hin).
  rewrite Forall_forall in Hf. apply Hf in Hin. by apply bytes_lt_irrefl in Hin.
Qed.

Lemma member_get_notin k l : k ∉ l.*1 → member_get k l = None.
Proof.
  induction l as [|[k' v] l IH]; cbn; [done|]. intros [Hne Hk]%not_elem_of_cons.
  rewrite bool_decide_false by done. auto.
Qed.

Lemma member_get_elem k v l : in_order l → member_get k l = Some v ↔ (k, v) ∈ l.
Proof.
  induction 1 as [|[k' v'] l Hl IH Hf]; cbn; [by rewrite elem_of_nil|].
  rewrite elem_of_cons. case_bool_decide as E.
  - subst k'. split; [by intros [= ->]; left|]. intros [[= ->]|Hin]; [done|].
    apply key_lt_elem in Hf. destruct Hf. apply list_elem_of_fmap. by exists (k, v).
  - rewrite IH. split; [by right|]. intros [[= -> ->]|]; done.
Qed.

(** Keys set in ascending order are appended. *)
Lemma member_set_last k v l : Forall (λ p, bytes_lt p.1 k) l → member_set k v l = l ++ [(k, v)].
Proof.
  induction 1 as [|[k' v'] l Hk _ IH]; cbn in *; [done|].
  rewrite bytes_cmp_antisym, Hk. cbn. by rewrite IH.
Qed.

Lemma member_set_elem k v l p : p ∈ member_set k v l → p = (k, v) ∨ p ∈ l.
Proof.
  induction l as [|[k' v'] l IH]; cbn; [rewrite list_elem_of_singleton; auto|].
  destruct (bytes_cmp k k') eqn:E; rewrite !elem_of_cons; [|tauto|tauto].
  apply bytes_cmp_eq in E as ->. tauto.
Qed.

Lemma member_set_in_order k v l : in_order l → in_order (member_set k v l).
Proof.
  unfold in_order. induction 1 as [|[k' v'] l Hl IH Hf]; cbn; [repeat constructor|].
  destruct (bytes_cmp k k') eqn:E.
  - constructor; [done|]. done.
  - constructor; [by constructor|]. constructor; [done|].
    eapply Forall_impl; [exact Hf|]. intros p Hp.
    unfold key_lt in *. cbn in *. by etransitivity.
  - constructor; [done|]. apply Forall_forall. intros p [->|Hp]%member_set_elem.
    + unfold key_lt, bytes_lt. cbn. by rewrite bytes_cmp_antisym, E.
    + rewrite Forall_forall in Hf. auto.
Qed.

Lemma in_order_app_elem l1 l2 p q : in_order (l1 ++ l2) → p ∈ l1 → q ∈ l2 → key_lt p q.
Proof.
  intros H. revert p. induction l1 as [|x l1 IH]; intros p Hp Hq; [by apply elem_of_nil in Hp|].
  cbn in H. apply StronglySorted_inv in H as [H Hf]. apply elem_of_cons in Hp as [->|Hp]; [|auto].
  rewrite Forall_forall in Hf. apply Hf. apply elem_of_app. by right.
Qed.

End member_lemmas.
