(* ===== verification/JsonDump.v ===== *)
(** * The JSON serializer (src/cppboot/base/internal/json/json.hpp, [serializer])

    [dump(indent, ' ')] with the defaults the program leaves in place: no ASCII
    escaping of other characters ([ensure_ascii] false) and the [strict] error
    handler.  The string buffer of 512 bytes, the number buffer of 64 and the
    indentation string are written out with their bounds.  The characters of a
    [double] ([dump_float]) are a parameter here; [Grisu] has the algorithm that writes
    them and [JsonDouble] what the texts are with it. *)

From S2P Require Import Prelude StdString Buffer JsonValue.

Module Serializer.

(** ** UTF-8: [decode] *)

Definition UTF8_ACCEPT : Z := 0.
Definition UTF8_REJECT : Z := 1.

Definition utf8d : list Z :=
  replicate 128 0 ++ replicate 16 1 ++ replicate 16 9 ++ replicate 32 7 ++
  [8; 8] ++ replicate 30 2 ++
  [10; 3; 3; 3; 3; 3; 3; 3; 3; 3; 3; 3; 3; 4; 3; 3] ++
  [11; 6; 6; 6; 5; 8; 8; 8; 8; 8; 8; 8; 8; 8; 8; 8] ++
  [0; 1; 2; 3; 5; 8; 7; 1; 1; 1; 4; 6; 1; 1; 1; 1] ++
  [1; 1; 1; 1; 1; 1; 1; 1; 1; 1; 1; 1; 1; 1; 1; 1; 1; 0; 1; 1; 1; 1; 1; 0; 1; 0; 1; 1; 1; 1; 1; 1] ++
  [1; 2; 1; 1; 1; 1; 1; 2; 1; 2; 1; 1; 1; 1; 1; 1; 1; 1; 1; 1; 1; 1; 1; 2; 1; 1; 1; 1; 1; 1; 1; 1] ++
  [1; 2; 1; 1; 1; 1; 1; 1; 1; 2; 1; 1; 1; 1; 1; 1; 1; 1; 1; 1; 1; 1; 1; 3; 1; 3; 1; 1; 1; 1; 1; 1] ++
  [1; 3; 1; 1; 1; 1; 1; 3; 1; 3; 1; 1; 1; 1; 1; 1; 1; 3; 1; 1; 1; 1; 1; 1; 1; 1; 1; 1; 1; 1; 1; 1].

(** The new state and the new code point. *)
Definition decode (state codep : Z) (byte : ascii) : outcome (Z * Z) :=
  _ ← cpp_assert (uchar byte <? 400);
  type ← or_undef (utf8d !! Z.to_nat (uchar byte));
  let codep := if negb (state =? UTF8_ACCEPT)
               then Z.lor (Z.land (uchar byte) 63) (u32 (Z.shiftl codep 6))
               else Z.land (Z.shiftr 255 type) (uchar byte) in
  let index := 256 + state * 16 + type in
  _ ← cpp_assert (index <? 400);
  state ← or_undef (utf8d !! Z.to_nat index);
  Ret (state, codep).

(** ** The output and its buffers *)

(** What the output adapter has been given, and [indent_string]. *)
Record serializer : Type := Ser { o : bytes; indent_string : bytes }.

Definition make_serializer : serializer := Ser [] (replicate 512 SP).

Definition write (s : bytes) (t : serializer) : serializer := Ser (o t ++ s) (indent_string t).

(** [write_characters(indent_string.c_str(), n)] *)
Definition write_indent (n : Z) (t : serializer) : outcome serializer :=
  s ← read_at 0 n (indent_string t ++ [NUL]); Ret (write s t).

Definition reserve_indent (new_indent : Z) (t : serializer) : serializer :=
  if len (indent_string t) <? new_indent
  then Ser (o t) (indent_string t ++ replicate (length (indent_string t)) SP)
  else t.

(** ** [dump_escaped] *)

Record escaper : Type := Esc { codepoint : Z; state : Z; string_buffer : bytes }.

Definition kStringBuffer : Z := 512.

(** [string_buffer[bytes++] = c], for each character in turn. *)
Definition put (s b : bytes) : outcome bytes :=
  if len b + len s <=? kStringBuffer then Ret (b ++ s) else Undef.

Definition hex_digit (d : Z) : ascii := nth (Z.to_nat d) (bs "0123456789abcdef") NUL.
(** [%04x] of a 16-bit value *)
Definition hex4 (z : Z) : bytes :=
  [hex_digit (z / 4096 mod 16); hex_digit (z / 256 mod 16); hex_digit (z / 16 mod 16);
   hex_digit (z mod 16)].

(** [snprintf] writes a NUL behind the six characters. *)
Definition put_u (z : Z) (b : bytes) : outcome bytes :=
  if len b + 7 <=? kStringBuffer then Ret (b ++ bs "\u" ++ hex4 (u16 z)) else Undef.

Definition put_accepted (cp : Z) (byte : ascii) (b : bytes) : outcome bytes :=
  if cp =? 8 then put (bs "\b") b
  else if cp =? 9 then put (bs "\t") b
  else if cp =? 10 then put (bs "\n") b
  else if cp =? 12 then put (bs "\f") b
  else if cp =? 13 then put (bs "\r") b
  else if cp =? 34 then put ("\"%char :: [DQ]) b
  else if cp =? 92 then put (bs "\\") b
  else if cp <=? 31 then put_u cp b
  else put [byte] b.

Definition escape_byte (byte : ascii) (e : escaper) (t : serializer) :
    outcome (escaper * serializer) :=
  '(st, cp) ← decode (state e) (codepoint e) byte;
  if st =? UTF8_ACCEPT then
    b ← put_accepted cp byte (string_buffer e);
    if kStringBuffer - len b <? 13 then Ret (Esc cp st [], write b t)
    else Ret (Esc cp st b, t)
  else if st =? UTF8_REJECT then Throw (type_error 316)
  else b ← put [byte] (string_buffer e); Ret (Esc cp st b, t).

Fixpoint escape_loop (s : bytes) (e : escaper) (t : serializer) : outcome (escaper * serializer) :=
  match s with
  | [] => Ret (e, t)
  | byte :: s => '(e, t) ← escape_byte byte e t; escape_loop s e t
  end.

Definition dump_escaped (s : bytes) (t : serializer) : outcome serializer :=
  '(e, t) ← escape_loop s (Esc 0 UTF8_ACCEPT []) t;
  if state e =? UTF8_ACCEPT then Ret (write (string_buffer e) t) else Throw (type_error 316).

(** ** [dump_integer] *)

(** Four digits a round; a 64-bit number ends in the fifth. *)
Fixpoint count_digits (fuel : nat) (x n_digits : Z) : outcome Z :=
  match fuel with
  | O => OutOfFuel
  | S fuel =>
      if x <? 10 then Ret n_digits
      else if x <? 100 then Ret (n_digits + 1)
      else if x <? 1000 then Ret (n_digits + 2)
      else if x <? 10000 then Ret (n_digits + 3)
      else count_digits fuel (x / 10000) (n_digits + 4)
  end.

(** [digits_to_99[i]] *)
Definition digits_to_99 (i : Z) : bytes := [digit_char (i / 10); digit_char (i mod 10)].

(** The loop that fills the buffer from the end: the pointer, the buffer and
    what is left of the number. *)
Fixpoint fill_digits (fuel : nat) (abs_value ptr : Z) (b : bytes) : outcome (Z * Z * bytes) :=
  match fuel with
  | O => OutOfFuel
  | S fuel =>
      if 100 <=? abs_value then
        b ← write_at (ptr - 2) (digits_to_99 (abs_value mod 100)) b;
        fill_digits fuel (abs_value / 100) (ptr - 2) b
      else Ret (abs_value, ptr, b)
  end.

Definition remove_sign (x : Z) : Z := u64 (- (x + 1)) + 1.

(** The characters written; [number_buffer] holds 64. *)
Definition integer_chars (x : Z) : outcome bytes :=
  if x =? 0 then Ret (bs "0")
  else
    let buffer := replicate 64 NUL in
    let negative := x <? 0 in
    b ← (if negative then write_at 0 (bs "-") buffer else Ret buffer);
    let abs_value := if negative then remove_sign x else x in
    n_digits ← count_digits 6 abs_value 1;
    let n_chars := if negative then 1 + n_digits else n_digits in
    _ ← cpp_assert (n_chars <? 64 - 1);
    '(abs_value, ptr, b) ← fill_digits 11 abs_value n_chars b;
    b ← (if 10 <=? abs_value then write_at (ptr - 2) (digits_to_99 abs_value) b
         else write_at (ptr - 1) [char_of (48 + abs_value)] b);
    read_at 0 n_chars b.

Definition dump_integer (x : Z) (t : serializer) : outcome serializer :=
  s ← integer_chars x; Ret (write s t).

(** ** [dump] *)

Section dump.
Context (dump_float : spec_float → bytes) (pretty_print : bool) (indent_step : Z).

(** The loop over the first n-1 elements and the last one. *)
Fixpoint dump_items {A} (elem : A → serializer → outcome serializer) (sep : bytes)
    (l : list A) (t : serializer) : outcome serializer :=
  match l with
  | [] => Crash
  | [x] => elem x t
  | x :: l => t ← elem x t; dump_items elem sep l (write sep t)
  end.

(** [write_character('"'); dump_escaped(key); write_characters("\":", ...)] *)
Definition dump_key (key : bytes) (t : serializer) : outcome serializer :=
  t ← dump_escaped key (write [DQ] t);
  Ret (write (DQ :: (if pretty_print then bs ": " else bs ":")) t).

(** [binary]: its bytes as numbers and its subtype. *)
Definition dump_bytes (s : bytes) (t : serializer) : outcome serializer :=
  if bool_decide (s = []) then Ret t
  else dump_items (λ c, dump_integer (uchar c)) (if pretty_print then bs ", " else bs ",") s t.
Definition dump_subtype (subtype : option Z) (t : serializer) : outcome serializer :=
  match subtype with Some n => dump_integer n t | None => Ret (write (bs "null") t) end.
Definition bytes_key : bytes :=
  DQ :: bs "bytes" ++ DQ :: (if pretty_print then bs ": [" else bs ":[").
Definition subtype_key : bytes :=
  DQ :: bs "subtype" ++ DQ :: (if pretty_print then bs ": " else bs ":").

Definition dump_binary (s : bytes) (subtype : option Z) (current_indent new_indent : Z)
    (t : serializer) : outcome serializer :=
  if pretty_print then
    t ← write_indent new_indent (reserve_indent new_indent (write ("{"%char :: [LF]) t));
    t ← dump_bytes s (write bytes_key t);
    t ← write_indent new_indent (write (bs "]," ++ [LF]) t);
    t ← dump_subtype subtype (write subtype_key t);
    t ← write_indent current_indent (write [LF] t);
    Ret (write (bs "}") t)
  else
    t ← dump_bytes s (write ("{"%char :: bytes_key) t);
    t ← dump_subtype subtype (write (bs "]," ++ subtype_key) t);
    Ret (write (bs "}") t).

Fixpoint dump (val : json) (current_indent : Z) (t : serializer) : outcome serializer :=
  let new_indent := u32 (current_indent + indent_step) in
  match val with
  | JObject [] => Ret (write (bs "{}") t)
  | JObject l =>
      if pretty_print then
        t ← dump_items (λ kv t,
              t ← write_indent new_indent t;
              t ← dump_key kv.1 t;
              dump kv.2 new_indent t) (","%char :: [LF]) l
              (reserve_indent new_indent (write ("{"%char :: [LF]) t));
        t ← write_indent current_indent (write [LF] t);
        Ret (write (bs "}") t)
      else
        t ← dump_items (λ kv t, t ← dump_key kv.1 t; dump kv.2 current_indent t)
              (bs ",") l (write (bs "{") t);
        Ret (write (bs "}") t)
  | JArray [] => Ret (write (bs "[]") t)
  | JArray l =>
      if pretty_print then
        t ← dump_items (λ x t, t ← write_indent new_indent t; dump x new_indent t)
              (","%char :: [LF]) l
              (reserve_indent new_indent (write ("["%char :: [LF]) t));
        t ← write_indent current_indent (write [LF] t);
        Ret (write (bs "]") t)
      else
        t ← dump_items (λ x t, dump x current_indent t) (bs ",") l (write (bs "[") t);
        Ret (write (bs "]") t)
  | JString s => t ← dump_escaped s (write [DQ] t); Ret (write [DQ] t)
  | JBinary s subtype => dump_binary s subtype current_indent new_indent t
  | JBool true => Ret (write (bs "true") t)
  | JBool false => Ret (write (bs "false") t)
  | JInt z | JUint z => dump_integer z t
  | JFloat f =>
      Ret (match f with
           | S754_nan | S754_infinity _ => write (bs "null") t
           | _ => write (dump_float f) t
           end)
  | JNull => Ret (write (bs "null") t)
  end.

End dump.

(** [basic_json::dump(indent, ' ')]; the default of [indent] is -1. *)
Definition json_dump (dump_float : spec_float → bytes) (indent : Z) (j : json) : outcome bytes :=
  t ← (if 0 <=? indent then dump dump_float true (u32 indent) j 0 make_serializer
       else dump dump_float false 0 j 0 make_serializer);
  Ret (o t).

End Serializer.
Import Serializer.

(** * UTF-8 *)

Definition next (st : Z) (c : ascii) : Z :=
  match decode st 0 c with Ret (st', _) => st' | _ => UTF8_REJECT end.

Definition dfa (st : Z) (s : bytes) : Z := foldl next st s.

(** The string is well-formed UTF-8. *)
Definition utf8_ok (s : bytes) : bool := dfa UTF8_ACCEPT s =? UTF8_ACCEPT.

Lemma utf8_ok_dfa s : utf8_ok s = true ↔ dfa 0 s = 0.
Proof. unfold utf8_ok, UTF8_ACCEPT. apply Z.eqb_eq. Qed.

(** The states, with the code point bits read so far and the buffer's length. *)
Definition cp_min (st : Z) : Z :=
  if st =? 2 then 2 else if bool_decide (st ∈ [3; 5; 7; 8]) then 1 else 0.
Definition cp_max (st : Z) : Z :=
  if st =? 2 then 2 ^ 15 else if bool_decide (st ∈ [3; 4; 5]) then 512 else 8.
Definition buf_max (st : Z) : Z :=
  if st =? 0 then 499 else if st =? 2 then 502
  else if bool_decide (st ∈ [3; 4; 5]) then 501 else 500.

Definition states : list Z := [0; 2; 3; 4; 5; 6; 7; 8].

(** The code point after one more byte. *)
Definition cp_next (st cp : Z) (c : ascii) : Z :=
  if st =? 0 then Z.land (Z.shiftr 255 (nth (Z.to_nat (uchar c)) utf8d 0)) (uchar c)
  else cp * 64 + uchar c mod 64.

(** One step of the automaton, checked on every state and byte. *)
Definition step_ok (st : Z) (c : ascii) : bool :=
  let st' := next st c in
  let lo := cp_next st (cp_min st) c in
  let hi := cp_next st (cp_max st - 1) c in
  bool_decide (is_Some (utf8d !! Z.to_nat (uchar c))) &&
  bool_decide (is_Some (utf8d !! Z.to_nat (256 + st * 16 + nth (Z.to_nat (uchar c)) utf8d 0))) &&
  (256 + st * 16 + nth (Z.to_nat (uchar c)) utf8d 0 <? 400) &&
  ((st' =? 1) ||
   (if st' =? 0
    then if st =? 0 then (lo =? uchar c) && (uchar c <? 128) else (128 <=? lo) && (128 <=? uchar c)
    else bool_decide (st' ∈ states) && (cp_min st' <=? lo) && (hi <? cp_max st') &&
         (buf_max st + 1 <=? buf_max st') && (128 <=? uchar c))).

Lemma all_steps_ok : forallb (λ st, forallb (step_ok st) all_chars) states = true.
Proof. vm_compute. reflexivity. Qed.

Lemma step_ok_all st c : st ∈ states → step_ok st c = true.
Proof.
  intros Hst. pose proof all_steps_ok as H. rewrite forallb_forall in H.
  apply list_elem_of_In, H in Hst. by apply forall_chars with (c := c) in Hst.
Qed.

Lemma land_low a b : 0 <= b < 64 → Z.land (Z.shiftl a 6) b = 0.
Proof.
  intros Hb. apply Z.bits_inj'. intros n Hn. rewrite Z.land_spec, Z.bits_0.
  destruct (Z.lt_ge_cases n 6); [by rewrite Z.shiftl_spec_low by lia|].
  replace b with (b mod 2 ^ 6) by (apply Z.mod_small; lia).
  by rewrite Z.mod_pow2_bits_high, andb_false_r by lia.
Qed.

Lemma lor_low cp c : Z.lor (Z.land c 63) (Z.shiftl cp 6) = cp * 64 + c mod 64.
Proof.
  change 63 with (Z.ones 6). rewrite Z.land_ones by lia. change (2 ^ 6) with 64.
  pose proof (land_low cp (c mod 64) (Z.mod_pos_bound c 64 ltac:(lia))) as Hl.
  rewrite Z.lor_comm, <-Z.lxor_lor, <-Z.add_nocarry_lxor by done.
  by rewrite Z.shiftl_mul_pow2 by lia.
Qed.

(** The state and the code point the decoder may be in. *)
Definition decoding (st cp : Z) : Prop :=
  st ∈ states ∧ (st = 0 ∨ cp_min st <= cp < cp_max st).

Lemma cp_next_mono st cp cp' c : cp <= cp' → cp_next st cp c <= cp_next st cp' c.
Proof. intros. unfold cp_next. destruct (st =? 0); lia. Qed.

Lemma cp_range st cp : decoding st cp → st ≠ 0 → 0 <= cp < 2 ^ 16.
Proof.
  intros [_ [?|Hcp]] Hst; [done|]. unfold cp_min, cp_max in Hcp.
  revert Hcp. repeat case_match; lia.
Qed.

Lemma decode_spec st cp c :
  decoding st cp → decode st cp c = Ret (next st c, cp_next st cp c).
Proof.
  intros Hd. pose proof (step_ok_all st c (proj1 Hd)) as Hs. unfold step_ok in Hs.
  rewrite !andb_true_iff in Hs. destruct Hs as [[[Ht Hi] Hlt] _].
  apply bool_decide_eq_true in Ht as [ty Ht], Hi as [st' Hi].
  assert (nth (Z.to_nat (uchar c)) utf8d 0 = ty) as Hn by (by apply nth_lookup_Some).
  rewrite Hn in *.
  assert (∀ cp, decode st cp c = Ret (st', if negb (st =? 0)
            then Z.lor (Z.land (uchar c) 63) (u32 (Z.shiftl cp 6))
            else Z.land (Z.shiftr 255 ty) (uchar c))) as Hdec.
  { intros cp'. unfold decode. pose proof (uchar_range c).
    rewrite (proj2 (Z.ltb_lt (uchar c) 400)) by lia. cbn [cpp_assert mbind outcome_bind].
    rewrite Ht. cbn [or_undef mbind outcome_bind]. rewrite Hlt.
    cbn [cpp_assert mbind outcome_bind]. by rewrite Hi. }
  unfold next. rewrite !Hdec. do 2 f_equal. unfold cp_next. rewrite Hn.
  destruct (st =? 0) eqn:E; cbn [negb]; [done|]. bool_hyps.
  pose proof (cp_range st cp Hd E). rewrite u32_small; [apply lor_low|].
  rewrite Z.shiftl_mul_pow2 by lia. lia.
Qed.

(** The outcome of a byte: rejected, a code point, or more to come. *)
Inductive byte_case (st cp : Z) (c : ascii) : Prop :=
  | case_reject : next st c = 1 → byte_case st cp c
  | case_ascii : st = 0 → next st c = 0 → cp_next st cp c = uchar c → uchar c < 128 →
      byte_case st cp c
  | case_accept : next st c = 0 → 128 <= cp_next st cp c → 128 <= uchar c →
      byte_case st cp c
  | case_more : next st c ≠ 0 → next st c ≠ 1 → decoding (next st c) (cp_next st cp c) →
      buf_max st + 1 <= buf_max (next st c) → 128 <= uchar c → byte_case st cp c.

Lemma byte_cases st cp c : decoding st cp → byte_case st cp c.
Proof.
  intros [Hst Hcp]. pose proof (step_ok_all st c Hst) as Hs. unfold step_ok in Hs.
  rewrite andb_true_iff in Hs. destruct Hs as [_ Hs].
  destruct (next st c =? 1) eqn:E1; cbn [orb] in Hs; bool_hyps; [by apply case_reject|].
  assert (cp_next st (cp_min st) c <= cp_next st cp c <= cp_next st (cp_max st - 1) c) as Hb.
  { destruct Hcp as [->|?]; [done|]. split; apply cp_next_mono; lia. }
  destruct (next st c =? 0) eqn:E0; bool_hyps.
  - destruct (st =? 0) eqn:E; bool_hyps.
    + apply case_ascii; try done. subst st. unfold cp_next in *. cbn in *. lia.
    + apply case_accept; lia || done.
  - apply case_more; try done. split; [done|]. right. lia.
Qed.

Lemma next_reject c : next 1 c = 1.
Proof.
  apply Z.eqb_eq. revert c. apply (forall_chars (λ c, next 1 c =? 1)). by vm_compute.
Qed.

Lemma dfa_reject s : dfa 1 s = 1.
Proof. induction s as [|c s IH]; [done|]. unfold dfa in *. cbn. by rewrite next_reject. Qed.

(** * Strings *)

(** What a character is written as. *)
Definition esc_char (c : ascii) : bytes :=
  if uchar c =? 8 then bs "\b"
  else if uchar c =? 9 then bs "\t"
  else if uchar c =? 10 then bs "\n"
  else if uchar c =? 12 then bs "\f"
  else if uchar c =? 13 then bs "\r"
  else if uchar c =? 34 then "\"%char :: [DQ]
  else if uchar c =? 92 then bs "\\"
  else if uchar c <=? 31 then bs "\u" ++ hex4 (uchar c)
  else [c].

Definition escape (s : bytes) : bytes := s ≫= esc_char.

Lemma length_esc_char c : (length (esc_char c) <= 6)%nat.
Proof. unfold esc_char. repeat case_match; cbn; lia. Qed.

Lemma put_ok s b : len b + len s <= 512 → put s b = Ret (b ++ s).
Proof. intros. unfold put, kStringBuffer. by rewrite (proj2 (Z.leb_le _ _)). Qed.

Lemma put_accepted_spec cp c b :
  len b <= 502 → cp = uchar c ∧ uchar c < 128 ∨ 128 <= cp ∧ 128 <= uchar c →
  put_accepted cp c b = Ret (b ++ esc_char c).
Proof.
  intros Hb [[-> Hc]|[Hcp Hc]]; unfold put_accepted, esc_char.
  - repeat (case_match; [by apply put_ok; cbn; lia|]).
    case_match; [|by apply put_ok; cbn; lia]. bool_hyps. pose proof (uchar_range c).
    unfold put_u, kStringBuffer, u16. by rewrite (proj2 (Z.leb_le _ _)), Z.mod_small by lia.
  - pose proof (uchar_range c). repeat (case_match; [bool_hyps; lia|]).
    apply put_ok. cbn. lia.
Qed.

Lemma esc_char_high c : 128 <= uchar c → esc_char c = [c].
Proof.
  intros Hc. unfold esc_char. repeat (rewrite (proj2 (Z.eqb_neq (uchar c) _)) by lia).
  by rewrite (proj2 (Z.leb_gt (uchar c) _)) by lia.
Qed.

(** The escaper between two bytes. *)
Record esc_inv (e : escaper) : Prop := {
  esc_decoding : decoding (state e) (codepoint e);
  esc_room : len (string_buffer e) <= buf_max (state e);
}.

(** Everything written so far, the buffer included. *)
Definition esc_out (e : escaper) (t : serializer) : bytes := o t ++ string_buffer e.

Lemma buf_max_le st : buf_max st <= 502.
Proof. unfold buf_max. repeat case_match; lia. Qed.

Lemma escape_byte_spec c e t :
  esc_inv e →
  if next (state e) c =? 1 then escape_byte c e t = Throw (type_error 316)
  else ∃ e' t', escape_byte c e t = Ret (e', t') ∧ state e' = next (state e) c ∧
         esc_inv e' ∧ esc_out e' t' = esc_out e t ++ esc_char c ∧
         indent_string t' = indent_string t.
Proof.
  intros [Hd Hr]. destruct e as [cp st b]. cbn [state codepoint string_buffer] in *.
  unfold escape_byte. cbn [state codepoint string_buffer]. rewrite decode_spec by done.
  cbn [mbind outcome_bind]. unfold UTF8_ACCEPT, UTF8_REJECT. pose proof (buf_max_le st).
  assert (next st c = 0 → cp_next st cp c = uchar c ∧ uchar c < 128 ∨
            128 <= cp_next st cp c ∧ 128 <= uchar c →
          ∃ e' t', (b ← put_accepted (cp_next st cp c) c b;
            if kStringBuffer - len b <? 13 then Ret (Esc (cp_next st cp c) (next st c) [], write b t)
            else Ret (Esc (cp_next st cp c) (next st c) b, t)) = Ret (e', t') ∧
          state e' = next st c ∧ esc_inv e' ∧ esc_out e' t' = (o t ++ b) ++ esc_char c ∧
          indent_string t' = indent_string t) as Haccept.
  { intros Hn Hcp. rewrite put_accepted_spec by (done || lia). cbn [mbind outcome_bind].
    pose proof (length_esc_char c). rewrite Hn. unfold kStringBuffer.
    destruct (_ <? 13) eqn:E; bool_hyps; eexists _, _;
      (split; [done|]; split_and!; [done| |unfold esc_out; cbn; by rewrite ?app_nil_r, app_assoc|done]);
      split; cbn; [split; [by left | by left] | lia | split; [by left | by left] | lia]. }
  destruct (byte_cases st cp c Hd) as [Hn|Hs Hn Hcp Hc|Hn Hcp Hc|Hn0 Hn1 Hd' Hb Hc].
  - rewrite Hn. done.
  - rewrite Hn in *. apply Haccept; auto.
  - rewrite Hn in *. apply Haccept; auto.
  - rewrite (proj2 (Z.eqb_neq _ _) Hn1), (proj2 (Z.eqb_neq _ _) Hn0).
    pose proof (buf_max_le (next st c)). rewrite put_ok by (cbn [length]; lia).
    cbn [mbind outcome_bind]. eexists _, _. split; [done|]. rewrite esc_char_high by done.
    split_and!; [done| |unfold esc_out; cbn; by rewrite app_assoc|done].
    split; cbn; [done|]. len_lia.
Qed.

Lemma escape_loop_spec s e t :
  esc_inv e →
  if dfa (state e) s =? 1 then escape_loop s e t = Throw (type_error 316)
  else ∃ e' t', escape_loop s e t = Ret (e', t') ∧ state e' = dfa (state e) s ∧
         esc_out e' t' = esc_out e t ++ escape s ∧ indent_string t' = indent_string t.
Proof.
  revert e t. induction s as [|c s IH]; intros e t Hi.
  { unfold dfa. cbn. destruct (state e =? 1) eqn:E; bool_hyps.
    - destruct Hi as [[Hst _] _]. rewrite E in Hst. exfalso. revert Hst. by_decide.
    - eexists _, _. by rewrite app_nil_r. }
  change (dfa (state e) (c :: s)) with (dfa (next (state e) c) s).
  pose proof (escape_byte_spec c e t Hi) as Hb. cbn [escape_loop].
  destruct (next (state e) c =? 1) eqn:E; bool_hyps.
  { rewrite E, dfa_reject. cbn. by rewrite Hb. }
  destruct Hb as (e1 & t1 & -> & Hst & Hi1 & Ho1 & Ht1). cbn [mbind outcome_bind].
  specialize (IH e1 t1 Hi1). rewrite Hst in IH. destruct (dfa _ s =? 1); [done|].
  destruct IH as (e' & t' & -> & Hst' & Ho & Ht). exists e', t'.
  split_and!; [done|done| |congruence]. by rewrite Ho, Ho1, <-app_assoc.
Qed.

Lemma dump_escaped_spec s t :
  dump_escaped s t = if utf8_ok s then Ret (write (escape s) t) else Throw (type_error 316).
Proof.
  unfold dump_escaped, utf8_ok, UTF8_ACCEPT.
  assert (esc_inv (Esc 0 0 [])) as Hi by (split; [split; [by left | by left] | done]).
  pose proof (escape_loop_spec s _ t Hi) as Hl. cbn [state] in Hl.
  destruct (dfa 0 s =? 1) eqn:E; bool_hyps.
  { by rewrite Hl, E. }
  destruct Hl as (e & t' & -> & Hst & Ho & Ht). cbn [mbind outcome_bind]. rewrite Hst.
  destruct (dfa 0 s =? 0); [|done]. f_equal. destruct t as [ot it], t' as [ot' it'].
  unfold esc_out, write in *. cbn in *. subst it'. by rewrite Ho, app_nil_r.
Qed.

(** * Integers *)

Lemma utoa_step2 n : 100 <= n → utoa n = utoa (n / 100) ++ digits_to_99 (n mod 100).
Proof.
  intros Hn. rewrite utoa_step by lia.
  rewrite utoa_step by (apply Z.div_le_lower_bound; lia).
  rewrite <-app_assoc. cbn [app]. rewrite Z.div_div by lia. f_equal.
  unfold digits_to_99. f_equal; [|f_equal]; f_equal; Z.div_mod_to_equations; lia.
Qed.

Lemma ndig_step2 n : 100 <= n → ndig n = ndig (n / 100) + 2.
Proof. intros. unfold ndig. rewrite utoa_step2 by done. by rewrite len_app. Qed.

Lemma count_digits_spec fuel x n :
  0 <= x < 10000 ^ Z.of_nat fuel → (0 < fuel)%nat → count_digits fuel x n = Ret (n - 1 + ndig x).
Proof.
  revert x n. induction fuel as [|fuel IH]; intros x n Hx Hf; [lia|]. cbn [count_digits].
  destruct (x <? 10) eqn:E1; bool_hyps; [rewrite ndig_small by lia; f_equal; lia|].
  assert (1 <= x / 10) by (apply Z.div_le_lower_bound; lia).
  assert (∀ k, x < 10 * k → x / 10 < k) as Hlt by (intros; apply Z.div_lt_upper_bound; lia).
  destruct (x <? 100) eqn:E2; bool_hyps.
  { rewrite ndig_step, ndig_small by (specialize (Hlt 10); lia). f_equal. lia. }
  rewrite ndig_step2 by lia.
  assert (1 <= x / 100) by (apply Z.div_le_lower_bound; lia).
  assert (∀ k, x < 100 * k → x / 100 < k) as Hlt2 by (intros; apply Z.div_lt_upper_bound; lia).
  destruct (x <? 1000) eqn:E3; bool_hyps.
  { rewrite ndig_small by (specialize (Hlt2 10); lia). f_equal. lia. }
  assert (10 <= x / 100) by (apply Z.div_le_lower_bound; lia).
  destruct (x <? 10000) eqn:E4; bool_hyps.
  { rewrite ndig_step, ndig_small; [f_equal; lia| |lia].
    specialize (Hlt2 100). split; [apply Z.div_pos; lia|]. apply Z.div_lt_upper_bound; lia. }
  rewrite ndig_step2 by (apply Z.div_le_lower_bound; lia). rewrite Z.div_div by lia.
  destruct fuel as [|fuel]; [cbn in Hx; lia|].
  rewrite (Nat2Z.inj_succ (S fuel)), Z.pow_succ_r in Hx by lia.
  change (100 * 100) with 10000.
  rewrite IH; [f_equal; lia| |lia].
  split; [apply Z.div_pos; lia|]. apply Z.div_lt_upper_bound; lia.
Qed.

(** Writing in front of what was just written. *)
Lemma write_at_before p d1 d2 b :
  0 <= p →
  (b ← write_at (p + len d1) d2 b; write_at p d1 b) = write_at p (d1 ++ d2) b.
Proof.
  intros Hp. unfold write_at.
  rewrite (proj2 (Z.leb_le 0 p)), (proj2 (Z.leb_le 0 (p + len d1))) by lia.
  cbn [andb]. rewrite len_app, Z.add_assoc.
  destruct (p + len d1 + len d2 <=? len b) eqn:E; bool_hyps; [|done].
  cbn [mbind outcome_bind].
  assert (length (take (Z.to_nat (p + len d1)) b) = Z.to_nat p + length d1)%nat as Ht.
  { rewrite length_take. lia. }
  rewrite !length_app, length_drop, Ht. rewrite (proj2 (Z.leb_le _ _)) by lia.
  f_equal. rewrite take_app_le by lia. rewrite take_take. f_equal; [f_equal; lia|].
  rewrite <-app_assoc. f_equal. rewrite drop_app_length' by done.
  f_equal. f_equal. lia.
Qed.

Definition last_digits (abs_value ptr : Z) (b : bytes) : outcome bytes :=
  if 10 <=? abs_value then write_at (ptr - 2) (digits_to_99 abs_value) b
  else write_at (ptr - 1) [char_of (48 + abs_value)] b.

Lemma fill_digits_spec fuel n ptr b :
  0 <= n < 100 ^ Z.of_nat fuel → (0 < fuel)%nat → ndig n <= ptr <= len b →
  ('(n, ptr, b) ← fill_digits fuel n ptr b; last_digits n ptr b) =
  write_at (ptr - ndig n) (utoa n) b.
Proof.
  revert n ptr b. induction fuel as [|fuel IH]; intros n ptr b Hn Hf Hp; [lia|].
  cbn [fill_digits]. destruct (100 <=? n) eqn:E; bool_hyps.
  - assert (1 <= n / 100) by (apply Z.div_le_lower_bound; lia).
    rewrite ndig_step2 in * by lia.
    pose proof (len_zero_nil (utoa (n / 100))) as Hz. pose proof (utoa_nonempty (n / 100)).
    assert (0 < ndig (n / 100)) by (unfold ndig; destruct (utoa (n / 100)); [naive_solver lia|len_lia]).
    rewrite utoa_step2 by lia.
    rewrite <-write_at_before by lia.
    replace (ptr - (ndig (n / 100) + 2) + len (utoa (n / 100))) with (ptr - 2) by (unfold ndig; lia).
    destruct (write_at (ptr - 2) (digits_to_99 (n mod 100)) b) as [b1| | | |] eqn:Hw; cbn; [|done..].
    assert (len b1 = len b) as Hl.
    { unfold write_at in Hw. case_match; [|done]. bool_hyps. injection Hw as <-.
      change (len (digits_to_99 (n mod 100))) with 2 in *. cbn [length digits_to_99].
      autorewrite with len. change (length (digits_to_99 (n mod 100))) with 2%nat. lia. }
    destruct fuel as [|fuel]; [cbn in Hn; lia|].
    rewrite (Nat2Z.inj_succ (S fuel)), Z.pow_succ_r in Hn by lia.
    rewrite IH; [f_equal; lia| |lia|lia].
    split; [lia|]. apply Z.div_lt_upper_bound; lia.
  - cbn [mbind outcome_bind]. unfold last_digits. destruct (10 <=? n) eqn:E2; bool_hyps.
    + assert (0 <= n / 10 < 10).
      { split; [apply Z.div_pos; lia|]. apply Z.div_lt_upper_bound; lia. }
      rewrite ndig_step, ndig_small in * by lia. rewrite utoa_step, utoa_small by lia.
      done.
    + rewrite ndig_small, utoa_small by lia. done.
Qed.

Lemma ndig_bound k n : 0 <= n < 10 ^ Z.of_nat (S k) → 1 <= ndig n <= Z.of_nat (S k).
Proof.
  revert n. induction k as [|k IH]; intros n Hn; [rewrite ndig_small by lia; lia|].
  destruct (Z.lt_ge_cases n 10); [rewrite ndig_small by lia; lia|].
  rewrite ndig_step by done. rewrite (Nat2Z.inj_succ (S k)), Z.pow_succ_r in Hn by lia.
  specialize (IH (n / 10)). rewrite (Nat2Z.inj_succ (S k)).
  destruct IH; [|lia]. split; [apply Z.div_pos; lia|]. apply Z.div_lt_upper_bound; lia.
Qed.

(** Filling the 64 characters from the end of the numeral, behind [sign]. *)
Lemma fill_buffer sign n :
  0 <= n < 2 ^ 64 → len sign <= 1 →
  ('(m, ptr, b) ← fill_digits 11 n (len sign + ndig n) (sign ++ replicate (64 - length sign) NUL);
   b ← last_digits m ptr b;
   read_at 0 (len sign + ndig n) b) = Ret (sign ++ utoa n).
Proof.
  intros Hn Hs. pose proof (ndig_bound 19 n ltac:(lia)) as Hd.
  set (b := sign ++ _). assert (len b = 64) as Hb by (unfold b; len_lia).
  assert (∃ v, write_at (len sign) (utoa n) b = Ret v ∧ ∃ k, v = (sign ++ utoa n) ++ k) as (v & Hv & k & Hk).
  { unfold write_at, ndig in *. rewrite (proj2 (Z.leb_le _ _)), (proj2 (Z.leb_le _ _)) by lia.
    eexists. split; [done|]. unfold b. rewrite take_app_length' by lia. eexists.
    by rewrite app_assoc. }
  pose proof (fill_digits_spec 11 n (len sign + ndig n) b ltac:(lia) ltac:(lia) ltac:(lia)) as Hf.
  replace (len sign + ndig n - ndig n) with (len sign) in Hf by lia. rewrite Hv in Hf.
  destruct (fill_digits _ _ _ _) as [[[n' ptr] b']| | | |]; cbn [mbind outcome_bind] in *; [|done..].
  rewrite Hf. cbn [mbind outcome_bind]. subst v. unfold read_at.
  rewrite (proj2 (Z.leb_le 0 0)) by lia. rewrite (proj2 (Z.leb_le _ _)) by (rewrite !len_app; unfold ndig; lia).
  cbn [andb]. rewrite drop_0. f_equal. rewrite take_app_length'; [done|].
  rewrite length_app. unfold ndig. lia.
Qed.

Lemma integer_chars_itoa (x : Z) :
  - 2 ^ 63 <= x < 2 ^ 64 → integer_chars x = Ret (itoa x).
Proof.
  intros Hx. unfold integer_chars. destruct (x =? 0) eqn:E0; bool_hyps; [by subst x|].
  unfold itoa. destruct (x <? 0) eqn:E; bool_hyps.
  - assert (remove_sign x = - x) as -> by (unfold remove_sign; rewrite u64_small by lia; lia).
    pose proof (ndig_bound 19 (- x) ltac:(lia)).
    change (write_at 0 (bs "-") (replicate 64 NUL)) with (Ret (bs "-" ++ replicate 63 NUL)).
    cbn [mbind outcome_bind]. rewrite count_digits_spec by lia. cbn [mbind outcome_bind].
    replace (1 + (1 - 1 + ndig (- x))) with (len (bs "-") + ndig (- x)) by (cbn; lia).
    rewrite (proj2 (Z.ltb_lt _ _)) by (cbn; lia). cbn [cpp_assert mbind outcome_bind].
    apply (fill_buffer (bs "-")); [lia | done].
  - pose proof (ndig_bound 19 x ltac:(lia)). cbn [mbind outcome_bind].
    rewrite count_digits_spec by lia. cbn [mbind outcome_bind].
    replace (1 - 1 + ndig x) with (len (bs "") + ndig x) by (cbn; lia).
    rewrite (proj2 (Z.ltb_lt _ _)) by (cbn; lia). cbn [cpp_assert mbind outcome_bind].
    apply (fill_buffer []); [lia | done].
Qed.

(** * The text of a value *)

(** A value as the program can hold it: machine integers, objects in key order. *)
Fixpoint json_wf (j : json) : Prop :=
  match j with
  | JInt z => - 2 ^ 63 <= z < 2 ^ 63
  | JUint z => 0 <= z < 2 ^ 64
  | JBinary _ (Some n) => 0 <= n < 2 ^ 64
  | JArray l => foldr (λ x P, json_wf x ∧ P) True l
  | JObject l => in_order l ∧ foldr (λ kv P, json_wf kv.2 ∧ P) True l
  | _ => True
  end.

(** Every string in it, key or value, is UTF-8. *)
Fixpoint json_utf8 (j : json) : bool :=
  match j with
  | JString s => utf8_ok s
  | JArray l => forallb json_utf8 l
  | JObject l => forallb (λ kv, utf8_ok kv.1 && json_utf8 kv.2) l
  | _ => true
  end.

(** The nesting of arrays and objects; a binary value is written as an object. *)
Fixpoint depth (j : json) : Z :=
  match j with
  | JBinary _ _ => 1
  | JArray l => 1 + foldr (λ x d, Z.max (depth x) d) 0 l
  | JObject l => 1 + foldr (λ kv d, Z.max (depth kv.2) d) 0 l
  | _ => 0
  end.

Lemma foldr_and_Forall {A} (P : A → Prop) l : foldr (λ x Q, P x ∧ Q) True l ↔ Forall P l.
Proof. induction l as [|x l IH]; cbn; [done|]. by rewrite IH, Forall_cons. Qed.

Lemma depth_foldr_nonneg {A} (f : A → Z) l : 0 <= foldr (λ x d, Z.max (f x) d) 0 l.
Proof. induction l; cbn; lia. Qed.

Lemma depth_nonneg j : 0 <= depth j.
Proof.
  destruct j as [ | | | | | | |l|l]; cbn; try lia.
  - pose proof (depth_foldr_nonneg depth l). lia.
  - pose proof (depth_foldr_nonneg (λ kv, depth kv.2) l). lia.
Qed.

Lemma max_Forall {A} (f : A → Z) l n :
  foldr (λ x d, Z.max (f x) d) 0 l <= n → Forall (λ x, f x <= n) l.
Proof. induction l as [|x l IH]; cbn; constructor; [lia|]. apply IH. lia. Qed.

Fixpoint joined {A} (f : A → bytes) (sep : bytes) (l : list A) : bytes :=
  match l with
  | [] => []
  | [x] => f x
  | x :: l => f x ++ sep ++ joined f sep l
  end.

Definition quoted (s : bytes) : bytes := DQ :: escape s ++ [DQ].

Section text.
Context (dump_float : spec_float → bytes) (pretty_print : bool) (indent_step : Z).

(** A line break with its indentation. *)
Definition newline (n : Z) : bytes :=
  if pretty_print then LF :: replicate (Z.to_nat n) SP else [].

Definition key_text (key : bytes) : bytes :=
  quoted key ++ (if pretty_print then bs ": " else bs ":").

Definition bytes_text (s : bytes) : bytes :=
  joined (λ c, itoa (uchar c)) (if pretty_print then bs ", " else bs ",") s.
Definition subtype_text (subtype : option Z) : bytes :=
  match subtype with Some n => itoa n | None => bs "null" end.

Fixpoint text (j : json) (cur : Z) : bytes :=
  let inner := if pretty_print then cur + indent_step else cur in
  match j with
  | JNull => bs "null"
  | JBool b => if b then bs "true" else bs "false"
  | JInt z | JUint z => itoa z
  | JFloat f => match f with
                | S754_nan | S754_infinity _ => bs "null"
                | _ => dump_float f
                end
  | JString s => quoted s
  | JBinary s subtype =>
      bs "{" ++ newline inner ++ bytes_key pretty_print ++ bytes_text s ++ bs "]," ++
      newline inner ++ subtype_key pretty_print ++ subtype_text subtype ++ newline cur ++ bs "}"
  | JArray [] => bs "[]"
  | JArray l =>
      bs "[" ++ newline inner ++
      joined (λ x, text x inner) (bs "," ++ newline inner) l ++ newline cur ++ bs "]"
  | JObject [] => bs "{}"
  | JObject l =>
      bs "{" ++ newline inner ++
      joined (λ kv, key_text kv.1 ++ text kv.2 inner) (bs "," ++ newline inner) l ++
      newline cur ++ bs "}"
  end.

(** ** Programs that write *)

(** The indentation string holds blanks, at least as many as it began with. *)
Definition blanks (t : serializer) : Prop :=
  512 <= len (indent_string t) ∧ indent_string t = replicate (length (indent_string t)) SP.

(** Run with [n] columns of indentation at hand, [m] writes [s], or, when [b] is
    false, throws the UTF-8 error. *)
Definition writes (n : Z) (m : serializer → outcome serializer) (b : bool) (s : bytes) : Prop :=
  ∀ t, blanks t → n <= len (indent_string t) →
  if b then ∃ t', m t = Ret t' ∧ o t' = o t ++ s ∧ blanks t' ∧
                  len (indent_string t) <= len (indent_string t')
  else m t = Throw (type_error 316).

Lemma writes_write n s : writes n (λ t, Ret (write s t)) true s.
Proof. intros t Hb Hn. eexists. split; [done|]. split_and!; [done|done|cbn; lia]. Qed.

Lemma writes_bind n m m' b b' s s' :
  writes n m b s → writes n m' b' s' → writes n (λ t, t ← m t; m' t) (b && b') (s ++ s').
Proof.
  intros H H' t Hb Hn. specialize (H t Hb Hn). destruct b; cbn [andb]; [|by rewrite H].
  destruct H as (t1 & -> & Ho1 & Hb1 & Hl1). cbn [mbind outcome_bind].
  specialize (H' t1 Hb1 ltac:(lia)). destruct b'; [|done].
  destruct H' as (t2 & -> & Ho2 & Hb2 & Hl2). exists t2.
  split_and!; [done| |done|lia]. by rewrite Ho2, Ho1, app_assoc.
Qed.

(** A step that is written before another. *)
Lemma writes_then n m b s s' :
  writes n m b s → writes n (λ t, m (write s' t)) b (s' ++ s).
Proof. apply (writes_bind n (λ t, Ret (write s' t)) m true b s' s), writes_write. Qed.

Lemma writes_after n m b s s' :
  writes n m b s → writes n (λ t, t ← m t; Ret (write s' t)) b (s ++ s').
Proof.
  intros H. rewrite <-(andb_true_r b). apply writes_bind; [done|apply writes_write].
Qed.

Lemma writes_indent n k : 0 <= k <= n → writes n (write_indent k) true (replicate (Z.to_nat k) SP).
Proof.
  intros Hk t [Hb Hs] Hn. unfold write_indent, read_at. rewrite len_app. cbn [length].
  rewrite (proj2 (Z.leb_le 0 0)), (proj2 (Z.leb_le _ _)) by lia. cbn [andb mbind outcome_bind].
  eexists. split; [done|]. split_and!; [|done|cbn; lia]. cbn [o write]. f_equal.
  rewrite drop_0, take_app_le, Hs, take_replicate by lia. f_equal. lia.
Qed.

Lemma writes_escaped n s : writes n (dump_escaped s) (utf8_ok s) (escape s).
Proof.
  intros t Hb Hn. rewrite dump_escaped_spec. destruct (utf8_ok s); [|done].
  by apply writes_write with (n := n).
Qed.

Lemma writes_key n k : writes n (dump_key pretty_print k) (utf8_ok k) (key_text k).
Proof.
  unfold dump_key, key_text, quoted.
  change (DQ :: escape k ++ [DQ]) with ([DQ] ++ (escape k ++ [DQ])).
  rewrite <-!app_assoc. rewrite app_assoc.
  apply (writes_after n (λ t, dump_escaped k (write [DQ] t))), writes_then, writes_escaped.
Qed.

Lemma writes_items {A} n (elem : A → serializer → outcome serializer) b f sep l :
  l ≠ [] → Forall (λ x, writes n (elem x) (b x) (f x)) l →
  writes n (dump_items elem sep l) (forallb b l) (joined f sep l).
Proof.
  intros Hne. induction 1 as [|x l Hx Hl IH]; [done|]. destruct l as [|y l].
  { cbn. by rewrite andb_true_r. }
  specialize (IH ltac:(done)).
  change (forallb b (x :: y :: l)) with (b x && forallb b (y :: l)).
  change (joined f sep (x :: y :: l)) with (f x ++ (sep ++ joined f sep (y :: l))).
  change (dump_items elem sep (x :: y :: l))
    with (λ t, t ← elem x t; dump_items elem sep (y :: l) (write sep t)).
  by apply writes_bind, writes_then.
Qed.

Lemma writes_le n n' m b s : n <= n' → writes n m b s → writes n' m b s.
Proof. intros Hn H t Hb Hl. apply H; [done|lia]. Qed.

(** The indentation string is made long enough for one more level. *)
Lemma writes_reserve cur k m b s :
  cur <= k <= cur + 512 → writes k m b s → writes cur (λ t, m (reserve_indent k t)) b s.
Proof.
  intros Hk H t Hb Hn. destruct (Z.lt_ge_cases (len (indent_string t)) k) as [Hlt|Hge].
  - destruct Hb as [Hb Hs]. unfold reserve_indent. rewrite (proj2 (Z.ltb_lt _ _)) by done.
    set (t1 := Ser _ _). assert (blanks t1 ∧ k <= len (indent_string t1)) as [Hb1 Hl1].
    { unfold blanks, t1. cbn [indent_string]. rewrite len_app, len_replicate.
      split; [|lia]. split; [lia|]. rewrite length_app, length_replicate, replicate_add.
      by rewrite <-Hs. }
    specialize (H t1 Hb1 Hl1). destruct b; [|done]. destruct H as (t' & ? & ? & ? & Hl).
    exists t'. split_and!; [done..|]. cbn [t1 indent_string] in Hl.
    rewrite len_app, len_replicate in Hl. lia.
  - unfold reserve_indent. rewrite (proj2 (Z.ltb_ge _ _)) by done. by apply H.
Qed.

Lemma joined_indent {A} (f : A → bytes) sp sep l :
  l ≠ [] → joined (λ x, sp ++ f x) sep l = sp ++ joined f (sep ++ sp) l.
Proof.
  intros Hne. induction l as [|x [|y l] IH]; [done|done|].
  change (joined (λ x, sp ++ f x) sep (x :: y :: l))
    with ((sp ++ f x) ++ sep ++ joined (λ x, sp ++ f x) sep (y :: l)).
  rewrite IH by done. change (joined f (sep ++ sp) (x :: y :: l))
    with (f x ++ (sep ++ sp) ++ joined f (sep ++ sp) (y :: l)).
  by rewrite !app_assoc.
Qed.

(** An array or an object, on lines of its own. *)
Lemma writes_lines {A} (elem : A → serializer → outcome serializer) b f opening closing cur l :
  pretty_print = true → 0 <= indent_step <= 512 → 0 <= cur → l ≠ [] →
  Forall (λ x, writes (cur + indent_step) (elem x) (b x) (f x)) l →
  writes cur (λ t,
    t ← dump_items (λ x t, t ← write_indent (cur + indent_step) t; elem x t)
          (","%char :: [LF]) l (reserve_indent (cur + indent_step) (write (opening :: [LF]) t));
    t ← write_indent cur (write [LF] t);
    Ret (write [closing] t)) (forallb b l)
    ([opening] ++ newline (cur + indent_step) ++
     joined f (bs "," ++ newline (cur + indent_step)) l ++ newline cur ++ [closing]).
Proof.
  intros Hp Hs Hc Hne Hl. set (k := cur + indent_step) in *.
  assert (writes k (dump_items (λ x t, t ← write_indent k t; elem x t) (","%char :: [LF]) l)
            (forallb b l) (joined (λ x, replicate (Z.to_nat k) SP ++ f x) (","%char :: [LF]) l)) as Hi.
  { apply writes_items; [done|]. eapply Forall_impl; [exact Hl|]. cbn. intros x Hx.
    rewrite <-(andb_true_l (b x)). apply writes_bind; [apply writes_indent; lia|done]. }
  rewrite joined_indent in Hi by done.
  assert (writes k (λ t, t ← write_indent cur (write [LF] t); Ret (write [closing] t)) true
            ([LF] ++ replicate (Z.to_nat cur) SP ++ [closing])) as Hc'.
  { rewrite app_assoc. apply writes_after, writes_then, writes_indent. lia. }
  pose proof (writes_bind _ _ _ _ _ _ _ Hi Hc') as H. rewrite andb_true_r in H.
  apply (writes_reserve cur k) in H; [|lia].
  apply (writes_then _ _ _ _ (opening :: [LF])) in H.
  unfold newline. rewrite Hp. cbn [app] in *. rewrite <-!app_assoc in H. exact H.
Qed.

(** The same without line breaks. *)
Lemma writes_flat {A} (elem : A → serializer → outcome serializer) b f opening closing cur l :
  pretty_print = false → l ≠ [] →
  Forall (λ x, writes 0 (elem x) (b x) (f x)) l →
  writes 0 (λ t, t ← dump_items elem (bs ",") l (write [opening] t); Ret (write [closing] t))
    (forallb b l)
    ([opening] ++ newline cur ++ joined f (bs "," ++ newline cur) l ++ newline cur ++ [closing]).
Proof.
  intros Hp Hne Hl. unfold newline. rewrite Hp. rewrite (app_nil_r (bs ",")). cbn [app].
  apply writes_after with (s := opening :: _). by apply (writes_then 0 _ _ _ [opening]), writes_items.
Qed.

Lemma writes_integer n x : - 2 ^ 63 <= x < 2 ^ 64 → writes n (dump_integer x) true (itoa x).
Proof.
  intros Hx t Hb Hn. unfold dump_integer. rewrite integer_chars_itoa by done.
  by apply writes_write with (n := n).
Qed.

Lemma writes_bytes n s : writes n (dump_bytes pretty_print s) true (bytes_text s).
Proof.
  unfold dump_bytes, bytes_text. case_bool_decide as E.
  - subst s. intros t Hb Hn. exists t. split_and!; [done | by rewrite app_nil_r | done | done].
  - replace true with (forallb (λ _ : ascii, true) s) by (clear E; by induction s).
    apply writes_items; [done|]. apply Forall_forall. intros c _. apply writes_integer.
    pose proof (uchar_range c). lia.
Qed.

Lemma writes_subtype n subtype : json_wf (JBinary [] subtype) →
  writes n (dump_subtype subtype) true (subtype_text subtype).
Proof.
  destruct subtype as [z|]; cbn; intros H; [apply writes_integer; lia | apply writes_write].
Qed.

(** The columns [dump] may be called at. *)
Definition indentable (cur d : Z) : Prop :=
  pretty_print = true → 0 <= indent_step <= 512 ∧ 0 <= cur ∧ cur + indent_step * d < 2 ^ 32.

Lemma indentable_inner cur d d' :
  indentable cur (1 + d) → 0 <= d' <= d → pretty_print = true →
  u32 (cur + indent_step) = cur + indent_step ∧ indentable (cur + indent_step) d'.
Proof.
  intros H Hd Hp. destruct (H Hp) as (Hs & Hc & Hb).
  split; [apply u32_small; nia | intros _; nia].
Qed.

Definition columns (cur : Z) : Z := if pretty_print then cur else 0.

Definition dumps (j : json) : Prop := ∀ cur,
  json_wf j → indentable cur (depth j) →
  writes (columns cur) (dump dump_float pretty_print indent_step j cur) (json_utf8 j) (text j cur).

Lemma writes_binary s subtype cur : json_wf (JBinary [] subtype) → indentable cur 1 →
  writes (columns cur)
    (dump_binary pretty_print s subtype cur (u32 (cur + indent_step)))
    true (text (JBinary s subtype) cur).
Proof.
  intros Hwf Hi. unfold dump_binary, columns. cbn [text].
  pose proof (λ n, writes_bytes n s) as Hb. pose proof (λ n, writes_subtype n _ Hwf) as Hsub.
  unfold newline. destruct pretty_print eqn:Hp.
  - destruct (indentable_inner cur 0 0 Hi ltac:(lia) Hp) as [-> _].
    destruct (Hi Hp) as (Hs & Hc & _). set (k := cur + indent_step) in *.
    assert (writes k (write_indent k) true (replicate (Z.to_nat k) SP)) as H1 by (apply writes_indent; lia).
    assert (writes k (λ t, t ← write_indent cur (write [LF] t); Ret (write (bs "}") t)) true
      (([LF] ++ replicate (Z.to_nat cur) SP) ++ bs "}")) as H2
      by (apply writes_after, writes_then, writes_indent; lia).
    pose proof (writes_then k _ _ _ (subtype_key true) (Hsub k)) as H3.
    pose proof (writes_then k _ _ _ (bs "]," ++ [LF]) H1) as H4.
    pose proof (writes_then k _ _ _ (bytes_key true) (Hb k)) as H5.
    pose proof (writes_bind k _ _ _ _ _ _ H1 (writes_bind k _ _ _ _ _ _ H5
      (writes_bind k _ _ _ _ _ _ H4 (writes_bind k _ _ _ _ _ _ H3 H2)))) as H.
    apply (writes_reserve cur k) in H; [|lia].
    apply (writes_then _ _ _ _ ("{"%char :: [LF])) in H. cbn [app andb] in *.
    rewrite <-!app_assoc in H. cbn [app] in *. exact H.
  - pose proof (writes_then 0 _ _ _ ("{"%char :: bytes_key false) (Hb 0)) as H1.
    pose proof (writes_then 0 _ _ _ (bs "]," ++ subtype_key false) (Hsub 0)) as H2.
    pose proof (writes_bind 0 _ _ _ _ _ _ H1 (writes_after 0 _ _ _ (bs "}") H2)) as H.
    cbn [app andb] in *. rewrite <-!app_assoc in H. cbn [app] in *. exact H.
Qed.

(** The elements of a container, one level further in. *)
Lemma dumps_inner {A} (get : A → json) (l : list A) cur :
  Forall (λ x, dumps (get x)) l → Forall (λ x, json_wf (get x)) l → pretty_print = true →
  indentable cur (1 + foldr (λ x d, Z.max (depth (get x)) d) 0 l) →
  Forall (λ x, writes (cur + indent_step)
     (dump dump_float pretty_print indent_step (get x) (cur + indent_step))
     (json_utf8 (get x)) (text (get x) (cur + indent_step))) l.
Proof.
  intros Hd Hwf Hp Hi. pose proof (max_Forall (λ x, depth (get x)) l _ (Z.le_refl _)) as Hm.
  rewrite Forall_forall in *. intros x Hx. pose proof (depth_nonneg (get x)).
  destruct (indentable_inner cur _ (depth (get x)) Hi) as [_ Hi']; [split; [done|]; by apply Hm | done |].
  pose proof (Hd x Hx _ (Hwf x Hx) Hi') as H'. unfold columns in H'. by rewrite Hp in H' |- *.
Qed.

Lemma dumps_flat {A} (get : A → json) (l : list A) cur :
  Forall (λ x, dumps (get x)) l → Forall (λ x, json_wf (get x)) l → pretty_print = false →
  Forall (λ x, writes 0 (dump dump_float pretty_print indent_step (get x) cur)
     (json_utf8 (get x)) (text (get x) cur)) l.
Proof.
  intros Hd Hwf Hp. rewrite Forall_forall in *. intros x Hx.
  pose proof (Hd x Hx cur (Hwf x Hx)) as H'. unfold columns, indentable in H'. rewrite Hp in *.
  by apply H'.
Qed.

Lemma dump_writes j : dumps j.
Proof.
  induction j as [ |b|z|z|f|s|s st|l IH|l IH] using json_ind'; intros cur Hwf Hi;
    try (by apply (writes_write _ (bs _))).
  - destruct b; apply writes_write.
  - apply writes_integer. cbn in Hwf. lia.
  - apply writes_integer. cbn in Hwf. lia.
  - cbn. destruct f; apply writes_write.
  - change (text (JString s) cur) with ([DQ] ++ escape s ++ [DQ]). rewrite app_assoc.
    apply (writes_after _ (λ t, dump_escaped s (write [DQ] t))), writes_then, writes_escaped.
  - by apply writes_binary.
  - destruct l as [|x l]; [apply (writes_write _ (bs "[]"))|].
    apply (foldr_and_Forall json_wf) in Hwf.
    unfold columns. cbn [dump text json_utf8]. set (l' := x :: l) in *.
    destruct pretty_print eqn:Hp.
    + destruct (indentable_inner cur _ 0 Hi) as [-> _]; [split; [done|]; apply depth_foldr_nonneg|done|].
      destruct (Hi Hp) as (? & ? & _).
      apply (writes_lines _ json_utf8 _ "[" "]"); [done..|].
      pose proof (dumps_inner (λ x, x) l' cur IH Hwf Hp Hi) as Hd. rewrite Hp in Hd. exact Hd.
    + apply (writes_flat _ json_utf8 _ "[" "]"); [done..|].
      pose proof (dumps_flat (λ x, x) l' cur IH Hwf Hp) as Hd. rewrite Hp in Hd. exact Hd.
  - destruct l as [|x l]; [apply (writes_write _ (bs "{}"))|].
    destruct Hwf as [_ Hwf]. apply (foldr_and_Forall (λ kv, json_wf kv.2)) in Hwf.
    unfold columns. cbn [dump text json_utf8]. set (l' := x :: l) in *.
    destruct pretty_print eqn:Hp.
    + destruct (indentable_inner cur _ 0 Hi) as [-> _]; [split; [done|]; apply depth_foldr_nonneg|done|].
      destruct (Hi Hp) as (? & ? & _).
      apply (writes_lines _ (λ kv, utf8_ok kv.1 && json_utf8 kv.2) _ "{" "}"); [done..|].
      eapply Forall_impl; [exact (dumps_inner snd l' cur IH Hwf Hp Hi)|]. intros kv Hkv.
      rewrite Hp in Hkv. apply writes_bind; [|exact Hkv].
      pose proof writes_key as Hk. rewrite Hp in Hk. apply Hk.
    + apply (writes_flat _ (λ kv, utf8_ok kv.1 && json_utf8 kv.2) _ "{" "}"); [done..|].
      eapply Forall_impl; [exact (dumps_flat snd l' cur IH Hwf Hp)|]. intros kv Hkv.
      rewrite Hp in Hkv. apply writes_bind; [|exact Hkv].
      pose proof writes_key as Hk. rewrite Hp in Hk. apply Hk.
Qed.

End text.

(** What [dump(indent)] returns. *)
Definition json_text (dump_float : spec_float → bytes) (indent : Z) (j : json) : bytes :=
  if 0 <=? indent then text dump_float true indent j 0 else text dump_float false 0 j 0.

(** The indentations that fit the 32 bits of [indent_step] and [current_indent]. *)
Definition indent_fits (indent : Z) (j : json) : Prop :=
  indent <= 512 ∧ indent * depth j < 2 ^ 32.

Lemma blanks_make : blanks make_serializer.
Proof. split; cbn [indent_string make_serializer]; [by rewrite len_replicate | by rewrite length_replicate]. Qed.

Lemma json_dump_text dump_float indent j :
  json_wf j → indent_fits indent j →
  json_dump dump_float indent j =
    if json_utf8 j then Ret (json_text dump_float indent j) else Throw (type_error 316).
Proof.
  intros Hwf [Hi Hd]. unfold json_dump, json_text.
  assert (∀ pretty step, (pretty = true → 0 <= step <= 512 ∧ step * depth j < 2 ^ 32) →
    (t ← dump dump_float pretty step j 0 make_serializer; Ret (o t)) =
      if json_utf8 j then Ret (text dump_float pretty step j 0) else Throw (type_error 316)) as H.
  { intros pretty step Hs.
    pose proof (dump_writes dump_float pretty step j 0 Hwf) as Hw.
    specialize (Hw ltac:(intros Hp; specialize (Hs Hp); lia) make_serializer blanks_make).
    unfold columns in Hw. specialize (Hw ltac:(destruct pretty; cbn; lia)).
    destruct (json_utf8 j); [|by rewrite Hw]. destruct Hw as (t & -> & Ho & _).
    cbn [mbind outcome_bind]. by rewrite Ho. }
  destruct (0 <=? indent) eqn:E; bool_hyps; [|by apply H].
  rewrite u32_small by lia. apply H. lia.
Qed.
