(* ===== verification/JsonPointer.v ===== *)
(** * JSON pointers (src/cppboot/base/internal/json/json.hpp, [json_pointer])

    RFC 6901 as the JSON library has it: a pointer is the list of its reference
    tokens, the constructor splits and unescapes a string, [to_string] writes
    it back.  [get_checked], [get_unchecked] and [get_and_create] walk a value
    with one reference per token; a reference is modelled by what it refers to
    and what the whole value becomes when it is assigned to.  [flatten] and
    [unflatten] turn a document into the list of its leaves and back.

    Theorems: reading and writing a pointer are inverse, [unflatten] inverts
    [flatten], [contains] is what [at] finds. *)

From S2P Require Import Prelude StdString JsonValue.

(** ** Escaping *)

(** [replace_substring(s, f, t)].  The text before [pos] is not looked at
    again, so the loop is given what is left of [s] from [pos] on. *)
Fixpoint replace_loop (fuel : nat) (f t rest : bytes) : bytes :=
  match fuel with
  | O => rest
  | S fuel =>
      match search f rest 0 with
      | None => rest
      | Some n => take n rest ++ t ++ replace_loop fuel f t (drop (n + length f) rest)
      end
  end.
Definition replace_substring (s f t : bytes) : bytes := replace_loop (S (length s)) f t s.

Definition escape (s : bytes) : bytes :=
  let s := replace_substring s (bs "~") (bs "~0") in
  replace_substring s (bs "/") (bs "~1").

Definition unescape (s : bytes) : bytes :=
  let s := replace_substring s (bs "~1") (bs "/") in
  replace_substring s (bs "~0") (bs "~").

(** ** The pointer: its [reference_tokens] *)
Definition json_pointer : Type := list bytes.

Definition to_string (ptr : json_pointer) : bytes :=
  foldl (λ a b, a ++ "/"%char :: escape b) [] ptr.

(** Every ['~'] of a token, from [pos] on, is followed by 0 or 1. *)
Fixpoint check_escapes (fuel : nat) (token : bytes) (pos : Z) : outcome unit :=
  if pos =? npos then Ret tt else
  match fuel with
  | O => OutOfFuel
  | S fuel =>
      let escaped :=
        match token !! Z.to_nat (pos + 1) with
        | Some c => is_char "0" c || is_char "1" c
        | None => false
        end in
      if (pos =? len token - 1) || negb escaped then Throw (json_exception 108)
      else check_escapes fuel token (str_find_char token "~" (pos + 1))
  end.

(** The loop of [split]. *)
Fixpoint split_tokens (fuel : nat) (s : bytes) (slash start : Z) (result : json_pointer)
  : outcome json_pointer :=
  if start =? 0 then Ret result else
  match fuel with
  | O => OutOfFuel
  | S fuel =>
      reference_token ← str_substr s start (u64 (slash - start));
      _ ← check_escapes (S (length reference_token)) reference_token
            (str_find_char reference_token "~" 0);
      let result := result ++ [unescape reference_token] in
      let start := if slash =? npos then 0 else slash + 1 in
      split_tokens fuel s (str_find_char s "/" start) start result
  end.

Definition split (s : bytes) : outcome json_pointer :=
  match s with
  | [] => Ret []
  | c :: _ =>
      if negb (is_char "/" c) then Throw (json_exception 107)
      else split_tokens (S (length s)) s (str_find_char s "/" 1) 1 []
  end.

Definition empty (ptr : json_pointer) : bool := bool_decide (ptr = []).

Definition pop_back (ptr : json_pointer) : outcome json_pointer :=
  if empty ptr then Throw (json_exception 405) else Ret (take (length ptr - 1) ptr).

Definition back (ptr : json_pointer) : outcome bytes :=
  match last ptr with None => Throw (json_exception 405) | Some token => Ret token end.

Definition parent_pointer (ptr : json_pointer) : outcome json_pointer :=
  if empty ptr then Ret ptr else pop_back ptr.

Definition top (ptr : json_pointer) : outcome json_pointer :=
  match ptr with [] => Throw (json_exception 405) | token :: _ => Ret [token] end.

(** [operator/] with a pointer, a token and an index. *)
Definition slash_pointer (lhs rhs : json_pointer) : json_pointer := lhs ++ rhs.
Definition slash_token (lhs : json_pointer) (token : bytes) : json_pointer := lhs ++ [token].
Definition slash_index (lhs : json_pointer) (array_idx : Z) : json_pointer :=
  slash_token lhs (utoa array_idx).

(** ** Array indices *)

Definition ULLONG_MAX : Z := 2 ^ 64 - 1.

(** [strtoull(s, &end, 10)]: the result, how many characters it took, and
    whether it set [errno] to [ERANGE].  A NUL ends the digits as any other
    character does. *)
Definition strtoull (s : bytes) : Z * Z * bool :=
  let '(negative, l) :=
    match skip_spaces s with
    | c :: l => if bool_decide (c = "-"%char) then (true, l)
                else if bool_decide (c = "+"%char) then (false, l) else (false, c :: l)
    | [] => (false, [])
    end in
  let '(ds, rest) := digits l in
  if bool_decide (ds = []) then (0, 0, false)
  else if ULLONG_MAX <? dec_value ds then (ULLONG_MAX, len s - len rest, true)
  else (if negative : bool then u64 (- dec_value ds) else dec_value ds,
        len s - len rest, false).

Definition nonzero_digit (c : ascii) : bool := (49 <=? uchar c) && (uchar c <=? 57).

Definition array_index (s : bytes) : outcome Z :=
  let s0 := s !! 0%nat in
  if (1 <? len s) && bool_decide (s0 = Some "0"%char) then Throw (json_exception 106)
  else if (1 <? len s) && negb (from_option nonzero_digit false s0) then Throw (json_exception 109)
  else
    let '(res, read, erange) := strtoull s in
    if (read =? 0) || erange || negb (read =? len s) then Throw (json_exception 404)
    else if ULLONG_MAX <=? res then Throw (json_exception 410)
    else Ret res.

(** ** References into a value *)

(** What a reference refers to, and the whole value once it is assigned. *)
Definition reference : Type := json * (json → json).

Definition member_ref (token : bytes) (l : list (bytes * json)) (v : json) : reference :=
  (v, λ v, JObject (member_set token v l)).
Definition element_ref (i : nat) (l : list json) (v : json) : reference :=
  (v, λ v, JArray (<[i := v]> l)).

(** [at(key)], [at(idx)] *)
Definition at_key (token : bytes) (j : json) : outcome reference :=
  match j with
  | JObject l =>
      match member_get token l with
      | None => Throw (json_exception 403)
      | Some v => Ret (member_ref token l v)
      end
  | _ => Throw (json_exception 304)
  end.
Definition at_idx (idx : Z) (j : json) : outcome reference :=
  match j with
  | JArray l =>
      match l !! Z.to_nat idx with
      | None => Throw (json_exception 401)
      | Some v => Ret (element_ref (Z.to_nat idx) l v)
      end
  | _ => Throw (json_exception 304)
  end.

(** [operator[](key)], [operator[](idx)] of a value that may be changed: a null
    becomes a container, a missing member or element is made, with nulls. *)
Definition index_key (token : bytes) (j : json) : outcome reference :=
  '(j, v) ← json_index token j;
  match j with JObject l => Ret (member_ref token l v) | _ => Throw (json_exception 305) end.
Definition index_idx (idx : Z) (j : json) : outcome reference :=
  let i := Z.to_nat idx in
  match (match j with JNull => JArray [] | _ => j end) with
  | JArray l =>
      let l := l ++ replicate (i + 1 - length l) JNull in
      Ret (element_ref i l (default JNull (l !! i)))
  | _ => Throw (json_exception 305)
  end.

(** The same of a [const] value: a missing key fails an assertion, a missing
    element is read out of bounds. *)
Definition const_index_key (token : bytes) (j : json) : outcome json :=
  match j with
  | JObject l => match member_get token l with Some v => Ret v | None => Crash end
  | _ => Throw (json_exception 305)
  end.
Definition const_index_idx (idx : Z) (j : json) : outcome json :=
  match j with
  | JArray l => or_undef (l !! Z.to_nat idx)
  | _ => Throw (json_exception 305)
  end.

(** One token of each walk. *)
Definition step_checked (token : bytes) (j : json) : outcome reference :=
  match j with
  | JObject _ => at_key token j
  | JArray _ =>
      if bool_decide (token = bs "-") then Throw (json_exception 402)
      else idx ← array_index token; at_idx idx j
  | _ => Throw (json_exception 404)
  end.

Definition step_unchecked (token : bytes) (j : json) : outcome reference :=
  let j :=
    match j with
    | JNull =>
        if forallb is_digit_char token || bool_decide (token = bs "-")
        then JArray [] else JObject []
    | _ => j
    end in
  match j with
  | JObject _ => index_key token j
  | JArray l =>
      if bool_decide (token = bs "-") then index_idx (len l) j
      else idx ← array_index token; index_idx idx j
  | _ => Throw (json_exception 404)
  end.

Definition step_create (token : bytes) (j : json) : outcome reference :=
  match j with
  | JNull => if bool_decide (token = bs "0") then index_idx 0 j else index_key token j
  | JObject _ => index_key token j
  | JArray _ => idx ← array_index token; index_idx idx j
  | _ => Throw (json_exception 313)
  end.

Definition step_const (token : bytes) (j : json) : outcome json :=
  match j with
  | JObject _ => const_index_key token j
  | JArray _ =>
      if bool_decide (token = bs "-") then Throw (json_exception 402)
      else idx ← array_index token; const_index_idx idx j
  | _ => Throw (json_exception 404)
  end.

(** [for (const auto& reference_token : reference_tokens)], with references. *)
Fixpoint follow (step : bytes → json → outcome reference) (ptr : json_pointer) (j : json)
  : outcome reference :=
  match ptr with
  | [] => Ret (j, λ v, v)
  | token :: ptr =>
      '(c, put) ← step token j;
      '(v, put') ← follow step ptr c;
      Ret (v, λ v, put (put' v))
  end.

Definition get_checked : json_pointer → json → outcome reference := follow step_checked.
Definition get_unchecked : json_pointer → json → outcome reference := follow step_unchecked.
Definition get_and_create : json_pointer → json → outcome reference := follow step_create.
Fixpoint get_unchecked_const (ptr : json_pointer) (j : json) : outcome json :=
  match ptr with
  | [] => Ret j
  | token :: ptr => c ← step_const token j; get_unchecked_const ptr c
  end.

(** [at(ptr)] of a [const] value, [j[ptr] = v]. *)
Definition at_pointer (ptr : json_pointer) (j : json) : outcome json :=
  '(v, _) ← get_checked ptr j; Ret v.
Definition set_pointer (ptr : json_pointer) (v : json) (j : json) : outcome json :=
  '(_, put) ← get_unchecked ptr j; Ret (put v).

(** The tests [contains] makes of a token before it takes it for an index. *)
Definition index_token (token : bytes) : bool :=
  if bool_decide (token = bs "-") then false
  else match token with
  | [] => true
  | [c] => is_digit_char c
  | c :: rest => nonzero_digit c && forallb is_digit_char rest
  end.

Fixpoint contains (ptr : json_pointer) (j : json) : outcome bool :=
  match ptr with
  | [] => Ret true
  | token :: ptr =>
      match j with
      | JObject l =>
          match member_get token l with
          | None => Ret false
          | Some v => contains ptr v
          end
      | JArray l =>
          if negb (index_token token) then Ret false
          else
            idx ← array_index token;
            match l !! Z.to_nat idx with
            | None => Ret false
            | Some v => contains ptr v
            end
      | _ => Ret false
      end
  end.

(** ** Flattening *)

Definition is_primitive (j : json) : bool :=
  match j with JArray _ | JObject _ => false | _ => true end.

(** Adds the leaves of [value] to the members [result]. *)
Fixpoint flatten_into (reference_string : bytes) (value : json) (result : list (bytes * json))
  : list (bytes * json) :=
  match value with
  | JArray [] | JObject [] => member_set reference_string JNull result
  | JArray l =>
      (fix go (l : list json) (i : Z) result :=
         match l with
         | [] => result
         | v :: l => go l (i + 1)
                       (flatten_into (reference_string ++ "/"%char :: utoa i) v result)
         end) l 0 result
  | JObject l =>
      (fix go (l : list (bytes * json)) result :=
         match l with
         | [] => result
         | (k, v) :: l => go l (flatten_into (reference_string ++ "/"%char :: escape k) v result)
         end) l result
  | _ => member_set reference_string value result
  end.

Definition flatten (j : json) : json := JObject (flatten_into [] j []).

Fixpoint unflatten_members (l : list (bytes * json)) (result : json) : outcome json :=
  match l with
  | [] => Ret result
  | (k, v) :: l =>
      if negb (is_primitive v) then Throw (json_exception 315)
      else
        ptr ← split k;
        '(_, put) ← get_and_create ptr result;
        unflatten_members l (put v)
  end.

Definition unflatten (value : json) : outcome json :=
  match value with
  | JObject l => unflatten_members l JNull
  | _ => Throw (json_exception 314)
  end.

(** ** Documents that JSON pointers reach all of

    Keys in order, as in every [std::map]; fewer elements than [array_index]
    takes; every path shorter than [npos]. *)

Fixpoint keys_sorted (l : list (bytes * json)) : bool :=
  match l with
  | (k, _) :: l =>
      match l with
      | (k', _) :: _ => match bytes_cmp k k' with Lt => true | _ => false end
      | [] => true
      end && keys_sorted l
  | [] => true
  end.

Fixpoint addressable (path : bytes) (j : json) : bool :=
  (len path <? npos) &&
  match j with
  | JArray l =>
      (len (path ++ bs "/-") <? npos) && (len l <? ULLONG_MAX) &&
      (fix go (l : list json) (i : Z) : bool :=
         match l with
         | [] => true
         | x :: l => addressable (path ++ "/"%char :: utoa i) x && go l (i + 1)
         end) l 0
  | JObject l =>
      keys_sorted l &&
      (fix go (l : list (bytes * json)) : bool :=
         match l with
         | [] => true
         | (k, x) :: l => addressable (path ++ "/"%char :: escape k) x && go l
         end) l
  | _ => true
  end.

(** What [flatten] keeps: an empty container becomes null. *)
Fixpoint blank (j : json) : json :=
  match j with
  | JArray [] | JObject [] => JNull
  | JArray l => JArray (map blank l)
  | JObject l => JObject (map (λ '(k, v), (k, blank v)) l)
  | _ => j
  end.

(** No member has the key that [get_and_create] takes for the start of an array. *)
Fixpoint no_zero_key (j : json) : bool :=
  match j with
  | JArray l => forallb no_zero_key l
  | JObject l => forallb (λ '(k, v), negb (bool_decide (k = bs "0")) && no_zero_key v) l
  | _ => true
  end.

(** ** The leaves of a document *)

Definition is_leaf (j : json) : bool :=
  match j with JArray (_ :: _) | JObject (_ :: _) => false | _ => true end.

#[warnings="-register-all"]
Inductive leaf_path : json → json_pointer → json → Prop :=
  | lp_leaf j : is_leaf j = true → leaf_path j [] (blank j)
  | lp_array l i x p v : l !! i = Some x → leaf_path x p v →
      leaf_path (JArray l) (utoa (Z.of_nat i) :: p) v
  | lp_object l k x p v : (k, x) ∈ l → leaf_path x p v → leaf_path (JObject l) (k :: p) v.

(** What follows [token] in the pointers of a set. *)
Definition tails (token : bytes) (D : list json_pointer) : list json_pointer :=
  omap (λ p, match p with
             | t :: p => if bool_decide (t = token) then Some p else None
             | [] => None
             end) D.
Arguments tails : simpl never.

(** The value that is there when the leaves in [D] have been put in. *)
#[warnings="-register-all"]
Inductive grown : list json_pointer → json → json → Prop :=
  | g_none j : grown [] j JNull
  | g_leaf D j : is_leaf j = true → D ≠ [] → grown D j (blank j)
  | g_array D l m : D ≠ [] → l ≠ [] → (length m ≤ length l)%nat →
      (∀ i x y, l !! i = Some x → m !! i = Some y → grown (tails (utoa (Z.of_nat i)) D) x y) →
      (∀ i, (length m ≤ i)%nat → tails (utoa (Z.of_nat i)) D = []) →
      grown D (JArray l) (JArray m)
  | g_object D l m : D ≠ [] → l ≠ [] → in_order m →
      (∀ k y, member_get k m = Some y → ∃ x, member_get k l = Some x ∧ grown (tails k D) x y) →
      (∀ k, member_get k m = None → tails k D = []) →
      grown D (JObject l) (JObject m).

(** * Escaping *)

Lemma replace_loop_hit fuel f t rest :
  replace_loop (S fuel) f t (f ++ rest) = t ++ replace_loop fuel f t rest.
Proof.
  cbn [replace_loop].
  assert (search f (f ++ rest) 0 = Some 0%nat) as ->.
  { destruct (f ++ rest) eqn:E; cbn; rewrite bool_decide_true; try done;
      rewrite <-E; by apply prefix_app_r. }
  cbn. by rewrite drop_app_length.
Qed.

Lemma replace_loop_miss fuel f t c rest : ¬ f `prefix_of` c :: rest →
  replace_loop (S fuel) f t (c :: rest) = c :: replace_loop (S fuel) f t rest.
Proof.
  intros Hf. cbn [replace_loop search]. rewrite bool_decide_false by done.
  rewrite search_shift. by destruct (search f rest 0).
Qed.

Lemma replace_loop_nil fuel f t : f ≠ [] → replace_loop fuel f t [] = [].
Proof.
  intros Hf. destruct fuel; [done|]. cbn. by rewrite bool_decide_false by (by intros ?%prefix_nil_inv).
Qed.

(** Replacing a pattern of one character, and of two. *)
Definition subst_char (a : ascii) (t : bytes) (c : ascii) : bytes :=
  if bool_decide (c = a) then t else [c].

Lemma replace_char a t s : replace_substring s [a] t = s ≫= subst_char a t.
Proof.
  unfold replace_substring. assert (length s < S (length s))%nat as Hf by lia. revert Hf.
  generalize (S (length s)) as fuel. induction s as [|c s IH]; intros fuel Hf.
  { by rewrite replace_loop_nil. }
  destruct fuel as [|fuel]; [lia|]. cbn in Hf. cbn [mbind list_bind].
  unfold subst_char at 1. case_bool_decide as Hc.
  - subst c. rewrite (replace_loop_hit _ [a] t s). rewrite IH by lia. done.
  - rewrite replace_loop_miss; [rewrite IH by lia; done|]. intros [? [= ->]]. done.
Qed.

Fixpoint subst2 (a b : ascii) (t : bytes) (l : bytes) : bytes :=
  match l with
  | c :: l' =>
      match l' with
      | d :: l'' => if bool_decide (c = a ∧ d = b) then t ++ subst2 a b t l'' else c :: subst2 a b t l'
      | [] => [c]
      end
  | [] => []
  end.

Lemma subst2_cons a b t c d l : subst2 a b t (c :: d :: l) =
  if bool_decide (c = a ∧ d = b) then t ++ subst2 a b t l else c :: subst2 a b t (d :: l).
Proof. done. Qed.

Lemma replace_pair a b t s : replace_substring s [a; b] t = subst2 a b t s.
Proof.
  unfold replace_substring. assert (length s < S (length s))%nat as Hf by lia. revert Hf.
  generalize (S (length s)) as fuel.
  induction s as [s IH] using (induction_ltof1 _ length); unfold ltof in IH.
  intros fuel Hf. destruct fuel as [|fuel]; [lia|].
  destruct s as [|c [|d s]].
  - by rewrite replace_loop_nil.
  - rewrite replace_loop_miss by (by intros [? [=]]). by rewrite replace_loop_nil.
  - rewrite subst2_cons. case_bool_decide as Hc.
    + destruct Hc as [-> ->]. rewrite (replace_loop_hit _ [a; b] t s), IH; cbn in *; [done|lia|lia].
    + rewrite replace_loop_miss by (intros [? [= -> -> _]]; auto). f_equal.
      rewrite IH; cbn in *; [done|lia|lia].
Qed.

Definition escape_char (c : ascii) : bytes :=
  if bool_decide (c = "~"%char) then bs "~0"
  else if bool_decide (c = "/"%char) then bs "~1" else [c].

Lemma escape_chars s : escape s = s ≫= escape_char.
Proof.
  unfold escape. cbn [String.list_ascii_of_string]. rewrite !replace_char. induction s as [|c s IH]; [done|].
  cbn [mbind list_bind]. rewrite bind_app, IH. f_equal. unfold subst_char at 2, escape_char.
  case_bool_decide; [done|]. cbn. by rewrite app_nil_r.
Qed.

(** [unescape] reads the two escapes from left to right. *)
Fixpoint unescape_chars (s : bytes) : bytes :=
  match s with
  | c :: s' =>
      match s' with
      | d :: s'' =>
          if bool_decide (c = "~"%char ∧ d = "1"%char) then "/"%char :: unescape_chars s''
          else if bool_decide (c = "~"%char ∧ d = "0"%char) then "~"%char :: unescape_chars s''
          else c :: unescape_chars s'
      | [] => [c]
      end
  | [] => []
  end.

Lemma unescape_chars_cons2 c d l : unescape_chars (c :: d :: l) =
  if bool_decide (c = "~"%char ∧ d = "1"%char) then "/"%char :: unescape_chars l
  else if bool_decide (c = "~"%char ∧ d = "0"%char) then "~"%char :: unescape_chars l
  else c :: unescape_chars (d :: l).
Proof. done. Qed.

Lemma unescape_spec s : unescape s = unescape_chars s.
Proof.
  unfold unescape. cbn [String.list_ascii_of_string]. rewrite !replace_pair.
  induction s as [s IH] using (induction_ltof1 _ length); unfold ltof in IH.
  destruct s as [|c [|d s]]; [done | done|].
  rewrite subst2_cons, unescape_chars_cons2. case_bool_decide as H1.
  { rewrite <-IH by (cbn; lia). cbn [app]. by destruct (subst2 "~" "1" ["/"%char] s). }
  pose proof (IH (d :: s) ltac:(cbn; lia)) as IH1.
  case_bool_decide as H0.
  - destruct H0 as [-> ->]. rewrite <-IH by (cbn; lia).
    assert (subst2 "~" "1" ["/"%char] ("0"%char :: s) = "0"%char :: subst2 "~" "1" ["/"%char] s) as ->
      by (destruct s; [done|]; rewrite subst2_cons; by rewrite bool_decide_false by (by intros [? _])).
    rewrite subst2_cons. by rewrite bool_decide_true.
  - rewrite <-IH1. remember (subst2 "~" "1" ["/"%char] (d :: s)) as r eqn:Hr.
    destruct r as [|x r]; [done|]. rewrite subst2_cons.
    rewrite bool_decide_false; [done|]. intros [-> ->]. apply H0. split; [done|].
    destruct s as [|e s]; [by injection Hr|]. rewrite subst2_cons in Hr.
    case_bool_decide; [done | by injection Hr].
Qed.

Lemma escape_char_cons c s : escape (c :: s) = escape_char c ++ escape s.
Proof. by rewrite !escape_chars. Qed.

Lemma unescape_chars_cons c s : c ≠ "~"%char → unescape_chars (c :: s) = c :: unescape_chars s.
Proof. intros Hc. destruct s; [done|]. cbn. by rewrite !bool_decide_false by (by intros [? _]). Qed.

Lemma unescape_escape s : unescape (escape s) = s.
Proof.
  rewrite unescape_spec. induction s as [|c s IH]; [done|]. rewrite escape_char_cons. unfold escape_char.
  case_bool_decide as H1; [subst c|case_bool_decide as H2; [subst c|]].
  - cbn [app String.list_ascii_of_string]. rewrite unescape_chars_cons2.
    rewrite bool_decide_false by (by intros [_ ?]). rewrite bool_decide_true by done. by rewrite IH.
  - cbn [app String.list_ascii_of_string]. rewrite unescape_chars_cons2.
    rewrite bool_decide_true by done. by rewrite IH.
  - cbn [app]. by rewrite unescape_chars_cons, IH.
Qed.

Fixpoint escapes_ok (l : bytes) : bool :=
  match l with
  | [] => true
  | c :: l' =>
      (if bool_decide (c = "~"%char) then from_option (λ d, is_char "0" d || is_char "1" d) false (head l')
       else true) && escapes_ok l'
  end.

Lemma escape_unescape s : escapes_ok s = true → "/"%char ∉ s → escape (unescape s) = s.
Proof.
  rewrite unescape_spec. induction s as [s IH] using (induction_ltof1 _ length); unfold ltof in IH.
  destruct s as [|c s]; [done|]. cbn [escapes_ok]. intros [Hc Hs]%andb_true_iff [Hn Hi]%not_elem_of_cons.
  case_bool_decide as H1.
  - subst c. destruct s as [|d s]; [done|]. cbn in Hc. cbn [escapes_ok] in Hs.
    apply andb_true_iff in Hs as [_ Hs]. apply not_elem_of_cons in Hi as [_ Hi].
    rewrite unescape_chars_cons2. apply orb_true_iff in Hc as [Hd|Hd]; apply is_char_true in Hd; subst d.
    + rewrite bool_decide_false by (by intros [_ ?]). rewrite bool_decide_true by done.
      rewrite escape_char_cons, IH; [done | cbn; lia | done | done].
    + rewrite bool_decide_true by done.
      rewrite escape_char_cons, IH; [done | cbn; lia | done | done].
  - rewrite unescape_chars_cons, escape_char_cons, IH by (done || cbn; lia).
    unfold escape_char. by rewrite !bool_decide_false by done.
Qed.

Lemma escapes_ok_cons c l : c ≠ "~"%char → escapes_ok (c :: l) = escapes_ok l.
Proof. intros. cbn. by rewrite bool_decide_false. Qed.

Lemma escapes_ok_escape s : escapes_ok (escape s) = true ∧ "/"%char ∉ escape s.
Proof.
  induction s as [|c s [IH1 IH2]]; [by split; [|apply not_elem_of_nil]|].
  rewrite escape_char_cons. unfold escape_char.
  case_bool_decide as H1; [|case_bool_decide as H2]; cbn [app String.list_ascii_of_string].
  1,2: split; [exact IH1 | rewrite !not_elem_of_cons; by split_and!].
  split; [by rewrite escapes_ok_cons | by rewrite not_elem_of_cons].
Qed.

(** * Splitting *)

Lemma escapes_ok_app l1 l2 : "~"%char ∉ l1 → escapes_ok (l1 ++ l2) = escapes_ok l2.
Proof.
  induction l1 as [|c l1 IH]; [done|]. intros [Hc Hl]%not_elem_of_cons. cbn [app].
  rewrite escapes_ok_cons by done. auto.
Qed.

Lemma check_escapes_spec token fuel pre rest :
  token = pre ++ rest → len token < npos → (length rest < fuel)%nat →
  check_escapes fuel token (str_find_char token "~" (len pre)) =
    if escapes_ok rest then Ret tt else Throw (json_exception 108).
Proof.
  intros -> Hlen. revert pre rest Hlen. induction fuel as [|fuel IH]; intros pre rest Hlen Hf; [lia|].
  unfold str_find_char. destruct (split_first (is_char "~") rest) as [Hno|(l1 & c & l2 & -> & Hl1 & Hc)].
  - rewrite str_find_if_miss by done. cbn.
    apply Forall_not_char in Hno. rewrite <-(app_nil_r rest), escapes_ok_app by done. done.
  - rewrite str_find_if_hit by done. apply is_char_true in Hc as ->. cbn [check_escapes].
    assert (len pre + len l1 + 1 = len (pre ++ l1 ++ ["~"%char])) as Hpos by len_lia.
    rewrite (proj2 (Z.eqb_neq _ npos)) by len_lia. rewrite Hpos, Nat2Z.id.
    apply Forall_not_char in Hl1. rewrite escapes_ok_app by done.
    replace (pre ++ l1 ++ "~"%char :: l2) with ((pre ++ l1 ++ ["~"%char]) ++ l2) in *
      by (by rewrite <-!app_assoc).
    rewrite lookup_app_r, Nat.sub_diag by lia. cbn [escapes_ok]. rewrite bool_decide_true by done.
    destruct l2 as [|d l2]; cbn [lookup head from_option].
    { by rewrite (proj2 (Z.eqb_eq _ _)) by len_lia. }
    rewrite (proj2 (Z.eqb_neq _ _)) by len_lia. cbn [orb].
    cbn [list_lookup].
    destruct (is_char "0" d || is_char "1" d); cbn [negb andb]; [|done].
    apply IH; [done|]. rewrite !length_app in Hf. cbn in *. lia.
Qed.

(** The text between slashes. *)
Fixpoint raw_tokens (l : bytes) : list bytes :=
  match l with
  | [] => [[]]
  | c :: l =>
      if bool_decide (c = "/"%char) then [] :: raw_tokens l
      else match raw_tokens l with [] => [[c]] | t :: ts => (c :: t) :: ts end
  end.

Lemma raw_tokens_last t : "/"%char ∉ t → raw_tokens t = [t].
Proof.
  induction t as [|c t IH]; [done|]. intros [Hc Ht]%not_elem_of_cons. cbn.
  rewrite bool_decide_false by done. by rewrite IH.
Qed.

Lemma raw_tokens_cons t l : "/"%char ∉ t → raw_tokens (t ++ "/"%char :: l) = t :: raw_tokens l.
Proof.
  induction t as [|c t IH]; [done|]. intros [Hc Ht]%not_elem_of_cons. cbn.
  rewrite bool_decide_false by done. by rewrite IH.
Qed.

Lemma raw_tokens_spec l :
  Forall (λ t, "/"%char ∉ t) (raw_tokens l) ∧ raw_tokens l ≠ [] ∧
  "/"%char :: l = raw_tokens l ≫= (λ t, "/"%char :: t).
Proof.
  induction l as [|c l (IH1 & IH2 & IH3)]; cbn.
  { split_and!; [|done|done]. constructor; [apply not_elem_of_nil | constructor]. }
  case_bool_decide as Hc.
  - subst c. split_and!; [|done|].
    + constructor; [apply not_elem_of_nil | done].
    + cbn. by rewrite <-IH3.
  - destruct (raw_tokens l) as [|t ts]; [done|]. cbn in *. injection IH3 as IH3.
    apply Forall_cons in IH1 as [Ht Hts]. split_and!; [|done|].
    + constructor; [by rewrite not_elem_of_cons | done].
    + by rewrite IH3.
Qed.

Lemma split_tokens_spec s fuel pre rest result :
  s = pre ++ rest → pre ≠ [] → len s < npos → (length rest < fuel)%nat →
  split_tokens (S fuel) s (str_find_char s "/" (len pre)) (len pre) result =
    if forallb escapes_ok (raw_tokens rest) then Ret (result ++ (unescape <$> raw_tokens rest))
    else Throw (json_exception 108).
Proof.
  intros -> Hpre Hlen. revert pre rest result Hpre Hlen.
  induction fuel as [|fuel IH]; intros pre rest result Hpre Hlen Hf; [lia|].
  assert (0 < len pre) as H0 by (destruct pre; [done | len_lia]).
  remember (S fuel) as f1 eqn:Hf1. cbn [split_tokens]. rewrite (proj2 (Z.eqb_neq _ 0)) by lia.
  destruct (split_first (is_char "/") rest) as [Hno|(t & c & l2 & -> & Ht & Hc)].
  - assert (str_find_char (pre ++ rest) "/" (len pre) = npos) as -> by (by apply str_find_if_miss).
    apply Forall_not_char in Hno. unfold str_substr. rewrite (proj2 (Z.ltb_ge _ _)) by len_lia.
    rewrite slice_app_r by (rewrite u64_small by (unfold npos in *; len_lia); len_lia).
    cbn [mbind outcome_bind].
    rewrite (check_escapes_spec rest _ [] rest) by (done || len_lia || lia).
    rewrite raw_tokens_last by done. cbn [forallb fmap list_fmap]. rewrite andb_true_r.
    destruct (escapes_ok rest); [|done]. cbn [mbind outcome_bind]. rewrite Z.eqb_refl. by subst f1.
  - assert (str_find_char (pre ++ t ++ c :: l2) "/" (len pre) = len pre + len t) as ->
      by (by apply str_find_if_hit).
    apply is_char_true in Hc as ->. apply Forall_not_char in Ht.
    unfold str_substr. rewrite (proj2 (Z.ltb_ge _ _)) by len_lia.
    replace (len pre + len t - len pre) with (len t) by lia.
    rewrite u64_small by (unfold npos in *; len_lia). rewrite slice_app_mid. cbn [mbind outcome_bind].
    rewrite (check_escapes_spec t _ [] t) by (done || len_lia || lia).
    rewrite raw_tokens_cons by done. cbn [forallb fmap list_fmap].
    destruct (escapes_ok t); [|done]. cbn [mbind outcome_bind andb].
    rewrite (proj2 (Z.eqb_neq _ npos)) by len_lia.
    assert (len pre + len t + 1 = len (pre ++ t ++ ["/"%char])) as -> by len_lia.
    replace (pre ++ t ++ "/"%char :: l2) with ((pre ++ t ++ ["/"%char]) ++ l2) in *
      by (by rewrite <-!app_assoc).
    subst f1. rewrite IH; [|by destruct pre|done|rewrite !length_app in Hf; cbn in Hf; lia].
    by rewrite <-!app_assoc.
Qed.

Lemma split_spec s : len s < npos → split s =
  match s with
  | [] => Ret []
  | c :: s =>
      if negb (is_char "/" c) then Throw (json_exception 107)
      else if forallb escapes_ok (raw_tokens s) then Ret (unescape <$> raw_tokens s)
      else Throw (json_exception 108)
  end.
Proof.
  intros Hs. destruct s as [|c s]; [done|]. unfold split. destruct (negb (is_char "/" c)); [done|].
  apply (split_tokens_spec (c :: s) _ [c] s []); [done | done | done | cbn; lia].
Qed.

Lemma to_string_spec ptr : to_string ptr = ptr ≫= λ t, "/"%char :: escape t.
Proof.
  unfold to_string. cut (∀ a, foldl (λ a b, a ++ "/"%char :: escape b) a ptr =
    a ++ (ptr ≫= λ t, "/"%char :: escape t)); [intros H; by rewrite H|].
  induction ptr as [|t ptr IH]; intros a; cbn; [by rewrite app_nil_r|].
  rewrite IH, <-app_assoc. done.
Qed.

Lemma to_string_app p q : to_string (p ++ q) = to_string p ++ to_string q.
Proof. by rewrite !to_string_spec, bind_app. Qed.

Lemma to_string_snoc p t : to_string (p ++ [t]) = to_string p ++ "/"%char :: escape t.
Proof. rewrite to_string_app, (to_string_spec [t]). cbn. by rewrite app_nil_r. Qed.

Lemma raw_tokens_to_string t ptr :
  raw_tokens (escape t ++ to_string ptr) = escape <$> (t :: ptr).
Proof.
  revert t. induction ptr as [|u ptr IH]; intros t.
  - cbn. rewrite app_nil_r, raw_tokens_last; [done|]. apply escapes_ok_escape.
  - rewrite to_string_spec. cbn [mbind list_bind]. rewrite <-to_string_spec.
    cbn [app]. rewrite raw_tokens_cons by apply escapes_ok_escape. by rewrite IH.
Qed.

Lemma split_to_string ptr : len (to_string ptr) < npos → split (to_string ptr) = Ret ptr.
Proof.
  intros Hl. rewrite split_spec by done. destruct ptr as [|t ptr]; [done|].
  assert (to_string (t :: ptr) = "/"%char :: escape t ++ to_string ptr) as ->
    by (by rewrite !to_string_spec).
  cbn [is_char bool_decide negb]. rewrite (proj2 (is_char_true "/" "/") eq_refl). cbn [negb].
  rewrite raw_tokens_to_string.
  assert (forallb escapes_ok (escape <$> (t :: ptr)) = true) as ->.
  { apply forallb_forall. intros x Hx. apply list_elem_of_In, list_elem_of_fmap in Hx as (y & -> & _).
    apply escapes_ok_escape. }
  f_equal. rewrite <-list_fmap_compose. rewrite <-(list_fmap_id (t :: ptr)) at 2.
  apply list_fmap_ext. intros _ x _. apply unescape_escape.
Qed.

Lemma to_string_split s ptr : len s < npos → split s = Ret ptr → to_string ptr = s.
Proof.
  intros Hl. rewrite split_spec by done. destruct s as [|c s]; [by intros [= <-]|].
  destruct (is_char "/" c) eqn:Hc; [|done]. apply is_char_true in Hc as ->. cbn [negb].
  destruct (forallb escapes_ok (raw_tokens s)) eqn:Hok; [|done]. intros [= <-].
  destruct (raw_tokens_spec s) as (Hn & _ & ->). rewrite to_string_spec.
  induction (raw_tokens s) as [|t ts IH]; [done|].
  cbn [mbind list_bind fmap list_fmap forallb] in *.
  apply andb_true_iff in Hok as [Ht Hts]. apply Forall_cons in Hn as [Hn1 Hn2].
  rewrite IH by done. by rewrite escape_unescape.
Qed.

(** * Array indices *)

Lemma strtoull_utoa n : 0 <= n <= ULLONG_MAX → strtoull (utoa n) = (n, len (utoa n), false).
Proof.
  intros Hn. unfold strtoull.
  pose proof (utoa_digits n ltac:(lia)) as Hd. pose proof (utoa_nonempty n ltac:(lia)) as Hne.
  assert (digits (utoa n) = (utoa n, [])) as Hds
    by (rewrite <-(app_nil_r (utoa n)) at 1; apply digits_all; [done | by left]).
  destruct (utoa n) as [|c l] eqn:E; [done|].
  apply Forall_cons in Hd as [Hc _]. destruct (digit_facts c Hc) as (Hs & Hm & Hp).
  cbn [skip_spaces]. rewrite Hs, !bool_decide_false, Hds by done.
  rewrite bool_decide_false by done. rewrite <-E, utoa_value by lia.
  rewrite (proj2 (Z.ltb_ge _ _)) by lia. f_equal. f_equal. cbn. lia.
Qed.

(** The canonical numerals below 2^64 - 1, and only they, are array indices. *)
Lemma array_index_utoa n : 0 <= n < ULLONG_MAX → array_index (utoa n) = Ret n.
Proof.
  intros Hn. unfold array_index. rewrite strtoull_utoa by lia.
  rewrite Z.eqb_refl, (proj2 (Z.leb_gt _ _)) by lia.
  assert (0 < len (utoa n)) as Hpos.
  { pose proof (utoa_nonempty n). destruct (utoa n); [by destruct H; [lia|] | len_lia]. }
  rewrite (proj2 (Z.eqb_neq _ 0)) by lia. cbn [orb negb].
  destruct (decide (n < 10)) as [Hs|Hs].
  { rewrite utoa_small by lia. done. }
  destruct (utoa_head n) as (d & ds & -> & Hd); [lia|]. cbn [lookup list_lookup from_option].
  assert (uchar (digit_char d) = 48 + d) as Hu by (apply uchar_digit; lia).
  rewrite bool_decide_false; [|intros [= E]; rewrite E in Hu; change (uchar "0") with 48 in Hu; lia].
  assert (nonzero_digit (digit_char d) = true) as ->
    by (unfold nonzero_digit; rewrite Hu; apply andb_true_iff; rewrite !Z.leb_le; lia).
  by rewrite !andb_false_r.
Qed.

Lemma digits_spec l ds rest : digits l = (ds, rest) →
  l = ds ++ rest ∧ Forall (λ c, is_digit_char c = true) ds ∧
  (rest = [] ↔ forallb is_digit_char l = true).
Proof.
  revert ds rest. induction l as [|c l IH]; intros ds rest; cbn [digits forallb]; [by intros [= <- <-]|].
  destruct (is_digit_char c) eqn:Hc; [|intros [= <- <-]; by split_and!].
  destruct (digits l) as [w r]. intros [= <- <-]. destruct (IH w r eq_refl) as (-> & Hw & Hr).
  split_and!; [done | by constructor | done].
Qed.

Lemma array_index_errors s : 
  match array_index s with
  | Ret n => 0 <= n < ULLONG_MAX
  | Throw e => e ∈ json_exception <$> [106; 109; 404; 410]
  | _ => False
  end.
Proof.
  unfold array_index. destruct (_ && _); [by_decide|]. destruct (_ && _); [by_decide|].
  destruct (strtoull s) as [[res read] erange] eqn:Hs.
  destruct (_ || _ || _); [by_decide|]. destruct (ULLONG_MAX <=? res) eqn:Hr; [by_decide|].
  bool_hyps. split; [|done]. revert Hs. unfold strtoull.
  destruct (match skip_spaces s with [] => _ | _ => _ end) as [neg l].
  destruct (digits l) as [ds rest] eqn:Hl. apply digits_spec in Hl as (_ & Hd & _).
  pose proof (dec_value_nonneg ds Hd). destruct (bool_decide (ds = [])); [intros [= <- _ _]; lia|].
  destruct (_ <? _); [intros [= <- _ _]; unfold ULLONG_MAX; lia|]. intros [= <- _ _].
  destruct neg; [|lia]. unfold u64. apply Z.mod_pos_bound. lia.
Qed.

(** A token that passes the tests of [contains] names an index or is too long. *)
Lemma array_index_token s : index_token s = true →
  array_index s = Throw (json_exception 404) ∨ array_index s = Throw (json_exception 410) ∨
  ∃ n, array_index s = Ret n.
Proof.
  intros Ht. pose proof (array_index_errors s) as He.
  destruct (array_index s) as [n|e| | |] eqn:Hi; [eauto| |done..].
  cbn in He. rewrite !elem_of_cons, elem_of_nil in He.
  unfold array_index in Hi. revert Hi.
  destruct s as [|c [|d s]].
  - cbn. intros [= <-]. auto.
  - change (1 <? len [c]) with false. cbn [andb]. destruct (strtoull [c]) as [[res read] erange].
    destruct (_ || _ || _); [intros [= <-]; auto|]. destruct (_ <=? _); [intros [= <-]; auto|done].
  - unfold index_token in Ht. destruct (bool_decide _); [done|].
    apply andb_true_iff in Ht as [Hc _]. cbn [lookup list_lookup from_option].
    rewrite Hc. cbn [negb]. rewrite andb_false_r, bool_decide_false, andb_false_r by (by intros [= ->]).
    destruct (strtoull _) as [[res read] erange].
    destruct (_ || _ || _); [intros [= <-]; auto|]. destruct (_ <=? _); [intros [= <-]; auto|done].
Qed.

(** A token that fails them is no index. *)
Lemma array_index_no_token s : index_token s = false → s ≠ bs "-" →
  ∃ e, array_index s = Throw e.
Proof.
  intros Ht Hs. unfold index_token in Ht. rewrite bool_decide_false in Ht by done.
  unfold array_index. destruct s as [|c [|d s]]; [done| |].
  - change (1 <? len [c]) with false. cbn [andb].
    assert (forallb (λ c, is_digit_char c || bool_decide (strtoull [c] = (0, 0, false))) all_chars = true)
      as H by (vm_compute; reflexivity).
    pose proof (forall_chars _ H c) as Hc. cbv beta in Hc. cbn iota in Ht. rewrite Ht in Hc.
    apply bool_decide_eq_true in Hc as ->. by eexists.
  - cbn [lookup list_lookup from_option].
    assert ((1 <? len (c :: d :: s)) = true) as -> by (apply Z.ltb_lt; len_lia). cbn [andb].
    case_bool_decide; [by eexists|].
    destruct (nonzero_digit c) eqn:Hc; cbn [negb]; [|by eexists]. cbn [andb] in Ht.
    assert (is_digit_char c = true) as Hd by (unfold nonzero_digit, is_digit_char in *; lia).
    destruct (digit_facts c Hd) as (Hsp & Hm & Hp).
    unfold strtoull. cbn [skip_spaces]. rewrite Hsp, !bool_decide_false by done.
    destruct (digits (c :: d :: s)) as [ds rest] eqn:Hl. apply digits_spec in Hl as (Hl & _ & Hr).
    assert (forallb is_digit_char (c :: d :: s) = false) as Hf
      by (cbn [forallb] in *; by rewrite Hd, Ht).
    rewrite Hf in Hr.
    assert (0 < len rest) by (destruct rest; [by destruct Hr as [Hr _]; discriminate Hr | len_lia]).
    case_bool_decide; [by eexists|].
    destruct (_ <? _); rewrite !orb_true_r || rewrite (proj2 (Z.eqb_neq (_ - _) (len _))) by lia;
      cbn [negb]; rewrite ?orb_true_r; by eexists.
Qed.

(** A lookup with its continuation has a value exactly when the walk has one. *)
Lemma at_pointer_cons token ptr j :
  at_pointer (token :: ptr) j = '(c, _) ← step_checked token j; at_pointer ptr c.
Proof.
  unfold at_pointer, get_checked. cbn [follow].
  destruct (step_checked token j) as [[c put]| | | |]; [|done..]. cbn.
  by destruct (follow step_checked ptr c) as [[v put']| | | |].
Qed.

Lemma escape_digits n : 0 <= n → escape (utoa n) = utoa n.
Proof.
  intros Hn. rewrite escape_chars. pose proof (utoa_digits n Hn) as Hd.
  induction Hd as [|c l Hc _ IH]; [done|]. cbn [mbind list_bind]. rewrite IH.
  unfold escape_char. by rewrite !bool_decide_false by (by intros ->).
Qed.

Lemma to_string_index p n : 0 <= n → to_string p ++ "/"%char :: utoa n = to_string (p ++ [utoa n]).
Proof. intros Hn. by rewrite to_string_snoc, escape_digits. Qed.

Lemma member_set_set k x y (l : list (bytes * json)) :
  member_set k y (member_set k x l) = member_set k y l.
Proof.
  induction l as [|[k' v] l IH]; cbn; [by rewrite bytes_cmp_refl|].
  destruct (bytes_cmp k k') eqn:E; cbn; rewrite ?bytes_cmp_refl, ?E; [done..|]. by rewrite IH.
Qed.

(** Two maps are related member by member when they are so at every key. *)
Lemma members_agree {A B} (R : A → B → Prop) (m : list (bytes * A)) (l : list (bytes * B)) :
  in_order m → in_order l → (∀ k, option_Forall2 R (member_get k m) (member_get k l)) →
  Forall2 (λ p q, p.1 = q.1 ∧ R p.2 q.2) m l.
Proof.
  intros Hm Hl Hk. unfold in_order in *. revert l Hl Hk.
  induction Hm as [|[k x] m Hm IH Hf]; intros l Hl Hk.
  { destruct l as [|[k y] l]; [constructor|]. specialize (Hk k). cbn in Hk.
    rewrite bool_decide_true in Hk by done. inversion Hk. }
  destruct Hl as [|[k' y] l Hl Hf'].
  { specialize (Hk k). cbn in Hk. rewrite bool_decide_true in Hk by done. inversion Hk. }
  assert (k = k') as <-.
  { pose proof (Hk k) as H1. pose proof (Hk k') as H2. cbn in H1, H2.
    rewrite (bool_decide_true (k = k)) in H1 by done. rewrite (bool_decide_true (k' = k')) in H2 by done.
    destruct (decide (k = k')) as [|Hne]; [done|].
    rewrite bool_decide_false in H1 by done. rewrite bool_decide_false in H2 by congruence.
    destruct (member_get k l) as [z|] eqn:Hz; [|inversion H1].
    destruct (member_get k' m) as [w|] eqn:Hw; [|inversion H2].
    apply member_get_elem in Hz, Hw; [|done..].
    rewrite Forall_forall in Hf. rewrite Forall_forall in Hf'. apply Hf' in Hz. apply Hf in Hw.
    unfold key_lt in Hz, Hw.
    cbn in Hz, Hw. destruct (bytes_lt_irrefl k). by etransitivity. }
  constructor.
  - specialize (Hk k). cbn in Hk. rewrite !bool_decide_true in Hk by done. by inversion Hk.
  - apply IH; [done|]. intros k'. specialize (Hk k'). cbn in Hk. case_bool_decide; [|done].
    subst k'. rewrite !member_get_notin by (by eapply key_lt_elem). constructor.
Qed.

Lemma keys_sorted_in_order l : keys_sorted l = true → in_order l.
Proof.
  intros H. apply Sorted_StronglySorted.
  { intros p q r. unfold key_lt. apply bytes_lt_trans. }
  induction l as [|[k x] l IH]; [constructor|]. cbn in H. apply andb_true_iff in H as [H1 H2].
  constructor; [auto|]. destruct l as [|[k2 y] l]; constructor. unfold key_lt, bytes_lt. cbn.
  by destruct (bytes_cmp k k2).
Qed.

Lemma addressable_short path j : addressable path j = true → len path < npos.
Proof. destruct j; cbn [addressable]; intros [? _]%andb_true_iff; by apply Z.ltb_lt. Qed.

Lemma addressable_array path l : addressable path (JArray l) = true →
  len l < ULLONG_MAX ∧ len (path ++ bs "/-") < npos ∧
  ∀ i x, l !! i = Some x → addressable (path ++ "/"%char :: utoa (Z.of_nat i)) x = true.
Proof.
  cbn [addressable]. intros [_ [[H1 H2]%andb_true_iff H]%andb_true_iff]%andb_true_iff.
  apply Z.ltb_lt in H1, H2. split_and!; [done..|]. clear H1 H2.
  intros i x. change (Z.of_nat i) with (0 + Z.of_nat i). revert i H. generalize 0 as n.
  induction l as [|y l IH]; intros n i [H1 H2]%andb_true_iff || intros n i _; [done|].
  destruct i as [|i]; cbn [lookup list_lookup].
  - intros [= ->]. by rewrite Z.add_0_r.
  - intros Hi. replace (n + Z.of_nat (S i)) with (n + 1 + Z.of_nat i) by lia. by apply IH.
Qed.

Lemma addressable_object path l : addressable path (JObject l) = true →
  in_order l ∧ ∀ k x, (k, x) ∈ l → addressable (path ++ "/"%char :: escape k) x = true.
Proof.
  cbn [addressable]. intros [_ [H1 H]%andb_true_iff]%andb_true_iff.
  split; [by apply keys_sorted_in_order|]. clear H1. intros k x.
  induction l as [|[k' y] l IH]; [by intros ?%elem_of_nil|]. apply andb_true_iff in H as [H1 H2].
  intros [[= -> ->]|Hin]%elem_of_cons; auto.
Qed.

(** * Flattening *)

Lemma to_string_cons t p : to_string (t :: p) = "/"%char :: escape t ++ to_string p.
Proof. by rewrite !to_string_spec. Qed.

Lemma to_string_inj p q : len (to_string p) < npos → to_string p = to_string q → p = q.
Proof.
  intros Hp E. pose proof (split_to_string p Hp) as H1. rewrite E in Hp, H1.
  rewrite split_to_string in H1 by done. by injection H1.
Qed.

Lemma leaf_exists j : ∃ p v, leaf_path j p v.
Proof.
  assert (∀ j, is_leaf j = true → ∃ p v, leaf_path j p v) as Hleaf
    by (intros k Hk; exists [], (blank k); by apply lp_leaf).
  induction j as [| | | | | | |l IH|l IH] using json_ind'; try (by apply Hleaf).
  - destruct l as [|x l]; [by apply Hleaf|]. apply Forall_cons in IH as [(p & v & Hp) _].
    exists (utoa (Z.of_nat 0) :: p), v. by apply (lp_array _ 0 x).
  - destruct l as [|[k x] l]; [by apply Hleaf|]. apply Forall_cons in IH as [(p & v & Hp) _].
    exists (k :: p), v. apply (lp_object _ k x); [by left | done].
Qed.

Lemma leaf_short j p v q : addressable (to_string q) j = true → leaf_path j p v →
  len (to_string (q ++ p)) < npos.
Proof.
  intros Ha Hp. revert q Ha. induction Hp as [j Hj|l i x p v Hi Hp IH|l k x p v Hk Hp IH]; intros q Ha.
  - rewrite app_nil_r. by eapply addressable_short.
  - apply addressable_array in Ha as (_ & _ & Ha). specialize (Ha i x Hi).
    rewrite <-(escape_digits (Z.of_nat i)), <-to_string_snoc in Ha by lia.
    specialize (IH _ Ha). by rewrite <-app_assoc in IH.
  - apply addressable_object in Ha as (_ & Ha). specialize (Ha k x Hk).
    rewrite <-to_string_snoc in Ha. specialize (IH _ Ha). by rewrite <-app_assoc in IH.
Qed.

Lemma leaf_primitive j p v : leaf_path j p v → is_primitive v = true.
Proof. induction 1 as [j Hj| |]; [|done..]. by destruct j as [| | | | | | |[]|[]]. Qed.

Lemma tails_cons t p D : tails t ((t :: p) :: D) = p :: tails t D.
Proof. unfold tails. cbn. by rewrite bool_decide_true. Qed.

Lemma tails_cons_ne t t' p D : t' ≠ t → tails t ((t' :: p) :: D) = tails t D.
Proof. intros. unfold tails. cbn. by rewrite bool_decide_false. Qed.

Lemma elem_of_tails t p D : p ∈ tails t D ↔ (t :: p) ∈ D.
Proof.
  unfold tails. rewrite list_elem_of_omap. split.
  - intros ([|u q] & Hin & H); [done|]. case_bool_decide; [|done]. by injection H as ->; subst u.
  - intros Hin. exists (t :: p). by rewrite bool_decide_true.
Qed.

(** The values [operator[]] makes or finds below a token. *)
Lemma index_idx_array i m : 0 <= i → let n := Z.to_nat i in
  index_idx i (JArray m) = Ret (element_ref n (m ++ replicate (n + 1 - length m) JNull)
    (default JNull (m !! n))).
Proof.
  intros Hi n. unfold index_idx. fold n. f_equal. f_equal.
  destruct (decide (n < length m)%nat).
  - by rewrite lookup_app_l.
  - rewrite lookup_app_r, lookup_replicate_2 by lia. by rewrite (lookup_ge_None_2 m) by lia.
Qed.

Lemma index_key_object k m : ∃ put, index_key k (JObject m) = Ret (default JNull (member_get k m), put) ∧
  ∀ v, put v = JObject (member_set k v m).
Proof.
  unfold index_key, json_index, member_ref, member_emplace. cbn [mbind outcome_bind].
  destruct (member_get k m) as [x|] eqn:Hx.
  - eexists. rewrite Hx. by split.
  - eexists. rewrite member_get_set. split; [done|]. intros v. cbv beta. by rewrite member_set_set.
Qed.

Lemma grown_none j t : grown [] j t → t = JNull.
Proof. by inversion 1. Qed.

Lemma bytes_cmp_prefix l a b : bytes_cmp (l ++ a) (l ++ b) = bytes_cmp a b.
Proof. induction l as [|c l IH]; [done|]. cbn. by rewrite Z.compare_refl. Qed.

Lemma to_string_lt_cons t p q : bytes_lt (to_string p) (to_string q) →
  bytes_lt (to_string (t :: p)) (to_string (t :: q)).
Proof.
  unfold bytes_lt. rewrite !to_string_cons, !app_comm_cons, bytes_cmp_prefix. done.
Qed.

(** The first element's paths come before the others'. *)
Lemma to_string_first i p q : 0 < i →
  bytes_lt (to_string (utoa 0 :: p)) (to_string (utoa i :: q)).
Proof.
  intros Hi. unfold bytes_lt. rewrite !to_string_cons, !escape_digits by lia.
  destruct (utoa_head i Hi) as (d & ds & -> & Hd). change (utoa 0) with ["0"%char].
  cbn [app bytes_cmp]. rewrite Z.compare_refl, uchar_digit by lia.
  change (uchar "0") with 48. by rewrite (proj2 (Z.compare_lt_iff _ _)) by lia.
Qed.

(** One token on the way to a leaf, in an array and in an object. *)
Definition token_step (token : bytes) (D : list json_pointer) (j t x : json) (p : json_pointer) : Prop :=
  ∃ c step, step_create token t = Ret (c, step) ∧ grown (tails token D) x c ∧
    ∀ c', grown (p :: tails token D) x c' → grown ((token :: p) :: D) j (step c').

Lemma tails_index_ne i i' p D : i' ≠ i →
  tails (utoa (Z.of_nat i')) ((utoa (Z.of_nat i) :: p) :: D) = tails (utoa (Z.of_nat i')) D.
Proof. intros Hne. apply tails_cons_ne. intros E%utoa_inj; lia. Qed.

Lemma grown_array_step D l t i x p : l !! i = Some x → len l < ULLONG_MAX →
  (D = [] → i = 0%nat) → grown D (JArray l) t → token_step (utoa (Z.of_nat i)) D (JArray l) t x p.
Proof.
  intros Hi Hlen H0 Hg. pose proof (lookup_lt_Some _ _ _ Hi) as Hil.
  inversion Hg as [j|D' j Hleaf|D' l' m HD Hne Hm H1 H2|]; subst.
  - rewrite (H0 eq_refl) in *. exists JNull, (λ v, JArray [v]). split_and!; [done | constructor|].
    intros c' Hc. apply g_array; [done | by destruct l | cbn; lia| |].
    + intros i' x' y Hx' [-> <-]%list_lookup_singleton_Some.
      replace x' with x by congruence. by rewrite tails_cons.
    + intros i' Hi'. cbn in Hi'. by rewrite tails_index_ne by lia.
  - by destruct l.
  - exists (default JNull (m !! i)),
      (λ v, JArray (<[i := v]> (m ++ replicate (i + 1 - length m) JNull))).
    split_and!.
    + cbn [step_create]. rewrite array_index_utoa by lia. cbn [mbind outcome_bind].
      rewrite index_idx_array by lia. by rewrite Nat2Z.id.
    + destruct (m !! i) as [y|] eqn:Hy; [by eapply H1|]. cbn [from_option].
      rewrite H2 by (by apply lookup_ge_None_1). constructor.
    + intros c' Hc.
      apply g_array; [done | done | rewrite length_insert, length_app, length_replicate; lia| |].
      * intros i' x' y Hx' Hy. destruct (decide (i' = i)) as [->|Hni].
        -- rewrite list_lookup_insert_eq in Hy by (rewrite length_app, length_replicate; lia).
           injection Hy as <-. replace x' with x by congruence. by rewrite tails_cons.
        -- rewrite list_lookup_insert_ne in Hy by done. rewrite tails_index_ne by done.
           destruct (decide (i' < length m)%nat).
           ++ rewrite lookup_app_l in Hy by done. by eapply H1.
           ++ rewrite lookup_app_r in Hy by lia. apply lookup_replicate in Hy as [-> _].
              rewrite H2 by lia. constructor.
      * intros i' Hi'. rewrite length_insert, length_app, length_replicate in Hi'.
        rewrite tails_index_ne by lia. apply H2. lia.
Qed.

Lemma grown_object_step D l t k x p : in_order l → member_get k l = Some x → k ≠ bs "0" →
  grown D (JObject l) t → token_step k D (JObject l) t x p.
Proof.
  intros Hl Hk H0 Hg. inversion Hg as [j|D' j Hleaf| |D' l' m HD Hne Hm H1 H2]; subst.
  - exists JNull, (λ v, JObject [(k, v)]). split_and!; [|constructor|].
    + cbn [step_create]. rewrite bool_decide_false by done. unfold index_key, json_index, member_ref.
      cbn. by rewrite bytes_cmp_refl.
    + intros c' Hc. apply g_object; [done | by destruct l | repeat constructor| |].
      * intros k' y. cbn. case_bool_decide; [|done]. intros [= <-]. subst k'. exists x.
        by rewrite tails_cons.
      * intros k'. cbn. case_bool_decide; [done|]. intros _. by rewrite tails_cons_ne.
  - destruct l; [done|]. done.
  - destruct (index_key_object k m) as (put & Hput & Hset).
    exists (default JNull (member_get k m)), put. split_and!; [done| |].
    + destruct (member_get k m) as [y|] eqn:Hy.
      * destruct (H1 k y Hy) as (x' & Hx' & Hg'). cbn [from_option]. by replace x with x' by congruence.
      * cbn [from_option]. rewrite H2 by done. constructor.
    + intros c' Hc. rewrite Hset. apply g_object; [done | done | by apply member_set_in_order| |].
      * intros k' y. destruct (decide (k' = k)) as [->|Hnk].
        -- rewrite member_get_set, tails_cons. intros [= <-]. by exists x.
        -- rewrite member_get_set_ne, tails_cons_ne by done. apply H1.
      * intros k'. destruct (decide (k' = k)) as [->|Hnk]; [by rewrite member_get_set|].
        rewrite member_get_set_ne, tails_cons_ne by done. apply H2.
Qed.

(** One more leaf.  [H]: the leaves whose paths come first are there already. *)
Lemma grown_add D j t p v path : leaf_path j p v → grown D j t →
  addressable path j = true → no_zero_key j = true →
  (∀ p' v', leaf_path j p' v' → bytes_lt (to_string p') (to_string p) → p' ∈ D) →
  ∃ c put, get_and_create p t = Ret (c, put) ∧ grown (p :: D) j (put v).
Proof.
  unfold get_and_create. intros Hp. revert D t path.
  induction Hp as [j Hj|l i x p v Hi Hp IH|l k x p v Hk Hp IH]; intros D t path Hg Ha Hz H.
  { exists t, (λ v, v). split; [done|]. by apply g_leaf. }
  all: match goal with |- context [follow _ (?token :: _)] => set (tok := token) in * end.
  all: assert (∀ p' v', leaf_path x p' v' → bytes_lt (to_string p') (to_string p) → p' ∈ tails tok D)
    as Hx by (intros p' v' Hp' Hlt; apply elem_of_tails; eapply H;
              [by econstructor | by apply to_string_lt_cons]).
  - apply addressable_array in Ha as (Hlen & _ & Ha).
    destruct (grown_array_step D l t i x p Hi Hlen) as (c & step & Hs & Hgx & Hstep); [|done|].
    { intros ->. destruct i as [|i]; [done|]. exfalso. destruct l as [|x0 l]; [done|].
      destruct (leaf_exists x0) as (p0 & v0 & H0).
      apply (not_elem_of_nil (utoa (Z.of_nat 0) :: p0)). apply (H _ v0); [by apply (lp_array _ 0 x0)|].
      apply to_string_first. lia. }
    destruct (IH _ _ _ Hgx (Ha i x Hi)) as (c' & put & Hrun & Hgrown); [|done|].
    { cbn in Hz. rewrite forallb_forall in Hz. apply Hz, list_elem_of_In. by eapply list_elem_of_lookup_2. }
    exists c', (λ v, step (put v)). cbn [follow]. unfold tok. rewrite Hs. cbn [mbind outcome_bind].
    rewrite Hrun. split; [done|]. by apply Hstep.
  - apply addressable_object in Ha as (Hl & Ha). cbn in Hz. rewrite forallb_forall in Hz.
    pose proof (Hz (k, x) (proj1 (list_elem_of_In _ _) Hk)) as [H0 Hzx]%andb_true_iff. bool_hyps.
    destruct (grown_object_step D l t k x p Hl) as (c & step & Hs & Hgx & Hstep);
      [by apply member_get_elem | done | done|].
    destruct (IH _ _ _ Hgx (Ha k x Hk) Hzx Hx) as (c' & put & Hrun & Hgrown).
    exists c', (λ v, step (put v)). cbn [follow]. unfold tok. rewrite Hs. cbn [mbind outcome_bind].
    rewrite Hrun. split; [done|]. by apply Hstep.
Qed.

Lemma blank_array l : l ≠ [] → blank (JArray l) = JArray (blank <$> l).
Proof. by destruct l. Qed.

Lemma blank_object l : l ≠ [] → blank (JObject l) = JObject ((λ '(k, v), (k, blank v)) <$> l).
Proof. by destruct l. Qed.

Lemma tails_leaf token D x : (∀ p v, leaf_path x p v → (token :: p) ∈ D) → tails token D ≠ [].
Proof.
  intros H E. destruct (leaf_exists x) as (p & v & Hp).
  apply (not_elem_of_nil p). rewrite <-E. apply elem_of_tails. by eapply H.
Qed.

Lemma blank_in_order l : in_order l → in_order ((λ '(k, v), (k, blank v)) <$> l).
Proof.
  unfold in_order. induction 1 as [|[k v] l Hl IH Hf]; [constructor|]. constructor; [done|].
  apply Forall_fmap. eapply Forall_impl; [exact Hf|]. by intros [k' v'].
Qed.

Lemma member_get_blank k l : member_get k ((λ '(k, v), (k, blank v)) <$> l) = blank <$> member_get k l.
Proof. induction l as [|[k' v] l IH]; [done|]. cbn. by case_bool_decide. Qed.

(** All leaves. *)
Lemma grown_leaf D j t : is_leaf j = true → (∀ p v, leaf_path j p v → p ∈ D) →
  grown D j t → t = blank j.
Proof.
  intros Hj H Hg. specialize (H [] _ (lp_leaf _ Hj)).
  inversion Hg; subst; [by apply elem_of_nil in H | done | by destruct l | by destruct l].
Qed.

Lemma grown_all D j t path : addressable path j = true → (∀ p v, leaf_path j p v → p ∈ D) →
  grown D j t → t = blank j.
Proof.
  revert D t path. induction j as [| | | | | | |l IH|l IH] using json_ind'; intros D t path Ha H Hg;
    try (by eapply grown_leaf).
  - destruct (decide (l = [])) as [->|Hl]; [by eapply grown_leaf|]. rewrite blank_array by done.
    apply addressable_array in Ha as (_ & _ & Ha).
    assert (∀ i x, l !! i = Some x → ∀ p v, leaf_path x p v → (utoa (Z.of_nat i) :: p) ∈ D) as Hx
      by (intros i x Hi p v Hp; eapply H; by eapply lp_array).
    inversion Hg as [j|D' j Hj|D' l' m HD _ Hm H1 H2|]; subst.
    + destruct l as [|x l]; [done|]. by destruct (tails_leaf _ _ _ (Hx 0%nat x eq_refl)).
    + by destruct l.
    + f_equal. apply list_eq. intros i. rewrite list_lookup_fmap.
      destruct (l !! i) as [x|] eqn:Hi; cbn.
      * destruct (m !! i) as [y|] eqn:Hy.
        -- f_equal. rewrite Forall_lookup in IH.
           eapply (IH i x Hi); [by eapply Ha | | by eapply H1].
           intros p v Hp. apply elem_of_tails. by eapply Hx.
        -- destruct (tails_leaf _ _ _ (Hx i x Hi)). apply H2. by apply lookup_ge_None_1.
      * apply lookup_ge_None_2. apply lookup_ge_None_1 in Hi. lia.
  - destruct (decide (l = [])) as [->|Hl]; [by eapply grown_leaf|]. rewrite blank_object by done.
    apply addressable_object in Ha as (Ho & Ha).
    assert (∀ k x, (k, x) ∈ l → ∀ p v, leaf_path x p v → (k :: p) ∈ D) as Hx
      by (intros k x Hk p v Hp; eapply H; by eapply lp_object).
    inversion Hg as [j|D' j Hj| |D' l' m HD _ Hm H1 H2]; subst.
    + destruct l as [|[k x] l]; [done|]. by destruct (tails_leaf _ _ _ (Hx k x ltac:(by left))).
    + by destruct l.
    + f_equal. pose proof (members_agree eq m _ Hm (blank_in_order l Ho)) as Heq.
      cut (Forall2 (λ p q : bytes * json, p = q) m ((λ '(k, v), (k, blank v)) <$> l)).
      { intros HF. by apply list_eq_Forall2. }
      eapply Forall2_impl; [apply Heq | by intros [k x] [k' x'] [[= ->] [= ->]]].
      intros k. rewrite member_get_blank. destruct (member_get k m) as [y|] eqn:Hy.
      * destruct (H1 k y Hy) as (x & Hk & Hgx). rewrite Hk. cbn. constructor.
        apply member_get_elem in Hk; [|done]. rewrite Forall_forall in IH.
        eapply (IH _ Hk); [by eapply Ha | | done].
        intros p v Hp. apply elem_of_tails. by eapply Hx.
      * destruct (member_get k l) as [x|] eqn:Hk; cbn; [|constructor].
        apply member_get_elem in Hk; [|done]. destruct (tails_leaf _ _ _ (Hx k x Hk)). by apply H2.
Qed.

(** ** What [flatten] writes *)

Lemma member_set_keys k v (l : list (bytes * json)) s : s ∈ (member_set k v l).*1 ↔ s = k ∨ s ∈ l.*1.
Proof.
  induction l as [|[k' v'] l IH]; cbn; [by rewrite !elem_of_cons|].
  destruct (bytes_cmp k k') eqn:E; cbn; rewrite !elem_of_cons; [|tauto|rewrite IH; tauto].
  apply bytes_cmp_eq in E as ->. tauto.
Qed.

(** [r'] holds the leaves of [j] below [ref] and what [r] held. *)
Definition flattened (ref : bytes) (j : json) (r r' : list (bytes * json)) : Prop :=
  (in_order r → in_order r') ∧
  (∀ s v, (s, v) ∈ r' → (s, v) ∈ r ∨ ∃ p, leaf_path j p v ∧ s = ref ++ to_string p) ∧
  (∀ s, s ∈ r.*1 → s ∈ r'.*1) ∧ (∀ p v, leaf_path j p v → (ref ++ to_string p) ∈ r'.*1).

Lemma flattened_leaf ref j r : is_leaf j = true → flattened ref j r (member_set ref (blank j) r).
Proof.
  intros Hj. split_and!.
  - apply member_set_in_order.
  - intros s v [[= -> ->]|Hin]%member_set_elem; [|by left]. right. exists [].
    split; [by constructor | by rewrite app_nil_r].
  - intros s Hs. apply member_set_keys. by right.
  - intros p v Hp.
    inversion Hp; subst; [|by destruct l|destruct l; [by apply elem_of_nil in H|done]]. apply member_set_keys. left. by rewrite app_nil_r.
Qed.

(** The same of children with their tokens. *)
Definition flattened_all (ref : bytes) (js r r' : list (bytes * json)) : Prop :=
  (in_order r → in_order r') ∧
  (∀ s v, (s, v) ∈ r' → (s, v) ∈ r ∨
     ∃ t x p, (t, x) ∈ js ∧ leaf_path x p v ∧ s = ref ++ to_string (t :: p)) ∧
  (∀ s, s ∈ r.*1 → s ∈ r'.*1) ∧
  (∀ t x p v, (t, x) ∈ js → leaf_path x p v → (ref ++ to_string (t :: p)) ∈ r'.*1).

Lemma flattened_all_nil ref r : flattened_all ref [] r r.
Proof. split_and!; [done | auto | done | by intros t x p v ?%elem_of_nil]. Qed.

Lemma flattened_all_cons ref t x js r r1 r' :
  flattened (ref ++ "/"%char :: escape t) x r r1 → flattened_all ref js r1 r' →
  flattened_all ref ((t, x) :: js) r r'.
Proof.
  assert (∀ p, (ref ++ "/"%char :: escape t) ++ to_string p = ref ++ to_string (t :: p)) as Hp
    by (intros p; rewrite to_string_cons, <-app_assoc; done).
  intros (Ho1 & Hm1 & Hk1 & Hl1) (Ho & Hm & Hk & Hl). split_and!.
  - auto.
  - intros s v [[Hin|(p & Hleaf & ->)]%Hm1|(t' & y & p & Hin & Hleaf & ->)]%Hm.
    + by left.
    + right. exists t, x, p. rewrite Hp. split_and!; [by left | done..].
    + right. exists t', y, p. split_and!; [by right | done..].
  - auto.
  - intros t' y p v [[= -> ->]|Hin]%elem_of_cons Hleaf; [|by eapply Hl].
    apply Hk. rewrite <-Hp. by eapply Hl1.
Qed.

Lemma flatten_into_spec ref j r : flattened ref j r (flatten_into ref j r).
Proof.
  revert ref r. induction j as [| | | | | | |l IH|l IH] using json_ind'; intros ref r;
    try (by apply (flattened_leaf ref)).
  - destruct l as [|x0 l0]; [by apply (flattened_leaf ref)|]. remember (x0 :: l0) as l eqn:El.
    assert (∀ i r, 0 <= i → flattened_all ref (imap (λ n x, (utoa (i + Z.of_nat n), x)) l) r
      ((fix go (l : list json) (i : Z) result :=
         match l with
         | [] => result
         | v :: l => go l (i + 1)
                       (flatten_into (ref ++ "/"%char :: utoa i) v result)
         end) l i r)) as H.
    { clear El. induction IH as [|x l Hx _ IHl]; intros i r' Hi; [apply flattened_all_nil|].
      cbn [imap]. rewrite Z.add_0_r. eapply flattened_all_cons; [rewrite escape_digits by done; apply Hx|].
      erewrite imap_ext; [apply (IHl (i + 1)); lia|]. intros n y _.
      unfold compose. replace (i + Z.of_nat (S n)) with (i + 1 + Z.of_nat n) by lia. done. }
    specialize (H 0 r ltac:(lia)).
    assert (flatten_into ref (JArray l) r = (fix go (l : list json) (i : Z) result :=
         match l with
         | [] => result
         | v :: l => go l (i + 1)
                       (flatten_into (ref ++ "/"%char :: utoa i) v result)
         end) l 0 r) as -> by (by subst l).
    destruct H as (Ho & Hm & Hk & Hl). split_and!; [done | | done |].
    + intros s v [Hin|(t & x & p & Hin & Hp & ->)]%Hm; [by left|]. right.
      apply elem_of_lookup_imap in Hin as (n & y & [= -> ->] & Hn). eexists. split; [|reflexivity].
      by eapply lp_array.
    + intros p v Hp. inversion Hp as [j Hj|l' i x p' v' Hi Hp'|]; subst; [done|].
      eapply Hl; [|done]. apply elem_of_lookup_imap. by exists i, x.
  - destruct l as [|x0 l0]; [by apply (flattened_leaf ref)|]. remember (x0 :: l0) as l eqn:El.
    assert (flattened_all ref l r (flatten_into ref (JObject l) r)) as (Ho & Hm & Hk & Hl).
    { assert (flatten_into ref (JObject l) r = (fix go (l : list (bytes * json)) result :=
         match l with
         | [] => result
         | (k, v) :: l => go l (flatten_into (ref ++ "/"%char :: escape k) v result)
         end) l r) as -> by (by subst l).
      clear El. revert r. induction IH as [|[k x] l Hx _ IHl]; intros r'; [apply flattened_all_nil|].
      eapply flattened_all_cons; [apply Hx | apply IHl]. }
    split_and!; [done | | done |].
    + intros s v [Hin|(t & x & p & Hin & Hp & ->)]%Hm; [by left|]. right.
      exists (t :: p). split; [by eapply lp_object | done].
    + intros p v Hp. inversion Hp as [j Hj| |l' k x p' v' Hk' Hp']; subst; [done|]. by eapply Hl.
Qed.

(** ** [unflatten] puts the leaves in one after the other *)

Lemma unflatten_members_spec j m D t : addressable [] j = true → no_zero_key j = true →
  in_order m → grown D j t →
  (∀ s v, (s, v) ∈ m → ∃ p, leaf_path j p v ∧ s = to_string p) →
  (∀ p v, leaf_path j p v → p ∈ D ∨ to_string p ∈ m.*1) →
  unflatten_members m t = Ret (blank j).
Proof.
  intros Ha Hz Hm. unfold in_order in Hm. revert D t.
  induction Hm as [|[s v] m Hm IH Hf]; intros D t Hg Hleaf Hall.
  { cbn. f_equal. eapply grown_all; [done | | done]. intros p v Hp.
    destruct (Hall p v Hp) as [|Hin]; [done|]. by apply elem_of_nil in Hin. }
  destruct (Hleaf s v ltac:(by left)) as (p & Hp & ->). cbn [unflatten_members].
  rewrite (leaf_primitive _ _ _ Hp). cbn [negb].
  pose proof (leaf_short _ _ _ [] Ha Hp) as Hs. cbn [app] in Hs.
  rewrite split_to_string by done. cbn [mbind outcome_bind].
  destruct (grown_add D j t p v [] Hp Hg Ha Hz) as (c & put & Hrun & Hg').
  { intros p' v' Hp' Hlt. destruct (Hall p' v' Hp') as [|Hin]; [done|]. exfalso. cbn in Hin.
    apply elem_of_cons in Hin as [Heq|Hin].
    - rewrite Heq in Hlt. by apply bytes_lt_irrefl in Hlt.
    - apply list_elem_of_fmap in Hin as ([s w] & Heq & Hin).
      rewrite Heq in Hlt. rewrite Forall_forall in Hf. apply Hf in Hin.
      unfold key_lt in Hin. cbn [fst] in *.
      apply (bytes_lt_irrefl s). by etransitivity. }
  rewrite Hrun. cbn [mbind outcome_bind]. eapply IH; [exact Hg' | |].
  - intros s' v' Hin. apply Hleaf. by right.
  - intros p' v' Hp'. destruct (Hall p' v' Hp') as [Hin|Hin]; [by left; right|].
    cbn in Hin. apply elem_of_cons in Hin as [Heq|Hin]; [|by right].
    left. apply to_string_inj in Heq as ->; [by left|]. apply (leaf_short _ _ _ [] Ha Hp').
Qed.

(** * What a caller may rely on *)

(** A JSON pointer's two forms correspond one to one: the constructor
    [split] accepts exactly the strings [to_string] writes, and reads back the
    tokens they were written from; every other string is a parse error 107 (no
    leading slash) or 108 (a ['~'] that is not [~0] or [~1]). *)
Theorem pointer_roundtrip (s : bytes) :
  len s < npos →
  match split s with
  | Ret ptr => ∀ ptr', to_string ptr' = s ↔ ptr' = ptr
  | Throw e => e = json_exception (if bool_decide (head s = Some "/"%char) then 108 else 107) ∧
               ∀ ptr, to_string ptr ≠ s
  | _ => False
  end.
Proof.
  intros Hs. assert (∀ ptr, to_string ptr = s → split s = Ret ptr) as Hw
    by (intros ptr <-; by apply split_to_string).
  destruct (split s) as [ptr|e| | |] eqn:E.
  - intros ptr'. split; [intros H; by apply Hw in H as [= ->] | intros ->; by apply to_string_split].
  - split; [|by intros ptr ?%Hw]. revert E. rewrite split_spec by done.
    destruct s as [|c s]; [done|]. unfold is_char. cbn [head].
    case_bool_decide as Hc; cbn [negb].
    + subst c. rewrite bool_decide_true by done. by destruct (forallb _ _); intros [= <-].
    + rewrite bool_decide_false by congruence. by intros [= <-].
  - revert E. rewrite split_spec by done. destruct s; [done|]. by repeat case_match.
  - revert E. rewrite split_spec by done. destruct s; [done|]. by repeat case_match.
  - revert E. rewrite split_spec by done. destruct s; [done|]. by repeat case_match.
Qed.

(** [contains(ptr)] is whether [at(ptr)] finds a value, for every value and
    pointer; it throws only out_of_range 404 or 410, where [at] throws too (a
    token that is empty, or an index of 2^64 - 1 and more), and never one of the
    parse errors 106 and 109. *)
Theorem contains_at (ptr : json_pointer) (j : json) :
  match contains ptr j with
  | Ret true => ∃ v, at_pointer ptr j = Ret v
  | Ret false => ∃ e, at_pointer ptr j = Throw e
  | Throw e => e ∈ json_exception <$> [404; 410] ∧ at_pointer ptr j = Throw e
  | _ => False
  end.
Proof.
  revert j. induction ptr as [|token ptr IH]; intros j; [by exists j|].
  rewrite at_pointer_cons. cbn [contains]. destruct j as [| | | | | | |l|l]; try (by eexists).
  - cbn [step_checked]. case_bool_decide as Hm.
    { subst token. by eexists. }
    destruct (index_token token) eqn:Ht; cbn [negb].
    + destruct (array_index_token token Ht) as [Hi|[Hi|[n Hi]]]; rewrite Hi; [by split; [by_decide|]..|].
      cbn [mbind outcome_bind at_idx]. destruct (l !! Z.to_nat n) as [v|]; [apply IH | by eexists].
    + destruct (array_index_no_token token Ht Hm) as [e He]. rewrite He. by eexists.
  - cbn [step_checked at_key]. destruct (member_get token l) as [v|]; [apply IH | by eexists].
Qed.

(** C8: [unflatten] undoes [flatten]: the flat object a document is turned into,
    one member per leaf under its JSON pointer, is turned back into the document,
    empty arrays and objects having become null; for documents that JSON pointers
    reach all of and no member of which has the key "0", which [get_and_create]
    would take for an array's first index.  The members come in the order of
    their paths, so "/10" before "/2": elements an array has not got yet are made
    null and filled in later. *)
Theorem flatten_roundtrip (j : json) :
  addressable [] j = true → no_zero_key j = true → unflatten (flatten j) = Ret (blank j).
Proof.
  intros Ha Hz. destruct (flatten_into_spec [] j []) as (Ho & Hm & _ & Hl).
  apply (unflatten_members_spec j _ []); [done | done | apply Ho; constructor | constructor | |].
  - intros s v [Hin|Hp]%Hm; [by apply elem_of_nil in Hin | exact Hp].
  - intros p v Hp. right. by eapply (Hl p).
Qed.

Lemma pointer_roundtrip_witness :
  split (bs "/a~1b/m~0n//0") = Ret [bs "a/b"; bs "m~n"; []; bs "0"] ∧
  to_string [bs "a/b"; bs "m~n"; []; bs "0"] = bs "/a~1b/m~0n//0".
Proof.
  assert (split (bs "/a~1b/m~0n//0") = Ret [bs "a/b"; bs "m~n"; []; bs "0"]) as H
    by (vm_compute; reflexivity).
  split; [exact H|]. pose proof (pointer_roundtrip (bs "/a~1b/m~0n//0") ltac:(vm_compute; reflexivity)) as P.
  rewrite H in P. by apply P.
Defined.

Lemma flatten_roundtrip_witness :
  unflatten (flatten (JObject [(bs "a/b", JArray (JUint <$> seqZ 0 12)); (bs "e", JArray [])])) =
    Ret (JObject [(bs "a/b", JArray (JUint <$> seqZ 0 12)); (bs "e", JNull)]).
Proof.
  rewrite (flatten_roundtrip (JObject [(bs "a/b", JArray (JUint <$> seqZ 0 12)); (bs "e", JArray [])]));
    vm_compute; reflexivity.
Defined.
