(* ===== verification/JsonPatch.v ===== *)
(** * JSON patches (src/cppboot/base/internal/json/json.hpp, [basic_json])

    RFC 6902 and RFC 7396 as the JSON library has them: [patch_inplace] applies
    a list of operations to a document, [diff] computes such a list,
    [merge_patch] merges one document into another; and [operator==], which
    [diff] and the "test" operation go by.  An operation that throws leaves the
    document as the operations before it made it: [patch_inplace] gives the
    document with its outcome.

    Theorems: applying [diff source target] to [source] gives a document equal
    to [target]; what a merge patch makes of every member. *)

From S2P Require Import Prelude StdString JsonValue JsonDump JsonPointer.
Import Serializer.

(** ** [operator==] *)

(** [static_cast<double>], which rounds to the nearest, and [std::int64_t]. *)
Definition to_double (z : Z) : spec_float := binary_normalize 53 1024 z 0 false.
Definition i64 (z : Z) : Z := (z + 2 ^ 63) mod 2 ^ 64 - 2 ^ 63.

Fixpoint json_eq (lhs rhs : json) : bool :=
  match lhs, rhs with
  | JArray l, JArray r =>
      (fix go (l r : list json) : bool :=
         match l, r with
         | [], [] => true
         | x :: l, y :: r => json_eq x y && go l r
         | _, _ => false
         end) l r
  | JObject l, JObject r =>
      (fix go (l r : list (bytes * json)) : bool :=
         match l, r with
         | [], [] => true
         | (k, x) :: l, (k', y) :: r => bool_decide (k = k') && json_eq x y && go l r
         | _, _ => false
         end) l r
  | JNull, JNull => true
  | JString s, JString t => bool_decide (s = t)
  | JBinary s st, JBinary t st' => bool_decide (s = t ∧ st = st')
  | JBool a, JBool b => Bool.eqb a b
  | JInt a, JInt b | JUint a, JUint b => a =? b
  | JFloat a, JFloat b => SFeqb a b
  | JInt a, JFloat b | JUint a, JFloat b => SFeqb (to_double a) b
  | JFloat a, JInt b | JFloat a, JUint b => SFeqb a (to_double b)
  | JUint a, JInt b => i64 a =? b
  | JInt a, JUint b => a =? i64 b
  | _, _ => false
  end.

(** ** Changing a container *)

(** [std::map::erase(key)] *)
Fixpoint member_erase {A} (k : bytes) (l : list (bytes * A)) : list (bytes * A) :=
  match l with
  | [] => []
  | (k', v) :: l => if bool_decide (k = k') then l else (k', v) :: member_erase k l
  end.

(** [erase(idx)] *)
Definition erase_idx (idx : Z) (j : json) : outcome json :=
  match j with
  | JArray l =>
      if len l <=? idx then Throw (json_exception 401)
      else Ret (JArray (take (Z.to_nat idx) l ++ drop (Z.to_nat idx + 1) l))
  | _ => Throw (json_exception 307)
  end.

(** ** [patch_inplace] *)

Inductive patch_operations : Set := p_add | p_remove | p_replace | p_move | p_copy | p_test | p_invalid.

Definition get_op (op : bytes) : patch_operations :=
  if bool_decide (op = bs "add") then p_add
  else if bool_decide (op = bs "remove") then p_remove
  else if bool_decide (op = bs "replace") then p_replace
  else if bool_decide (op = bs "move") then p_move
  else if bool_decide (op = bs "copy") then p_copy
  else if bool_decide (op = bs "test") then p_test
  else p_invalid.

(** What [operation_add] does at the parent. *)
Definition add_child (last_path : bytes) (val parent : json) : outcome json :=
  match parent with
  | JNull | JObject _ => json_set last_path val parent
  | JArray l =>
      if bool_decide (last_path = bs "-") then push_back val parent
      else
        idx ← array_index last_path;
        if len l <? idx then Throw (json_exception 401)
        else Ret (JArray (take (Z.to_nat idx) l ++ val :: drop (Z.to_nat idx) l))
  | _ => Crash
  end.

Definition operation_add (ptr : json_pointer) (val result : json) : outcome json :=
  if empty ptr then Ret val
  else
    top_pointer ← top ptr;
    _ ← (if bool_decide (top_pointer = ptr) then Ret tt else _ ← at_pointer top_pointer result; Ret tt);
    last_path ← back ptr;
    ptr ← pop_back ptr;
    '(parent, put) ← get_checked ptr result;
    parent ← add_child last_path val parent;
    Ret (put parent).

(** What [operation_remove] does at the parent. *)
Definition remove_child (last_path : bytes) (parent : json) : outcome json :=
  match parent with
  | JObject l =>
      match member_get last_path l with
      | Some _ => Ret (JObject (member_erase last_path l))
      | None => Throw (json_exception 403)
      end
  | JArray _ => idx ← array_index last_path; erase_idx idx parent
  | _ => Ret parent
  end.

Definition operation_remove (ptr : json_pointer) (result : json) : outcome json :=
  last_path ← back ptr;
  ptr ← pop_back ptr;
  '(parent, put) ← get_checked ptr result;
  parent ← remove_child last_path parent;
  Ret (put parent).

(** [get_value] on the members of an operation. *)
Definition get_value (val : list (bytes * json)) (member : bytes) (string_type : bool)
  : outcome json :=
  match member_get member val with
  | None => Throw (json_exception 105)
  | Some v =>
      if string_type && negb (match v with JString _ => true | _ => false end)
      then Throw (json_exception 105) else Ret v
  end.
Definition get_string (val : list (bytes * json)) (member : bytes) : outcome bytes :=
  v ← get_value val member true; json_string v.

(** The document with what has been done to it, and how it ended. *)
Definition patched : Type := json * outcome unit.
Definition commit (m : outcome json) (result : json) : patched :=
  match m with
  | Ret j => (j, Ret tt)
  | Throw e => (result, Throw e)
  | Crash => (result, Crash)
  | Undef => (result, Undef)
  | OutOfFuel => (result, OutOfFuel)
  end.
Definition and_then (p : patched) (f : json → patched) : patched :=
  match p with (j, Ret _) => f j | _ => p end.

Definition is_out_of_range (e : exn) : bool :=
  match e with json_exception id => (401 <=? id) && (id <=? 411) | _ => false end.

Section patch.
Context (dump_float : spec_float → bytes).

(** The "test" operation, its left operand first (C++11 leaves the order of the
    two open; it shows when both throw, here and in "replace").  A failure is
    reported with the text of the operation, and that its strings are UTF-8 is
    checked on the way. *)
Definition operation_test (ptr : json_pointer) (val : list (bytes * json)) (result : json)
  : outcome json :=
  success ←
    match (v ← at_pointer ptr result; w ← get_value val (bs "value") false; Ret (json_eq v w)) with
    | Throw e => if is_out_of_range e then Ret false else Throw e
    | m => m
    end;
  if success : bool then Ret result
  else _ ← json_dump dump_float (-1) (JObject val); Throw (json_exception 501).

Definition patch_operation (val : list (bytes * json)) (op : bytes) (ptr : json_pointer)
    (result : json) : patched :=
  match get_op op with
  | p_add =>
      commit (v ← get_value val (bs "value") false; operation_add ptr v result) result
  | p_remove => commit (operation_remove ptr result) result
  | p_replace =>
      commit ('(_, put) ← get_checked ptr result;
              v ← get_value val (bs "value") false; Ret (put v)) result
  | p_move =>
      match (from_path ← get_string val (bs "from");
             from_ptr ← split from_path;
             v ← at_pointer from_ptr result;
             Ret (from_ptr, v)) with
      | Ret (from_ptr, v) =>
          and_then (commit (operation_remove from_ptr result) result)
            (λ result, commit (operation_add ptr v result) result)
      | m => commit (_ ← m; Ret result) result
      end
  | p_copy =>
      commit (from_path ← get_string val (bs "from");
              from_ptr ← split from_path;
              v ← at_pointer from_ptr result;
              operation_add ptr v result) result
  | p_test => commit (operation_test ptr val result) result
  | p_invalid => (result, Throw (json_exception 105))
  end.

Definition patch_step (val result : json) : patched :=
  match val with
  | JObject val =>
      match (op ← get_string val (bs "op");
             path ← get_string val (bs "path");
             ptr ← split path;
             Ret (op, ptr)) with
      | Ret (op, ptr) => patch_operation val op ptr result
      | m => commit (_ ← m; Ret result) result
      end
  | _ => (result, Throw (json_exception 104))
  end.

Fixpoint patch_steps (vals : list json) (result : json) : patched :=
  match vals with
  | [] => (result, Ret tt)
  | val :: vals => and_then (patch_step val result) (patch_steps vals)
  end.

Definition patch_inplace (json_patch result : json) : patched :=
  match json_patch with
  | JArray vals => patch_steps vals result
  | _ => (result, Throw (json_exception 104))
  end.

(** [patch]: on a copy, so a failed patch leaves nothing. *)
Definition patch (json_patch j : json) : outcome json :=
  let '(result, m) := patch_inplace json_patch j in _ ← m; Ret result.

End patch.

(** ** [diff] *)

(** The operations [diff] makes, as the initializer lists spell them. *)
Definition make_op (op path : bytes) (value : option json) : json :=
  let members := [(bs "op", JString op); (bs "path", JString path)] in
  JObject (match value with
           | Some v => members ++ [(bs "value", v)]
           | None => members
           end).

Definition same_type (a b : json) : bool :=
  match a, b with
  | JNull, JNull | JBool _, JBool _ | JInt _, JInt _ | JUint _, JUint _ | JFloat _, JFloat _
  | JString _, JString _ | JBinary _ _, JBinary _ _ | JArray _, JArray _
  | JObject _, JObject _ => true
  | _, _ => false
  end.

(** What [diff] adds to [result]. *)
Fixpoint diff_ops (source target : json) (path : bytes) : list json :=
  if json_eq source target then []
  else if negb (same_type source target) then [make_op (bs "replace") path (Some target)]
  else match source, target with
  | JArray l, JArray l' =>
      (fix go (l l' : list json) (i : Z) : list json :=
         match l, l' with
         | x :: l, y :: l' => diff_ops x y (path ++ "/"%char :: utoa i) ++ go l l' (i + 1)
         | l, l' =>
             rev (imap (λ n _, make_op (bs "remove") (path ++ "/"%char :: utoa (i + Z.of_nat n)) None) l)
             ++ ((λ y, make_op (bs "add") (path ++ bs "/-") (Some y)) <$> l')
         end) l l' 0
  | JObject l, JObject l' =>
      (fix go (l : list (bytes * json)) : list json :=
         match l with
         | [] => []
         | (k, x) :: l =>
             let path_key := path ++ "/"%char :: escape k in
             match member_get k l' with
             | Some y => diff_ops x y path_key
             | None => [make_op (bs "remove") path_key None]
             end ++ go l
         end) l
      ++ ((λ '(k, y), make_op (bs "add") (path ++ "/"%char :: escape k) (Some y))
            <$> filter (λ '(k, _), member_get k l = None) l')
  | _, _ => [make_op (bs "replace") path (Some target)]
  end.

Definition diff (source target : json) (path : bytes) : json :=
  JArray (diff_ops source target path).

(** ** [merge_patch] *)

Fixpoint merge_patch (apply_patch j : json) : json :=
  match apply_patch with
  | JObject l =>
      JObject
        ((fix go (l m : list (bytes * json)) : list (bytes * json) :=
            match l with
            | [] => m
            | (k, JNull) :: l => go l (member_erase k m)
            | (k, v) :: l =>
                go l (member_set k (merge_patch v (default JNull (member_get k m))) m)
            end) l (match j with JObject m => m | _ => [] end))
  | _ => apply_patch
  end.

(** ** A patch without its strings *)

Inductive edit : Type :=
  | ERemove (ptr : json_pointer) (last_path : bytes)
  | EAdd (ptr : json_pointer) (last_path : bytes) (v : json)
  | EReplace (ptr : json_pointer) (v : json).

Definition edit_path (e : edit) : json_pointer :=
  match e with ERemove ptr t | EAdd ptr t _ => ptr ++ [t] | EReplace ptr _ => ptr end.

Definition edit_json (p : json_pointer) (e : edit) : json :=
  let path := to_string (p ++ edit_path e) in
  match e with
  | ERemove _ _ => make_op (bs "remove") path None
  | EAdd _ _ v => make_op (bs "add") path (Some v)
  | EReplace _ v => make_op (bs "replace") path (Some v)
  end.

(** The edit of a container that [e] makes of the child at [token]. *)
Definition under (token : bytes) (e : edit) : edit :=
  match e with
  | ERemove ptr t => ERemove (token :: ptr) t
  | EAdd ptr t v => EAdd (token :: ptr) t v
  | EReplace ptr v => EReplace (token :: ptr) v
  end.

Definition edit_run (e : edit) (j : json) : outcome json :=
  match e with
  | ERemove ptr t => '(c, put) ← get_checked ptr j; c ← remove_child t c; Ret (put c)
  | EAdd ptr t v => '(c, put) ← get_checked ptr j; c ← add_child t v c; Ret (put c)
  | EReplace ptr v => '(_, put) ← get_checked ptr j; Ret (put v)
  end.

Fixpoint edits_run (es : list edit) (j : json) : outcome json :=
  match es with [] => Ret j | e :: es => j ← edit_run e j; edits_run es j end.

Section edits.
Context (rec : json → json → list edit).

Fixpoint array_edits (l l' : list json) (i : Z) : list edit :=
  match l, l' with
  | x :: l, y :: l' => (under (utoa i) <$> rec x y) ++ array_edits l l' (i + 1)
  | l, l' => rev (imap (λ n _, ERemove [] (utoa (i + Z.of_nat n))) l) ++ (EAdd [] (bs "-") <$> l')
  end.

Fixpoint member_edits (l' l : list (bytes * json)) : list edit :=
  match l with
  | [] => []
  | (k, x) :: l =>
      match member_get k l' with Some y => under k <$> rec x y | None => [ERemove [] k] end
      ++ member_edits l' l
  end.

End edits.

Definition new_members (l l' : list (bytes * json)) : list (bytes * json) :=
  filter (λ '(k, _), member_get k l = None) l'.

Fixpoint diff_edits (source target : json) : list edit :=
  if json_eq source target then []
  else if negb (same_type source target) then [EReplace [] target]
  else match source, target with
  | JArray l, JArray l' => array_edits diff_edits l l' 0
  | JObject l, JObject l' =>
      member_edits diff_edits l' l ++ ((λ '(k, y), EAdd [] k y) <$> new_members l l')
  | _, _ => [EReplace [] target]
  end.

(** * [diff] and its edits *)

Lemma edit_json_under p token (es : list edit) :
  edit_json p <$> (under token <$> es) = edit_json (p ++ [token]) <$> es.
Proof.
  rewrite <-list_fmap_compose. apply list_fmap_ext. intros _ e _.
  unfold compose, edit_json. destruct e; cbn; by rewrite <-?app_assoc.
Qed.

Lemma diff_ops_eq source target path : diff_ops source target path =
  if json_eq source target then []
  else if negb (same_type source target) then [make_op (bs "replace") path (Some target)]
  else match source, target with
  | JArray l, JArray l' =>
      (fix go (l l' : list json) (i : Z) : list json :=
         match l, l' with
         | x :: l, y :: l' => diff_ops x y (path ++ "/"%char :: utoa i) ++ go l l' (i + 1)
         | l, l' =>
             rev (imap (λ n _, make_op (bs "remove") (path ++ "/"%char :: utoa (i + Z.of_nat n)) None) l)
             ++ ((λ y, make_op (bs "add") (path ++ bs "/-") (Some y)) <$> l')
         end) l l' 0
  | JObject l, JObject l' =>
      (fix go (l : list (bytes * json)) : list json :=
         match l with
         | [] => []
         | (k, x) :: l =>
             let path_key := path ++ "/"%char :: escape k in
             match member_get k l' with
             | Some y => diff_ops x y path_key
             | None => [make_op (bs "remove") path_key None]
             end ++ go l
         end) l
      ++ ((λ '(k, y), make_op (bs "add") (path ++ "/"%char :: escape k) (Some y))
            <$> filter (λ '(k, _), member_get k l = None) l')
  | _, _ => [make_op (bs "replace") path (Some target)]
  end.
Proof. by destruct source. Qed.

Lemma diff_edits_eq source target : diff_edits source target =
  if json_eq source target then []
  else if negb (same_type source target) then [EReplace [] target]
  else match source, target with
  | JArray l, JArray l' => array_edits diff_edits l l' 0
  | JObject l, JObject l' =>
      member_edits diff_edits l' l ++ ((λ '(k, y), EAdd [] k y) <$> new_members l l')
  | _, _ => [EReplace [] target]
  end.
Proof. by destruct source. Qed.

Lemma rev_fmap {A B} (f : A → B) l : rev (f <$> l) = f <$> rev l.
Proof. symmetry. apply map_rev. Qed.

Lemma replace_here p v :
  [make_op (bs "replace") (to_string p) (Some v)] = edit_json p <$> [EReplace [] v].
Proof. unfold edit_json. cbn. by rewrite app_nil_r. Qed.

Lemma diff_ops_edits source target p :
  diff_ops source target (to_string p) = edit_json p <$> diff_edits source target.
Proof.
  revert target p. induction source as [| | | | | | |l IH|l IH] using json_ind'; intros target p;
    rewrite diff_ops_eq, diff_edits_eq; destruct (json_eq _ _); try done;
    destruct (same_type _ target) eqn:Ht; cbn [negb]; try apply replace_here;
    destruct target as [| | | | | | |l'|l']; try discriminate Ht; try apply replace_here.
  - clear Ht. assert (0 <= 0) as Hi by lia. revert Hi. generalize 0 at 2 3 4 as i. revert l'.
    induction IH as [|x l IHx _ IHl]; intros l' i Hi.
    + cbn. rewrite <-list_fmap_compose. apply list_fmap_ext. intros _ y _. unfold compose, edit_json. cbn.
      by rewrite to_string_snoc.
    + destruct l' as [|y l'].
      * cbn [array_edits fmap list_fmap]. rewrite !app_nil_r, <-rev_fmap, fmap_imap. f_equal.
        apply imap_ext. intros n z _. unfold compose, edit_json. cbn [edit_path app].
        by rewrite to_string_index by lia.
      * cbn [array_edits]. rewrite fmap_app, edit_json_under, to_string_index, IHx by done.
        f_equal. apply IHl. lia.
  - clear Ht. rewrite fmap_app. f_equal.
    + induction IH as [|[k x] l IHx _ IHl]; [done|]. cbn [member_edits].
      rewrite fmap_app. f_equal; [|exact IHl].
      cbn zeta. rewrite <-to_string_snoc. destruct (member_get k l') as [y|]; [|done].
      rewrite edit_json_under. apply IHx.
    + unfold new_members. rewrite <-list_fmap_compose. apply list_fmap_ext. intros _ [k y] _.
      unfold compose, edit_json. cbn. by rewrite to_string_snoc.
Qed.

(** * A patch without its strings does the same *)

Definition short (e : edit) : Prop := len (to_string (edit_path e)) < npos.

Lemma get_string_hit val k s : member_get k val = Some (JString s) → get_string val k = Ret s.
Proof. intros H. unfold get_string, get_value. by rewrite H. Qed.

Lemma get_value_hit val k v : member_get k val = Some v → get_value val k false = Ret v.
Proof. intros H. unfold get_value. by rewrite H. Qed.

Lemma back_snoc p t : back (p ++ [t]) = Ret t.
Proof. unfold back. by rewrite last_snoc. Qed.

Lemma pop_back_snoc p t : pop_back (p ++ [t]) = Ret p.
Proof.
  unfold pop_back, empty. rewrite bool_decide_false by (by destruct p).
  rewrite length_app. cbn. by rewrite Nat.add_sub, take_app_length.
Qed.

(** That the first token leads somewhere is found out again on the way to the
    parent: the test changes nothing. *)
Lemma operation_add_snoc p t v j : operation_add (p ++ [t]) v j = edit_run (EAdd p t v) j.
Proof.
  unfold operation_add, empty. rewrite bool_decide_false by (by destruct p).
  rewrite back_snoc, pop_back_snoc. cbn [mbind outcome_bind edit_run].
  destruct p as [|u p]; cbn [app top mbind outcome_bind].
  { by rewrite bool_decide_true. }
  rewrite bool_decide_false by (by destruct p). rewrite at_pointer_cons.
  unfold get_checked. cbn [follow]. by destruct (step_checked u j) as [[c put]| | | |].
Qed.

Lemma operation_remove_snoc p t j : operation_remove (p ++ [t]) j = edit_run (ERemove p t) j.
Proof. unfold operation_remove. by rewrite back_snoc, pop_back_snoc. Qed.

Section run.
Context (dump_float : spec_float → bytes).

Lemma patch_step_edit e j : short e →
  patch_step dump_float (edit_json [] e) j = commit (edit_run e j) j.
Proof.
  intros Hs. unfold short in Hs.
  destruct e as [p t|p t v|p v]; unfold edit_json, make_op, patch_step; cbn [app edit_path] in *;
    rewrite (get_string_hit _ (bs "path") (to_string _)) by (vm_compute; reflexivity);
    rewrite (get_string_hit _ (bs "op") _) by (vm_compute; reflexivity);
    cbn [mbind outcome_bind]; rewrite split_to_string by done; cbn [mbind outcome_bind];
    unfold patch_operation;
    rewrite ?(get_value_hit _ (bs "value") v) by (vm_compute; reflexivity).
  - by rewrite <-operation_remove_snoc.
  - by rewrite <-operation_add_snoc.
  - done.
Qed.

Lemma patch_steps_edits es j r : Forall short es → edits_run es j = Ret r →
  patch_steps dump_float (edit_json [] <$> es) j = (r, Ret tt).
Proof.
  intros Hs. revert j. induction Hs as [|e es He _ IH]; intros j; cbn [edits_run fmap list_fmap patch_steps].
  { by intros [= ->]. }
  intros H. rewrite patch_step_edit by done. destruct (edit_run e j) as [j'| | | |]; try done.
  cbn. by apply IH.
Qed.

End run.

Lemma edits_run_app es1 es2 j : edits_run (es1 ++ es2) j = j ← edits_run es1 j; edits_run es2 j.
Proof.
  revert j. induction es1 as [|e es1 IH]; intros j; [done|]. cbn.
  destruct (edit_run e j) as [j'| | | |]; [|done..]. apply IH.
Qed.

(** * Editing one child *)

Lemma edit_under token e j c put c' : step_checked token j = Ret (c, put) → edit_run e c = Ret c' →
  edit_run (under token e) j = Ret (put c').
Proof.
  intros Hs He. destruct e as [p t|p t v|p v]; cbn [under edit_run] in *; unfold get_checked in *;
    cbn [follow]; rewrite Hs; cbn [mbind outcome_bind];
    destruct (follow step_checked p c) as [[d put']| | | |]; try discriminate He;
    cbn [mbind outcome_bind] in *.
  - destruct (remove_child t d) as [d'| | | |]; try discriminate He. by injection He as <-.
  - destruct (add_child t v d) as [d'| | | |]; try discriminate He. by injection He as <-.
  - by injection He as <-.
Qed.

(** A step to a child that is there can be made again after an assignment. *)
Definition settled (token : bytes) (put : json → json) : Prop :=
  ∀ x, ∃ put', step_checked token (put x) = Ret (x, put') ∧ ∀ y, put' y = put y.

Lemma edits_under token es put c c' : settled token put → edits_run es c = Ret c' →
  edits_run (under token <$> es) (put c) = Ret (put c').
Proof.
  intros Hset. revert c. induction es as [|e es IH]; intros c; cbn [edits_run fmap list_fmap].
  { by intros [= ->]. }
  intros H. destruct (edit_run e c) as [d| | | |] eqn:He; try discriminate H.
  destruct (Hset c) as (put' & Hs & Hp). rewrite (edit_under _ _ _ _ _ _ Hs He), Hp. by apply IH.
Qed.

Lemma settled_element l i : (i < length l)%nat → Z.of_nat i < ULLONG_MAX →
  settled (utoa (Z.of_nat i)) (λ v, JArray (<[i := v]> l)).
Proof.
  intros Hi Hmax x. eexists. cbn [step_checked]. rewrite bool_decide_false.
  2: { intros E. pose proof (utoa_digits (Z.of_nat i) ltac:(lia)) as Hd. rewrite E in Hd.
       by apply Forall_cons in Hd as [Hd _]. }
  rewrite array_index_utoa by lia. cbn [mbind outcome_bind at_idx].
  rewrite Nat2Z.id, list_lookup_insert_eq by done. split; [done|].
  intros y. cbn. by rewrite list_insert_insert_eq.
Qed.

Lemma settled_member k l : settled k (λ v, JObject (member_set k v l)).
Proof.
  intros x. eexists. cbn [step_checked at_key]. rewrite member_get_set. split; [done|].
  intros y. cbn. by rewrite member_set_set.
Qed.

Lemma member_set_same k v (l : list (bytes * json)) : in_order l → member_get k l = Some v →
  member_set k v l = l.
Proof.
  unfold in_order. induction 1 as [|[k' w] l Hl IH Hf]; [done|]. cbn. case_bool_decide as E.
  - subst k'. intros [= ->]. by rewrite bytes_cmp_refl.
  - intros Hg. apply member_get_elem in Hg as Hin; [|done]. rewrite Forall_forall in Hf.
    apply Hf in Hin. unfold key_lt, bytes_lt in Hin. cbn in Hin.
    rewrite bytes_cmp_antisym, Hin. cbn. by rewrite IH.
Qed.

(** * The edits of a container *)

Lemma json_eq_array l r : json_eq (JArray l) (JArray r) = true ↔ Forall2 (λ x y, json_eq x y = true) l r.
Proof.
  revert r. induction l as [|x l IH]; intros [|y r]; try (split; [done | by inversion 1]); [].
  change (json_eq (JArray (x :: l)) (JArray (y :: r))) with (json_eq x y && json_eq (JArray l) (JArray r)).
  by rewrite Forall2_cons, <-IH, andb_true_iff.
Qed.

Lemma json_eq_object l r : json_eq (JObject l) (JObject r) = true ↔
  Forall2 (λ p q : bytes * json, p.1 = q.1 ∧ json_eq p.2 q.2 = true) l r.
Proof.
  revert r. induction l as [|[k x] l IH]; intros [|[k' y] r]; try (split; [done | by inversion 1]); [].
  change (json_eq (JObject ((k, x) :: l)) (JObject ((k', y) :: r))) with
      (bool_decide (k = k') && json_eq x y && json_eq (JObject l) (JObject r)).
  by rewrite Forall2_cons, <-IH, !andb_true_iff, bool_decide_eq_true.
Qed.

Lemma add_edits_run ys m : edits_run (EAdd [] (bs "-") <$> ys) (JArray m) = Ret (JArray (m ++ ys)).
Proof.
  revert m. induction ys as [|y ys IH]; intros m; [by rewrite app_nil_r|].
  cbn [fmap list_fmap edits_run edit_run get_checked follow mbind outcome_bind add_child push_back].
  rewrite bool_decide_true by done. cbn [mbind outcome_bind]. rewrite IH, <-app_assoc. done.
Qed.

(** The indices are removed from the last one down. *)
Lemma remove_edits_run l m : len m + len l < ULLONG_MAX →
  edits_run (rev (imap (λ n _, ERemove [] (utoa (len m + Z.of_nat n))) l)) (JArray (m ++ l)) =
    Ret (JArray m).
Proof.
  induction l as [|x l IH] using rev_ind; intros Hl; [by rewrite app_nil_r|].
  rewrite imap_app, rev_app_distr.
  cbn [imap rev app edits_run edit_run get_checked follow mbind outcome_bind].
  cbn [remove_child]. rewrite array_index_utoa by (revert Hl; len_lia). cbn [mbind outcome_bind erase_idx].
  rewrite (proj2 (Z.leb_gt _ _)) by len_lia. unfold compose. rewrite Nat.add_0_r.
  replace (Z.to_nat (len m + Z.of_nat (length l))) with (length (m ++ l)) by (rewrite length_app; lia).
  rewrite app_assoc, take_app_length, drop_ge, app_nil_r by (rewrite !length_app; cbn; lia).
  apply IH. revert Hl. len_lia.
Qed.

(** The edits of a child run: what is shown of every child by induction. *)
Definition edits_reach (x y : json) : Prop :=
  ∃ r, edits_run (diff_edits x y) x = Ret r ∧ json_eq r y = true.

Lemma array_edits_run l l' m :
  (∀ i x y, l !! i = Some x → l' !! i = Some y → edits_reach x y) →
  len m + len l < ULLONG_MAX → Forall (λ y, json_eq y y = true) l' →
  ∃ r, edits_run (array_edits diff_edits l l' (len m)) (JArray (m ++ l)) = Ret (JArray (m ++ r)) ∧
       Forall2 (λ x y, json_eq x y = true) r l'.
Proof.
  revert l' m. induction l as [|x l IH]; intros l' m Hr Hl Hy.
  { exists l'. cbn [array_edits imap rev app]. rewrite app_nil_r, add_edits_run. split; [done|].
    by apply Forall_Forall2_diag. }
  destruct l' as [|y l'].
  { exists []. cbn [array_edits fmap list_fmap]. rewrite (app_nil_r (rev _)), app_nil_r.
    by rewrite remove_edits_run. }
  destruct (Hr 0%nat x y eq_refl eq_refl) as (x' & Hx & Hxy).
  apply Forall_cons in Hy as [_ Hy].
  cbn [array_edits]. rewrite edits_run_app.
  assert (settled (utoa (len m)) (λ v, JArray (<[length m := v]> (m ++ x :: l)))) as Hset
    by (apply settled_element; [rewrite length_app; cbn; lia | revert Hl; len_lia]).
  pose proof (edits_under _ _ _ _ _ Hset Hx) as He. cbv beta in He.
  rewrite !insert_app_r_alt, Nat.sub_diag in He by lia. cbn [insert list_insert] in He.
  rewrite He. cbn [mbind outcome_bind].
  destruct (IH l' (m ++ [x'])) as (r & Hrun & Hall).
  { intros i a b Ha Hb. by apply (Hr (S i)). }
  { revert Hl. len_lia. }
  { done. }
  exists (x' :: r). split; [|by constructor].
  rewrite <-!app_assoc in Hrun. cbn [app] in Hrun. rewrite <-Hrun. f_equal. f_equal. len_lia.
Qed.

Lemma member_get_erase k k' (l : list (bytes * json)) : in_order l →
  member_get k (member_erase k' l) = if bool_decide (k = k') then None else member_get k l.
Proof.
  unfold in_order. induction 1 as [|[k2 v] l Hl IH Hf]; cbn; [by case_bool_decide|].
  destruct (decide (k' = k2)) as [->|E].
  - rewrite (bool_decide_true (k2 = k2)) by done. case_bool_decide; [subst|done].
    apply member_get_notin. by eapply key_lt_elem.
  - rewrite (bool_decide_false (k' = k2)) by done. cbn. rewrite IH.
    destruct (decide (k = k')) as [->|]; [by rewrite bool_decide_false, bool_decide_true|].
    by rewrite (bool_decide_false (k = k')).
Qed.

Lemma member_erase_in_order k (l : list (bytes * json)) : in_order l → in_order (member_erase k l).
Proof.
  unfold in_order. induction 1 as [|[k' v] l Hl IH Hf]; cbn; [constructor|].
  case_bool_decide; [done|]. constructor; [done|].
  rewrite !Forall_forall in *. intros p Hp. apply Hf. clear -Hp.
  induction l as [|[k2 w] l IH]; cbn in *; [done|]. revert Hp. case_bool_decide.
  - by right.
  - intros [->|Hp]%elem_of_cons; [by left | right; auto].
Qed.

(** What the edits of the members of [l] make of the member [k]. *)
Definition edited (l m l' : list (bytes * json)) (k : bytes) (v : option json) : Prop :=
  match member_get k l, member_get k l' with
  | None, _ => v = member_get k m
  | Some _, None => v = None
  | Some _, Some y => ∃ x, v = Some x ∧ json_eq x y = true
  end.

Lemma member_edits_run l l' m : in_order l → in_order m →
  (∀ k x, (k, x) ∈ l → member_get k m = Some x) →
  (∀ k x y, (k, x) ∈ l → member_get k l' = Some y → edits_reach x y) →
  ∃ m', edits_run (member_edits diff_edits l' l) (JObject m) = Ret (JObject m') ∧
        in_order m' ∧ ∀ k, edited l m l' k (member_get k m').
Proof.
  intros Hl. revert m. unfold in_order in Hl.
  induction Hl as [|[k x] l Hl IH Hf]; intros m Hm Hg Hr; cbn [member_edits].
  { by exists m. }
  assert (member_get k l = None) as Hk by (apply member_get_notin; by eapply key_lt_elem).
  pose proof (Hg k x ltac:(by left)) as Hx.
  assert (∃ m1, edits_run (match member_get k l' with Some y => under k <$> diff_edits x y
                           | None => [ERemove [] k] end) (JObject m) = Ret (JObject m1) ∧
    in_order m1 ∧ edited ((k, x) :: l) m l' k (member_get k m1) ∧
    ∀ k', k' ≠ k → member_get k' m1 = member_get k' m) as (m1 & Hrun & Hm1 & Hk1 & Hne).
  { unfold edited. cbn [member_get]. rewrite (bool_decide_true (k = k)) by done.
    destruct (member_get k l') as [y|] eqn:Hy.
    - destruct (Hr k x y ltac:(by left) Hy) as (x' & Hrun & Heq).
      exists (member_set k x' m). split_and!; [|by apply member_set_in_order| |].
      + rewrite <-(member_set_same k x m) at 1 by done.
        apply (edits_under _ _ _ _ _ (settled_member k m) Hrun).
      + exists x'. by rewrite member_get_set.
      + intros k' Hk'. by rewrite member_get_set_ne.
    - exists (member_erase k m). split_and!; [|by apply member_erase_in_order| |].
      + cbn. by rewrite Hx.
      + by rewrite member_get_erase, bool_decide_true.
      + intros k' Hk'. by rewrite member_get_erase, bool_decide_false. }
  destruct (IH m1 Hm1) as (m' & Hrun' & Hm' & Hall).
  { intros k' x' Hin. rewrite Hne; [apply Hg; by right|]. intros ->.
    apply (key_lt_elem _ _ _ Hf), list_elem_of_fmap. by exists (k, x'). }
  { intros k' x' y Hin. apply Hr. by right. }
  exists m'. split_and!; [by rewrite edits_run_app, Hrun | done|].
  intros k'. specialize (Hall k'). unfold edited in *. cbn [member_get] in *.
  rewrite (bool_decide_true (k = k)) in Hk1 by done. destruct (decide (k' = k)) as [->|E].
  - rewrite Hk in Hall. by rewrite bool_decide_true, Hall.
  - rewrite bool_decide_false by done. destruct (member_get k' l); [done|]. by rewrite Hall, Hne.
Qed.

(** The members that are new. *)
Lemma new_members_run a m : in_order m → NoDup a.*1 →
  ∃ m', edits_run ((λ '(k, y), EAdd [] k y) <$> a) (JObject m) = Ret (JObject m') ∧
        in_order m' ∧ ∀ k, member_get k m' = match member_get k a with
                                            | Some y => Some y | None => member_get k m end.
Proof.
  intros Hm Ha. revert m Hm. induction a as [|[k y] a IH]; intros m Hm; [by exists m|].
  apply NoDup_cons in Ha as [Hk Ha].
  destruct (IH Ha (member_set k y m)) as (m' & Hrun & Hm' & Hg); [by apply member_set_in_order|].
  exists m'. split_and!; [exact Hrun | done|]. intros k'. rewrite Hg. cbn.
  case_bool_decide as E.
  - subst k'. by rewrite (member_get_notin k a), member_get_set.
  - by rewrite member_get_set_ne.
Qed.

Lemma member_get_new k l l' : member_get k (new_members l l') =
  match member_get k l with None => member_get k l' | Some _ => None end.
Proof.
  unfold new_members. induction l' as [|[k' y] l' IH]; [by destruct (member_get k l)|].
  rewrite filter_cons. case_decide as H; cbn; rewrite IH; case_bool_decide as E; try done; subst k'.
  - by rewrite H.
  - by destruct (member_get k l).
Qed.

Lemma new_members_keys l l' : NoDup l'.*1 → NoDup (new_members l l').*1.
Proof. unfold new_members. intros H. eapply sublist_NoDup; [done|]. apply fmap_sublist, sublist_filter. Qed.

Lemma in_order_NoDup (l : list (bytes * json)) : in_order l → NoDup l.*1.
Proof.
  unfold in_order. induction 1 as [|[k v] l Hl IH Hf]; [constructor|].
  apply NoDup_cons. split; [by eapply key_lt_elem | done].
Qed.

(** Two objects are equal when they agree on every key. *)
Lemma json_eq_members (m l' : list (bytes * json)) : in_order m → in_order l' →
  (∀ k, option_Forall2 (λ x y, json_eq x y = true) (member_get k m) (member_get k l')) →
  json_eq (JObject m) (JObject l') = true.
Proof. intros Hm Hl Hk. apply json_eq_object. by apply (members_agree (λ x y, json_eq x y = true)). Qed.

Lemma json_eq_self_get l k y : json_eq (JObject l) (JObject l) = true → member_get k l = Some y →
  json_eq y y = true.
Proof.
  intros H%json_eq_object. induction l as [|[k' z] l IH]; [done|].
  apply Forall2_cons in H as [[_ Hz] H]. cbn. case_bool_decide; [by intros [= <-] | by apply IH].
Qed.

Lemma diff_edits_reach source target ps pt :
  addressable ps source = true → addressable pt target = true → json_eq target target = true →
  edits_reach source target.
Proof.
  revert target ps pt.
  induction source as [| | | | | | |l IH|l IH] using json_ind'; intros target ps pt Hs Ht Heq;
    unfold edits_reach; rewrite diff_edits_eq;
    match goal with |- context [json_eq ?s target] => destruct (json_eq s target) eqn:Hst end;
    try (eexists; split; [reflexivity | assumption]); destruct (same_type _ target) eqn:Hty;
    cbn [negb]; try (eexists; split; [reflexivity | assumption]);
    destruct target as [| | | | | | |l'|l']; try discriminate Hty;
    try (eexists; split; [reflexivity | assumption]).
  - apply addressable_array in Hs as (Hlen & _ & Hs). apply addressable_array in Ht as (_ & _ & Ht).
    apply json_eq_array in Heq.
    assert (Forall (λ y, json_eq y y = true) l') as Hy.
    { apply Forall_lookup. intros i y Hi. exact (Forall2_lookup_lr _ _ _ _ _ _ Heq Hi Hi). }
    destruct (array_edits_run l l' []) as (r & Hrun & Hr); [|done|done|].
    { intros i x y Hx Hy'. rewrite Forall_lookup in IH, Hy. eapply IH; eauto. }
    exists (JArray r). by rewrite json_eq_array.
  - apply addressable_object in Hs as (Hl & Hs). apply addressable_object in Ht as (Hl' & Ht).
    destruct (member_edits_run l l' l Hl Hl) as (m & Hrun & Hm & Hed).
    { intros k x. by apply member_get_elem. }
    { intros k x y Hx Hy. rewrite Forall_forall in IH.
      apply (IH (k, x) Hx y _ _ (Hs _ _ Hx) (Ht _ _ (proj1 (member_get_elem _ _ _ Hl') Hy))).
      by eapply json_eq_self_get. }
    destruct (new_members_run (new_members l l') m Hm) as (m' & Hrun' & Hm' & Hg).
    { by apply new_members_keys, in_order_NoDup. }
    exists (JObject m'). split; [by rewrite edits_run_app, Hrun|].
    apply json_eq_members; [done..|]. intros k. rewrite Hg, member_get_new.
    specialize (Hed k). unfold edited in Hed.
    destruct (member_get k l) as [x|] eqn:Hk.
    + destruct (member_get k l') as [y|]; [|rewrite Hed; constructor].
      destruct Hed as (x' & -> & Hx). by constructor.
    + rewrite Hed. destruct (member_get k l') as [y|] eqn:Hy; constructor.
      by eapply json_eq_self_get.
Qed.

(** ** Their paths are short *)

Definition short_at (p : json_pointer) (e : edit) : Prop :=
  len (to_string (p ++ edit_path e)) < npos.

Lemma short_under p token es : Forall (short_at (p ++ [token])) es →
  Forall (short_at p) (under token <$> es).
Proof.
  intros H. apply Forall_fmap. eapply Forall_impl; [exact H|]. intros e. unfold compose, short_at.
  rewrite <-app_assoc. by destruct e.
Qed.

Lemma array_edits_short p l l' n :
  (∀ i x y, l !! i = Some x → l' !! i = Some y →
     Forall (short_at (p ++ [utoa (Z.of_nat (n + i))])) (diff_edits x y)) →
  (∀ i x, l !! i = Some x → len (to_string (p ++ [utoa (Z.of_nat (n + i))])) < npos) →
  len (to_string (p ++ [bs "-"])) < npos →
  Forall (short_at p) (array_edits diff_edits l l' (Z.of_nat n)).
Proof.
  intros Hr Hs Hd. revert l' n Hr Hs. induction l as [|x l IH]; intros l' n Hr Hs.
  { apply Forall_fmap, Forall_forall. by intros y _. }
  destruct l' as [|y l'].
  { cbn [array_edits fmap list_fmap]. rewrite app_nil_r. apply Forall_forall. intros e He.
    apply list_elem_of_In, in_rev, list_elem_of_In in He.
    apply elem_of_lookup_imap in He as (i & z & -> & Hz). unfold short_at. cbn [edit_path app].
    rewrite <-Nat2Z.inj_add. by eapply Hs. }
  cbn [array_edits]. apply Forall_app. split.
  - apply short_under. rewrite <-(Nat.add_0_r n). by apply (Hr 0%nat).
  - replace (Z.of_nat n + 1) with (Z.of_nat (S n)) by lia. apply IH.
    + intros i a b Ha Hb. replace (S n + i)%nat with (n + S i)%nat by lia. by apply Hr.
    + intros i a Ha. replace (S n + i)%nat with (n + S i)%nat by lia. by eapply (Hs (S i)).
Qed.

Lemma diff_edits_short source target p :
  addressable (to_string p) source = true → addressable (to_string p) target = true →
  Forall (short_at p) (diff_edits source target).
Proof.
  revert target p.
  induction source as [| | | | | | |l IH|l IH] using json_ind'; intros target p Hs Ht;
    assert (Forall (short_at p) [EReplace [] target]) as Hrep by
      (constructor; [unfold short_at; cbn; rewrite app_nil_r; by eapply addressable_short | constructor]);
    rewrite diff_edits_eq; destruct (json_eq _ target); try (by constructor);
    destruct (same_type _ target) eqn:Hty; cbn [negb]; try done;
    destruct target as [| | | | | | |l'|l']; try discriminate Hty; try done; clear Hrep Hty.
  - apply addressable_array in Hs as (_ & Hdash & Hs). apply addressable_array in Ht as (_ & _ & Ht).
    assert (∀ i : nat, to_string p ++ "/"%char :: utoa (Z.of_nat i) = to_string (p ++ [utoa (Z.of_nat i)]))
      as Hp by (intros i; apply to_string_index; lia).
    apply (array_edits_short p l l' 0); [| |by rewrite to_string_snoc].
    + intros i x y Hx Hy. rewrite Forall_lookup in IH. eapply IH; [exact Hx| |]; rewrite <-Hp; auto.
    + intros i x Hx. rewrite <-Hp. eapply addressable_short, Hs, Hx.
  - apply addressable_object in Hs as (_ & Hs). apply addressable_object in Ht as (Hl' & Ht).
    apply Forall_app. split.
    + induction IH as [|[k x] l IHx _ IHl]; [constructor|]. cbn [member_edits]. apply Forall_app. split.
      * specialize (Hs k x ltac:(by left)). rewrite <-to_string_snoc in Hs.
        destruct (member_get k l') as [y|] eqn:Hy.
        -- apply short_under. apply IHx; [done|]. rewrite to_string_snoc. apply Ht.
           by apply member_get_elem.
        -- constructor; [|constructor]. unfold short_at. cbn. by eapply addressable_short.
      * apply IHl. intros k' x' Hin. apply Hs. by right.
    + apply Forall_fmap, Forall_forall. intros [k y] Hin. unfold compose, short_at. cbn.
      rewrite to_string_snoc. eapply addressable_short, Ht.
      by apply list_elem_of_filter in Hin as [_ Hin].
Qed.

(** ** Assigning what is there *)

Lemma get_checked_put ptr j path v put : addressable path j = true →
  get_checked ptr j = Ret (v, put) → put v = j.
Proof.
  unfold get_checked. revert j path v put. induction ptr as [|t ptr IH]; intros j path v put Ha; cbn [follow].
  { by intros [= <- <-]. }
  intros H. apply bind_Ret in H as ([c put1] & H1 & H). apply bind_Ret in H as ([d put2] & H2 & H).
  injection H as <- <-. revert H1. destruct j as [| | | | | | |l|l]; try done; cbn [step_checked at_key].
  - case_bool_decide; [done|]. intros H1. apply bind_Ret in H1 as (n & _ & H1). cbn [at_idx] in H1.
    destruct (l !! Z.to_nat n) as [c'|] eqn:Hc; [|done]. injection H1 as -> <-.
    apply addressable_array in Ha as (_ & _ & Ha). rewrite (IH c _ _ _ (Ha _ _ Hc) H2).
    by rewrite list_insert_id.
  - destruct (member_get t l) as [c'|] eqn:Hc; [|done]. intros [= -> <-].
    apply addressable_object in Ha as (Hl & Ha). pose proof (proj1 (member_get_elem _ _ _ Hl) Hc) as Hin.
    rewrite (IH c _ _ _ (Ha _ _ Hin) H2). by rewrite member_set_same.
Qed.

(** * Merging *)

Lemma merge_patch_members l m : in_order l → in_order m → ∃ m',
  merge_patch (JObject l) (JObject m) = JObject m' ∧ in_order m' ∧
  ∀ k, member_get k m' =
    match member_get k l with
    | None => member_get k m
    | Some JNull => None
    | Some v => Some (merge_patch v (default JNull (member_get k m)))
    end.
Proof.
  intros Hl. revert m. unfold in_order in Hl. induction Hl as [|[k v] l Hl IH Hf]; intros m Hm.
  { by exists m. }
  assert (member_get k l = None) as Hk by (apply member_get_notin; by eapply key_lt_elem).
  set (m1 := match v with
             | JNull => member_erase k m
             | _ => member_set k (merge_patch v (default JNull (member_get k m))) m end).
  assert (in_order m1) as Hm1.
  { unfold m1. destruct v; first [by apply member_erase_in_order | by apply member_set_in_order]. }
  destruct (IH m1 Hm1) as (m' & Hrun & Hm' & Hg).
  exists m'. split_and!; [rewrite <-Hrun; by destruct v | done|].
  intros k'. rewrite Hg. cbn [member_get]. destruct (decide (k' = k)) as [->|Hne].
  - rewrite Hk, bool_decide_true by done. unfold m1.
    destruct v; rewrite ?member_get_set, ?member_get_erase, ?bool_decide_true by done; done.
  - rewrite bool_decide_false by done.
    assert (member_get k' m1 = member_get k' m) as ->; [|done]. unfold m1.
    destruct v; rewrite ?member_get_set_ne, ?member_get_erase, ?bool_decide_false by done; done.
Qed.

(** ** Two documents *)

Definition before : json :=
  JObject [(bs "a/b", JArray [JUint 1; JUint 2; JUint 3]); (bs "gone", JNull);
           (bs "n", JObject [(bs "x", JBool true)])].
Definition after : json :=
  JObject [(bs "a/b", JArray [JUint 1; JInt (-2)]); (bs "n", JObject [(bs "x", JString (bs "y"))]);
           (bs "new", JArray [])].

(** * What a caller may rely on *)

(** C7: [patch] undoes what [diff] saw: applied to [source], the patch
    [diff(source, target)] throws nothing and gives a value that compares equal
    to [target], for all documents whose keys are in order (as [std::map] keeps
    them), whose paths fit a string and whose arrays are shorter than 2^64 - 1;
    [target] has no NaN, which equals nothing.  The removals of an array's tail
    go from its end, and the keys are escaped in the paths. *)
Theorem diff_patches (dump_float : spec_float → bytes) (source target : json) :
  addressable [] source = true → addressable [] target = true → json_eq target target = true →
  ∃ result, patch dump_float (diff source target []) source = Ret result ∧
            json_eq result target = true.
Proof.
  intros Hs Ht Heq. destruct (diff_edits_reach source target [] [] Hs Ht Heq) as (r & Hrun & Hr).
  exists r. split; [|done]. unfold patch, patch_inplace, diff.
  change (diff_ops source target []) with (diff_ops source target (to_string [])).
  rewrite (diff_ops_edits source target []), (patch_steps_edits _ _ _ r); [done| |done].
  exact (diff_edits_short source target [] Hs Ht).
Qed.

(** C30: A merge patch does what RFC 7396 says of every member: a patch that is no
    object replaces the value; an object makes an object of it, in which a member
    the patch does not name is kept, one it gives as null is gone, and any other
    is the merge of the patch's member into the old one, or into null. *)
Theorem merge_patch_rfc7396 (apply_patch j : json) :
  match apply_patch with
  | JObject l =>
      let m := match j with JObject m => m | _ => [] end in
      in_order l → in_order m →
      ∃ m', merge_patch apply_patch j = JObject m' ∧ in_order m' ∧
        ∀ k, member_get k m' =
          match member_get k l with
          | None => member_get k m
          | Some JNull => None
          | Some v => Some (merge_patch v (default JNull (member_get k m)))
          end
  | _ => merge_patch apply_patch j = apply_patch
  end.
Proof.
  destruct apply_patch as [| | | | | | | |l]; try done. cbv zeta. intros Hl Hm.
  destruct (merge_patch_members l _ Hl Hm) as (m' & H & Hm' & Hg). exists m'. by split.
Qed.

(** What a patch does below a value that has no members.  Adding under a
    number, a string or a boolean fails an assertion, although the code takes it
    that such a parent cannot be; removing from under one, or from under null,
    does nothing, where RFC 6902 asks for an error. *)
Theorem patch_under_primitive (ptr : json_pointer) (last_path : bytes) (v parent j : json) :
  addressable [] j = true → at_pointer ptr j = Ret parent → is_primitive parent = true →
  operation_remove (ptr ++ [last_path]) j = Ret j ∧
  (parent ≠ JNull → operation_add (ptr ++ [last_path]) v j = Crash).
Proof.
  intros Ha Hp Hprim. unfold at_pointer in Hp. apply bind_Ret in Hp as ([c put] & Hc & Hp).
  injection Hp as ->. rewrite operation_remove_snoc, operation_add_snoc. cbn [edit_run].
  rewrite Hc. cbn [mbind outcome_bind]. split.
  - pose proof (get_checked_put _ _ _ _ _ Ha Hc) as Hput. by destruct parent; cbn; rewrite ?Hput.
  - by destruct parent.
Qed.

(** [operator==] takes the unsigned 2^64 - 1 for the signed -1: between them
    [diff] sees no change. *)
Theorem equal_modulo (a b : Z) (path : bytes) :
  0 <= a < 2 ^ 64 → - 2 ^ 63 <= b < 2 ^ 63 →
  diff (JUint a) (JInt b) path = JArray [] ↔ (a - b) mod 2 ^ 64 = 0.
Proof.
  intros Ha Hb. unfold diff, diff_ops, json_eq. cbn [same_type negb].
  assert (i64 a = b ↔ (a - b) mod 2 ^ 64 = 0) as <-.
  { unfold i64. Z.div_mod_to_equations. lia. }
  destruct (i64 a =? b) eqn:E; bool_hyps; [done|]. split; [done | by intros ?].
Qed.

Lemma diff_patches_witness :
  ∃ result, patch (λ _, []) (diff before after []) before = Ret result ∧ json_eq result after = true.
Proof.
  apply (diff_patches (λ _, []) before after); vm_compute; reflexivity.
Defined.

Lemma patch_under_primitive_witness :
  operation_remove [bs "gone"; bs "k"] before = Ret before ∧
  (JNull ≠ JNull → operation_add [bs "gone"; bs "k"] JNull before = Crash).
Proof.
  apply (patch_under_primitive [bs "gone"] (bs "k") JNull JNull before); vm_compute; reflexivity.
Defined.

Lemma merge_patch_rfc7396_witness :
  ∃ m', merge_patch after before = JObject m' ∧ in_order m' ∧ member_get (bs "gone") m' = Some JNull.
Proof.
  assert (in_order [(bs "a/b", JArray [JUint 1; JInt (-2)]);
    (bs "n", JObject [(bs "x", JString (bs "y"))]); (bs "new", JArray [])]) as Hl
    by (apply keys_sorted_in_order; vm_compute; reflexivity).
  assert (in_order [(bs "a/b", JArray [JUint 1; JUint 2; JUint 3]); (bs "gone", JNull);
    (bs "n", JObject [(bs "x", JBool true)])]) as Hm
    by (apply keys_sorted_in_order; vm_compute; reflexivity).
  destruct (merge_patch_rfc7396 after before Hl Hm) as (m' & H & Ho & Hg).
  exists m'. split_and!; [exact H | exact Ho|]. rewrite Hg. vm_compute. reflexivity.
Defined.

Lemma equal_modulo_witness :
  diff (JUint (2 ^ 64 - 1)) (JInt (-1)) [] = JArray [] ↔ (2 ^ 64 - 1 - -1) mod 2 ^ 64 = 0.
Proof. apply (equal_modulo (2 ^ 64 - 1) (-1) []); lia. Defined.
