(* ===== verification/JsonFloat.v ===== *)
(** * Floating point in the binary formats (src/cppboot/base/internal/json/json.hpp)

    What [write_compact_float] and [get_number] need of [float] and [double]: the
    conversions between them (IEEE 754, to nearest even, as the standard library's
    [SpecFloat] defines them) and the bits of their objects in memory.  [SpecFloat]
    has one NaN; its bits are a parameter where they are written. *)

From Stdlib Require Import SpecFloat.
From S2P Require Import Prelude.

(** ** The bits *)

(** [mw] bits of mantissa below [ew] bits of exponent below the sign. *)
Section bits.
Context (mw ew : Z) (nan_bits : Z).

Definition prec : Z := mw + 1.
Definition emax : Z := 2 ^ (ew - 1).

Definition sign_bit (s : bool) : Z := if s then 2 ^ (mw + ew) else 0.

Definition float_bits (f : spec_float) : Z :=
  match f with
  | S754_zero s => sign_bit s
  | S754_infinity s => sign_bit s + (2 ^ ew - 1) * 2 ^ mw
  | S754_nan => nan_bits
  | S754_finite s m e =>
      if Z.pos m <? 2 ^ mw then sign_bit s + Z.pos m
      else sign_bit s + (e - emin prec emax + 1) * 2 ^ mw + (Z.pos m - 2 ^ mw)
  end.

Definition bits_float (x : Z) : spec_float :=
  let s := 2 ^ (mw + ew) <=? x in
  let ex := x / 2 ^ mw mod 2 ^ ew in
  let mant := x mod 2 ^ mw in
  if ex =? 0 then
    match mant with Z.pos m => S754_finite s m (emin prec emax) | _ => S754_zero s end
  else if ex =? 2 ^ ew - 1 then
    (if mant =? 0 then S754_infinity s else S754_nan)
  else S754_finite s (Z.to_pos (mant + 2 ^ mw)) (ex - 1 + emin prec emax).

End bits.

Definition double_bits : Z → spec_float → Z := float_bits 52 11.
Definition bits_double : Z → spec_float := bits_float 52 11.
(** A [float] that is not a NaN: no other is written. *)
Definition single_bits : spec_float → Z := float_bits 23 8 0.
Definition bits_single : Z → spec_float := bits_float 23 8.

(** ** Conversions *)

Definition round_to (p em : Z) (f : spec_float) : spec_float :=
  match f with
  | S754_finite s m e => binary_normalize p em (cond_Zopp s (Z.pos m)) e s
  | _ => f
  end.

(** [static_cast<float>] of a [double], [static_cast<double>] of a [float]. *)
Definition to_single : spec_float → spec_float := round_to 24 128.
Definition to_double : spec_float → spec_float := round_to 53 1024.

(** [std::numeric_limits<float>::max()] and [lowest()], as [double]s. *)
Definition single_max : spec_float := to_double (S754_finite false (2 ^ 24 - 1)%positive 104).
Definition single_lowest : spec_float := to_double (S754_finite true (2 ^ 24 - 1)%positive 104).

(** [std::ldexp(mant, e)] *)
Definition ldexp (mant e : Z) : spec_float := binary_normalize 53 1024 mant e false.

(** A value of type [double]. *)
Definition double_ok (f : spec_float) : Prop := valid_binary 53 1024 f = true.

(** * Lemmas *)

(** ** Digits *)

Lemma digits2_size p : digits2_pos p = Pos.size p.
Proof. induction p; cbn; congruence. Qed.

Lemma Zdigits2_log2 m : 0 < m → Zdigits2 m = Z.log2 m + 1.
Proof. intros H. destruct m as [|p|]; try lia. cbn. rewrite digits2_size. by destruct p; cbn; lia. Qed.

Lemma digits_log2 p : Z.pos (digits2_pos p) = Z.log2 (Z.pos p) + 1.
Proof. by rewrite <-Zdigits2_log2. Qed.

Lemma digits_unique m d : 0 < m → 2 ^ (d - 1) <= m < 2 ^ d → Zdigits2 m = d.
Proof.
  intros Hm Hd. rewrite Zdigits2_log2 by done.
  assert (1 <= d). { destruct (Z.le_gt_cases 1 d); [done|]. destruct (Z.eq_dec d 0) as [->|]; [lia|].
    rewrite (Z.pow_neg_r 2 d) in Hd by lia. lia. }
  rewrite (Z.log2_unique m (d - 1)); [lia|lia|].
  by replace (Z.succ (d - 1)) with d by lia.
Qed.

Lemma digits_bounds m : 0 < m → 2 ^ (Zdigits2 m - 1) <= m < 2 ^ Zdigits2 m.
Proof.
  intros Hm. rewrite Zdigits2_log2 by done. pose proof (Z.log2_spec m Hm).
  replace (Z.log2 m + 1 - 1) with (Z.log2 m) by lia. unfold Z.succ in *. lia.
Qed.

Lemma digits_pos m : 0 < m → 0 < Zdigits2 m.
Proof. intros. rewrite Zdigits2_log2 by done. pose proof (Z.log2_nonneg m). lia. Qed.

(** ** Rounding gives a number of the format *)
Section rounding.
Context (p em : Z) (Hp : 1 < p) (Hem : p < em).

Lemma iter_pos_iter {A} (f : A → A) n x : SpecFloat.iter_pos f n x = Pos.iter f x n.
Proof.
  revert x. induction n as [n IH|n IH|]; intros x; cbn; [|by rewrite !IH|done].
  rewrite !IH. by rewrite <-!Pos.iter_swap.
Qed.

Lemma shr_1_half r : 0 <= shr_m r → shr_m (shr_1 r) = shr_m r / 2.
Proof.
  destruct r as [m ? ?]. cbn. intros H. destruct m as [|[q|q|]|]; try done; cbn.
  - rewrite Pos2Z.inj_xI. Z.div_mod_to_equations. lia.
  - rewrite Pos2Z.inj_xO. Z.div_mod_to_equations. lia.
Qed.

Lemma shr_m_iter n r : 0 <= shr_m r → shr_m (SpecFloat.iter_pos shr_1 n r) = shr_m r / 2 ^ Z.pos n.
Proof.
  intros H. rewrite iter_pos_iter. induction n as [|n IH] using Pos.peano_ind.
  - cbn [Pos.iter]. by apply shr_1_half.
  - rewrite Pos.iter_succ, shr_1_half; rewrite IH; [|by apply Z.div_pos; lia].
    rewrite Z.div_div by lia. rewrite Pos2Z.inj_succ, Z.pow_succ_r by lia. f_equal. lia.
Qed.

(** [shr_fexp] with nothing shifted out to the left. *)
Lemma shr_fexp_spec m e l r e' : 0 <= m → e <= fexp p em (Zdigits2 m + e) →
  shr_fexp p em m e l = (r, e') →
  e' = fexp p em (Zdigits2 m + e) ∧ shr_m r = m / 2 ^ (e' - e).
Proof.
  intros Hm He. unfold shr_fexp, shr. set (n := fexp p em _ - e).
  assert (shr_m (shr_record_of_loc m l) = m) as Hr by by destruct l as [|[]].
  destruct n as [|q|q] eqn:Hn; intros [= <- <-]; unfold n in Hn.
  - split; [lia|]. rewrite Hr. replace (e - e) with 0 by lia. by rewrite Z.div_1_r.
  - split; [lia|]. rewrite shr_m_iter by (rewrite Hr; lia). rewrite Hr.
    by replace (e + Z.pos q - e) with (Z.pos q) by lia.
  - lia.
Qed.

(** Mantissa and exponent as a rounding leaves them. *)
Definition fits (m e : Z) : Prop := m = 0 ∨ 0 < m ∧ e = fexp p em (Zdigits2 m + e).

Lemma digits_div m n : 0 < m → 0 <= n → 0 < m / 2 ^ n → Zdigits2 (m / 2 ^ n) = Zdigits2 m - n.
Proof.
  intros Hm Hn Hd. rewrite !Zdigits2_log2 by done. rewrite <-Z.shiftr_div_pow2 in * by lia.
  rewrite Z.log2_shiftr by lia. assert (n <= Z.log2 m); [|lia].
  destruct (Z.le_gt_cases n (Z.log2 m)); [done|].
  rewrite (proj2 (Z.shiftr_eq_0_iff m n)) in Hd; [lia|]. right. lia.
Qed.

Lemma div_fits m e : 0 <= m → e <= fexp p em (Zdigits2 m + e) →
  let e' := fexp p em (Zdigits2 m + e) in let m' := m / 2 ^ (e' - e) in
  0 <= m' ∧ fits m' e' ∧ (m' = 0 → e' = emin p em).
Proof.
  intros Hm0 He e' m'. destruct (Z.eq_dec m 0) as [->|Hmz].
  { assert (m' = 0) as -> by (apply Z.div_0_l, Z.pow_nonzero; lia).
    split_and!; [done|by left|]. intros _. unfold e', fexp, emin in *. cbn [Zdigits2] in *. lia. }
  assert (0 < m) as Hm by lia. assert (0 <= m') by (apply Z.div_pos; lia). split; [done|].
  destruct (Z.eq_dec m' 0) as [H0|H0].
  - split; [by left|]. intros _. assert (m < 2 ^ (e' - e)) as Hlt by (apply Z.div_small_iff in H0; lia).
    pose proof (digits_bounds m Hm) as [Hb _].
    assert (Zdigits2 m - 1 < e' - e) by (apply (Z.pow_lt_mono_r_iff 2); lia).
    unfold e', fexp, emin in *. lia.
  - split; [|done]. right. split; [lia|]. unfold m'. rewrite digits_div by (unfold m' in *; lia).
    unfold e'. f_equal. lia.
Qed.

(** The mantissa goes up by one at most, and then once more to the right. *)
Lemma round_fits m e k : 0 <= m → fits m e → (m = 0 → e = emin p em) → k = m ∨ k = m + 1 →
  0 < k → e <= fexp p em (Zdigits2 k + e).
Proof.
  intros Hm Hf H0 Hk Hk0. destruct (Z.eq_dec m 0) as [->|Hm0].
  { rewrite H0 by done. unfold fexp. lia. }
  destruct Hf as [?|[Hm' He]]; [lia|]. rewrite He at 1.
  assert (Zdigits2 m <= Zdigits2 k); [|unfold fexp; lia].
  rewrite !Zdigits2_log2 by lia. pose proof (Z.log2_le_mono m k). lia.
Qed.

Lemma round_even_cases m l : round_nearest_even m l = m ∨ round_nearest_even m l = m + 1.
Proof. destruct l as [|[]]; cbn; try destruct (Z.even m); auto. Qed.

Lemma fits_valid s m e : 0 <= m → fits m e →
  valid_binary p em
    match m with
    | 0 => S754_zero s
    | Z.pos m => if e <=? em - p then S754_finite s m e else S754_infinity s
    | Z.neg _ => S754_nan
    end = true.
Proof.
  intros Hm Hf. destruct m as [|m|m]; [done| |lia]. destruct Hf as [?|[_ Hf]]; [lia|].
  destruct (e <=? em - p) eqn:E; [|done]. cbn. unfold bounded, canonical_mantissa.
  rewrite E, andb_true_r. by apply Z.eqb_eq.
Qed.

Lemma round_aux_valid s m e l : 0 <= m → e <= fexp p em (Zdigits2 m + e) →
  valid_binary p em (binary_round_aux p em s m e l) = true.
Proof.
  intros Hm He. unfold binary_round_aux.
  destruct (shr_fexp p em m e l) as [r1 e1] eqn:H1.
  apply shr_fexp_spec in H1 as [-> Hr1]; [|lia|done].
  destruct (div_fits m e Hm He) as (Hm1 & Hf1 & Hz1). rewrite <-Hr1 in *.
  set (e1 := fexp p em (Zdigits2 m + e)) in *.
  set (k := round_nearest_even (shr_m r1) (loc_of_shr_record r1)).
  pose proof (round_even_cases (shr_m r1) (loc_of_shr_record r1)) as Hk. fold k in Hk.
  destruct (shr_fexp p em k e1 loc_Exact) as [r2 e2] eqn:H2.
  assert (e1 <= fexp p em (Zdigits2 k + e1)) as He1.
  { destruct (Z.eq_dec k 0) as [Hk0|Hk0]; [|eapply round_fits; try done; lia].
    rewrite Hk0, Hz1 by lia. unfold fexp. lia. }
  apply shr_fexp_spec in H2 as [-> Hr2]; [|lia|done].
  destruct (Z.eq_dec k 0) as [Hk0|Hk0].
  - rewrite Hk0 in He1, Hr2. rewrite Z.div_0_l in Hr2 by (apply Z.pow_nonzero; lia). by rewrite Hr2.
  - destruct (div_fits k e1 ltac:(lia) He1) as (Hm2 & Hf2 & _). rewrite <-Hr2 in *.
    by apply fits_valid.
Qed.

Lemma pos_iter_xO m d : Z.pos (Pos.iter xO m d) = Z.pos m * 2 ^ Z.pos d.
Proof.
  induction d as [|d IH] using Pos.peano_ind; [cbn [Pos.iter]; lia|].
  rewrite Pos.iter_succ, Pos2Z.inj_xO, IH, Pos2Z.inj_succ, Z.pow_succ_r by lia. lia.
Qed.

Lemma digits_mul m d : 0 < m → 0 <= d → Zdigits2 (m * 2 ^ d) = Zdigits2 m + d.
Proof. intros. rewrite !Zdigits2_log2 by lia. rewrite Z.log2_mul_pow2 by lia. lia. Qed.

Lemma round_valid s m e : valid_binary p em (binary_round p em s m e) = true.
Proof.
  unfold binary_round, shl_align. set (e' := fexp p em _).
  destruct (e' - e) as [|d|d] eqn:Hd; try (apply round_aux_valid; [done|];
    change (Zdigits2 (Z.pos m)) with (Z.pos (digits2_pos m)); fold e'; lia).
  apply round_aux_valid; [done|]. rewrite pos_iter_xO, digits_mul by lia.
  change (Zdigits2 (Z.pos m)) with (Z.pos (digits2_pos m)).
  replace (Z.pos (digits2_pos m) + Z.pos d + e') with (Z.pos (digits2_pos m) + e) by lia. done.
Qed.

Lemma normalize_valid m e s : valid_binary p em (binary_normalize p em m e s) = true.
Proof. destruct m; [done|apply round_valid..]. Qed.

Lemma round_to_valid f : valid_binary p em (round_to p em f) = true.
Proof. destruct f; [done..|apply normalize_valid]. Qed.
End rounding.

(** ** The bits of a number are the number *)
Section bits_lemmas.
Context (mw ew : Z) (nan_bits : Z) (Hmw : 0 < mw) (Hew : 1 < ew) (Hfit : mw + 1 < 2 ^ (ew - 1)).

Lemma exponents : 2 ^ ew = 2 * emax ew.
Proof. unfold emax. rewrite <-Z.pow_succ_r by lia. f_equal. lia. Qed.

Lemma bits_split (s : bool) ex mant : 0 <= ex < 2 ^ ew → 0 <= mant < 2 ^ mw →
  let x := sign_bit mw ew s + ex * 2 ^ mw + mant in
  0 <= x < 2 ^ (1 + ew + mw) ∧ (2 ^ (mw + ew) <=? x) = s ∧ x / 2 ^ mw mod 2 ^ ew = ex ∧
  x mod 2 ^ mw = mant.
Proof.
  intros He Hm x. assert (0 < 2 ^ mw) by (apply Z.pow_pos_nonneg; lia).
  assert (2 ^ (mw + ew) = 2 ^ mw * 2 ^ ew) as Hp by (apply Z.pow_add_r; lia).
  assert (2 ^ (1 + ew + mw) = 2 * (2 ^ mw * 2 ^ ew)) as Hq.
  { rewrite <-Hp, <-Z.pow_succ_r by lia. f_equal. lia. }
  assert (x = ((if s then 2 ^ ew else 0) + ex) * 2 ^ mw + mant) as Hx
    by (unfold x, sign_bit; rewrite Hp; destruct s; lia).
  assert (x / 2 ^ mw = (if s then 2 ^ ew else 0) + ex) as Hd.
  { rewrite Hx, Z.div_add_l, Z.div_small by lia. lia. }
  split; [|split_and!].
  - unfold x, sign_bit. rewrite Hp. destruct s; nia.
  - unfold x, sign_bit. rewrite Hp. destruct s; [apply Z.leb_le|apply Z.leb_gt]; nia.
  - rewrite Hd. destruct s; [|by apply Z.mod_small].
    replace (2 ^ ew + ex) with (ex + 1 * 2 ^ ew) by lia. rewrite Z.mod_add by lia.
    by apply Z.mod_small.
  - rewrite Hx, Z.add_comm, Z.mod_add by lia. by apply Z.mod_small.
Qed.

Lemma bits_float_spec (s : bool) ex mant : 0 <= ex < 2 ^ ew → 0 <= mant < 2 ^ mw →
  bits_float mw ew (sign_bit mw ew s + ex * 2 ^ mw + mant) =
  if ex =? 0 then
    match mant with Z.pos m => S754_finite s m (emin (prec mw) (emax ew)) | _ => S754_zero s end
  else if ex =? 2 ^ ew - 1 then (if mant =? 0 then S754_infinity s else S754_nan)
  else S754_finite s (Z.to_pos (mant + 2 ^ mw)) (ex - 1 + emin (prec mw) (emax ew)).
Proof.
  intros He Hm. destruct (bits_split s ex mant He Hm) as (_ & H1 & H2 & H3).
  unfold bits_float. by rewrite H1, H2, H3.
Qed.

(** A number of the format: subnormal with the least exponent, or with all its digits. *)
Lemma valid_cases s m e : valid_binary (prec mw) (emax ew) (S754_finite s m e) = true →
  emin (prec mw) (emax ew) <= e <= emax ew - prec mw ∧ Z.pos m < 2 * 2 ^ mw ∧
  (Z.pos m < 2 ^ mw → e = emin (prec mw) (emax ew)).
Proof.
  cbn. unfold bounded, canonical_mantissa. intros [Hc%Z.eqb_eq He%Z.leb_le]%andb_true_iff.
  change (Z.pos (digits2_pos m)) with (Zdigits2 (Z.pos m)) in Hc.
  pose proof (digits_bounds (Z.pos m) ltac:(lia)) as [Hb1 Hb2].
  assert (Zdigits2 (Z.pos m) <= prec mw) as Hd by (unfold fexp in Hc; lia).
  split_and!; try (unfold fexp in Hc; lia).
  - rewrite <-Z.pow_succ_r by lia. eapply Z.lt_le_trans; [exact Hb2|].
    apply Z.pow_le_mono_r; unfold prec in *; lia.
  - intros Hlt. assert (Zdigits2 (Z.pos m) - 1 < mw) by (apply (Z.pow_lt_mono_r_iff 2); lia).
    unfold fexp, prec in *. lia.
Qed.

Lemma float_bits_spec f : valid_binary (prec mw) (emax ew) f = true → f ≠ S754_nan →
  ∃ s ex mant, 0 <= ex < 2 ^ ew ∧ 0 <= mant < 2 ^ mw ∧
    float_bits mw ew nan_bits f = sign_bit mw ew s + ex * 2 ^ mw + mant ∧
    bits_float mw ew (float_bits mw ew nan_bits f) = f.
Proof.
  intros Hv Hn. pose proof exponents. assert (0 < 2 ^ mw) by (apply Z.pow_pos_nonneg; lia).
  assert (0 < emax ew) by (apply Z.pow_pos_nonneg; lia).
  destruct f as [s|s| |s m e]; [| |done|].
  - exists s, 0, 0. split_and!; try lia; cbn; [lia|].
    replace (sign_bit mw ew s) with (sign_bit mw ew s + 0 * 2 ^ mw + 0) by lia.
    by rewrite bits_float_spec by lia.
  - exists s, (2 ^ ew - 1), 0. split_and!; try lia; cbn [float_bits]; [lia|].
    rewrite <-(Z.add_0_r (_ + _ * _)), bits_float_spec by lia.
    destruct (Z.eqb_spec (2 ^ ew - 1) 0); [lia|]. by rewrite !Z.eqb_refl.
  - destruct (valid_cases s m e Hv) as (He & Hm & Hsub). cbn [float_bits].
    unfold emin, prec in He. destruct (Z.ltb_spec (Z.pos m) (2 ^ mw)) as [Hlt|Hge].
    + exists s, 0, (Z.pos m). split_and!; try lia.
      replace (sign_bit mw ew s + Z.pos m) with (sign_bit mw ew s + 0 * 2 ^ mw + Z.pos m) by lia.
      rewrite bits_float_spec by lia. cbn. by rewrite Hsub.
    + set (ex := e - emin (prec mw) (emax ew) + 1).
      assert (1 <= ex < 2 ^ ew - 1) by (unfold ex, emin, prec; lia).
      exists s, ex, (Z.pos m - 2 ^ mw). split_and!; try lia. rewrite bits_float_spec by lia.
      destruct (Z.eqb_spec ex 0); [lia|]. destruct (Z.eqb_spec ex (2 ^ ew - 1)); [lia|].
      f_equal; [|unfold ex; lia]. by replace (Z.pos m - 2 ^ mw + 2 ^ mw) with (Z.pos m) by lia.
Qed.

Lemma bits_valid x : 0 <= x < 2 ^ (1 + ew + mw) →
  valid_binary (prec mw) (emax ew) (bits_float mw ew x) = true.
Proof.
  intros Hx. unfold bits_float. assert (0 < 2 ^ mw) by (apply Z.pow_pos_nonneg; lia).
  assert (0 < 2 ^ ew) by (apply Z.pow_pos_nonneg; lia).
  pose proof (Z.mod_pos_bound (x / 2 ^ mw) (2 ^ ew)) as Hex. pose proof (Z.mod_pos_bound x (2 ^ mw)) as Hm.
  set (ex := x / 2 ^ mw mod 2 ^ ew) in *. set (mant := x mod 2 ^ mw) in *.
  pose proof exponents. destruct (Z.eqb_spec ex 0) as [_|Hex0].
  - destruct mant as [|m|m] eqn:Hmant; try done. cbn. unfold bounded, canonical_mantissa.
    rewrite digits_log2. pose proof (Z.log2_lt_pow2 (Z.pos m) mw).
    apply andb_true_iff. split; [apply Z.eqb_eq | apply Z.leb_le]; unfold fexp, emin, prec, emax in *; lia.
  - destruct (Z.eqb_spec ex (2 ^ ew - 1)); [by destruct (mant =? 0)|]. cbn.
    unfold bounded, canonical_mantissa. change (Z.pos (digits2_pos ?m)) with (Zdigits2 (Z.pos m)).
    rewrite Z2Pos.id by lia.
    rewrite (digits_unique _ (prec mw)) by (unfold prec; rewrite ?Z.add_simpl_r, ?Z.pow_add_r; lia).
    apply andb_true_iff. split; [apply Z.eqb_eq | apply Z.leb_le]; unfold fexp, emin, prec in *; lia.
Qed.
End bits_lemmas.

Lemma bits_double_valid x : 0 <= x < 2 ^ 64 → double_ok (bits_double x).
Proof. intros H. apply (bits_valid 52 11); [lia..|done]. Qed.

Lemma to_double_valid f : double_ok (to_double f).
Proof. apply round_to_valid; lia. Qed.

Lemma ldexp_valid m e : double_ok (ldexp m e).
Proof. apply normalize_valid; lia. Qed.

Lemma opp_valid f : double_ok f → double_ok (SFopp f).
Proof. by destruct f. Qed.

(** A [double] in memory. *)
Lemma double_bits_read nan f : double_ok f → f ≠ S754_nan →
  0 <= double_bits nan f < 2 ^ 64 ∧ bits_double (double_bits nan f) = f.
Proof.
  intros Hv Hn. destruct (float_bits_spec 52 11 nan ltac:(lia) ltac:(lia) f Hv Hn)
    as (s & ex & m & He & Hm & Heq & Hb). split; [|exact Hb]. unfold double_bits. rewrite Heq.
  apply (bits_split 52 11); lia.
Qed.

Lemma SFeqb_eq f g : SFeqb f g = true → f = g ∨ ∃ s s', f = S754_zero s ∧ g = S754_zero s'.
Proof.
  unfold SFeqb, SFcompare. destruct f as [s|s| |s m e], g as [s'|s'| |s' m' e']; try done;
    try (destruct s; done); try (destruct s'; done).
  - right. eauto.
  - destruct s, s'; auto; done.
  - destruct s, s'; try done; destruct (Z.compare_spec e e'); try done; subst;
      change (Pos.compare_cont Eq m m') with (Pos.compare m m');
      destruct (Pos.compare_spec m m'); try done; subst; auto.
Qed.

(** A [float] in memory, when the [double] was one. *)
Lemma single_bits_read f : SFeqb (to_double (to_single f)) f = true →
  0 <= single_bits (to_single f) < 2 ^ 32 ∧ to_double (bits_single (single_bits (to_single f))) = f.
Proof.
  intros Heq. assert (to_double (to_single f) = f) as Hf.
  { destruct f as [s|s| |s m e]; try done. apply SFeqb_eq in Heq as [?|(? & ? & _ & ?)]; done. }
  assert (to_single f ≠ S754_nan) as Hn.
  { intros Hn. rewrite Hn in Hf. subst f. done. }
  assert (valid_binary 24 128 (to_single f) = true) as Hv by (apply round_to_valid; lia).
  destruct (float_bits_spec 23 8 0 ltac:(lia) ltac:(lia) _ Hv Hn)
    as (s & ex & m & He & Hm & Hb & Hr).
  split; [|unfold bits_single, single_bits; by rewrite Hr].
  unfold single_bits. rewrite Hb. apply (bits_split 23 8); lia.
Qed.
