(* ===== verification/FloatRound.v ===== *)
(** * Rounding to the nearest double

    The standard library's operations on [double] ([SFdiv], [binary_normalize] of the
    specification of floating-point numbers) give the double whose rounding interval the exact
    result is in.  [std::strtod] of the lexer of json.hpp is defined by them. *)

From Stdlib Require Import SpecFloat.
From S2P Require Import Prelude JsonFloat.

Module FloatRound.

(** Where the fraction N / D is with respect to m and m + 1. *)
Definition located (N D m : Z) (l : location) : Prop :=
  match l with
  | loc_Exact => N = m * D
  | loc_Inexact c => m * D < N < (m + 1) * D ∧ (2 * N ?= (2 * m + 1) * D) = c
  end.

(** A positive double m * 2^ex. *)
Definition positive_ok (m ex : Z) : Prop :=
  0 < m < 2 ^ 53 ∧ -1074 <= ex <= 971 ∧ (m < 2 ^ 52 → ex = -1074).

(** The lower neighbour is in the next binade, half as far away. *)
Definition closer (m ex : Z) : bool := (m =? 2 ^ 52) && (-1074 <? ex).

(** All exponents are above it. *)
Definition bias : Z := 1200.

(** The fraction N / D is strictly between the middles to the neighbours of m * 2^ex. *)
Definition inside (m ex N D : Z) : Prop :=
  (if closer m ex then (4 * m - 1) * 2 ^ (bias + ex - 2) else (2 * m - 1) * 2 ^ (bias + ex - 1)) * D
    < N * 2 ^ bias < (2 * m + 1) * 2 ^ (bias + ex - 1) * D.

End FloatRound.
Import FloatRound.

(** * Lemmas *)

(** ** The location of a fraction *)

Lemma located_range N D m l : 0 < D → located N D m l → m * D <= N < (m + 1) * D.
Proof. intros HD. destruct l; cbn; lia. Qed.

Lemma half_compare N D m c : (2 * N ?= (2 * m + 1) * D) = c →
  match c with
  | Lt => 2 * N < (2 * m + 1) * D
  | Eq => 2 * N = (2 * m + 1) * D
  | Gt => (2 * m + 1) * D < 2 * N
  end.
Proof. intros <-. by destruct (Z.compare_spec (2 * N) ((2 * m + 1) * D)). Qed.

Lemma nearest_unique N D m l k : 0 < D → located N D m l → 2 * Z.abs (N - k * D) < D →
  round_nearest_even m l = k.
Proof.
  intros HD Hl Hk. assert (k = m ∨ k = m + 1) as Hor.
  { apply located_range in Hl; [|done]. assert (m < k + 1) by nia. assert (k < m + 2) by nia. lia. }
  destruct l as [|c]; cbn in Hl |- *; [destruct Hor; nia|].
  destruct Hl as [Hr Hc]. apply half_compare in Hc. destruct c, Hor; subst; try lia. all: exfalso; lia.
Qed.

(** One bit to the right. *)
Lemma shr_1_located N D r : 0 < D → 0 <= shr_m r → located N D (shr_m r) (loc_of_shr_record r) →
  located N (2 * D) (shr_m (shr_1 r)) (loc_of_shr_record (shr_1 r)).
Proof.
  intros HD Hm Hl. destruct r as [m rb sb]. cbn in Hm.
  assert (∀ q b s', m = 2 * q + (if b : bool then 1 else 0) → s' = rb || sb →
    located N (2 * D) q (loc_of_shr_record (Build_shr_record q b s'))) as H.
  { intros q b s' -> ->. cbn [shr_m] in Hl.
    destruct rb, sb; cbn in Hl |- *;
      try match type of Hl with _ ∧ _ => destruct Hl as [Hl Hc]; apply half_compare in Hc end;
      destruct b; cbn; try lia; (split; [lia|]);
      first [apply Z.compare_lt_iff|apply Z.compare_gt_iff|apply Z.compare_eq_iff]; lia. }
  destruct m as [|[q|q|]|q]; [..|lia]; cbn [shr_1]; apply H; lia || done.
Qed.

Lemma shr_located N D r n : 0 < D → 0 <= shr_m r → located N D (shr_m r) (loc_of_shr_record r) →
  located N (D * 2 ^ Z.pos n) (shr_m (SpecFloat.iter_pos shr_1 n r))
    (loc_of_shr_record (SpecFloat.iter_pos shr_1 n r)).
Proof.
  intros HD Hm Hl. rewrite iter_pos_iter. induction n as [|n IH] using Pos.peano_ind.
  - cbn [Pos.iter]. rewrite Z.mul_comm. by apply shr_1_located.
  - rewrite Pos.iter_succ, Pos2Z.inj_succ, Z.pow_succ_r by lia.
    replace (D * (2 * 2 ^ Z.pos n)) with (2 * (D * 2 ^ Z.pos n)) by ring. apply shr_1_located; [lia| |done].
    rewrite <-iter_pos_iter, shr_m_iter by done. by apply Z.div_pos; [|lia].
Qed.

Lemma loc_of_record m l : loc_of_shr_record (shr_record_of_loc m l) = l ∧ shr_m (shr_record_of_loc m l) = m.
Proof. by destruct l as [|[]]. Qed.

Lemma shr_fexp_located p em N D m e l r e' : 0 < D → 0 <= m → e <= fexp p em (Zdigits2 m + e) →
  located N D m l → shr_fexp p em m e l = (r, e') →
  e' = fexp p em (Zdigits2 m + e) ∧ located N (D * 2 ^ (e' - e)) (shr_m r) (loc_of_shr_record r).
Proof.
  intros HD Hm He Hl. unfold shr_fexp, shr. destruct (loc_of_record m l) as [Hloc Hrm].
  set (n := fexp p em _ - e). destruct n as [|q|q] eqn:Hn; intros [= <- <-]; unfold n in Hn; [| |lia].
  - split; [lia|]. rewrite Hloc, Hrm. replace (e - e) with 0 by lia. by rewrite Z.mul_1_r.
  - split; [lia|]. replace (e + Z.pos q - e) with (Z.pos q) by lia.
    apply shr_located; rewrite ?Hloc, ?Hrm; done.
Qed.

(** ** Rounding *)

Lemma digits_upper m : 0 <= m → m + 1 <= 2 ^ Zdigits2 m.
Proof.
  intros Hm. destruct (Z.eq_dec m 0) as [->|]; [done|]. pose proof (digits_bounds m ltac:(lia)). lia.
Qed.

(** The interval at two exponents over one scale. *)
Lemma inside_at m ex N D a b : inside m ex N D → -1074 <= ex → 0 <= a → 0 <= b → ex = b - a →
  2 * (N * 2 ^ a) < (2 * m + 1) * (D * 2 ^ b) ∧
  (if closer m ex then (4 * m - 1) * (D * 2 ^ b) < 4 * (N * 2 ^ a)
   else (2 * m - 1) * (D * 2 ^ b) < 2 * (N * 2 ^ a)).
Proof.
  intros [Hl Hu] Hex Ha Hb ->. unfold bias in *.
  assert (2 ^ (1200 + (b - a) - 1) * 2 ^ a = 2 ^ 1199 * 2 ^ b) as H1
    by (rewrite <-!Z.pow_add_r by lia; f_equal; lia).
  assert (2 ^ (1200 + (b - a) - 2) * 2 ^ a = 2 ^ 1198 * 2 ^ b) as H2
    by (rewrite <-!Z.pow_add_r by lia; f_equal; lia).
  assert (0 < 2 ^ a) as Hpa by (apply Z.pow_pos_nonneg; lia).
  change (2 ^ 1200) with (2 * 2 ^ 1199) in *. change (2 ^ 1199) with (2 * 2 ^ 1198) in *.
  assert (0 < 2 ^ 1198) as Hc by (apply Z.pow_pos_nonneg; lia).
  set (c := 2 ^ 1198) in *. set (A := 2 ^ a) in *. set (B := 2 ^ b) in *.
  apply (Z.mul_lt_mono_pos_r A) in Hu; [|done].
  replace ((2 * m + 1) * 2 ^ (1200 + (b - a) - 1) * D * A)
    with ((2 * m + 1) * D * (2 ^ (1200 + (b - a) - 1) * A)) in Hu by ring. rewrite H1 in Hu.
  apply (Z.mul_lt_mono_pos_r A) in Hl; [|done]. split.
  - apply (Z.mul_lt_mono_pos_l c); lia.
  - destruct (closer m (b - a)).
    + replace ((4 * m - 1) * 2 ^ (1200 + (b - a) - 2) * D * A)
        with ((4 * m - 1) * D * (2 ^ (1200 + (b - a) - 2) * A)) in Hl by ring. rewrite H2 in Hl.
      apply (Z.mul_lt_mono_pos_l c); lia.
    + replace ((2 * m - 1) * 2 ^ (1200 + (b - a) - 1) * D * A)
        with ((2 * m - 1) * D * (2 ^ (1200 + (b - a) - 1) * A)) in Hl by ring. rewrite H1 in Hl.
      apply (Z.mul_lt_mono_pos_l c); lia.
Qed.

(** The exponent of a double by its digits. *)
Lemma positive_exponent m ex : positive_ok m ex → fexp 53 1024 (Zdigits2 m + ex) = ex ∧ 1 <= Zdigits2 m <= 53.
Proof.
  intros (Hm & Hex & Hs). rewrite Zdigits2_log2 by lia. pose proof (Z.log2_nonneg m).
  pose proof (proj1 (Z.log2_lt_pow2 m 53 ltac:(lia)) ltac:(lia)). unfold fexp, emin. split; [|lia].
  destruct (Z.lt_ge_cases m (2 ^ 52)) as [Hlt|Hge]; [rewrite Hs by done; lia|].
  assert (52 <= Z.log2 m) by (apply Z.log2_le_pow2; lia). lia.
Qed.

(** A fraction with its location at the exponent b - a. *)
Record located_at (N D a b mx : Z) (l : location) : Prop := LocatedAt {
  la_D : 0 < D; la_a : 0 <= a <= bias; la_b : 0 <= b; la_m : 0 <= mx;
  la_exp : b - a <= fexp 53 1024 (Zdigits2 mx + (b - a));
  la_loc : located (N * 2 ^ a) (D * 2 ^ b) mx l }.

Lemma pow2_lt_inv a b D : 0 < D → 0 <= b → 2 ^ a * D < 2 ^ b * D → a < b.
Proof.
  intros HD Hb H. apply Z.mul_lt_mono_pos_r in H; [|done]. by apply (Z.pow_lt_mono_r_iff 2).
Qed.

Lemma located_bias N D a b mx l : located_at N D a b mx l →
  mx * (2 ^ (bias + (b - a)) * D) <= N * 2 ^ bias < (mx + 1) * (2 ^ (bias + (b - a)) * D).
Proof.
  intros [HD Ha Hb Hm _ Hl]. assert (0 < 2 ^ b) by (apply Z.pow_pos_nonneg; lia).
  apply located_range in Hl; [|lia].
  assert (2 ^ bias = 2 ^ a * 2 ^ (bias - a)) as -> by (rewrite <-Z.pow_add_r by lia; f_equal; lia).
  assert (2 ^ (bias + (b - a)) = 2 ^ b * 2 ^ (bias - a)) as ->
    by (rewrite <-Z.pow_add_r by lia; f_equal; lia).
  assert (0 < 2 ^ (bias - a)) as Hp by (apply Z.pow_pos_nonneg; lia). set (P := 2 ^ (bias - a)) in *. nia.
Qed.

(** The fraction is below 2 to the number of its digits. *)
Lemma located_below N D a b mx l : located_at N D a b mx l →
  N * 2 ^ bias < 2 ^ (bias + (Zdigits2 mx + (b - a))) * D.
Proof.
  intros Hl. pose proof (located_bias _ _ _ _ _ _ Hl) as [_ Hx2]. destruct Hl as [HD Ha Hb Hm _ _].
  pose proof (digits_upper mx Hm) as Hdx. assert (0 <= Zdigits2 mx) as Hd0 by (destruct mx; cbn; lia).
  replace (bias + (Zdigits2 mx + (b - a))) with (Zdigits2 mx + (bias + (b - a))) by lia.
  rewrite Z.pow_add_r by lia. assert (0 < 2 ^ (bias + (b - a))) by (apply Z.pow_pos_nonneg; lia).
  set (P := 2 ^ (bias + (b - a))) in *. assert (0 < P * D) by lia. rewrite <-Z.mul_assoc. nia.
Qed.

Lemma rounded_above N D a b mx l m ex :
  located_at N D a b mx l → positive_ok m ex → inside m ex N D → Zdigits2 mx + (b - a) <= Zdigits2 m + ex.
Proof.
  intros Hl Hok [_ Hup]. pose proof (located_bias _ _ _ _ _ _ Hl) as [Hx1 _].
  destruct Hl as [HD Ha Hb Hm He _]. destruct (positive_exponent m ex Hok) as [Hex Hdm].
  destruct Hok as (Hm0 & Hexr & Hs). set (e := b - a) in *. assert (0 <= bias + e) by (unfold e; lia).
  destruct (Z.eq_dec mx 0) as [->|Hmx].
  { unfold fexp, emin in He. cbn [Zdigits2] in *. lia. }
  pose proof (digits_bounds mx ltac:(lia)) as [Hdl _]. pose proof (digits_bounds m ltac:(lia)) as [_ Hmu].
  set (g := Zdigits2 mx + e) in *. pose proof (digits_pos mx ltac:(lia)).
  assert (2 ^ (bias + g - 1) * D <= N * 2 ^ bias) as Hg1.
  { replace (bias + g - 1) with (Zdigits2 mx - 1 + (bias + e)) by (unfold g; lia).
    rewrite Z.pow_add_r by lia. rewrite <-Z.mul_assoc.
    assert (0 < 2 ^ (bias + e)) by (apply Z.pow_pos_nonneg; lia). nia. }
  assert ((2 * m + 1) * 2 ^ (bias + ex - 1) * D < 2 ^ (bias + (Zdigits2 m + ex)) * D) as Hg2.
  { replace (bias + (Zdigits2 m + ex)) with (1 + Zdigits2 m + (bias + ex - 1)) by lia.
    unfold bias in *. rewrite !(Z.pow_add_r _ _ (1200 + ex - 1)) by lia. rewrite Z.pow_add_r by lia.
    apply Z.mul_lt_mono_pos_r; [done|]. apply Z.mul_lt_mono_pos_r; [apply Z.pow_pos_nonneg; lia|lia]. }
  assert (bias + g - 1 < bias + (Zdigits2 m + ex)); [|lia].
  apply (pow2_lt_inv _ _ D); [done|unfold bias; lia|lia].
Qed.

(** The exponent of the rounded fraction is that of the double, or one less below a power of two. *)
Lemma rounded_exponent N D a b mx l m ex :
  located_at N D a b mx l → positive_ok m ex → inside m ex N D →
  let e' := fexp 53 1024 (Zdigits2 mx + (b - a)) in
  e' = ex ∨ closer m ex = true ∧ e' = ex - 1 ∧ N * 2 ^ bias < m * 2 ^ (bias + ex) * D.
Proof.
  intros Hl Hok Hin e'. pose proof (rounded_above _ _ _ _ _ _ _ _ Hl Hok Hin) as Hgu.
  pose proof (located_below _ _ _ _ _ _ Hl) as Hxg. destruct Hin as [Hlo _].
  destruct (positive_exponent m ex Hok) as [Hex Hdm]. destruct Hok as (Hm0 & Hexr & Hs).
  assert (0 <= bias + (Zdigits2 mx + (b - a)))
    by (destruct Hl; destruct mx; cbn [Zdigits2] in *; lia).
  pose proof (la_D _ _ _ _ _ _ Hl) as HD. set (g := Zdigits2 mx + (b - a)) in *.
  assert (e' <= ex) as Hle by (unfold e', fexp, emin in *; lia).
  destruct (Z.eq_dec ex (-1074)) as [->|Hn]; [left; unfold e', fexp, emin in *; lia|].
  assert (2 ^ 52 <= m) as Hm by lia. assert (0 < 2 ^ (bias + ex - 2)) as HP by (unfold bias; apply Z.pow_pos_nonneg; lia).
  assert (2 ^ (bias + ex - 1) = 2 * 2 ^ (bias + ex - 2)) as H1
    by (rewrite <-Z.pow_succ_r by (unfold bias; lia); f_equal; lia).
  assert (∀ k, 0 <= k → 2 ^ (bias + ex - 2 + k) = 2 ^ (bias + ex - 2) * 2 ^ k) as Hk
    by (intros; apply Z.pow_add_r; unfold bias; lia).
  assert (∀ k, 0 <= k → 2 ^ k * 2 ^ (bias + ex - 2) * D <= N * 2 ^ bias → bias + ex - 2 + k < bias + g) as Hg.
  { intros k Hk0 Hx.
    apply (pow2_lt_inv _ _ D); [done|lia|]. rewrite Hk by done. lia. }
  unfold closer in *. destruct (Z.eqb_spec m (2 ^ 52)) as [->|Hm2].
  - rewrite (proj2 (Z.ltb_lt (-1074) ex)) in * by lia. cbn [andb] in *.
    specialize (Hg 53 ltac:(lia) ltac:(lia)). destruct (Z.eq_dec e' ex); [by left|right].
    split; [done|]. assert (g = 52 + ex) as Hg' by (unfold e', fexp, emin in *; lia).
    split; [unfold e', fexp, emin in *; lia|]. rewrite Hg' in Hxg.
    replace (bias + (52 + ex)) with (52 + (bias + ex)) in Hxg by lia.
    rewrite Z.pow_add_r in Hxg by (unfold bias; lia). lia.
  - left. cbn [andb] in Hlo. specialize (Hg 54 ltac:(lia) ltac:(nia)). unfold e', fexp, emin in *. lia.
Qed.

Lemma below_at N D m ex a b : N * 2 ^ bias < m * 2 ^ (bias + ex) * D → -1074 <= ex → 0 <= a → 0 <= b →
  ex = b - a → N * 2 ^ a < m * (D * 2 ^ b).
Proof.
  intros H Hex Ha Hb ->. assert (0 < 2 ^ a) as Hpa by (apply Z.pow_pos_nonneg; lia).
  apply (Z.mul_lt_mono_pos_r (2 ^ a)) in H; [|done].
  assert (2 ^ (bias + (b - a)) * 2 ^ a = 2 ^ bias * 2 ^ b) as He
    by (rewrite <-!Z.pow_add_r by (unfold bias; lia); f_equal; lia).
  replace (m * 2 ^ (bias + (b - a)) * D * 2 ^ a) with (m * D * (2 ^ (bias + (b - a)) * 2 ^ a)) in H by ring.
  rewrite He in H. assert (0 < 2 ^ bias) by (apply Z.pow_pos_nonneg; unfold bias; lia).
  apply (Z.mul_lt_mono_pos_l (2 ^ bias)); lia.
Qed.

Lemma shr_fexp_canonical m ex : positive_ok (Z.pos m) ex →
  shr_fexp 53 1024 (Z.pos m) ex loc_Exact = (Build_shr_record (Z.pos m) false false, ex).
Proof.
  intros Hok. destruct (positive_exponent _ _ Hok) as [He _]. unfold shr_fexp.
  rewrite He, Z.sub_diag. done.
Qed.

Lemma shr_fexp_double m ex : positive_ok (Z.pos m) ex →
  shr_fexp 53 1024 (2 * Z.pos m) (ex - 1) loc_Exact = (Build_shr_record (Z.pos m) false false, ex).
Proof.
  intros Hok. destruct (positive_exponent _ _ Hok) as [He _]. unfold shr_fexp.
  replace (Zdigits2 (2 * Z.pos m) + (ex - 1)) with (Zdigits2 (Z.pos m) + ex)
    by (change (2 * Z.pos m) with (Z.pos m~0); change (Zdigits2 (Z.pos m~0)) with (Z.pos (Pos.succ (digits2_pos m)));
        change (Zdigits2 (Z.pos m)) with (Z.pos (digits2_pos m)); lia).
  rewrite He. replace (ex - (ex - 1)) with 1 by lia. cbn. by rewrite Z.sub_add.
Qed.

(** A fraction in the interval of a double is rounded to it. *)
Lemma round_aux_inside s N D a b mx l m ex :
  located_at N D a b mx l → positive_ok (Z.pos m) ex → inside (Z.pos m) ex N D →
  binary_round_aux 53 1024 s mx (b - a) l = S754_finite s m ex.
Proof.
  intros Hl Hok Hin. pose proof (rounded_exponent _ _ _ _ _ _ _ _ Hl Hok Hin) as He'.
  destruct Hl as [HD Ha Hb Hm He Hl]. assert (0 < 2 ^ b) by (apply Z.pow_pos_nonneg; lia).
  unfold binary_round_aux. destruct (shr_fexp 53 1024 mx (b - a) l) as [r1 e1] eqn:H1.
  apply (shr_fexp_located _ _ (N * 2 ^ a) (D * 2 ^ b)) in H1 as [-> H1]; [|lia|done..].
  set (e' := fexp 53 1024 (Zdigits2 mx + (b - a))) in *. cbv zeta in He'.
  rewrite <-Z.mul_assoc, <-Z.pow_add_r in H1 by lia. set (b' := b + (e' - (b - a))) in *.
  assert (0 < D * 2 ^ b') as HX by (apply Z.mul_pos_pos; [done|apply Z.pow_pos_nonneg; lia]).
  pose proof (proj1 (proj2 Hok)) as Hexr. assert ((ex <=? 1024 - 53) = true) as Hfin by (apply Z.leb_le; lia).
  destruct He' as [He'|(Hc & He' & Hx)].
  - destruct (inside_at _ _ _ _ a b' Hin) as [Hu Hlo]; [lia..|].
    rewrite (nearest_unique _ _ _ _ (Z.pos m) HX H1).
    2: { destruct (closer (Z.pos m) ex); lia. }
    rewrite He', shr_fexp_canonical by done. cbn [shr_m]. by rewrite Hfin.
  - destruct (inside_at _ _ _ _ a (b' + 1) Hin) as [Hu Hlo]; [lia..|].
    apply (below_at _ _ _ _ a (b' + 1)) in Hx; [|lia..]. rewrite Hc in Hlo.
    rewrite Z.pow_add_r in Hlo, Hx by lia. change (2 ^ 1) with 2 in *.
    rewrite (nearest_unique _ _ _ _ (2 * Z.pos m) HX H1) by lia.
    rewrite He', shr_fexp_double by done. cbn [shr_m]. by rewrite Hfin.
Qed.

(** ** Integers and quotients *)

Lemma normalize_inside s N m ex : 0 < N → positive_ok (Z.pos m) ex → inside (Z.pos m) ex N 1 →
  binary_normalize 53 1024 (cond_Zopp s N) 0 s = S754_finite s m ex.
Proof.
  intros HN Hok Hin. destruct N as [|n|n]; [lia| |lia].
  assert (binary_normalize 53 1024 (cond_Zopp s (Z.pos n)) 0 s = binary_round 53 1024 s n 0) as ->
    by by destruct s.
  unfold binary_round, shl_align. set (e' := fexp 53 1024 _). pose proof (Zdigits2_log2 (Z.pos n) ltac:(lia)) as Hd.
  change (Zdigits2 (Z.pos n)) with (Z.pos (digits2_pos n)) in Hd. pose proof (Z.log2_nonneg (Z.pos n)).
  destruct (e' - 0) as [|d|d] eqn:Hd'.
  1, 2: apply (round_aux_inside s (Z.pos n) 1 0 0 (Z.pos n) loc_Exact m ex); [|done..];
    split; try (unfold bias; lia); [|cbn; lia];
    change (Zdigits2 (Z.pos n)) with (Z.pos (digits2_pos n)); change (0 - 0) with 0; fold e'; lia.
  - rewrite pos_iter_xO.
    replace e' with (0 - Z.pos d) by lia.
    assert (Z.pos d <= 1074) by (unfold e', fexp, emin in Hd'; lia).
    apply (round_aux_inside s (Z.pos n) 1 (Z.pos d) 0 (Z.pos n * 2 ^ Z.pos d) loc_Exact m ex); [|done..].
    split; try (unfold bias; lia); [|cbn [located]; lia]. rewrite digits_mul by lia.
    change (Zdigits2 (Z.pos n)) with (Z.pos (digits2_pos n)).
    replace (Z.pos (digits2_pos n) + Z.pos d + (0 - Z.pos d)) with (Z.pos (digits2_pos n) + 0) by lia.
    fold e'. lia.
Qed.

Lemma new_location_eq d r : new_location d r =
  if Z.even d then if r =? 0 then loc_Exact else loc_Inexact (2 * r ?= d)
  else if r =? 0 then loc_Exact
       else loc_Inexact match 2 * r + 1 ?= d with Gt => Gt | _ => Lt end.
Proof. unfold new_location. change (IntDef.Z.even d) with (Z.even d). by destruct (Z.even d). Qed.

Lemma new_location_ok k d r : 0 <= r < d → located (k * d + r) d k (new_location d r).
Proof.
  intros Hr. rewrite new_location_eq.
  destruct (Z.eq_dec r 0) as [->|Hr0]; [destruct (Z.even d); cbn; lia|].
  rewrite (proj2 (Z.eqb_neq r 0) Hr0). destruct (Z.even d) eqn:Hev; cbn [located]; (split; [lia|]).
  - destruct (Z.compare_spec (2 * r) d); first
      [apply Z.compare_lt_iff|apply Z.compare_gt_iff|apply Z.compare_eq_iff]; lia.
  - assert (d mod 2 = 1) as Hodd by (rewrite Zmod_even, Hev; done).
    pose proof (Z.div_mod d 2 ltac:(lia)).
    destruct (Z.compare_spec (2 * r + 1) d);
      first [apply Z.compare_lt_iff; lia|apply Z.compare_gt_iff; lia].
Qed.

(** The quotient has the digits that are needed. *)
Lemma quotient_digits n d k : 0 < n → 0 < d → 0 <= k →
  0 <= n * 2 ^ k / d ∧ Zdigits2 n - Zdigits2 d <= Zdigits2 (n * 2 ^ k / d) - k.
Proof.
  intros Hn Hd Hk. pose proof (digits_bounds n Hn) as [Hn1 _]. pose proof (digits_bounds d Hd) as [_ Hd2].
  set (q := n * 2 ^ k / d).
  assert (0 <= q) as Hq by (apply Z.div_pos; [apply Z.mul_nonneg_nonneg; [lia|apply Z.pow_nonneg; lia]|lia]).
  split; [done|]. pose proof (digits_upper q Hq) as Hu.
  assert (0 <= Zdigits2 q) as Hq0 by (destruct q; cbn; lia).
  pose proof (digits_pos n Hn). pose proof (digits_pos d Hd).
  assert (n * 2 ^ k < d * (q + 1)) as Hlt.
  { unfold q. pose proof (Z.div_mod (n * 2 ^ k) d ltac:(lia)).
    pose proof (Z.mod_pos_bound (n * 2 ^ k) d Hd). lia. }
  assert (2 ^ (Zdigits2 n - 1 + k) < 2 ^ (Zdigits2 d + Zdigits2 q)) as Hp.
  { rewrite !Z.pow_add_r by lia. assert (0 < 2 ^ k) by (apply Z.pow_pos_nonneg; lia).
    apply (Z.le_lt_trans _ (n * 2 ^ k)); [by apply Z.mul_le_mono_nonneg_r; lia|].
    apply (Z.lt_le_trans _ (d * (q + 1))); [done|]. apply Z.mul_le_mono_nonneg; lia. }
  apply Z.pow_lt_mono_r_iff in Hp; lia.
Qed.

(** The division, as one rounding of a located quotient. *)
Lemma div_form s s' n d en ed : -1074 <= en - ed → ∃ e' q l,
  SFdiv 53 1024 (S754_finite s n en) (S754_finite s' d ed) = binary_round_aux 53 1024 (xorb s s') q e' l ∧
  -1074 <= e' <= en - ed ∧ 0 <= q ∧ e' <= fexp 53 1024 (Zdigits2 q + e') ∧
  e' <= fexp 53 1024 (Zdigits2 (Z.pos n) + en - (Zdigits2 (Z.pos d) + ed)) ∧
  located (Z.pos n * 2 ^ (en - ed - e')) (Z.pos d) q l.
Proof.
  intros Hexp. unfold SFdiv, SFdiv_core_binary.
  set (e' := Z.min (fexp 53 1024 (Zdigits2 (Z.pos n) + en - (Zdigits2 (Z.pos d) + ed))) (en - ed)).
  assert (- 1074 <= e' <= en - ed) as He' by (unfold e', fexp, emin; lia).
  assert (match en - ed - e' with
    | 0 => Z.pos n
    | Z.pos _ => Z.shiftl (Z.pos n) (en - ed - e')
    | Z.neg _ => 0
    end = Z.pos n * 2 ^ (en - ed - e')) as ->.
  { rewrite <-Z.shiftl_mul_pow2 by lia. destruct (en - ed - e') eqn:E; [done..|lia]. }
  destruct (quotient_digits (Z.pos n) (Z.pos d) (en - ed - e') ltac:(lia) ltac:(lia) ltac:(lia)) as [Hq0 Hq].
  pose proof (Z_div_mod (Z.pos n * 2 ^ (en - ed - e')) (Z.pos d) ltac:(lia)) as Hdm. unfold Z.div in Hq, Hq0.
  destruct (Z.div_eucl (Z.pos n * 2 ^ (en - ed - e')) (Z.pos d)) as [q r]. destruct Hdm as [Hdm Hr].
  exists e', q, (new_location (Z.pos d) r). split_and!; [done|lia|lia|done| | |].
  - unfold e', fexp in *. lia.
  - lia.
  - rewrite Hdm, (Z.mul_comm _ q). by apply new_location_ok.
Qed.

Lemma div_inside s n d m ex : positive_ok (Z.pos m) ex → inside (Z.pos m) ex (Z.pos n) (Z.pos d) →
  SFdiv 53 1024 (S754_finite s n 0) (S754_finite false d 0) = S754_finite s m ex.
Proof.
  intros Hok Hin. destruct (div_form s false n d 0 0) as (e' & q & l & -> & He' & Hq & He & _ & Hl); [lia|].
  rewrite xorb_false_r. replace (0 - 0 - e') with (- e') in Hl by lia. replace e' with (0 - - e') by lia.
  apply (round_aux_inside s (Z.pos n) (Z.pos d) (- e') 0 q); [|done..].
  split; try (unfold bias; lia); [|by rewrite Z.mul_1_r]. by replace (0 - - e') with e' by lia.
Qed.

Lemma div_valid s n d :
  valid_binary 53 1024 (SFdiv 53 1024 (S754_finite s n 0) (S754_finite false d 0)) = true.
Proof.
  destruct (div_form s false n d 0 0) as (e' & q & l & -> & _ & Hq & He & _); [lia|].
  by apply round_aux_valid.
Qed.

(** ** The error of a rounding *)

(** m * 2^ex is within 2^-53 of the fraction N / D, relative to it. *)
Definition near (m ex N D : Z) : Prop :=
  2 ^ 53 * Z.abs (m * 2 ^ (bias + ex) * D - N * 2 ^ bias) <= N * 2 ^ bias.

Lemma nearest_half N D m l : 0 < D → located N D m l →
  2 * Z.abs (round_nearest_even m l * D - N) <= D ∧ m <= round_nearest_even m l <= m + 1.
Proof.
  intros HD Hl. destruct l as [|c]; cbn in Hl |- *; [lia|].
  destruct Hl as [Hr Hc]. apply half_compare in Hc. destruct c; [destruct (Z.even m)|..]; lia.
Qed.

Lemma normal_digits m n : 0 < m → Zdigits2 m - n = 53 → 0 <= n → 2 ^ 52 <= m / 2 ^ n < 2 ^ 53.
Proof.
  intros Hm Hd Hn. pose proof (digits_bounds m Hm) as [H1 H2]. assert (0 < 2 ^ n) by (apply Z.pow_pos_nonneg; lia).
  replace (Zdigits2 m - 1) with (52 + n) in H1 by lia. replace (Zdigits2 m) with (53 + n) in H2 by lia.
  rewrite Z.pow_add_r in H1, H2 by lia. split; [apply Z.div_le_lower_bound; lia|apply Z.div_lt_upper_bound; lia].
Qed.

Lemma near_half k N D a b : 0 < D → 0 <= a <= bias → 0 <= b → 2 ^ 52 * (D * 2 ^ b) <= N * 2 ^ a →
  2 * Z.abs (k * (D * 2 ^ b) - N * 2 ^ a) <= D * 2 ^ b → near k (b - a) N D.
Proof.
  intros HD Ha Hb Hn Hk. unfold near.
  assert (2 ^ bias = 2 ^ a * 2 ^ (bias - a)) as -> by (rewrite <-Z.pow_add_r by lia; f_equal; lia).
  assert (2 ^ (bias + (b - a)) = 2 ^ b * 2 ^ (bias - a)) as ->
    by (rewrite <-Z.pow_add_r by lia; f_equal; lia).
  assert (0 < 2 ^ (bias - a)) as Hp by (apply Z.pow_pos_nonneg; lia). set (P := 2 ^ (bias - a)) in *.
  replace (k * (2 ^ b * P) * D - N * (2 ^ a * P)) with ((k * (D * 2 ^ b) - N * 2 ^ a) * P) by ring.
  rewrite Z.abs_mul, (Z.abs_eq P), !Z.mul_assoc by lia. apply Z.mul_le_mono_nonneg_r; lia.
Qed.

(** In the normal range the nearest double is near. *)
Lemma round_aux_near s N D a b mx l : located_at N D a b mx l → 0 < mx →
  -1021 <= Zdigits2 mx + (b - a) <= 1023 → ∃ m ex,
  binary_round_aux 53 1024 s mx (b - a) l = S754_finite s m ex ∧ positive_ok (Z.pos m) ex ∧
  near (Z.pos m) ex N D.
Proof.
  intros [HD Ha Hb Hm He Hl] Hmx Hg. assert (0 < 2 ^ b) by (apply Z.pow_pos_nonneg; lia).
  unfold binary_round_aux. destruct (shr_fexp 53 1024 mx (b - a) l) as [r1 e1] eqn:H1.
  pose proof (shr_fexp_spec 53 1024 mx (b - a) l r1 e1 Hm He H1) as [_ Hr1].
  apply (shr_fexp_located _ _ (N * 2 ^ a) (D * 2 ^ b)) in H1 as [He1 H1]; [|lia|done..].
  assert (e1 = Zdigits2 mx + (b - a) - 53) as Hg1 by (unfold fexp, emin in He1; lia).
  rewrite <-Z.mul_assoc, <-Z.pow_add_r in H1 by lia. set (b' := b + (e1 - (b - a))) in *.
  assert (0 < D * 2 ^ b') as HX by (apply Z.mul_pos_pos; [done|apply Z.pow_pos_nonneg; lia]).
  destruct (nearest_half _ _ _ _ HX H1) as [Hh Hk]. set (k := round_nearest_even (shr_m r1) _) in *.
  pose proof (normal_digits mx (e1 - (b - a)) Hmx ltac:(lia) ltac:(lia)) as Hn. rewrite <-Hr1 in Hn.
  assert (near k e1 N D) as Hnear.
  { replace e1 with (b' - a) by lia. apply located_range in H1; [|done]. apply near_half; [done|lia|lia| |lia].
    apply (Z.le_trans _ (shr_m r1 * (D * 2 ^ b'))); [apply Z.mul_le_mono_nonneg_r; lia|lia]. }
  destruct (Z.eq_dec k (2 ^ 53)) as [Hk53|Hk53].
  - assert (positive_ok (2 ^ 52) (e1 + 1)) as Hok by (split_and!; lia).
    exists (2 ^ 52)%positive, (e1 + 1). split_and!; [|done|].
    + pose proof (shr_fexp_double (2 ^ 52) (e1 + 1) Hok) as Hs. rewrite Z.add_simpl_r in Hs.
      change (2 * Z.pos (2 ^ 52)) with (2 ^ 53) in Hs. rewrite Hk53, Hs. cbn [shr_m].
      assert ((e1 + 1 <=? 1024 - 53) = true) as Hle by (apply Z.leb_le; lia). by rewrite Hle.
    + unfold near in *. replace (bias + (e1 + 1)) with (1 + (bias + e1)) by lia.
      rewrite Z.pow_add_r by (unfold bias; lia). rewrite Hk53 in Hnear. change (Z.pos (2 ^ 52)) with (2 ^ 52).
      replace (2 ^ 52 * (2 ^ 1 * 2 ^ (bias + e1))) with (2 ^ 53 * 2 ^ (bias + e1)) by ring. done.
  - clearbody k. destruct k as [|k|k]; [lia| |lia].
    assert (positive_ok (Z.pos k) e1) as Hok by (split_and!; lia).
    exists k, e1. split_and!; [|done|done]. rewrite (shr_fexp_canonical k e1 Hok). cbn [shr_m].
    assert ((e1 <=? 1024 - 53) = true) as Hle by (apply Z.leb_le; lia). by rewrite Hle.
Qed.

Lemma located_scale N D m l c : 0 < c → located (N * c) (D * c) m l → located N D m l.
Proof.
  intros Hc. destruct l as [|x]; cbn [located].
  - intros H. apply (Z.mul_reg_r _ _ c); lia.
  - intros [Hr Hx]. split; [nia|]. rewrite <-Hx.
    replace (2 * (N * c)) with (c * (2 * N)) by ring.
    replace ((2 * m + 1) * (D * c)) with (c * ((2 * m + 1) * D)) by ring.
    by apply Zmult_compare_compat_l, Z.lt_gt.
Qed.

(** The digits of a located fraction, from what it is between. *)
Lemma located_digits N D a b mx l lo hi : located_at N D a b mx l → 0 <= bias + lo → 0 <= bias + hi → 0 <= mx →
  2 ^ (bias + lo) * D <= N * 2 ^ bias < 2 ^ (bias + hi) * D →
  lo < Zdigits2 mx + (b - a) ∧ (0 < mx → Zdigits2 mx + (b - a) <= hi).
Proof.
  intros Hl Hlo Hhi Hm [H1 H2]. pose proof (located_below _ _ _ _ _ _ Hl) as Hb.
  pose proof (located_bias _ _ _ _ _ _ Hl) as [Hb1 _]. pose proof (la_D _ _ _ _ _ _ Hl) as HD.
  assert (0 <= Zdigits2 mx) as Hd0 by (destruct mx; cbn; lia).
  assert (0 <= bias + (b - a)) as Hba by (destruct Hl; lia). split.
  - assert (bias + lo < bias + (Zdigits2 mx + (b - a))); [|lia].
    apply (pow2_lt_inv _ _ D); [done|lia|lia].
  - intros Hpos. pose proof (digits_bounds mx Hpos) as [Hd _]. pose proof (digits_pos mx Hpos).
    assert (bias + (Zdigits2 mx + (b - a)) - 1 < bias + hi); [|lia].
    apply (pow2_lt_inv _ _ D); [done|lia|]. eapply Z.le_lt_trans, H2. etransitivity; [|exact Hb1].
    replace (bias + (Zdigits2 mx + (b - a)) - 1) with (Zdigits2 mx - 1 + (bias + (b - a))) by lia.
    rewrite Z.pow_add_r, <-Z.mul_assoc by lia. apply Z.mul_le_mono_nonneg_r; [|done].
    apply Z.mul_nonneg_nonneg; [apply Z.pow_nonneg; lia|lia].
Qed.
