(* ===== verification/TimeDiff.v ===== *)
(** * Differences of timestamps (src/cppboot/base/timestamp.h, [TimeDifference], [AddTime])

    Seconds are a [double]; what the conversion to it and back loses is bounded. *)

From Stdlib Require Import SpecFloat.
From S2P Require Import Prelude JsonValue JsonFloat FloatRound Timestamp.

Module TimeDiff.

(** [static_cast<double>] of an integer *)
Definition double_of (z : Z) : spec_float := binary_normalize 53 1024 z 0 false.

Definition TimeDifference (high low : Timestamp) : outcome spec_float :=
  diff ← int64_result (high - low);
  Ret (SFdiv 53 1024 (double_of diff) (double_of kMicroSecondsPerSecond)).

Definition AddTime (timestamp : Timestamp) (seconds : spec_float) : outcome Timestamp :=
  delta ← float_to INT64_MIN INT64_MAX (SFmul 53 1024 seconds (double_of kMicroSecondsPerSecond));
  int64_result (timestamp + delta).

End TimeDiff.
Import FloatRound TimeDiff.

(** * Lemmas *)

(** A difference of 249 microseconds comes back as 248. *)
Example AddTime_one_short :
  (d ← TimeDifference 1700000000000249 1700000000000000; AddTime 1700000000000000 d) =
  Ret 1700000000000248.
Proof. by vm_compute. Qed.

(** An integer that fits the mantissa is converted exactly. *)
Lemma double_of_exact s n : 0 < n < 2 ^ 53 → ∃ m ex,
  double_of (cond_Zopp s n) = S754_finite s m ex ∧ positive_ok (Z.pos m) ex ∧ -52 <= ex <= 0 ∧
  Z.pos m = n * 2 ^ (- ex).
Proof.
  intros Hn. set (d := Zdigits2 n).
  assert (1 <= d <= 53) as Hd.
  { unfold d. rewrite Zdigits2_log2 by lia. pose proof (Z.log2_nonneg n).
    pose proof (proj1 (Z.log2_lt_pow2 n 53 ltac:(lia)) ltac:(lia)). lia. }
  pose proof (digits_bounds n ltac:(lia)) as [Hl Hu]. fold d in Hl, Hu.
  assert (2 ^ 52 <= n * 2 ^ (53 - d) < 2 ^ 53) as Hm.
  { replace (2 ^ 52) with (2 ^ (d - 1) * 2 ^ (53 - d)) by (rewrite <-Z.pow_add_r by lia; f_equal; lia).
    replace (2 ^ 53) with (2 ^ d * 2 ^ (53 - d)) by (rewrite <-Z.pow_add_r by lia; f_equal; lia).
    assert (0 < 2 ^ (53 - d)) by (apply Z.pow_pos_nonneg; lia).
    split; [apply Z.mul_le_mono_nonneg_r|apply Z.mul_lt_mono_pos_r]; lia. }
  destruct (n * 2 ^ (53 - d)) as [|m|m] eqn:Em; [lia| |lia].
  assert (positive_ok (Z.pos m) (d - 53)) as Hok by (split_and!; lia).
  exists m, (d - 53). split_and!; [|done|lia|lia|by replace (- (d - 53)) with (53 - d) by lia].
  transitivity (binary_normalize 53 1024 (cond_Zopp s n) 0 s).
  { unfold double_of. by destruct n as [|n'|n'], s. }
  apply normalize_inside; [lia|done|]. unfold inside, bias.
  assert (2 ^ 1200 * n = Z.pos m * 2 ^ (1200 + (d - 53))) as Hv.
  { rewrite <-Em. replace (1200 + (d - 53)) with (1147 + d) by lia.
    rewrite <-Z.mul_assoc, <-Z.pow_add_r by lia. replace (53 - d + (1147 + d)) with 1200 by lia. lia. }
  rewrite (Z.mul_comm n), Hv, !Z.mul_1_r.
  assert (2 ^ (1200 + (d - 53)) = 4 * 2 ^ (1200 + (d - 53) - 2)) as ->
    by (change 4 with (2 ^ 2); rewrite <-Z.pow_add_r by lia; f_equal; lia).
  assert (2 ^ (1200 + (d - 53) - 1) = 2 * 2 ^ (1200 + (d - 53) - 2)) as ->
    by (change 2 with (2 ^ 1) at 2; rewrite <-Z.pow_add_r by lia; f_equal; lia).
  assert (0 < 2 ^ (1200 + (d - 53) - 2)) by (apply Z.pow_pos_nonneg; lia).
  set (P := 2 ^ (1200 + (d - 53) - 2)) in *. destruct (closer (Z.pos m) (d - 53)); nia.
Qed.

Lemma million : double_of 1000000 = S754_finite false 8589934592000000 (-33).
Proof. by vm_compute. Qed.

(** The quotient by a million. *)
Lemma division_near s n : 0 < n < 2 ^ 52 → ∃ m ex,
  SFdiv 53 1024 (double_of (cond_Zopp s n)) (double_of 1000000) = S754_finite s m ex ∧
  positive_ok (Z.pos m) ex ∧ near (Z.pos m) ex n 1000000.
Proof.
  intros Hn. destruct (double_of_exact s n ltac:(lia)) as (mn & en & -> & Hok & Hen & Hmn). rewrite million.
  destruct (div_form s false mn 8589934592000000 en (-33)) as (e' & q & l & -> & He' & Hq & He & Hem & Hl); [lia|].
  rewrite xorb_false_r. destruct (positive_exponent _ _ Hok) as [_ Hdm].
  change (Zdigits2 8589934592000000 + -33) with 20 in Hem.
  assert (Zdigits2 (Z.pos mn) + en <= 52) as Hdn.
  { pose proof (digits_bounds (Z.pos mn) ltac:(lia)) as [Hdl _].
    assert (2 ^ (Zdigits2 (Z.pos mn) - 1) < 2 ^ (52 - en)) as Hlt.
    { eapply Z.le_lt_trans; [exact Hdl|]. rewrite Hmn. replace (52 - en) with (52 + - en) by lia.
      rewrite Z.pow_add_r by lia. apply Z.mul_lt_mono_pos_r; [apply Z.pow_pos_nonneg; lia|lia]. }
    apply Z.pow_lt_mono_r_iff in Hlt; lia. }
  assert (e' <= -20) as Hneg by (unfold fexp, emin in Hem; lia).
  assert (located_at n 1000000 (- e') 0 q l) as Hat.
  { split; try (unfold bias; lia); [by replace (0 - - e') with e' by lia|].
    apply (located_scale _ _ _ _ (2 ^ 33)); [lia|]. rewrite Z.mul_1_r.
    replace (n * 2 ^ (- e') * 2 ^ 33) with (Z.pos mn * 2 ^ (en - -33 - e')); [exact Hl|].
    rewrite Hmn, <-!Z.mul_assoc, <-!Z.pow_add_r by lia. do 2 f_equal. lia. }
  destruct (located_digits _ _ _ _ _ _ (-20) 52 Hat) as [Hg1 Hg2]; try (unfold bias; lia).
  assert (0 < q) as Hq0.
  { destruct (Z.eq_dec q 0) as [->|]; [|lia]. cbn [Zdigits2] in Hg1. lia. }
  specialize (Hg2 Hq0). replace e' with (0 - - e') by lia.
  by apply (round_aux_near s n 1000000 (- e') 0 q l Hat Hq0); lia.
Qed.

(** What [near] says of the exponent. *)
Lemma near_exponent m ex n : positive_ok (Z.pos m) ex → 0 < n < 2 ^ 52 → near (Z.pos m) ex n 1000000 →
  -80 <= ex <= 0.
Proof.
  intros (Hm & Hex & Hs) Hn Hnear. unfold near in Hnear. set (Y := 2 ^ (bias + ex)) in *.
  assert (2 ^ bias = 2 ^ 100 * 2 ^ (bias - 100)) as HB by (rewrite <-Z.pow_add_r by (unfold bias; lia); done).
  set (P := 2 ^ (bias - 100)) in *. assert (0 < P) by (apply Z.pow_pos_nonneg; unfold bias; lia).
  assert (0 < Y) by (apply Z.pow_pos_nonneg; unfold bias; lia). rewrite HB in Hnear. split.
  - destruct (Z.le_gt_cases (-80) ex); [done|]. exfalso.
    assert (Y <= 2 ^ 20 * P) as HY.
    { unfold Y, P. rewrite <-Z.pow_add_r by (unfold bias; lia). apply Z.pow_le_mono_r; unfold bias; lia. }
    assert (Z.pos m * Y <= 2 ^ 53 * (2 ^ 20 * P)) by (apply Z.mul_le_mono_nonneg; lia).
    assert (1 * (2 ^ 100 * P) <= n * (2 ^ 100 * P)) by (apply Z.mul_le_mono_nonneg_r; lia). lia.
  - destruct (Z.le_gt_cases ex 0); [done|]. exfalso. assert (2 ^ 52 <= Z.pos m) by lia.
    assert (2 ^ 101 * P <= Y) as HY.
    { unfold Y, P. rewrite <-Z.pow_add_r by (unfold bias; lia). apply Z.pow_le_mono_r; unfold bias; lia. }
    assert (2 ^ 52 * (2 ^ 101 * P) <= Z.pos m * Y) by (apply Z.mul_le_mono_nonneg; lia).
    assert (n * (2 ^ 100 * P) <= 2 ^ 52 * (2 ^ 100 * P)) by (apply Z.mul_le_mono_nonneg_r; lia). lia.
Qed.

(** The product with a million of what is near a difference. *)
Lemma product_near s m ex : positive_ok (Z.pos m) ex → -80 <= ex <= 0 → ∃ m' ex',
  SFmul 53 1024 (S754_finite s m ex) (double_of 1000000) = S754_finite s m' ex' ∧ positive_ok (Z.pos m') ex' ∧
  2 ^ 53 * Z.abs (Z.pos m' * 2 ^ (bias + ex') - Z.pos m * 2 ^ (bias + ex) * 1000000) <=
    Z.pos m * 2 ^ (bias + ex) * 1000000.
Proof.
  intros Hok Hex. rewrite million. unfold SFmul. rewrite xorb_false_r.
  set (p := Z.pos m * 8589934592000000). change (Z.pos (m * 8589934592000000)) with p.
  pose proof (proj1 Hok) as Hm.
  assert (2 ^ 52 <= p < 2 ^ 106) as Hp by (unfold p; lia). set (a := 33 - ex).
  assert (53 <= Zdigits2 p <= 106) as Hd.
  { rewrite Zdigits2_log2 by lia. assert (52 <= Z.log2 p) by (apply Z.log2_le_pow2; lia).
    assert (Z.log2 p < 106) by (apply Z.log2_lt_pow2; lia). lia. }
  assert (located_at p (2 ^ a) a 0 p loc_Exact) as Hat.
  { split; try (unfold bias, a; lia); [unfold fexp; lia|].
    cbn [located]. by rewrite Z.mul_1_r. }
  destruct (round_aux_near s p (2 ^ a) a 0 p loc_Exact Hat) as (m' & ex' & Heq & Hok' & Hnear); [lia|unfold a; lia|].
  exists m', ex'. split; [by replace (ex + -33) with (0 - a) by (unfold a; lia)|]. split; [done|].
  unfold near in Hnear. assert (0 < 2 ^ a) as Ha by (apply Z.pow_pos_nonneg; unfold a; lia).
  assert (p * 2 ^ bias = Z.pos m * 2 ^ (bias + ex) * 1000000 * 2 ^ a) as Hpe.
  { unfold p. change 8589934592000000 with (1000000 * 2 ^ 33).
    assert (2 ^ 33 * 2 ^ bias = 2 ^ (bias + ex) * 2 ^ a) as H.
    { rewrite <-!Z.pow_add_r by (unfold bias, a; lia). f_equal. unfold a. lia. }
    replace (Z.pos m * (1000000 * 2 ^ 33) * 2 ^ bias) with (Z.pos m * 1000000 * (2 ^ 33 * 2 ^ bias)) by ring.
    rewrite H. ring. }
  rewrite Hpe in Hnear. set (X := Z.pos m * 2 ^ (bias + ex) * 1000000) in *.
  replace (Z.pos m' * 2 ^ (bias + ex') * 2 ^ a - X * 2 ^ a) with ((Z.pos m' * 2 ^ (bias + ex') - X) * 2 ^ a)
    in Hnear by ring.
  rewrite Z.abs_mul, (Z.abs_eq (2 ^ a)), Z.mul_assoc in Hnear by lia.
  by apply Z.mul_le_mono_pos_r in Hnear.
Qed.

(** The integral part of a number that is less than one away from an integer. *)
Lemma float_trunc_near s m ex n : positive_ok (Z.pos m) ex →
  Z.abs (Z.pos m * 2 ^ (bias + ex) - n * 2 ^ bias) < 2 ^ bias → ∃ k,
  float_trunc (S754_finite s m ex) = Some (if s : bool then - k else k) ∧ n - 1 <= k <= n.
Proof.
  intros (Hm & Hex & _) Hn. cbn [float_trunc]. assert (0 < 2 ^ bias) by (apply Z.pow_pos_nonneg; unfold bias; lia).
  destruct (Z.leb_spec 0 ex) as [He|He].
  - exists (Z.pos m * 2 ^ ex). split; [by destruct s|].
    rewrite Z.pow_add_r in Hn by (unfold bias; lia).
    replace (Z.pos m * (2 ^ bias * 2 ^ ex) - n * 2 ^ bias) with ((Z.pos m * 2 ^ ex - n) * 2 ^ bias) in Hn by ring.
    rewrite Z.abs_mul, (Z.abs_eq (2 ^ bias)) in Hn by lia. nia.
  - exists (Z.pos m / 2 ^ (- ex)). split; [by destruct s|].
    assert (0 < 2 ^ (- ex)) as Hp by (apply Z.pow_pos_nonneg; lia).
    pose proof (Z.div_mod (Z.pos m) (2 ^ (- ex)) ltac:(lia)) as Hdm.
    pose proof (Z.mod_pos_bound (Z.pos m) (2 ^ (- ex)) Hp) as Hr.
    assert (2 ^ bias = 2 ^ (bias + ex) * 2 ^ (- ex)) as HB
      by (rewrite <-Z.pow_add_r by (unfold bias; lia); f_equal; lia).
    assert (0 < 2 ^ (bias + ex)) as HY by (apply Z.pow_pos_nonneg; unfold bias; lia).
    rewrite HB in Hn. set (Y := 2 ^ (bias + ex)) in *. set (c := 2 ^ (- ex)) in *.
    replace (Z.pos m * Y - n * (Y * c)) with ((Z.pos m - n * c) * Y) in Hn by ring.
    rewrite Z.abs_mul, (Z.abs_eq Y) in Hn by lia.
    assert (Z.abs (Z.pos m - n * c) < c) by nia. set (k := Z.pos m / c) in *. set (r := Z.pos m mod c) in *.
    clear - H0 Hdm Hr Hp. split; nia.
Qed.

Lemma delta_back s n : 0 < n < 2 ^ 52 → ∃ k,
  float_trunc (SFmul 53 1024 (SFdiv 53 1024 (double_of (cond_Zopp s n)) (double_of 1000000)) (double_of 1000000)) =
  Some (if s : bool then - k else k) ∧ n - 1 <= k <= n.
Proof.
  intros Hn. destruct (division_near s n Hn) as (m & ex & -> & Hok & Hnear).
  pose proof (near_exponent m ex n Hok Hn Hnear) as Hex.
  destruct (product_near s m ex Hok Hex) as (m' & ex' & -> & Hok' & Hnear').
  apply float_trunc_near; [done|]. unfold near in Hnear.
  set (X := Z.pos m * 2 ^ (bias + ex) * 1000000) in *. set (Y := Z.pos m' * 2 ^ (bias + ex')) in *.
  assert (0 < 2 ^ bias) as HB by (apply Z.pow_pos_nonneg; unfold bias; lia). set (B := 2 ^ bias) in *.
  assert (n * B <= (2 ^ 52 - 1) * B) by (apply Z.mul_le_mono_nonneg_r; lia). set (V := n * B) in *. lia.
Qed.

Lemma difference_back high low : INT64_MIN <= high <= INT64_MAX → INT64_MIN <= low <= INT64_MAX →
  Z.abs (high - low) < 2 ^ 52 → ∃ d delta, TimeDifference high low = Ret d ∧
    AddTime low d = Ret (low + delta) ∧
    (low <= high ∧ Z.max 0 (high - low - 1) <= delta <= high - low ∨
     high <= low ∧ high - low <= delta <= Z.min 0 (high - low + 1)).
Proof.
  intros Hh Hl Hd. unfold INT64_MIN, INT64_MAX in *. unfold TimeDifference.
  assert (∀ z, - 2 ^ 63 <= z <= 2 ^ 63 - 1 → int64_result z = Ret z) as H64.
  { intros z Hz. unfold int64_result, INT64_MIN, INT64_MAX. by rewrite !(proj2 (Z.leb_le _ _)) by lia. }
  rewrite H64 by lia. cbn [mbind outcome_bind].
  assert (∃ k, float_trunc (SFmul 53 1024 (SFdiv 53 1024 (double_of (high - low)) (double_of 1000000)) (double_of 1000000)) = Some k ∧
    (low <= high ∧ Z.max 0 (high - low - 1) <= k <= high - low ∨
     high <= low ∧ high - low <= k <= Z.min 0 (high - low + 1))) as (k & Hk & Hr).
  { destruct (Z.lt_trichotomy low high) as [H|[H|H]].
    - destruct (delta_back false (high - low) ltac:(lia)) as (k & Hk & Hr). exists k. split; [exact Hk|lia].
    - exists 0. replace (high - low) with 0 by lia. split; [by rewrite million|lia].
    - destruct (delta_back true (low - high) ltac:(lia)) as (k & Hk & Hr). exists (- k).
      cbn [cond_Zopp] in Hk. replace (- (low - high)) with (high - low) in Hk by lia. split; [exact Hk|lia]. }
  eexists _, k. split; [done|]. split; [|done]. unfold AddTime, float_to, INT64_MIN, INT64_MAX.
  change kMicroSecondsPerSecond with 1000000. rewrite Hk.
  rewrite (proj2 (Z.leb_le (- 2 ^ 63) k)), (proj2 (Z.leb_le k (2 ^ 63 - 1))) by lia.
  cbn [andb mbind outcome_bind]. apply H64. lia.
Qed.

(** * Properties *)

(** C36: a difference of two timestamps added to the earlier one gives the later one, or
    one microsecond less.  For timestamps less than 2^52 microseconds apart, which is 142
    years, [TimeDifference] and [AddTime] do not overflow; the time that comes back lies
    between the two and is at most one microsecond from the one aimed at (the cut of the
    fraction can lose it: 249 microseconds come back as 248, [AddTime_one_short]). *)
Theorem AddTime_TimeDifference (high low : Timestamp) :
  INT64_MIN <= high <= INT64_MAX → INT64_MIN <= low <= INT64_MAX → Z.abs (high - low) < 2 ^ 52 →
  ∃ d t, TimeDifference high low = Ret d ∧ AddTime low d = Ret t ∧
    Z.abs (high - t) <= 1 ∧ Z.min low high <= t <= Z.max low high.
Proof.
  intros Hh Hl Hd. destruct (difference_back high low Hh Hl Hd) as (d & k & H1 & H2 & Hr).
  exists d, (low + k). split_and!; [done|done|lia|lia|lia].
Qed.

(** A hundred years and 249 microseconds. *)
Lemma AddTime_TimeDifference_witness :
  ∃ d t, TimeDifference 3155760000000249 0 = Ret d ∧ AddTime 0 d = Ret t ∧
    Z.abs (3155760000000249 - t) <= 1 ∧ Z.min 0 3155760000000249 <= t <= Z.max 0 3155760000000249.
Proof.
  exact (AddTime_TimeDifference 3155760000000249 0
    ltac:(unfold INT64_MIN, INT64_MAX; lia) ltac:(unfold INT64_MIN, INT64_MAX; lia) ltac:(lia)).
Defined.
