(* ===== verification/Grisu.v ===== *)
(** * Characters of a double (src/cppboot/base/internal/json/json.hpp, [detail::dtoa_impl], [to_chars])

    The Grisu2 algorithm with its 64-bit arithmetic and its assertions, the layout of the digits
    and [to_chars], which [serializer::dump_float] calls for a finite [double]. *)

From Stdlib Require Import SpecFloat.
From S2P Require Import Prelude JsonFloat FloatRound.

Module Grisu.

(** ** [diyfp]: f * 2^e *)

Record diyfp : Type := Diyfp { f : Z; e : Z }.

Definition diyfp_sub (x y : diyfp) : outcome diyfp :=
  _ ← cpp_assert (e x =? e y);
  _ ← cpp_assert (f y <=? f x);
  Ret (Diyfp (f x - f y) (e x)).

(** The upper 64 bits of the product, by 32-bit halves. *)
Definition diyfp_mul (x y : diyfp) : diyfp :=
  let u_lo := Z.land (f x) 0xFFFFFFFF in let u_hi := Z.shiftr (f x) 32 in
  let v_lo := Z.land (f y) 0xFFFFFFFF in let v_hi := Z.shiftr (f y) 32 in
  let p0 := u64 (u_lo * v_lo) in let p1 := u64 (u_lo * v_hi) in
  let p2 := u64 (u_hi * v_lo) in let p3 := u64 (u_hi * v_hi) in
  let p0_hi := Z.shiftr p0 32 in
  let p1_lo := Z.land p1 0xFFFFFFFF in let p1_hi := Z.shiftr p1 32 in
  let p2_lo := Z.land p2 0xFFFFFFFF in let p2_hi := Z.shiftr p2 32 in
  let Q := u64 (u64 (u64 (p0_hi + p1_lo) + p2_lo) + 2 ^ (64 - 32 - 1)) in
  let h := u64 (u64 (u64 (p3 + p2_hi) + p1_hi) + Z.shiftr Q 32) in
  Diyfp h (e x + e y + 64).

(** [while ((x.f >> 63) == 0)]; 64 rounds are enough for a number that is not 0. *)
Fixpoint normalize_loop (fuel : nat) (x : diyfp) : outcome diyfp :=
  match fuel with
  | O => OutOfFuel
  | S fuel =>
      if Z.shiftr (f x) 63 =? 0 then normalize_loop fuel (Diyfp (u64 (Z.shiftl (f x) 1)) (e x - 1))
      else Ret x
  end.
Definition normalize (x : diyfp) : outcome diyfp :=
  _ ← cpp_assert (negb (f x =? 0)); normalize_loop 64 x.

(** A shift by 64 or more is undefined. *)
Definition normalize_to (x : diyfp) (target_exponent : Z) : outcome diyfp :=
  let delta := e x - target_exponent in
  _ ← cpp_assert (0 <=? delta);
  if 64 <=? delta then Undef else
  _ ← cpp_assert (Z.shiftr (u64 (Z.shiftl (f x) delta)) delta =? f x);
  Ret (Diyfp (u64 (Z.shiftl (f x) delta)) target_exponent).

(** ** [compute_boundaries] *)

Record boundaries : Type := Boundaries { w : diyfp; minus : diyfp; plus : diyfp }.

Definition kPrecision : Z := 53.
Definition kBias : Z := 1024 - 1 + (kPrecision - 1).
Definition kMinExp : Z := 1 - kBias.
Definition kHiddenBit : Z := 2 ^ (kPrecision - 1).

(** [std::isfinite(value)] and [value > 0] *)
Definition finite_positive (value : spec_float) : bool :=
  match value with S754_finite false _ _ => true | _ => false end.

Definition compute_boundaries (value : spec_float) : outcome boundaries :=
  _ ← cpp_assert (finite_positive value);
  let bits := double_bits 0 value in
  let E := Z.shiftr bits (kPrecision - 1) in
  let F := Z.land bits (kHiddenBit - 1) in
  let v := if E =? 0 then Diyfp F kMinExp else Diyfp (F + kHiddenBit) (E - kBias) in
  let lower_boundary_is_closer := (F =? 0) && (1 <? E) in
  let m_plus := Diyfp (u64 (2 * f v + 1)) (e v - 1) in
  let m_minus := if lower_boundary_is_closer then Diyfp (u64 (4 * f v - 1)) (e v - 2)
                 else Diyfp (u64 (2 * f v - 1)) (e v - 1) in
  w_plus ← normalize m_plus;
  w_minus ← normalize_to m_minus (e w_plus);
  w ← normalize v;
  Ret (Boundaries w w_minus w_plus).

(** ** The cached powers of ten *)

Definition kAlpha : Z := -60.
Definition kGamma : Z := -32.

(** [f], [e] and [k] of [cached_power] *)
Definition kCachedPowers : list (Z * Z * Z) :=
  [(0xAB70FE17C79AC6CA, -1060, -300); (0xFF77B1FCBEBCDC4F, -1034, -292);
   (0xBE5691EF416BD60C, -1007, -284); (0x8DD01FAD907FFC3C, -980, -276);
   (0xD3515C2831559A83, -954, -268); (0x9D71AC8FADA6C9B5, -927, -260);
   (0xEA9C227723EE8BCB, -901, -252); (0xAECC49914078536D, -874, -244);
   (0x823C12795DB6CE57, -847, -236); (0xC21094364DFB5637, -821, -228);
   (0x9096EA6F3848984F, -794, -220); (0xD77485CB25823AC7, -768, -212);
   (0xA086CFCD97BF97F4, -741, -204); (0xEF340A98172AACE5, -715, -196);
   (0xB23867FB2A35B28E, -688, -188); (0x84C8D4DFD2C63F3B, -661, -180);
   (0xC5DD44271AD3CDBA, -635, -172); (0x936B9FCEBB25C996, -608, -164);
   (0xDBAC6C247D62A584, -582, -156); (0xA3AB66580D5FDAF6, -555, -148);
   (0xF3E2F893DEC3F126, -529, -140); (0xB5B5ADA8AAFF80B8, -502, -132);
   (0x87625F056C7C4A8B, -475, -124); (0xC9BCFF6034C13053, -449, -116);
   (0x964E858C91BA2655, -422, -108); (0xDFF9772470297EBD, -396, -100);
   (0xA6DFBD9FB8E5B88F, -369, -92); (0xF8A95FCF88747D94, -343, -84);
   (0xB94470938FA89BCF, -316, -76); (0x8A08F0F8BF0F156B, -289, -68);
   (0xCDB02555653131B6, -263, -60); (0x993FE2C6D07B7FAC, -236, -52);
   (0xE45C10C42A2B3B06, -210, -44); (0xAA242499697392D3, -183, -36);
   (0xFD87B5F28300CA0E, -157, -28); (0xBCE5086492111AEB, -130, -20);
   (0x8CBCCC096F5088CC, -103, -12); (0xD1B71758E219652C, -77, -4); (0x9C40000000000000, -50, 4);
   (0xE8D4A51000000000, -24, 12); (0xAD78EBC5AC620000, 3, 20); (0x813F3978F8940984, 30, 28);
   (0xC097CE7BC90715B3, 56, 36); (0x8F7E32CE7BEA5C70, 83, 44); (0xD5D238A4ABE98068, 109, 52);
   (0x9F4F2726179A2245, 136, 60); (0xED63A231D4C4FB27, 162, 68); (0xB0DE65388CC8ADA8, 189, 76);
   (0x83C7088E1AAB65DB, 216, 84); (0xC45D1DF942711D9A, 242, 92); (0x924D692CA61BE758, 269, 100);
   (0xDA01EE641A708DEA, 295, 108); (0xA26DA3999AEF774A, 322, 116); (0xF209787BB47D6B85, 348, 124);
   (0xB454E4A179DD1877, 375, 132); (0x865B86925B9BC5C2, 402, 140); (0xC83553C5C8965D3D, 428, 148);
   (0x952AB45CFA97A0B3, 455, 156); (0xDE469FBD99A05FE3, 481, 164); (0xA59BC234DB398C25, 508, 172);
   (0xF6C69A72A3989F5C, 534, 180); (0xB7DCBF5354E9BECE, 561, 188); (0x88FCF317F22241E2, 588, 196);
   (0xCC20CE9BD35C78A5, 614, 204); (0x98165AF37B2153DF, 641, 212); (0xE2A0B5DC971F303A, 667, 220);
   (0xA8D9D1535CE3B396, 694, 228); (0xFB9B7CD9A4A7443C, 720, 236); (0xBB764C4CA7A44410, 747, 244);
   (0x8BAB8EEFB6409C1A, 774, 252); (0xD01FEF10A657842C, 800, 260); (0x9B10A4E5E9913129, 827, 268);
   (0xE7109BFBA19C0C9D, 853, 276); (0xAC2820D9623BF429, 880, 284); (0x80444B5E7AA7CF85, 907, 292);
   (0xBF21E44003ACDD2D, 933, 300); (0x8E679C2F5E44FF8F, 960, 308); (0xD433179D9C8CB841, 986, 316);
   (0x9E19DB92B4E31BA9, 1013, 324)].

Definition kCachedPowersMinDecExp : Z := -300.
Definition kCachedPowersDecStep : Z := 8.

(** The divisions are those of C, towards zero. *)
Definition get_cached_power_for_binary_exponent (e : Z) : outcome (diyfp * Z) :=
  _ ← cpp_assert (-1500 <=? e);
  _ ← cpp_assert (e <=? 1500);
  let f := kAlpha - e - 1 in
  let k := Z.quot (f * 78913) (Z.shiftl 1 18) + (if 0 <? f then 1 else 0) in
  let index := Z.quot (- kCachedPowersMinDecExp + k + (kCachedPowersDecStep - 1)) kCachedPowersDecStep in
  _ ← cpp_assert (0 <=? index);
  _ ← cpp_assert (index <? len kCachedPowers);
  '(cf, ce, ck) ← or_undef (kCachedPowers !! Z.to_nat index);
  _ ← cpp_assert (kAlpha <=? ce + e + 64);
  _ ← cpp_assert (ce + e + 64 <=? kGamma);
  Ret (Diyfp cf ce, ck).

(** ** The digits *)

(** The number of digits and the power of ten of the first. *)
Definition find_largest_pow10 (n : Z) : nat * Z :=
  if 1000000000 <=? n then (10%nat, 1000000000)
  else if 100000000 <=? n then (9%nat, 100000000)
  else if 10000000 <=? n then (8%nat, 10000000)
  else if 1000000 <=? n then (7%nat, 1000000)
  else if 100000 <=? n then (6%nat, 100000)
  else if 10000 <=? n then (5%nat, 10000)
  else if 1000 <=? n then (4%nat, 1000)
  else if 100 <=? n then (3%nat, 100)
  else if 10 <=? n then (2%nat, 10)
  else (1%nat, 1).

(** [room] is what the array holds from [buffer] on. *)
Definition put_digit (room d : Z) (buf : bytes) : outcome bytes :=
  if len buf <? room then Ret (buf ++ [char_of (48 + d)]) else Undef.

(** [buf[len - 1]--] *)
Definition decrement_last (buf : bytes) : outcome bytes :=
  c ← or_undef (last buf);
  _ ← cpp_assert (negb (bool_decide (c = "0"%char)));
  Ret (removelast buf ++ [char_of (schar c - 1)]).

(** At most nine rounds: the last digit does not get below 0. *)
Fixpoint round_loop (fuel : nat) (buf : bytes) (dist delta rest ten_k : Z) : outcome bytes :=
  match fuel with
  | O => OutOfFuel
  | S fuel =>
      if (rest <? dist) && (ten_k <=? delta - rest) &&
         ((u64 (rest + ten_k) <? dist) || (u64 (rest + ten_k) - dist <? dist - rest))
      then buf ← decrement_last buf; round_loop fuel buf dist delta (u64 (rest + ten_k)) ten_k
      else Ret buf
  end.
Definition grisu2_round (buf : bytes) (dist delta rest ten_k : Z) : outcome bytes :=
  _ ← cpp_assert (1 <=? len buf);
  _ ← cpp_assert (dist <=? delta);
  _ ← cpp_assert (rest <=? delta);
  _ ← cpp_assert (0 <? ten_k);
  round_loop 11 buf dist delta rest ten_k.

(** The digits of the integral part [p1], [n] of them left.  With enough of them: how many
    are left, the rest, and the unit of the last digit. *)
Fixpoint integral_digits (n : nat) (room p1 p2 pow10 delta shift : Z) (buffer : bytes) :
    outcome (bytes * option (Z * Z * Z)) :=
  match n with
  | O => Ret (buffer, None)
  | S n =>
      let d := p1 / pow10 in
      let r := p1 mod pow10 in
      _ ← cpp_assert (d <=? 9);
      buffer ← put_digit room d buffer;
      let rest := u64 (u64 (Z.shiftl r shift) + p2) in
      if rest <=? delta then Ret (buffer, Some (Z.of_nat n, rest, u64 (Z.shiftl pow10 shift)))
      else integral_digits n room r p2 (pow10 / 10) delta shift buffer
  end.

(** The digits of the fraction: the digits, how many, and the rest with [delta] and [dist]
    scaled as it is.  Every digit makes [delta] ten times as large. *)
Fixpoint fraction_digits (fuel : nat) (room p2 delta dist shift m : Z) (buffer : bytes) :
    outcome (bytes * Z * Z * Z * Z) :=
  match fuel with
  | O => OutOfFuel
  | S fuel =>
      _ ← cpp_assert (p2 <=? (2 ^ 64 - 1) / 10);
      let p2 := u64 (p2 * 10) in
      let d := Z.shiftr p2 shift in
      let r := Z.land p2 (u64 (Z.shiftl 1 shift) - 1) in
      _ ← cpp_assert (d <=? 9);
      buffer ← put_digit room d buffer;
      let delta := u64 (delta * 10) in
      let dist := u64 (dist * 10) in
      if r <=? delta then Ret (buffer, m + 1, r, delta, dist)
      else fraction_digits fuel room r delta dist shift (m + 1) buffer
  end.

(** The digits and the exponent. *)
Definition grisu2_digit_gen (room decimal_exponent : Z) (M_minus w M_plus : diyfp) :
    outcome (bytes * Z) :=
  _ ← cpp_assert (kAlpha <=? e M_plus);
  _ ← cpp_assert (e M_plus <=? kGamma);
  delta ← f <$> diyfp_sub M_plus M_minus;
  dist ← f <$> diyfp_sub M_plus w;
  let shift := - e M_plus in
  let one := u64 (Z.shiftl 1 shift) in
  let p1 := u32 (Z.shiftr (f M_plus) shift) in
  let p2 := Z.land (f M_plus) (one - 1) in
  _ ← cpp_assert (0 <? p1);
  let '(k, pow10) := find_largest_pow10 p1 in
  '(buffer, stop) ← integral_digits k room p1 p2 pow10 delta shift [];
  match stop with
  | Some (n, rest, ten_n) =>
      buffer ← grisu2_round buffer dist delta rest ten_n; Ret (buffer, decimal_exponent + n)
  | None =>
      _ ← cpp_assert (delta <? p2);
      '(buffer, m, rest, delta, dist) ← fraction_digits 20 room p2 delta dist shift 0 buffer;
      buffer ← grisu2_round buffer dist delta rest one; Ret (buffer, decimal_exponent - m)
  end.

Definition grisu2 (room : Z) (m_minus v m_plus : diyfp) : outcome (bytes * Z) :=
  _ ← cpp_assert (e m_plus =? e m_minus);
  _ ← cpp_assert (e m_plus =? e v);
  '(c_minus_k, k) ← get_cached_power_for_binary_exponent (e m_plus);
  let w := diyfp_mul v c_minus_k in
  let w_minus := diyfp_mul m_minus c_minus_k in
  let w_plus := diyfp_mul m_plus c_minus_k in
  let M_minus := Diyfp (u64 (f w_minus + 1)) (e w_minus) in
  let M_plus := Diyfp (u64 (f w_plus - 1)) (e w_plus) in
  grisu2_digit_gen room (- k) M_minus w M_plus.

Definition grisu2_value (room : Z) (value : spec_float) : outcome (bytes * Z) :=
  _ ← cpp_assert (finite_positive value);
  w ← compute_boundaries value;
  grisu2 room (minus w) (Grisu.w w) (plus w).

(** ** The text *)

Definition append_exponent (e : Z) : outcome bytes :=
  _ ← cpp_assert (-1000 <? e);
  _ ← cpp_assert (e <? 1000);
  let sign := if e <? 0 then "-"%char else "+"%char in
  let k := if e <? 0 then - e else e in
  Ret (sign ::
    (if k <? 10 then ["0"%char; char_of (48 + k)]
     else if k <? 100 then [char_of (48 + k / 10); char_of (48 + k mod 10)]
     else [char_of (48 + k / 100); char_of (48 + k mod 100 / 10); char_of (48 + k mod 100 mod 10)])).

Definition format_buffer (buf : bytes) (decimal_exponent min_exp max_exp : Z) : outcome bytes :=
  _ ← cpp_assert (min_exp <? 0);
  _ ← cpp_assert (0 <? max_exp);
  let k := len buf in
  let n := len buf + decimal_exponent in
  if (k <=? n) && (n <=? max_exp) then
    Ret (buf ++ replicate (Z.to_nat (n - k)) "0"%char ++ bs ".0")
  else if (0 <? n) && (n <=? max_exp) then
    _ ← cpp_assert (n <? k);
    Ret (take (Z.to_nat n) buf ++ "."%char :: drop (Z.to_nat n) buf)
  else if (min_exp <? n) && (n <=? 0) then
    Ret (bs "0." ++ replicate (Z.to_nat (- n)) "0"%char ++ buf)
  else
    x ← append_exponent (n - 1);
    Ret ((if k =? 1 then buf else take 1 buf ++ "."%char :: drop 1 buf) ++ "e"%char :: x).

Definition max_digits10 : Z := 17.
Definition digits10 : Z := 15.

(** [last - first] is [room]; writing behind [last] is undefined. *)
Definition to_chars (room : Z) (value : spec_float) : outcome bytes :=
  _ ← cpp_assert match value with S754_zero _ | S754_finite _ _ _ => true | _ => false end;
  let signbit := match value with S754_zero s | S754_finite s _ _ => s | _ => false end in
  let value := if signbit then SFopp value else value in
  let sign := if signbit then bs "-" else [] in
  let room := room - len sign in
  text ← match value with
         | S754_zero _ => Ret (bs "0.0")
         | _ =>
             _ ← cpp_assert (max_digits10 <=? room);
             '(buf, decimal_exponent) ← grisu2_value room value;
             _ ← cpp_assert (len buf <=? max_digits10);
             let kMinExp := -4 in
             let kMaxExp := digits10 in
             _ ← cpp_assert (kMaxExp + 2 <=? room);
             _ ← cpp_assert (2 + (- kMinExp - 1) + max_digits10 <=? room);
             _ ← cpp_assert (max_digits10 + 6 <=? room);
             format_buffer buf decimal_exponent kMinExp kMaxExp
         end;
  if len text <=? room then Ret (sign ++ text) else Undef.

(** [dump_float] of a finite number, with the serializer's array of 64 characters. *)
Definition dump_float (value : spec_float) : outcome bytes := to_chars 64 value.

End Grisu.
Import FloatRound Grisu.

(** * Lemmas *)

(** ** 64-bit arithmetic *)

Lemma bind_eq {A B} (m : outcome A) (k : A → outcome B) x : m = Ret x → m ≫= k = k x.
Proof. by intros ->. Qed.

Lemma land_half x : Z.land x 0xFFFFFFFF = x mod 2 ^ 32.
Proof. by rewrite <-Z.land_ones by lia. Qed.

(** The halves put together. *)
Lemma mul_halves a b c d : 0 <= a < 2 ^ 32 → 0 <= b < 2 ^ 32 → 0 <= c < 2 ^ 32 → 0 <= d < 2 ^ 32 →
  ((a + 2 ^ 32 * b) * (c + 2 ^ 32 * d) + 2 ^ 63) / 2 ^ 64 =
  b * d + b * c / 2 ^ 32 + a * d / 2 ^ 32 +
  (a * c / 2 ^ 32 + a * d mod 2 ^ 32 + b * c mod 2 ^ 32 + 2 ^ 31) / 2 ^ 32.
Proof.
  intros Ha Hb Hc Hd.
  pose proof (Z.div_mod (a * c) (2 ^ 32) ltac:(lia)) as H0.
  pose proof (Z.div_mod (a * d) (2 ^ 32) ltac:(lia)) as H1.
  pose proof (Z.div_mod (b * c) (2 ^ 32) ltac:(lia)) as H2.
  pose proof (Z.mod_pos_bound (a * c) (2 ^ 32) ltac:(lia)) as Hm.
  set (Q := a * c / 2 ^ 32 + a * d mod 2 ^ 32 + b * c mod 2 ^ 32 + 2 ^ 31).
  pose proof (Z.div_mod Q (2 ^ 32) ltac:(lia)) as HQ.
  pose proof (Z.mod_pos_bound Q (2 ^ 32) ltac:(lia)) as HQm.
  symmetry. apply (Z.div_unique_pos _ _ _ (2 ^ 32 * (Q mod 2 ^ 32) + a * c mod 2 ^ 32)); [lia|].
  transitivity (a * c + 2 ^ 32 * (a * d) + 2 ^ 32 * (b * c) + 2 ^ 64 * (b * d) + 2 ^ 63); [lia|].
  rewrite H0, H1, H2 at 1. unfold Q in HQ at 1. lia.
Qed.

Lemma product_bound a b : 0 <= a < 2 ^ 32 → 0 <= b < 2 ^ 32 → 0 <= a * b <= (2 ^ 32 - 1) * (2 ^ 32 - 1).
Proof. intros. split; [nia|]. apply Z.mul_le_mono_nonneg; lia. Qed.

Lemma diyfp_mul_spec x y : 0 <= f x < 2 ^ 64 → 0 <= f y < 2 ^ 64 →
  diyfp_mul x y = Diyfp ((f x * f y + 2 ^ 63) / 2 ^ 64) (e x + e y + 64).
Proof.
  intros Hx Hy. unfold diyfp_mul. rewrite !land_half, !Z.shiftr_div_pow2 by lia.
  pose proof (Z.div_mod (f x) (2 ^ 32) ltac:(lia)) as Ex.
  pose proof (Z.div_mod (f y) (2 ^ 32) ltac:(lia)) as Ey.
  pose proof (Z.mod_pos_bound (f x) (2 ^ 32) ltac:(lia)) as Ha.
  pose proof (Z.mod_pos_bound (f y) (2 ^ 32) ltac:(lia)) as Hc.
  assert (0 <= f x / 2 ^ 32 < 2 ^ 32) as Hb by (split; [apply Z.div_pos|apply Z.div_lt_upper_bound]; lia).
  assert (0 <= f y / 2 ^ 32 < 2 ^ 32) as Hd by (split; [apply Z.div_pos|apply Z.div_lt_upper_bound]; lia).
  set (a := f x mod 2 ^ 32) in *. set (b := f x / 2 ^ 32) in *.
  set (c := f y mod 2 ^ 32) in *. set (d := f y / 2 ^ 32) in *.
  pose proof (product_bound a c Ha Hc) as Pac. pose proof (product_bound a d Ha Hd) as Pad.
  pose proof (product_bound b c Hb Hc) as Pbc. pose proof (product_bound b d Hb Hd) as Pbd.
  assert (∀ z, 0 <= z <= (2 ^ 32 - 1) * (2 ^ 32 - 1) → 0 <= z / 2 ^ 32 <= 2 ^ 32 - 2) as Hhi.
  { intros z Hz. split; [apply Z.div_pos; lia|]. apply Z.lt_succ_r, Z.div_lt_upper_bound; lia. }
  pose proof (Hhi _ Pac). pose proof (Hhi _ Pad). pose proof (Hhi _ Pbc).
  pose proof (Z.mod_pos_bound (a * d) (2 ^ 32) ltac:(lia)). pose proof (Z.mod_pos_bound (b * c) (2 ^ 32) ltac:(lia)).
  pose proof (mul_halves a b c d Ha Hb Hc Hd) as Hm.
  assert (f x * f y = (a + 2 ^ 32 * b) * (c + 2 ^ 32 * d)) as Hxy by (f_equal; lia).
  rewrite <-Hxy in Hm. change (2 ^ (64 - 32 - 1)) with (2 ^ 31).
  rewrite !(u64_small (_ * _)) by lia.
  rewrite (u64_small (a * c / 2 ^ 32 + _)), (u64_small (a * c / 2 ^ 32 + _ + _)),
    (u64_small (a * c / 2 ^ 32 + _ + _ + _)) by lia.
  rewrite (u64_small (b * d + _)), (u64_small (b * d + _ + _)), u64_small, <-Hm; [done|..]; try lia.
  rewrite <-Hm. split; [apply Z.div_pos; nia|]. apply Z.div_lt_upper_bound; nia.
Qed.

(** ** Normalisation *)

Lemma normalize_loop_spec fuel : ∀ x, 0 < f x < 2 ^ 64 → 63 - Z.log2 (f x) < Z.of_nat fuel →
  normalize_loop fuel x =
  Ret (Diyfp (f x * 2 ^ (63 - Z.log2 (f x))) (e x - (63 - Z.log2 (f x)))).
Proof.
  induction fuel as [|fuel IH]; intros x Hx Hf; pose proof (Z.log2_lt_pow2 (f x) 64 ltac:(lia)); [lia|].
  cbn [normalize_loop]. rewrite Z.shiftr_div_pow2 by lia. pose proof (Z.log2_nonneg (f x)).
  pose proof (Z.log2_spec (f x) ltac:(lia)) as Hl. destruct (Z.eqb_spec (f x / 2 ^ 63) 0) as [E|E].
  - apply Z.div_small_iff in E; [|lia].
    assert (f x < 2 ^ 63) as Hlt by lia.
    rewrite Z.shiftl_mul_pow2, u64_small by lia.
    assert (Z.log2 (f x * 2 ^ 1) = Z.log2 (f x) + 1) as Hlog by (rewrite Z.log2_mul_pow2; lia).
    pose proof (Z.log2_lt_pow2 (f x) 63 ltac:(lia)).
    rewrite IH; cbn [f e]; rewrite ?Hlog; [|lia|lia].
    do 2 f_equal; [|lia]. rewrite <-Z.mul_assoc, <-Z.pow_add_r by lia. do 2 f_equal. lia.
  - assert (2 ^ 63 <= f x). { destruct (Z.le_gt_cases (2 ^ 63) (f x)); [done|]. rewrite Z.div_small in E; lia. }
    assert (Z.log2 (f x) = 63) as -> by (apply Z.log2_unique; lia). destruct x as [fx ex]. cbn [f e].
    do 2 f_equal; lia.
Qed.

Lemma normalize_spec x : 0 < f x < 2 ^ 64 →
  normalize x = Ret (Diyfp (f x * 2 ^ (63 - Z.log2 (f x))) (e x - (63 - Z.log2 (f x)))).
Proof.
  intros Hx. unfold normalize. destruct (Z.eqb_spec (f x) 0); [lia|]. cbn [negb cpp_assert mbind outcome_bind].
  apply normalize_loop_spec; [done|]. pose proof (Z.log2_nonneg (f x)). lia.
Qed.

Lemma normalized_range m : 0 < m < 2 ^ 64 → 2 ^ 63 <= m * 2 ^ (63 - Z.log2 m) < 2 ^ 64.
Proof.
  intros Hm. pose proof (Z.log2_spec m ltac:(lia)) as Hl. pose proof (Z.log2_lt_pow2 m 64 ltac:(lia)).
  pose proof (Z.log2_nonneg m). set (s := 63 - Z.log2 m).
  replace (2 ^ 63) with (2 ^ Z.log2 m * 2 ^ s) by (rewrite <-Z.pow_add_r by lia; f_equal; lia).
  replace (2 ^ 64) with (2 ^ Z.succ (Z.log2 m) * 2 ^ s) by (rewrite <-Z.pow_add_r by lia; f_equal; lia).
  assert (0 < 2 ^ s) by (apply Z.pow_pos_nonneg; lia). nia.
Qed.

(** ** The boundaries *)

Lemma double_positive s m ex : double_ok (S754_finite s m ex) → positive_ok (Z.pos m) ex.
Proof.
  intros Hv. destruct (valid_cases 52 11 ltac:(lia) ltac:(lia) s m ex Hv) as (He & Hm & Hs).
  change (emin (prec 52) (emax 11)) with (-1074) in *. change (emax 11 - prec 52) with 971 in *.
  split_and!; lia || done.
Qed.

(** The parts of the bits of a double. *)
Lemma double_parts m ex : positive_ok (Z.pos m) ex →
  let bits := double_bits 0 (S754_finite false m ex) in
  let E := Z.shiftr bits (kPrecision - 1) in let F := Z.land bits (kHiddenBit - 1) in
  (if E =? 0 then Diyfp F kMinExp else Diyfp (F + kHiddenBit) (E - kBias)) = Diyfp (Z.pos m) ex ∧
  (F =? 0) && (1 <? E) = closer (Z.pos m) ex.
Proof.
  intros (Hm & He & Hs) bits E F.
  assert (E = bits / 2 ^ 52) as -> by (unfold E; apply Z.shiftr_div_pow2; done).
  assert (F = bits mod 2 ^ 52) as -> by (unfold F; apply (Z.land_ones bits 52); lia).
  unfold bits, double_bits, float_bits, sign_bit. change (emin (prec 52) (emax 11)) with (-1074).
  unfold kHiddenBit, kBias, kMinExp, closer, kPrecision.
  destruct (Z.ltb_spec (Z.pos m) (2 ^ 52)) as [Hlt|Hge]; rewrite Z.add_0_l.
  - rewrite Z.div_small, Z.mod_small by lia. rewrite Z.eqb_refl, Hs by done. split; [done|].
    assert ((Z.pos m =? 2 ^ 52) = false) as -> by (apply Z.eqb_neq; lia). by rewrite andb_false_r.
  - rewrite (Z.add_comm (_ * 2 ^ 52)), Z.div_add, Z.mod_add by lia.
    rewrite Z.div_small, Z.mod_small by lia. rewrite Z.add_0_l.
    destruct (Z.eqb_spec (ex - -1074 + 1) 0); [lia|]. split; [f_equal; lia|].
    destruct (Z.eqb_spec (Z.pos m) (2 ^ 52)), (Z.eqb_spec (Z.pos m - 2 ^ 52) 0); lia.
Qed.

(** The number and its boundaries over one exponent. *)
Definition scale (m : Z) : Z := 62 - Z.log2 m.
Definition lower (m ex : Z) : Z :=
  if closer m ex then (4 * m - 1) * 2 ^ (scale m - 1) else (2 * m - 1) * 2 ^ scale m.
Definition upper (m : Z) : Z := (2 * m + 1) * 2 ^ scale m.
Definition middle (m : Z) : Z := 2 * m * 2 ^ scale m.

Lemma scale_range m : 0 < m < 2 ^ 53 → 10 <= scale m <= 62.
Proof.
  intros Hm. unfold scale. pose proof (Z.log2_nonneg m). pose proof (Z.log2_lt_pow2 m 53 ltac:(lia)). lia.
Qed.

Lemma upper_range m : 0 < m < 2 ^ 53 → 2 ^ 63 < upper m < 2 ^ 64.
Proof.
  intros Hm. pose proof (scale_range m Hm). unfold upper.
  pose proof (normalized_range (2 * m) ltac:(lia)) as H0. rewrite Z.log2_double in H0 by lia.
  replace (63 - Z.succ (Z.log2 m)) with (scale m) in H0 by (unfold scale; lia).
  pose proof (normalized_range (2 * m + 1) ltac:(lia)) as H1. rewrite Z.log2_succ_double in H1 by lia.
  replace (63 - Z.succ (Z.log2 m)) with (scale m) in H1 by (unfold scale; lia).
  assert (0 < 2 ^ scale m) by (apply Z.pow_pos_nonneg; lia). lia.
Qed.

Lemma shift_back m d : 0 <= d → 0 <= m * 2 ^ d < 2 ^ 64 →
  u64 (Z.shiftl m d) = m * 2 ^ d ∧ Z.shiftr (u64 (Z.shiftl m d)) d = m.
Proof.
  intros Hd Hm. rewrite Z.shiftl_mul_pow2, u64_small by lia. split; [done|].
  rewrite Z.shiftr_div_pow2 by lia. apply Z.div_mul. pose proof (Z.pow_pos_nonneg 2 d). lia.
Qed.

Lemma normalize_to_spec x d t : t = e x - d → 0 <= d < 64 → 0 <= f x * 2 ^ d < 2 ^ 64 →
  normalize_to x t = Ret (Diyfp (f x * 2 ^ d) t).
Proof.
  intros -> Hd Hx. unfold normalize_to. replace (e x - (e x - d)) with d by lia.
  rewrite (proj2 (Z.leb_le 0 d)) by lia. cbn [cpp_assert mbind outcome_bind].
  rewrite (proj2 (Z.leb_gt 64 d)) by lia.
  destruct (shift_back (f x) d ltac:(lia) Hx) as [H1 ->]. rewrite Z.eqb_refl, H1. done.
Qed.

Lemma compute_boundaries_spec m ex : positive_ok (Z.pos m) ex →
  let ep := ex - 1 - scale (Z.pos m) in
  compute_boundaries (S754_finite false m ex) =
  Ret (Boundaries (Diyfp (middle (Z.pos m)) ep) (Diyfp (lower (Z.pos m) ex) ep)
         (Diyfp (upper (Z.pos m)) ep)).
Proof.
  intros Hok ep. destruct (double_parts m ex Hok) as [Hv Hc].
  destruct Hok as (Hm & He & Hs). set (mz := Z.pos m) in *.
  pose proof (scale_range mz Hm) as Hsc. pose proof (upper_range mz Hm) as Hup.
  assert (0 < 2 ^ scale mz) as Hpow by (apply Z.pow_pos_nonneg; lia).
  assert (2 ^ scale mz = 2 * 2 ^ (scale mz - 1)) as Hhalf
    by (rewrite <-Z.pow_succ_r by lia; f_equal; lia).
  assert (normalize (Diyfp (u64 (2 * mz + 1)) (ex - 1)) = Ret (Diyfp (upper mz) ep)) as H1.
  { rewrite u64_small by lia. rewrite normalize_spec by (cbn [f]; lia). cbn [f e].
    rewrite Z.log2_succ_double by lia.
    by replace (63 - Z.succ (Z.log2 mz)) with (scale mz) by (unfold scale; lia). }
  assert (normalize_to (if closer mz ex then Diyfp (u64 (4 * mz - 1)) (ex - 2)
      else Diyfp (u64 (2 * mz - 1)) (ex - 1)) ep = Ret (Diyfp (lower mz ex) ep)) as H2.
  { unfold lower, upper in *. destruct (closer mz ex); rewrite u64_small by lia.
    - apply (normalize_to_spec (Diyfp (4 * mz - 1) (ex - 2)) (scale mz - 1)); cbn [f e]; unfold ep; [lia|lia|].
      rewrite Hhalf in Hup. set (P := 2 ^ (scale mz - 1)) in *. split; [nia|].
      assert ((2 * mz + 1) * (2 * P) = (4 * mz - 1) * P + 3 * P) by ring. lia.
    - apply (normalize_to_spec (Diyfp (2 * mz - 1) (ex - 1)) (scale mz)); cbn [f e]; unfold ep; [lia|lia|].
      set (P := 2 ^ scale mz) in *. split; [nia|].
      assert ((2 * mz + 1) * P = (2 * mz - 1) * P + 2 * P) by ring. lia. }
  assert (normalize (Diyfp mz ex) = Ret (Diyfp (middle mz) ep)) as H3.
  { rewrite normalize_spec by (cbn [f]; lia). cbn [f e].
    replace (63 - Z.log2 mz) with (Z.succ (scale mz)) by (unfold scale; lia).
    rewrite Z.pow_succ_r by lia. unfold middle, ep.
    replace (mz * (2 * 2 ^ scale mz)) with (2 * mz * 2 ^ scale mz) by ring.
    by replace (ex - Z.succ (scale mz)) with (ex - 1 - scale mz) by lia. }
  unfold compute_boundaries. rewrite (bind_eq _ _ tt) by reflexivity. cbv zeta in Hv, Hc |- *.
  rewrite Hv, Hc. cbn [f e]. rewrite (bind_eq _ _ _ H1). cbn [e].
  rewrite (bind_eq _ _ _ H2), (bind_eq _ _ _ H3). reflexivity.
Qed.

(** ** The table *)

(** 10^k / 2^e as a fraction. *)
Definition power_num (ce ck : Z) : Z := 10 ^ Z.max ck 0 * 2 ^ Z.max (- ce) 0.
Definition power_den (ce ck : Z) : Z := 10 ^ Z.max (- ck) 0 * 2 ^ Z.max ce 0.

Definition power_ok (c : Z * Z * Z) : bool :=
  let '(cf, ce, ck) := c in
  (2 ^ 63 <=? cf) && (cf <? 2 ^ 64) && (-300 <=? ck) && (ck <=? 324) &&
  (2 * Z.abs (cf * power_den ce ck - power_num ce ck) <=? power_den ce ck).

Lemma table_ok : forallb power_ok kCachedPowers = true.
Proof. by vm_compute. Qed.

Lemma exponents_ok :
  forallb (λ ep, match get_cached_power_for_binary_exponent ep with Ret _ => true | _ => false end)
    (seqZ (-1137) 2098) = true.
Proof. by vm_compute. Qed.

Lemma cached_spec ep : -1137 <= ep <= 960 → ∃ cf ce ck,
  get_cached_power_for_binary_exponent ep = Ret (Diyfp cf ce, ck) ∧
  power_ok (cf, ce, ck) = true ∧ -60 <= ce + ep + 64 <= -32.
Proof.
  intros Hep. pose proof exponents_ok as H. rewrite forallb_forall in H.
  specialize (H ep ltac:(apply list_elem_of_In, elem_of_seqZ; lia)). cbv beta in H.
  destruct (get_cached_power_for_binary_exponent ep) as [[c k]| | | |] eqn:E; try done. clear H.
  unfold get_cached_power_for_binary_exponent in E. outcome_inv.
  match goal with H : kCachedPowers !! _ = Some ?x |- _ => destruct x as [[cf ce] ck]; rename H into Hin end.
  outcome_inv. exists cf, ce, k. unfold kAlpha, kGamma in *. bool_hyps. split_and!; [done| |lia|lia].
  pose proof table_ok as Ht. rewrite forallb_forall in Ht. apply Ht, list_elem_of_In.
  by eapply list_elem_of_lookup_2.
Qed.

(** ** Digits in the buffer *)

(** A numeral that does not start with 0. *)
Definition numeral (buf : bytes) : Prop :=
  Forall (λ c, is_digit_char c = true) buf ∧ buf ≠ [] ∧ head buf ≠ Some "0"%char.

Lemma dec_value_snoc buf d : 0 <= d < 10 → dec_value (buf ++ [digit_char d]) = dec_value buf * 10 + d.
Proof. intros Hd. unfold dec_value. rewrite dec_value_from_app. cbn. rewrite uchar_digit; lia. Qed.

Lemma dec_value_from_shift v s : dec_value_from v s = v * 10 ^ len s + dec_value s.
Proof.
  unfold dec_value. induction s as [|c s IH] using rev_ind; [cbn; lia|].
  rewrite !dec_value_from_app, IH. cbn [dec_value_from foldl]. rewrite len_app.
  change (len [c]) with 1. rewrite Z.pow_add_r by lia. lia.
Qed.

Lemma digit_char_inj d d' : 0 <= d < 10 → 0 <= d' < 10 → digit_char d = digit_char d' → d = d'.
Proof. intros Hd Hd' H. pose proof (uchar_digit d Hd). rewrite H, uchar_digit in *; lia. Qed.

Lemma numeral_ge buf : numeral buf → 10 ^ (len buf - 1) <= dec_value buf.
Proof.
  intros (Hd & Hne & Hh). destruct buf as [|c s]; [done|]. apply Forall_cons in Hd as [Hc Hs].
  unfold dec_value. cbn [dec_value_from foldl]. fold (dec_value_from (0 * 10 + (uchar c - 48)) s).
  rewrite dec_value_from_shift, len_cons. replace (1 + len s - 1) with (len s) by lia.
  pose proof (dec_value_nonneg s Hs). assert (1 <= uchar c - 48).
  { unfold is_digit_char in Hc. bool_hyps. assert (uchar c ≠ 48); [|lia]. intros Heq.
    apply Hh. cbn. f_equal. apply uchar_inj. by rewrite Heq. }
  pose proof (Z.pow_pos_nonneg 10 (len s)). nia.
Qed.

Lemma put_digit_eq room d buf : len buf < room → put_digit room d buf = Ret (buf ++ [digit_char d]).
Proof. intros H. unfold put_digit. by rewrite (proj2 (Z.ltb_lt _ _)) by done. Qed.

(** The remainder after some digits: small enough, and not so before the last of them. *)
Definition stopped (F delta unit rest : Z) (buf : bytes) : Prop :=
  ∃ pre d, buf = pre ++ [digit_char d] ∧ 0 <= d <= 9 ∧ numeral buf ∧ len buf <= 17 ∧ 0 < unit ∧
    F = dec_value buf * unit + rest ∧ 0 <= rest <= delta ∧ delta < d * unit + rest.

Lemma decrement_last_eq pre d : 1 <= d <= 9 →
  decrement_last (pre ++ [digit_char d]) = Ret (pre ++ [digit_char (d - 1)]).
Proof.
  intros Hd. unfold decrement_last. rewrite last_snoc. cbn [or_undef mbind outcome_bind].
  rewrite bool_decide_false.
  2: { intros H. apply (digit_char_inj d 0) in H; lia. }
  cbn [negb cpp_assert outcome_bind]. rewrite removelast_last.
  assert (schar (digit_char d) - 1 = 48 + (d - 1)) as ->; [|done].
  unfold schar. rewrite uchar_digit by lia. destruct (Z.ltb_spec (48 + d) 128); lia.
Qed.

Lemma round_loop_spec fuel : ∀ pre d dist delta rest unit,
  0 <= d <= 9 → d + 1 < Z.of_nat fuel → 0 < unit → 0 <= dist <= delta → delta < 2 ^ 64 →
  0 <= rest <= delta → delta < d * unit + rest →
  ∃ j, 0 <= j <= d ∧ rest + j * unit <= delta ∧
    round_loop fuel (pre ++ [digit_char d]) dist delta rest unit = Ret (pre ++ [digit_char (d - j)]).
Proof.
  induction fuel as [|fuel IH]; intros pre d dist delta rest unit Hd Hf Hu Hdi Hde Hr Hp; [lia|].
  cbn [round_loop]. destruct (_ && _) eqn:E.
  - bool_hyps. destruct (Z.eq_dec d 0) as [->|Hd0]; [lia|].
    rewrite decrement_last_eq by lia. cbn [mbind outcome_bind]. rewrite u64_small by lia.
    destruct (IH pre (d - 1) dist delta (rest + unit) unit) as (j & Hj & Hrest & ->); [lia..|].
    exists (1 + j). split_and!; [lia|lia|lia|]. do 4 f_equal. lia.
  - exists 0. split_and!; [lia|lia|lia|]. by rewrite Z.sub_0_r.
Qed.

(** The digits that are left are still a numeral, and within the boundaries. *)
Lemma grisu2_round_spec F delta unit rest buf dist :
  stopped F delta unit rest buf → 0 <= dist <= delta → delta < 2 ^ 64 → delta < F →
  ∃ buf', grisu2_round buf dist delta rest unit = Ret buf' ∧ numeral buf' ∧ len buf' = len buf ∧
    F - delta <= dec_value buf' * unit <= F.
Proof.
  intros (pre & d & -> & Hd & (Hdig & _ & Hh) & Hl & Hu & HF & Hr & Hp) Hdi Hde HdF.
  unfold grisu2_round. rewrite (proj2 (Z.leb_le 1 _)) by len_lia.
  rewrite (proj2 (Z.leb_le dist delta)), (proj2 (Z.leb_le rest delta)), (proj2 (Z.ltb_lt 0 unit)) by lia.
  cbn [cpp_assert mbind outcome_bind].
  destruct (round_loop_spec 11 pre d dist delta rest unit) as (j & Hj & Hrest & ->); [lia..|].
  rewrite dec_value_snoc in HF by lia.
  assert (dec_value (pre ++ [digit_char (d - j)]) = dec_value pre * 10 + d - j) as Hv
    by (rewrite dec_value_snoc by lia; lia).
  eexists. split; [done|]. rewrite Hv. split_and!; [|len_lia|lia|lia].
  apply Forall_app in Hdig as [Hpre _]. split_and!.
  - apply Forall_app_2; [done|]. constructor; [|done]. apply is_digit_digit_char. lia.
  - by destruct pre.
  - destruct pre as [|c pre]; [|exact Hh]. cbn. intros [= H].
    apply (digit_char_inj (d - j) 0) in H; [|lia|lia]. cbn in HF. nia.
Qed.

(** ** The loops *)

Lemma numeral_snoc buf d : 0 <= d <= 9 → numeral buf ∨ buf = [] ∧ 1 <= d → numeral (buf ++ [digit_char d]).
Proof.
  intros Hd H. destruct H as [(Hdig & Hne & Hh)|[-> Hd1]]; split_and!.
  - apply Forall_app_2; [done|]. constructor; [|done]. apply is_digit_digit_char. lia.
  - by destruct buf.
  - by destruct buf.
  - constructor; [|done]. apply is_digit_digit_char. lia.
  - done.
  - cbn. intros [= H]. apply (digit_char_inj d 0) in H; lia.
Qed.

(** No more than sixteen digits when the next is generated. *)
Lemma numeral_short buf F delta unit r : numeral buf → F = dec_value buf * unit + r → 0 <= r →
  delta < unit → 0 <= delta → F <= 10 ^ 16 * delta → len buf <= 16.
Proof.
  intros Hn HF Hr Hd H0 Hb. pose proof (numeral_ge buf Hn) as Hge.
  destruct Hn as (_ & Hne & _). assert (1 <= len buf) by (destruct buf; [done|len_lia]).
  destruct (Z.le_gt_cases (len buf) 16); [done|]. exfalso.
  assert (10 ^ 16 <= 10 ^ (len buf - 1)) by (apply Z.pow_le_mono_r; lia).
  assert (10 ^ 16 * (delta + 1) <= dec_value buf * unit) by (apply Z.mul_le_mono_nonneg; lia). lia.
Qed.

Lemma integral_digits_spec room p2 delta sh F n : ∀ p1 pow10 buf,
  17 <= room → 0 <= sh → 0 <= p2 < 2 ^ sh → 0 <= delta → F <= 10 ^ 16 * delta → F < 2 ^ 64 →
  F = (dec_value buf * 10 ^ Z.of_nat n + p1) * 2 ^ sh + p2 → 0 <= p1 < 10 ^ Z.of_nat n →
  delta < p1 * 2 ^ sh + p2 → numeral buf ∨ buf = [] ∧ n ≠ 0%nat ∧ pow10 <= p1 →
  (n ≠ 0%nat → pow10 = 10 ^ (Z.of_nat n - 1)) →
  (∃ buf' k rest, integral_digits n room p1 p2 pow10 delta sh buf =
     Ret (buf', Some (k, rest, 10 ^ k * 2 ^ sh)) ∧ 0 <= k < Z.of_nat n ∧
     stopped F delta (10 ^ k * 2 ^ sh) rest buf') ∨
  (∃ buf', integral_digits n room p1 p2 pow10 delta sh buf = Ret (buf', None) ∧
     numeral buf' ∧ F = dec_value buf' * 2 ^ sh + p2 ∧ delta < p2).
Proof.
  intros p1 pow10 buf Hroom Hsh Hp2 Hde Hb HF64. revert p1 pow10 buf.
  assert (0 < 2 ^ sh) as Hpow by (apply Z.pow_pos_nonneg; lia).
  induction n as [|n IH]; intros p1 pow10 buf HF Hp1 Hd Hbuf Hp.
  - right. cbn [integral_digits]. change (10 ^ Z.of_nat 0) with 1 in *.
    assert (p1 = 0) as -> by lia. destruct Hbuf as [Hn|(_ & [] & _)]; [|done].
    exists buf. split_and!; [done|done|lia|lia].
  - cbn [integral_digits]. rewrite Hp in * by done.
    replace (Z.of_nat (S n) - 1) with (Z.of_nat n) in * by lia.
    set (u := 10 ^ Z.of_nat n) in *. assert (0 < u) as Hu by (apply Z.pow_pos_nonneg; lia).
    assert (10 ^ Z.of_nat (S n) = 10 * u) as H10 by (rewrite Nat2Z.inj_succ, Z.pow_succ_r; lia).
    rewrite H10 in *. pose proof (Z.div_mod p1 u ltac:(lia)) as Hdm.
    pose proof (Z.mod_pos_bound p1 u Hu) as Hr. set (d := p1 / u) in *. set (r := p1 mod u) in *.
    assert (0 <= d <= 9) as Hd9.
    { unfold d. split; [apply Z.div_pos; lia|]. apply Z.lt_succ_r, Z.div_lt_upper_bound; lia. }
    assert (len buf <= 16) as Hlen.
    { destruct Hbuf as [Hn|(-> & _)]; [|cbn; lia].
      apply (numeral_short buf F delta (10 * u * 2 ^ sh) (p1 * 2 ^ sh + p2)); [done|lia|nia|nia|lia|lia]. }
    rewrite (proj2 (Z.leb_le d 9)), put_digit_eq by lia. cbn [cpp_assert mbind outcome_bind].
    assert (0 <= dec_value buf) as HD
      by (destruct Hbuf as [(Hdig & _)|(-> & _)]; [by apply dec_value_nonneg|done]).
    assert (numeral (buf ++ [digit_char d])) as Hn'.
    { apply numeral_snoc; [lia|]. destruct Hbuf as [?|(-> & _ & Hge)]; [by left|right].
      split; [done|]. unfold d. apply Z.div_le_lower_bound; lia. }
    assert (F = (dec_value (buf ++ [digit_char d]) * u + r) * 2 ^ sh + p2) as HF'.
    { rewrite dec_value_snoc by lia. rewrite HF, Hdm. ring. }
    assert (0 < dec_value (buf ++ [digit_char d])) as HD'.
    { pose proof (numeral_ge _ Hn'). pose proof (Z.pow_pos_nonneg 10 (len (buf ++ [digit_char d]) - 1)).
      rewrite len_app in *. change (len [digit_char d]) with 1 in *. lia. }
    set (D' := dec_value (buf ++ [digit_char d])) in *. set (P := 2 ^ sh) in *.
    assert (F = D' * (u * P) + r * P + p2) as HF2 by (rewrite HF'; ring).
    assert (0 < u * P) by (apply Z.mul_pos_pos; lia). assert (u * P <= D' * (u * P)) by nia.
    assert (0 <= r * P) by (apply Z.mul_nonneg_nonneg; lia).
    assert (p1 * P + p2 = d * (u * P) + (r * P + p2)) as Hprev by (rewrite Hdm; ring).
    rewrite !Z.shiftl_mul_pow2 by lia. fold P.
    rewrite (u64_small (r * P)), (u64_small (r * P + p2)), (u64_small (u * P)) by lia.
    destruct (Z.leb_spec (r * P + p2) delta) as [Hle|Hgt].
    + left. exists (buf ++ [digit_char d]), (Z.of_nat n), (r * P + p2).
      split_and!; [done|lia|lia|].
      exists buf, d. fold D'. split_and!; try done; try lia. len_lia.
    + destruct (IH r (u / 10) (buf ++ [digit_char d])) as [(b & k & rest & -> & Hk & Hs)|Hnone]; try done.
      * by left.
      * intros Hn0. unfold u. replace (Z.of_nat n) with (Z.succ (Z.of_nat n - 1)) at 1 by lia.
        rewrite Z.pow_succ_r, Z.mul_comm by lia. by apply Z.div_mul.
      * left. exists b, k, rest. split_and!; [done|lia|lia|done].
      * by right.
Qed.

Lemma land_mask x sh : 0 <= sh < 64 → Z.land x (u64 (Z.shiftl 1 sh) - 1) = x mod 2 ^ sh.
Proof.
  intros Hsh. rewrite Z.shiftl_mul_pow2, Z.mul_1_l by lia.
  assert (2 ^ sh < 2 ^ 64) by (apply Z.pow_lt_mono_r; lia). assert (0 < 2 ^ sh) by (apply Z.pow_pos_nonneg; lia).
  rewrite u64_small by lia. replace (2 ^ sh - 1) with (Z.ones sh) by (rewrite Z.ones_equiv; lia).
  apply Z.land_ones. lia.
Qed.

Lemma fraction_digits_spec room sh fuel : ∀ m p2 delta dist buf F,
  17 <= room → 32 <= sh <= 60 → 0 <= p2 < 2 ^ sh → 0 <= dist <= delta → delta < p2 → numeral buf →
  F = dec_value buf * 2 ^ sh + p2 → F <= 10 ^ 16 * delta → 17 < len buf + Z.of_nat fuel →
  ∃ buf' j rest, fraction_digits fuel room p2 delta dist sh m buf =
    Ret (buf', m + j, rest, delta * 10 ^ j, dist * 10 ^ j) ∧ 0 < j <= 17 ∧ len buf' = len buf + j ∧
    stopped (F * 10 ^ j) (delta * 10 ^ j) (2 ^ sh) rest buf' ∧ delta * 10 ^ j < 2 ^ 64.
Proof.
  induction fuel as [|fuel IH]; intros m p2 delta dist buf F Hroom Hsh Hp2 Hdi Hde Hn HF Hb Hf;
    assert (len buf <= 16) as Hlen
      by (apply (numeral_short buf F delta (2 ^ sh) p2); [done|done|lia|lia|lia|done]); [lia|].
  assert (2 ^ sh <= 2 ^ 60) by (apply Z.pow_le_mono_r; lia).
  cbn [fraction_digits]. rewrite (proj2 (Z.leb_le p2 _)).
  2: { apply Z.div_le_lower_bound; lia. }
  cbn [cpp_assert mbind outcome_bind]. rewrite (u64_small (p2 * 10)), land_mask, Z.shiftr_div_pow2 by lia.
  pose proof (Z.div_mod (p2 * 10) (2 ^ sh) ltac:(lia)) as Hdm.
  pose proof (Z.mod_pos_bound (p2 * 10) (2 ^ sh) ltac:(lia)) as Hr.
  set (d := p2 * 10 / 2 ^ sh) in *. set (r := p2 * 10 mod 2 ^ sh) in *.
  assert (0 <= d <= 9) as Hd.
  { unfold d. split; [apply Z.div_pos; lia|]. apply Z.lt_succ_r, Z.div_lt_upper_bound; lia. }
  rewrite (proj2 (Z.leb_le d 9)), put_digit_eq by lia. cbn [cpp_assert mbind outcome_bind].
  rewrite (u64_small (delta * 10)), (u64_small (dist * 10)) by lia.
  assert (numeral (buf ++ [digit_char d])) as Hn' by (apply numeral_snoc; [lia|by left]).
  assert (F * 10 = dec_value (buf ++ [digit_char d]) * 2 ^ sh + r) as HF'
    by (rewrite dec_value_snoc, HF by lia; lia).
  destruct (Z.leb_spec r (delta * 10)) as [Hle|Hgt].
  - exists (buf ++ [digit_char d]), 1, r. change (10 ^ 1) with 10.
    split_and!; [done|lia|lia|len_lia| |lia]. exists buf, d. split_and!; try done; try lia. len_lia.
  - destruct (IH (m + 1) r (delta * 10) (dist * 10) (buf ++ [digit_char d]) (F * 10))
      as (b & j & rest & Heq & Hj & Hlb & Hs & H64); try done; try lia; [len_lia|].
    rewrite len_app in Hlb. change (len [digit_char d]) with 1 in Hlb.
    assert (len b <= 17) by (destruct Hs as (? & ? & _ & _ & _ & ? & _); done).
    assert (1 <= len buf) by (destruct Hn as (_ & ? & _); destruct buf; [done|len_lia]).
    exists b, (j + 1), rest. rewrite Heq, Z.pow_add_r by lia. change (10 ^ 1) with 10.
    replace (delta * (10 ^ j * 10)) with (delta * 10 * 10 ^ j) by lia.
    replace (dist * (10 ^ j * 10)) with (dist * 10 * 10 ^ j) by lia.
    replace (F * (10 ^ j * 10)) with (F * 10 * 10 ^ j) by lia.
    replace (m + (j + 1)) with (m + 1 + j) by lia. split_and!; try done; lia.
Qed.

Lemma find_largest_pow10_spec n : 0 < n < 2 ^ 32 → ∃ k, find_largest_pow10 n = (S k, 10 ^ Z.of_nat k) ∧
  10 ^ Z.of_nat k <= n < 10 ^ Z.of_nat (S k) ∧ (k <= 9)%nat.
Proof.
  intros Hn. unfold find_largest_pow10.
  repeat match goal with
  | |- context [if ?b then _ else _] => destruct b eqn:?; bool_hyps
  end; eexists; (split; [by f_equal|]); (split; [|lia]); cbn -[Z.mul]; lia.
Qed.

(** ** The digits generated *)

(** [D * 10^K * 2^sh] within the boundaries: over the unit 10^-17. *)
Definition digits_within (lo hi D K sh : Z) : Prop :=
  lo * 10 ^ 17 <= D * 10 ^ (17 + K) * 2 ^ sh <= hi * 10 ^ 17.

Lemma within_integral lo hi D k sh : 0 <= k → lo <= D * (10 ^ k * 2 ^ sh) <= hi →
  digits_within lo hi D k sh.
Proof.
  intros Hk H. unfold digits_within. rewrite Z.pow_add_r by lia.
  replace (D * (10 ^ 17 * 10 ^ k) * 2 ^ sh) with (D * (10 ^ k * 2 ^ sh) * 10 ^ 17) by ring. lia.
Qed.

Lemma within_fraction lo hi D j sh : 0 <= j <= 17 → lo * 10 ^ j <= D * 2 ^ sh <= hi * 10 ^ j →
  digits_within lo hi D (- j) sh.
Proof.
  intros Hj H. unfold digits_within.
  replace (10 ^ 17) with (10 ^ j * 10 ^ (17 + - j)) by (rewrite <-Z.pow_add_r by lia; f_equal; lia).
  assert (0 < 10 ^ (17 + - j)) by (apply Z.pow_pos_nonneg; lia). set (c := 10 ^ (17 + - j)) in *. nia.
Qed.

Lemma grisu2_digit_gen_spec room de lo w hi sh : 17 <= room → 32 <= sh <= 60 →
  0 <= lo <= w → w <= hi → 2 ^ sh <= hi < 2 ^ 64 → 0 < lo → hi <= 10 ^ 16 * (hi - lo) →
  ∃ buf K, grisu2_digit_gen room de (Diyfp lo (- sh)) (Diyfp w (- sh)) (Diyfp hi (- sh)) =
    Ret (buf, de + K) ∧ numeral buf ∧ len buf <= 17 ∧ -17 <= K <= 9 ∧
    digits_within lo hi (dec_value buf) K sh.
Proof.
  intros Hroom Hsh Hlo Hw Hhi Hl0 Hb. unfold grisu2_digit_gen, diyfp_sub, kAlpha, kGamma. cbn [f e].
  rewrite (proj2 (Z.leb_le (-60) (- sh))), (proj2 (Z.leb_le (- sh) (-32))), Z.eqb_refl by lia.
  rewrite (proj2 (Z.leb_le lo hi)), (proj2 (Z.leb_le w hi)) by lia.
  cbn [cpp_assert mbind outcome_bind fmap outcome_fmap f]. rewrite Z.opp_involutive.
  rewrite land_mask, Z.shiftr_div_pow2 by lia.
  assert (0 < 2 ^ sh) as Hp by (apply Z.pow_pos_nonneg; lia).
  assert (0 < hi / 2 ^ sh < 2 ^ 32) as Hp1.
  { split; [apply Z.div_str_pos; lia|]. apply Z.div_lt_upper_bound; [done|].
    assert (2 ^ 32 <= 2 ^ sh) by (apply Z.pow_le_mono_r; lia). nia. }
  rewrite u32_small by lia. pose proof (Z.div_mod hi (2 ^ sh) ltac:(lia)) as Hdm.
  pose proof (Z.mod_pos_bound hi (2 ^ sh) Hp) as Hp2.
  set (p1 := hi / 2 ^ sh) in *. set (p2 := hi mod 2 ^ sh) in *.
  rewrite (proj2 (Z.ltb_lt 0 p1)) by lia. cbn [cpp_assert mbind outcome_bind].
  destruct (find_largest_pow10_spec p1 ltac:(lia)) as (k & -> & Hk & Hk9).
  destruct (integral_digits_spec room p2 (hi - lo) sh hi (S k) p1 (10 ^ Z.of_nat k) [])
    as [(buf & n & rest & -> & Hn & Hs)|(buf & -> & Hn & HF & Hd)]; try lia.
  { cbn. lia. }
  { right. split_and!; [done|done|lia]. }
  { intros _. f_equal. lia. }
  - cbn [mbind outcome_bind].
    destruct (grisu2_round_spec _ _ _ _ _ (hi - w) Hs) as (buf' & -> & Hn' & Hl' & Hv); [lia..|].
    cbn [mbind outcome_bind]. destruct Hs as (? & ? & _ & _ & _ & ? & _).
    exists buf', n. split_and!; [done|done|lia|lia|lia|]. apply within_integral; lia.
  - cbn [mbind outcome_bind]. rewrite (proj2 (Z.ltb_lt (hi - lo) p2)) by done.
    cbn [cpp_assert mbind outcome_bind].
    destruct (fraction_digits_spec room sh 20 0 p2 (hi - lo) (hi - w) buf hi)
      as (buf' & j & rest & -> & Hj & Hlb & Hs & H64); try done; try lia.
    cbn [mbind outcome_bind]. rewrite Z.add_0_l, Z.shiftl_mul_pow2, Z.mul_1_l by lia.
    rewrite u64_small by (assert (2 ^ sh <= 2 ^ 60) by (apply Z.pow_le_mono_r; lia); lia).
    assert (0 < 10 ^ j) by (apply Z.pow_pos_nonneg; lia).
    destruct (grisu2_round_spec _ _ _ _ _ ((hi - w) * 10 ^ j) Hs) as (b & -> & Hn' & Hl' & Hv); [nia|lia|nia|].
    cbn [mbind outcome_bind]. destruct Hs as (? & ? & _ & _ & _ & ? & _).
    exists b, (- j). split_and!; [by rewrite Z.add_opp_r|done|lia|lia|lia|].
    apply within_fraction; [lia|]. nia.
Qed.

(** ** The boundaries scaled *)

(** A product with a cached power is within one of the exact one. *)
Lemma cached_mul x cf ce ck : 0 <= x < 2 ^ 64 → power_ok (cf, ce, ck) = true →
  let w := (x * cf + 2 ^ 63) / 2 ^ 64 in
  (w - 1) * (2 ^ 64 * power_den ce ck) < x * power_num ce ck < (w + 1) * (2 ^ 64 * power_den ce ck) ∧
  x * cf - 2 ^ 63 <= w * 2 ^ 64 <= x * cf + 2 ^ 63.
Proof.
  intros Hx Hok w. unfold power_ok in Hok. bool_hyps.
  assert (0 < power_den ce ck) as Hden by (apply Z.mul_pos_pos; apply Z.pow_pos_nonneg; lia).
  set (num := power_num ce ck) in *. set (den := power_den ce ck) in *.
  pose proof (Z.div_mod (x * cf + 2 ^ 63) (2 ^ 64) ltac:(lia)) as Hdm.
  pose proof (Z.mod_pos_bound (x * cf + 2 ^ 63) (2 ^ 64) ltac:(lia)) as Hr. fold w in Hdm.
  set (r := (x * cf + 2 ^ 63) mod 2 ^ 64) in *.
  assert (x * (2 * Z.abs (cf * den - num)) <= x * den) as Habs by (apply Z.mul_le_mono_nonneg_l; lia).
  assert (x * den < 2 ^ 64 * den) as Hxd by (apply Z.mul_lt_mono_pos_r; lia).
  assert ((w * 2 ^ 64) * den = (x * cf + 2 ^ 63 - r) * den) as Hw by (f_equal; lia).
  assert (0 <= r * den < 2 ^ 64 * den) as Hrd
    by (split; [apply Z.mul_nonneg_nonneg; lia|apply Z.mul_lt_mono_pos_r; lia]).
  assert (- (x * den) <= 2 * (x * (cf * den) - x * num) <= x * den) as Hx2.
  { destruct (Z.abs_spec (cf * den - num)) as [[_ E]|[_ E]]; rewrite E in Habs; nia. }
  split; [|lia]. split; nia.
Qed.

Lemma power_ok_range cf ce ck : power_ok (cf, ce, ck) = true → 2 ^ 63 <= cf < 2 ^ 64 ∧ -300 <= ck <= 324.
Proof. unfold power_ok. intros H. bool_hyps. lia. Qed.

Lemma power_den_pos ce ck : 0 < power_den ce ck.
Proof. apply Z.mul_pos_pos; apply Z.pow_pos_nonneg; lia. Qed.

(** The boundaries and the number are some distance apart. *)
Lemma boundaries_apart m ex : positive_ok m ex →
  0 < lower m ex ∧ lower m ex + 2 ^ 9 <= middle m ∧ middle m + 2 ^ 10 <= upper m ∧
  upper m <= 2 ^ 53 * (upper m - lower m ex).
Proof.
  intros (Hm & He & Hs). pose proof (scale_range m Hm). unfold lower, middle, upper.
  assert (2 ^ 9 <= 2 ^ (scale m - 1)) as HP by (apply Z.pow_le_mono_r; lia).
  assert (2 ^ scale m = 2 * 2 ^ (scale m - 1)) as -> by (rewrite <-Z.pow_succ_r by lia; f_equal; lia).
  set (P := 2 ^ (scale m - 1)) in *. destruct (closer m ex) eqn:Hc.
  - unfold closer in Hc. bool_hyps. subst m. lia.
  - split_and!; nia.
Qed.

(** Factors of ten and of two on both sides. *)
Lemma rescale A C a b c d a' b' c' d' : 0 <= a → 0 <= b → 0 <= c → 0 <= d →
  0 <= a' → 0 <= b' → 0 <= c' → 0 <= d' → a - c = a' - c' → b - d = b' - d' →
  A * 10 ^ a * 2 ^ b < C * 10 ^ c * 2 ^ d → A * 10 ^ a' * 2 ^ b' < C * 10 ^ c' * 2 ^ d'.
Proof.
  intros Ha Hb Hc Hd Ha' Hb' Hc' Hd' H10 H2 H.
  assert (0 < 10 ^ c' * 2 ^ d') as Hp by (apply Z.mul_pos_pos; apply Z.pow_pos_nonneg; lia).
  assert (0 < 10 ^ c * 2 ^ d) as Hq by (apply Z.mul_pos_pos; apply Z.pow_pos_nonneg; lia).
  apply (Z.mul_lt_mono_pos_r (10 ^ c * 2 ^ d)); [done|].
  apply (Z.mul_lt_mono_pos_r (10 ^ c' * 2 ^ d')) in H; [|done].
  replace (A * 10 ^ a' * 2 ^ b' * (10 ^ c * 2 ^ d)) with (A * (10 ^ a' * 10 ^ c) * (2 ^ b' * 2 ^ d)) by ring.
  replace (A * 10 ^ a * 2 ^ b * (10 ^ c' * 2 ^ d')) with (A * (10 ^ a * 10 ^ c') * (2 ^ b * 2 ^ d')) in H by ring.
  rewrite <-!Z.pow_add_r in * by lia.
  replace (a' + c) with (a + c') by lia. replace (b' + d) with (b + d') by lia.
  lia.
Qed.

(** The conditions of the digits: two rounded boundaries, brought together by one. *)
Lemma scaled_conditions m ex cf ce ck sh : positive_ok m ex → power_ok (cf, ce, ck) = true → 32 <= sh <= 60 →
  let r x := (x * cf + 2 ^ 63) / 2 ^ 64 in
  let lo := r (lower m ex) + 1 in let hi := r (upper m) - 1 in
  0 < lo ∧ lo <= r (middle m) ∧ r (middle m) <= hi ∧ 2 ^ sh <= hi < 2 ^ 64 - 1 ∧
  hi <= 10 ^ 16 * (hi - lo) ∧ r (middle m) < 2 ^ 64.
Proof.
  intros Hok Hp Hsh r lo hi. destruct (boundaries_apart m ex Hok) as (H0 & Hl & Hm & Hr).
  destruct (power_ok_range _ _ _ Hp) as [Hcf _]. pose proof (upper_range m (proj1 Hok)) as Hup.
  assert (∀ x, 0 <= x < 2 ^ 64 → x * cf - 2 ^ 63 <= r x * 2 ^ 64 <= x * cf + 2 ^ 63) as Hmul.
  { intros x Hx. exact (proj2 (cached_mul x cf ce ck Hx Hp)). }
  pose proof (Hmul (lower m ex) ltac:(lia)) as Hlo. pose proof (Hmul (middle m) ltac:(lia)) as Hmi.
  pose proof (Hmul (upper m) ltac:(lia)) as Hhi. unfold lo, hi.
  set (rl := r (lower m ex)) in *. set (rm := r (middle m)) in *. set (ru := r (upper m)) in *.
  set (L := lower m ex) in *. set (M := middle m) in *. set (U := upper m) in *.
  assert (2 ^ 9 * 2 ^ 63 <= (M - L) * cf) as Hml by (apply Z.mul_le_mono_nonneg; lia).
  assert (2 ^ 10 * 2 ^ 63 <= (U - M) * cf) as Hum by (apply Z.mul_le_mono_nonneg; lia).
  assert (2 ^ 63 * 2 ^ 63 <= U * cf) as Huc by (apply Z.mul_le_mono_nonneg; lia).
  assert (U * cf <= (2 ^ 64 - 1) * (2 ^ 64 - 1)) as Hub by (apply Z.mul_le_mono_nonneg; lia).
  assert (U * cf <= 2 ^ 53 * (U - L) * cf) as Hratio by (apply Z.mul_le_mono_nonneg_r; lia).
  assert (2 ^ sh <= 2 ^ 60) as Hs by (apply Z.pow_le_mono_r; lia).
  assert (0 <= L * cf) by (apply Z.mul_nonneg_nonneg; lia).
  split_and!; lia.
Qed.

(** The digits are inside the interval of the double. *)
Lemma digits_inside m ex cf ce ck D K :
  let ep := ex - 1 - scale m in let sh := - (ce + ep + 64) in
  let r x := (x * cf + 2 ^ 63) / 2 ^ 64 in
  positive_ok m ex → power_ok (cf, ce, ck) = true → 32 <= sh <= 60 → -17 <= K <= 9 →
  digits_within (r (lower m ex) + 1) (r (upper m) - 1) D K sh →
  inside m ex (D * 10 ^ Z.max (K - ck) 0) (10 ^ Z.max (ck - K) 0).
Proof.
  intros ep sh r Hok Hp Hsh HK [Hdl Hdu]. destruct (boundaries_apart m ex Hok) as (H0 & Hl & Hm & _).
  destruct (power_ok_range _ _ _ Hp) as [_ Hck]. pose proof (upper_range m (proj1 Hok)) as Hup.
  pose proof (scale_range m (proj1 Hok)) as Hsc. pose proof (proj1 (proj2 Hok)) as Hex.
  destruct (cached_mul (lower m ex) cf ce ck ltac:(lia) Hp) as [[_ Hlo] _].
  destruct (cached_mul (upper m) cf ce ck ltac:(lia) Hp) as [[Hhi _] _].
  fold (r (lower m ex)) in Hlo. fold (r (upper m)) in Hhi.
  pose proof (power_den_pos ce ck) as Hden. set (S := 2 ^ 64 * power_den ce ck) in *.
  assert (D * 10 ^ (17 + K) * 2 ^ sh * S < upper m * power_num ce ck * 10 ^ 17) as Hu.
  { apply (Z.le_lt_trans _ ((r (upper m) - 1) * 10 ^ 17 * S)); [apply Z.mul_le_mono_nonneg_r; lia|lia]. }
  assert (lower m ex * power_num ce ck * 10 ^ 17 < D * 10 ^ (17 + K) * 2 ^ sh * S) as Hw.
  { apply (Z.lt_le_trans _ ((r (lower m ex) + 1) * 10 ^ 17 * S)); [lia|apply Z.mul_le_mono_nonneg_r; lia]. }
  clear Hdl Hdu Hlo Hhi. unfold S, power_num, power_den in Hu, Hw. clear S Hden.
  replace (D * 10 ^ (17 + K) * 2 ^ sh * (2 ^ 64 * (10 ^ Z.max (- ck) 0 * 2 ^ Z.max ce 0)))
    with (D * (10 ^ (17 + K) * 10 ^ Z.max (- ck) 0) * (2 ^ sh * 2 ^ 64 * 2 ^ Z.max ce 0)) in Hu, Hw by ring.
  rewrite <-!Z.pow_add_r in Hu, Hw by lia. unfold inside, bias. split.
  - unfold lower in Hw. destruct (closer m ex).
    + replace ((4 * m - 1) * 2 ^ (scale m - 1) * (10 ^ Z.max ck 0 * 2 ^ Z.max (- ce) 0) * 10 ^ 17)
        with ((4 * m - 1) * (10 ^ Z.max ck 0 * 10 ^ 17) * (2 ^ (scale m - 1) * 2 ^ Z.max (- ce) 0)) in Hw by ring.
      rewrite <-!Z.pow_add_r in Hw by lia. rewrite <-Z.mul_assoc, (Z.mul_comm (2 ^ _)), Z.mul_assoc.
      eapply rescale, Hw; lia.
    + replace ((2 * m - 1) * 2 ^ scale m * (10 ^ Z.max ck 0 * 2 ^ Z.max (- ce) 0) * 10 ^ 17)
        with ((2 * m - 1) * (10 ^ Z.max ck 0 * 10 ^ 17) * (2 ^ scale m * 2 ^ Z.max (- ce) 0)) in Hw by ring.
      rewrite <-!Z.pow_add_r in Hw by lia. rewrite <-Z.mul_assoc, (Z.mul_comm (2 ^ _)), Z.mul_assoc.
      eapply rescale, Hw; lia.
  - unfold upper in Hu.
    replace ((2 * m + 1) * 2 ^ scale m * (10 ^ Z.max ck 0 * 2 ^ Z.max (- ce) 0) * 10 ^ 17)
      with ((2 * m + 1) * (10 ^ Z.max ck 0 * 10 ^ 17) * (2 ^ scale m * 2 ^ Z.max (- ce) 0)) in Hu by ring.
    rewrite <-!Z.pow_add_r in Hu by lia. rewrite <-(Z.mul_assoc (2 * m + 1)), (Z.mul_comm (2 ^ _)), Z.mul_assoc.
    eapply rescale, Hu; lia.
Qed.

Lemma grisu2_value_spec room m ex : 17 <= room → positive_ok (Z.pos m) ex →
  ∃ buf E, grisu2_value room (S754_finite false m ex) = Ret (buf, E) ∧ numeral buf ∧ len buf <= 17 ∧
    -341 <= E <= 309 ∧
    inside (Z.pos m) ex (dec_value buf * 10 ^ Z.max E 0) (10 ^ Z.max (- E) 0).
Proof.
  intros Hroom Hok. unfold grisu2_value. rewrite (bind_eq _ _ tt) by reflexivity.
  rewrite (bind_eq _ _ _ (compute_boundaries_spec m ex Hok)). cbn [minus w plus].
  set (mz := Z.pos m) in *. set (ep := ex - 1 - scale mz).
  pose proof (scale_range mz (proj1 Hok)) as Hsc. pose proof (proj1 (proj2 Hok)) as Hex.
  destruct (cached_spec ep ltac:(lia)) as (cf & ce & ck & Hc & Hp & He).
  destruct (power_ok_range _ _ _ Hp) as [Hcf Hck]. pose proof (upper_range mz (proj1 Hok)) as Hup.
  destruct (boundaries_apart mz ex Hok) as (Hl & Hlm & Hmu & _).
  unfold grisu2. cbn [e]. rewrite Z.eqb_refl. rewrite !(bind_eq (cpp_assert true) _ tt) by reflexivity.
  rewrite (bind_eq _ _ _ Hc). rewrite !diyfp_mul_spec by (cbn [f]; lia). cbn [f e].
  set (sh := - (ce + ep + 64)).
  destruct (scaled_conditions mz ex cf ce ck sh Hok Hp ltac:(lia)) as (H0 & H1 & H2 & H3 & H4 & _).
  rewrite !u64_small by lia. replace (ep + ce + 64) with (- sh) by lia.
  destruct (grisu2_digit_gen_spec room (- ck) _ _ _ sh Hroom ltac:(lia) (conj (Z.lt_le_incl _ _ H0) H1) H2
    ltac:(lia) H0 H4) as (buf & K & -> & Hn & Hlen & HK & Hd).
  exists buf, (- ck + K). split; [reflexivity|]. split; [exact Hn|]. split; [exact Hlen|]. split; [lia|].
  replace (- ck + K) with (K - ck) by lia. replace (- (K - ck)) with (ck - K) by lia.
  apply (digits_inside mz ex cf ce ck); [done|done|lia|lia|exact Hd].
Qed.
