(* ===== verification/JsonParse.v ===== *)
(** * The JSON parser (src/cppboot/base/internal/json/json.hpp, [lexer],
    [json_sax_dom_parser] and [parser])

    [json::parse(text)] with its defaults: exceptions allowed, no callback, and
    comments not ignored.  The lexer is the record of its fields, less the position and
    the token text that only error messages use; the parser's stack of states and
    the DOM builder's stack of references are one stack of the values being
    built.  The input adapter is the list of the characters left. *)

From S2P Require Import Prelude StdString Buffer JsonValue JsonDump.

Module Parser.

(** ** [token_type] *)

Inductive token_type : Set :=
  | literal_true
  | literal_false
  | literal_null
  | value_string
  | value_unsigned
  | value_integer
  | value_float
  | begin_array
  | begin_object
  | end_array
  | end_object
  | name_separator
  | value_separator
  | parse_error
  | end_of_input.
#[export] Instance token_type_eq_dec : EqDecision token_type.
Proof. solve_decision. Defined.

(** ** Input *)

Record lexer : Type := Lexer {
  ia : bytes;
  current : Z;
  next_unget : bool;
  chars_read_total : Z;
  token_buffer : bytes;
  unsigned_value : Z;
  integer_value : Z;
  float_value : spec_float;
}.

Definition eof : Z := -1.

Definition make_lexer (s : bytes) : lexer := Lexer s eof false 0 [] 0 0 (S754_zero false).

Definition set_buffer (b : bytes) (lx : lexer) : lexer :=
  Lexer (ia lx) (current lx) (next_unget lx) (chars_read_total lx) b
    (unsigned_value lx) (integer_value lx) (float_value lx).

Definition set_values (u i : Z) (f : spec_float) (lx : lexer) : lexer :=
  Lexer (ia lx) (current lx) (next_unget lx) (chars_read_total lx) (token_buffer lx) u i f.

(** [get_character] and [get]; the character is [current]. *)
Definition get (lx : lexer) : lexer :=
  let '(c, rest) :=
    if next_unget lx then (current lx, ia lx)
    else match ia lx with c :: rest => (uchar c, rest) | [] => (eof, []) end in
  Lexer rest c false (chars_read_total lx + 1) (token_buffer lx)
    (unsigned_value lx) (integer_value lx) (float_value lx).

Definition unget (lx : lexer) : lexer :=
  Lexer (ia lx) (current lx) true (chars_read_total lx - 1) (token_buffer lx)
    (unsigned_value lx) (integer_value lx) (float_value lx).

Definition reset (lx : lexer) : lexer := set_buffer [] lx.

Definition add (c : Z) (lx : lexer) : lexer := set_buffer (token_buffer lx ++ [char_of c]) lx.

Definition between (lo c hi : Z) : bool := (lo <=? c) && (c <=? hi).

Definition cur_is (lx : lexer) (c : ascii) : bool := current lx =? uchar c.

(** ** Strings *)

(** [get_codepoint]; [None] is -1. *)
Fixpoint codepoint_digits (factors : list Z) (codepoint : Z) (lx : lexer) : option Z * lexer :=
  match factors with
  | [] => (Some codepoint, lx)
  | factor :: factors =>
      let lx := get lx in
      let c := current lx in
      if between 48 c 57 then
        codepoint_digits factors (codepoint + Z.shiftl (c - 48) factor) lx
      else if between 65 c 70 then
        codepoint_digits factors (codepoint + Z.shiftl (c - 55) factor) lx
      else if between 97 c 102 then
        codepoint_digits factors (codepoint + Z.shiftl (c - 87) factor) lx
      else (None, lx)
  end.
Definition get_codepoint (lx : lexer) : option Z * lexer := codepoint_digits [12; 8; 4; 0] 0 lx.

(** The pairs of a range list, the current byte added before. *)
Fixpoint bytes_in_range (ranges : list (Z * Z)) (lx : lexer) : bool * lexer :=
  match ranges with
  | [] => (true, lx)
  | (lo, hi) :: ranges =>
      let lx := get lx in
      if between lo (current lx) hi then bytes_in_range ranges (add (current lx) lx)
      else (false, lx)
  end.
Definition next_byte_in_range (ranges : list (Z * Z)) (lx : lexer) : bool * lexer :=
  bytes_in_range ranges (add (current lx) lx).

(** The UTF-8 bytes of a code point. *)
Definition add_codepoint (cp : Z) (lx : lexer) : lexer :=
  let tail n := Z.lor 128 (Z.land (Z.shiftr cp n) 63) in
  if cp <? 128 then add cp lx
  else if cp <=? 2047 then add (tail 0) (add (Z.lor 192 (Z.shiftr cp 6)) lx)
  else if cp <=? 65535 then
    add (tail 0) (add (tail 6) (add (Z.lor 224 (Z.shiftr cp 12)) lx))
  else
    add (tail 0) (add (tail 6) (add (tail 12) (add (Z.lor 240 (Z.shiftr cp 18)) lx))).

(** What follows [\u]; [None] is a parse error. *)
Definition scan_unicode (lx : lexer) : option lexer :=
  let '(cp1, lx) := get_codepoint lx in
  match cp1 with
  | None => None
  | Some cp1 =>
      if between 55296 cp1 56319 then
        let lx := get lx in
        if cur_is lx "\" then
          let lx := get lx in
          if cur_is lx "u" then
            let '(cp2, lx) := get_codepoint lx in
            match cp2 with
            | None => None
            | Some cp2 =>
                if between 56320 cp2 57343
                then Some (add_codepoint (Z.shiftl cp1 10 + cp2 - 56613888) lx)
                else None
            end
          else None
        else None
      else if between 56320 cp1 57343 then None
      else Some (add_codepoint cp1 lx)
  end.

(** What follows a backslash. *)
Definition scan_escape (lx : lexer) : option lexer :=
  let lx := get lx in
  if cur_is lx DQ then Some (add 34 lx)
  else if cur_is lx "\" then Some (add 92 lx)
  else if cur_is lx "/" then Some (add 47 lx)
  else if cur_is lx "b" then Some (add 8 lx)
  else if cur_is lx "f" then Some (add 12 lx)
  else if cur_is lx "n" then Some (add 10 lx)
  else if cur_is lx "r" then Some (add 13 lx)
  else if cur_is lx "t" then Some (add 9 lx)
  else if cur_is lx "u" then scan_unicode lx
  else None.

(** The ranges of the bytes that follow a first byte of 0xC2 or more. *)
Definition following_ranges (c : Z) : option (list (Z * Z)) :=
  if between 194 c 223 then Some [(128, 191)]
  else if c =? 224 then Some [(160, 191); (128, 191)]
  else if between 225 c 236 || between 238 c 239 then Some [(128, 191); (128, 191)]
  else if c =? 237 then Some [(128, 159); (128, 191)]
  else if c =? 240 then Some [(144, 191); (128, 191); (128, 191)]
  else if between 241 c 243 then Some [(128, 191); (128, 191); (128, 191)]
  else if c =? 244 then Some [(128, 143); (128, 191); (128, 191)]
  else None.

(** Every round reads a character, so the characters left are enough fuel. *)
Fixpoint scan_string_loop (fuel : nat) (lx : lexer) : outcome (token_type * lexer) :=
  match fuel with
  | O => OutOfFuel
  | S fuel =>
      let lx := get lx in
      let c := current lx in
      if c =? eof then Ret (parse_error, lx)
      else if c =? 34 then Ret (value_string, lx)
      else if c =? 92 then
        match scan_escape lx with
        | Some lx => scan_string_loop fuel lx
        | None => Ret (parse_error, lx)
        end
      else if c <=? 31 then Ret (parse_error, lx)
      else if c <=? 127 then scan_string_loop fuel (add c lx)
      else
        match following_ranges c with
        | None => Ret (parse_error, lx)
        | Some ranges =>
            let '(ok, lx) := next_byte_in_range ranges lx in
            if ok : bool then scan_string_loop fuel lx else Ret (parse_error, lx)
        end
  end.

Definition scan_string (lx : lexer) : outcome (token_type * lexer) :=
  let lx := reset lx in
  scan_string_loop (S (length (ia lx))) lx.

(** ** Numbers *)

(** The labels of [scan_number]. *)
Inductive number_state : Set :=
  | scan_number_minus
  | scan_number_zero
  | scan_number_any1
  | scan_number_decimal1
  | scan_number_decimal2
  | scan_number_exponent
  | scan_number_sign
  | scan_number_any2
  | scan_number_done.
#[export] Instance number_state_eq_dec : EqDecision number_state.
Proof. solve_decision. Defined.

Definition is_digit (lx : lexer) : bool := between 48 (current lx) 57.

(** One [goto]: the next label and the number's type; [None] is a parse error.
    The decimal point of the "C" locale is the full stop. *)
Definition number_step (st : number_state) (ty : token_type) (lx : lexer) :
    option (number_state * token_type) * lexer :=
  let lx := get lx in
  let c := current lx in
  let kept st ty := (Some (st, ty), add c lx) in
  let done := (Some (scan_number_done, ty), lx) in
  match st with
  | scan_number_minus =>
      if c =? 48 then kept scan_number_zero value_integer
      else if between 49 c 57 then kept scan_number_any1 value_integer
      else (None, lx)
  | scan_number_zero =>
      if cur_is lx "." then kept scan_number_decimal1 ty
      else if cur_is lx "e" || cur_is lx "E" then kept scan_number_exponent ty
      else done
  | scan_number_any1 =>
      if is_digit lx then kept scan_number_any1 ty
      else if cur_is lx "." then kept scan_number_decimal1 ty
      else if cur_is lx "e" || cur_is lx "E" then kept scan_number_exponent ty
      else done
  | scan_number_decimal1 =>
      if is_digit lx then kept scan_number_decimal2 value_float else (None, lx)
  | scan_number_decimal2 =>
      if is_digit lx then kept scan_number_decimal2 ty
      else if cur_is lx "e" || cur_is lx "E" then kept scan_number_exponent ty
      else done
  | scan_number_exponent =>
      if cur_is lx "+" || cur_is lx "-" then kept scan_number_sign value_float
      else if is_digit lx then kept scan_number_any2 value_float
      else (None, lx)
  | scan_number_sign =>
      if is_digit lx then kept scan_number_any2 ty else (None, lx)
  | scan_number_any2 =>
      if is_digit lx then kept scan_number_any2 ty else done
  | scan_number_done => done
  end.

(** [std::strtod] on the text of a number: the digits before the point, those
    behind it and the exponent, rounded to a [double]. *)
Definition strtod (s : bytes) : spec_float :=
  let '(neg, s) := match s with
                   | c :: s' => if bool_decide (c = "-"%char) then (true, s') else (false, s)
                   | [] => (false, []) end in
  let '(whole, s) := digits s in
  let '(frac, s) := match s with
                    | c :: s' => if bool_decide (c = "."%char) then digits s' else ([], s)
                    | [] => ([], []) end in
  let e := match s with
           | c :: s' =>
               match s' with
               | d :: s'' => if bool_decide (d = "-"%char) then - dec_value (digits s'').1
                             else if bool_decide (d = "+"%char) then dec_value (digits s'').1
                             else dec_value (digits s').1
               | [] => 0 end
           | [] => 0 end in
  let scale := e - len frac in
  match dec_value (whole ++ frac) with
  | Z.pos m =>
      if 0 <=? scale
      then binary_normalize 53 1024 ((if neg then -1 else 1) * Z.pos m * 10 ^ scale) 0 neg
      else SFdiv 53 1024 (S754_finite neg m 0) (S754_finite false (Z.to_pos (10 ^ (- scale))) 0)
  | _ => S754_zero neg
  end.

(** The label [scan_number_done]: the conversion. *)
Definition convert_number (ty : token_type) (lx : lexer) : token_type * lexer :=
  let lx := unget lx in
  let s := token_buffer lx in
  let as_float := (value_float, set_values (unsigned_value lx) (integer_value lx) (strtod s) lx) in
  match ty with
  | value_unsigned =>
      let x := dec_value s in
      if x <? 2 ^ 64 then (value_unsigned, set_values x (integer_value lx) (float_value lx) lx)
      else as_float
  | value_integer =>
      let x := - dec_value (drop 1 s) in
      if - 2 ^ 63 <=? x then (value_integer, set_values (unsigned_value lx) x (float_value lx) lx)
      else as_float
  | _ => as_float
  end.

Fixpoint scan_number_loop (fuel : nat) (st : number_state) (ty : token_type) (lx : lexer) :
    outcome (token_type * lexer) :=
  match fuel with
  | O => OutOfFuel
  | S fuel =>
      match number_step st ty lx with
      | (None, lx) => Ret (parse_error, lx)
      | (Some (scan_number_done, ty), lx) => Ret (convert_number ty lx)
      | (Some (st, ty), lx) => scan_number_loop fuel st ty lx
      end
  end.

Definition scan_number (lx : lexer) : outcome (token_type * lexer) :=
  let lx := reset lx in
  let c := current lx in
  let fuel := S (length (ia lx)) in
  let lx' := add c lx in
  if c =? 45 then scan_number_loop fuel scan_number_minus value_unsigned lx'
  else if c =? 48 then scan_number_loop fuel scan_number_zero value_unsigned lx'
  else if between 49 c 57 then scan_number_loop fuel scan_number_any1 value_unsigned lx'
  else Crash.

(** ** Literals and the scanner *)

(** The characters behind the first one. *)
Fixpoint literal_rest (l : bytes) (ty : token_type) (lx : lexer) : token_type * lexer :=
  match l with
  | [] => (ty, lx)
  | c :: l =>
      let lx := get lx in
      if bool_decide (char_of (current lx) = c) then literal_rest l ty lx else (parse_error, lx)
  end.
Definition scan_literal (literal_text : bytes) (ty : token_type) (lx : lexer) :
    outcome (token_type * lexer) :=
  _ ← cpp_assert (bool_decide (head literal_text = Some (char_of (current lx))));
  Ret (literal_rest (drop 1 literal_text) ty lx).

Definition skip_bom (lx : lexer) : bool * lexer :=
  let lx := get lx in
  if current lx =? 239 then
    let lx := get lx in
    if current lx =? 187 then let lx := get lx in (current lx =? 191, lx) else (false, lx)
  else (true, unget lx).

Fixpoint skip_whitespace (fuel : nat) (lx : lexer) : outcome lexer :=
  match fuel with
  | O => OutOfFuel
  | S fuel =>
      let lx := get lx in
      if cur_is lx SP || cur_is lx HT || cur_is lx LF || cur_is lx CR then skip_whitespace fuel lx else Ret lx
  end.

(** [scan], in its three parts: the switch on the current character, ... *)
Definition scan_switch (lx : lexer) : outcome (token_type * lexer) :=
  if cur_is lx "[" then Ret (begin_array, lx)
  else if cur_is lx "]" then Ret (end_array, lx)
  else if cur_is lx "{" then Ret (begin_object, lx)
  else if cur_is lx "}" then Ret (end_object, lx)
  else if cur_is lx ":" then Ret (name_separator, lx)
  else if cur_is lx "," then Ret (value_separator, lx)
  else if cur_is lx "t" then scan_literal (bs "true") literal_true lx
  else if cur_is lx "f" then scan_literal (bs "false") literal_false lx
  else if cur_is lx "n" then scan_literal (bs "null") literal_null lx
  else if cur_is lx DQ then scan_string lx
  else if cur_is lx "-" || is_digit lx then scan_number lx
  else if cur_is lx NUL || (current lx =? eof) then Ret (end_of_input, lx)
  else Ret (parse_error, lx).

(** ... the blanks before it, ... *)
Definition scan_token (lx : lexer) : outcome (token_type * lexer) :=
  lx ← skip_whitespace (S (S (length (ia lx)))) lx;
  scan_switch lx.

(** ... and the byte order mark before the first token. *)
Definition scan (lx : lexer) : outcome (token_type * lexer) :=
  let '(bom, lx) := if chars_read_total lx =? 0 then skip_bom lx else (true, lx) in
  if bom then scan_token lx else Ret (parse_error, lx).

(** ** [json_sax_dom_parser] and [sax_parse_internal] *)

(** A container that is still open: the elements so far, or the members so far
    and the key whose value comes next. *)
Inductive frame : Type :=
  | Array_frame (l : list json)
  | Object_frame (l : list (bytes * json)) (key : bytes).

(** [handle_value], for a complete value. *)
Definition handle_value (v : json) (stack : list frame) (root : json) : list frame * json :=
  match stack with
  | [] => ([], v)
  | Array_frame l :: stack => (Array_frame (l ++ [v]) :: stack, root)
  | Object_frame l key :: stack => (Object_frame (member_set key v l) key :: stack, root)
  end.

(** [key]: null at the given key. *)
Definition object_key (key : bytes) (l : list (bytes * json)) : frame :=
  Object_frame (member_emplace key JNull l) key.

Definition isfinite (f : spec_float) : bool :=
  match f with S754_zero _ | S754_finite _ _ _ => true | _ => false end.

(** A key and its separator; the token behind them is read. *)
Definition parse_key (tok : token_type) (lx : lexer) (l : list (bytes * json)) :
    outcome (frame * token_type * lexer) :=
  if bool_decide (tok ≠ value_string) then Throw (json_exception 101) else
  let top := object_key (token_buffer lx) l in
  '(tok, lx) ← scan lx;
  if bool_decide (tok ≠ name_separator) then Throw (json_exception 101) else
  '(tok, lx) ← scan lx;
  Ret (top, tok, lx).

Abbreviation sax_state := (token_type * lexer * list frame * json)%type.

(** The bottom of the loop: what follows a complete value.  [loop] is the loop,
    [true] when the value at the top is skipped. *)
Definition state_evaluation (loop : bool → sax_state → outcome (json * lexer))
    (lx : lexer) (stack : list frame) (root : json) : outcome (json * lexer) :=
  match stack with
  | [] => Ret (root, lx)
  | Array_frame l :: stack =>
      '(tok, lx) ← scan lx;
      if bool_decide (tok = value_separator) then
        '(tok, lx) ← scan lx; loop false (tok, lx, Array_frame l :: stack, root)
      else if bool_decide (tok = end_array) then
        let '(stack, root) := handle_value (JArray l) stack root in
        loop true (tok, lx, stack, root)
      else Throw (json_exception 101)
  | Object_frame l _ :: stack =>
      '(tok, lx) ← scan lx;
      if bool_decide (tok = value_separator) then
        '(tok, lx) ← scan lx;
        '(top, tok, lx) ← parse_key tok lx l;
        loop false (tok, lx, top :: stack, root)
      else if bool_decide (tok = end_object) then
        let '(stack, root) := handle_value (JObject l) stack root in
        loop true (tok, lx, stack, root)
      else Throw (json_exception 101)
  end.

(** The top of the loop, for the token of a value. *)
Definition parse_value (loop : bool → sax_state → outcome (json * lexer)) (s : sax_state) :
    outcome (json * lexer) :=
  let '(tok, lx, stack, root) := s in
  let value v := let '(stack, root) := handle_value v stack root in
                 state_evaluation loop lx stack root in
  match tok with
  | begin_object =>
      '(tok, lx) ← scan lx;
      if bool_decide (tok = end_object) then
        let '(stack, root) := handle_value (JObject []) stack root in
        state_evaluation loop lx stack root
      else
        '(top, tok, lx) ← parse_key tok lx [];
        loop false (tok, lx, top :: stack, root)
  | begin_array =>
      '(tok, lx) ← scan lx;
      if bool_decide (tok = end_array) then
        let '(stack, root) := handle_value (JArray []) stack root in
        state_evaluation loop lx stack root
      else loop false (tok, lx, Array_frame [] :: stack, root)
  | value_float =>
      if isfinite (float_value lx) then value (JFloat (float_value lx))
      else Throw (json_exception 406)
  | literal_false => value (JBool false)
  | literal_null => value JNull
  | literal_true => value (JBool true)
  | value_integer => value (JInt (integer_value lx))
  | value_string => value (JString (token_buffer lx))
  | value_unsigned => value (JUint (unsigned_value lx))
  | _ => Throw (json_exception 101)
  end.

Fixpoint sax_parse_internal (fuel : nat) (skip_to_state_evaluation : bool) (s : sax_state) :
    outcome (json * lexer) :=
  match fuel with
  | O => OutOfFuel
  | S fuel =>
      if skip_to_state_evaluation then
        let '(_, lx, stack, root) := s in
        state_evaluation (sax_parse_internal fuel) lx stack root
      else parse_value (sax_parse_internal fuel) s
  end.

(** [json::parse(s)]; every round of the loop reads a token, so a round for each
    character and three more are enough. *)
Definition json_parse (s : bytes) : outcome json :=
  '(tok, lx) ← scan (make_lexer s);
  '(result, lx) ← sax_parse_internal (length s + 3) false (tok, lx, [], JNull);
  '(tok, lx) ← scan lx;
  if bool_decide (tok ≠ end_of_input) then Throw (json_exception 101) else Ret result.

End Parser.
Import Parser Serializer.

(** * Reading what is left *)

(** The characters still to be read, an ungot one first. *)
Definition remaining (lx : lexer) : bytes :=
  if next_unget lx then (if current lx =? eof then [] else char_of (current lx) :: ia lx)
  else ia lx.

(** An ungot character is a character or the end of the input. *)
Definition lexer_ok (lx : lexer) : Prop :=
  next_unget lx = true → -1 <= current lx < 256 ∧ (current lx = eof → ia lx = []).

(** The lexer between two characters, with [s] to read. *)
Definition at_input (lx : lexer) (s : bytes) : Prop :=
  remaining lx = s ∧ lexer_ok lx ∧ 0 <= chars_read_total lx.

(** The lexer that has just read [c]. *)
Definition has_read (lx : lexer) (c : ascii) (s : bytes) : Prop :=
  current lx = uchar c ∧ ia lx = s ∧ next_unget lx = false ∧ 0 < chars_read_total lx.

Lemma has_read_at lx c s : has_read lx c s → at_input lx s.
Proof.
  intros (Hc & Hs & Hn & Ht). unfold at_input, remaining, lexer_ok. rewrite Hn.
  split_and!; [done|done|lia].
Qed.

Lemma has_read_is lx c s d : has_read lx c s → cur_is lx d = bool_decide (c = d).
Proof.
  intros (Hc & _). unfold cur_is. rewrite Hc. case_bool_decide as E.
  - subst d. by rewrite Z.eqb_refl.
  - apply Z.eqb_neq. by intros ?%uchar_inj.
Qed.

Lemma get_read lx c s : at_input lx (c :: s) → has_read (get lx) c s.
Proof.
  intros (Hr & Hok & Ht). unfold remaining, get, has_read in *.
  destruct (next_unget lx) eqn:Hu.
  - destruct (current lx =? eof) eqn:E; bool_hyps; [done|]. injection Hr as <- <-.
    cbn [current ia next_unget chars_read_total]. split_and!; [|done|done|lia].
    destruct (Hok Hu) as [Hc _]. rewrite uchar_char_of, Z.mod_small; unfold eof in *; lia.
  - rewrite Hr. cbn. split_and!; done || lia.
Qed.

Lemma get_eof lx :
  at_input lx [] → current (get lx) = eof ∧ ia (get lx) = [] ∧ next_unget (get lx) = false.
Proof.
  intros (Hr & Hok & Ht). unfold remaining, get in *. destruct (next_unget lx) eqn:Hu.
  - destruct (current lx =? eof) eqn:E; bool_hyps; [|done].
    destruct (Hok Hu) as [_ He]. split_and!; cbn; auto.
  - by rewrite Hr.
Qed.

Lemma get_total lx : chars_read_total (get lx) = chars_read_total lx + 1.
Proof. unfold get. by destruct (if next_unget lx then _ else _). Qed.

(** What [get] leaves alone. *)
Lemma get_buffer lx : token_buffer (get lx) = token_buffer lx.
Proof. unfold get. by destruct (if next_unget lx then _ else _). Qed.

Lemma has_read_buffer lx c s b : has_read lx c s → has_read (set_buffer b lx) c s.
Proof. done. Qed.
Lemma at_input_buffer lx s b : at_input lx s → at_input (set_buffer b lx) s.
Proof. done. Qed.
Lemma has_read_values lx c s u i f : has_read lx c s → has_read (set_values u i f lx) c s.
Proof. done. Qed.

Lemma unget_at lx c s : has_read lx c s → 0 < chars_read_total lx → at_input (unget lx) (c :: s).
Proof.
  intros (Hc & Hs & Hn & Ht) H1. unfold at_input, remaining, unget.
  cbn [next_unget current ia chars_read_total]. pose proof (uchar_range c).
  rewrite Hc, (proj2 (Z.eqb_neq _ _)), char_of_uchar, Hs by (unfold eof; lia).
  split_and!; [done| |lia]. intros _. cbn [current ia]. unfold eof. lia.
Qed.

Lemma unget_eof lx : current lx = eof → ia lx = [] → 0 < chars_read_total lx → at_input (unget lx) [].
Proof.
  intros Hc Hs H1. unfold at_input, remaining, unget.
  cbn [next_unget current ia chars_read_total]. rewrite Hc, Hs.
  split_and!; [done| |lia]. intros _. unfold eof. cbn [current ia]. split; [lia|done].
Qed.

Lemma add_buffer c lx : token_buffer (add c lx) = token_buffer lx ++ [char_of c].
Proof. done. Qed.

(** ** Strings *)

(** The next characters, read and kept. *)
Lemma bytes_in_range_ok ranges lx cs s :
  at_input lx (cs ++ s) →
  Forall2 (λ r c, between r.1 (uchar c) r.2 = true) ranges cs →
  ∃ lx', bytes_in_range ranges lx = (true, lx') ∧ at_input lx' s ∧
    token_buffer lx' = token_buffer lx ++ cs.
Proof.
  intros Hat Hf. revert lx Hat. induction Hf as [|[lo hi] c ranges cs Hc Hf IH]; intros lx Hat.
  { exists lx. by rewrite app_nil_r. }
  cbn [bytes_in_range]. pose proof (get_read lx c (cs ++ s) Hat) as Hg.
  destruct Hg as (Hcur & Hg). rewrite Hcur. cbn [fst snd] in Hc. rewrite Hc.
  destruct (IH (add (uchar c) (get lx))) as (lx' & -> & Hat' & Hb).
  { eapply has_read_at, has_read_buffer. by split. }
  exists lx'. split_and!; [done..|]. rewrite Hb, add_buffer, char_of_uchar, get_buffer.
  by rewrite <-app_assoc.
Qed.

(** The bytes still to come in a state of the decoder. *)
Definition state_ranges (st : Z) : list (Z * Z) :=
  if st =? 0 then []
  else if st =? 2 then [(128, 191)]
  else if st =? 3 then [(128, 191); (128, 191)]
  else if st =? 4 then [(160, 191); (128, 191)]
  else if st =? 5 then [(128, 159); (128, 191)]
  else if st =? 6 then [(144, 191); (128, 191); (128, 191)]
  else if st =? 7 then [(128, 191); (128, 191); (128, 191)]
  else [(128, 143); (128, 191); (128, 191)].

(** The serializer's automaton and the scanner's ranges agree. *)
Definition ranges_ok (st : Z) (c : ascii) : bool :=
  let st' := next st c in
  match state_ranges st with
  | [] => if uchar c <? 128 then st' =? 0
          else bool_decide (following_ranges (uchar c) =
                            if st' =? 1 then None else Some (state_ranges st'))
  | (lo, hi) :: rest =>
      if between lo (uchar c) hi then bool_decide (state_ranges st' = rest) && bool_decide (st' ∈ states)
      else st' =? 1
  end.

Lemma all_ranges_ok : forallb (λ st, forallb (ranges_ok st) all_chars) states = true.
Proof. vm_compute. reflexivity. Qed.

Lemma ranges_ok_all st c : st ∈ states → ranges_ok st c = true.
Proof.
  intros Hst. pose proof all_ranges_ok as H. rewrite forallb_forall in H.
  apply list_elem_of_In, H in Hst. by apply forall_chars with (c := c) in Hst.
Qed.

Lemma state_ranges_nil st : st ∈ states → state_ranges st = [] → st = 0.
Proof. intros Hst. unfold state_ranges. repeat case_match; bool_hyps; try done; lia. Qed.

(** The rest of a character that has begun. *)
Lemma dfa_ranges ranges st s :
  st ∈ states → state_ranges st = ranges → dfa st s = 0 →
  ∃ cs s', s = cs ++ s' ∧ Forall2 (λ r c, between r.1 (uchar c) r.2 = true) ranges cs ∧
    dfa 0 s' = 0.
Proof.
  revert st s. induction ranges as [|[lo hi] ranges IH]; intros st s Hst Hr Hd.
  { apply state_ranges_nil in Hr as ->; [|done]. by exists [], s. }
  destruct s as [|c s]; [unfold dfa in Hd; cbn in Hd; by subst st|].
  change (dfa (next st c) s = 0) in Hd. pose proof (ranges_ok_all st c Hst) as Hok.
  unfold ranges_ok in Hok. rewrite Hr in Hok.
  destruct (between lo (uchar c) hi) eqn:Hb; bool_hyps.
  - destruct (IH (next st c) s) as (cs & s' & -> & Hf & Hd'); [done..|].
    exists (c :: cs), s'. split_and!; [done| |done]. by constructor.
  - rewrite Hok, dfa_reject in Hd. done.
Qed.

(** A string is empty or begins with a character. *)
Inductive utf8_case (c : ascii) (s : bytes) : Prop :=
  | utf8_one : uchar c < 128 → utf8_ok s = true → utf8_case c s
  | utf8_more ranges cs s' :
      128 <= uchar c → following_ranges (uchar c) = Some ranges → s = cs ++ s' →
      Forall2 (λ r c, between r.1 (uchar c) r.2 = true) ranges cs →
      utf8_ok s' = true → utf8_case c s.

Lemma utf8_cases c s : utf8_ok (c :: s) = true → utf8_case c s.
Proof.
  rewrite utf8_ok_dfa. change (dfa 0 (c :: s)) with (dfa (next 0 c) s).
  intros Hd. pose proof (ranges_ok_all 0 c ltac:(by left)) as Hok. cbn in Hok.
  destruct (uchar c <? 128) eqn:Hc; bool_hyps.
  - apply utf8_one; [done|]. rewrite Hok in Hd. by apply utf8_ok_dfa.
  - destruct (next 0 c =? 1) eqn:E; bool_hyps; [rewrite E, dfa_reject in Hd; done|].
    assert (next 0 c ∈ states) as Hst.
    { destruct (byte_cases 0 0 c) as [?|? Hn|Hn|? ? [? _] _ _]; [split; by left|lia|..|done];
        rewrite Hn; by left. }
    destruct (dfa_ranges _ _ _ Hst eq_refl Hd) as (cs & s' & Hs & Hf & Hd').
    eapply utf8_more; [done..|]. by apply utf8_ok_dfa.
Qed.

Lemma escape_app s s' : escape (s ++ s') = escape s ++ escape s'.
Proof. apply bind_app. Qed.

Lemma escape_cons c s : escape (c :: s) = esc_char c ++ escape s.
Proof. done. Qed.

Lemma escape_high cs : Forall (λ c, 128 <= uchar c) cs → escape cs = cs.
Proof. induction 1 as [|c cs Hc _ IH]; [done|]. by rewrite escape_cons, esc_char_high, IH. Qed.

Lemma following_high c ranges cs :
  following_ranges c = Some ranges →
  Forall2 (λ r c, between r.1 (uchar c) r.2 = true) ranges cs → Forall (λ c, 128 <= uchar c) cs.
Proof.
  intros Hr Hf. assert (Forall (λ r, 128 <= r.1) ranges) as Hlo.
  { unfold following_ranges in Hr. repeat (case_match; try discriminate Hr);
      injection Hr as <-; repeat constructor; cbn; lia. }
  induction Hf as [|r b ranges cs Hb Hf IH]; [constructor|]; inversion Hlo; subst.
  unfold between in Hb. bool_hyps. constructor; [lia|].
  clear Hr IH. revert cs Hf. induction ranges as [|r' ranges IH]; intros cs Hf;
    inversion Hf as [|? b' ? cs' Hb' Hf']; subst; [constructor|].
  inversion H2; subst. unfold between in Hb'. bool_hyps. constructor; [lia|]. apply IH; try done.
  by constructor.
Qed.

(** A character of an escape, by its own letter. *)
Lemma scan_escape_letter lx e s b :
  at_input lx (e :: s) →
  (e, b) ∈ [(DQ, 34); ("\"%char, 92); ("b"%char, 8); ("f"%char, 12); ("n"%char, 10);
            ("r"%char, 13); ("t"%char, 9)] →
  scan_escape lx = Some (add b (get lx)).
Proof.
  intros Hat Hin. apply get_read in Hat. unfold scan_escape.
  rewrite !(has_read_is _ _ _ _ Hat).
  repeat (apply elem_of_cons in Hin as [[= -> ->]|Hin]; [done|]). by apply elem_of_nil in Hin.
Qed.

Lemma hex_digit_read d f factors cp lx s :
  0 <= d < 16 → at_input lx (hex_digit d :: s) →
  codepoint_digits (f :: factors) cp lx = codepoint_digits factors (cp + Z.shiftl d f) (get lx).
Proof.
  intros Hd Hat. apply get_read in Hat as (Hc & _). cbn [codepoint_digits]. rewrite Hc.
  assert (d ∈ seqZ 0 16) as Hin by (apply elem_of_seqZ; lia).
  assert (forallb (λ d, let c := uchar (hex_digit d) in
    if between 48 c 57 then c - 48 =? d else if between 65 c 70 then c - 55 =? d
    else between 97 c 102 && (c - 87 =? d)) (seqZ 0 16) = true) as Hall by (vm_compute; reflexivity).
  rewrite forallb_forall in Hall. apply list_elem_of_In, Hall in Hin. cbv beta zeta in Hin.
  repeat case_match; bool_hyps; congruence.
Qed.

(** A control character behind [\u]. *)
Lemma scan_escape_control lx c s :
  at_input lx ("u"%char :: hex4 (uchar c) ++ s) → uchar c <= 31 →
  ∃ lx', scan_escape lx = Some (add (uchar c) lx') ∧ at_input lx' s ∧
    token_buffer lx' = token_buffer lx.
Proof.
  intros Hat Hc. pose proof (uchar_range c). pose proof (get_read _ _ _ Hat) as Hu.
  unfold scan_escape. rewrite !(has_read_is _ _ _ _ Hu).
  do 8 (rewrite bool_decide_false by done). rewrite bool_decide_true by done.
  unfold scan_unicode, get_codepoint. unfold hex4 in Hu. cbn [app] in Hu.
  apply has_read_at in Hu.
  pose proof (get_read _ _ _ Hu) as H1%has_read_at. pose proof (get_read _ _ _ H1) as H2%has_read_at.
  pose proof (get_read _ _ _ H2) as H3%has_read_at. pose proof (get_read _ _ _ H3) as H4%has_read_at.
  do 4 (erewrite hex_digit_read; [|apply Z.mod_pos_bound; lia|eassumption]).
  cbn [codepoint_digits].
  assert (0 + Z.shiftl (uchar c / 4096 mod 16) 12 + Z.shiftl (uchar c / 256 mod 16) 8 +
          Z.shiftl (uchar c / 16 mod 16) 4 + Z.shiftl (uchar c mod 16) 0 = uchar c) as ->.
  { rewrite !Z.shiftl_mul_pow2 by lia. Z.div_mod_to_equations. lia. }
  unfold between. do 2 (rewrite (proj2 (Z.leb_gt _ (uchar c))) by lia; cbn [andb]).
  unfold add_codepoint. rewrite (proj2 (Z.ltb_lt _ _)) by lia.
  eexists. split; [done|]. split; [done|]. by rewrite !get_buffer.
Qed.

(** One character of a dumped string. *)
Lemma scan_string_char c fuel lx s :
  uchar c < 128 → at_input lx (esc_char c ++ s) →
  ∃ lx', scan_string_loop (S fuel) lx = scan_string_loop fuel lx' ∧ at_input lx' s ∧
    token_buffer lx' = token_buffer lx ++ [c].
Proof.
  intros Hc Hat. pose proof (uchar_range c).
  assert (∀ e k, esc_char c = "\"%char :: e :: k → k = [] →
    (e, uchar c) ∈ [(DQ, 34); ("\"%char, 92); ("b"%char, 8); ("f"%char, 12); ("n"%char, 10);
            ("r"%char, 13); ("t"%char, 9)] →
    ∃ lx', scan_string_loop (S fuel) lx = scan_string_loop fuel lx' ∧ at_input lx' s ∧
    token_buffer lx' = token_buffer lx ++ [c]) as Hletter.
  { intros e k He -> Hin. rewrite He in Hat. cbn [app] in Hat.
    pose proof (get_read _ _ _ Hat) as Hg. pose proof (has_read_at _ _ _ Hg) as Hat1.
    cbn [scan_string_loop]. destruct Hg as (-> & _). cbn -[scan_escape scan_string_loop get].
    rewrite (scan_escape_letter _ e s (uchar c)) by done.
    eexists. split; [done|]. split.
    - eapply has_read_at, has_read_buffer, get_read, Hat1.
    - by rewrite add_buffer, char_of_uchar, !get_buffer. }
  unfold esc_char in *.
  repeat (case_match; [bool_hyps; eapply Hletter; [done|done|];
    match goal with H : uchar c = _ |- _ => rewrite H end; by_decide|]).
  clear Hletter. case_match; bool_hyps.
  - cbn [app] in Hat. change (bs "\u" ++ hex4 (uchar c)) with ("\"%char :: "u"%char :: hex4 (uchar c)) in Hat.
    cbn [app] in Hat. pose proof (get_read _ _ _ Hat) as Hg. pose proof (has_read_at _ _ _ Hg) as Hat1.
    cbn [scan_string_loop]. destruct Hg as (-> & _). cbn -[scan_escape scan_string_loop get].
    destruct (scan_escape_control (get lx) c s) as (lx' & -> & Hat' & Hb); [done|done|].
    eexists. split; [done|]. split; [by apply at_input_buffer|].
    by rewrite add_buffer, char_of_uchar, Hb, get_buffer.
  - pose proof (get_read _ _ _ Hat) as Hg. cbn [scan_string_loop].
    destruct Hg as (Hcur & Hg). rewrite Hcur. unfold eof.
    rewrite (proj2 (Z.eqb_neq (uchar c) (-1))), (proj2 (Z.eqb_neq (uchar c) 34)),
      (proj2 (Z.eqb_neq (uchar c) 92)), (proj2 (Z.leb_gt (uchar c) 31)),
      (proj2 (Z.leb_le (uchar c) 127)) by lia.
    eexists. split; [done|]. split; [by eapply has_read_at, has_read_buffer; split|].
    by rewrite add_buffer, char_of_uchar, get_buffer.
Qed.

(** A dumped string, up to and with its closing quote. *)
Lemma scan_string_loop_ok s : ∀ fuel lx rest,
  utf8_ok s = true → at_input lx (escape s ++ DQ :: rest) → (length s < fuel)%nat →
  ∃ lx', scan_string_loop fuel lx = Ret (value_string, lx') ∧ has_read lx' DQ rest ∧
    token_buffer lx' = token_buffer lx ++ s.
Proof.
  induction s as [s IH] using (induction_ltof1 _ (@length ascii)). unfold ltof in IH.
  intros [|fuel] lx rest Hok Hat Hf; [lia|]. destruct s as [|c s].
  { pose proof (get_read _ _ _ Hat) as Hg. exists (get lx). cbn [scan_string_loop].
    destruct (Hg) as (-> & _). cbn. by rewrite get_buffer, app_nil_r. }
  cbn [length] in *. destruct (utf8_cases c s Hok) as [Hc Hs|ranges cs s' Hc Hr -> Hcs Hs].
  - rewrite escape_cons, <-app_assoc in Hat.
    destruct (scan_string_char c fuel lx _ Hc Hat) as (lx1 & -> & Hat1 & Hb1).
    destruct (IH s ltac:(lia) fuel lx1 rest Hs Hat1 ltac:(lia)) as (lx' & -> & Hrd & Hb').
    exists lx'. split_and!; [done..|]. by rewrite Hb', Hb1, <-app_assoc.
  - rewrite escape_cons, esc_char_high, escape_app, (escape_high cs), <-!app_assoc in Hat
      by (done || by eapply following_high).
    pose proof (get_read _ _ _ Hat) as Hg. cbn [scan_string_loop]. pose proof (uchar_range c).
    destruct (Hg) as (Hcur & _). rewrite Hcur. unfold eof.
    rewrite (proj2 (Z.eqb_neq (uchar c) (-1))), (proj2 (Z.eqb_neq (uchar c) 34)),
      (proj2 (Z.eqb_neq (uchar c) 92)), (proj2 (Z.leb_gt (uchar c) 31)),
      (proj2 (Z.leb_gt (uchar c) 127)), Hr by lia.
    unfold next_byte_in_range. rewrite Hcur.
    destruct (bytes_in_range_ok ranges (add (uchar c) (get lx)) cs (escape s' ++ DQ :: rest))
      as (lx1 & -> & Hat1 & Hb1); [|done|].
    { eapply has_read_at, has_read_buffer, Hg. }
    rewrite length_app in *.
    destruct (IH s' ltac:(lia) fuel lx1 rest Hs Hat1 ltac:(lia)) as (lx' & -> & Hrd & Hb').
    exists lx'. split_and!; [done..|].
    by rewrite Hb', Hb1, add_buffer, char_of_uchar, get_buffer, <-!app_assoc.
Qed.

Lemma length_escape s : (length s <= length (escape s))%nat.
Proof.
  induction s as [|c s IH]; [done|]. rewrite escape_cons, length_app. cbn [length].
  assert (1 <= length (esc_char c))%nat by (unfold esc_char; repeat case_match; cbn; lia). lia.
Qed.

Lemma scan_string_ok s lx rest :
  utf8_ok s = true → has_read lx DQ (escape s ++ DQ :: rest) →
  ∃ lx', scan_string lx = Ret (value_string, lx') ∧ has_read lx' DQ rest ∧ token_buffer lx' = s.
Proof.
  intros Hok Hrd. unfold scan_string. destruct (Hrd) as (_ & Hia & _).
  change (ia (reset lx)) with (ia lx). rewrite Hia.
  pose proof (has_read_at _ _ _ (has_read_buffer _ _ _ [] Hrd)) as Hat.
  apply (scan_string_loop_ok s _ (reset lx)); [done|done|].
  rewrite length_app. pose proof (length_escape s). cbn. lia.
Qed.

(** ** Tokens *)

Definition is_blank (c : ascii) : bool := bool_decide (c ∈ [SP; HT; LF; CR]).

Lemma cur_blank lx c s :
  has_read lx c s → cur_is lx SP || cur_is lx HT || cur_is lx LF || cur_is lx CR = is_blank c.
Proof.
  intros H. rewrite !(has_read_is _ _ _ _ H). unfold is_blank. apply eq_true_iff_eq.
  rewrite !orb_true_iff, !bool_decide_eq_true. rewrite !elem_of_cons, elem_of_nil. tauto.
Qed.

Lemma skip_whitespace_ok fuel lx ws c s :
  at_input lx (ws ++ c :: s) → Forall (λ c, is_blank c = true) ws → is_blank c = false →
  (length ws < fuel)%nat →
  ∃ lx', skip_whitespace fuel lx = Ret lx' ∧ has_read lx' c s.
Proof.
  intros Hat Hws Hc. revert fuel lx Hat. induction Hws as [|w ws Hw Hws IH];
    intros [|fuel] lx Hat Hf; try (cbn in Hf; lia); cbn [skip_whitespace];
    pose proof (get_read _ _ _ Hat) as Hg; rewrite (cur_blank _ _ _ Hg).
  - rewrite Hc. eauto.
  - rewrite Hw. apply IH; [by eapply has_read_at|cbn in Hf; lia].
Qed.

Lemma remaining_length lx : (length (remaining lx) <= S (length (ia lx)))%nat.
Proof. unfold remaining. repeat case_match; cbn; lia. Qed.

(** The next token after blanks. *)
Lemma scan_token_ok lx ws c s :
  at_input lx (ws ++ c :: s) → Forall (λ c, is_blank c = true) ws → is_blank c = false →
  ∃ lx', scan_token lx = scan_switch lx' ∧ has_read lx' c s.
Proof.
  intros Hat Hws Hc. unfold scan_token.
  destruct (skip_whitespace_ok (S (S (length (ia lx)))) lx ws c s) as (lx' & -> & H); [done..| |].
  { destruct Hat as [Hr _]. pose proof (remaining_length lx) as Hl. rewrite Hr, length_app in Hl.
    cbn in Hl. lia. }
  by exists lx'.
Qed.

Lemma scan_started lx : 0 < chars_read_total lx → scan lx = scan_token lx.
Proof. intros H. unfold scan. by rewrite (proj2 (Z.eqb_neq _ _)) by lia. Qed.

(** The end of the input, or a NUL. *)
Definition ends (s : bytes) : Prop := s = [] ∨ ∃ k, s = NUL :: k.

Lemma scan_end lx s :
  at_input lx s → ends s → 0 < chars_read_total lx → ∃ lx', scan lx = Ret (end_of_input, lx').
Proof.
  intros Hat Hs Ht. rewrite scan_started by done. destruct Hs as [->|[k ->]].
  - unfold scan_token. cbn [skip_whitespace]. destruct (get_eof lx Hat) as (Hc & _ & _).
    unfold cur_is at 1 2 3 4. rewrite Hc.
    change (eof =? _) with false. cbn [orb mbind outcome_bind].
    unfold scan_switch, cur_is, is_digit, between. rewrite Hc. cbn. eauto.
  - destruct (scan_token_ok lx [] NUL k) as (lx' & -> & H); [done|constructor|done|].
    unfold scan_switch. rewrite !(has_read_is _ _ _ _ H). unfold is_digit.
    destruct (H) as (-> & _). cbn. eauto.
Qed.

(** A token of one character. *)
Lemma scan_token_structural lx ws c tok s :
  at_input lx (ws ++ c :: s) → Forall (λ c, is_blank c = true) ws →
  (c, tok) ∈ [("["%char, begin_array); ("]"%char, end_array); ("{"%char, begin_object);
              ("}"%char, end_object); (":"%char, name_separator); (","%char, value_separator)] →
  ∃ lx', scan_token lx = Ret (tok, lx') ∧ has_read lx' c s.
Proof.
  intros Hat Hws Hin.
  assert (is_blank c = false) as Hb.
  { repeat (apply elem_of_cons in Hin as [[= -> ->]|Hin]; [done|]). by apply elem_of_nil in Hin. }
  destruct (scan_token_ok lx ws c s Hat Hws Hb) as (lx' & -> & H). exists lx'. split; [|done].
  unfold scan_switch. rewrite !(has_read_is _ _ _ _ H).
  repeat (apply elem_of_cons in Hin as [[= -> ->]|Hin]; [done|]). by apply elem_of_nil in Hin.
Qed.

Lemma scan_structural lx ws c tok s :
  at_input lx (ws ++ c :: s) → Forall (λ c, is_blank c = true) ws → 0 < chars_read_total lx →
  (c, tok) ∈ [("["%char, begin_array); ("]"%char, end_array); ("{"%char, begin_object);
              ("}"%char, end_object); (":"%char, name_separator); (","%char, value_separator)] →
  ∃ lx', scan lx = Ret (tok, lx') ∧ has_read lx' c s.
Proof. intros. rewrite scan_started by done. by apply scan_token_structural with ws. Qed.

(** A literal. *)
Lemma literal_rest_ok l ty lx s :
  at_input lx (l ++ s) → l ≠ [] →
  ∃ lx' c, literal_rest l ty lx = (ty, lx') ∧ has_read lx' c s.
Proof.
  revert lx. induction l as [|c l IH]; intros lx Hat Hne; [done|].
  pose proof (get_read _ _ _ Hat) as Hg. cbn [literal_rest]. destruct (Hg) as (Hc & _).
  rewrite Hc, char_of_uchar, bool_decide_true by done.
  destruct l as [|d l]; [by eexists _, _|]. apply IH; [by eapply has_read_at|done].
Qed.

Lemma scan_literal_ok lx ws l ty s :
  at_input lx (ws ++ l ++ s) → Forall (λ c, is_blank c = true) ws →
  (l, ty) ∈ [(bs "true", literal_true); (bs "false", literal_false); (bs "null", literal_null)] →
  ∃ lx' c, scan_token lx = Ret (ty, lx') ∧ has_read lx' c s.
Proof.
  intros Hat Hws Hin.
  assert (∀ c k, l = c :: k → k ≠ [] → is_blank c = false →
    (∀ lx', has_read lx' c (k ++ s) →
      scan_switch lx' = (_ ← cpp_assert (bool_decide (Some c = Some (char_of (current lx'))));
                         Ret (literal_rest k ty lx'))) →
    ∃ lx' c, scan_token lx = Ret (ty, lx') ∧ has_read lx' c s) as H.
  { intros c k -> Hk Hc Hsw. destruct (scan_token_ok lx ws c (k ++ s) Hat Hws Hc) as (lx1 & -> & H1).
    rewrite Hsw by done. destruct (H1) as (Hcur & _).
    rewrite Hcur, char_of_uchar, bool_decide_true by done. cbn [cpp_assert mbind outcome_bind].
    destruct (literal_rest_ok k ty lx1 s) as (lx' & d & -> & H'); [by eapply has_read_at|done|].
    by eexists _, _. }
  repeat (apply elem_of_cons in Hin as [[= -> ->]|Hin];
    [eapply H; [done|done|done|]; intros lx' H'; unfold scan_switch;
     by rewrite !(has_read_is _ _ _ _ H')|]).
  by apply elem_of_nil in Hin.
Qed.

(** A quoted string. *)
Lemma scan_quoted lx ws str s :
  at_input lx (ws ++ quoted str ++ s) → Forall (λ c, is_blank c = true) ws →
  utf8_ok str = true →
  ∃ lx', scan_token lx = Ret (value_string, lx') ∧ has_read lx' DQ s ∧ token_buffer lx' = str.
Proof.
  intros Hat Hws Hok. unfold quoted in Hat.
  cbn [app] in Hat. rewrite <-app_assoc in Hat.
  destruct (scan_token_ok lx ws DQ _ Hat Hws) as (lx1 & -> & H1); [done|].
  unfold scan_switch. rewrite !(has_read_is _ _ _ _ H1).
  by apply (scan_string_ok str lx1 s).
Qed.

(** ** Numbers *)

(** What may follow a number. *)
Definition stops (s : bytes) : Prop :=
  ∀ c, head s = Some c → is_digit_char c = false ∧ c ∉ ["."; "e"; "E"]%char.

Lemma has_read_digit lx c s : has_read lx c s → is_digit lx = is_digit_char c.
Proof. intros (Hc & _). unfold is_digit. by rewrite Hc. Qed.

(** The scanner at the end of a number, where it ungets what stopped it. *)
Lemma stop_spec lx s :
  at_input lx s → stops s → 
  is_digit (get lx) = false ∧ cur_is (get lx) "." = false ∧
  (cur_is (get lx) "e" || cur_is (get lx) "E") = false ∧
  (0 < chars_read_total lx → at_input (unget (get lx)) s).
Proof.
  intros Hat Hs. destruct s as [|c s].
  - destruct (get_eof lx Hat) as (Hc & Hi & _). unfold is_digit, cur_is. rewrite Hc.
    split_and!; [done..|]. intros. apply unget_eof; [done|done|]. rewrite get_total. lia.
  - pose proof (get_read _ _ _ Hat) as Hg. destruct (Hs c eq_refl) as [Hd Hne].
    rewrite !(has_read_is _ _ _ _ Hg), (has_read_digit _ _ _ Hg).
    rewrite !not_elem_of_cons in Hne. destruct Hne as (? & ? & ? & _).
    split_and!; [done|by apply bool_decide_false| |].
    + by rewrite !bool_decide_false by done.
    + intros. apply unget_at; [done|]. rewrite get_total. lia.
Qed.

Lemma scan_digits ds : ∀ fuel lx ty s,
  at_input lx (ds ++ s) → Forall (λ c, is_digit_char c = true) ds → stops s →
  0 < chars_read_total lx → (length ds < fuel)%nat →
  ∃ lx', scan_number_loop fuel scan_number_any1 ty lx = Ret (convert_number ty lx') ∧
    at_input (unget lx') s ∧ token_buffer lx' = token_buffer lx ++ ds ∧
    0 < chars_read_total (unget lx').
Proof.
  induction ds as [|d ds IH]; intros [|fuel] lx ty s Hat Hds Hs Ht Hf; try (cbn in Hf; lia);
    cbn [scan_number_loop]; unfold number_step.
  - destruct (stop_spec lx s Hat Hs) as (-> & -> & -> & Hu). exists (get lx).
    rewrite get_buffer, app_nil_r. split_and!; [done|by apply Hu|done|].
    cbn [unget chars_read_total]. rewrite get_total. lia.
  - apply Forall_cons in Hds as [Hd Hds]. pose proof (get_read lx d (ds ++ s) Hat) as Hg.
    rewrite (has_read_digit _ _ _ Hg), Hd. destruct (Hg) as (-> & _ & _ & Htot).
    destruct (IH fuel (add (uchar d) (get lx)) ty s) as (lx' & -> & Hu & Hb & Ht');
      [by eapply at_input_buffer, has_read_at|done|done|done|cbn in Hf; lia|].
    exists lx'. split_and!; [done|done| |done].
    by rewrite Hb, add_buffer, char_of_uchar, get_buffer, <-app_assoc.
Qed.

Lemma at_input_values lx s u i f : at_input lx s → at_input (set_values u i f lx) s.
Proof. done. Qed.

(** The conversion of a numeral. *)
Definition number_value (tok : token_type) (lx : lexer) : Z :=
  match tok with value_unsigned => unsigned_value lx | _ => integer_value lx end.

(** The digits of [n], behind [sign]; the scan began at the first of them. *)
Lemma scan_natural fuel lx n s ty sign :
  has_read lx (hd NUL (utoa n)) (tl (utoa n) ++ s) → 0 <= n → stops s →
  (length (tl (utoa n)) < fuel)%nat → token_buffer lx = sign →
  ∃ lx', scan_number_loop fuel (if n =? 0 then scan_number_zero else scan_number_any1) ty
           (add (uchar (hd NUL (utoa n))) lx) = Ret (convert_number ty lx') ∧
    at_input (unget lx') s ∧ token_buffer lx' = sign ++ utoa n ∧
    0 < chars_read_total (unget lx').
Proof.
  intros Hrd Hn Hs Hf <-. destruct (Z.eq_dec n 0) as [->|Hne].
  - destruct fuel as [|fuel]; [cbn in Hf; lia|]. change (utoa 0) with (bs "0") in *.
    cbn [hd tl app] in *. cbn [Z.eqb scan_number_loop]. unfold number_step.
    set (lx0 := add _ lx). assert (has_read lx0 "0" s) as Hrd0 by done.
    pose proof (has_read_at _ _ _ Hrd0) as Hat.
    destruct (stop_spec lx0 s Hat Hs) as (_ & -> & -> & Hu). destruct (Hrd0) as (_ & _ & _ & Ht).
    exists (get lx0). split_and!; [done|by apply Hu|by rewrite get_buffer|].
    cbn [unget chars_read_total]. rewrite get_total. lia.
  - rewrite (proj2 (Z.eqb_neq _ _)) by done.
    pose proof (utoa_digits n Hn) as Hd. destruct (utoa n) as [|d ds] eqn:E; [by apply utoa_nonempty in E|].
    cbn [hd tl] in *. apply Forall_cons in Hd as [Hd Hds].
    destruct (scan_digits ds fuel (add (uchar d) lx) ty s) as (lx' & -> & Hu & Hb & Ht);
      [by eapply has_read_at|done|done|by destruct Hrd as (_ & _ & _ & ?)|done|].
    exists lx'. split_and!; [done|done| |done].
    by rewrite Hb, add_buffer, char_of_uchar, <-app_assoc.
Qed.

Lemma scan_switch_digit lx c s :
  has_read lx c s → is_digit_char c = true → scan_switch lx = scan_number lx.
Proof.
  intros H Hd. unfold scan_switch.
  rewrite !(has_read_is _ _ _ _ H), (has_read_digit _ _ _ H), Hd, orb_true_r.
  by repeat (rewrite bool_decide_false by (intros ->; discriminate Hd)).
Qed.

(** The first character of a natural number. *)
Lemma utoa_first n : 0 <= n →
  utoa n = hd NUL (utoa n) :: tl (utoa n) ∧ is_digit_char (hd NUL (utoa n)) = true ∧
  uchar (hd NUL (utoa n)) = (if n =? 0 then 48 else uchar (hd NUL (utoa n))) ∧
  ((n =? 0) = false → between 49 (uchar (hd NUL (utoa n))) 57 = true).
Proof.
  intros Hn. destruct (n =? 0) eqn:E; bool_hyps; [by subst n|].
  destruct (utoa_head n) as (d & ds & -> & Hd); [lia|]. cbn [hd tl].
  split_and!; [done|by apply is_digit_digit_char; lia|done|]. intros _.
  rewrite uchar_digit by lia. unfold between. lia.
Qed.

Lemma scan_unsigned lx ws n s :
  at_input lx (ws ++ itoa n ++ s) → Forall (λ c, is_blank c = true) ws →
  0 <= n < 2 ^ 64 → stops s →
  ∃ lx', scan_token lx = Ret (value_unsigned, lx') ∧ at_input lx' s ∧ 0 < chars_read_total lx' ∧
    unsigned_value lx' = n.
Proof.
  intros Hat Hws Hn Hs. unfold itoa in Hat.
  rewrite (proj2 (Z.ltb_ge n 0)) in Hat by lia.
  destruct (utoa_first n) as (Hu & Hd & Hz & Hnz); [lia|]. rewrite Hu in Hat. cbn [app] in Hat.
  destruct (scan_token_ok lx ws _ _ Hat Hws) as (lx1 & -> & H1).
  { unfold is_blank. apply bool_decide_eq_false. intros Hin.
    rewrite !elem_of_cons, elem_of_nil in Hin. revert Hd. by destruct Hin as [->|[->|[->|[->|[]]]]]. }
  rewrite (scan_switch_digit _ _ _ H1 Hd). unfold scan_number.
  change (current (reset lx1)) with (current lx1). destruct (H1) as (Hc & Hia & _ & _).
  destruct (scan_natural (S (length (ia (reset lx1)))) (reset lx1) n s value_unsigned [])
    as (lx' & Hl & Hat' & Hb & Ht'); [exact H1|lia|done| |done|].
  { change (ia (reset lx1)) with (ia lx1). rewrite Hia, length_app. lia. }
  exists (set_values n (integer_value (unget lx')) (float_value (unget lx')) (unget lx')).
  split_and!; [|by apply at_input_values|done|done].
  transitivity (Ret (convert_number value_unsigned lx')).
  - rewrite <-Hl, Hc. destruct (n =? 0) eqn:E.
    + by rewrite Hz.
    + specialize (Hnz eq_refl). unfold between in Hnz. bool_hyps.
      rewrite !(proj2 (Z.eqb_neq _ _)) by lia. unfold between.
      by rewrite !(proj2 (Z.leb_le _ _)) by lia.
  - unfold convert_number. change (token_buffer (unget lx')) with (token_buffer lx').
    rewrite Hb. cbn [app]. rewrite utoa_value by lia. by rewrite (proj2 (Z.ltb_lt _ _)) by lia.
Qed.

Lemma scan_negative lx ws n s :
  at_input lx (ws ++ itoa n ++ s) → Forall (λ c, is_blank c = true) ws →
  - 2 ^ 63 <= n < 0 → stops s →
  ∃ lx', scan_token lx = Ret (value_integer, lx') ∧ at_input lx' s ∧ 0 < chars_read_total lx' ∧
    integer_value lx' = n.
Proof.
  intros Hat Hws Hn Hs. unfold itoa in Hat.
  rewrite (proj2 (Z.ltb_lt n 0)) in Hat by lia. cbn [app] in Hat.
  destruct (scan_token_ok lx ws _ _ Hat Hws) as (lx1 & -> & H1); [done|].
  destruct (utoa_first (- n)) as (Hu & Hd & _ & Hnz); [lia|].
  assert (scan_switch lx1 = scan_number lx1) as ->.
  { unfold scan_switch. by rewrite !(has_read_is _ _ _ _ H1). }
  rewrite Hu in H1. cbn [app] in H1. unfold scan_number.
  change (current (reset lx1)) with (current lx1). destruct (H1) as (Hc & Hia & _ & _).
  rewrite Hc. change (uchar "-" =? 45) with true. cbn [scan_number_loop]. unfold number_step.
  set (lx2 := add (uchar "-") (reset lx1)).
  pose proof (has_read_at _ _ _ (H1 : has_read lx2 _ _)) as Hat2.
  pose proof (get_read _ _ _ Hat2) as Hg. destruct (Hg) as (Hc2 & _). rewrite Hc2.
  assert ((- n =? 0) = false) as Hn0 by lia. specialize (Hnz Hn0).
  rewrite (proj2 (Z.eqb_neq _ 48)), Hnz by (unfold between in Hnz; bool_hyps; lia).
  destruct (scan_natural (length (ia (reset lx1))) (get lx2) (- n) s value_integer (bs "-"))
    as (lx' & Hl & Hat' & Hb & Ht'); [exact Hg|lia|done| |by rewrite get_buffer|].
  { change (ia (reset lx1)) with (ia lx1). rewrite Hia. cbn [length]. rewrite length_app. lia. }
  rewrite Hn0 in Hl. rewrite Hl.
  exists (set_values (unsigned_value (unget lx')) n (float_value (unget lx')) (unget lx')).
  split_and!; [|by apply at_input_values|done|done].
  unfold convert_number. change (token_buffer (unget lx')) with (token_buffer lx').
  rewrite Hb. change (drop 1 (bs "-" ++ utoa (- n))) with (utoa (- n)). rewrite utoa_value by lia.
  rewrite (proj2 (Z.leb_le _ _)) by lia. by rewrite Z.opp_involutive.
Qed.

(** * Round trip *)

(** The numbers of a value are in the form the parser gives them: no negative
    number in the unsigned form, no other in the signed one, and a [double] only
    where [float_plain] says so. *)
Fixpoint plain_with (float_plain : spec_float → bool) (j : json) : bool :=
  match j with
  | JInt z => z <? 0
  | JFloat f => float_plain f
  | JBinary _ _ => false
  | JArray l => forallb (plain_with float_plain) l
  | JObject l => forallb (λ kv, plain_with float_plain kv.2) l
  | _ => true
  end.

(** Without any [double]. *)
Definition json_plain : json → bool := plain_with (λ _, false).

(** What the parser relies on of the characters of a [double]: the scanner reads
    them as that [double]. *)
Record float_text (dump_float : spec_float → bytes) (float_plain : spec_float → bool) : Prop := {
  float_finite f : float_plain f = true → isfinite f = true;
  float_first f : float_plain f = true → ∃ c k, dump_float f = c :: k ∧ uchar c < 128;
  float_scan f lx ws s : float_plain f = true → Forall (λ c, is_blank c = true) ws → stops s →
    at_input lx (ws ++ dump_float f ++ s) →
    ∃ lx', scan_token lx = Ret (value_float, lx') ∧ at_input lx' s ∧ 0 < chars_read_total lx' ∧
      float_value lx' = f }.

Lemma no_float_text dump_float : float_text dump_float (λ _, false).
Proof. by split. Qed.

(** The rounds of the loop a value takes. *)
Fixpoint rounds (j : json) : nat :=
  match j with
  | JArray ((_ :: _) as l) => S (S (foldr (λ x n, rounds x + n)%nat 0%nat l))
  | JObject ((_ :: _) as l) => S (S (foldr (λ kv n, rounds kv.2 + n)%nat 0%nat l))
  | _ => 1
  end.

Section roundtrip.
Context (dump_float : spec_float → bytes) (pretty_print : bool) (indent_step : Z).
Context (float_plain : spec_float → bool) (Hfloat : float_text dump_float float_plain).
Local Abbreviation plain := (plain_with float_plain).

Lemma newline_blank n : Forall (λ c, is_blank c = true) (newline pretty_print n).
Proof.
  unfold newline. destruct pretty_print; [|constructor]. constructor; [done|].
  by apply Forall_replicate.
Qed.

(** The lexer between two tokens. *)
Definition between_tokens (lx : lexer) (s : bytes) : Prop :=
  at_input lx s ∧ 0 < chars_read_total lx.

Lemma has_read_between lx c s : has_read lx c s → between_tokens lx s.
Proof. intros H. split; [by eapply has_read_at|]. by destruct H as (_ & _ & _ & ?). Qed.

(** With the text of [j] to read, the loop gets to the point where [j] has been
    handled and [s] is left. *)
Definition parses (j : json) : Prop := ∀ cur ws lx s stack root fuel,
  json_wf j → json_utf8 j = true → plain j = true →
  Forall (λ c, is_blank c = true) ws → stops s →
  at_input lx (ws ++ text dump_float pretty_print indent_step j cur ++ s) →
  ∃ tok lx1 lx', scan_token lx = Ret (tok, lx1) ∧ tok ≠ end_array ∧ between_tokens lx' s ∧
    sax_parse_internal (rounds j + fuel) false (tok, lx1, stack, root) =
    let '(stack, root) := handle_value j stack root in
    state_evaluation (sax_parse_internal fuel) lx' stack root.

(** A value of one token. *)
Lemma parses_token j tok lx lx' s stack root fuel :
  scan_token lx = Ret (tok, lx') → tok ≠ end_array → between_tokens lx' s → rounds j = 1%nat →
  (∀ loop, parse_value loop (tok, lx', stack, root) =
     let '(stack, root) := handle_value j stack root in state_evaluation loop lx' stack root) →
  ∃ tok lx1 lx', scan_token lx = Ret (tok, lx1) ∧ tok ≠ end_array ∧ between_tokens lx' s ∧
    sax_parse_internal (rounds j + fuel) false (tok, lx1, stack, root) =
    let '(stack, root) := handle_value j stack root in
    state_evaluation (sax_parse_internal fuel) lx' stack root.
Proof.
  intros Hs Htok Hat Hr Hp. exists tok, lx', lx'. split_and!; [done..|]. rewrite Hr. apply Hp.
Qed.

(** What separates and closes never continues a number. *)
Lemma stops_cons c s : is_digit_char c = false → c ∉ ["."; "e"; "E"]%char → stops (c :: s).
Proof. intros ? ? d [= <-]. done. Qed.

Lemma stops_newline n c s :
  is_digit_char c = false → c ∉ ["."; "e"; "E"]%char → stops (newline pretty_print n ++ c :: s).
Proof. unfold newline. destruct pretty_print; intros; apply stops_cons; done || by_decide. Qed.

Lemma parses_scalar j :
  match j with JArray (_ :: _) | JObject (_ :: _) => False | _ => True end → parses j.
Proof.
  intros Hj cur ws lx s stack root fuel Hwf Hu Hp Hws Hs Hat.
  destruct j as [ |b|z|z|f|str|? ?|[|? ?]|[|? ?]]; try done; cbn [text json_wf json_utf8 plain_with] in *.
  - destruct (scan_literal_ok lx ws _ literal_null s Hat Hws) as (lx' & c & Hsc & H); [by_decide|].
    eapply parses_token; [done|done|by eapply has_read_between|done|done].
  - destruct (scan_literal_ok lx ws (if b then bs "true" else bs "false")
      (if b then literal_true else literal_false) s) as (lx' & c & Hsc & H);
      [by destruct b|done|destruct b; by_decide|].
    eapply parses_token; [done|by destruct b|by eapply has_read_between|done|by destruct b].
  - destruct (scan_negative lx ws z s Hat Hws) as (lx' & Hsc & H & Ht' & <-); [lia|done|].
    by eapply parses_token.
  - destruct (scan_unsigned lx ws z s Hat Hws) as (lx' & Hsc & H & Ht' & <-); [done|done|].
    by eapply parses_token.
  - pose proof (float_finite _ _ Hfloat f Hp) as Hfin.
    destruct (float_scan _ _ Hfloat f lx ws s Hp Hws Hs) as (lx' & Hsc & H & Ht' & <-); [by destruct f|].
    eapply parses_token; [done|done|done|done|]. intros loop. cbn [parse_value]. by rewrite Hfin.
  - destruct (scan_quoted lx ws str s Hat Hws Hu) as (lx' & Hsc & H & <-).
    by eapply parses_token; [| |eapply has_read_between| |].
  - destruct (scan_token_structural lx ws "[" begin_array ("]"%char :: s) Hat Hws) as (lx1 & Hsc & H); [by_decide|].
    apply has_read_between in H as [Hat1 Ht1].
    destruct (scan_structural lx1 [] "]" end_array s Hat1 (Forall_nil_2 _) Ht1) as (lx2 & Hsc2 & H2); [by_decide|].
    eexists _, lx1, lx2. split_and!; [done|done|by eapply has_read_between|].
    cbn. by rewrite Hsc2.
  - destruct (scan_token_structural lx ws "{" begin_object ("}"%char :: s) Hat Hws) as (lx1 & Hsc & H); [by_decide|].
    apply has_read_between in H as [Hat1 Ht1].
    destruct (scan_structural lx1 [] "}" end_object s Hat1 (Forall_nil_2 _) Ht1) as (lx2 & Hsc2 & H2); [by_decide|].
    eexists _, lx1, lx2. split_and!; [done|done|by eapply has_read_between|].
    cbn. by rewrite Hsc2.
Qed.

(** The elements of an array, from the first one to the closing bracket. *)
Lemma parses_elements l : ∀ l0 inner cur ws lx s stack root fuel,
  l ≠ [] → Forall parses l → Forall json_wf l → forallb json_utf8 l = true →
  forallb plain l = true → Forall (λ c, is_blank c = true) ws →
  between_tokens lx (ws ++
    joined (λ x, text dump_float pretty_print indent_step x inner)
      (bs "," ++ newline pretty_print inner) l ++ newline pretty_print cur ++ "]"%char :: s) →
  ∃ tok lx1 lx', scan lx = Ret (tok, lx1) ∧ tok ≠ end_array ∧ between_tokens lx' s ∧
    sax_parse_internal (foldr (λ x n, rounds x + n)%nat 0%nat l + S fuel) false
      (tok, lx1, Array_frame l0 :: stack, root) =
    let '(stack, root) := handle_value (JArray (l0 ++ l)) stack root in
    state_evaluation (sax_parse_internal fuel) lx' stack root.
Proof.
  induction l as [|x l IH]; intros l0 inner cur ws lx s stack root fuel Hne HP Hwf Hu Hpl Hws Hat;
    [done|]. apply Forall_cons in HP as [Hx HP], Hwf as [Hxw Hwf]. cbn [forallb] in Hu, Hpl.
  apply andb_true_iff in Hu as [Hxu Hu], Hpl as [Hxp Hpl].
  destruct l as [|y l].
  - cbn [joined foldr] in *. rewrite Nat.add_0_r.
    destruct (Hx inner ws lx (newline pretty_print cur ++ "]"%char :: s) (Array_frame l0 :: stack)
      root (S fuel)) as (tok & lx1 & lx2 & Hsc & Htok & [Hat2 Ht2] & Heq);
      [done..|apply stops_newline; [done|by_decide]|apply Hat|].
    rewrite <-scan_started in Hsc by apply Hat.
    destruct (scan_structural lx2 _ "]" end_array s Hat2 (newline_blank cur) Ht2)
      as (lx3 & Hsc3 & H3); [by_decide|].
    exists tok, lx1, lx3. split_and!; [done|done|by eapply has_read_between|].
    rewrite Heq. cbn. rewrite Hsc3. done.
  - set (rest := y :: l) in *.
    change (joined (λ x, text dump_float pretty_print indent_step x inner)
      (bs "," ++ newline pretty_print inner) (x :: rest)) with
      (text dump_float pretty_print indent_step x inner ++ (bs "," ++ newline pretty_print inner) ++
       joined (λ x, text dump_float pretty_print indent_step x inner)
         (bs "," ++ newline pretty_print inner) rest) in Hat.
    rewrite <-!app_assoc in Hat. cbn [foldr]. rewrite <-Nat.add_assoc.
    set (n := (foldr _ _ rest + S fuel)%nat).
    destruct (λ H, Hx inner ws lx _ (Array_frame l0 :: stack) root n Hxw Hxu Hxp Hws H (proj1 Hat))
      as (tok & lx1 & lx2 & Hsc & Htok & [Hat2 Ht2] & Heq); [by apply (stops_cons ","); [|by_decide]|].
    rewrite <-scan_started in Hsc by apply Hat.
    destruct (scan_structural lx2 [] "," value_separator _ Hat2 (Forall_nil_2 _) Ht2)
      as (lx3 & Hsc3 & H3); [by_decide|]. apply has_read_between in H3.
    destruct (IH (l0 ++ [x]) inner cur (newline pretty_print inner) lx3 s stack root fuel)
      as (tok4 & lx4 & lx' & Hsc4 & _ & Hat' & Heq'); [done..|apply newline_blank|done|].
    exists tok, lx1, lx'. split_and!; [done..|]. rewrite Heq.
    cbn [handle_value state_evaluation]. rewrite Hsc3. cbn [mbind outcome_bind].
    rewrite bool_decide_true by done. rewrite Hsc4. cbn [mbind outcome_bind].
    unfold n. by rewrite Heq', <-app_assoc.
Qed.

Lemma parses_array x l : Forall parses (x :: l) → parses (JArray (x :: l)).
Proof.
  intros HP cur ws lx s stack root fuel Hwf Hu Hpl Hws Hs Hat.
  cbn [text json_wf json_utf8 plain_with rounds] in *. rewrite <-!app_assoc in Hat.
  apply (foldr_and_Forall json_wf (x :: l)) in Hwf.
  destruct (scan_token_structural lx ws "[" begin_array _ Hat Hws) as (lx1 & Hsc & H1); [by_decide|].
  apply has_read_between in H1.
  destruct (parses_elements (x :: l) [] _ cur _ lx1 s stack root fuel ltac:(done) HP Hwf Hu Hpl
    (newline_blank _) H1) as (tok & lx2 & lx' & Hsc2 & Htok & Hat' & Heq).
  exists begin_array, lx1, lx'. split_and!; [done|done|done|].
  set (n := foldr _ _ (x :: l)) in *. replace (S (S n) + fuel)%nat with (S (n + S fuel)) by lia.
  cbn [sax_parse_internal parse_value]. rewrite Hsc2. cbn [mbind outcome_bind].
  rewrite bool_decide_false by done. exact Heq.
Qed.

(** The keys come in order, so each member is the new last one. *)
Lemma member_appended k v (l0 l : list (bytes * json)) :
  in_order (l0 ++ (k, v) :: l) →
  member_set k v (member_emplace k JNull l0) = l0 ++ [(k, v)].
Proof.
  intros Ho. assert (Forall (λ p, bytes_lt p.1 k) l0) as Hlt.
  { apply Forall_forall. intros p Hp. apply (in_order_app_elem _ _ p (k, v) Ho Hp). by left. }
  unfold member_emplace. rewrite member_get_notin.
  2: { intros (p & -> & Hp)%list_elem_of_fmap. rewrite Forall_forall in Hlt.
       by apply Hlt, bytes_lt_irrefl in Hp. }
  rewrite (member_set_last k JNull l0 Hlt). clear Ho. induction Hlt as [|[k' v'] l0 Hk Hlt IH]; cbn in *.
  - by rewrite bytes_cmp_refl.
  - rewrite bytes_cmp_antisym, Hk. cbn. by rewrite IH.
Qed.

(** One member: the key, the separator and the value. *)
Lemma parses_member k v inner l0 l ws lx s stack root fuel :
  parses v → json_wf v → json_utf8 v = true → plain v = true → utf8_ok k = true →
  in_order (l0 ++ (k, v) :: l) → Forall (λ c, is_blank c = true) ws → stops s →
  between_tokens lx (ws ++ (key_text pretty_print k ++
    text dump_float pretty_print indent_step v inner) ++ s) →
  ∃ lx1 top tok lx2 lx', scan lx = Ret (value_string, lx1) ∧
    parse_key value_string lx1 l0 = Ret (top, tok, lx2) ∧ between_tokens lx' s ∧
    sax_parse_internal (rounds v + fuel) false (tok, lx2, top :: stack, root) =
    state_evaluation (sax_parse_internal fuel) lx' (Object_frame (l0 ++ [(k, v)]) k :: stack) root.
Proof.
  intros Hv Hwf Hu Hp Hk Ho Hws Hs [Hat Ht]. unfold key_text in Hat. rewrite <-!app_assoc in Hat.
  destruct (scan_quoted lx ws k _ Hat Hws Hk) as (lx1 & Hsc1 & H1 & Hb).
  rewrite <-scan_started in Hsc1 by done.
  apply has_read_between in H1 as [Hat1 Ht1].
  set (sp := if pretty_print then [SP] else []).
  assert (Forall (λ c, is_blank c = true) sp) as Hsp by (unfold sp; destruct pretty_print; repeat constructor).
  replace (if pretty_print then bs ": " else bs ":") with (":"%char :: sp) in Hat1
    by (unfold sp; by destruct pretty_print).
  destruct (scan_structural lx1 [] ":" name_separator _ Hat1 (Forall_nil_2 _) Ht1)
    as (lx2 & Hsc2 & H2); [by_decide|]. apply has_read_between in H2.
  destruct (Hv inner sp lx2 s (object_key k l0 :: stack) root fuel Hwf Hu Hp Hsp Hs (proj1 H2))
    as (tok & lx3 & lx' & Hsc3 & _ & Hat' & Heq).
  rewrite <-scan_started in Hsc3 by apply H2.
  exists lx1, (object_key k l0), tok, lx3, lx'. split_and!; [done| |done|].
  - unfold parse_key. rewrite bool_decide_false, Hsc2 by naive_solver. cbn [mbind outcome_bind].
    rewrite bool_decide_false, Hsc3 by naive_solver. cbn [mbind outcome_bind]. by rewrite Hb.
  - rewrite Heq. cbn [handle_value object_key]. by rewrite (member_appended k v l0 l Ho).
Qed.

Lemma parses_members l : ∀ l0 inner cur ws lx s stack root fuel,
  l ≠ [] → Forall (λ kv, parses kv.2) l → Forall (λ kv, json_wf kv.2) l → in_order (l0 ++ l) →
  forallb (λ kv, utf8_ok kv.1 && json_utf8 kv.2) l = true →
  forallb (λ kv, plain kv.2) l = true → Forall (λ c, is_blank c = true) ws →
  between_tokens lx (ws ++
    joined (λ kv, key_text pretty_print kv.1 ++ text dump_float pretty_print indent_step kv.2 inner)
      (bs "," ++ newline pretty_print inner) l ++ newline pretty_print cur ++ "}"%char :: s) →
  ∃ lx1 top tok lx2 lx', scan lx = Ret (value_string, lx1) ∧
    parse_key value_string lx1 l0 = Ret (top, tok, lx2) ∧ between_tokens lx' s ∧
    sax_parse_internal (foldr (λ kv n, rounds kv.2 + n)%nat 0%nat l + S fuel) false
      (tok, lx2, top :: stack, root) =
    let '(stack, root) := handle_value (JObject (l0 ++ l)) stack root in
    state_evaluation (sax_parse_internal fuel) lx' stack root.
Proof.
  induction l as [|[k v] l IH]; intros l0 inner cur ws lx s stack root fuel Hne HP Hwf Ho Hu Hpl Hws Hat;
    [done|]. apply Forall_cons in HP as [Hv HP], Hwf as [Hvw Hwf]. cbn [forallb fst snd] in Hu, Hpl, Hv, Hvw.
  rewrite !andb_true_iff in Hu. destruct Hu as [[Hk Hvu] Hu]. apply andb_true_iff in Hpl as [Hvp Hpl].
  destruct l as [|y l].
  - cbn [joined foldr fst snd] in *. rewrite Nat.add_0_r.
    destruct (λ H, parses_member k v inner l0 [] ws lx _ stack root (S fuel) Hv Hvw Hvu Hvp Hk Ho Hws H Hat)
      as (lx1 & top & tok & lx2 & lx3 & Hsc & Hkey & [Hat3 Ht3] & Heq);
      [apply stops_newline; [done|by_decide]|].
    destruct (scan_structural lx3 _ "}" end_object s Hat3 (newline_blank cur) Ht3)
      as (lx4 & Hsc4 & H4); [by_decide|].
    exists lx1, top, tok, lx2, lx4. split_and!; [done|done|by eapply has_read_between|].
    rewrite Heq. cbn [state_evaluation]. rewrite Hsc4. done.
  - set (rest := y :: l) in *.
    change (joined (λ kv, key_text pretty_print kv.1 ++ text dump_float pretty_print indent_step kv.2 inner)
      (bs "," ++ newline pretty_print inner) ((k, v) :: rest)) with
      ((key_text pretty_print k ++ text dump_float pretty_print indent_step v inner) ++
       (bs "," ++ newline pretty_print inner) ++
       joined (λ kv, key_text pretty_print kv.1 ++ text dump_float pretty_print indent_step kv.2 inner)
         (bs "," ++ newline pretty_print inner) rest) in Hat.
    rewrite <-app_assoc, <-(app_assoc (bs "," ++ newline pretty_print inner)),
      <-(app_assoc (bs ",")) in Hat. cbn [foldr snd]. rewrite <-Nat.add_assoc.
    set (n := (foldr _ _ rest + S fuel)%nat).
    destruct (λ H, parses_member k v inner l0 rest ws lx _ stack root n Hv Hvw Hvu Hvp Hk Ho Hws H Hat)
      as (lx1 & top & tok & lx2 & lx3 & Hsc & Hkey & [Hat3 Ht3] & Heq);
      [by apply (stops_cons ","); [|by_decide]|].
    destruct (scan_structural lx3 [] "," value_separator _ Hat3 (Forall_nil_2 _) Ht3)
      as (lx4 & Hsc4 & H4); [by_decide|]. apply has_read_between in H4.
    destruct (IH (l0 ++ [(k, v)]) inner cur (newline pretty_print inner) lx4 s stack root fuel)
      as (lx5 & top5 & tok5 & lx6 & lx' & Hsc5 & Hkey5 & Hat' & Heq');
      [done|done|done|by rewrite <-app_assoc|done|done|apply newline_blank|done|].
    exists lx1, top, tok, lx2, lx'. split_and!; [done..|]. rewrite Heq.
    cbn [state_evaluation]. rewrite Hsc4. cbn [mbind outcome_bind].
    rewrite bool_decide_true by done. rewrite Hsc5. cbn [mbind outcome_bind].
    rewrite Hkey5. cbn [mbind outcome_bind]. unfold n. by rewrite Heq', <-app_assoc.
Qed.

Lemma parses_object kv l : Forall (λ kv, parses kv.2) (kv :: l) → parses (JObject (kv :: l)).
Proof.
  intros HP cur ws lx s stack root fuel [Ho Hwf] Hu Hpl Hws Hs Hat.
  cbn [text json_utf8 plain_with rounds] in *. rewrite <-!app_assoc in Hat.
  apply (foldr_and_Forall (λ kv, json_wf kv.2) (kv :: l)) in Hwf.
  destruct (scan_token_structural lx ws "{" begin_object _ Hat Hws) as (lx1 & Hsc & H1); [by_decide|].
  apply has_read_between in H1.
  destruct (parses_members (kv :: l) [] _ cur _ lx1 s stack root fuel ltac:(done) HP Hwf Ho Hu Hpl
    (newline_blank _) H1) as (lx2 & top & tok & lx3 & lx' & Hsc2 & Hkey & Hat' & Heq).
  exists begin_object, lx1, lx'. split_and!; [done|done|done|].
  set (n := foldr _ _ (kv :: l)) in *. replace (S (S n) + fuel)%nat with (S (n + S fuel)) by lia.
  cbn [sax_parse_internal parse_value]. rewrite Hsc2. cbn [mbind outcome_bind].
  rewrite bool_decide_false, Hkey by done. cbn [mbind outcome_bind]. exact Heq.
Qed.

Lemma parses_all j : parses j.
Proof.
  induction j as [ |b|z|z|f|str|str st|l IH|l IH] using json_ind'; try by apply parses_scalar.
  - destruct l; [by apply parses_scalar|by apply parses_array].
  - destruct l; [by apply parses_scalar|by apply parses_object].
Qed.

(** The first character of a text is in ASCII. *)
Lemma text_first j cur :
  plain j = true → ∃ c k, text dump_float pretty_print indent_step j cur = c :: k ∧ uchar c < 128.
Proof.
  intros Hp. destruct j as [ |[]|z|z|f|str|str st|[|? ?]|[|? ?]]; try done; try (by eexists _, _).
  3: { pose proof (float_finite _ _ Hfloat f Hp). destruct (float_first _ _ Hfloat f Hp) as (c & k & Hf & Hc).
       exists c, k. by destruct f. }
  all: cbn [text]; unfold itoa; destruct (z <? 0) eqn:E; bool_hyps; [by eexists _, _|];
    destruct (utoa_first z) as (Hz & Hd & _); [lia|]; eexists _, _; split; [exact Hz|];
    unfold is_digit_char in Hd; apply andb_true_iff in Hd as [_ Hd]; lia.
Qed.

Lemma length_joined {A} (f : A → bytes) sep (r : A → nat) l :
  Forall (λ x, r x <= length (f x))%nat l →
  (foldr (λ x n, r x + n) 0 l <= length (joined f sep l))%nat.
Proof.
  induction 1 as [|x [|y l] Hx Hl IH]; [done|cbn; lia|].
  change (joined f sep (x :: y :: l)) with (f x ++ sep ++ joined f sep (y :: l)).
  change (foldr (λ x n, r x + n) 0 (x :: y :: l))%nat
    with (r x + foldr (λ x n, r x + n) 0 (y :: l))%nat.
  rewrite !length_app. lia.
Qed.

(** A value takes no more rounds than its text has characters. *)
Lemma rounds_length j : ∀ cur, plain j = true →
  (rounds j <= length (text dump_float pretty_print indent_step j cur))%nat.
Proof.
  assert (∀ j cur, plain j = true →
    (1 <= length (text dump_float pretty_print indent_step j cur))%nat) as H1.
  { intros j' cur Hp. destruct (text_first j' cur Hp) as (c & k & -> & _). cbn. lia. }
  induction j as [ |b|z|z|f|str|str st|l IH|l IH] using json_ind'; intros cur Hp; try by apply H1.
  - destruct l as [|x l]; [by apply H1|]. cbn [rounds text plain_with] in *.
    rewrite !length_app, forallb_forall in *.
    change (length (bs "[")) with 1%nat. change (length (bs "]")) with 1%nat.
    match goal with |- context [joined ?f ?sep _] =>
      pose proof (length_joined f sep rounds (x :: l)) as Hj end.
    enough (Forall (λ y, (rounds y <= length (text dump_float pretty_print indent_step y
      (if pretty_print then cur + indent_step else cur)))%nat) (x :: l)) as Hl by (specialize (Hj Hl); lia).
    rewrite Forall_forall in *. intros y Hy. apply IH; [done|]. by apply Hp, list_elem_of_In.
  - destruct l as [|x l]; [by apply H1|]. cbn [rounds text plain_with] in *.
    rewrite !length_app, forallb_forall in *.
    change (length (bs "{")) with 1%nat. change (length (bs "}")) with 1%nat.
    match goal with |- context [joined ?f ?sep _] =>
      pose proof (length_joined f sep (λ kv, rounds kv.2) (x :: l)) as Hj end.
    enough (Forall (λ y, (rounds y.2 <= length (key_text pretty_print y.1 ++
      text dump_float pretty_print indent_step y.2
      (if pretty_print then cur + indent_step else cur)))%nat) (x :: l)) as Hl by (specialize (Hj Hl); lia).
    rewrite Forall_forall in *. intros y Hy. rewrite length_app.
    etransitivity; [apply (IH y Hy); by apply Hp, list_elem_of_In | apply Nat.le_add_l].
Qed.

(** The first token: no byte order mark is taken off. *)
Lemma scan_first c s : uchar c < 128 →
  ∃ lx, scan (make_lexer (c :: s)) = scan_token lx ∧ at_input lx (c :: s).
Proof.
  intros Hc. pose proof (get_read (make_lexer (c :: s)) c s) as Hg.
  assert (at_input (make_lexer (c :: s)) (c :: s)) as Hat by done. specialize (Hg Hat).
  exists (unget (get (make_lexer (c :: s)))). split; [|by apply unget_at].
  unfold scan. change (chars_read_total (make_lexer (c :: s)) =? 0) with true. unfold skip_bom.
  destruct (Hg) as (-> & _). by rewrite (proj2 (Z.eqb_neq _ 239)) by lia.
Qed.

(** The text of a value, and behind it nothing or a NUL, is that value. *)
Lemma json_parse_text j cur s :
  json_wf j → json_utf8 j = true → plain j = true → ends s →
  json_parse (text dump_float pretty_print indent_step j cur ++ s) = Ret j.
Proof.
  intros Hwf Hu Hp Hs. destruct (text_first j cur Hp) as (c & k & Ht & Hc).
  unfold json_parse. set (n := (length _ + 3)%nat).
  assert (∃ fuel, n = rounds j + fuel)%nat as [fuel ->].
  { exists (n - rounds j)%nat. pose proof (rounds_length j cur Hp). unfold n.
    rewrite length_app. lia. }
  rewrite Ht. cbn [app]. destruct (scan_first c (k ++ s) Hc) as (lx & -> & Hat).
  change (c :: k ++ s) with ([] ++ (c :: k) ++ s) in Hat. rewrite <-Ht in Hat.
  destruct (parses_all j cur [] lx s [] JNull fuel Hwf Hu Hp (Forall_nil_2 _)) as
    (tok & lx1 & lx' & -> & _ & [Hat' Ht'] & Heq); [|done|].
  { destruct Hs as [->|[k' ->]]; [by intros ?|]. by apply stops_cons; [|by_decide]. }
  cbn [mbind outcome_bind]. rewrite Heq. cbn [handle_value state_evaluation mbind outcome_bind].
  destruct (scan_end lx' s Hat' Hs Ht') as (lx2 & ->). done.
Qed.

End roundtrip.

(** What [dump] returns is parsed back, also behind the NUL that ends a C string. *)
Lemma json_dump_parse_with dump_float float_plain indent j s : float_text dump_float float_plain →
  json_wf j → plain_with float_plain j = true → indent_fits indent j → json_dump dump_float indent j = Ret s →
  json_parse s = Ret j ∧ json_parse (s ++ [NUL]) = Ret j.
Proof.
  intros Hf Hwf Hp Hi Hd. rewrite json_dump_text in Hd by done.
  destruct (json_utf8 j) eqn:Hu; [|done]. injection Hd as <-. unfold json_text.
  assert (∀ tail, ends tail → json_parse ((if 0 <=? indent then text dump_float true indent j 0
    else text dump_float false 0 j 0) ++ tail) = Ret j) as H.
  { intros tail Ht. destruct (0 <=? indent); by eapply json_parse_text. }
  split; [|by apply H; right; eexists]. rewrite <-(app_nil_r (if 0 <=? indent then _ else _)).
  apply H. by left.
Qed.

Lemma json_dump_parse dump_float indent j s :
  json_wf j → json_plain j = true → indent_fits indent j → json_dump dump_float indent j = Ret s →
  json_parse s = Ret j ∧ json_parse (s ++ [NUL]) = Ret j.
Proof. apply json_dump_parse_with, no_float_text. Qed.
