(* ===== verification/JsonDouble.v ===== *)
(** * Doubles in JSON texts

    The characters [to_chars] lays out for a [double] are a number of the JSON grammar; the lexer
    takes them as one token and [std::strtod] gives the [double] back. *)

From Stdlib Require Import SpecFloat.
From S2P Require Import Prelude StdString JsonValue JsonDump JsonParse JsonFloat FloatRound Grisu.
Import Serializer Parser.

Module JsonDouble.

(** A decimal number with a fraction or an exponent: the digits before the point, those
    behind it, the exponent with its sign. *)
Record decimal : Type := Decimal {
  whole : bytes;
  frac : bytes;
  expo : option (bool * bytes) }.

Definition frac_text (d : decimal) : bytes :=
  match frac d with [] => [] | _ => "."%char :: frac d end.
Definition expo_text (d : decimal) : bytes :=
  match expo d with
  | None => []
  | Some (neg, ds) => "e"%char :: (if neg : bool then "-"%char else "+"%char) :: ds
  end.
Definition decimal_text (d : decimal) : bytes := whole d ++ frac_text d ++ expo_text d.

(** The number is [mantissa * 10^exponent10]. *)
Definition mantissa (d : decimal) : Z := dec_value (whole d ++ frac d).
Definition exponent10 (d : decimal) : Z :=
  match expo d with
  | None => 0
  | Some (neg, ds) => if neg : bool then - dec_value ds else dec_value ds
  end - len (frac d).

Definition all_digits (l : bytes) : Prop := Forall (λ c, is_digit_char c = true) l.

Record decimal_ok (d : decimal) : Prop := {
  ok_whole : all_digits (whole d) ∧ whole d ≠ [] ∧ (head (whole d) = Some "0"%char → whole d = bs "0");
  ok_frac : all_digits (frac d);
  ok_expo : match expo d with None => frac d ≠ [] | Some (_, ds) => all_digits ds ∧ ds ≠ [] end }.

(** The characters of a finite [double]. *)
Definition double_text (f : spec_float) : bytes :=
  match Grisu.dump_float f with Ret t => t | _ => [] end.

(** A finite value of type [double]. *)
Definition finite_double (f : spec_float) : bool := isfinite f && valid_binary 53 1024 f.

End JsonDouble.
Import FloatRound Grisu JsonDouble.

(** * Lemmas *)

(** ** [strtod] *)

Lemma digits_stop ds r : all_digits ds → (∀ c, head r = Some c → is_digit_char c = false) →
  digits (ds ++ r) = (ds, r).
Proof.
  intros Hd Hr. apply digits_all; [done|]. destruct r as [|c r]; [by left|right]. exists c. auto.
Qed.

Definition strtod_value (neg : bool) (mant scale : Z) : spec_float :=
  match mant with
  | Z.pos m =>
      if 0 <=? scale
      then binary_normalize 53 1024 ((if neg then -1 else 1) * Z.pos m * 10 ^ scale) 0 neg
      else SFdiv 53 1024 (S754_finite neg m 0) (S754_finite false (Z.to_pos (10 ^ (- scale))) 0)
  | _ => S754_zero neg
  end.

Lemma strtod_decimal (neg : bool) d : decimal_ok d →
  strtod ((if neg then bs "-" else []) ++ decimal_text d) = strtod_value neg (mantissa d) (exponent10 d).
Proof.
  intros [(Hw & Hne & _) Hf He].
  unfold strtod. 
  assert (match (if neg then bs "-" else []) ++ decimal_text d with
    | [] => (false, [])
    | c :: s' => if bool_decide (c = "-"%char) then (true, s') else (false, (if neg then bs "-" else []) ++ decimal_text d)
    end = (neg, decimal_text d)) as Hsign.
  { destruct neg; [done|]. cbn [app]. unfold decimal_text. destruct (whole d) as [|c w]; [done|].
    cbn [app]. rewrite bool_decide_false; [done|]. intros ->. by apply Forall_cons in Hw as [? _]. }
  destruct ((if neg then bs "-" else []) ++ decimal_text d) as [|c s'] eqn:Ht.
  { injection Hsign as <- Hs. unfold decimal_text in Hs. by destruct (whole d). }
  rewrite Hsign. unfold decimal_text.
  assert (∀ c, head (frac_text d ++ expo_text d) = Some c → is_digit_char c = false) as Hh1.
  { unfold frac_text, expo_text. intros c0. by destruct (frac d), (expo d) as [[[] ?]|]; cbn; intros [= <-]. }
  rewrite (digits_stop _ _ Hw Hh1).
  assert (match frac_text d ++ expo_text d with
    | [] => ([], [])
    | c :: s' => if bool_decide (c = "."%char) then digits s' else ([], frac_text d ++ expo_text d)
    end = (frac d, expo_text d)) as Hfrac.
  { unfold frac_text. destruct (frac d) as [|c0 l] eqn:E.
    - cbn [app]. unfold expo_text. by destruct (expo d) as [[[] ?]|].
    - cbn [app]. rewrite bool_decide_true by done. change (c0 :: l ++ expo_text d) with ((c0 :: l) ++ expo_text d).
      apply digits_stop; [done|]. unfold expo_text. by destruct (expo d) as [[[] ?]|]; cbn; intros ? [= <-]. }
  rewrite Hfrac. fold (mantissa d). unfold strtod_value, exponent10.
  assert (match expo_text d with
    | [] => 0
    | c0 :: l => match l with
      | [] => 0
      | d0 :: l' => if bool_decide (d0 = "-"%char) then - dec_value (digits l').1
        else if bool_decide (d0 = "+"%char) then dec_value (digits l').1 else dec_value (digits l).1
      end
    end = match expo d with None => 0 | Some (n, ds) => if n : bool then - dec_value ds else dec_value ds end) as ->; [|done].
  unfold expo_text. destruct (expo d) as [[n ds]|]; [|done]. destruct He as [Hds _].
  pose proof (digits_stop ds [] Hds ltac:(done)) as Hd. rewrite app_nil_r in Hd. rewrite Hd. by destruct n.
Qed.

(** Whatever the text, it is a [double]. *)
Lemma strtod_valid s : valid_binary 53 1024 (strtod s) = true.
Proof.
  unfold strtod. repeat case_match; try done; try apply normalize_valid; try apply div_valid; done.
Qed.

(** A common factor. *)
Lemma inside_scale m ex N D c : 0 < c → inside m ex N D → inside m ex (N * c) (D * c).
Proof.
  intros Hc [Hl Hu]. unfold inside. rewrite !Z.mul_assoc.
  replace (N * c * 2 ^ bias) with (N * 2 ^ bias * c) by ring.
  split; [destruct (closer m ex)|]; by apply Z.mul_lt_mono_pos_r.
Qed.

Lemma strtod_value_inside neg M scale m ex : 0 < M → positive_ok (Z.pos m) ex →
  inside (Z.pos m) ex (M * 10 ^ Z.max scale 0) (10 ^ Z.max (- scale) 0) →
  strtod_value neg M scale = S754_finite neg m ex.
Proof.
  intros HM Hok Hin. unfold strtod_value. destruct M as [|M|M]; [lia| |lia].
  destruct (Z.leb_spec 0 scale) as [Hs|Hs].
  - rewrite (Z.max_l scale), (Z.max_r (- scale)) in Hin by lia.
    assert (0 < Z.pos M * 10 ^ scale) by (apply Z.mul_pos_pos; [lia|apply Z.pow_pos_nonneg; lia]).
    rewrite <-(normalize_inside neg (Z.pos M * 10 ^ scale) m ex) by done.
    f_equal. by destruct neg; cbn [cond_Zopp]; lia.
  - rewrite (Z.max_r scale), (Z.max_l (- scale)), Z.mul_1_r in Hin by lia.
    apply div_inside; [done|]. by rewrite Z2Pos.id by (apply Z.pow_pos_nonneg; lia).
Qed.

(** ** The layout *)

Lemma all_digits_zeros n : all_digits (replicate n "0"%char).
Proof. by apply Forall_replicate. Qed.

Lemma dec_value_zeros l n : dec_value (l ++ replicate n "0"%char) = dec_value l * 10 ^ Z.of_nat n.
Proof.
  induction n as [|n IH]; [by rewrite app_nil_r, Z.mul_1_r|].
  rewrite replicate_S_end, app_assoc. change "0"%char with (digit_char 0) at 2.
  rewrite dec_value_snoc, IH, Nat2Z.inj_succ, Z.pow_succ_r by lia. lia.
Qed.

Lemma dec_value_leading n l : dec_value (replicate n "0"%char ++ l) = dec_value l.
Proof. unfold dec_value. induction n as [|n IH]; [done|]. exact IH. Qed.

Lemma append_exponent_spec x : -1000 < x < 1000 → ∃ ds, append_exponent x =
  Ret ((if x <? 0 then "-"%char else "+"%char) :: ds) ∧ all_digits ds ∧ 2 <= len ds <= 3 ∧
  dec_value ds = Z.abs x.
Proof.
  intros Hx. unfold append_exponent. rewrite (proj2 (Z.ltb_lt (-1000) x)), (proj2 (Z.ltb_lt x 1000)) by lia.
  cbn [cpp_assert mbind outcome_bind]. set (k := if x <? 0 then - x else x).
  assert (k = Z.abs x) as Hk by (unfold k; destruct (Z.ltb_spec x 0); lia).
  assert (∀ d, 0 <= d < 10 → is_digit_char (char_of (48 + d)) = true) as Hdig by apply is_digit_digit_char.
  assert (∀ a d, 0 <= d < 10 → a * 10 + (uchar (char_of (48 + d)) - 48) = a * 10 + d) as Hval.
  { intros a d Hd. pose proof (uchar_digit d Hd) as H. unfold digit_char in H. rewrite H. lia. }
  rewrite <-Hk. assert (0 <= k < 1000) as Hkr by lia. clearbody k. clear Hk.
  destruct (Z.ltb_spec k 10); [|destruct (Z.ltb_spec k 100)];
    eexists; (split; [reflexivity|]); unfold dec_value, dec_value_from; cbn [foldl];
    rewrite ?Hval; split_and!; try (cbn; lia); try (Z.div_mod_to_equations; lia);
    repeat (constructor; [first [done|apply Hdig; Z.div_mod_to_equations; lia]|]); constructor.
Qed.

(** What the layout promises: a number of the grammar with the value of the digits. *)
Definition lays_out (buf : bytes) (E : Z) (d : decimal) : Prop :=
  decimal_ok d ∧ len (decimal_text d) <= 24 ∧
  ∃ c, 0 <= c ∧ (c = 0 ∨ 0 <= E) ∧ mantissa d = dec_value buf * 10 ^ c ∧ exponent10 d = E - c.

Lemma numeral_whole buf : numeral buf →
  all_digits buf ∧ buf ≠ [] ∧ (head buf = Some "0"%char → buf = bs "0").
Proof. intros (Hd & Hne & Hh). split_and!; [done|done|]. by intros ?%Hh. Qed.

(** digits[000].0 *)
Lemma lays_out_integer buf E : numeral buf → 0 <= E → len buf + E <= 15 →
  lays_out buf E (Decimal (buf ++ replicate (Z.to_nat E) "0"%char) (bs "0") None).
Proof.
  intros Hn HE Hl. destruct (numeral_whole buf Hn) as (Hd & Hne & _). split_and!.
  - split; cbn [whole frac expo]; [|by repeat constructor|done]. split_and!.
    + by apply Forall_app_2; [|apply all_digits_zeros].
    + by destruct buf.
    + destruct Hn as (_ & _ & Hh). destruct buf; [done|]. cbn. intros H. by destruct Hh.
  - unfold decimal_text. cbn [whole]. rewrite !len_app, len_replicate.
    change (len (frac_text _)) with 2. change (len (expo_text _)) with 0. lia.
  - exists (E + 1). split_and!; [lia|by right| |].
    2: { unfold exponent10. cbn [expo frac]. change (len (bs "0")) with 1. lia. }
    unfold mantissa. cbn [whole frac]. rewrite <-app_assoc. change (bs "0") with (replicate 1 "0"%char).
    rewrite <-replicate_add, dec_value_zeros. do 2 f_equal. lia.
Qed.

(** dig.its *)
Lemma lays_out_point buf E : numeral buf → len buf <= 17 → E < 0 → 0 < len buf + E →
  lays_out buf E (Decimal (take (Z.to_nat (len buf + E)) buf) (drop (Z.to_nat (len buf + E)) buf) None).
Proof.
  intros Hn Hl HE Hp. destruct (numeral_whole buf Hn) as (Hd & Hne & _).
  set (n := Z.to_nat (len buf + E)). assert (drop n buf ≠ []) as Hdrop.
  { intros H%(f_equal length). rewrite length_drop in H. cbn in H. lia. }
  split_and!.
  - split; cbn [whole frac expo]; [|by apply Forall_drop|done]. split_and!.
    + by apply Forall_take.
    + intros H%(f_equal length). rewrite length_take in H. cbn in H. lia.
    + destruct Hn as (_ & _ & Hh). destruct buf; [done|]. destruct n eqn:E'; [lia|]. cbn. intros H. by destruct Hh.
  - unfold decimal_text, frac_text. cbn [whole frac expo expo_text]. rewrite app_nil_r.
    destruct (drop n buf) as [|c l] eqn:E'; [done|]. rewrite <-E'. rewrite len_app, len_cons, len_take, len_drop. lia.
  - exists 0. split_and!; [lia|by left| |].
    + unfold mantissa. cbn [whole frac]. by rewrite take_drop, Z.mul_1_r.
    + unfold exponent10. cbn [frac expo]. rewrite len_drop. lia.
Qed.

(** 0.[000]digits *)
Lemma lays_out_small buf E : numeral buf → len buf <= 17 → -4 < len buf + E <= 0 →
  lays_out buf E (Decimal (bs "0") (replicate (Z.to_nat (- (len buf + E))) "0"%char ++ buf) None).
Proof.
  intros Hn Hl HE. destruct (numeral_whole buf Hn) as (Hd & Hne & _). set (n := Z.to_nat _).
  assert (replicate n "0"%char ++ buf ≠ []) as Hf by (by destruct n, buf). split_and!.
  - split; cbn [whole frac expo]; [by split_and!; [repeat constructor|..]| |done].
    by apply Forall_app_2; [apply all_digits_zeros|].
  - unfold decimal_text, frac_text. cbn [whole frac expo expo_text].
    destruct (replicate n "0"%char ++ buf) as [|c l] eqn:E'; [done|]. rewrite <-E'.
    rewrite !len_app, len_cons, !len_app, len_replicate, len_nil. change (len (bs "0")) with 1. lia.
  - exists 0. split_and!; [lia|by left| |].
    + unfold mantissa. cbn [whole frac]. change (bs "0") with (replicate 1 "0"%char).
      by rewrite !dec_value_leading, Z.mul_1_r.
    + unfold exponent10. cbn [frac expo]. rewrite len_app, len_replicate. lia.
Qed.

(** d.igitse+123 *)
Lemma lays_out_exponent buf E (x : bool) ds : numeral buf → len buf <= 17 → all_digits ds → 2 <= len ds <= 3 →
  (if x then - dec_value ds else dec_value ds) = len buf + E - 1 →
  lays_out buf E (Decimal (take 1 buf) (drop 1 buf) (Some (x, ds))).
Proof.
  intros Hn Hl Hds Hlen Hv. destruct (numeral_whole buf Hn) as (Hd & Hne & _).
  destruct buf as [|c buf]; [done|]. cbn [take drop]. rewrite take_0, drop_0. apply Forall_cons in Hd as [Hc Hd]. split_and!.
  - split; cbn [whole frac expo]; [|done|split; [done|intros ->; cbn in Hlen; lia]]. split_and!; [by repeat constructor|done|].
    cbn. by intros [= ->].
  - unfold decimal_text, frac_text, expo_text. cbn [whole frac expo]. rewrite len_cons in Hl.
    destruct buf as [|c' l]; len_lia.
  - exists 0. split_and!; [lia|by left| |].
    + unfold mantissa. cbn [whole frac app]. by rewrite Z.mul_1_r.
    + unfold exponent10. cbn [frac expo]. rewrite len_cons in Hv. lia.
Qed.

Lemma format_buffer_spec buf E : numeral buf → len buf <= 17 → -400 <= E <= 400 →
  ∃ d, format_buffer buf E (-4) 15 = Ret (decimal_text d) ∧ lays_out buf E d.
Proof.
  intros Hn Hl HE. assert (1 <= len buf) as H1 by (destruct Hn as (_ & ? & _); destruct buf; [done|len_lia]).
  unfold format_buffer. cbn [Z.ltb Z.compare cpp_assert mbind outcome_bind].
  destruct ((len buf <=? len buf + E) && (len buf + E <=? 15)) eqn:C1; [|
  destruct ((0 <? len buf + E) && (len buf + E <=? 15)) eqn:C2; [|
  destruct ((-4 <? len buf + E) && (len buf + E <=? 0)) eqn:C3]]; bool_hyps.
  - eexists. split; [|apply lays_out_integer; [done|lia|lia]].
    unfold decimal_text. cbn [whole]. replace (len buf + E - len buf) with E by lia. by rewrite <-app_assoc.
  - rewrite (proj2 (Z.ltb_lt _ _)) by lia. cbn [cpp_assert mbind outcome_bind].
    eexists. split; [|apply lays_out_point; [done|lia|lia|lia]].
    unfold decimal_text, frac_text. cbn [whole frac expo expo_text]. rewrite app_nil_r.
    destruct (drop _ buf) eqn:E'; [|done]. apply (f_equal length) in E'. rewrite length_drop in E'. cbn in E'. lia.
  - eexists. split; [|apply lays_out_small; [done|lia|lia]].
    unfold decimal_text, frac_text. cbn [whole frac expo expo_text]. rewrite app_nil_r.
    by destruct (Z.to_nat (- (len buf + E))), buf.
  - destruct (append_exponent_spec (len buf + E - 1)) as (ds & -> & Hds & Hlen & Hv); [lia|].
    cbn [mbind outcome_bind]. eexists.
    split; [|apply (lays_out_exponent buf E (len buf + E - 1 <? 0) ds); try done].
    2: { rewrite Hv. destruct (Z.ltb_spec (len buf + E - 1) 0); lia. }
    unfold decimal_text, frac_text, expo_text. cbn [whole frac expo].
    destruct buf as [|c [|c' l]]; [done| |].
    + by destruct (_ <? 0).
    + rewrite (proj2 (Z.eqb_neq _ _)) by len_lia. cbn [take drop app]. by destruct (_ <? 0).
Qed.

(** ** The characters of a double *)

Definition sign_of (f : spec_float) : bool :=
  match f with S754_zero s | S754_finite s _ _ | S754_infinity s => s | S754_nan => false end.
Definition sign_text (neg : bool) : bytes := if neg then bs "-" else [].

Lemma to_chars_finite s m ex : positive_ok (Z.pos m) ex → ∃ d,
  Grisu.dump_float (S754_finite s m ex) = Ret (sign_text s ++ decimal_text d) ∧ decimal_ok d ∧
  len (decimal_text d) <= 24 ∧ strtod (sign_text s ++ decimal_text d) = S754_finite s m ex.
Proof.
  intros Hok. assert (∃ room, 62 <= room ∧ Grisu.dump_float (S754_finite s m ex) =
    (t ← ('(buf, decimal_exponent) ← grisu2_value room (S754_finite false m ex);
          _ ← cpp_assert (len buf <=? 17); format_buffer buf decimal_exponent (-4) 15);
     if len t <=? room then Ret (sign_text s ++ t) else Undef)) as (room & Hroom & ->).
  { destruct s; [exists 63|exists 64]; (split; [lia|]); reflexivity. }
  destruct (grisu2_value_spec room m ex ltac:(lia) Hok) as (buf & E & -> & Hn & Hl & HE & Hin).
  cbn [mbind outcome_bind]. rewrite (proj2 (Z.leb_le _ _)) by done. cbn [cpp_assert mbind outcome_bind].
  destruct (format_buffer_spec buf E Hn Hl ltac:(lia)) as (d & -> & Hd & Ht & c & Hc & HcE & Hm & He).
  cbn [mbind outcome_bind]. rewrite (proj2 (Z.leb_le _ _)) by lia.
  exists d. split_and!; [done|done|done|]. unfold sign_text. rewrite strtod_decimal by done.
  assert (0 < dec_value buf) as Hpos.
  { pose proof (numeral_ge buf Hn). pose proof (Z.pow_nonneg 10 (len buf - 1)).
    assert (1 <= len buf) by (destruct Hn as (_ & ? & _); destruct buf; [done|len_lia]).
    pose proof (Z.pow_pos_nonneg 10 (len buf - 1)). lia. }
  assert (0 < 10 ^ c) as Hp by (apply Z.pow_pos_nonneg; lia).
  rewrite Hm, He. apply strtod_value_inside; [lia|done|].
  destruct HcE as [->|HE0]; [by rewrite Z.mul_1_r, Z.sub_0_r|].
  rewrite (Z.max_l E), (Z.max_r (- E)) in Hin by lia. destruct (Z.le_gt_cases c E) as [Hle|Hgt].
  - rewrite (Z.max_l (E - c)), (Z.max_r (- (E - c))), <-Z.mul_assoc, <-Z.pow_add_r by lia.
    by replace (c + (E - c)) with E by lia.
  - rewrite (Z.max_r (E - c)), (Z.max_l (- (E - c))), Z.mul_1_r by lia.
    apply (inside_scale _ _ _ _ (10 ^ (c - E))) in Hin; [|apply Z.pow_pos_nonneg; lia].
    rewrite <-Z.mul_assoc, <-Z.pow_add_r, Z.mul_1_l in Hin by lia.
    replace (E + (c - E)) with c in Hin by lia. by replace (- (E - c)) with (c - E) by lia.
Qed.

Lemma finite_double_cases f : finite_double f = true →
  (∃ s, f = S754_zero s) ∨ ∃ s m ex, f = S754_finite s m ex ∧ positive_ok (Z.pos m) ex.
Proof.
  unfold finite_double. intros H. bool_hyps. destruct f as [s|s| |s m ex]; try done; [by left; exists s|].
  right. exists s, m, ex. split; [done|]. by apply (double_positive s).
Qed.

(** [to_chars] fails no assertion and stays within the array; its text is a number that
    [std::strtod] reads as the [double]. *)
Lemma dump_float_spec f : finite_double f = true → ∃ d,
  Grisu.dump_float f = Ret (sign_text (sign_of f) ++ decimal_text d) ∧ decimal_ok d ∧
  len (decimal_text d) <= 24 ∧ strtod (sign_text (sign_of f) ++ decimal_text d) = f.
Proof.
  intros [(s & ->)|(s & m & ex & -> & Hok)]%finite_double_cases.
  - exists (Decimal (bs "0") (bs "0") None). split_and!; [by destruct s| |done|by destruct s].
    split; cbn [whole frac expo]; [|by repeat constructor|done]. by split_and!; [repeat constructor|..].
  - by apply to_chars_finite.
Qed.

Lemma double_text_spec f : finite_double f = true → ∃ d,
  double_text f = sign_text (sign_of f) ++ decimal_text d ∧ decimal_ok d ∧ strtod (double_text f) = f.
Proof.
  intros Hf. destruct (dump_float_spec f Hf) as (d & H & Hok & _ & Hs). exists d.
  unfold double_text. by rewrite H.
Qed.

(** ** The lexer *)

(** One character takes the scanner from a label to the next. *)
Definition moves (st : number_state) (ty : token_type) (c : ascii) (st' : number_state) (ty' : token_type) : Prop :=
  st' ≠ scan_number_done ∧
  ∀ lx s, at_input lx (c :: s) → number_step st ty lx = (Some (st', ty'), add (uchar c) (get lx)).

Inductive number_run : number_state → token_type → bytes → number_state → token_type → Prop :=
  | run_nil st ty : number_run st ty [] st ty
  | run_cons st ty c st1 ty1 cs st' ty' :
      moves st ty c st1 ty1 → number_run st1 ty1 cs st' ty' → number_run st ty (c :: cs) st' ty'.

Lemma number_run_app st ty cs st1 ty1 cs' st' ty' :
  number_run st ty cs st1 ty1 → number_run st1 ty1 cs' st' ty' → number_run st ty (cs ++ cs') st' ty'.
Proof. induction 1; [done|]. intros. eapply run_cons; eauto. Qed.

(** The lexer inside a number: what it has kept and what is left. *)
Definition reading (lx : lexer) (b s : bytes) : Prop :=
  at_input lx s ∧ 0 < chars_read_total lx ∧ token_buffer lx = b.

Lemma number_run_loop st ty cs st' ty' : number_run st ty cs st' ty' → ∀ fuel lx b s,
  reading lx b (cs ++ s) → ∃ lx', scan_number_loop (length cs + fuel) st ty lx =
    scan_number_loop fuel st' ty' lx' ∧ reading lx' (b ++ cs) s.
Proof.
  induction 1 as [st ty|st ty c st1 ty1 cs st' ty' [Hne Hmv] _ IH]; intros fuel lx b s (Hat & Ht & Hb).
  - exists lx. split; [done|]. by rewrite app_nil_r.
  - destruct (IH fuel (add (uchar c) (get lx)) (b ++ [c]) s) as (lx' & Heq & Hr).
    { pose proof (get_read _ _ _ Hat) as Hg. split_and!.
      - by eapply at_input_buffer, has_read_at.
      - by destruct Hg as (_ & _ & _ & ?).
      - by rewrite add_buffer, char_of_uchar, get_buffer, Hb. }
    exists lx'. split; [|by rewrite <-app_assoc in Hr].
    change (length (c :: cs) + fuel)%nat with (S (length cs + fuel)). cbn [scan_number_loop].
    rewrite (Hmv lx (cs ++ s) Hat). by destruct st1.
Qed.

Ltac moves_tac H :=
  split; [done|]; let Hat := fresh in intros ? ? Hat; apply get_read in Hat;
  unfold number_step; rewrite ?(has_read_digit _ _ _ Hat), ?(has_read_is _ _ _ _ Hat), ?H;
  destruct Hat as (-> & _); try done.

Lemma moves_digit c st ty : is_digit_char c = true →
  st = scan_number_any1 ∨ st = scan_number_decimal2 ∨ st = scan_number_any2 → moves st ty c st ty.
Proof. intros Hc [-> | [-> | ->]]; moves_tac Hc. Qed.

Lemma run_digits ds st ty : all_digits ds →
  st = scan_number_any1 ∨ st = scan_number_decimal2 ∨ st = scan_number_any2 → number_run st ty ds st ty.
Proof. intros Hd Hst. induction Hd as [|c ds Hc _ IH]; [constructor|]. eapply run_cons, IH. by apply moves_digit. Qed.

Lemma moves_point st ty : st = scan_number_zero ∨ st = scan_number_any1 →
  moves st ty "." scan_number_decimal1 ty.
Proof. intros [-> | ->]; moves_tac I. Qed.

Lemma moves_e st ty : st = scan_number_zero ∨ st = scan_number_any1 ∨ st = scan_number_decimal2 →
  moves st ty "e" scan_number_exponent ty.
Proof. intros [-> | [-> | ->]]; moves_tac I. Qed.

Lemma run_expo st ty (neg : bool) ds : st = scan_number_zero ∨ st = scan_number_any1 ∨ st = scan_number_decimal2 →
  all_digits ds → ds ≠ [] →
  number_run st ty ("e"%char :: (if neg then "-"%char else "+"%char) :: ds) scan_number_any2 value_float.
Proof.
  intros Hst Hd Hne. destruct ds as [|c ds]; [done|]. apply Forall_cons in Hd as [Hc Hd].
  eapply run_cons; [by apply moves_e|]. eapply (run_cons _ _ _ scan_number_sign value_float).
  { destruct neg; moves_tac I. }
  eapply (run_cons _ _ _ scan_number_any2 value_float); [moves_tac Hc|]. apply run_digits; auto.
Qed.

(** The fraction and the exponent, behind the first digits. *)
Lemma decimal_tail_run st ty d : st = scan_number_zero ∨ st = scan_number_any1 → decimal_ok d →
  ∃ st', number_run st ty (frac_text d ++ expo_text d) st' value_float ∧
    (st' = scan_number_decimal2 ∨ st' = scan_number_any2).
Proof.
  intros Hst [_ Hf He]. unfold frac_text, expo_text. destruct (frac d) as [|c ds] eqn:Ef.
  - destruct (expo d) as [[neg xs]|]; [|done]. destruct He as [Hx Hne].
    exists scan_number_any2. split; [|by right]. apply run_expo; [destruct Hst; auto|done|done].
  - apply Forall_cons in Hf as [Hc Hf].
    assert (number_run st ty ("."%char :: c :: ds) scan_number_decimal2 value_float) as Hrun.
    { eapply run_cons; [by apply moves_point|].
      eapply (run_cons _ _ _ scan_number_decimal2 value_float); [moves_tac Hc|]. apply run_digits; auto. }
    destruct (expo d) as [[neg xs]|].
    + destruct He as [Hx Hne]. exists scan_number_any2. split; [|by right].
      eapply number_run_app; [exact Hrun|]. apply run_expo; auto.
    + exists scan_number_decimal2. split; [|by left]. by rewrite app_nil_r.
Qed.

(** The first digit decides on the label. *)
Definition first_label (c : ascii) : number_state :=
  if bool_decide (c = "0"%char) then scan_number_zero else scan_number_any1.

Lemma decimal_run ty d : decimal_ok d → ∃ c cs st', decimal_text d = c :: cs ∧ is_digit_char c = true ∧
  number_run (first_label c) ty cs st' value_float ∧ (st' = scan_number_decimal2 ∨ st' = scan_number_any2).
Proof.
  intros Hok. destruct (ok_whole d Hok) as (Hw & Hne & Hz). unfold decimal_text.
  destruct (whole d) as [|c w]; [done|]. apply Forall_cons in Hw as [Hc Hw].
  assert (first_label c = scan_number_zero ∨ first_label c = scan_number_any1) as Hl
    by (unfold first_label; case_bool_decide; auto).
  destruct (decimal_tail_run (first_label c) ty d Hl Hok) as (st' & Hrun & Hst).
  exists c, (w ++ frac_text d ++ expo_text d), st'. split_and!; [done|done| |done].
  eapply number_run_app; [|exact Hrun]. unfold first_label. case_bool_decide as H0.
  - subst c. specialize (Hz eq_refl). injection Hz as ->. constructor.
  - apply run_digits; auto.
Qed.

(** The end of the number, where it is converted. *)
Lemma number_end st lx b s fuel : reading lx b s → stops s → (0 < fuel)%nat →
  st = scan_number_decimal2 ∨ st = scan_number_any2 →
  ∃ lx', scan_number_loop fuel st value_float lx = Ret (value_float, lx') ∧ at_input lx' s ∧
    0 < chars_read_total lx' ∧ float_value lx' = strtod b.
Proof.
  intros (Hat & Ht & Hb) Hs Hf Hst. destruct fuel as [|fuel]; [lia|].
  destruct (stop_spec lx s Hat Hs) as (Hd & Hp & He & Hu).
  set (lu := unget (get lx)). exists (set_values (unsigned_value lu) (integer_value lu) (strtod b) lu).
  split_and!; [|by apply at_input_values, Hu| |done].
  - cbn [scan_number_loop]. unfold number_step.
    assert (convert_number value_float (get lx) =
      (value_float, set_values (unsigned_value lu) (integer_value lu) (strtod b) lu)) as <-.
    { unfold convert_number. change (token_buffer (unget (get lx))) with (token_buffer (get lx)).
      by rewrite get_buffer, Hb. }
    by destruct Hst as [-> | ->]; rewrite ?Hd, ?He.
  - unfold lu. cbn [set_values unget chars_read_total]. rewrite get_total. lia.
Qed.

Lemma digit_nonzero c : is_digit_char c = true → c ≠ "0"%char → between 49 (uchar c) 57 = true ∧ uchar c ≠ 48.
Proof.
  unfold is_digit_char, between. intros H Hne. bool_hyps. assert (uchar c ≠ 48) as Hu; [|split; [lia|done]].
  intros Hu. apply Hne, uchar_inj. by rewrite Hu.
Qed.

Lemma moves_minus c : is_digit_char c = true → moves scan_number_minus value_unsigned c (first_label c) value_integer.
Proof.
  intros Hc. unfold first_label. case_bool_decide as H0.
  - subst c. moves_tac I.
  - destruct (digit_nonzero c Hc H0) as [Hb Hu]. split; [done|]. intros lx s Hat%get_read. unfold number_step.
    destruct Hat as (-> & _). by rewrite (proj2 (Z.eqb_neq _ _) Hu), Hb.
Qed.

(** The first step of [scan_number] on a digit. *)
Lemma scan_number_first lx c s : has_read lx c s → is_digit_char c = true →
  scan_number lx = scan_number_loop (S (length s)) (first_label c) value_unsigned (add (uchar c) (reset lx)).
Proof.
  intros (Hcur & Hia & _) Hc. unfold scan_number. change (current (reset lx)) with (current lx).
  change (ia (reset lx)) with (ia lx). rewrite Hcur, Hia. unfold first_label. case_bool_decide as H0; [by subst c|].
  destruct (digit_nonzero c Hc H0) as [Hb Hu]. rewrite (proj2 (Z.eqb_neq _ 48)) by done.
  unfold between in *. bool_hyps. rewrite (proj2 (Z.eqb_neq _ 45)) by lia.
  by rewrite !(proj2 (Z.leb_le _ _)) by lia.
Qed.

Lemma digit_not_blank c : is_digit_char c = true → is_blank c = false.
Proof.
  intros Hd. unfold is_blank. apply bool_decide_eq_false. intros Hin.
  rewrite !elem_of_cons, elem_of_nil in Hin. revert Hd. by destruct Hin as [->|[->|[->|[->|[]]]]].
Qed.

Lemma scan_decimal (neg : bool) d lx ws s : decimal_ok d → Forall (λ c, is_blank c = true) ws → stops s →
  at_input lx (ws ++ (sign_text neg ++ decimal_text d) ++ s) →
  ∃ lx', scan_token lx = Ret (value_float, lx') ∧ at_input lx' s ∧ 0 < chars_read_total lx' ∧
    float_value lx' = strtod (sign_text neg ++ decimal_text d).
Proof.
  intros Hok Hws Hs Hat. destruct neg.
  - change (sign_text true ++ decimal_text d) with ("-"%char :: decimal_text d) in *.
    destruct (decimal_run value_integer d Hok) as (c & cs & st' & Ht & Hc & Hrun & Hst). rewrite Ht in *.
    destruct (scan_token_ok lx ws "-" ((c :: cs) ++ s) Hat Hws) as (lx1 & -> & H1); [done|].
    assert (scan_switch lx1 = scan_number lx1) as ->.
    { unfold scan_switch. by rewrite !(has_read_is _ _ _ _ H1). }
    unfold scan_number. change (current (reset lx1)) with (current lx1). change (ia (reset lx1)) with (ia lx1).
    destruct (H1) as (Hcur & Hia & _ & Htot). rewrite Hcur, Hia. change (uchar "-" =? 45) with true.
    cbv iota.
    assert (reading (add (uchar "-") (reset lx1)) (bs "-") ((c :: cs) ++ s)) as Hr.
    { split_and!; [by eapply has_read_at|done|done]. }
    replace (S (length ((c :: cs) ++ s))) with (length (c :: cs) + S (length s))%nat by (rewrite length_app; lia).
    destruct (number_run_loop _ _ _ _ _ (run_cons _ _ _ _ _ _ _ _ (moves_minus c Hc) Hrun)
      (S (length s)) _ _ _ Hr) as (lx' & -> & Hr').
    by apply (number_end st' _ (bs "-" ++ c :: cs) s); [|done|lia|].
  - change (sign_text false ++ decimal_text d) with (decimal_text d) in *.
    destruct (decimal_run value_unsigned d Hok) as (c & cs & st' & Ht & Hc & Hrun & Hst). rewrite Ht in *.
    destruct (scan_token_ok lx ws c (cs ++ s) Hat Hws (digit_not_blank c Hc)) as (lx1 & -> & H1).
    rewrite (scan_switch_digit _ _ _ H1 Hc), (scan_number_first _ _ _ H1 Hc). destruct (H1) as (_ & _ & _ & Htot).
    assert (reading (add (uchar c) (reset lx1)) [c] (cs ++ s)) as Hr.
    { split_and!; [by eapply has_read_at|done|]. by rewrite add_buffer, char_of_uchar. }
    replace (S (length (cs ++ s))) with (length cs + S (length s))%nat by (rewrite length_app; lia).
    destruct (number_run_loop _ _ _ _ _ Hrun (S (length s)) _ _ _ Hr) as (lx' & -> & Hr').
    by apply (number_end st' _ (c :: cs) s); [|done|lia|].
Qed.

(** The characters of a double are a number to the parser. *)
Lemma double_float_text : float_text double_text finite_double.
Proof.
  split.
  - intros f Hf. unfold finite_double in Hf. by apply andb_true_iff in Hf as [? _].
  - intros f Hf. destruct (double_text_spec f Hf) as (d & -> & Hok & _).
    destruct (decimal_run value_float d Hok) as (c & cs & _ & -> & Hc & _).
    unfold is_digit_char in Hc. bool_hyps. destruct (sign_of f); eexists _, _; (split; [reflexivity|]); [done|lia].
  - intros f lx ws s Hf Hws Hs Hat. destruct (double_text_spec f Hf) as (d & Ht & Hok & Hv).
    rewrite Ht in Hat, Hv.
    destruct (scan_decimal _ d lx ws s Hok Hws Hs Hat) as (lx' & Hsc & Hat' & Ht' & Hfv).
    exists lx'. by rewrite Hfv, Hv.
Qed.

(** * Properties *)

(** C5: the characters of a [double] are enough of them.  For every finite [double],
    subnormal or not, [to_chars] into the serializer's 64 characters fails none of its
    assertions, takes 25 characters at most, and [std::strtod] of them is the [double]
    again, a negative zero included. *)
Theorem to_chars_roundtrip (f : spec_float) : finite_double f = true →
  ∃ t, Grisu.dump_float f = Ret t ∧ len t <= 25 ∧ strtod t = f.
Proof.
  intros Hf. destruct (dump_float_spec f Hf) as (d & H & _ & Hl & Hs). eexists. split_and!; [exact H| |done].
  rewrite len_app. assert (len (sign_text (sign_of f)) <= 1) by by destruct (sign_of f). lia.
Qed.

(** 2^-1074 and -2^-1022, where the lower neighbour is not half as far away. *)
Lemma to_chars_roundtrip_witness :
  (∃ t, Grisu.dump_float (S754_finite false 1 (-1074)) = Ret t ∧ len t <= 25 ∧
        strtod t = S754_finite false 1 (-1074)) ∧
  (∃ t, Grisu.dump_float (S754_finite true 4503599627370496 (-1074)) = Ret t ∧ len t <= 25 ∧
        strtod t = S754_finite true 4503599627370496 (-1074)).
Proof.
  split.
  - exact (to_chars_roundtrip (S754_finite false 1 (-1074)) eq_refl).
  - exact (to_chars_roundtrip (S754_finite true 4503599627370496 (-1074)) eq_refl).
Defined.
