(* ===== verification/Json.v ===== *)
(** * What the program may rely on in [cppboot::json]

    The serializer of JsonDump.v and the parser of JsonParse.v together: the round
    trip through text, and the parser on every input, where it ends and
    gives a value the serializer takes or one of its exceptions. *)

From S2P Require Import Prelude StdString Buffer JsonValue JsonDump JsonParse JsonDouble.
Import Serializer Parser JsonDouble.

(** * The characters left *)

Definition left (lx : lexer) : nat := length (remaining lx).

(** Reading on: fewer characters left, nothing else that matters broken. *)
Definition advanced (lx lx' : lexer) : Prop :=
  lexer_ok lx' ∧ (left lx' <= left lx)%nat ∧ chars_read_total lx <= chars_read_total lx'.

Lemma advanced_refl lx : lexer_ok lx → advanced lx lx.
Proof. split; [done|lia]. Qed.
Lemma advanced_trans lx1 lx2 lx3 : advanced lx1 lx2 → advanced lx2 lx3 → advanced lx1 lx3.
Proof. intros (? & ? & ?) (? & ? & ?). split; [done|lia]. Qed.
Lemma advanced_buffer lx lx' b : advanced lx lx' → advanced lx (set_buffer b lx').
Proof. done. Qed.
Lemma advanced_values lx lx' u i f : advanced lx lx' → advanced lx (set_values u i f lx').
Proof. done. Qed.

(** [get]: a character less, unless there is none. *)
Lemma get_cases lx : lexer_ok lx →
  current (get lx) = eof ∧ left lx = 0%nat ∧ left (get lx) = 0%nat ∧ next_unget (get lx) = false ∨
  ∃ c, current (get lx) = uchar c ∧ left lx = S (left (get lx)) ∧ next_unget (get lx) = false.
Proof.
  intros Hok. unfold left, remaining, get. destruct (next_unget lx) eqn:Hu.
  - destruct (Hok Hu) as [Hc He]. cbn [current next_unget ia].
    destruct (current lx =? eof) eqn:E; bool_hyps.
    + left. by rewrite He.
    + right. exists (char_of (current lx)). rewrite uchar_char_of, Z.mod_small; [done|].
      unfold eof in *. lia.
  - destruct (ia lx) as [|c s]; cbn; [by left|]. right. by exists c.
Qed.

Lemma get_advanced lx : lexer_ok lx → advanced lx (get lx).
Proof.
  intros Hok. destruct (get_cases lx Hok) as [(Hc & Hl & Hl' & Hu)|(c & Hc & Hl & Hu)];
    (split; [by intros Hu'; rewrite Hu in Hu'|]; rewrite get_total; lia).
Qed.

(** A character read is one less. *)
Lemma get_less lx : lexer_ok lx → current (get lx) ≠ eof → (left (get lx) < left lx)%nat.
Proof. intros Hok Hc. destruct (get_cases lx Hok) as [(? & _)|(c & _ & Hl & _)]; [done|lia]. Qed.

Lemma get_is lx c : lexer_ok lx → cur_is (get lx) c = true → (left (get lx) < left lx)%nat.
Proof.
  intros Hok H. apply get_less; [done|]. unfold cur_is in H. bool_hyps. rewrite H.
  pose proof (uchar_range c). unfold eof. lia.
Qed.

Lemma get_range lx : lexer_ok lx → -1 <= current (get lx) < 256.
Proof.
  intros Hok. destruct (get_cases lx Hok) as [(-> & _)|(c & -> & _)]; [done|].
  pose proof (uchar_range c). lia.
Qed.

(** Putting the character back. *)
Lemma unget_advanced lx : lexer_ok lx → advanced lx (unget (get lx)).
Proof.
  intros Hok. destruct (get_cases lx Hok) as [(Hc & Hl & Hl' & Hu)|(c & Hc & Hl & Hu)].
  - split; [|unfold left, remaining in *; cbn; rewrite Hc; cbn [chars_read_total unget];
      rewrite get_total; cbn; lia].
    intros _. cbn [unget current ia]. rewrite Hc. split; [done|]. intros _.
    unfold left, remaining in Hl'. rewrite Hu in Hl'. by apply length_zero_iff_nil.
  - pose proof (uchar_range c). unfold advanced, left, remaining in *. rewrite Hu in Hl.
    split; [|cbn [unget next_unget current ia chars_read_total]; rewrite Hc, get_total].
    + intros _. cbn [unget current ia]. rewrite Hc. unfold eof. lia.
    + rewrite (proj2 (Z.eqb_neq _ _)) by (unfold eof; lia). cbn [length]. lia.
Qed.

(** * UTF-8 that the scanner builds *)

Lemma utf8_app s s' : utf8_ok s = true → utf8_ok s' = true → utf8_ok (s ++ s') = true.
Proof. rewrite !utf8_ok_dfa. unfold dfa. intros H H'. by rewrite foldl_app, H. Qed.

Lemma ranges_dfa ranges st cs :
  st ∈ states → state_ranges st = ranges →
  Forall2 (λ r c, between r.1 (uchar c) r.2 = true) ranges cs → dfa st cs = 0.
Proof.
  intros Hst Hr Hf. revert st Hst Hr. induction Hf as [|[lo hi] c ranges cs Hc Hf IH]; intros st Hst Hr.
  - by apply state_ranges_nil in Hr.
  - change (dfa (next st c) cs = 0). pose proof (ranges_ok_all st c Hst) as Hok.
    unfold ranges_ok in Hok. cbn [fst snd] in Hc. rewrite Hr, Hc in Hok. bool_hyps. by apply IH.
Qed.

(** A first byte and the bytes in its ranges make a character. *)
Lemma utf8_char c ranges cs :
  128 <= uchar c → following_ranges (uchar c) = Some ranges →
  Forall2 (λ r c, between r.1 (uchar c) r.2 = true) ranges cs → utf8_ok (c :: cs) = true.
Proof.
  intros Hc Hr Hf. apply utf8_ok_dfa. change (dfa (next 0 c) cs = 0).
  pose proof (ranges_ok_all 0 c ltac:(by left)) as Hok. cbn in Hok.
  rewrite (proj2 (Z.ltb_ge _ _)) in Hok by done. bool_hyps. rewrite Hr in Hok.
  destruct (next 0 c =? 1) eqn:E; [done|]. bool_hyps. injection Hok as ->.
  destruct (byte_cases 0 0 c) as [?|? Hn|Hn|? ? [? _] _ _]; [split; by left|done|..];
    try (by eapply ranges_dfa); rewrite Hn in *; by (eapply ranges_dfa; [by left|done|done]).
Qed.

Lemma utf8_ascii c : uchar c < 128 → utf8_ok [c] = true.
Proof.
  intros Hc. apply utf8_ok_dfa. change (next 0 c = 0).
  pose proof (ranges_ok_all 0 c ltac:(by left)) as Hok. cbn in Hok.
  rewrite (proj2 (Z.ltb_lt _ _)) in Hok by done. by bool_hyps.
Qed.

(** The bytes of a code point, without the bit operations. *)
Lemma lead_bits lead x w : 0 <= x < 2 ^ w → 0 <= w <= 6 → lead ∈ [192; 224; 240] → lead mod 2 ^ w = 0 →
  Z.lor lead x = lead + x.
Proof.
  intros Hx Hw Hin Hm. rewrite <-Z.lxor_lor, <-Z.add_nocarry_lxor; [done|..];
    apply Z.bits_inj'; intros n Hn; rewrite Z.land_spec, Z.bits_0;
    (destruct (Z.lt_ge_cases n w);
     [rewrite <-(Z.mod_pow2_bits_low lead w n), Hm, Z.bits_0 by lia; done
     |rewrite <-(Z.mod_small x (2 ^ w)), Z.mod_pow2_bits_high, andb_false_r by lia; done]).
Qed.

Lemma lead_192 x : 0 <= x < 32 → Z.lor 192 x = 192 + x.
Proof. intros. by apply (lead_bits 192 x 5); [|lia|by_decide|]. Qed.
Lemma lead_224 x : 0 <= x < 16 → Z.lor 224 x = 224 + x.
Proof. intros. by apply (lead_bits 224 x 4); [|lia|by_decide|]. Qed.
Lemma lead_240 x : 0 <= x < 8 → Z.lor 240 x = 240 + x.
Proof. intros. by apply (lead_bits 240 x 3); [|lia|by_decide|]. Qed.

Lemma tail_bits cp n : 0 <= n → 0 <= cp →
  Z.lor 128 (Z.land (Z.shiftr cp n) 63) = 128 + (cp / 2 ^ n) mod 64.
Proof.
  intros Hn Hcp. rewrite Z.shiftr_div_pow2 by done. change 63 with (Z.ones 6).
  rewrite Z.land_ones by lia. pose proof (Z.mod_pos_bound (cp / 2 ^ n) 64 ltac:(lia)) as Hb.
  change (2 ^ 6) with 64. rewrite Z.lor_comm. pose proof (land_low 2 _ Hb) as Hl.
  rewrite Z.lor_comm, <-Z.lxor_lor, <-Z.add_nocarry_lxor; done.
Qed.

Lemma between_true lo c hi : lo <= c <= hi → between lo c hi = true.
Proof. unfold between. lia. Qed.

Lemma uchar_small z : 0 <= z < 256 → uchar (char_of z) = z.
Proof. intros. rewrite uchar_char_of. by apply Z.mod_small. Qed.

Lemma div_bounds x d a b : 0 < d → a * d <= x < b * d → a <= x / d < b.
Proof.
  intros Hd Hx. split; [apply Z.div_le_lower_bound; lia|apply Z.div_lt_upper_bound; lia].
Qed.

Lemma mod_between x k : 64 * k <= x < 64 * (k + 1) → x mod 64 = x - 64 * k.
Proof. intros. symmetry. apply (Z.mod_unique_pos _ _ k); lia. Qed.

Lemma tail_range x : 128 <= 128 + x mod 64 <= 191.
Proof. pose proof (Z.mod_pos_bound x 64 ltac:(lia)). lia. Qed.

(** A lead byte of three, and the range of the byte behind it. *)
Lemma three_bytes cp :
  2048 <= cp <= 65535 → ¬ (55296 <= cp <= 57343) →
  ∃ lo hi, following_ranges (224 + cp / 2 ^ 12) = Some [(lo, hi); (128, 191)] ∧
    lo <= 128 + (cp / 2 ^ 6) mod 64 <= hi.
Proof.
  intros Hcp Hs. pose proof (div_bounds cp (2 ^ 12) 0 16 ltac:(lia) ltac:(lia)).
  pose proof (tail_range (cp / 2 ^ 6)).
  destruct (Z.eq_dec (cp / 2 ^ 12) 0) as [Hc|]; [|destruct (Z.eq_dec (cp / 2 ^ 12) 13) as [Hc|]].
  - rewrite Hc. exists 160, 191. split; [done|].
    apply Z.div_small_iff in Hc; [|lia].
    pose proof (div_bounds cp (2 ^ 6) 32 64 ltac:(lia) ltac:(lia)). rewrite Z.mod_small; lia.
  - rewrite Hc. exists 128, 159. split; [done|].
    pose proof (Z.div_mod cp (2 ^ 12) ltac:(lia)). pose proof (Z.mod_pos_bound cp (2 ^ 12) ltac:(lia)).
    pose proof (div_bounds cp (2 ^ 6) 832 864 ltac:(lia) ltac:(lia)).
    rewrite (mod_between _ 13); lia.
  - exists 128, 191. split; [|done]. unfold following_ranges, between.
    repeat case_match; bool_hyps; lia || done.
Qed.

(** A lead byte of four. *)
Lemma four_bytes cp :
  65536 <= cp <= 1114111 →
  ∃ lo hi, following_ranges (240 + cp / 2 ^ 18) = Some [(lo, hi); (128, 191); (128, 191)] ∧
    lo <= 128 + (cp / 2 ^ 12) mod 64 <= hi.
Proof.
  intros Hcp. pose proof (div_bounds cp (2 ^ 18) 0 5 ltac:(lia) ltac:(lia)).
  pose proof (tail_range (cp / 2 ^ 12)).
  destruct (Z.eq_dec (cp / 2 ^ 18) 0) as [Hc|]; [|destruct (Z.eq_dec (cp / 2 ^ 18) 4) as [Hc|]].
  - rewrite Hc. exists 144, 191. split; [done|]. apply Z.div_small_iff in Hc; [|lia].
    pose proof (div_bounds cp (2 ^ 12) 16 64 ltac:(lia) ltac:(lia)). rewrite Z.mod_small; lia.
  - rewrite Hc. exists 128, 143. split; [done|].
    pose proof (Z.div_mod cp (2 ^ 18) ltac:(lia)). pose proof (Z.mod_pos_bound cp (2 ^ 18) ltac:(lia)).
    pose proof (div_bounds cp (2 ^ 12) 256 272 ltac:(lia) ltac:(lia)).
    rewrite (mod_between _ 4); lia.
  - exists 128, 191. split; [|done]. unfold following_ranges, between.
    repeat case_match; bool_hyps; lia || done.
Qed.

(** Added bytes of a character. *)
Lemma utf8_bytes c ranges (zs : list Z) :
  128 <= c < 256 → following_ranges c = Some ranges →
  Forall2 (λ r z, r.1 <= z <= r.2 ∧ 0 <= z < 256) ranges zs →
  utf8_ok (char_of c :: (char_of <$> zs)) = true.
Proof.
  intros Hc Hr Hf. apply utf8_char with ranges; rewrite ?uchar_small by lia; [lia|done|].
  clear Hr. induction Hf as [|[lo hi] z ranges zs [Hz Hz'] Hf IH]; cbn; constructor; [|done].
  apply between_true. rewrite uchar_small; done.
Qed.

(** A code point outside the surrogates is added as UTF-8. *)
Lemma add_codepoint_spec cp lx :
  0 <= cp <= 1114111 → ¬ (55296 <= cp <= 57343) →
  ∃ k, add_codepoint cp lx = set_buffer (token_buffer lx ++ k) lx ∧ utf8_ok k = true.
Proof.
  intros Hcp Hs. unfold add_codepoint. rewrite !tail_bits, !Z.shiftr_div_pow2 by lia.
  pose proof (tail_range (cp / 2 ^ 0)). pose proof (tail_range (cp / 2 ^ 6)).
  pose proof (tail_range (cp / 2 ^ 12)). unfold add, set_buffer. cbn [token_buffer].
  destruct (cp <? 128) eqn:E1; bool_hyps.
  { eexists. split; [done|]. apply utf8_ascii. rewrite uchar_small; lia. }
  destruct (cp <=? 2047) eqn:E2; bool_hyps.
  { pose proof (div_bounds cp (2 ^ 6) 2 32 ltac:(lia) ltac:(lia)).
    rewrite lead_192 by lia.
    eexists. rewrite <-!app_assoc. split; [done|].
    apply (utf8_bytes _ [(128, 191)] [_]); [lia| |repeat constructor; cbn [fst snd]; lia].
    unfold following_ranges. by rewrite between_true by lia. }
  destruct (cp <=? 65535) eqn:E3; bool_hyps.
  { pose proof (div_bounds cp (2 ^ 12) 0 16 ltac:(lia) ltac:(lia)).
    rewrite lead_224 by lia.
    eexists. rewrite <-!app_assoc. split; [done|].
    destruct (three_bytes cp ltac:(lia) Hs) as (lo & hi & Hr & Hlh).
    eapply (utf8_bytes _ _ [_; _]); [lia|exact Hr|repeat constructor; cbn [fst snd]; lia]. }
  pose proof (div_bounds cp (2 ^ 18) 0 5 ltac:(lia) ltac:(lia)).
  rewrite lead_240 by lia.
  eexists. rewrite <-!app_assoc. split; [done|].
  destruct (four_bytes cp ltac:(lia)) as (lo & hi & Hr & Hlh).
  eapply (utf8_bytes _ _ [_; _; _]); [lia|exact Hr|repeat constructor; cbn [fst snd]; lia].
Qed.

(** * The scanner on every input *)

(** Some well-formed text was added to the token. *)
Definition added (lx lx' : lexer) : Prop :=
  ∃ k, token_buffer lx' = token_buffer lx ++ k ∧ utf8_ok k = true.

Lemma added_refl lx lx' : token_buffer lx' = token_buffer lx → added lx lx'.
Proof. intros H. exists []. by rewrite H, app_nil_r. Qed.
Lemma added_trans lx1 lx2 lx3 : added lx1 lx2 → added lx2 lx3 → added lx1 lx3.
Proof.
  intros (k & Hk & Hu) (k' & Hk' & Hu'). exists (k ++ k').
  rewrite Hk', Hk, app_assoc. by split; [|apply utf8_app].
Qed.

Lemma added_char lx c : 0 <= c < 128 → added lx (add c lx).
Proof.
  intros Hc. exists [char_of c]. split; [done|]. apply utf8_ascii. rewrite uchar_small; lia.
Qed.

Lemma codepoint_digits_spec factors : ∀ cp lx,
  lexer_ok lx → Forall (λ f, 0 <= f) factors →
  let '(r, lx') := codepoint_digits factors cp lx in
  advanced lx lx' ∧ token_buffer lx' = token_buffer lx ∧
  ∀ z, r = Some z → cp <= z <= cp + foldr (λ f n, 15 * 2 ^ f + n) 0 factors.
Proof.
  induction factors as [|f factors IH]; intros cp lx Hok Hf; cbn [codepoint_digits foldr].
  { split_and!; [by apply advanced_refl|done|intros z [= ->]; lia]. }
  apply Forall_cons in Hf as [Hf0 Hf]. pose proof (get_advanced lx Hok) as Ha.
  assert (∀ d, 0 <= d <= 15 → 
    let '(r, lx') := codepoint_digits factors (cp + Z.shiftl d f) (get lx) in
    advanced lx lx' ∧ token_buffer lx' = token_buffer lx ∧
    ∀ z, r = Some z → cp <= z <= cp + (15 * 2 ^ f + foldr (λ f n, 15 * 2 ^ f + n) 0 factors)) as Hd.
  { intros d Hd. specialize (IH (cp + Z.shiftl d f) (get lx) (proj1 Ha) Hf).
    destruct (codepoint_digits _ _ _) as [r lx']. destruct IH as (H1 & H2 & H3).
    split_and!; [by eapply advanced_trans|by rewrite H2, get_buffer|].
    intros z Hz. apply H3 in Hz. rewrite Z.shiftl_mul_pow2 in Hz by done.
    pose proof (Z.pow_pos_nonneg 2 f). nia. }
  unfold between. destruct (_ && _) eqn:E1; bool_hyps; [apply Hd; lia|].
  destruct ((65 <=? _) && _) eqn:E2; bool_hyps; [apply Hd; lia|].
  destruct ((97 <=? _) && _) eqn:E3; bool_hyps; [apply Hd; lia|].
  split_and!; [done|apply get_buffer|done].
Qed.

Lemma get_codepoint_spec lx :
  lexer_ok lx →
  let '(r, lx') := get_codepoint lx in
  advanced lx lx' ∧ token_buffer lx' = token_buffer lx ∧ ∀ z, r = Some z → 0 <= z <= 65535.
Proof.
  intros Hok. pose proof (codepoint_digits_spec [12; 8; 4; 0] 0 lx Hok ltac:(by_decide)) as H.
  unfold get_codepoint. destruct (codepoint_digits _ _ _) as [r lx'].
  destruct H as (H1 & H2 & H3). split_and!; [done|done|]. intros z Hz. apply H3 in Hz. cbn in Hz. lia.
Qed.

(** A code point added behind [lx2]. *)
Lemma add_codepoint_added lx1 lx2 cp :
  0 <= cp <= 1114111 → ¬ (55296 <= cp <= 57343) → advanced lx1 lx2 →
  token_buffer lx2 = token_buffer lx1 →
  advanced lx1 (add_codepoint cp lx2) ∧ added lx1 (add_codepoint cp lx2).
Proof.
  intros Hcp Hs Ha Hb. destruct (add_codepoint_spec cp lx2 Hcp Hs) as (k & -> & Hk).
  split; [done|]. exists k. by rewrite <-Hb.
Qed.

Lemma scan_unicode_spec lx lx' :
  lexer_ok lx → scan_unicode lx = Some lx' → advanced lx lx' ∧ added lx lx'.
Proof.
  intros Hok H. unfold scan_unicode in H. pose proof (get_codepoint_spec lx Hok) as H1.
  destruct (get_codepoint lx) as [[cp1|] lx1]; [|done]. destruct H1 as (Ha1 & Hb1 & Hz1).
  specialize (Hz1 cp1 eq_refl). unfold between in H.
  destruct ((55296 <=? cp1) && _) eqn:E1; bool_hyps.
  - destruct (cur_is (get lx1) "\"); [|done]. destruct (cur_is (get (get lx1)) "u"); [|done].
    pose proof (get_advanced lx1 (proj1 Ha1)) as Ha2.
    pose proof (get_advanced (get lx1) (proj1 Ha2)) as Ha3.
    pose proof (get_codepoint_spec (get (get lx1)) (proj1 Ha3)) as H2.
    destruct (get_codepoint (get (get lx1))) as [[cp2|] lx2]; [|done]. destruct H2 as (Ha4 & Hb2 & Hz2).
    specialize (Hz2 cp2 eq_refl). destruct ((56320 <=? cp2) && _) eqn:E2; [|done]. bool_hyps.
    injection H as <-. rewrite Z.shiftl_mul_pow2 by lia.
    apply add_codepoint_added; [lia|lia| |by rewrite Hb2, !get_buffer].
    by repeat (eapply advanced_trans; [eassumption|]); apply advanced_refl, Ha4.
  - destruct ((56320 <=? cp1) && _) eqn:E2; [done|]. injection H as <-.
    apply add_codepoint_added; [lia|lia|done|done].
Qed.

Lemma scan_escape_spec lx lx' :
  lexer_ok lx → scan_escape lx = Some lx' → advanced lx lx' ∧ added lx lx'.
Proof.
  intros Hok H. unfold scan_escape in H. pose proof (get_advanced lx Hok) as Ha.
  assert (∀ c, 0 <= c < 128 → Some (add c (get lx)) = Some lx' → advanced lx lx' ∧ added lx lx') as Hadd.
  { intros c Hc [= <-]. split; [done|]. eapply added_trans; [|by apply added_char].
    apply added_refl, get_buffer. }
  repeat (case_match; [by eapply Hadd; [|exact H]|]).
  case_match; [|done]. destruct (scan_unicode_spec (get lx) lx' (proj1 Ha) H) as [Ha' Hd'].
  split; [by eapply advanced_trans|]. eapply added_trans; [|done]. apply added_refl, get_buffer.
Qed.

Lemma bytes_in_range_spec ranges : ∀ lx,
  lexer_ok lx → Forall (λ r, 0 <= r.1) ranges →
  let '(ok, lx') := bytes_in_range ranges lx in
  advanced lx lx' ∧
  (ok = true → ∃ cs, token_buffer lx' = token_buffer lx ++ cs ∧
     Forall2 (λ r c, between r.1 (uchar c) r.2 = true) ranges cs).
Proof.
  induction ranges as [|[lo hi] ranges IH]; intros lx Hok Hf; cbn [bytes_in_range].
  { split; [by apply advanced_refl|]. intros _. exists []. by rewrite app_nil_r. }
  apply Forall_cons in Hf as [Hlo Hf]. cbn [fst] in Hlo. pose proof (get_advanced lx Hok) as Ha.
  destruct (between lo (current (get lx)) hi) eqn:E; [|done].
  destruct (get_cases lx Hok) as [(Hc & _)|(c & Hc & _)].
  { rewrite Hc in E. unfold between, eof in E. bool_hyps. lia. }
  rewrite Hc in *. specialize (IH (add (uchar c) (get lx)) (proj1 Ha) Hf).
  destruct (bytes_in_range ranges _) as [ok lx']. destruct IH as [Ha' Hk].
  split; [by eapply (advanced_trans lx)|]. intros Hok'. destruct (Hk Hok') as (cs & Hcs & Hr).
  exists (c :: cs). split; [|by constructor].
  rewrite Hcs, add_buffer, char_of_uchar, get_buffer. by rewrite <-app_assoc.
Qed.

Lemma next_bytes_spec c ranges lx :
  lexer_ok lx → current lx = uchar c → 128 <= uchar c → following_ranges (uchar c) = Some ranges →
  let '(ok, lx') := next_byte_in_range ranges lx in
  advanced lx lx' ∧ (ok = true → added lx lx').
Proof.
  intros Hok Hcur Hc Hr. unfold next_byte_in_range. rewrite Hcur.
  assert (Forall (λ r, 0 <= r.1) ranges) as Hlo.
  { unfold following_ranges in Hr. repeat (case_match; try discriminate Hr);
      injection Hr as <-; repeat constructor; done. }
  pose proof (bytes_in_range_spec ranges (add (uchar c) lx) Hok Hlo) as H.
  destruct (bytes_in_range ranges _) as [ok lx']. destruct H as [Ha Hk]. split; [done|].
  intros Ho. destruct (Hk Ho) as (cs & Hcs & Hf). exists (c :: cs).
  rewrite Hcs, add_buffer, char_of_uchar, <-app_assoc. split; [done|]. by eapply utf8_char.
Qed.

(** The string scanner ends, and what it accepts is UTF-8. *)
Lemma scan_string_loop_total fuel : ∀ lx,
  lexer_ok lx → (left lx < fuel)%nat →
  ∃ tok lx', scan_string_loop fuel lx = Ret (tok, lx') ∧ advanced lx lx' ∧
    (tok = parse_error ∨ tok = value_string ∧ added lx lx').
Proof.
  induction fuel as [|fuel IH]; intros lx Hok Hf; [lia|]. cbn [scan_string_loop].
  pose proof (get_advanced lx Hok) as Ha. pose proof (added_refl lx (get lx) (get_buffer lx)) as Hd.
  destruct (get_cases lx Hok) as [(-> & _)|(c & Hc & Hl & _)].
  { eexists _, _. split; [done|]. auto. }
  pose proof (uchar_range c). rewrite Hc, (proj2 (Z.eqb_neq (uchar c) eof)) by (unfold eof; lia).
  assert (∀ lx1, advanced (get lx) lx1 → added (get lx) lx1 →
    ∃ tok lx', scan_string_loop fuel lx1 = Ret (tok, lx') ∧ advanced lx lx' ∧
    (tok = parse_error ∨ tok = value_string ∧ added lx lx')) as Hrec.
  { intros lx1 Ha1 Hd1. pose proof Ha1 as (Hok1 & Hl1 & _).
    destruct (IH lx1 Hok1 ltac:(lia)) as (tok & lx' & Heq & Ha' & Ht).
    exists tok, lx'. split_and!; [done|by eapply advanced_trans; [|eapply advanced_trans]|].
    destruct Ht as [?|[? ?]]; [by left|right]. split; [done|].
    by eapply added_trans; [|eapply added_trans]. }
  destruct (uchar c =? 34); [eexists _, _; split; [done|]; auto|].
  destruct (uchar c =? 92) eqn:E92.
  { destruct (scan_escape (get lx)) as [lx1|] eqn:He; [|eexists _, _; split; [done|]; auto].
    apply scan_escape_spec in He as [? ?]; [|apply Ha]. by apply Hrec. }
  destruct (uchar c <=? 31); [eexists _, _; split; [done|]; auto|].
  destruct (uchar c <=? 127) eqn:E127; bool_hyps.
  { apply Hrec; [apply advanced_buffer, advanced_refl, Ha|]. apply added_char. lia. }
  destruct (following_ranges (uchar c)) as [ranges|] eqn:Hr; [|eexists _, _; split; [done|]; auto].
  pose proof (next_bytes_spec c ranges (get lx) (proj1 Ha) Hc ltac:(lia) Hr) as Hn.
  destruct (next_byte_in_range ranges (get lx)) as [[] lx1]; destruct Hn as [Ha1 Hd1].
  - by apply Hrec; [|apply Hd1].
  - eexists _, _. split; [done|]. split; [by eapply advanced_trans|by left].
Qed.

(** ** Numbers *)

(** The text of the number and its type, label by label. *)
Definition number_text (ty : token_type) (buf : bytes) : Prop :=
  match ty with
  | value_unsigned => Forall (λ c, is_digit_char c = true) buf
  | value_integer => ∃ ds, buf = "-"%char :: ds ∧ Forall (λ c, is_digit_char c = true) ds
  | _ => False
  end.

Definition number_inv (st : number_state) (ty : token_type) (buf : bytes) : Prop :=
  match st with
  | scan_number_minus => buf = bs "-"
  | scan_number_zero | scan_number_any1 => number_text ty buf
  | scan_number_decimal1 | scan_number_exponent => True
  | scan_number_decimal2 | scan_number_sign | scan_number_any2 => ty = value_float
  | scan_number_done => number_text ty buf ∨ ty = value_float
  end.

(** The token of a number and its value. *)
Definition number_ok (tok : token_type) (lx : lexer) : Prop :=
  match tok with
  | value_unsigned => 0 <= unsigned_value lx < 2 ^ 64
  | value_integer => - 2 ^ 63 <= integer_value lx <= 0
  | value_float => valid_binary 53 1024 (float_value lx) = true
  | parse_error => True
  | _ => False
  end.

Lemma convert_number_ok ty lx :
  number_inv scan_number_done ty (token_buffer lx) →
  ∃ tok lx', convert_number ty lx = (tok, lx') ∧ number_ok tok lx' ∧
    ∃ u i f, lx' = set_values u i f (unget lx).
Proof.
  intros Hi. unfold convert_number. change (token_buffer (unget lx)) with (token_buffer lx).
  assert (∀ u i b lx, number_ok value_float (set_values u i (strtod b) lx)) as Hfl by (intros; apply strtod_valid).
  destruct Hi as [Hi| ->]; [|eexists _, _; split; [done|]; split; [apply Hfl|]; eauto].
  destruct ty; try done; cbn [number_text] in Hi.
  - pose proof (dec_value_nonneg _ Hi).
    destruct (_ <? 2 ^ 64) eqn:E; bool_hyps; eexists _, _; (split; [done|]); split; eauto; try apply strtod_valid.
    cbn [number_ok set_values unsigned_value]; lia.
  - destruct Hi as (ds & -> & Hd). pose proof (dec_value_nonneg _ Hd).
    change (drop 1 ("-"%char :: ds)) with ds.
    destruct (- 2 ^ 63 <=? _) eqn:E; bool_hyps; eexists _, _; (split; [done|]); split; eauto; try apply strtod_valid.
    cbn [number_ok set_values integer_value]; lia.
Qed.

Lemma number_text_digit ty buf c :
  number_text ty buf → between 48 c 57 = true → number_text ty (buf ++ [char_of c]).
Proof.
  intros Ht Hc. unfold between in Hc. bool_hyps. assert (is_digit_char (char_of c) = true) as Hd.
  { unfold is_digit_char. rewrite uchar_small; lia. }
  destruct ty; try done; cbn [number_text] in *.
  - by apply Forall_app_2; [|repeat constructor].
  - destruct Ht as (ds & -> & Ht). exists (ds ++ [char_of c]). split; [done|].
    by apply Forall_app_2; [|repeat constructor].
Qed.

(** One step keeps the text and the type in accord, and reads on. *)
Lemma number_step_ok st ty lx :
  lexer_ok lx → number_inv st ty (token_buffer lx) → st ≠ scan_number_done →
  match number_step st ty lx with
  | (None, lx') => advanced lx lx'
  | (Some (scan_number_done, ty'), lx') =>
      lx' = get lx ∧ number_inv scan_number_done ty' (token_buffer lx')
  | (Some (st', ty'), lx') =>
      number_inv st' ty' (token_buffer lx') ∧ advanced lx lx' ∧ (left lx' < left lx)%nat
  end.
Proof.
  intros Hok Hi Hst. pose proof (get_advanced lx Hok) as Ha. pose proof (get_buffer lx) as Hb.
  set (c := current (get lx)) in *.
  assert (∀ st' ty', 0 <= c → number_inv st' ty' (token_buffer lx ++ [char_of c]) →
    number_inv st' ty' (token_buffer (add c (get lx))) ∧ advanced lx (add c (get lx)) ∧
    (left (add c (get lx)) < left lx)%nat) as Hkept.
  { intros st' ty' Hc Hinv. assert (left (get lx) < left lx)%nat.
    { apply get_less; [done|]. fold c. unfold eof. lia. }
    by rewrite <-Hb in Hinv. }
  assert (∀ d, cur_is (get lx) d = true → 0 <= c) as Hcur.
  { intros d Hd. unfold cur_is in Hd. bool_hyps. fold c in Hd. pose proof (uchar_range d). lia. }
  assert (∀ d e, cur_is (get lx) d || cur_is (get lx) e = true → 0 <= c) as Hcur2.
  { intros d e [Hd|Hd]%orb_true_iff; by eapply Hcur. }
  assert (is_digit (get lx) = true → 0 <= c ∧ between 48 c 57 = true) as Hdig.
  { unfold is_digit. fold c. intros Hd. split; [|done]. unfold between in Hd. bool_hyps. lia. }
  unfold number_step. fold c. destruct st; try done; cbn [number_inv] in Hi.
  - destruct (c =? 48) eqn:E1; bool_hyps.
    { apply Hkept; [lia|]. rewrite E1, Hi. cbn. exists (bs "0"). by repeat constructor. }
    destruct (between 49 c 57) eqn:E2; [|done]. unfold between in E2. bool_hyps.
    apply Hkept; [lia|]. rewrite Hi. exists [char_of c]. split; [done|]. repeat constructor.
    unfold is_digit_char. rewrite uchar_small; lia.
  - destruct (cur_is _ ".") eqn:E1; [by apply Hkept; eauto|].
    destruct (_ || _) eqn:E2; [by apply Hkept; eauto|]. rewrite Hb. split; [done|by left].
  - destruct (is_digit _) eqn:E0.
    { destruct (Hdig eq_refl). apply Hkept; [done|]. by apply number_text_digit. }
    destruct (cur_is _ ".") eqn:E1; [by apply Hkept; eauto|].
    destruct (_ || _) eqn:E2; [by apply Hkept; eauto|]. rewrite Hb. split; [done|by left].
  - destruct (is_digit _) eqn:E0; [|done]. destruct (Hdig eq_refl). by apply Hkept.
  - destruct (is_digit _) eqn:E0; [destruct (Hdig eq_refl); by apply Hkept|].
    destruct (_ || _) eqn:E2; [by apply Hkept; eauto|]. split; [done|by right].
  - destruct (_ || _) eqn:E2; [by apply Hkept; eauto|].
    destruct (is_digit _) eqn:E0; [|done]. destruct (Hdig eq_refl). by apply Hkept.
  - destruct (is_digit _) eqn:E0; [|done]. destruct (Hdig eq_refl). by apply Hkept.
  - destruct (is_digit _) eqn:E0; [destruct (Hdig eq_refl); by apply Hkept|]. split; [done|by right].
Qed.

Lemma scan_number_loop_total fuel : ∀ st ty lx,
  lexer_ok lx → number_inv st ty (token_buffer lx) → st ≠ scan_number_done →
  (left lx < fuel)%nat →
  ∃ tok lx', scan_number_loop fuel st ty lx = Ret (tok, lx') ∧ advanced lx lx' ∧ number_ok tok lx'.
Proof.
  induction fuel as [|fuel IH]; intros st ty lx Hok Hi Hst Hf; [lia|]. cbn [scan_number_loop].
  pose proof (number_step_ok st ty lx Hok Hi Hst) as Hs.
  destruct (number_step st ty lx) as [[[st' ty']|] lx1]; [|by eexists _, _].
  assert (st' = scan_number_done ∨ st' ≠ scan_number_done) as [->|Hd] by (destruct (decide (st' = scan_number_done)); auto).
  - destruct Hs as [-> Hi']. destruct (convert_number_ok ty' (get lx) Hi') as (tok & lx' & -> & Hv & (u & i & f & ->)).
    eexists _, _. split; [done|]. split; [|done]. by apply advanced_values, unget_advanced.
  - assert (number_inv st' ty' (token_buffer lx1) ∧ advanced lx lx1 ∧ (left lx1 < left lx)%nat)
      as (Hi' & Ha & Hl) by (by destruct st').
    destruct (IH st' ty' lx1 (proj1 Ha) Hi' Hd ltac:(lia)) as (tok & lx' & Heq & Ha' & Hv).
    exists tok, lx'. split_and!; [by destruct st'|by eapply advanced_trans|done].
Qed.

(** ** Tokens *)

Definition token_ok (tok : token_type) (lx : lexer) : Prop :=
  match tok with
  | value_string => utf8_ok (token_buffer lx) = true
  | value_unsigned | value_integer | value_float => number_ok tok lx
  | _ => True
  end.

Definition no_more (tok : token_type) : Prop := tok = end_of_input ∨ tok = parse_error.

Lemma literal_rest_total l ty : ∀ lx, lexer_ok lx →
  ∃ tok lx', literal_rest l ty lx = (tok, lx') ∧ advanced lx lx' ∧ (tok = ty ∨ tok = parse_error).
Proof.
  induction l as [|c l IH]; intros lx Hok; cbn [literal_rest].
  { eexists _, _. split; [done|]. split; [by apply advanced_refl|by left]. }
  pose proof (get_advanced lx Hok) as Ha. case_bool_decide; [|eauto 6].
  destruct (IH (get lx) (proj1 Ha)) as (tok & lx' & -> & Ha' & Ht).
  eexists _, _. split; [done|]. split; [by eapply advanced_trans|done].
Qed.

Lemma skip_whitespace_total fuel : ∀ lx, lexer_ok lx → (left lx < fuel)%nat →
  ∃ lx0, skip_whitespace fuel lx = Ret (get lx0) ∧ advanced lx lx0.
Proof.
  induction fuel as [|fuel IH]; intros lx Hok Hf; [lia|]. cbn [skip_whitespace].
  destruct (_ || _) eqn:E; [|exists lx; split; [done|by apply advanced_refl]].
  assert (left (get lx) < left lx)%nat as Hl.
  { rewrite !orb_true_iff in E. destruct E as [[[E|E]|E]|E]; by eapply get_is. }
  pose proof (get_advanced lx Hok) as Ha.
  destruct (IH (get lx) (proj1 Ha) ltac:(lia)) as (lx0 & -> & Ha').
  exists lx0. split; [done|by eapply advanced_trans].
Qed.

(** The lexer with a character just read. *)
Definition reading (lx : lexer) : Prop := next_unget lx = false ∧ -1 <= current lx < 256.

Lemma reading_get lx : lexer_ok lx → reading (get lx).
Proof.
  intros Hok. split; [|by apply get_range]. by destruct (get_cases lx Hok) as [(_&_&_&?)|(?&_&_&?)].
Qed.

Lemma reading_ok lx : reading lx → lexer_ok lx ∧ left lx = length (ia lx).
Proof.
  intros [Hu _]. split; [by intros Hu'; rewrite Hu in Hu'|]. unfold left, remaining. by rewrite Hu.
Qed.

Lemma scan_string_total lx : reading lx →
  ∃ tok lx', scan_string lx = Ret (tok, lx') ∧ advanced lx lx' ∧ token_ok tok lx'.
Proof.
  intros Hr. destruct (reading_ok lx Hr) as [Hok Hl]. unfold scan_string.
  destruct (scan_string_loop_total (S (length (ia (reset lx)))) (reset lx) Hok)
    as (tok & lx' & -> & Ha & Ht).
  { change (left lx < S (length (ia lx)))%nat. lia. }
  eexists _, _. split; [done|]. split; [done|].
  destruct Ht as [->|[-> (k & Hb & Hk)]]; [done|]. cbn [token_ok]. by rewrite Hb.
Qed.

Lemma scan_number_total lx : reading lx → cur_is lx "-" || is_digit lx = true →
  ∃ tok lx', scan_number lx = Ret (tok, lx') ∧ advanced lx lx' ∧ token_ok tok lx'.
Proof.
  intros Hr Hc. destruct (reading_ok lx Hr) as [Hok Hl]. destruct Hr as [_ Hr]. unfold scan_number.
  change (current (reset lx)) with (current lx).
  assert (∀ st, number_inv st value_unsigned [char_of (current lx)] → st ≠ scan_number_done →
    ∃ tok lx', scan_number_loop (S (length (ia (reset lx)))) st value_unsigned
      (add (current lx) (reset lx)) = Ret (tok, lx') ∧ advanced lx lx' ∧ token_ok tok lx') as Hgo.
  { intros st Hi Hst.
    destruct (scan_number_loop_total (S (length (ia (reset lx)))) st value_unsigned
      (add (current lx) (reset lx)) Hok Hi Hst) as (tok & lx' & -> & Ha & Ht).
    { change (left lx < S (length (ia lx)))%nat. lia. }
    eexists _, _. split; [done|]. split; [done|]. by destruct tok. }
  destruct (current lx =? 45) eqn:E1; bool_hyps; [apply Hgo; [by rewrite E1|done]|].
  destruct (current lx =? 48) eqn:E2; bool_hyps; [apply Hgo; [rewrite E2; by repeat constructor|done]|].
  apply orb_true_iff in Hc as [Hc|Hc]; [unfold cur_is in Hc; bool_hyps; done|].
  unfold is_digit, between in Hc. bool_hyps. rewrite between_true by lia.
  apply Hgo; [|done]. constructor; [|done]. unfold is_digit_char. rewrite uchar_small; lia.
Qed.

Lemma scan_literal_total c l ty lx :
  reading lx → cur_is lx c = true → (∀ lx', token_ok ty lx') →
  ∃ tok lx', scan_literal (c :: l) ty lx = Ret (tok, lx') ∧ advanced lx lx' ∧ token_ok tok lx'.
Proof.
  intros Hr Hc Hty. destruct (reading_ok lx Hr) as [Hok _]. unfold scan_literal.
  unfold cur_is in Hc. bool_hyps. change (drop 1 (c :: l)) with l. cbn [head]. rewrite Hc, char_of_uchar, bool_decide_true by done.
  cbn [cpp_assert mbind outcome_bind].
  destruct (literal_rest_total l ty lx Hok) as (tok & lx' & -> & Ha & [->| ->]);
    (eexists _, _; split; [done|]; by split).
Qed.

Lemma scan_switch_total lx : reading lx →
  ∃ tok lx', scan_switch lx = Ret (tok, lx') ∧ advanced lx lx' ∧ token_ok tok lx' ∧
    (current lx = eof → tok = end_of_input).
Proof.
  intros Hr. destruct (reading_ok lx Hr) as [Hok _].
  assert (∀ c tok, cur_is lx c = true → token_ok tok lx →
    ∃ tok' lx', Ret (tok, lx) = Ret (tok', lx') ∧ advanced lx lx' ∧ token_ok tok' lx' ∧
      (current lx = eof → tok' = end_of_input)) as Hone.
  { intros c tok Hc Ht. eexists _, _. split; [done|]. split; [by apply advanced_refl|]. split; [done|].
    intros He. unfold cur_is in Hc. bool_hyps. pose proof (uchar_range c). unfold eof in He. lia. }
  assert (∀ (m : outcome (token_type * lexer)) b, b = true →
    (∃ tok lx', m = Ret (tok, lx') ∧ advanced lx lx' ∧ token_ok tok lx') → 
    (b = true → current lx ≠ eof) →
    ∃ tok lx', m = Ret (tok, lx') ∧ advanced lx lx' ∧ token_ok tok lx' ∧
    (current lx = eof → tok = end_of_input)) as Hmany.
  { intros m b Hb (tok & lx' & -> & Ha & Ht) He. eexists _, _. split; [done|]. split_and!; [done|done|].
    by specialize (He Hb). }
  assert (∀ c, cur_is lx c = true → current lx ≠ eof) as Hneof.
  { intros c Hc. unfold cur_is in Hc. bool_hyps. pose proof (uchar_range c). unfold eof. lia. }
  unfold scan_switch.
  do 6 (case_match eqn:E; [by eapply Hone|clear E]).
  case_match eqn:E1; [by eapply Hmany; [done|eapply scan_literal_total|eauto]|].
  case_match eqn:E2; [by eapply Hmany; [done|eapply scan_literal_total|eauto]|].
  case_match eqn:E3; [by eapply Hmany; [done|eapply scan_literal_total|eauto]|].
  case_match eqn:E4; [by eapply Hmany; [done|apply scan_string_total|eauto]|].
  case_match eqn:E5.
  { eapply Hmany; [done|by apply scan_number_total|]. intros _.
    apply orb_true_iff in E5 as [E5|E5]; [by eapply Hneof|].
    unfold is_digit, between in E5. bool_hyps. unfold eof. lia. }
  case_match eqn:E6.
  - eexists _, _. split; [done|]. by split; [apply advanced_refl|].
  - eexists _, _. split; [done|]. split_and!; [by apply advanced_refl|done|].
    intros He. rewrite He, orb_true_r in E6. done.
Qed.

Lemma skip_bom_advanced lx : lexer_ok lx → advanced lx (skip_bom lx).2.
Proof.
  intros Hok. unfold skip_bom. pose proof (get_advanced lx Hok) as H1.
  case_match; [|by apply unget_advanced].
  pose proof (get_advanced _ (proj1 H1)) as H2. case_match; [|by eapply advanced_trans].
  pose proof (get_advanced _ (proj1 H2)) as H3. cbn [snd].
  by eapply advanced_trans; [|eapply advanced_trans].
Qed.

(** Every scan ends with a token; unless it is the last or an error, characters
    have gone into it. *)
Lemma scan_total lx : lexer_ok lx →
  ∃ tok lx', scan lx = Ret (tok, lx') ∧ lexer_ok lx' ∧ (left lx' <= left lx)%nat ∧
    token_ok tok lx' ∧ (no_more tok ∨ (left lx' < left lx)%nat).
Proof.
  intros Hok. unfold scan.
  assert (∃ b lx1, (if chars_read_total lx =? 0 then skip_bom lx else (true, lx)) = (b, lx1) ∧
    advanced lx lx1) as (b & lx1 & -> & Ha1).
  { case_match; [|by eexists _, _; split; [|apply advanced_refl]].
    pose proof (skip_bom_advanced lx Hok). by destruct (skip_bom lx); eexists _, _. }
  destruct Ha1 as (Hok1 & Hl1 & _).
  destruct b; [|by eexists _, _; split; [done|]; split_and!; [done|lia|done|left; right]].
  unfold scan_token. destruct (skip_whitespace_total (S (S (length (ia lx1)))) lx1 Hok1) as (lx0 & -> & Ha0).
  { pose proof (remaining_length lx1). unfold left. lia. }
  cbn [mbind outcome_bind]. destruct Ha0 as (Hok0 & Hl0 & _).
  pose proof (get_advanced lx0 Hok0) as (_ & Hlg & _).
  destruct (scan_switch_total (get lx0) (reading_get lx0 Hok0)) as (tok & lx' & -> & (Hok' & Hl' & _) & Ht & He).
  exists tok, lx'. split_and!; [done|done|lia|done|].
  destruct (decide (current (get lx0) = eof)) as [E|E]; [left; left; auto|right].
  pose proof (get_less lx0 Hok0 E). lia.
Qed.

(** * The parser on every input *)

(** The value as it is read back: the parser takes a number without a sign for an
    unsigned one. *)
Fixpoint unsigned (j : json) : json :=
  match j with
  | JInt z => if 0 <=? z then JUint z else JInt z
  | JArray l => JArray (unsigned <$> l)
  | JObject l => JObject ((λ kv, (kv.1, unsigned kv.2)) <$> l)
  | _ => j
  end.

(** Its numbers as the parser gives them. *)
Definition reads_back (j : json) : bool := plain_with finite_double (unsigned j).

(** A value the serializer takes, and the parser gives again. *)
Definition good (j : json) : Prop := json_wf j ∧ json_utf8 j = true ∧ reads_back j = true.

Definition frame_ok (f : frame) : Prop :=
  match f with
  | Array_frame l => Forall good l
  | Object_frame l key =>
      in_order l ∧ Forall (λ kv, utf8_ok kv.1 = true ∧ good kv.2) l ∧ utf8_ok key = true
  end.

Lemma good_array l : Forall good l → good (JArray l).
Proof.
  intros H. split_and!.
  - cbn [json_wf]. apply (foldr_and_Forall json_wf). eapply Forall_impl; [done|]. by intros x [? _].
  - cbn [json_utf8]. apply forallb_forall. intros x Hx%list_elem_of_In. rewrite Forall_forall in H. by apply H.
  - unfold reads_back. cbn [unsigned plain_with]. apply forallb_forall.
    intros x (y & -> & Hy)%list_elem_of_In%list_elem_of_fmap. rewrite Forall_forall in H. by apply H.
Qed.

Lemma good_object l :
  in_order l → Forall (λ kv, utf8_ok kv.1 = true ∧ good kv.2) l → good (JObject l).
Proof.
  intros Ho H. split_and!; [cbn [json_wf]|cbn [json_utf8]|].
  - split; [done|]. apply (foldr_and_Forall (λ kv, json_wf kv.2)).
    eapply Forall_impl; [done|]. by intros x (_ & ? & _).
  - apply forallb_forall. intros x Hx%list_elem_of_In. rewrite Forall_forall in H.
    destruct (H x Hx) as (-> & _ & -> & _). done.
  - unfold reads_back. cbn [unsigned plain_with]. apply forallb_forall.
    intros x (y & -> & Hy)%list_elem_of_In%list_elem_of_fmap. rewrite Forall_forall in H. by apply (H y Hy).
Qed.

Lemma member_set_good key v l :
  utf8_ok key = true → good v → Forall (λ kv, utf8_ok kv.1 = true ∧ good kv.2) l →
  Forall (λ kv, utf8_ok kv.1 = true ∧ good kv.2) (member_set key v l).
Proof.
  intros Hk Hv Hl. apply Forall_forall. intros kv [->|Hin]%member_set_elem; [done|].
  rewrite Forall_forall in Hl. auto.
Qed.

Lemma object_key_ok key l :
  utf8_ok key = true → in_order l → Forall (λ kv, utf8_ok kv.1 = true ∧ good kv.2) l →
  frame_ok (object_key key l).
Proof.
  intros Hk Ho Hl. unfold object_key, member_emplace. cbn [frame_ok].
  destruct (member_get key l); [done|]. split_and!; [by apply member_set_in_order| |done].
  by apply member_set_good.
Qed.

Lemma handle_value_ok v stack root :
  good v → Forall frame_ok stack → good root →
  Forall frame_ok (handle_value v stack root).1 ∧ good (handle_value v stack root).2.
Proof.
  intros Hv Hs Hr. destruct stack as [|[l|l key] stack]; [done|..];
    apply Forall_cons in Hs as [Hf Hs]; cbn in *; (split; [|done]); constructor; try done; cbn.
  - by apply Forall_app_2; [|constructor].
  - destruct Hf as (Ho & Hl & Hk). split_and!; [by apply member_set_in_order| |done].
    by apply member_set_good.
Qed.

(** A value and the lexer behind it, or one of the two exceptions. *)
Definition safe (m : outcome (json * lexer)) : Prop :=
  (∃ j lx, m = Ret (j, lx) ∧ good j ∧ lexer_ok lx) ∨
  m = Throw (json_exception 101) ∨ m = Throw (json_exception 406).

Definition is_last (tok : token_type) : bool := bool_decide (tok ∈ [end_of_input; parse_error]).

(** The rounds the loop may still take. *)
Definition need (tok : token_type) (lx : lexer) : nat :=
  if is_last tok then S (left lx) else S (S (left lx)).

Definition loop_safe (n : nat) (loop : bool → sax_state → outcome (json * lexer)) : Prop :=
  ∀ skip tok lx stack root, lexer_ok lx → token_ok tok lx → Forall frame_ok stack → good root →
    (skip = true → is_last tok = false) → (need tok lx <= n)%nat → safe (loop skip (tok, lx, stack, root)).

Lemma is_last_spec tok : no_more tok ↔ is_last tok = true.
Proof.
  unfold no_more, is_last. rewrite bool_decide_eq_true, !elem_of_cons, elem_of_nil. tauto.
Qed.

(** A scan that costs a round: whatever it returns, the loop can go on. *)
Lemma scan_next lx : lexer_ok lx →
  ∃ tok lx', scan lx = Ret (tok, lx') ∧ lexer_ok lx' ∧ (left lx' <= left lx)%nat ∧
    token_ok tok lx' ∧ (need tok lx' <= S (left lx))%nat ∧
    (is_last tok = false → (left lx' < left lx)%nat).
Proof.
  intros Hok. destruct (scan_total lx Hok) as (tok & lx' & -> & Hok' & Hl & Ht & Hm).
  exists tok, lx'. unfold need. destruct Hm as [Hm%is_last_spec|Hm].
  - rewrite Hm. split_and!; done || lia.
  - split_and!; try done. destruct (is_last tok); lia.
Qed.

Lemma parse_key_ok tok lx l :
  lexer_ok lx → token_ok tok lx → in_order l →
  Forall (λ kv, utf8_ok kv.1 = true ∧ good kv.2) l →
  parse_key tok lx l = Throw (json_exception 101) ∨
  ∃ top tok' lx', parse_key tok lx l = Ret (top, tok', lx') ∧ tok = value_string ∧ frame_ok top ∧
    lexer_ok lx' ∧ token_ok tok' lx' ∧ (need tok' lx' <= S (left lx))%nat.
Proof.
  intros Hok Ht Ho Hl. unfold parse_key. case_bool_decide as E; [by left|].
  assert (tok = value_string) as -> by (by destruct (decide (tok = value_string))).
  destruct (scan_next lx Hok) as (tok1 & lx1 & -> & Hok1 & Hl1 & _ & _ & _). cbn [mbind outcome_bind].
  case_bool_decide; [by left|].
  destruct (scan_next lx1 Hok1) as (tok2 & lx2 & -> & Hok2 & Hl2 & Ht2 & Hn2 & _). cbn [mbind outcome_bind].
  right. eexists _, _, _. split; [done|]. split_and!; [done|by apply object_key_ok|done|done|lia].
Qed.

Lemma state_evaluation_safe n loop lx stack root :
  loop_safe n loop → lexer_ok lx → Forall frame_ok stack → good root → (S (left lx) <= n)%nat →
  safe (state_evaluation loop lx stack root).
Proof.
  intros Hloop Hok Hs Hr Hn. destruct stack as [|f stack]; [left; by eexists _, _|].
  apply Forall_cons in Hs as [Hf Hs]. cbn [state_evaluation].
  assert (∀ v lx1 tok1, good v → lexer_ok lx1 → token_ok tok1 lx1 → is_last tok1 = false →
    (left lx1 < left lx)%nat →
    safe (let '(stack, root) := handle_value v stack root in loop true (tok1, lx1, stack, root))) as Hend.
  { intros v lx1 tok1 Hv Hok1 Ht1 Hlast Hl1. pose proof (handle_value_ok v stack root Hv Hs Hr) as [H1 H2].
    destruct (handle_value v stack root) as [stack' root']. apply Hloop; try done; [].
    unfold need. rewrite Hlast. lia. }
  destruct (scan_next lx Hok) as (tok1 & lx1 & -> & Hok1 & Hl1 & Ht1 & _ & Hless). cbn [mbind outcome_bind].
  destruct f as [l|l key]; (case_bool_decide as E1; [subst tok1|case_bool_decide as E2; [subst tok1|]]).
  - destruct (scan_next lx1 Hok1) as (tok2 & lx2 & -> & Hok2 & Hl2 & Ht2 & Hn2 & _). cbn [mbind outcome_bind].
    specialize (Hless eq_refl). apply Hloop; [done|done|by constructor|done|done|lia].
  - apply Hend; [by apply good_array|done|done|done|by apply Hless].
  - right. by left.
  - destruct (scan_next lx1 Hok1) as (tok2 & lx2 & -> & Hok2 & Hl2 & Ht2 & Hn2 & _). cbn [mbind outcome_bind].
    specialize (Hless eq_refl). destruct Hf as (Ho & Hl & _).
    destruct (parse_key_ok tok2 lx2 l Hok2 Ht2 Ho Hl) as [->|(top & tok3 & lx3 & -> & _ & ? & ? & ? & ?)];
      cbn [mbind outcome_bind]; [right; by left|].
    apply Hloop; [done|done|by constructor|done|done|lia].
  - destruct Hf as (Ho & Hl & _). apply Hend; [by apply good_object|done|done|done|by apply Hless].
  - right. by left.
Qed.

Lemma parse_value_safe n loop tok lx stack root :
  loop_safe n loop → lexer_ok lx → token_ok tok lx → Forall frame_ok stack → good root →
  (need tok lx <= S n)%nat → safe (parse_value loop (tok, lx, stack, root)).
Proof.
  intros Hloop Hok Ht Hs Hr Hn.
  assert (∀ v lx1, good v → lexer_ok lx1 → (S (left lx1) <= n)%nat →
    safe (let '(stack, root) := handle_value v stack root in state_evaluation loop lx1 stack root)) as Hval.
  { intros v lx1 Hv Hok1 Hl1. pose proof (handle_value_ok v stack root Hv Hs Hr) as [H1 H2].
    destruct (handle_value v stack root) as [stack' root']. by eapply state_evaluation_safe. }
  assert (is_last tok = false → (S (left lx) <= n)%nat) as Hn1.
  { unfold need in Hn. intros Hl. rewrite Hl in Hn. lia. }
  cbn [parse_value]. destruct tok; try (right; by left); try specialize (Hn1 eq_refl).
  - by apply Hval.
  - by apply Hval.
  - by apply Hval.
  - by apply Hval.
  - apply Hval; [|done|done]. by split_and!; [exact Ht|..].
  - apply Hval; [|done|done]. cbn in Ht. split_and!; [cbn; lia|done|].
    unfold reads_back. cbn [unsigned]. destruct (Z.leb_spec 0 (integer_value lx)); [done|].
    cbn [plain_with]. lia.
  - cbn [token_ok number_ok] in Ht. destruct (isfinite (float_value lx)) eqn:Hfin; [|right; by right].
    apply Hval; [|done|done]. split_and!; [done|done|]. unfold reads_back, finite_double.
    cbn [unsigned plain_with]. by rewrite Hfin, Ht.
  - destruct (scan_next lx Hok) as (tok1 & lx1 & -> & Hok1 & Hl1 & Ht1 & Hn1' & _). cbn [mbind outcome_bind].
    case_bool_decide; [apply Hval; [by apply good_array|done|lia]|].
    apply Hloop; [done|done|by constructor; [constructor|]|done|done|lia].
  - destruct (scan_next lx Hok) as (tok1 & lx1 & -> & Hok1 & Hl1 & Ht1 & Hn1' & Hless). cbn [mbind outcome_bind].
    case_bool_decide; [apply Hval; [by apply good_object; constructor|done|lia]|].
    destruct (parse_key_ok tok1 lx1 [] Hok1 Ht1) as [->|(top & tok3 & lx3 & -> & -> & ? & ? & ? & ?)];
      [constructor|constructor|cbn [mbind outcome_bind]; right; by left|]. cbn [mbind outcome_bind].
    specialize (Hless eq_refl). apply Hloop; [done|done|by constructor|done|done|lia].
Qed.

Lemma sax_parse_safe fuel : loop_safe fuel (sax_parse_internal fuel).
Proof.
  induction fuel as [|fuel IH]; intros skip tok lx stack root Hok Ht Hs Hr Hskip Hn.
  { unfold need in Hn. destruct (is_last tok); lia. }
  cbn [sax_parse_internal]. destruct skip.
  - eapply state_evaluation_safe; [done..|]. unfold need in Hn. rewrite Hskip in Hn by done. lia.
  - by eapply parse_value_safe.
Qed.

(** ** Integers that the parser makes unsigned *)

Section unsigned.
Context (dump_float : spec_float → bytes) (pretty_print : bool) (indent_step : Z).

Lemma joined_ext {A B} (f : A → bytes) (g : B → bytes) (h : A → B) sep l :
  Forall (λ x, g (h x) = f x) l → joined g sep (h <$> l) = joined f sep l.
Proof.
  induction 1 as [|x l Hx _ IH]; [done|]. rewrite fmap_cons. destruct l as [|y l]; [exact Hx|].
  rewrite fmap_cons in *. cbn [joined] in *. by rewrite Hx, IH.
Qed.

Lemma text_unsigned j : ∀ cur,
  text dump_float pretty_print indent_step (unsigned j) cur = text dump_float pretty_print indent_step j cur.
Proof.
  induction j as [ | b | z | z | f | s | s st | l IH | l IH] using json_ind'; intros cur; try done.
  - cbn [unsigned]. by destruct (0 <=? z).
  - destruct l as [|x l]; [done|]. cbn [unsigned]. rewrite fmap_cons. cbn [text]. rewrite <-fmap_cons.
    do 2 f_equal. f_equal. apply joined_ext. eapply Forall_impl; [exact IH|]. auto.
  - destruct l as [|x l]; [done|]. cbn [unsigned]. rewrite fmap_cons. cbn [text].
    change ((x.1, unsigned x.2) :: ((λ kv, (kv.1, unsigned kv.2)) <$> l))
      with ((λ kv, (kv.1, unsigned kv.2)) <$> x :: l).
    do 2 f_equal. f_equal. apply joined_ext. eapply Forall_impl; [exact IH|]. cbn [fst snd].
    intros y Hy. by rewrite Hy.
Qed.
End unsigned.

Lemma unsigned_keys (l : list (bytes * json)) : ((λ kv, (kv.1, unsigned kv.2)) <$> l).*1 = l.*1.
Proof. rewrite <-list_fmap_compose. by apply list_fmap_ext. Qed.

Lemma in_order_keys {A B} (l : list (bytes * A)) (l' : list (bytes * B)) :
  l.*1 = l'.*1 → in_order l → in_order l'.
Proof.
  revert l'. induction l as [|[k v] l IH]; intros [|[k' v'] l'] Heq Ho; try done; [constructor|].
  cbn in Heq. injection Heq as -> Heq. apply StronglySorted_inv in Ho as [Hs Hf].
  constructor; [by apply IH|]. clear -Heq Hf. revert l' Heq.
  induction Hf as [|[k2 v2] l Hk _ IH]; intros [|[k3 v3] l'] Heq; try done.
  cbn in Heq. injection Heq as -> Heq. constructor; [exact Hk|by apply IH].
Qed.

Lemma unsigned_wf j : json_wf j → json_wf (unsigned j).
Proof.
  induction j as [ | b | z | z | f | s | s st | l IH | l IH] using json_ind'; try done.
  - cbn. destruct (0 <=? z) eqn:E; bool_hyps; cbn; lia.
  - cbn [json_wf unsigned]. rewrite !(foldr_and_Forall json_wf), Forall_fmap. intros H.
    eapply Forall_impl; [apply Forall_and; split; [exact IH|exact H]|]. intros x [H1 H2]. auto.
  - cbn [json_wf unsigned]. rewrite !(foldr_and_Forall (λ kv, json_wf kv.2)), Forall_fmap.
    intros [Ho H]. split; [by eapply in_order_keys; [symmetry; apply unsigned_keys|]|].
    eapply Forall_impl; [apply Forall_and; split; [exact IH|exact H]|]. intros x [H1 H2]. cbn. auto.
Qed.

Lemma unsigned_utf8 j : json_utf8 (unsigned j) = json_utf8 j.
Proof.
  induction j as [ | b | z | z | f | s | s st | l IH | l IH] using json_ind'; try done.
  - cbn. by destruct (0 <=? z).
  - cbn [json_utf8 unsigned]. induction IH as [|x l Hx _ IHl]; [done|]. rewrite fmap_cons.
    cbn [forallb]. by rewrite Hx, IHl.
  - cbn [json_utf8 unsigned]. induction IH as [|x l Hx _ IHl]; [done|]. rewrite fmap_cons.
    cbn [forallb fst snd]. by rewrite Hx, IHl.
Qed.

(** [parse] after [dump] when some integers are signed and not negative. *)
Lemma json_dump_unsigned_with dump_float float_plain indent j s : float_text dump_float float_plain →
  json_wf j → plain_with float_plain (unsigned j) = true → indent_fits indent j →
  json_dump dump_float indent j = Ret s → json_parse s = Ret (unsigned j).
Proof.
  intros Hf Hwf Hp Hi Hd. rewrite json_dump_text in Hd by done.
  destruct (json_utf8 j) eqn:Hu; [|done]. injection Hd as <-. unfold json_text.
  assert (∀ x, json_parse (x ++ []) = Ret (unsigned j) → json_parse x = Ret (unsigned j)) as Hn
    by (intros x; by rewrite app_nil_r).
  apply Hn. clear Hn.
  destruct (0 <=? indent); rewrite <-text_unsigned; apply (json_parse_text _ _ _ _ Hf);
    first [by apply unsigned_wf | by rewrite unsigned_utf8 | done | by left].
Qed.

Lemma json_dump_unsigned dump_float indent j s :
  json_wf j → json_plain (unsigned j) = true → indent_fits indent j →
  json_dump dump_float indent j = Ret s → json_parse s = Ret (unsigned j).
Proof. apply json_dump_unsigned_with, no_float_text. Qed.

(** How [parse] ends. *)
Lemma json_parse_outcome (s : bytes) :
  (∃ j, json_parse s = Ret j ∧ good j) ∨
  json_parse s = Throw (json_exception 101) ∨ json_parse s = Throw (json_exception 406).
Proof.
  assert (lexer_ok (make_lexer s)) as Hok by done. unfold json_parse.
  destruct (scan_next _ Hok) as (tok & lx & -> & Hok1 & _ & Ht & Hn & _). cbn [mbind outcome_bind].
  destruct (sax_parse_safe (length s + 3) false tok lx [] JNull Hok1 Ht) as
    [(j & lx' & -> & Hgood & Hok')|[-> | ->]]; try (cbn; auto); try done.
  - change (left (make_lexer s)) with (length s) in Hn. lia.
  - destruct (scan_next lx' Hok') as (tok2 & lx2 & -> & _). cbn [mbind outcome_bind].
    case_bool_decide; [auto|]. left. by exists j.
Qed.

(** * Properties *)

(** C4: every value that is printed can be read back, its [double]s exactly.  For a
    value with its objects in key order, its numbers in 64 bits and in the form the
    parser gives them (every [double] finite, nothing binary), at any indentation from
    none to 512 columns, [dump] succeeds when every key and string is UTF-8 and
    otherwise throws type_error.316; and [parse] of what it returned, on its own or
    followed by the NUL of a C string, is the value again. *)
Theorem json_roundtrip (indent : Z) (j : json) :
  json_wf j → plain_with finite_double j = true → indent_fits indent j →
  if json_utf8 j then
    ∃ s, json_dump double_text indent j = Ret s ∧ json_parse s = Ret j ∧
         json_parse (s ++ [NUL]) = Ret j
  else json_dump double_text indent j = Throw (type_error 316).
Proof.
  intros Hwf Hp Hi. pose proof (json_dump_text double_text indent j Hwf Hi) as Hd.
  destruct (json_utf8 j); [|done]. eexists. split; [exact Hd|].
  eapply json_dump_parse_with; [apply double_float_text|done..].
Qed.

(** 5e-324, -0.1 and the largest [double] *)
Definition sample_doubles : json :=
  JArray [JFloat (S754_finite false 1 (-1074)); JFloat (S754_finite true 7205759403792794 (-56));
          JFloat (S754_finite false 9007199254740991 971); JFloat (S754_zero true)].

Definition sample : json :=
  JObject [(bs "id", JUint 18446744073709551615); (bs "l", JArray [JInt (-7); sample_doubles; JObject []]);
           (bs "t", JString (bs "a" ++ [DQ; LF; NUL] ++ [char_of 226; char_of 130; char_of 172]))].

Lemma sample_in_order {A} (k1 k2 k3 : bytes) (v1 v2 v3 : A) :
  bytes_cmp k1 k2 = Lt → bytes_cmp k2 k3 = Lt → in_order [(k1, v1); (k2, v2); (k3, v3)].
Proof.
  intros H1 H2. repeat constructor; unfold key_lt, bytes_lt; cbn; try done.
  by eapply bytes_cmp_lt_trans.
Qed.

Lemma json_roundtrip_witness :
  (∃ s, json_dump double_text 2 sample = Ret s ∧ json_parse s = Ret sample ∧
        json_parse (s ++ [NUL]) = Ret sample) ∧
  json_dump double_text (-1) (JArray [JString [char_of 255]]) = Throw (type_error 316).
Proof.
  assert (json_wf sample) as Hs.
  { cbn. split; [by apply sample_in_order|]. cbn. repeat split; try lia; constructor. }
  split.
  - exact (json_roundtrip 2 sample Hs eq_refl ltac:(split; [lia | reflexivity])).
  - exact (json_roundtrip (-1) (JArray [JString [char_of 255]])
      ltac:(cbn; repeat split) eq_refl ltac:(split; [lia | reflexivity])).
Defined.

(** C27: [parse] on any bytes whatever ends with a value or with one of its
    exceptions, parse_error.101 or, for a number too large for a [double],
    out_of_range.406: no assertion fails and no loop runs on.  The value is one the
    serializer takes: numbers in range, keys in order and once, and every string
    UTF-8, those written with escapes included; so [dump] prints it at any
    indentation, and its text is parsed to the same value, the [double]s bit for bit
    (an integer read as the signed -0 comes back unsigned). *)
Theorem json_parse_total (s : bytes) :
  (∃ j, json_parse s = Ret j ∧ json_wf j ∧ json_utf8 j = true ∧
     ∀ indent, indent_fits indent j →
       ∃ t, json_dump double_text indent j = Ret t ∧ json_parse t = Ret (unsigned j)) ∨
  json_parse s = Throw (json_exception 101) ∨ json_parse s = Throw (json_exception 406).
Proof.
  destruct (json_parse_outcome s) as [(j & Hj & Hwf & Hu & Hr)|H]; [left|by right].
  exists j. split_and!; [done..|]. intros indent Hi.
  pose proof (json_dump_text double_text indent j Hwf Hi) as Hd. rewrite Hu in Hd.
  eexists. split; [exact Hd|]. eapply json_dump_unsigned_with; [apply double_float_text|done..].
Qed.
