(* ===== verification/JsonBinary.v ===== *)
(** * The binary reader and writer (src/cppboot/base/internal/json/json.hpp)

    What [binary_reader] and [binary_writer] use for every format: numbers in
    network order, strings, the end of the input, and the events that
    [json_sax_dom_parser] turns into a value.  The machine is little-endian.  The
    number of characters read is left out: it is part of messages only. *)

From S2P Require Import Prelude JsonValue JsonDump JsonParse JsonFloat.

Module Binary.

(** ** Output *)

(** The bytes of an unsigned number's object in memory. *)
Fixpoint le_bytes (size : nat) (n : Z) : bytes :=
  match size with
  | O => []
  | S size => char_of n :: le_bytes size (n / 256)
  end.
Fixpoint le_value (vec : bytes) : Z :=
  match vec with
  | [] => 0
  | c :: vec => uchar c + 256 * le_value vec
  end.
(** The same bytes as a number with a sign. *)
Definition signed (size : nat) (n : Z) : Z :=
  if n <? 2 ^ (8 * Z.of_nat size - 1) then n else n - 2 ^ (8 * Z.of_nat size).

(** [n] converted to a type of [size] bytes, most significant byte first. *)
Definition write_number (size : nat) (n : Z) : bytes := reverse (le_bytes size n).

(** The prefixes are the format's; [nan_bits] is the pattern of a NaN. *)
Definition write_compact_float (single_prefix double_prefix nan_bits : Z) (n : spec_float) : bytes :=
  if SFleb single_lowest n && SFleb n single_max && SFeqb (to_double (to_single n)) n
  then char_of single_prefix :: write_number 4 (single_bits (to_single n))
  else char_of double_prefix :: write_number 8 (double_bits nan_bits n).

(** ** The reader *)

Definition eof : Z := -1.

(** The open containers, the innermost first, and the value at the root. *)
Abbreviation sax := (list Parser.frame * json)%type.

(** What is left of the input, the last byte read, and the SAX parser. *)
Record reader : Type := Reader { ia : bytes; current : Z; dom : sax }.

(** A member function of the reader: [None] stands for [false], [a && b] for the
    binding of [a]'s result in [b]. *)
Definition reading (A : Type) : Type := reader → outcome (option A * reader).

#[export] Instance reading_ret : MRet reading := λ A x r, Ret (Some x, r).
#[export] Instance reading_bind : MBind reading := λ A B f m r,
  '(x, r) ← m r;
  match x with Some x => f x r | None => Ret (None, r) end.

Definition with_current {A} (f : Z → reading A) : reading A := λ r, f (current r) r.

(** A call whose result is not looked at. *)
Definition ignore {A} (m : reading A) : reading (option A) :=
  λ r, '(x, r) ← m r; Ret (Some x, r).

Definition get : reading Z := λ r,
  match ia r with
  | [] => Ret (Some eof, Reader [] eof (dom r))
  | c :: s => Ret (Some (uchar c), Reader s (uchar c) (dom r))
  end.

(** [static_cast<std::size_t>(-1)] *)
Definition npos : Z := 2 ^ 64 - 1.
(** [max_size()] of the vector and of the map of the standard library for 64-bit
    machines: an element takes 16 bytes, a node of the map 80. *)
Definition array_max_size : Z := (2 ^ 63 - 1) / 16.
Definition object_max_size : Z := (2 ^ 63 - 1) / 80.

Section reader.
Context (allow_exceptions : bool).

Definition parse_error {A} (id : Z) : reading A := λ r,
  if allow_exceptions then Throw (json_exception id) else Ret (None, r).

Definition unexpect_eof : reading unit :=
  with_current (λ c, if c =? eof then parse_error 110 else mret tt).

(** *** Events *)

(** [null], [boolean], [number_integer] and the others for a complete value *)
Definition sax_value (v : json) : reading unit := λ r,
  Ret (Some tt, Reader (ia r) (current r) (Parser.handle_value v (dom r).1 (dom r).2)).

Definition start (top : Parser.frame) (max_size len : Z) : reading unit := λ r,
  if negb (len =? npos) && (max_size <? len) then Throw (json_exception 408)
  else Ret (Some tt, Reader (ia r) (current r) (top :: (dom r).1, (dom r).2)).
Definition start_array : Z → reading unit := start (Parser.Array_frame []) array_max_size.
Definition start_object : Z → reading unit := start (Parser.Object_frame [] []) object_max_size.

Definition key (k : bytes) : reading unit := λ r,
  match dom r with
  | (Parser.Object_frame l _ :: stack, root) =>
      Ret (Some tt, Reader (ia r) (current r) (Parser.object_key k l :: stack, root))
  | _ => Crash
  end.

Definition end_array : reading unit := λ r,
  match dom r with
  | (Parser.Array_frame l :: stack, root) =>
      Ret (Some tt, Reader (ia r) (current r) (Parser.handle_value (JArray l) stack root))
  | _ => Crash
  end.
Definition end_object : reading unit := λ r,
  match dom r with
  | (Parser.Object_frame l _ :: stack, root) =>
      Ret (Some tt, Reader (ia r) (current r) (Parser.handle_value (JObject l) stack root))
  | _ => Crash
  end.

(** *** Numbers and strings *)

(** [vec] is filled from its end. *)
Fixpoint get_number_loop (n : nat) (vec : bytes) : reading bytes :=
  match n with
  | O => mret vec
  | S n => c ← get; _ ← unexpect_eof; get_number_loop n (char_of c :: vec)
  end.
Definition get_number (size : nat) : reading Z :=
  vec ← get_number_loop size []; mret (le_value vec).

(** A round for each byte that is left and two more are enough for any loop that
    reads a byte in each round. *)
Definition with_fuel {A} (f : nat → reading A) : reading A := λ r, f (S (S (length (ia r)))) r.

Fixpoint get_string_loop (fuel : nat) (i len : Z) (result : bytes) : reading bytes :=
  match fuel with
  | O => λ _, OutOfFuel
  | S fuel =>
      if i <? len then
        c ← get; _ ← unexpect_eof;
        get_string_loop fuel (i + 1) len (result ++ [char_of c])
      else mret result
  end.
Definition get_string (len : Z) (result : bytes) : reading bytes :=
  with_fuel (λ fuel, get_string_loop fuel 0 len result).
Definition get_binary (len : Z) (result : bytes) : reading bytes :=
  with_fuel (λ fuel, get_string_loop fuel 0 len result).

(** [for (i = 0; i < len; ++i) if (!body()) return false;] *)
Fixpoint for_loop (fuel : nat) (i len : Z) (body : reading unit) : reading unit :=
  match fuel with
  | O => λ _, OutOfFuel
  | S fuel =>
      if i <? len then _ ← body; for_loop fuel (i + 1) len body else mret tt
  end.

(** [while (get() != 0xFF) if (!body(x)) return false;], [body] working on [x]. *)
Fixpoint until_break {A} (fuel : nat) (x : A) (body : A → reading A) : reading A :=
  match fuel with
  | O => λ _, OutOfFuel
  | S fuel =>
      c ← get;
      if c =? 0xFF then mret x else x ← body x; until_break fuel x body
  end.

(** [sax_parse], for one of the formats: in strict mode the next byte must be EOF. *)
Definition sax_parse (parse_internal : reading unit) (strict : bool) : reading unit :=
  _ ← parse_internal;
  if strict then c ← get; if negb (c =? eof) then parse_error 110 else mret tt
  else mret tt.

(** [from_cbor], [from_msgpack]: [None] is the discarded value. *)
Definition from_binary (parse_internal : reading unit) (strict : bool) (s : bytes) :
    outcome (option json) :=
  '(result, r) ← sax_parse parse_internal strict (Reader s eof ([], JNull));
  Ret (match result with Some _ => Some (dom r).2 | None => None end).

End reader.
End Binary.
Import Binary.

(** * Specification *)

(** Every [double] is one. *)
Fixpoint floats_ok (j : json) : Prop :=
  match j with
  | JFloat f => double_ok f
  | JArray l => foldr (λ x P, floats_ok x ∧ P) True l
  | JObject l => foldr (λ kv P, floats_ok kv.2 ∧ P) True l
  | _ => True
  end.

(** What can be written in binary: numbers in range, keys in order. *)
Definition fit (j : json) : Prop := json_wf j ∧ floats_ok j.

(** The sizes the containers can have; no string is longer than [std::string::max_size]. *)
Fixpoint storable (j : json) : Prop :=
  match j with
  | JString s | JBinary s _ => len s < 2 ^ 63
  | JArray l => len l <= array_max_size ∧ foldr (λ x P, storable x ∧ P) True l
  | JObject l => len l <= object_max_size ∧
      foldr (λ kv P, (len kv.1 < 2 ^ 63 ∧ storable kv.2) ∧ P) True l
  | _ => True
  end.

(** [runs c d m s x d']: with [c] the current byte, [s] first in the input and the SAX
    parser at [d], [m] reads just [s], returns [x] and leaves [d']. *)
Definition runs {A} (c : Z) (d : sax) (m : reading A) (s : bytes) (x : A) (d' : sax) : Prop :=
  ∀ rest, ∃ c', m (Reader (s ++ rest) c d) = Ret (Some x, Reader rest c' d').

Definition handle (v : json) (d : sax) : sax := Parser.handle_value v d.1 d.2.

(** [m] reads [s] for the value [v]. *)
Definition reads (m : reading unit) (s : bytes) (v : json) : Prop :=
  ∀ c d, runs c d m s tt (handle v d).

(** [m] ends with the error [id] when [s] is first in the input. *)
Definition stops {A} (allow_exceptions : bool) (c : Z) (d : sax) (m : reading A) (s : bytes)
    (id : Z) : Prop :=
  ∀ rest, ∃ r, m (Reader (s ++ rest) c d) = parse_error allow_exceptions id r.

(** [m] ends: [Q] for the result and the reader, or one of the errors. *)
Definition ends {A} (allow_exceptions : bool) (x : outcome (option A * reader))
    (Q : A → reader → Prop) : Prop :=
  match x with
  | Ret (Some a, r) => Q a r
  | Ret (None, _) => allow_exceptions = false
  | Throw e =>
      e = json_exception 408 ∨
      allow_exceptions = true ∧ e ∈ json_exception <$> [110; 112; 113]
  | _ => False
  end.

(** * Lemmas *)

(** ** Bytes of numbers *)

Lemma length_le_bytes n z : length (le_bytes n z) = n.
Proof. revert z. induction n; intros z; cbn; auto. Qed.

Lemma length_write_number n z : length (write_number n z) = n.
Proof. unfold write_number. by rewrite length_reverse, length_le_bytes. Qed.

Lemma le_value_bytes n z : le_value (le_bytes n z) = z mod 2 ^ (8 * Z.of_nat n).
Proof.
  revert z. induction n as [|n IH]; intros z; cbn [le_bytes le_value].
  - change (2 ^ (8 * Z.of_nat 0)) with 1. by rewrite Z.mod_1_r.
  - rewrite IH, uchar_char_of. replace (8 * Z.of_nat (S n)) with (8 + 8 * Z.of_nat n) by lia.
    rewrite Z.pow_add_r by lia. change (2 ^ 8) with 256. rewrite Z.rem_mul_r by lia. lia.
Qed.

Lemma le_value_range s : 0 <= le_value s < 2 ^ (8 * len s).
Proof.
  induction s as [|c s IH]; cbn [le_value]; [cbn; lia|]. pose proof (uchar_range c).
  rewrite len_cons. replace (8 * (1 + len s)) with (8 + 8 * len s) by lia.
  rewrite Z.pow_add_r by lia. change (2 ^ 8) with 256. lia.
Qed.

Lemma write_number_1 n : write_number 1 n = [char_of n].
Proof. done. Qed.

Lemma signed_small n : 0 <= n < 2 ^ 63 → signed 8 n = n.
Proof. intros H. unfold signed. destruct (Z.ltb_spec n (2 ^ (8 * Z.of_nat 8 - 1))); lia. Qed.

Lemma signed_range n : 0 <= n < 2 ^ 64 → - 2 ^ 63 <= signed 8 n < 2 ^ 63.
Proof. intros H. unfold signed. change (8 * Z.of_nat 8) with 64. destruct (Z.ltb_spec n (2 ^ (64 - 1))); lia. Qed.

Lemma signed_read n z : (0 < n)%nat →
  - 2 ^ (8 * Z.of_nat n - 1) <= z < 2 ^ (8 * Z.of_nat n - 1) → signed n (z mod 2 ^ (8 * Z.of_nat n)) = z.
Proof.
  intros Hn Hz. unfold signed. set (k := 8 * Z.of_nat n) in *.
  assert (2 ^ k = 2 * 2 ^ (k - 1)) as Hk by (rewrite <-Z.pow_succ_r by lia; f_equal; lia).
  destruct (Z.le_gt_cases 0 z).
  - rewrite Z.mod_small by lia. destruct (Z.ltb_spec z (2 ^ (k - 1))); lia.
  - rewrite <-(Z.mod_unique_pos z (2 ^ k) (-1) (z + 2 ^ k)) by lia.
    destruct (Z.ltb_spec (z + 2 ^ k) (2 ^ (k - 1))); lia.
Qed.

Lemma max_sizes : array_max_size < 2 ^ 63 ∧ object_max_size < 2 ^ 63.
Proof. by vm_compute. Qed.

(** ** Floating point *)

(** Either way the number is read back. *)
Lemma compact_float_cases sp dp nan f : double_ok f → (f = S754_nan → bits_double nan = f ∧ 0 <= nan < 2 ^ 64) →
  (∃ x, write_compact_float sp dp nan f = char_of sp :: write_number 4 x ∧
     0 <= x < 2 ^ 32 ∧ to_double (bits_single x) = f) ∨
  (∃ x, write_compact_float sp dp nan f = char_of dp :: write_number 8 x ∧
     0 <= x < 2 ^ 64 ∧ bits_double x = f).
Proof.
  intros Hf Hnan. unfold write_compact_float. destruct (_ && _) eqn:E.
  - left. apply andb_true_iff in E as [_ E]. eexists. split; [done|]. by apply single_bits_read.
  - right. eexists. split; [done|].
    assert (f = S754_nan ∨ f ≠ S754_nan) as [->|Hn] by (destruct f; auto; right; done).
    + cbn [double_bits float_bits]. destruct Hnan as [H1 H2]; done.
    + by apply double_bits_read.
Qed.

(** ** Running on what was written *)

Lemma runs_ret {A} c d (x : A) : runs c d (mret x) [] x d.
Proof. intros rest. by exists c. Qed.

Lemma runs_bind {A B} c d (m : reading A) (f : A → reading B) s1 s2 x y d1 d2 :
  runs c d m s1 x d1 → (∀ c, runs c d1 (f x) s2 y d2) → runs c d (m ≫= f) (s1 ++ s2) y d2.
Proof.
  intros H1 H2 rest. rewrite <-app_assoc. destruct (H1 (s2 ++ rest)) as [c1 Hm].
  destruct (H2 c1 rest) as [c2 Hf]. exists c2.
  unfold mbind, reading_bind. rewrite Hm. cbn. by rewrite Hf.
Qed.

(** A call that reads nothing. *)
Lemma runs_then {A B} c d (m : reading A) (f : A → reading B) s x y d1 d2 :
  runs c d m [] x d1 → (∀ c, runs c d1 (f x) s y d2) → runs c d (m ≫= f) s y d2.
Proof. apply (runs_bind _ _ _ _ [] s). Qed.

(** The rest of the function reads nothing. *)
Lemma runs_end {A B} c d (m : reading A) (f : A → reading B) s x y d1 d2 :
  runs c d m s x d1 → (∀ c, runs c d1 (f x) [] y d2) → runs c d (m ≫= f) s y d2.
Proof. intros. rewrite <-(app_nil_r s). by eapply runs_bind. Qed.

(** Behind [get] the current byte is known. *)
Lemma runs_get {B} c d ch (f : Z → reading B) s y d' :
  runs (uchar ch) d (f (uchar ch)) s y d' → runs c d (get ≫= f) (ch :: s) y d'.
Proof. intros H rest. apply (H rest). Qed.

Lemma runs_current {A} c d (f : Z → reading A) s x d' :
  runs c d (f c) s x d' → runs c d (with_current f) s x d'.
Proof. intros H. exact H. Qed.

Lemma runs_value c d v : runs c d (sax_value v) [] tt (handle v d).
Proof. intros rest. by exists c. Qed.

Lemma runs_not_eof a c d : 0 <= c → runs c d (unexpect_eof a) [] tt d.
Proof.
  intros Hc rest. exists c. unfold unexpect_eof, with_current. cbn.
  destruct (Z.eqb_spec c eof) as [->|]; [done|reflexivity].
Qed.

Lemma runs_not_eof_then {B} a c d (f : unit → reading B) s y d' :
  0 <= c → runs c d (f tt) s y d' → runs c d (unexpect_eof a ≫= f) s y d'.
Proof.
  intros Hc H rest. destruct (H rest) as [c' Hf]. exists c'.
  unfold mbind, reading_bind, unexpect_eof, with_current. cbn.
  destruct (Z.eqb_spec c eof) as [->|]; [done|exact Hf].
Qed.

(** A byte of a number or a string. *)
Lemma runs_byte {B} a c d ch (f : Z → reading B) s y d' :
  (∀ c, runs c d (f (uchar ch)) s y d') →
  runs c d (c ← get; _ ← unexpect_eof a; f c) (ch :: s) y d'.
Proof.
  intros H. apply runs_get. pose proof (uchar_range ch).
  eapply runs_then; [apply runs_not_eof; lia|done].
Qed.

Lemma runs_number_loop a d s : ∀ c vec,
  runs c d (get_number_loop a (length s) vec) s (reverse s ++ vec) d.
Proof.
  induction s as [|ch s IH]; intros c vec; [apply runs_ret|]. cbn [length get_number_loop].
  apply runs_byte. intros c'. rewrite reverse_cons, <-app_assoc, char_of_uchar. apply IH.
Qed.

Lemma runs_number a c d n z :
  runs c d (get_number a n) (write_number n z) (z mod 2 ^ (8 * Z.of_nat n)) d.
Proof.
  unfold get_number. rewrite <-(app_nil_r (write_number n z)). eapply runs_bind.
  - pose proof (runs_number_loop a d (write_number n z) c []) as H.
    rewrite length_write_number, app_nil_r in H. exact H.
  - intros c'. unfold write_number. rewrite reverse_involutive, le_value_bytes. apply runs_ret.
Qed.

(** A number that fits, and what is done with it. *)
Lemma runs_number_bind {B} a c d n z (f : Z → reading B) s y d' : 0 <= z < 2 ^ (8 * Z.of_nat n) →
  (∀ c, runs c d (f z) s y d') → runs c d (get_number a n ≫= f) (write_number n z ++ s) y d'.
Proof.
  intros Hz H. eapply runs_bind; [apply runs_number|]. by rewrite Z.mod_small.
Qed.

Lemma runs_string_loop a d s : ∀ fuel c i n res, (length s < fuel)%nat → n = i + len s →
  runs c d (get_string_loop a fuel i n res) s (res ++ s) d.
Proof.
  induction s as [|ch s IH]; intros [|fuel] c i n res Hf Hn; try (cbn in Hf; lia).
  - cbn in *. destruct (Z.ltb_spec i n); [lia|]. rewrite app_nil_r. apply runs_ret.
  - cbn [get_string_loop]. rewrite len_cons in Hn. destruct (Z.ltb_spec i n); [|lia].
    apply runs_byte. intros c'. rewrite char_of_uchar.
    replace (res ++ ch :: s) with ((res ++ [ch]) ++ s) by by rewrite <-app_assoc.
    apply IH; [cbn in Hf; lia|lia].
Qed.

(** Loops that get their fuel from the input. *)
Lemma runs_fuel {A} c d (f : nat → reading A) s x d' :
  (∀ fuel, (S (length s) < fuel)%nat → runs c d (f fuel) s x d') → runs c d (with_fuel f) s x d'.
Proof.
  intros H rest. unfold with_fuel. cbn [ia]. apply H. rewrite length_app. lia.
Qed.

Lemma runs_string a c d s res : runs c d (get_string a (len s) res) s (res ++ s) d.
Proof. apply runs_fuel. intros fuel Hf. apply runs_string_loop; lia. Qed.
Lemma runs_binary a c d s res : runs c d (get_binary a (len s) res) s (res ++ s) d.
Proof. apply runs_string. Qed.

Lemma runs_start c d top m len : 0 <= len <= m →
  runs c d (start top m len) [] tt (top :: d.1, d.2).
Proof.
  intros Hl rest. exists c. unfold start. destruct (Z.ltb_spec m len); [lia|].
  by rewrite andb_false_r.
Qed.

(** A round of the loop for each of [l], with [text x] to read for [x] and the SAX
    parser at [st l1] when [l1] has been read. *)
Lemma runs_for {A} (body : reading unit) (text : A → bytes) (st : list A → sax) l2 :
  ∀ l1 fuel c i n,
  (∀ l1' x l2', l1 ++ l2 = l1' ++ x :: l2' → x ∈ l2 →
     ∀ c, runs c (st l1') body (text x) tt (st (l1' ++ [x]))) →
  (length l2 < fuel)%nat → n = i + len l2 →
  runs c (st l1) (for_loop fuel i n body) (concat (text <$> l2)) tt (st (l1 ++ l2)).
Proof.
  induction l2 as [|x l IH]; intros l1 [|fuel] c i n HF Hf Hn; try (cbn in Hf; lia).
  - cbn in *. destruct (Z.ltb_spec i n); [lia|]. rewrite app_nil_r. apply runs_ret.
  - cbn [for_loop fmap list_fmap concat]. rewrite len_cons in Hn.
    destruct (Z.ltb_spec i n); [|lia]. eapply runs_bind; [apply (HF l1 x l); [done|by left]|].
    intros c'. replace (l1 ++ x :: l) with ((l1 ++ [x]) ++ l) by by rewrite <-app_assoc.
    apply IH; [|cbn in Hf; lia|lia]. intros l1' y l2' Heq Hy. apply (HF l1' y l2'); [|by right].
    by rewrite <-Heq, <-app_assoc.
Qed.

(** The loops read a byte or more in each round. *)
Lemma length_concat_ge {A} (text : A → bytes) l :
  Forall (λ x, text x ≠ []) l → (length l <= length (concat (text <$> l)))%nat.
Proof.
  induction 1 as [|x l Hx _ IH]; cbn; [lia|]. rewrite length_app.
  destruct (text x); [done|]. cbn. lia.
Qed.

Lemma length_in_concat {A} (text : A → bytes) l x :
  x ∈ l → (length (text x) <= length (concat (text <$> l)))%nat.
Proof.
  induction 1 as [x l|x y l _ IH]; cbn [fmap list_fmap concat]; rewrite length_app; lia.
Qed.

Lemma runs_array c d (body : reading unit) (text : json → bytes) (read : json → json) l :
  Forall (λ x, text x ≠ [] ∧ reads body (text x) (read x)) l → len l <= array_max_size →
  runs c d (_ ← start_array (len l); _ ← with_fuel (λ fuel, for_loop fuel 0 (len l) body); end_array)
    (concat (text <$> l)) tt (handle (JArray (read <$> l)) d).
Proof.
  intros HF Hl. apply Forall_and in HF as [Hne HF]. eapply runs_then; [apply runs_start; lia|].
  set (st := λ l, (Parser.Array_frame (read <$> l) :: d.1, d.2) : sax).
  intros c1. rewrite <-(app_nil_r (concat _)). eapply (runs_bind _ _ _ _ _ _ tt _ (st l)).
  - apply runs_fuel. intros fuel Hf. pose proof (length_concat_ge text l Hne).
    apply (runs_for body text st l []); [|lia|lia].
    intros l1 x l2 _ Hx c2. rewrite Forall_forall in HF. unfold st. rewrite fmap_app.
    by apply (HF x Hx).
  - intros c2 rest. by exists c2.
Qed.

Lemma runs_key c l k0 st rt k :
  runs c (Parser.Object_frame l k0 :: st, rt) (key k) [] tt (Parser.object_key k l :: st, rt).
Proof. intros rest. by exists c. Qed.

(** [body] reads a key, announces it and reads the value. *)
Definition reads_member (body : reading unit) (s k : bytes) (v : json) : Prop :=
  ∀ c l k0 st rt, runs c (Parser.Object_frame l k0 :: st, rt) body s tt
    (handle v (Parser.object_key k l :: st, rt)).

Lemma in_order_fmap (read : json → json) (l : list (bytes * json)) :
  in_order l → in_order ((λ kv, (kv.1, read kv.2)) <$> l).
Proof.
  induction 1 as [|[k v] l _ IH Hf]; [constructor|]. constructor; [exact IH|].
  apply Forall_fmap. eapply Forall_impl; [exact Hf|]. done.
Qed.

(** The SAX parser when the members [l] have been read. *)
Definition members_read (read : json → json) d (l : list (bytes * json)) : sax :=
  (Parser.Object_frame ((λ kv, (kv.1, read kv.2)) <$> l) (default [] (fst <$> last l)) :: d.1, d.2).

Lemma members_step (body : reading unit) s (read : json → json) d l1 kv l2 c :
  in_order (l1 ++ kv :: l2) → reads_member body s kv.1 (read kv.2) →
  runs c (members_read read d l1) body s tt (members_read read d (l1 ++ [kv])).
Proof.
  intros Ho Hr. destruct kv as [k v]. set (rd := λ kv : bytes * json, (kv.1, read kv.2)).
  specialize (Hr c (rd <$> l1) (default [] (fst <$> last l1)) d.1 d.2). cbn in Hr.
  assert (handle (read v) (Parser.object_key k (rd <$> l1) :: d.1, d.2) =
    members_read read d (l1 ++ [(k, v)])) as <-; [|exact Hr].
  unfold members_read, handle, Parser.object_key. rewrite last_snoc, fmap_app. cbn.
  erewrite member_appended; [done|]. apply (in_order_fmap read) in Ho.
  rewrite fmap_app in Ho. exact Ho.
Qed.

Lemma runs_object c d (body : reading unit) (text : bytes * json → bytes) (read : json → json) l :
  in_order l → Forall (λ kv, text kv ≠ [] ∧ reads_member body (text kv) kv.1 (read kv.2)) l →
  len l <= object_max_size →
  runs c d (_ ← start_object (len l); _ ← with_fuel (λ fuel, for_loop fuel 0 (len l) body); end_object)
    (concat (text <$> l)) tt (handle (JObject ((λ kv, (kv.1, read kv.2)) <$> l)) d).
Proof.
  intros Ho HF Hl. apply Forall_and in HF as [Hne HF]. eapply runs_then; [apply runs_start; lia|].
  set (st := members_read read d).
  intros c1. rewrite <-(app_nil_r (concat _)). eapply (runs_bind _ _ _ _ _ _ tt _ (st l)).
  - apply runs_fuel. intros fuel Hf. pose proof (length_concat_ge text l Hne).
    apply (runs_for body text st l []); [|lia|lia].
    intros l1 kv l2 Heq Hx c2. rewrite Forall_forall in HF. cbn in Heq. rewrite Heq in Ho.
    by eapply members_step; [|apply HF].
  - intros c2 rest. by exists c2.
Qed.

Lemma runs_ignore {A} c d (m : reading A) s x d' : runs c d m s x d' → runs c d (ignore m) s (Some x) d'.
Proof.
  intros H rest. destruct (H rest) as [c' Hm]. exists c'.
  unfold ignore, mbind, outcome_bind. by rewrite Hm.
Qed.

(** ** Running into an error *)
Section stops.
Context (a : bool).

Lemma stops_error {A} c d s id : stops a c d (parse_error a id : reading A) s id.
Proof. intros rest. by eexists. Qed.

Lemma stops_bind {A B} c d (m : reading A) (f : A → reading B) s id :
  stops a c d m s id → stops a c d (m ≫= f) s id.
Proof.
  intros H rest. destruct (H rest) as [r Hr]. exists r. unfold mbind, reading_bind. rewrite Hr.
  by destruct a.
Qed.

Lemma stops_app {A} c d (m : reading A) s s' id : stops a c d m s id → stops a c d m (s ++ s') id.
Proof. intros H rest. rewrite <-app_assoc. apply H. Qed.

Lemma runs_stops {A B} c d (m : reading A) (f : A → reading B) s1 s2 x d1 id :
  runs c d m s1 x d1 → (∀ c, stops a c d1 (f x) s2 id) → stops a c d (m ≫= f) (s1 ++ s2) id.
Proof.
  intros H1 H2 rest. rewrite <-app_assoc. destruct (H1 (s2 ++ rest)) as [c1 Hm].
  destruct (H2 c1 rest) as [r Hf]. exists r.
  unfold mbind, reading_bind. rewrite Hm. cbn. by rewrite Hf.
Qed.

Lemma stops_then {A B} c d (m : reading A) (f : A → reading B) s x d1 id :
  runs c d m [] x d1 → (∀ c, stops a c d1 (f x) s id) → stops a c d (m ≫= f) s id.
Proof. apply (runs_stops _ _ _ _ [] s). Qed.

Lemma stops_get {B} c d ch (f : Z → reading B) s id :
  stops a (uchar ch) d (f (uchar ch)) s id → stops a c d (get ≫= f) (ch :: s) id.
Proof. intros H rest. apply (H rest). Qed.

Lemma stops_fuel {A} c d (f : nat → reading A) s id :
  (∀ fuel, (S (length s) < fuel)%nat → stops a c d (f fuel) s id) → stops a c d (with_fuel f) s id.
Proof.
  intros H rest. unfold with_fuel. cbn [ia]. apply H. rewrite length_app. lia.
Qed.

(** The rounds for [l2] run, the one for [x] stops. *)
Lemma stops_for {A} (body : reading unit) (text : A → bytes) (st : list A → sax) x l3 id l2 :
  ∀ l1 fuel c i n,
  (∀ l1' y l2', l1 ++ l2 ++ x :: l3 = l1' ++ y :: l2' → y ∈ l2 →
     ∀ c, runs c (st l1') body (text y) tt (st (l1' ++ [y]))) →
  (∀ c, stops a c (st (l1 ++ l2)) body (text x) id) →
  (length l2 < fuel)%nat → i + len l2 < n →
  stops a c (st l1) (for_loop fuel i n body) (concat (text <$> l2 ++ x :: l3)) id.
Proof.
  induction l2 as [|y l IH]; intros l1 [|fuel] c i n HF Hx Hf Hn; try (cbn in Hf; lia).
  - cbn [for_loop app fmap list_fmap concat]. cbn in Hn. destruct (Z.ltb_spec i n); [|lia].
    apply stops_app, stops_bind. by rewrite app_nil_r in Hx.
  - cbn [for_loop app fmap list_fmap concat]. rewrite len_cons in Hn. destruct (Z.ltb_spec i n); [|lia].
    eapply runs_stops; [apply (HF l1 y (l ++ x :: l3)); [done|by left]|].
    intros c'. apply IH; [| |cbn in Hf; lia|lia].
    + intros l1' z l2' Heq Hz. apply (HF l1' z l2'); [|by right].
      by rewrite <-Heq, <-app_assoc.
    + by rewrite <-app_assoc.
Qed.

(** The first of the elements that cannot be read. *)
Lemma stops_array c d (body : reading unit) (text : json → bytes) (read : json → json) l x l3 n id :
  Forall (λ x, text x ≠ [] ∧ reads body (text x) (read x)) l →
  (∀ c d, stops a c d body (text x) id) → n = len (l ++ x :: l3) → n <= array_max_size →
  stops a c d (_ ← start_array n; _ ← with_fuel (λ fuel, for_loop fuel 0 n body); end_array)
    (concat (text <$> l ++ x :: l3)) id.
Proof.
  intros HF Hx -> Hl. apply Forall_and in HF as [Hne HF].
  set (st := λ l, (Parser.Array_frame (read <$> l) :: d.1, d.2) : sax).
  eapply stops_then; [apply runs_start; lia|].
  intros c1. apply stops_bind, stops_fuel. intros fuel Hf.
  pose proof (length_concat_ge text l Hne).
  rewrite fmap_app, concat_app, length_app in Hf.
  apply (stops_for body text st x l3 id l []); [|intros; apply Hx|lia|len_lia].
  intros l1 y l2 _ Hy c2. rewrite Forall_forall in HF. unfold st. rewrite fmap_app.
  by apply (HF y Hy).
Qed.

Lemma stops_object c d (body : reading unit) (text : bytes * json → bytes) (read : json → json) l x l3 n id :
  in_order (l ++ x :: l3) →
  Forall (λ kv, text kv ≠ [] ∧ reads_member body (text kv) kv.1 (read kv.2)) l →
  (∀ c l k0 st rt, stops a c (Parser.Object_frame l k0 :: st, rt) body (text x) id) →
  n = len (l ++ x :: l3) → n <= object_max_size →
  stops a c d (_ ← start_object n; _ ← with_fuel (λ fuel, for_loop fuel 0 n body); end_object)
    (concat (text <$> l ++ x :: l3)) id.
Proof.
  intros Ho HF Hx -> Hl. apply Forall_and in HF as [Hne HF].
  set (st := members_read read d).
  eapply stops_then; [apply runs_start; lia|].
  intros c1. apply stops_bind, stops_fuel. intros fuel Hf.
  pose proof (length_concat_ge text l Hne).
  rewrite fmap_app, concat_app, length_app in Hf.
  apply (stops_for body text st x l3 id l []); [|intros; apply Hx|lia|len_lia].
  intros l1 y l2 Heq Hy c2. cbn [app] in Heq. rewrite Heq in Ho. rewrite Forall_forall in HF.
  by eapply members_step; [|apply HF].
Qed.
End stops.

(** ** Values that fit *)

Lemma fit_array l : Forall fit l → fit (JArray l).
Proof.
  intros H. apply Forall_and in H as [H1 H2].
  split; [by apply (foldr_and_Forall json_wf)|by apply (foldr_and_Forall floats_ok)].
Qed.

Lemma fit_array_inv l : fit (JArray l) → Forall fit l.
Proof.
  intros [H1%(foldr_and_Forall json_wf) H2%(foldr_and_Forall floats_ok)]. by apply Forall_and.
Qed.

Lemma fit_object l : in_order l → Forall (λ kv, fit kv.2) l → fit (JObject l).
Proof.
  intros Ho H. unfold fit in H. apply Forall_and in H as [H1 H2].
  split; [split; [done|]|].
  - by apply (foldr_and_Forall (λ kv, json_wf kv.2)).
  - by apply (foldr_and_Forall (λ kv, floats_ok kv.2)).
Qed.

Lemma fit_object_inv l : fit (JObject l) → in_order l ∧ Forall (λ kv, fit kv.2) l.
Proof.
  intros [[Ho H1%(foldr_and_Forall (λ kv, json_wf kv.2))] H2%(foldr_and_Forall (λ kv, floats_ok kv.2))].
  split; [done|]. by apply Forall_and.
Qed.

Lemma fit_set k v l : fit v → Forall (λ kv : bytes * json, fit kv.2) l →
  Forall (λ kv, fit kv.2) (member_set k v l).
Proof.
  intros Hv Hl. apply Forall_forall. intros kv [->|Hin]%member_set_elem; [done|].
  rewrite Forall_forall in Hl. auto.
Qed.

Lemma fit_bytes s st : match st with Some n => 0 <= n < 2 ^ 64 | None => True end → fit (JBinary s st).
Proof. by destruct st. Qed.

Lemma fit_uint n : 0 <= n < 2 ^ 64 → fit (JUint n).
Proof. by split. Qed.

(** ** Ending on every input *)
Section ends.
Context (a : bool).
Implicit Types (r : reader) (c : Z) (d : sax).

Abbreviation left r := (length (ia r)).

Lemma ends_ret {A} (x : A) r (Q : A → reader → Prop) : Q x r → ends a ((mret x : reading A) r) Q.
Proof. done. Qed.

Lemma ends_bind {A B} (m : reading A) (f : A → reading B) r Q :
  ends a (m r) (λ x r', ends a (f x r') Q) → ends a ((m ≫= f) r) Q.
Proof. unfold mbind, reading_bind. by destruct (m r) as [[[x|] r']| | | |]. Qed.

Lemma ends_mono {A} x (P Q : A → reader → Prop) :
  ends a x P → (∀ y r, P y r → Q y r) → ends a x Q.
Proof. destruct x as [[[y|] r']| | | |]; cbn; auto. Qed.

Lemma ends_error {A} id r (Q : A → reader → Prop) :
  id ∈ [110; 112; 113] → ends a (parse_error a id r) Q.
Proof. intros H. unfold parse_error. destruct a; cbn; [right|done]. split; [done|].
  apply (list_elem_of_fmap json_exception [110; 112; 113]). by exists id.
Qed.

Lemma ends_ignore {A} (m : reading A) r (Q : option A → reader → Prop) :
  ends a (m r) (λ x r', Q (Some x) r') → (∀ r', m r = Ret (None, r') → Q None r') →
  ends a (ignore m r) Q.
Proof. unfold ignore, mbind, outcome_bind. destruct (m r) as [[[x|] r']| | | |]; cbn; auto. Qed.

Lemma ends_get r (Q : Z → reader → Prop) :
  (∀ r', dom r' = dom r → current r' = eof ∧ left r' = 0%nat ∧ left r = 0%nat ∨
         0 <= current r' < 256 ∧ (left r' < left r)%nat → Q (current r') r') →
  ends a (get r) Q.
Proof.
  intros H. unfold get. destruct (ia r) as [|ch s] eqn:Hr; cbn.
  - apply (H (Reader [] eof (dom r))); [done|]. by left.
  - apply (H (Reader s (uchar ch) (dom r))); [done|]. right. cbn. pose proof (uchar_range ch). lia.
Qed.

Lemma ends_eof r (Q : unit → reader → Prop) :
  (current r ≠ eof → Q tt r) → ends a (unexpect_eof a r) Q.
Proof.
  intros H. unfold unexpect_eof, with_current. destruct (Z.eqb_spec (current r) eof).
  - apply ends_error. set_solver.
  - by apply ends_ret, H.
Qed.

(** What a reading leaves alone and does not go back on. *)
Definition later r r' : Prop := dom r' = dom r ∧ (left r' <= left r)%nat.

Lemma later_refl r : later r r.
Proof. by split. Qed.
Lemma later_trans r1 r2 r3 : later r1 r2 → later r2 r3 → later r1 r3.
Proof. intros [H1 ?] [H2 ?]. split; [congruence|lia]. Qed.

Lemma ends_number_loop n : ∀ vec r,
  ends a (get_number_loop a n vec r) (λ s r', length s = (n + length vec)%nat ∧ later r r').
Proof.
  induction n as [|n IH]; intros vec r; cbn [get_number_loop].
  - apply ends_ret. split; [done|apply later_refl].
  - apply ends_bind, ends_get. intros r1 Hd1 H1. apply ends_bind, ends_eof. intros Hc.
    eapply ends_mono; [apply IH|]. intros s r' [Hs Hl]. split; [cbn in Hs; lia|].
    eapply later_trans; [|exact Hl]. split; [done|lia].
Qed.

Lemma ends_number n r :
  ends a (get_number a n r) (λ z r', 0 <= z < 2 ^ (8 * Z.of_nat n) ∧ later r r').
Proof.
  apply ends_bind. eapply ends_mono; [apply ends_number_loop|]. intros vec r' [Hv Hl].
  apply ends_ret. split; [|done]. pose proof (le_value_range vec). by rewrite Hv, Nat.add_0_r in *.
Qed.

Lemma ends_string_loop fuel : ∀ i n res r, (left r < fuel)%nat →
  ends a (get_string_loop a fuel i n res r) (λ _ r', later r r').
Proof.
  induction fuel as [|fuel IH]; intros i n res r Hf; [lia|]. cbn [get_string_loop].
  destruct (i <? n); [|apply ends_ret, later_refl].
  apply ends_bind, ends_get. intros r1 Hd1 H1. apply ends_bind, ends_eof. intros Hc.
  eapply ends_mono; [apply IH; lia|]. intros s r' Hl.
  eapply later_trans; [|exact Hl]. split; [done|lia].
Qed.

Lemma ends_string n res r : ends a (get_string a n res r) (λ _ r', later r r').
Proof. unfold get_string, with_fuel. apply ends_string_loop. lia. Qed.
Lemma ends_binary n res r : ends a (get_binary a n res r) (λ _ r', later r r').
Proof. apply ends_string. Qed.

Lemma ends_for (I : sax → Prop) (body : reading unit) bound :
  (∀ r, (left r <= bound)%nat → I (dom r) →
     ends a (body r) (λ _ r', I (dom r') ∧ (left r' < left r)%nat)) →
  ∀ fuel i n r, (left r <= bound)%nat → (left r < fuel)%nat → I (dom r) →
  ends a (for_loop fuel i n body r) (λ _ r', I (dom r') ∧ (left r' <= left r)%nat).
Proof.
  intros Hb. induction fuel as [|fuel IH]; intros i n r Hr Hf HI; [lia|]. cbn [for_loop].
  destruct (i <? n); [|by apply ends_ret].
  apply ends_bind. eapply ends_mono; [by apply Hb|]. intros _ r1 [HI1 H1].
  eapply ends_mono; [apply IH; [lia|lia|done]|]. intros _ r2 [? ?]. split; [done|lia].
Qed.

(** The body of an indefinite loop sees the byte that has been read. *)
Lemma ends_until {A} (I : A → sax → Prop) (body : A → reading A) bound :
  (∀ x r, (left r < bound)%nat ∨ current r = eof → I x (dom r) → ends a (body x r)
     (λ x' r', I x' (dom r') ∧ (left r' <= left r)%nat ∧ current r ≠ eof)) →
  ∀ fuel x r, (left r <= bound)%nat → (left r < fuel)%nat → I x (dom r) →
  ends a (until_break fuel x body r) (λ x' r', I x' (dom r') ∧ (left r' <= left r)%nat).
Proof.
  intros Hb. induction fuel as [|fuel IH]; intros x r Hr Hf HI; [lia|]. cbn [until_break].
  apply ends_bind, ends_get. intros r1 Hd1 H1. destruct (current r1 =? 0xFF).
  - apply ends_ret. rewrite Hd1. split; [done|lia].
  - apply ends_bind. eapply ends_mono; [apply Hb; [destruct H1 as [[? _]|]; [by right|left; lia]|by rewrite Hd1]|].
    intros x2 r2 (HI2 & H2 & Hc). eapply ends_mono; [apply IH; [lia|lia|done]|].
    intros x3 r3 [? ?]. split; [done|lia].
Qed.

(** [m] hands over a value, having read [n] bytes or more. *)
Definition gives (n : nat) r (m : reading unit) : Prop :=
  ends a (m r) (λ _ r', (∃ v, fit v ∧ dom r' = handle v (dom r)) ∧ (left r' + n <= left r)%nat).

Lemma gives_fuel n r (f : nat → reading unit) :
  gives n r (f (S (S (left r)))) → gives n r (with_fuel f).
Proof. intros H. exact H. Qed.

Lemma gives_value v r : fit v → gives 0 r (sax_value v).
Proof. intros Hv. split; [by exists v|cbn; lia]. Qed.

Lemma gives_bind {A} (m : reading A) (f : A → reading unit) r (P : A → Prop) :
  ends a (m r) (λ x r', P x ∧ later r r') → (∀ x r', P x → later r r' → gives 0 r' (f x)) →
  gives 0 r (m ≫= f).
Proof.
  intros Hm Hf. apply ends_bind. eapply ends_mono; [exact Hm|]. intros x r1 [Hx [Hd Hl]].
  eapply ends_mono; [by apply Hf|]. intros _ r2 [Hv Hr]. rewrite Hd in Hv. split; [done|lia].
Qed.

(** A value made of what [m] returns. *)
Lemma gives_made {A} (m : reading A) (v : A → json) (P : A → Prop) r :
  ends a (m r) (λ x r', P x ∧ later r r') → (∀ x, P x → fit (v x)) →
  gives 0 r (x ← m; sax_value (v x)).
Proof.
  intros Hm Hv. eapply gives_bind; [exact Hm|]. intros x r' Hx _. by apply gives_value, Hv.
Qed.

Lemma ends_start top m n r (Q : unit → reader → Prop) :
  Q tt (Reader (ia r) (current r) (top :: (dom r).1, (dom r).2)) → ends a (start top m n r) Q.
Proof. intros H. unfold start. by destruct (_ && _); [left|]. Qed.

Definition open_array d0 d : Prop := ∃ l, Forall fit l ∧ d = (Parser.Array_frame l :: d0.1, d0.2).
Definition open_object d0 d : Prop := ∃ l k, in_order l ∧ Forall (λ kv, fit kv.2) l ∧
  d = (Parser.Object_frame l k :: d0.1, d0.2).

Lemma open_array_value d0 d v : open_array d0 d → fit v → open_array d0 (handle v d).
Proof.
  intros (l & Hl & ->) Hv. exists (l ++ [v]). split; [|done]. by apply Forall_app_2; [|constructor].
Qed.

Lemma open_object_value d0 d v : open_object d0 d → fit v → open_object d0 (handle v d).
Proof.
  intros (l & k & Ho & Hl & ->) Hv. exists (member_set k v l), k.
  split_and!; [by apply member_set_in_order|by apply fit_set|done].
Qed.

Lemma ends_key d0 k r (Q : unit → reader → Prop) : open_object d0 (dom r) →
  (∀ d, open_object d0 d → Q tt (Reader (ia r) (current r) d)) → ends a (key k r) Q.
Proof.
  intros (l & k0 & Ho & Hl & Hd) HQ. unfold key. rewrite Hd. apply HQ.
  unfold Parser.object_key, member_emplace.
  eexists _, k. split_and!; [| |done]; destruct (member_get k l); try done.
  - by apply member_set_in_order.
  - by apply fit_set.
Qed.

Lemma gives_array n r (loop : reading unit) :
  (∀ r1, left r1 = left r → open_array (dom r) (dom r1) →
     ends a (loop r1) (λ _ r', open_array (dom r) (dom r') ∧ (left r' <= left r1)%nat)) →
  gives 0 r (_ ← start_array n; _ ← loop; end_array).
Proof.
  intros Hb. apply ends_bind, ends_start, ends_bind. eapply ends_mono.
  - apply Hb; [done|]. exists []. by split; [constructor|].
  - intros _ r1 [(l & Hl & Hd) H1]. cbn in H1. unfold end_array. rewrite Hd. cbn.
    split; [|lia]. exists (JArray l). split; [by apply fit_array|done].
Qed.

Lemma gives_object n r (loop : reading unit) :
  (∀ r1, left r1 = left r → open_object (dom r) (dom r1) →
     ends a (loop r1) (λ _ r', open_object (dom r) (dom r') ∧ (left r' <= left r1)%nat)) →
  gives 0 r (_ ← start_object n; _ ← loop; end_object).
Proof.
  intros Hb. apply ends_bind, ends_start, ends_bind. eapply ends_mono.
  - apply Hb; [done|]. exists [], []. split_and!; [constructor..|done].
  - intros _ r1 [(l & k & Ho & Hl & Hd) H1]. cbn in H1. unfold end_object. rewrite Hd. cbn.
    split; [|lia]. exists (JObject l). split; [by apply fit_object|done].
Qed.

(** The elements and the members, read by [parse]. *)
Lemma gives_elements n r (parse : reading unit) :
  (∀ r', (left r' <= left r)%nat → gives 1 r' parse) →
  gives 0 r (_ ← start_array n; _ ← with_fuel (λ fuel, for_loop fuel 0 n parse); end_array).
Proof.
  intros Hp. apply gives_array. intros r1 Hr1 Ho. unfold with_fuel.
  apply (ends_for (open_array (dom r)) parse (left r)); [|lia|lia|done].
  intros r2 H2 Ho2. eapply ends_mono; [by apply Hp|]. intros _ r3 [(v & Hv & ->) H3].
  split; [by apply open_array_value|lia].
Qed.

Lemma from_binary_ends (parse : reading unit) strict s :
  gives 1 (Reader s eof ([], JNull)) parse →
  let x := from_binary a parse strict s in
  (∃ v, x = Ret (Some v) ∧ fit v) ∨ (a = false ∧ x = Ret None) ∨
  x = Throw (json_exception 408) ∨
  (a = true ∧ ∃ id, x = Throw (json_exception id) ∧ id ∈ [110; 112; 113]).
Proof.
  intros Hg x.
  assert (ends a (sax_parse a parse strict (Reader s eof ([], JNull)))
    (λ _ r', ∃ v, fit v ∧ (dom r').2 = v)) as He.
  { apply ends_bind. eapply ends_mono; [exact Hg|]. intros _ r1 [(v & Hv & Hd) _].
    assert ((dom r1).2 = v) as Hroot by by rewrite Hd.
    destruct strict; [|by exists v]. apply ends_bind, ends_get. intros r2 Hd2 _.
    destruct (negb _); [apply ends_error; set_solver|]. apply ends_ret. exists v. by rewrite Hd2. }
  unfold x, from_binary. destruct (sax_parse _ _ _ _) as [[[u|] r']|e| | |]; cbn in He |- *; try done.
  - destruct He as (v & Hv & ->). left. by exists v.
  - right. left. done.
  - right. right. destruct He as [->|[Ha He]]; [by left|]. right. split; [done|].
    apply (list_elem_of_fmap json_exception [110; 112; 113]) in He as (id & -> & Hid). by exists id.
Qed.
End ends.

(** Take the next test of a switch apart. *)
Ltac switch_test :=
  lazymatch goal with
  | |- gives _ _ _ (if ?b then _ else _) => let E := fresh "E" in destruct b eqn:E
  end.

(** ** The whole input *)

(** What [from_binary] makes of a parse error. *)
Definition failed (allow_exceptions : bool) (id : Z) : outcome (option json) :=
  if allow_exceptions then Throw (json_exception id) else Ret None.

Lemma from_binary_reads a parse strict s v rest : runs eof ([], JNull) parse s tt (handle v ([], JNull)) →
  from_binary a parse strict (s ++ rest) =
  if strict && bool_decide (rest ≠ []) then failed a 110 else Ret (Some v).
Proof.
  intros H. destruct (H rest) as [c Hr].
  unfold from_binary, sax_parse, mbind, reading_bind. rewrite Hr. cbn.
  destruct strict; [|done]. destruct rest as [|ch rest]; [done|]. cbn.
  destruct (Z.eqb_spec (uchar ch) eof) as [E|_]; [pose proof (uchar_range ch); unfold eof in E; lia|].
  by destruct a.
Qed.

Lemma from_binary_stops a parse strict s id rest : stops a eof ([], JNull) parse s id →
  from_binary a parse strict (s ++ rest) = failed a id.
Proof.
  intros H. destruct (H rest) as [r Hr].
  unfold from_binary, sax_parse, mbind, reading_bind. rewrite Hr. by destruct a.
Qed.

(** What [from_cbor] and [from_msgpack] make of any input: a value that fits, or an error. *)
Definition value_or_error (allow_exceptions : bool) (x : outcome (option json)) : Prop :=
  (∃ v, x = Ret (Some v) ∧ fit v) ∨ x = Throw (json_exception 408) ∨
  (∃ id, x = failed allow_exceptions id ∧ id ∈ [110; 112; 113]).

Lemma from_binary_total a parse strict s : gives a 1 (Reader s eof ([], JNull)) parse →
  value_or_error a (from_binary a parse strict s).
Proof.
  intros Hg. destruct (from_binary_ends a parse strict s Hg) as [H|[[Ha H]|[H|[Ha (id & H & Hid)]]]].
  - by left.
  - right. right. exists 110. rewrite H, Ha. split; [done|by left].
  - right. by left.
  - right. right. exists id. rewrite H, Ha. done.
Qed.
