(* ===== verification/Cbor.v ===== *)
(** * CBOR (src/cppboot/base/internal/json/json.hpp)

    [write_cbor], [parse_cbor_internal] and what they call: [to_cbor] and [from_cbor]
    with the three treatments of tags.  The two functions for strings and byte arrays
    differ in one constant, which is an argument here. *)

From S2P Require Import Prelude JsonValue JsonDump JsonParse Json JsonFloat JsonBinary.
Import Binary.

Module Cbor.

(** ** [write_cbor] *)

(** The control byte and the count: every type has its own [base]. *)
Definition cbor_head (base n : Z) : bytes :=
  if n <=? 0x17 then write_number 1 (base + n)
  else if n <=? 0xFF then char_of (base + 0x18) :: write_number 1 n
  else if n <=? 0xFFFF then char_of (base + 0x19) :: write_number 2 n
  else if n <=? 0xFFFFFFFF then char_of (base + 0x1A) :: write_number 4 n
  else char_of (base + 0x1B) :: write_number 8 n.

Definition write_cbor_integer (z : Z) : bytes :=
  if 0 <=? z then cbor_head 0 z else cbor_head 0x20 (-1 - z).

(** The bits of a NaN are never looked at. *)
Definition write_cbor_float (f : spec_float) : bytes :=
  match f with
  | S754_nan => char_of <$> [0xF9; 0x7E; 0x00]
  | S754_infinity s => char_of <$> [0xF9; if s then 0xFC else 0x7C; 0x00]
  | _ => write_compact_float 0xFA 0xFB 0 f
  end.

Definition write_cbor_string (s : bytes) : bytes := cbor_head 0x60 (len s) ++ s.

Definition write_cbor_tag (subtype : option Z) : bytes :=
  match subtype with
  | Some n =>
      if n <=? 0xFF then write_number 1 0xD8 ++ write_number 1 n
      else if n <=? 0xFFFF then write_number 1 0xD9 ++ write_number 2 n
      else if n <=? 0xFFFFFFFF then write_number 1 0xDA ++ write_number 4 n
      else write_number 1 0xDB ++ write_number 8 n
  | None => []
  end.
Definition write_cbor_binary (s : bytes) (subtype : option Z) : bytes :=
  write_cbor_tag subtype ++ cbor_head 0x40 (len s) ++ s.

Fixpoint write_cbor (j : json) : bytes :=
  match j with
  | JNull => [char_of 0xF6]
  | JBool b => [char_of (if b then 0xF5 else 0xF4)]
  | JInt z => write_cbor_integer z
  | JUint z => cbor_head 0 z
  | JFloat f => write_cbor_float f
  | JString s => write_cbor_string s
  | JBinary s subtype => write_cbor_binary s subtype
  | JArray l => cbor_head 0x80 (len l) ++ concat (write_cbor <$> l)
  | JObject l =>
      cbor_head 0xA0 (len l) ++ concat ((λ kv, write_cbor_string kv.1 ++ write_cbor kv.2) <$> l)
  end.

Definition to_cbor (j : json) : bytes := write_cbor j.

(** ** [parse_cbor_internal] *)

Inductive cbor_tag_handler_t : Set := tag_error | tag_ignore | tag_store.

(** [JSON_ASSERT] *)
Definition check (b : bool) : reading unit := λ r, if b then Ret (Some tt, r) else Crash.

Section reader.
Context (allow_exceptions : bool) (tag_handler : cbor_tag_handler_t).

(** The four cases of a count in the bytes behind; [rest] is the rest of the switch. *)
Definition with_count {A} (base c : Z) (f : Z → reading A) (rest : reading A) : reading A :=
  if c =? base + 0x18 then n ← get_number allow_exceptions 1; f n
  else if c =? base + 0x19 then n ← get_number allow_exceptions 2; f n
  else if c =? base + 0x1A then n ← get_number allow_exceptions 4; f n
  else if c =? base + 0x1B then n ← get_number allow_exceptions 8; f n
  else rest.

(** [get_cbor_string] and [get_cbor_binary]: [base] is 0x60 or 0x40. *)
Fixpoint get_cbor_bytes (base : Z) (fuel : nat) (result : bytes) : reading bytes :=
  match fuel with
  | O => λ _, OutOfFuel
  | S fuel =>
      _ ← unexpect_eof allow_exceptions;
      with_current (λ c,
        if Parser.between base c (base + 0x17) then
          get_string allow_exceptions (Z.land c 0x1F) result
        else with_count base c (λ n, get_string allow_exceptions n result)
        (if c =? base + 0x1F then
           with_fuel (λ n, until_break n result (λ result,
             chunk ← get_cbor_bytes base fuel []; mret (result ++ chunk)))
         else parse_error allow_exceptions 113))
  end.
Definition get_cbor_string (result : bytes) : reading bytes :=
  with_fuel (λ fuel, get_cbor_bytes 0x60 fuel result).
Definition get_cbor_binary (result : bytes) : reading bytes :=
  with_fuel (λ fuel, get_cbor_bytes 0x40 fuel result).

(** A half-precision number. *)
Definition half_value (half : Z) : reading spec_float :=
  let exp := Z.land (Z.shiftr half 10) 0x1F in
  let mant := Z.land half 0x3FF in
  _ ← check ((0 <=? exp) && (exp <=? 32));
  _ ← check (mant <=? 1024);
  let val := if exp =? 0 then ldexp mant (-24)
             else if exp =? 31 then (if mant =? 0 then S754_infinity false else S754_nan)
             else ldexp (mant + 1024) (exp - 25) in
  mret (if negb (Z.land half 0x8000 =? 0) then SFopp val else val).

Definition parse_cbor_half : reading unit :=
  byte1 ← get; _ ← unexpect_eof allow_exceptions;
  byte2 ← get; _ ← unexpect_eof allow_exceptions;
  f ← half_value (Z.shiftl byte1 8 + byte2);
  sax_value (JFloat f).

Section step.
(** [parse_cbor_internal] itself, one level down *)
Context (parse : bool → reading unit).

Definition get_cbor_array (n : Z) : reading unit :=
  _ ← start_array n;
  _ ← (if negb (n =? npos) then with_fuel (λ fuel, for_loop fuel 0 n (parse true))
       else with_fuel (λ fuel, until_break fuel tt (λ _, parse false)));
  end_array.

Definition cbor_member : reading unit := k ← get_cbor_string []; _ ← key k; parse true.

Definition get_cbor_object (n : Z) : reading unit :=
  _ ← start_object n;
  _ ← (if negb (n =? 0) then
         if negb (n =? npos) then with_fuel (λ fuel, for_loop fuel 0 n (_ ← get; cbor_member))
         else with_fuel (λ fuel, until_break fuel tt (λ _, cbor_member))
       else mret tt);
  end_object.

(** The bytes of the tag behind [c], where it has some. *)
Definition tag_size (c : Z) : option nat :=
  if c =? 0xD8 then Some 1%nat else if c =? 0xD9 then Some 2%nat
  else if c =? 0xDA then Some 4%nat else if c =? 0xDB then Some 8%nat else None.

Definition parse_cbor_tag (c : Z) : reading unit :=
  match tag_handler with
  | tag_error => parse_error allow_exceptions 112
  | tag_ignore =>
      _ ← match tag_size c with
          | Some size => ignore (get_number allow_exceptions size)
          | None => mret None
          end;
      parse true
  | tag_store =>
      match tag_size c with
      | Some size =>
          subtype ← ignore (get_number allow_exceptions size);
          _ ← get;
          b ← get_cbor_binary []; sax_value (JBinary b (Some (default 0 subtype)))
      | None => parse true
      end
  end.

(** The switch, a group of its cases at a time; [rest] is what is below. *)
Definition cbor_integer_case (c : Z) (rest : reading unit) : reading unit :=
  if Parser.between 0 c 0x17 then sax_value (JUint c)
  else with_count 0 c (λ n, sax_value (JUint n)) (
  if Parser.between 0x20 c 0x37 then sax_value (JInt (0x20 - 1 - c))
  else with_count 0x20 c (λ n, sax_value (JInt (-1 - signed 8 n))) rest).

Definition cbor_string_case (c : Z) (rest : reading unit) : reading unit :=
  if Parser.between 0x40 c 0x5B || (c =? 0x5F) then b ← get_cbor_binary []; sax_value (JBinary b None)
  else if Parser.between 0x60 c 0x7B || (c =? 0x7F) then s ← get_cbor_string []; sax_value (JString s)
  else rest.

Definition cbor_container_case (c : Z) (rest : reading unit) : reading unit :=
  if Parser.between 0x80 c 0x97 then get_cbor_array (Z.land c 0x1F)
  else with_count 0x80 c get_cbor_array (
  if c =? 0x9F then get_cbor_array npos
  else if Parser.between 0xA0 c 0xB7 then get_cbor_object (Z.land c 0x1F)
  else with_count 0xA0 c get_cbor_object (
  if c =? 0xBF then get_cbor_object npos else rest)).

Definition cbor_simple_case (c : Z) (rest : reading unit) : reading unit :=
  if c =? 0xF4 then sax_value (JBool false)
  else if c =? 0xF5 then sax_value (JBool true)
  else if c =? 0xF6 then sax_value JNull
  else if c =? 0xF9 then parse_cbor_half
  else if c =? 0xFA then
    n ← get_number allow_exceptions 4; sax_value (JFloat (to_double (bits_single n)))
  else if c =? 0xFB then
    n ← get_number allow_exceptions 8; sax_value (JFloat (bits_double n))
  else rest.

Definition cbor_switch (c : Z) : reading unit :=
  if c =? eof then unexpect_eof allow_exceptions
  else cbor_integer_case c (cbor_string_case c (cbor_container_case c (
    if Parser.between 0xC6 c 0xD4 || Parser.between 0xD8 c 0xDB then parse_cbor_tag c
    else cbor_simple_case c (parse_error allow_exceptions 112)))).
End step.

Fixpoint parse_cbor_internal (fuel : nat) (get_char : bool) : reading unit :=
  match fuel with
  | O => λ _, OutOfFuel
  | S fuel =>
      if get_char then c ← get; cbor_switch (parse_cbor_internal fuel) c
      else with_current (cbor_switch (parse_cbor_internal fuel))
  end.

(** Every level reads a byte before the next. *)
Definition from_cbor (strict : bool) (s : bytes) : outcome (option json) :=
  from_binary allow_exceptions (with_fuel (λ fuel, parse_cbor_internal fuel true)) strict s.

End reader.
End Cbor.
Import Cbor.

(** * Specification *)

(** What is read back: no integer that is not negative keeps its sign type, and a
    subtype is there if it is stored. *)
Fixpoint cbor_value (h : cbor_tag_handler_t) (j : json) : json :=
  match j with
  | JInt z => if 0 <=? z then JUint z else JInt z
  | JBinary s subtype => JBinary s (match h with tag_store => subtype | _ => None end)
  | JArray l => JArray (cbor_value h <$> l)
  | JObject l => JObject ((λ kv, (kv.1, cbor_value h kv.2)) <$> l)
  | _ => j
  end.

(** A tag is written. *)
Fixpoint tagged (j : json) : bool :=
  match j with
  | JBinary _ (Some _) => true
  | JArray l => existsb tagged l
  | JObject l => existsb (λ kv, tagged kv.2) l
  | _ => false
  end.

(** * Lemmas *)

(** ** Ending on every input *)
Section ends.
Context (a : bool) (h : cbor_tag_handler_t).
Implicit Types (r : reader) (c : Z).

Abbreviation left r := (length (ia r)).

Lemma ends_count {A} base c (f : Z → reading A) rest r Q :
  (∀ n r', 0 <= n < 2 ^ 64 → later r r' → ends a (f n r') Q) → ends a (rest r) Q →
  ends a (with_count a base c f rest r) Q.
Proof.
  intros Hf Hr. unfold with_count.
  repeat case_test; try done; apply ends_bind; (eapply ends_mono; [apply ends_number|]);
    intros n r' [Hn Hl]; apply Hf; lia || done.
Qed.

Lemma cbor_bytes_ends base fuel : ∀ res r,
  (S (left r) < fuel ∨ current r = eof ∧ 0 < fuel)%nat →
  ends a (get_cbor_bytes a base fuel res r) (λ _ r', later r r' ∧ current r ≠ eof).
Proof.
  induction fuel as [|fuel IH]; intros res r Hf; [lia|]. cbn [get_cbor_bytes].
  apply ends_bind, ends_eof. intros Hc. destruct Hf as [Hf|[? _]]; [|done]. unfold with_current.
  assert (∀ n r', later r r' →
    ends a (get_string a n res r') (λ _ r', later r r' ∧ current r ≠ eof)) as Hs.
  { intros n r1 H1. eapply ends_mono; [apply ends_string|]. intros ? r2 H2.
    split; [by eapply later_trans|done]. }
  destruct (Parser.between _ _ _); [apply Hs, later_refl|].
  apply ends_count; [by auto|]. destruct (_ =? _); [|apply ends_error; set_solver].
  unfold with_fuel. eapply ends_mono; [apply (ends_until a (λ _ d, d = dom r) _ (left r)); try done; [|lia]|].
  - intros x r1 Hl Hd. apply ends_bind. eapply ends_mono.
    + apply IH. destruct Hl as [Hl|Hl]; [left|right; split; [done|]]; lia.
    + intros chunk r2 [[Hd2 H2] Hc2]. apply ends_ret. split_and!; [congruence|done|done].
  - intros ? r1 [Hd H1]. by split.
Qed.

Lemma cbor_string_ends res r :
  ends a (get_cbor_string a res r) (λ _ r', later r r' ∧ current r ≠ eof).
Proof. apply cbor_bytes_ends. left. lia. Qed.
Lemma cbor_binary_ends res r :
  ends a (get_cbor_binary a res r) (λ _ r', later r r' ∧ current r ≠ eof).
Proof. apply cbor_bytes_ends. left. lia. Qed.

Lemma half_ends n r : 0 <= n → ends a (half_value n r) (λ f r', double_ok f ∧ r' = r).
Proof.
  intros Hn. unfold half_value.
  assert (0 <= Z.land (Z.shiftr n 10) 0x1F < 32 ∧ 0 <= Z.land n 0x3FF < 1024) as [He Hm].
  { change 0x1F with (Z.ones 5). change 0x3FF with (Z.ones 10). rewrite !Z.land_ones by lia.
    split; apply Z.mod_pos_bound; lia. }
  set (e := Z.land (Z.shiftr n 10) 0x1F) in *. set (m := Z.land n 0x3FF) in *.
  unfold check. apply ends_bind. rewrite (proj2 (Z.leb_le 0 e)), (proj2 (Z.leb_le e 32)) by lia.
  apply ends_bind. rewrite (proj2 (Z.leb_le m 1024)) by lia. apply ends_ret. split; [|done].
  assert (double_ok (if e =? 0 then ldexp m (-24)
    else if e =? 31 then (if m =? 0 then S754_infinity false else S754_nan)
    else ldexp (m + 1024) (e - 25))) as Hv.
  { destruct (e =? 0); [apply ldexp_valid|]. destruct (e =? 31); [by destruct (m =? 0)|apply ldexp_valid]. }
  destruct (negb _); [by apply opp_valid|done].
Qed.

Lemma parse_half_gives r : gives a 0 r (parse_cbor_half a).
Proof.
  apply ends_bind, ends_get. intros r1 Hd1 H1. apply ends_bind, ends_eof. intros Hc1.
  apply ends_bind, ends_get. intros r2 Hd2 H2. apply ends_bind, ends_eof. intros Hc2.
  apply ends_bind. eapply ends_mono; [apply half_ends|].
  - unfold eof in *. rewrite Z.shiftl_mul_pow2 by lia. lia.
  - intros f r3 [Hf ->]. split; [exists (JFloat f); split; [by split|]|cbn; lia].
    unfold sax_value. cbn. by rewrite Hd2, Hd1.
Qed.

Section step.
Context (parse : bool → reading unit) (r0 : reader).
Context (Hp : ∀ r', (left r' <= left r0)%nat → gives a 1 r' (parse true)).
Context (Hq : ∀ r', (left r' < left r0)%nat ∨ current r' = eof →
  ends a (parse false r') (λ _ r'', ((∃ v, fit v ∧ dom r'' = handle v (dom r')) ∧
    (left r'' <= left r')%nat) ∧ current r' ≠ eof)).

Lemma cbor_array_gives n r : (left r <= left r0)%nat → gives a 0 r (get_cbor_array parse n).
Proof.
  intros Hr. unfold get_cbor_array. destruct (negb _).
  - apply gives_elements. intros r' Hr'. apply Hp. lia.
  - apply gives_array. intros r1 Hr1 Ho. unfold with_fuel.
    apply (ends_until a (λ _, open_array (dom r)) _ (left r1)); [|lia|lia|done].
    intros x r2 Hl Ho2. eapply ends_mono; [apply Hq; destruct Hl; [left; lia|by right]|].
    intros ? r3 (((v & Hv & ->) & H3) & Hc). split_and!; [by apply open_array_value|done|done].
Qed.

(** A key and the value, its first byte read. *)
Lemma cbor_member_ends d0 r : (left r <= left r0)%nat → open_object d0 (dom r) →
  ends a (cbor_member a parse r) (λ _ r', open_object d0 (dom r') ∧ (left r' <= left r)%nat ∧ current r ≠ eof).
Proof.
  intros Hr Ho. apply ends_bind. eapply ends_mono; [apply cbor_string_ends|].
  intros k r1 [[Hd1 H1] Hc]. rewrite <-Hd1 in Ho. apply ends_bind. eapply ends_key; [exact Ho|].
  intros d Ho2. eapply ends_mono; [apply Hp; cbn; lia|]. cbn.
  intros ? r3 [(v & Hv & ->) H3]. split_and!; [by apply open_object_value|lia|done].
Qed.

Lemma cbor_object_gives n r : (left r <= left r0)%nat → gives a 0 r (get_cbor_object a parse n).
Proof.
  intros Hr. apply gives_object. intros r1 Hr1 Ho. destruct (negb (n =? 0)); [|by apply ends_ret].
  destruct (negb _); unfold with_fuel.
  - apply (ends_for a (open_object (dom r)) _ (left r)); [|lia|lia|done].
    intros r2 H2 Ho2. apply ends_bind, ends_get. intros r3 Hd3 H3.
    eapply ends_mono; [apply (cbor_member_ends (dom r)); [lia|by rewrite Hd3]|].
    intros ? r4 (Ho4 & H4 & Hc). split; [done|]. destruct H3 as [[? _]|]; [done|lia].
  - apply (ends_until a (λ _, open_object (dom r)) _ (left r1)); [|lia|lia|done].
    intros x r2 Hl Ho2. destruct Hl as [Hl|Hl].
    + apply cbor_member_ends; [lia|done].
    + apply ends_bind. eapply ends_mono; [apply cbor_string_ends|]. by intros k r3 [_ ?].
Qed.

Lemma tag_size_le c size : tag_size c = Some size → (size <= 8)%nat.
Proof. unfold tag_size. repeat case_test; intros [= <-]; lia. Qed.

(** What stands before a tagged value, whether it could be read or not. *)
Lemma number_later n : ∀ vec r x r', get_number_loop a n vec r = Ret (x, r') → later r r'.
Proof.
  induction n as [|n IH]; intros vec r x r'; cbn [get_number_loop].
  - intros [= _ <-]. apply later_refl.
  - unfold mbind, reading_bind, outcome_bind, unexpect_eof, with_current, parse_error.
    unfold get. destruct (ia r) as [|c s] eqn:Hr; cbn.
    + destruct a; [done|]. cbn. intros [= _ <-]. split; [done|cbn; lia].
    + destruct (Z.eqb_spec (uchar c) eof) as [E|_]; [pose proof (uchar_range c); unfold eof in E; lia|].
      cbn. intros H%IH. eapply later_trans; [|exact H]. split; [done|]. rewrite Hr. cbn. lia.
Qed.

Lemma ends_tag c size r : tag_size c = Some size →
  ends a (ignore (get_number a size) r) (λ n r', 0 <= default 0 n < 2 ^ 64 ∧ later r r').
Proof.
  intros Hs%tag_size_le. apply ends_ignore.
  - eapply ends_mono; [apply ends_number|]. intros n r' [Hn Hl]. split; [|done]. cbn.
    pose proof (Z.pow_le_mono_r 2 (8 * Z.of_nat size) 64). lia.
  - intros r' Hr. split; [cbn; lia|]. unfold get_number, mbind, reading_bind, outcome_bind in Hr.
    destruct (get_number_loop a size [] r) as [[[vec|] r1]| | | |] eqn:E; try done.
    injection Hr as <-. by apply number_later in E.
Qed.

Lemma cbor_tag_gives c r : (left r <= left r0)%nat → gives a 0 r (parse_cbor_tag a h parse c).
Proof.
  intros Hr. assert (∀ r', (left r' <= left r)%nat → gives a 0 r' (parse true)) as Hp0.
  { intros r' H'. eapply ends_mono; [apply Hp; lia|]. intros _ r2 [? ?]. split; [done|lia]. }
  unfold parse_cbor_tag. destruct h; [apply ends_error; set_solver|..].
  - apply (gives_bind a _ _ _ (λ _, True)); [|intros x r' _ [_ ?]; by apply Hp0].
    destruct (tag_size c) as [size|] eqn:Hs; [|split; [done|apply later_refl]].
    eapply ends_mono; [by eapply ends_tag|]. intros n r' [_ ?]. done.
  - destruct (tag_size c) as [size|] eqn:Hs; [|by apply Hp0].
    eapply gives_bind; [by eapply ends_tag|]. cbv beta. intros n r1 Hn _.
    apply (gives_bind a _ _ _ (λ _, True)).
    + apply (ends_get a). intros r2 Hd2 H2. split; [done|]. split; [done|lia].
    + intros _ r2 _ _. apply (gives_made a _ _ (λ _, True)); [|by intros; apply fit_bytes].
      eapply ends_mono; [apply cbor_binary_ends|]. by intros s r3 [? _].
Qed.

Lemma cbor_switch_gives r c : left r = left r0 → current r = c →
  ends a (cbor_switch a h parse c r) (λ _ r', ((∃ v, fit v ∧ dom r' = handle v (dom r)) ∧
    (left r' <= left r)%nat) ∧ c ≠ eof).
Proof.
  intros Hr Hc. unfold cbor_switch. destruct (Z.eqb_spec c eof) as [He|He].
  { apply ends_eof. congruence. }
  assert (∀ m, gives a 0 r m → ends a (m r) (λ _ r', ((∃ v, fit v ∧ dom r' = handle v (dom r)) ∧
    (left r' <= left r)%nat) ∧ c ≠ eof)) as Hg.
  { intros m H. eapply ends_mono; [exact H|]. intros _ r' [Hv Hl]. split; [|done]. split; [done|lia]. }
  assert (∀ base (f : Z → reading unit) m, (∀ n r', 0 <= n < 2 ^ 64 → (left r' <= left r0)%nat →
    gives a 0 r' (f n)) → gives a 0 r m → gives a 0 r (with_count a base c f m)) as Hcnt.
  { intros base f m Hf Hm. apply ends_count; [|exact Hm]. intros n r' Hn [Hd Hl].
    eapply ends_mono; [apply Hf; [done|lia]|]. rewrite Hd. intros ? r2 [? ?]. split; [done|lia]. }
  apply Hg.
  unfold cbor_integer_case, cbor_string_case, cbor_container_case, cbor_simple_case, Parser.between, eof in *.
  switch_test; [apply gives_value, fit_uint; lia|].
  apply Hcnt; [intros; by apply gives_value, fit_uint|].
  switch_test; [apply gives_value; split; [cbn; lia|done]|].
  apply Hcnt.
  { intros n r' Hn _. apply gives_value. split; [|done]. pose proof (signed_range n Hn). cbn; lia. }
  switch_test.
  { apply (gives_made a _ _ (λ _, True)); [|by intros; apply fit_bytes].
    eapply ends_mono; [apply cbor_binary_ends|]. by intros s r3 [? _]. }
  switch_test.
  { apply (gives_made a _ _ (λ _, True)); [|by split].
    eapply ends_mono; [apply cbor_string_ends|]. by intros s r3 [? _]. }
  switch_test; [apply cbor_array_gives; lia|].
  apply Hcnt; [intros; by apply cbor_array_gives|].
  switch_test; [apply cbor_array_gives; lia|].
  switch_test; [apply cbor_object_gives; lia|].
  apply Hcnt; [intros; by apply cbor_object_gives|].
  switch_test; [apply cbor_object_gives; lia|].
  switch_test; [apply cbor_tag_gives; lia|].
  repeat (switch_test; [first [by apply gives_value | apply parse_half_gives |
    apply (gives_made a _ _ (λ n, 0 <= n < 2 ^ 64)); [|intros n Hn; split; [done|];
      first [apply to_double_valid | by apply bits_double_valid]]]|]).
  3: by apply ends_error; set_solver.
  all: eapply ends_mono; [apply ends_number|]; intros n r' [Hn Hl]; split; [lia|done].
Qed.
End step.

Lemma parse_cbor_ends fuel : ∀ gc r,
  (if gc : bool then left r < fuel else S (left r) < fuel ∨ current r = eof ∧ 0 < fuel)%nat →
  ends a (parse_cbor_internal a h fuel gc r) (λ _ r',
    ((∃ v, fit v ∧ dom r' = handle v (dom r)) ∧ (left r' <= left r)%nat) ∧
    if gc then (left r' < left r)%nat else current r ≠ eof).
Proof.
  induction fuel as [|fuel IH]; intros gc r Hf; [destruct gc; lia|]. cbn [parse_cbor_internal].
  assert (∀ r', (left r' < fuel)%nat → gives a 1 r' (parse_cbor_internal a h fuel true)) as Hp.
  { intros r' H'. eapply ends_mono; [by apply (IH true)|]. intros ? r2 [[Hv ?] ?]. split; [done|lia]. }
  assert (∀ r', (S (left r') < fuel)%nat ∨ current r' = eof ∧ (0 < fuel)%nat →
    ends a (parse_cbor_internal a h fuel false r') (λ _ r'', ((∃ v, fit v ∧ dom r'' = handle v (dom r')) ∧
    (left r'' <= left r')%nat) ∧ current r' ≠ eof)) as Hq by (intros; by apply (IH false)).
  destruct gc.
  - apply ends_bind, ends_get. intros r1 Hd1 H1.
    assert (current r1 = eof ∨ (left r1 < left r)%nat) as [He|Hl] by tauto.
    + rewrite He. unfold cbor_switch. cbn. apply ends_eof. by intros [].
    + eapply ends_mono; [apply (cbor_switch_gives _ r1)|].
      * intros r' ?. apply Hp. lia.
      * intros r' H'. apply Hq. destruct H'; [left; lia|right; split; [done|lia]].
      * done.
      * done.
      * cbv beta. rewrite Hd1. intros ? r2 [[? ?] ?]. split; [split; [done|lia]|lia].
  - unfold with_current. destruct (Z.eq_dec (current r) eof) as [He|He].
    + rewrite He. unfold cbor_switch. cbn. apply ends_eof. done.
    + destruct Hf as [Hf|[? _]]; [|done]. eapply ends_mono; [apply (cbor_switch_gives _ r)|].
      * intros r' ?. apply Hp. lia.
      * intros r' H'. apply Hq. destruct H'; [left; lia|right; split; [done|lia]].
      * done.
      * done.
      * done.
Qed.

Lemma from_cbor_ends s :
  gives a 1 (Reader s eof ([], JNull)) (with_fuel (λ fuel, parse_cbor_internal a h fuel true)).
Proof.
  eapply ends_mono; [apply parse_cbor_ends; cbn; lia|]. intros ? r [[Hv ?] ?]. split; [done|lia].
Qed.
End ends.

(** ** Reading what was written *)

Lemma head_cases base n : 0 <= n < 2 ^ 64 →
  n <= 0x17 ∧ cbor_head base n = [char_of (base + n)] ∨
  ∃ k size, (k, size) ∈ [(0x18, 1%nat); (0x19, 2%nat); (0x1A, 4%nat); (0x1B, 8%nat)] ∧
    0 <= n < 2 ^ (8 * Z.of_nat size) ∧ cbor_head base n = char_of (base + k) :: write_number size n.
Proof.
  intros Hn. unfold cbor_head.
  destruct (Z.leb_spec n 0x17); [left; done|right].
  destruct (Z.leb_spec n 0xFF); [exists 0x18, 1%nat; split; [set_solver|split; [lia|done]]|].
  destruct (Z.leb_spec n 0xFFFF); [exists 0x19, 2%nat; split; [set_solver|split; [lia|done]]|].
  destruct (Z.leb_spec n 0xFFFFFFFF); [exists 0x1A, 4%nat; split; [set_solver|split; [lia|done]]|].
  exists 0x1B, 8%nat; split; [set_solver|split; [lia|done]].
Qed.

Lemma head_nonempty base n : cbor_head base n ≠ [].
Proof. unfold cbor_head. repeat case_test; done. Qed.

Ltac switch_cases :=
  unfold cbor_switch, cbor_integer_case, cbor_string_case, cbor_container_case, with_count,
    Parser.between, eof;
  repeat (case_test; try lia); try reflexivity.

(** What the switch does with the bytes of the other values. *)
Section switch.
Context (a : bool) (h : cbor_tag_handler_t) (parse : bool → reading unit).

Lemma cbor_switch_string c : 0x60 <= c <= 0x7B →
  cbor_switch a h parse c = s ← get_cbor_string a []; sax_value (JString s).
Proof. intros Hc. switch_cases. Qed.
Lemma cbor_switch_binary c : 0x40 <= c <= 0x5B →
  cbor_switch a h parse c = b ← get_cbor_binary a []; sax_value (JBinary b None).
Proof. intros Hc. switch_cases. Qed.
Lemma cbor_switch_tag c : 0xD8 <= c <= 0xDB → cbor_switch a h parse c = parse_cbor_tag a h parse c.
Proof. intros Hc. switch_cases. Qed.
End switch.

Section roundtrip.
Context (a : bool) (h : cbor_tag_handler_t).
Implicit Types (r : reader) (c : Z) (d : sax).

(** The switch sends the control bytes of [base] to [f]. *)
Definition sends (switch : Z → reading unit) (base : Z) (f : Z → reading unit) : Prop :=
  (∀ n, 0 <= n <= 0x17 → switch (base + n) = f n) ∧
  (∀ k size, (k, size) ∈ [(0x18, 1%nat); (0x19, 2%nat); (0x1A, 4%nat); (0x1B, 8%nat)] →
     switch (base + k) = n ← get_number a size; f n).

Lemma runs_head switch base f c d n s d' :
  sends switch base f → 0 <= base <= 0xA0 → 0 <= n < 2 ^ 64 → (∀ c, runs c d (f n) s tt d') →
  runs c d (c ← get; switch c) (cbor_head base n ++ s) tt d'.
Proof.
  intros [H1 H2] Hb Hn Hr.
  destruct (head_cases base n Hn) as [[Hs ->]|(k & size & Hk & Hs & ->)]; cbn [app].
  - apply runs_get. rewrite uchar_char_of, Z.mod_small by lia. rewrite H1 by lia. apply Hr.
  - apply runs_get. rewrite uchar_char_of, Z.mod_small by (set_solver by lia).
    rewrite (H2 k size Hk). by apply runs_number_bind.
Qed.
Lemma stops_head switch base f c d n s id :
  sends switch base f → 0 <= base <= 0xA0 → 0 <= n < 2 ^ 64 → (∀ c, stops a c d (f n) s id) →
  stops a c d (c ← get; switch c) (cbor_head base n ++ s) id.
Proof.
  intros [H1 H2] Hb Hn Hr.
  destruct (head_cases base n Hn) as [[Hs ->]|(k & size & Hk & Hs & ->)]; cbn [app].
  - apply stops_get. rewrite uchar_char_of, Z.mod_small by lia. rewrite H1 by lia. apply Hr.
  - apply stops_get. rewrite uchar_char_of, Z.mod_small by (set_solver by lia).
    rewrite (H2 k size Hk). eapply runs_stops; [apply runs_number|]. by rewrite Z.mod_small.
Qed.

Lemma land_count base n : base mod 32 = 0 → 0 <= n <= 0x17 → Z.land (base + n) 0x1F = n.
Proof.
  intros Hb Hn. change 0x1F with (Z.ones 5). rewrite Z.land_ones by lia. change (2 ^ 5) with 32.
  rewrite <-Zplus_mod_idemp_l, Hb. apply Z.mod_small. lia.
Qed.

Lemma sends_sizes (switch f : Z → reading unit) base :
  switch (base + 0x18) = (n ← get_number a 1; f n) → switch (base + 0x19) = (n ← get_number a 2; f n) →
  switch (base + 0x1A) = (n ← get_number a 4; f n) → switch (base + 0x1B) = (n ← get_number a 8; f n) →
  ∀ k size, (k, size) ∈ [(0x18, 1%nat); (0x19, 2%nat); (0x1A, 4%nat); (0x1B, 8%nat)] →
    switch (base + k) = n ← get_number a size; f n.
Proof.
  intros H1 H2 H3 H4 k size Hk. rewrite !elem_of_cons, elem_of_nil in Hk.
  by destruct Hk as [[= -> ->]|[[= -> ->]|[[= -> ->]|[[= -> ->]|[]]]]].
Qed.

Section step.
Context (parse : bool → reading unit).

Lemma sends_uint : sends (cbor_switch a h parse) 0 (λ n, sax_value (JUint n)).
Proof.
  split; [|by apply sends_sizes]. intros n Hn. rewrite Z.add_0_l. switch_cases.
Qed.

Lemma sends_negative : sends (cbor_switch a h parse) 0x20 (λ n, sax_value (JInt (-1 - signed 8 n))).
Proof.
  split; [|by apply sends_sizes]. intros n Hn. rewrite signed_small by lia. switch_cases.
  do 2 f_equal. lia.
Qed.

Lemma sends_array : sends (cbor_switch a h parse) 0x80 (get_cbor_array parse).
Proof.
  split; [|by apply sends_sizes]. intros n Hn. switch_cases. by rewrite land_count.
Qed.

Lemma sends_object : sends (cbor_switch a h parse) 0xA0 (get_cbor_object a parse).
Proof.
  split; [|by apply sends_sizes]. intros n Hn. switch_cases. by rewrite land_count.
Qed.
End step.
(** The control byte of a string, and what follows it. *)
Lemma runs_bytes base d s : base = 0x40 ∨ base = 0x60 → len s < 2 ^ 63 →
  ∃ ch tl, cbor_head base (len s) = ch :: tl ∧ base <= uchar ch <= base + 0x1B ∧
    ∀ fuel, (0 < fuel)%nat → runs (uchar ch) d (get_cbor_bytes a base fuel []) (tl ++ s) s d.
Proof.
  intros Hb Hl. assert (base mod 32 = 0 ∧ 0 <= base <= 0x60) as [Hb0 Hb1] by (destruct Hb; subst; done).
  destruct (head_cases base (len s) ltac:(lia)) as [[Hs ->]|(k & size & Hk & Hs & ->)];
    eexists _, _; (split; [reflexivity|]).
  - rewrite uchar_char_of, Z.mod_small by lia. split; [lia|]. intros [|fuel] Hf; [lia|].
    cbn [get_cbor_bytes]. apply runs_not_eof_then; [lia|]. apply runs_current.
    rewrite between_true by lia. rewrite land_count by lia. apply (runs_string a _ d s []).
  - rewrite uchar_char_of, Z.mod_small by (set_solver by lia). split; [set_solver by lia|].
    intros [|fuel] Hf; [lia|]. cbn [get_cbor_bytes]. apply runs_not_eof_then; [set_solver by lia|].
    apply runs_current.
    assert (∀ f : reading bytes, f = (n ← get_number a size; get_string a n []) →
      runs (base + k) d f (write_number size (len s) ++ s) s d) as Hr.
    { intros f ->. apply runs_number_bind; [done|]. intros c. apply (runs_string a _ d s []). }
    rewrite !elem_of_cons, elem_of_nil in Hk.
    by destruct Hb as [-> | ->], Hk as [[= -> ->]|[[= -> ->]|[[= -> ->]|[[= -> ->]|[]]]]]; apply Hr.
Qed.

Lemma runs_cbor_string base ch tl c d s :
  (∀ fuel, (0 < fuel)%nat → runs c d (get_cbor_bytes a base fuel []) (tl ++ s) s d) →
  cbor_head base (len s) = ch :: tl →
  runs c d (with_fuel (λ fuel, get_cbor_bytes a base fuel [])) (tl ++ s) s d.
Proof. intros H _. apply runs_fuel. intros fuel Hf. apply H. lia. Qed.

Lemma reads_string_value parse s : len s < 2 ^ 63 →
  reads (c ← get; cbor_switch a h parse c) (write_cbor_string s) (JString s).
Proof.
  intros Hl c d. destruct (runs_bytes 0x60 d s (or_intror eq_refl) Hl) as (ch & tl & Hh & Hch & Hr).
  unfold write_cbor_string. rewrite Hh. cbn [app]. apply runs_get. rewrite cbor_switch_string by lia.
  eapply runs_end; [|intros; apply runs_value].
  by eapply runs_cbor_string.
Qed.

Lemma reads_binary_value parse s : len s < 2 ^ 63 →
  reads (c ← get; cbor_switch a h parse c) (cbor_head 0x40 (len s) ++ s) (JBinary s None).
Proof.
  intros Hl c d. destruct (runs_bytes 0x40 d s (or_introl eq_refl) Hl) as (ch & tl & Hh & Hch & Hr).
  rewrite Hh. cbn [app]. apply runs_get. rewrite cbor_switch_binary by lia.
  eapply runs_end; [|intros; apply runs_value].
  by eapply runs_cbor_string.
Qed.

Lemma tag_cases n : 0 <= n < 2 ^ 64 → ∃ c size, tag_size c = Some size ∧ 0xD8 <= c <= 0xDB ∧
  write_cbor_tag (Some n) = char_of c :: write_number size n ∧ 0 <= n < 2 ^ (8 * Z.of_nat size).
Proof.
  intros Hn. unfold write_cbor_tag.
  destruct (Z.leb_spec n 0xFF); [exists 0xD8, 1%nat; split_and!; lia || done|].
  destruct (Z.leb_spec n 0xFFFF); [exists 0xD9, 2%nat; split_and!; lia || done|].
  destruct (Z.leb_spec n 0xFFFFFFFF); [exists 0xDA, 4%nat; split_and!; lia || done|].
  exists 0xDB, 8%nat; split_and!; lia || done.
Qed.

End roundtrip.

Section values.
Context (a : bool) (h : cbor_tag_handler_t).

(** [from_cbor] does not take the tag of a byte array. *)
Definition refused (j : json) : bool := match h with tag_error => tagged j | _ => false end.

(** A value and its bytes, for [parse_cbor_internal] with the fuel for its levels. *)
Definition reads_cbor (j : json) : Prop := ∀ fuel, fit j → storable j →
  (length (write_cbor j) <= fuel)%nat →
  if refused j then
    ∀ c d, stops a c d (parse_cbor_internal a h fuel true) (write_cbor j) 112
  else reads (parse_cbor_internal a h fuel true) (write_cbor j) (cbor_value h j).

Lemma reads_cbor_binary s st : reads_cbor (JBinary s st).
Proof.
  intros [|fuel] [Hwf _] Hst Hf.
  { cbn [write_cbor] in Hf. unfold write_cbor_binary in Hf. rewrite !length_app in Hf.
    pose proof (head_nonempty 0x40 (len s)). destruct (cbor_head 0x40 (len s)); [done|cbn in Hf; lia]. }
  unfold refused. cbn [write_cbor tagged cbor_value parse_cbor_internal]. unfold write_cbor_binary.
  destruct st as [n|].
  2: { change (write_cbor_tag None ++ ?x) with x.
    assert ((match h with tag_store => None | _ => None end) = @None Z) as -> by by destruct h.
    destruct (match h with tag_error => _ | _ => _ end) eqn:E; [by destruct h|].
    by apply reads_binary_value. }
  destruct (tag_cases n Hwf) as (c0 & size & Hs & Hc0 & Hw & Hn). rewrite Hw.
  assert (uchar (char_of c0) = c0) as Huc by (rewrite uchar_char_of; apply Z.mod_small; lia).
  pose proof (tag_size_le c0 size Hs). destruct h eqn:Hh; intros c d; cbn [app].
  - apply stops_get. rewrite Huc, cbor_switch_tag by lia. apply stops_error.
  - apply runs_get. rewrite Huc, cbor_switch_tag by lia. unfold parse_cbor_tag. rewrite Hs.
    eapply runs_bind; [apply runs_ignore, runs_number|]. intros c1.
    destruct fuel as [|fuel].
    { exfalso. cbn [write_cbor] in Hf. unfold write_cbor_binary in Hf. rewrite Hw in Hf.
      rewrite length_app in Hf. cbn [length] in Hf. rewrite length_write_number in Hf.
      destruct size; [by unfold tag_size in Hs; repeat case_match|lia]. }
    cbn [parse_cbor_internal]. by apply reads_binary_value.
  - apply runs_get. rewrite Huc, cbor_switch_tag by lia. unfold parse_cbor_tag. rewrite Hs.
    eapply runs_bind; [apply runs_ignore, runs_number|]. intros c1.
    destruct (runs_bytes a 0x40 d s (or_introl eq_refl) Hst) as (ch & tl & Hhd & Hch & Hr).
    rewrite Hhd. cbn [app]. apply runs_get. eapply runs_end; [by eapply runs_cbor_string|]. intros c2. cbn [default].
    rewrite Z.mod_small by lia. apply runs_value.
Qed.
Lemma cbor_nonempty j : write_cbor j ≠ [].
Proof.
  assert (∀ base n s, cbor_head base n ++ s ≠ []) as Hh
    by (intros base n s [H _]%app_eq_nil; by apply head_nonempty in H).
  destruct j as [ |b|z|z|f|s|s st|l|l]; cbn [write_cbor]; try done; try apply Hh.
  - unfold write_cbor_integer. destruct (0 <=? z); apply head_nonempty.
  - apply head_nonempty.
  - destruct f; cbn; try done; unfold write_compact_float; by case_test.
  - unfold write_cbor_binary. intros [_ H]%app_eq_nil. by apply Hh in H.
Qed.

(** A value whose first byte the switch has to see. *)
Lemma reads_switch j : refused j = false →
  (∀ fuel, fit j → storable j → (length (write_cbor j) <= S fuel)%nat →
     reads (c ← get; cbor_switch a h (parse_cbor_internal a h fuel) c) (write_cbor j) (cbor_value h j)) →
  reads_cbor j.
Proof.
  intros Hr H fuel Hfit Hs Hf. rewrite Hr. destruct fuel as [|fuel]; [|by apply H].
  pose proof (cbor_nonempty j). destruct (write_cbor j); [done|cbn in Hf; lia].
Qed.

Lemma reads_cbor_integer z : reads_cbor (JInt z).
Proof.
  apply reads_switch; [unfold refused; by destruct h|]. intros fuel [Hz _] _ _ c d. cbn [json_wf] in Hz.
  cbn [write_cbor cbor_value]. unfold write_cbor_integer.
  destruct (Z.leb_spec 0 z).
  - rewrite <-(app_nil_r (cbor_head 0 z)). eapply runs_head; [apply sends_uint|lia|lia|].
    intros c1. apply runs_value.
  - rewrite <-(app_nil_r (cbor_head _ _)). eapply runs_head; [apply sends_negative|lia|lia|].
    intros c1. cbv beta. rewrite signed_small by lia. replace (-1 - (-1 - z)) with z by lia.
    apply runs_value.
Qed.

Lemma reads_cbor_unsigned z : reads_cbor (JUint z).
Proof.
  apply reads_switch; [unfold refused; by destruct h|]. intros fuel [Hz _] _ _ c d. cbn [json_wf] in Hz.
  cbn [write_cbor cbor_value]. rewrite <-(app_nil_r (cbor_head 0 z)).
  eapply runs_head; [apply sends_uint|lia|lia|]. intros c1. apply runs_value.
Qed.

Lemma reads_cbor_float f : reads_cbor (JFloat f).
Proof.
  apply reads_switch; [unfold refused; by destruct h|]. intros fuel [_ Hf] _ _ c d. cbn [write_cbor cbor_value].
  assert (f ≠ S754_nan → runs c d (c ← get; cbor_switch a h (parse_cbor_internal a h fuel) c)
    (write_compact_float 0xFA 0xFB 0 f) tt (handle (JFloat f) d)) as Hc.
  { intros Hn. destruct (compact_float_cases 0xFA 0xFB 0 f Hf ltac:(done))
      as [(x & -> & Hx & <-)|(x & -> & Hx & <-)]; apply runs_get;
      rewrite uchar_char_of, Z.mod_small by lia; rewrite <-(app_nil_r (write_number _ _)).
    - apply (runs_number_bind a _ _ 4 x); [done|]. intros c1. apply runs_value.
    - apply (runs_number_bind a _ _ 8 x); [done|]. intros c1. apply runs_value. }
  destruct f as [s|s| |s m e]; try by apply Hc.
  - intros rest. eexists. by destruct s.
  - intros rest. by eexists.
Qed.

Lemma reads_cbor_scalar j :
  match j with JNull | JBool _ | JString _ => True | _ => False end → reads_cbor j.
Proof.
  intros Hj. apply reads_switch; [unfold refused; by destruct j, h|]. intros fuel Hf Hs _.
  destruct j as [ |b| | | |s| | |]; try done; cbn [write_cbor cbor_value].
  - intros c d. apply runs_get, runs_value.
  - intros c d. apply runs_get. destruct b; apply runs_value.
  - by apply reads_string_value.
Qed.
(** ** Arrays and objects *)

Lemma existsb_split {A} (P : A → bool) l :
  if existsb P l then ∃ l1 x l2, l = l1 ++ x :: l2 ∧ Forall (λ y, P y = false) l1 ∧ P x = true
  else Forall (λ y, P y = false) l.
Proof.
  destruct (split_first P l) as [H|(l1 & x & l2 & -> & H1 & Hx)].
  - assert (existsb P l = false) as ->; [|done]. induction H as [|x l Hx _ IH]; cbn; [done|by rewrite Hx].
  - rewrite existsb_app. cbn. rewrite Hx, orb_true_r. by exists l1, x, l2.
Qed.

Lemma refused_array l : refused (JArray l) = existsb refused l.
Proof.
  unfold refused. cbn [tagged]. destruct h; [done|..]; symmetry; by induction l.
Qed.
Lemma refused_object l : refused (JObject l) = existsb (λ kv, refused kv.2) l.
Proof.
  unfold refused. cbn [tagged]. destruct h; [done|..]; symmetry; by induction l.
Qed.

Lemma get_cbor_array_for parse n : 0 <= n <= array_max_size → get_cbor_array parse n =
  _ ← start_array n; _ ← with_fuel (λ fuel, for_loop fuel 0 n (parse true)); end_array.
Proof.
  intros Hn. pose proof max_sizes. unfold get_cbor_array. destruct (Z.eqb_spec n npos); [|done].
  unfold npos in *. lia.
Qed.

Lemma head_length base n : (0 < length (cbor_head base n))%nat.
Proof. pose proof (head_nonempty base n). destruct (cbor_head base n); [done|cbn; lia]. Qed.

Lemma reads_cbor_array l : Forall reads_cbor l → reads_cbor (JArray l).
Proof.
  intros HP fuel Hfit [Hl Hst%(foldr_and_Forall storable)] Hf. apply fit_array_inv in Hfit.
  cbn [write_cbor] in *. rewrite length_app in Hf. pose proof (head_length 0x80 (len l)).
  destruct fuel as [|fuel]; [lia|]. cbn [parse_cbor_internal]. rewrite refused_array.
  set (parse := parse_cbor_internal a h fuel) in *.
  assert (∀ x, x ∈ l → if refused x then ∀ c d, stops a c d (parse true) (write_cbor x) 112
    else reads (parse true) (write_cbor x) (cbor_value h x)) as He.
  { intros x Hx. rewrite Forall_forall in HP, Hfit, Hst. apply HP; auto.
    pose proof (length_in_concat write_cbor l x Hx). lia. }
  assert (len l < 2 ^ 64) as Hl64 by (pose proof max_sizes; lia).
  assert (∀ l', (∀ x, x ∈ l' → x ∈ l) → Forall (λ y, refused y = false) l' →
    Forall (λ x, write_cbor x ≠ [] ∧ reads (parse true) (write_cbor x) (cbor_value h x)) l') as Hall.
  { intros l' Hsub Hr. rewrite Forall_forall in *. intros x Hx. split; [apply cbor_nonempty|].
    specialize (He x (Hsub x Hx)). by rewrite (Hr x Hx) in He. }
  pose proof (existsb_split refused l) as Hsp. destruct (existsb refused l).
  - destruct Hsp as (l1 & x & l2 & -> & H1 & Hx). intros c d.
    eapply stops_head; [apply sends_array|lia|lia|]. intros c1. rewrite get_cbor_array_for by lia.
    apply (stops_array a c1 d _ write_cbor (cbor_value h)); [|intros|done|lia].
    + apply Hall; [set_solver|done].
    + specialize (He x ltac:(set_solver)). rewrite Hx in He. apply He.
  - intros c d. eapply runs_head; [apply sends_array|lia|lia|]. intros c1.
    rewrite get_cbor_array_for by lia. by apply runs_array; [apply Hall|].
Qed.
(** A member: the byte behind [get] is the first of the key. *)
Lemma cbor_member_key parse k c d s x d' :
  len k < 2 ^ 63 → (∀ c, runs c d (_ ← key k; parse true) s x d') →
  runs c d (_ ← get; cbor_member a parse) (write_cbor_string k ++ s) x d'.
Proof.
  intros Hk H. destruct (runs_bytes a 0x60 d k (or_intror eq_refl) Hk) as (ch & tl & Hh & _ & Hr).
  unfold write_cbor_string. rewrite Hh. cbn [app]. apply runs_get.
  eapply runs_bind; [by eapply runs_cbor_string|]. exact H.
Qed.

Lemma cbor_member_stops parse k c d s id :
  len k < 2 ^ 63 → (∀ c, stops a c d (_ ← key k; parse true) s id) →
  stops a c d (_ ← get; cbor_member a parse) (write_cbor_string k ++ s) id.
Proof.
  intros Hk H. destruct (runs_bytes a 0x60 d k (or_intror eq_refl) Hk) as (ch & tl & Hh & _ & Hr).
  unfold write_cbor_string. rewrite Hh. cbn [app]. apply stops_get.
  eapply runs_stops; [by eapply runs_cbor_string|]. exact H.
Qed.

Lemma get_cbor_object_for parse n c d s d' : 0 <= n <= object_max_size →
  runs c d (_ ← start_object n;
    _ ← with_fuel (λ fuel, for_loop fuel 0 n (_ ← get; cbor_member a parse)); end_object) s tt d' →
  runs c d (get_cbor_object a parse n) s tt d'.
Proof.
  intros Hn H. pose proof max_sizes. unfold get_cbor_object.
  destruct (Z.eqb_spec n 0) as [->|]; [exact H|]. destruct (Z.eqb_spec n npos); [|exact H].
  unfold npos in *. lia.
Qed.

Lemma get_cbor_object_stops parse n c d s id : 0 <= n <= object_max_size →
  stops a c d (_ ← start_object n;
    _ ← with_fuel (λ fuel, for_loop fuel 0 n (_ ← get; cbor_member a parse)); end_object) s id →
  stops a c d (get_cbor_object a parse n) s id.
Proof.
  intros Hn H. pose proof max_sizes. unfold get_cbor_object.
  destruct (Z.eqb_spec n 0) as [->|]; [exact H|]. destruct (Z.eqb_spec n npos); [|exact H].
  unfold npos in *. lia.
Qed.

Definition member_text (kv : bytes * json) : bytes := write_cbor_string kv.1 ++ write_cbor kv.2.

Lemma member_nonempty kv : member_text kv ≠ [].
Proof. intros [_ H]%app_eq_nil. by apply cbor_nonempty in H. Qed.

Lemma reads_cbor_object l : Forall (λ kv, reads_cbor kv.2) l → reads_cbor (JObject l).
Proof.
  intros HP fuel Hfit [Hl Hst%(foldr_and_Forall (λ kv, len kv.1 < 2 ^ 63 ∧ storable kv.2))] Hf.
  apply fit_object_inv in Hfit as [Ho Hfit].
  cbn [write_cbor] in *. fold member_text in *. rewrite length_app in Hf.
  pose proof (head_length 0xA0 (len l)).
  destruct fuel as [|fuel]; [lia|]. cbn [parse_cbor_internal]. rewrite refused_object.
  set (parse := parse_cbor_internal a h fuel) in *.
  assert (∀ x, x ∈ l → len x.1 < 2 ^ 63 ∧
    if refused x.2 then ∀ c d, stops a c d (parse true) (write_cbor x.2) 112
    else reads (parse true) (write_cbor x.2) (cbor_value h x.2)) as He.
  { intros x Hx. rewrite Forall_forall in HP, Hfit, Hst. split; [by apply Hst|].
    apply HP; auto; [by apply Hst|].
    pose proof (length_in_concat member_text l x Hx) as Hlen. unfold member_text in Hlen at 1.
    rewrite length_app in Hlen. lia. }
  assert (len l < 2 ^ 64) as Hl64 by (pose proof max_sizes; lia).
  assert (∀ l', (∀ x, x ∈ l' → x ∈ l) → Forall (λ kv, refused kv.2 = false) l' →
    Forall (λ kv, member_text kv ≠ [] ∧
      reads_member (_ ← get; cbor_member a parse) (member_text kv) kv.1 (cbor_value h kv.2)) l') as Hall.
  { intros l' Hsub Hr. rewrite Forall_forall in *. intros x Hx. split; [apply member_nonempty|].
    destruct (He x (Hsub x Hx)) as [Hk Hx2]. rewrite (Hr x Hx) in Hx2.
    intros c l0 k0 st rt. apply cbor_member_key; [done|]. intros c1.
    eapply runs_then; [apply runs_key|]. intros c2. apply Hx2. }
  pose proof (existsb_split (λ kv, refused kv.2) l) as Hsp. destruct (existsb _ l).
  - destruct Hsp as (l1 & x & l2 & -> & H1 & Hx). intros c d.
    eapply stops_head; [apply sends_object|lia|lia|]. intros c1. apply get_cbor_object_stops; [lia|].
    apply (stops_object a c1 d _ member_text (cbor_value h)); [done| |intros|done|lia].
    + apply Hall; [set_solver|done].
    + destruct (He x ltac:(set_solver)) as [Hk Hx2]. rewrite Hx in Hx2.
      apply cbor_member_stops; [done|]. intros c3. eapply stops_then; [apply runs_key|].
      intros c4. apply Hx2.
  - intros c d. eapply runs_head; [apply sends_object|lia|lia|]. intros c1.
    apply get_cbor_object_for; [lia|]. by apply runs_object; [|apply Hall|].
Qed.

Lemma reads_cbor_all j : reads_cbor j.
Proof.
  induction j as [ | b | z | z | f | s | s st | l IH | l IH] using json_ind'.
  1-2,6: by apply reads_cbor_scalar.
  - apply reads_cbor_integer.
  - apply reads_cbor_unsigned.
  - apply reads_cbor_float.
  - apply reads_cbor_binary.
  - by apply reads_cbor_array.
  - by apply reads_cbor_object.
Qed.
End values.

(** ** Numbers and counts beyond the types *)

(** A negative integer below -2^63 becomes one that is not negative. *)
Lemma cbor_wraps_negative a h n : 2 ^ 63 <= n < 2 ^ 64 →
  from_cbor a h true (char_of 0x3B :: write_number 8 n) = Ret (Some (JInt (2 ^ 64 - 1 - n))).
Proof.
  intros Hn. assert (runs eof ([], JNull) (with_fuel (λ fuel, parse_cbor_internal a h fuel true))
    (char_of 0x3B :: write_number 8 n) tt (handle (JInt (2 ^ 64 - 1 - n)) ([], JNull))) as Hr.
  { apply runs_fuel. intros [|fuel] Hf; [lia|]. cbn [parse_cbor_internal]. apply runs_get.
    rewrite <-(app_nil_r (write_number 8 n)). apply (runs_number_bind a _ _ 8 n); [lia|]. intros c.
    assert (-1 - signed 8 n = 2 ^ 64 - 1 - n) as ->; [|apply runs_value].
    unfold signed. destruct (Z.ltb_spec n (2 ^ (8 * Z.of_nat 8 - 1))); lia. }
  pose proof (from_binary_reads a _ true _ _ [] Hr) as H. rewrite app_nil_r in H. exact H.
Qed.

(** The count 2^64-1 stands for the indefinite length. *)
Lemma cbor_count_npos :
  from_cbor true tag_error true (char_of 0x9B :: write_number 8 (2 ^ 64 - 1) ++ (char_of <$> [1; 0xFF])) =
  Ret (Some (JArray [JUint 1])).
Proof. by vm_compute. Qed.

(** * Properties *)

(** C6: what [to_cbor] writes is read back.  For a value with its numbers in range, its keys
    in order and its sizes below those of the containers: with the tags stored, or ignored,
    [from_cbor] returns the value, but an integer that is not negative is unsigned
    afterwards, and ignored tags take the subtypes of byte arrays with them; with the
    default for tags a value that has a subtype somewhere cannot be read, and
    parse_error.112 is the result.  Every other value, with every number of every
    [double] that it holds, comes back whole, in the shortest form [write_compact_float]
    finds.  In strict mode, nothing may follow. *)
Theorem cbor_roundtrip (allow_exceptions strict : bool) (h : cbor_tag_handler_t) (j : json) (rest : bytes) :
  fit j → storable j →
  from_cbor allow_exceptions h strict (to_cbor j ++ rest) =
  if match h with tag_error => tagged j | _ => false end then failed allow_exceptions 112
  else if strict && bool_decide (rest ≠ []) then failed allow_exceptions 110
  else Ret (Some (cbor_value h j)).
Proof.
  intros Hf Hs. pose proof (λ fuel, reads_cbor_all allow_exceptions h j fuel Hf Hs) as H.
  unfold refused in H. unfold from_cbor, to_cbor. destruct (match h with tag_error => _ | _ => _ end).
  - apply from_binary_stops, stops_fuel. intros fuel Hfuel. apply H. lia.
  - apply from_binary_reads, runs_fuel. intros fuel Hfuel. apply H. lia.
Qed.

Definition cbor_sample : json :=
  JObject [(bs "a", JArray [JInt 5; JInt (-70000); JUint 300; JNull; JBool true]);
           (bs "b", JFloat (S754_finite false 5404319552844595 (-53)));
           (bs "c", JBinary (bs "xyz") (Some 70000))].

Lemma cbor_sample_ok : fit cbor_sample ∧ storable cbor_sample.
Proof.
  assert (0 <= object_max_size - 3 ∧ 0 <= array_max_size - 5) by by vm_compute.
  assert (double_ok (S754_finite false 5404319552844595 (-53))) by by vm_compute.
  repeat split; cbn; try lia; try done. by apply sample_in_order.
Qed.

Lemma cbor_roundtrip_witness :
  from_cbor true tag_store true (to_cbor cbor_sample ++ []) = Ret (Some (cbor_value tag_store cbor_sample)) ∧
  from_cbor true tag_error true (to_cbor cbor_sample ++ []) = Throw (json_exception 112) ∧
  from_cbor false tag_ignore true (to_cbor cbor_sample ++ bs "x") = Ret None.
Proof.
  destruct cbor_sample_ok as [Hf Hs]. split_and!.
  - exact (cbor_roundtrip true true tag_store cbor_sample [] Hf Hs).
  - exact (cbor_roundtrip true true tag_error cbor_sample [] Hf Hs).
  - exact (cbor_roundtrip false true tag_ignore cbor_sample (bs "x") Hf Hs).
Defined.

(** C28: [from_cbor] ends on every input, whatever is done with tags and exceptions:
    definite and indefinite lengths, nested containers and chunks, counts the input
    does not hold.  It returns a value with numbers in range, [double]s that are
    [double]s and objects in key order, or one of the errors parse_error.110, 112 and
    113, as an exception or a discarded value; or it throws out_of_range.408 for a
    count no container can have, even where exceptions are not allowed.  No assertion
    fails, and neither [key] nor [end_array] nor [end_object] meets another container
    than its own. *)
Theorem from_cbor_total (allow_exceptions strict : bool) (h : cbor_tag_handler_t) (s : bytes) :
  value_or_error allow_exceptions (from_cbor allow_exceptions h strict s).
Proof. apply from_binary_total, from_cbor_ends. Qed.
