(* ===== verification/MsgPack.v ===== *)
(** * MessagePack (src/cppboot/base/internal/json/json.hpp)

    [write_msgpack], [parse_msgpack_internal] and what they call: [to_msgpack] and
    [from_msgpack].  The bits of a NaN, which is written as a [double], are a
    parameter. *)

From S2P Require Import Prelude JsonValue JsonDump JsonParse Json JsonFloat JsonBinary.
Import Binary.

Module MsgPack.

(** ** [write_msgpack] *)

Section writer.
Context (nan_bits : Z).

Definition write_msgpack_unsigned (n : Z) : bytes :=
  if n <? 128 then write_number 1 n
  else if n <=? 0xFF then char_of 0xCC :: write_number 1 n
  else if n <=? 0xFFFF then char_of 0xCD :: write_number 2 n
  else if n <=? 0xFFFFFFFF then char_of 0xCE :: write_number 4 n
  else if n <=? 2 ^ 64 - 1 then char_of 0xCF :: write_number 8 n
  else [].

Definition write_msgpack_integer (z : Z) : bytes :=
  if 0 <=? z then write_msgpack_unsigned z
  else if -32 <=? z then write_number 1 z
  else if (- 2 ^ 7 <=? z) && (z <=? 2 ^ 7 - 1) then char_of 0xD0 :: write_number 1 z
  else if (- 2 ^ 15 <=? z) && (z <=? 2 ^ 15 - 1) then char_of 0xD1 :: write_number 2 z
  else if (- 2 ^ 31 <=? z) && (z <=? 2 ^ 31 - 1) then char_of 0xD2 :: write_number 4 z
  else if (- 2 ^ 63 <=? z) && (z <=? 2 ^ 63 - 1) then char_of 0xD3 :: write_number 8 z
  else [].

(** No control byte is written for a size that takes more than 32 bits. *)
Definition msgpack_string_head (n : Z) : bytes :=
  if n <=? 31 then write_number 1 (Z.lor 0xA0 n)
  else if n <=? 0xFF then char_of 0xD9 :: write_number 1 n
  else if n <=? 0xFFFF then char_of 0xDA :: write_number 2 n
  else if n <=? 0xFFFFFFFF then char_of 0xDB :: write_number 4 n
  else [].
Definition write_msgpack_string (s : bytes) : bytes := msgpack_string_head (len s) ++ s.

Definition msgpack_array_head (n : Z) : bytes :=
  if n <=? 15 then write_number 1 (Z.lor 0x90 n)
  else if n <=? 0xFFFF then char_of 0xDC :: write_number 2 n
  else if n <=? 0xFFFFFFFF then char_of 0xDD :: write_number 4 n
  else [].

Definition msgpack_object_head (n : Z) : bytes :=
  if n <=? 15 then write_number 1 (Z.lor 0x80 (Z.land n 0xF))
  else if n <=? 0xFFFF then char_of 0xDE :: write_number 2 n
  else if n <=? 0xFFFFFFFF then char_of 0xDF :: write_number 4 n
  else [].

Definition msgpack_binary_head (use_ext : bool) (n : Z) : bytes :=
  if n <=? 0xFF then
    if use_ext then
      if n =? 1 then [char_of 0xD4] else if n =? 2 then [char_of 0xD5]
      else if n =? 4 then [char_of 0xD6] else if n =? 8 then [char_of 0xD7]
      else if n =? 16 then [char_of 0xD8] else char_of 0xC7 :: write_number 1 n
    else char_of 0xC4 :: write_number 1 n
  else if n <=? 0xFFFF then char_of (if use_ext then 0xC8 else 0xC5) :: write_number 2 n
  else if n <=? 0xFFFFFFFF then char_of (if use_ext then 0xC9 else 0xC6) :: write_number 4 n
  else [].
Definition write_msgpack_binary (s : bytes) (subtype : option Z) : bytes :=
  msgpack_binary_head (bool_decide (is_Some subtype)) (len s) ++
  match subtype with Some n => write_number 1 n | None => [] end ++ s.

Fixpoint write_msgpack (j : json) : bytes :=
  match j with
  | JNull => [char_of 0xC0]
  | JBool b => [char_of (if b then 0xC3 else 0xC2)]
  | JInt z => write_msgpack_integer z
  | JUint z => write_msgpack_unsigned z
  | JFloat f => write_compact_float 0xCA 0xCB nan_bits f
  | JString s => write_msgpack_string s
  | JBinary s subtype => write_msgpack_binary s subtype
  | JArray l => msgpack_array_head (len l) ++ concat (write_msgpack <$> l)
  | JObject l =>
      msgpack_object_head (len l) ++
      concat ((λ kv, write_msgpack_string kv.1 ++ write_msgpack kv.2) <$> l)
  end.

Definition to_msgpack (j : json) : bytes := write_msgpack j.
End writer.

(** ** [parse_msgpack_internal] *)

Section reader.
Context (allow_exceptions : bool).

Abbreviation number size := (get_number allow_exceptions size).

Definition get_msgpack_string (result : bytes) : reading bytes :=
  _ ← unexpect_eof allow_exceptions;
  with_current (λ c,
    if Parser.between 0xA0 c 0xBF then get_string allow_exceptions (Z.land c 0x1F) result
    else if c =? 0xD9 then n ← number 1; get_string allow_exceptions n result
    else if c =? 0xDA then n ← number 2; get_string allow_exceptions n result
    else if c =? 0xDB then n ← number 4; get_string allow_exceptions n result
    else parse_error allow_exceptions 113).

(** The bytes and the subtype: an [std::int8_t] that is made an [std::uint8_t]. *)
Definition msgpack_bin (size : nat) : reading (bytes * option Z) :=
  n ← number size; s ← get_binary allow_exceptions n []; mret (s, None).
Definition msgpack_fixext (n : Z) : reading (bytes * option Z) :=
  subtype ← number 1; s ← get_binary allow_exceptions n [];
  mret (s, Some (signed 1 subtype mod 256)).
Definition msgpack_ext (size : nat) : reading (bytes * option Z) := n ← number size; msgpack_fixext n.

Definition get_msgpack_binary : reading (bytes * option Z) :=
  with_current (λ c,
    if c =? 0xC4 then msgpack_bin 1 else if c =? 0xC5 then msgpack_bin 2
    else if c =? 0xC6 then msgpack_bin 4
    else if c =? 0xC7 then msgpack_ext 1 else if c =? 0xC8 then msgpack_ext 2
    else if c =? 0xC9 then msgpack_ext 4
    else if c =? 0xD4 then msgpack_fixext 1 else if c =? 0xD5 then msgpack_fixext 2
    else if c =? 0xD6 then msgpack_fixext 4 else if c =? 0xD7 then msgpack_fixext 8
    else if c =? 0xD8 then msgpack_fixext 16
    else λ r, Ret (None, r)).

Section step.
(** [parse_msgpack_internal] itself, one level down *)
Context (parse : reading unit).

Definition get_msgpack_array (n : Z) : reading unit :=
  _ ← start_array n; _ ← with_fuel (λ fuel, for_loop fuel 0 n parse); end_array.

Definition msgpack_member : reading unit :=
  _ ← get; k ← get_msgpack_string []; _ ← key k; parse.
Definition get_msgpack_object (n : Z) : reading unit :=
  _ ← start_object n; _ ← with_fuel (λ fuel, for_loop fuel 0 n msgpack_member); end_object.

(** The switch, a group of its cases at a time; [rest] is what is below. *)
Definition msgpack_fix_case (c : Z) (rest : reading unit) : reading unit :=
  if Parser.between 0 c 0x7F then sax_value (JUint c)
  else if Parser.between 0x80 c 0x8F then get_msgpack_object (Z.land c 0x0F)
  else if Parser.between 0x90 c 0x9F then get_msgpack_array (Z.land c 0x0F)
  else if Parser.between 0xA0 c 0xBF || Parser.between 0xD9 c 0xDB then
    s ← get_msgpack_string []; sax_value (JString s)
  else rest.

Definition msgpack_simple_case (c : Z) (rest : reading unit) : reading unit :=
  if c =? 0xC0 then sax_value JNull
  else if c =? 0xC2 then sax_value (JBool false)
  else if c =? 0xC3 then sax_value (JBool true)
  else if Parser.between 0xC4 c 0xC9 || Parser.between 0xD4 c 0xD8 then
    b ← get_msgpack_binary; sax_value (JBinary b.1 b.2)
  else rest.

Definition msgpack_number_case (c : Z) (rest : reading unit) : reading unit :=
  if c =? 0xCA then n ← number 4; sax_value (JFloat (to_double (bits_single n)))
  else if c =? 0xCB then n ← number 8; sax_value (JFloat (bits_double n))
  else if c =? 0xCC then n ← number 1; sax_value (JUint n)
  else if c =? 0xCD then n ← number 2; sax_value (JUint n)
  else if c =? 0xCE then n ← number 4; sax_value (JUint n)
  else if c =? 0xCF then n ← number 8; sax_value (JUint n)
  else if c =? 0xD0 then n ← number 1; sax_value (JInt (signed 1 n))
  else if c =? 0xD1 then n ← number 2; sax_value (JInt (signed 2 n))
  else if c =? 0xD2 then n ← number 4; sax_value (JInt (signed 4 n))
  else if c =? 0xD3 then n ← number 8; sax_value (JInt (signed 8 n))
  else rest.

Definition msgpack_container_case (c : Z) (rest : reading unit) : reading unit :=
  if c =? 0xDC then n ← number 2; get_msgpack_array n
  else if c =? 0xDD then n ← number 4; get_msgpack_array n
  else if c =? 0xDE then n ← number 2; get_msgpack_object n
  else if c =? 0xDF then n ← number 4; get_msgpack_object n
  else if Parser.between 0xE0 c 0xFF then sax_value (JInt (signed 1 c))
  else rest.

Definition msgpack_switch (c : Z) : reading unit :=
  if c =? eof then unexpect_eof allow_exceptions
  else msgpack_fix_case c (msgpack_simple_case c (msgpack_number_case c (
    msgpack_container_case c (parse_error allow_exceptions 112)))).
End step.

Fixpoint parse_msgpack_internal (fuel : nat) : reading unit :=
  match fuel with
  | O => λ _, OutOfFuel
  | S fuel => c ← get; msgpack_switch (parse_msgpack_internal fuel) c
  end.

(** Every level reads a byte before the next. *)
Definition from_msgpack (strict : bool) (s : bytes) : outcome (option json) :=
  from_binary allow_exceptions (with_fuel parse_msgpack_internal) strict s.

End reader.
End MsgPack.
Import MsgPack.

(** * Specification *)

(** What is read back: integers that are not negative are unsigned, subtypes one byte. *)
Fixpoint msgpack_value (j : json) : json :=
  match j with
  | JInt z => if 0 <=? z then JUint z else JInt z
  | JBinary s subtype => JBinary s ((λ n, n mod 256) <$> subtype)
  | JArray l => JArray (msgpack_value <$> l)
  | JObject l => JObject ((λ kv, (kv.1, msgpack_value kv.2)) <$> l)
  | _ => j
  end.

(** The sizes the format can express. *)
Fixpoint sizes_32 (j : json) : Prop :=
  match j with
  | JString s | JBinary s _ => len s < 2 ^ 32
  | JArray l => len l < 2 ^ 32 ∧ foldr (λ x P, sizes_32 x ∧ P) True l
  | JObject l => len l < 2 ^ 32 ∧ foldr (λ kv P, (len kv.1 < 2 ^ 32 ∧ sizes_32 kv.2) ∧ P) True l
  | _ => True
  end.

(** * Lemmas *)

(** ** Ending on every input *)
Section ends.
Context (a : bool).
Implicit Types (r : reader) (c : Z).

Abbreviation left r := (length (ia r)).

Lemma ends_sized {A} size (f : Z → reading A) r (P : A → Prop) :
  (∀ n r', 0 <= n < 2 ^ (8 * Z.of_nat size) → ends a (f n r') (λ x r'', P x ∧ later r' r'')) →
  ends a ((n ← get_number a size; f n) r) (λ x r', P x ∧ later r r').
Proof.
  intros H. apply ends_bind. eapply ends_mono; [apply ends_number|]. intros n r1 [Hn H1].
  eapply ends_mono; [by apply H|]. intros x r2 [Hx H2]. split; [done|by eapply later_trans].
Qed.

Lemma msgpack_string_ends res r :
  ends a (get_msgpack_string a res r) (λ _ r', current r ≠ eof ∧ later r r').
Proof.
  unfold get_msgpack_string. apply ends_bind, ends_eof. intros Hc. unfold with_current.
  assert (∀ n r', ends a (get_string a n res r') (λ _ r'', current r ≠ eof ∧ later r' r'')) as Hs.
  { intros n r'. eapply ends_mono; [apply ends_string|]. by intros. }
  destruct (Parser.between _ _ _); [apply Hs|].
  repeat (destruct (_ =? _); [by apply ends_sized|]). apply ends_error. set_solver.
Qed.

(** A byte string with a subtype that fits. *)
Definition subtype_ok (x : bytes * option Z) : Prop := fit (JBinary x.1 x.2).

Lemma fixext_ends n r : ends a (msgpack_fixext a n r) (λ x r', subtype_ok x ∧ later r r').
Proof.
  apply ends_sized. intros st r1 _. apply ends_bind. eapply ends_mono; [apply ends_binary|].
  intros s r2 H2. apply ends_ret. split; [|done]. apply fit_bytes.
  change (0 <= signed 1 st mod 256 < 2 ^ 64). pose proof (Z.mod_pos_bound (signed 1 st) 256). lia.
Qed.

Lemma msgpack_binary_ends r : 0xC4 <= current r <= 0xC9 ∨ 0xD4 <= current r <= 0xD8 →
  ends a (get_msgpack_binary a r) (λ x r', subtype_ok x ∧ later r r').
Proof.
  intros Hc. unfold get_msgpack_binary, with_current.
  assert (∀ size, ends a (msgpack_bin a size r) (λ x r', subtype_ok x ∧ later r r')) as Hbin.
  { intros size. apply ends_sized. intros n r1 _. apply ends_bind.
    eapply ends_mono; [apply ends_binary|]. intros s r2 H2. apply ends_ret. split; [by apply fit_bytes|done]. }
  assert (∀ size, ends a (msgpack_ext a size r) (λ x r', subtype_ok x ∧ later r r')) as Hext.
  { intros size. apply ends_sized. intros n r1 _. apply fixext_ends. }
  pose proof fixext_ends.
  repeat (match goal with |- context [if ?b then _ else _] => destruct b eqn:? end; [by auto|]). lia.
Qed.

Section step.
Context (parse : reading unit) (r0 : reader).
Context (Hp : ∀ r', (left r' <= left r0)%nat → gives a 1 r' parse).

Lemma msgpack_array_gives n r : (left r <= left r0)%nat → gives a 0 r (get_msgpack_array parse n).
Proof. intros Hr. apply gives_elements. intros r' Hr'. apply Hp. lia. Qed.

Lemma msgpack_object_gives n r : (left r <= left r0)%nat → gives a 0 r (get_msgpack_object a parse n).
Proof.
  intros Hr. apply gives_object. intros r1 Hr1 Ho. unfold with_fuel.
  apply (ends_for a (open_object (dom r)) _ (left r)); [|lia|lia|done].
  intros r2 H2 Ho2. apply ends_bind, ends_get. intros r3 Hd3 H3.
  apply ends_bind. eapply ends_mono; [apply msgpack_string_ends|].
  intros k r4 [Hc [Hd4 H4]]. rewrite <-Hd3, <-Hd4 in Ho2.
  apply ends_bind. eapply ends_key; [exact Ho2|]. intros d Ho5.
  eapply ends_mono; [apply Hp; cbn; lia|]. cbn. intros _ r5 [(v & Hv & ->) H5].
  split; [by apply open_object_value|]. destruct H3 as [[? _]|]; [done|lia].
Qed.

Lemma sized_gives size (f : Z → reading unit) r :
  (∀ n r', 0 <= n < 2 ^ (8 * Z.of_nat size) → (left r' <= left r)%nat → gives a 0 r' (f n)) →
  gives a 0 r (n ← get_number a size; f n).
Proof.
  intros H. eapply gives_bind; [apply ends_number|]. cbv beta. intros n r' Hn [_ Hl]. by apply H.
Qed.

Lemma fit_int size n : (0 < size <= 8)%nat → 0 <= n < 2 ^ (8 * Z.of_nat size) → fit (JInt (signed size n)).
Proof.
  intros Hs Hn. split; [|done]. cbn. unfold signed.
  assert (2 ^ (8 * Z.of_nat size) = 2 * 2 ^ (8 * Z.of_nat size - 1)) as Hk
    by (rewrite <-Z.pow_succ_r by lia; f_equal; lia).
  pose proof (Z.pow_le_mono_r 2 (8 * Z.of_nat size - 1) 63).
  destruct (Z.ltb_spec n (2 ^ (8 * Z.of_nat size - 1))); lia.
Qed.

Lemma msgpack_switch_gives r c : left r = left r0 → current r = c → c < 256 → c ≠ eof →
  gives a 0 r (msgpack_switch a parse c).
Proof.
  intros Hr Hc Hlt He. unfold msgpack_switch. rewrite (proj2 (Z.eqb_neq c eof)) by done.
  unfold msgpack_fix_case, msgpack_simple_case, msgpack_number_case, msgpack_container_case,
    Parser.between, eof in *.
  switch_test; [apply gives_value, fit_uint; lia|].
  switch_test; [apply msgpack_object_gives; lia|].
  switch_test; [apply msgpack_array_gives; lia|].
  switch_test.
  { apply (gives_made a _ _ (λ _, True)); [|by split].
    eapply ends_mono; [apply msgpack_string_ends|]. by intros s r' [_ ?]. }
  do 3 (switch_test; [by apply gives_value|]).
  switch_test.
  { apply (gives_made a _ _ subtype_ok); [|done]. apply msgpack_binary_ends. lia. }
  do 2 (switch_test; [apply sized_gives; intros n r' Hn _; apply gives_value; split; [done|];
    first [apply to_double_valid | by apply bits_double_valid]|]).
  do 4 (switch_test; [apply sized_gives; intros n r' Hn _; apply gives_value, fit_uint; lia|]).
  do 4 (switch_test; [apply sized_gives; intros n r' Hn _; apply gives_value, fit_int; [lia|done]|]).
  do 2 (switch_test; [apply sized_gives; intros n r' _ ?; apply msgpack_array_gives; lia|]).
  do 2 (switch_test; [apply sized_gives; intros n r' _ ?; apply msgpack_object_gives; lia|]).
  switch_test; [apply gives_value, (fit_int 1); lia|]. apply ends_error. set_solver.
Qed.
End step.

Lemma parse_msgpack_ends fuel : ∀ r, (left r < fuel)%nat → gives a 1 r (parse_msgpack_internal a fuel).
Proof.
  induction fuel as [|fuel IH]; intros r Hf; [lia|]. cbn [parse_msgpack_internal].
  apply ends_bind, ends_get. intros r1 Hd1 H1. destruct (Z.eq_dec (current r1) eof) as [He|He].
  - rewrite He. unfold msgpack_switch. cbn. apply ends_eof. done.
  - destruct H1 as [[? _]|[Hc H1]]; [done|].
    eapply ends_mono; [apply (msgpack_switch_gives _ r1); [|done|done|lia|done]|].
    + intros r' Hr'. apply IH. lia.
    + intros ? r2 [Hv H2]. rewrite Hd1 in Hv. split; [done|lia].
Qed.

Lemma from_msgpack_ends s :
  gives a 1 (Reader s eof ([], JNull)) (with_fuel (parse_msgpack_internal a)).
Proof. apply gives_fuel, parse_msgpack_ends. cbn [ia]. lia. Qed.
End ends.

(** ** Reading what was written *)

(** The bits of the sizes in the control byte. *)
Lemma control_bits :
  forallb (λ n, (Z.lor 0xA0 n =? 0xA0 + n) && (Z.land (0xA0 + n) 0x1F =? n)) (seqZ 0 32) = true ∧
  forallb (λ n, (Z.lor 0x90 n =? 0x90 + n) && (Z.land (0x90 + n) 0x0F =? n) &&
    (Z.lor 0x80 (Z.land n 0xF) =? 0x80 + n) && (Z.land (0x80 + n) 0x0F =? n)) (seqZ 0 16) = true.
Proof. by vm_compute. Qed.

Lemma string_bits n : 0 <= n <= 31 → Z.lor 0xA0 n = 0xA0 + n ∧ Z.land (0xA0 + n) 0x1F = n.
Proof.
  intros Hn. destruct control_bits as [H _]. rewrite forallb_forall in H.
  specialize (H n ltac:(apply list_elem_of_In, elem_of_seqZ; lia)). bool_hyps. by split.
Qed.

Lemma container_bits n : 0 <= n <= 15 → Z.lor 0x90 n = 0x90 + n ∧ Z.land (0x90 + n) 0x0F = n ∧
  Z.lor 0x80 (Z.land n 0xF) = 0x80 + n ∧ Z.land (0x80 + n) 0x0F = n.
Proof.
  intros Hn. destruct control_bits as [_ H]. rewrite forallb_forall in H.
  specialize (H n ltac:(apply list_elem_of_In, elem_of_seqZ; lia)). bool_hyps. by split_and!.
Qed.

Ltac switch_cases :=
  unfold msgpack_switch, msgpack_fix_case, msgpack_simple_case, msgpack_number_case, msgpack_container_case,
    Parser.between, eof; repeat (case_test; try lia); try reflexivity.

Section switch.
Context (a : bool) (parse : reading unit).

Lemma switch_uint n : 0 <= n < 128 → msgpack_switch a parse n = sax_value (JUint n).
Proof. intros. switch_cases. Qed.
Lemma switch_fixmap n : 0 <= n <= 15 → msgpack_switch a parse (0x80 + n) = get_msgpack_object a parse n.
Proof. intros Hn. destruct (container_bits n Hn) as (_ & _ & _ & Hl). switch_cases. by rewrite Hl. Qed.
Lemma switch_fixarray n : 0 <= n <= 15 → msgpack_switch a parse (0x90 + n) = get_msgpack_array parse n.
Proof. intros Hn. destruct (container_bits n Hn) as (_ & Hl & _). switch_cases. by rewrite Hl. Qed.
Lemma switch_string c : 0xA0 <= c <= 0xBF ∨ 0xD9 <= c <= 0xDB →
  msgpack_switch a parse c = s ← get_msgpack_string a []; sax_value (JString s).
Proof. intros. switch_cases. Qed.
Lemma switch_binary c : 0xC4 <= c <= 0xC9 ∨ 0xD4 <= c <= 0xD8 →
  msgpack_switch a parse c = b ← get_msgpack_binary a; sax_value (JBinary b.1 b.2).
Proof. intros. switch_cases. Qed.
Lemma switch_negative c : 0xE0 <= c <= 0xFF → msgpack_switch a parse c = sax_value (JInt (signed 1 c)).
Proof. intros. switch_cases. Qed.
End switch.

Section values.
Context (a : bool) (nan_bits : Z) (Hnan : bits_double nan_bits = S754_nan ∧ 0 <= nan_bits < 2 ^ 64).
Implicit Types (r : reader) (c : Z) (d : sax).

Abbreviation step parse := (c ← get; msgpack_switch a parse c).

(** A control byte and a number behind it. *)
Lemma runs_sized parse c d ch size n (f : Z → reading unit) s d' :
  msgpack_switch a parse (uchar ch) = (n ← get_number a size; f n) →
  (∀ c, runs c d (f (n mod 2 ^ (8 * Z.of_nat size))) s tt d') →
  runs c d (step parse) (ch :: write_number size n ++ s) tt d'.
Proof. intros Hs Hr. apply runs_get. rewrite Hs. eapply runs_bind; [apply runs_number|exact Hr]. Qed.

(** The same where the number is the value. *)
Lemma reads_sized parse ch size n (v : Z → json) :
  msgpack_switch a parse (uchar ch) = (n ← get_number a size; sax_value (v n)) →
  reads (step parse) (ch :: write_number size n) (v (n mod 2 ^ (8 * Z.of_nat size))).
Proof.
  intros Hs c d. rewrite <-(app_nil_r (write_number size n)). eapply runs_sized; [exact Hs|].
  intros c1. apply runs_value.
Qed.

Lemma reads_unsigned parse n : 0 <= n < 2 ^ 64 → reads (step parse) (write_msgpack_unsigned n) (JUint n).
Proof.
  intros Hn. unfold write_msgpack_unsigned. repeat case_test; bool_hyps; try lia.
  - intros c d. apply runs_get. rewrite uchar_char_of, Z.mod_small, switch_uint by lia. apply runs_value.
  - pose proof (reads_sized parse (char_of 0xCC) 1 n JUint eq_refl) as H. by rewrite Z.mod_small in H by lia.
  - pose proof (reads_sized parse (char_of 0xCD) 2 n JUint eq_refl) as H. by rewrite Z.mod_small in H by lia.
  - pose proof (reads_sized parse (char_of 0xCE) 4 n JUint eq_refl) as H. by rewrite Z.mod_small in H by lia.
  - pose proof (reads_sized parse (char_of 0xCF) 8 n JUint eq_refl) as H. by rewrite Z.mod_small in H by lia.
Qed.

Lemma reads_int parse ch size z : (0 < size)%nat →
  - 2 ^ (8 * Z.of_nat size - 1) <= z < 2 ^ (8 * Z.of_nat size - 1) →
  msgpack_switch a parse (uchar ch) = (n ← get_number a size; sax_value (JInt (signed size n))) →
  reads (step parse) (ch :: write_number size z) (JInt z).
Proof.
  intros Hs Hz Hsw. pose proof (reads_sized parse ch size z (λ n, JInt (signed size n)) Hsw) as H.
  cbv beta in H. by rewrite signed_read in H.
Qed.

Lemma reads_integer parse z : - 2 ^ 63 <= z < 2 ^ 63 →
  reads (step parse) (write_msgpack_integer z) (msgpack_value (JInt z)).
Proof.
  intros Hz. unfold write_msgpack_integer. cbn [msgpack_value].
  destruct (Z.leb_spec 0 z); [apply reads_unsigned; lia|].
  repeat case_test; bool_hyps; try lia.
  - intros c d. rewrite write_number_1. apply runs_get. rewrite uchar_char_of.
    rewrite switch_negative by (rewrite <-(Z.mod_unique_pos z 256 (-1) (z + 256)); lia).
    change 256 with (2 ^ (8 * Z.of_nat 1)). rewrite (signed_read 1 z) by lia. apply runs_value.
  - apply reads_int; [lia|lia|done].
  - apply reads_int; [lia|lia|done].
  - apply reads_int; [lia|lia|done].
  - apply reads_int; [lia|lia|done].
Qed.

Lemma reads_float parse f : double_ok f →
  reads (step parse) (write_compact_float 0xCA 0xCB nan_bits f) (JFloat f).
Proof.
  intros Hf. destruct (compact_float_cases 0xCA 0xCB nan_bits f Hf)
    as [(x & -> & Hx & <-)|(x & -> & Hx & <-)].
  - intros ->. exact Hnan.
  - pose proof (reads_sized parse (char_of 0xCA) 4 x (λ n, JFloat (to_double (bits_single n))) eq_refl) as H.
    by rewrite Z.mod_small in H by lia.
  - pose proof (reads_sized parse (char_of 0xCB) 8 x (λ n, JFloat (bits_double n)) eq_refl) as H.
    by rewrite Z.mod_small in H by lia.
Qed.

(** *** Strings *)

Lemma msgpack_string_read c d size s :
  len s < 2 ^ (8 * Z.of_nat size) →
  runs c d (n ← get_number a size; get_string a n []) (write_number size (len s) ++ s) s d.
Proof.
  intros Hl. apply runs_number_bind; [lia|]. intros c1. apply (runs_string a _ d s []).
Qed.

Lemma runs_msgpack_string d s : len s < 2 ^ 32 →
  ∃ ch tl, msgpack_string_head (len s) = ch :: tl ∧
    (0xA0 <= uchar ch <= 0xBF ∨ 0xD9 <= uchar ch <= 0xDB) ∧
    runs (uchar ch) d (get_msgpack_string a []) (tl ++ s) s d.
Proof.
  intros Hl. unfold msgpack_string_head, get_msgpack_string.
  repeat case_test; bool_hyps; try lia; eexists _, _; (split; [reflexivity|]).
  - destruct (string_bits (len s) ltac:(lia)) as [H1 H2]. rewrite H1, uchar_char_of, Z.mod_small by lia.
    split; [lia|]. apply runs_not_eof_then; [lia|]. apply runs_current.
    rewrite between_true, H2 by lia. apply (runs_string a _ d s []).
  - split; [right; by vm_compute|]. apply runs_not_eof_then; [by vm_compute|]. apply runs_current.
    apply (msgpack_string_read _ d 1). lia.
  - split; [right; by vm_compute|]. apply runs_not_eof_then; [by vm_compute|]. apply runs_current.
    apply (msgpack_string_read _ d 2). lia.
  - split; [right; by vm_compute|]. apply runs_not_eof_then; [by vm_compute|]. apply runs_current.
    apply (msgpack_string_read _ d 4). lia.
Qed.

Lemma reads_string parse s : len s < 2 ^ 32 → reads (step parse) (write_msgpack_string s) (JString s).
Proof.
  intros Hl c d. destruct (runs_msgpack_string d s Hl) as (ch & tl & Hh & Hc & Hr).
  unfold write_msgpack_string. rewrite Hh. cbn [app]. apply runs_get. rewrite switch_string by done.
  eapply runs_end; [exact Hr|]. intros c1. apply runs_value.
Qed.
(** *** Byte strings *)

Lemma subtype_read n : signed 1 (n mod 256) mod 256 = n mod 256.
Proof.
  unfold signed. change (2 ^ (8 * Z.of_nat 1 - 1)) with 128. change (2 ^ (8 * Z.of_nat 1)) with 256.
  pose proof (Z.mod_pos_bound n 256). destruct (Z.ltb_spec (n mod 256) 128); [by rewrite Z.mod_mod|].
  symmetry. apply (Z.mod_unique_pos _ _ (-1)); lia.
Qed.

Lemma runs_bin c d size s : len s < 2 ^ (8 * Z.of_nat size) →
  runs c d (msgpack_bin a size) (write_number size (len s) ++ s) (s, None) d.
Proof.
  intros Hl. apply runs_number_bind; [lia|]. intros c1. eapply runs_end; [apply (runs_binary a _ d s [])|]. intros c2. apply runs_ret.
Qed.

Lemma runs_fixext c d n s :
  runs c d (msgpack_fixext a (len s)) (write_number 1 n ++ s) (s, Some (n mod 256)) d.
Proof.
  eapply runs_bind; [apply runs_number|]. intros c1. eapply runs_end; [apply (runs_binary a _ d s [])|]. intros c2.
  change (2 ^ (8 * Z.of_nat 1)) with 256. rewrite subtype_read. apply runs_ret.
Qed.

Lemma runs_ext c d size n s : len s < 2 ^ (8 * Z.of_nat size) →
  runs c d (msgpack_ext a size) (write_number size (len s) ++ write_number 1 n ++ s)
    (s, Some (n mod 256)) d.
Proof. intros Hl. apply runs_number_bind; [lia|]. intros c1. apply runs_fixext. Qed.

Lemma runs_msgpack_binary d s st : len s < 2 ^ 32 →
  ∃ ch tl, write_msgpack_binary s st = ch :: tl ∧
    (0xC4 <= uchar ch <= 0xC9 ∨ 0xD4 <= uchar ch <= 0xD8) ∧
    runs (uchar ch) d (get_msgpack_binary a) tl (s, (λ n, n mod 256) <$> st) d.
Proof.
  intros Hl. unfold write_msgpack_binary, msgpack_binary_head.
  destruct st as [n|].
  - rewrite bool_decide_true by done. cbn [fmap option_fmap option_map].
    assert (∀ z, len s = z → 0 <= z → ∀ c, runs c d (msgpack_fixext a z) (write_number 1 n ++ s)
      (s, Some (n mod 256)) d) as Hfix by (intros z <- _ c; apply runs_fixext).
    repeat case_test; bool_hyps; try lia; eexists _, _; (split; [reflexivity|]).
    + split; [right; by vm_compute|]. by apply (Hfix 1).
    + split; [right; by vm_compute|]. by apply (Hfix 2).
    + split; [right; by vm_compute|]. by apply (Hfix 4).
    + split; [right; by vm_compute|]. by apply (Hfix 8).
    + split; [right; by vm_compute|]. by apply (Hfix 16).
    + split; [left; by vm_compute|]. apply (runs_ext _ d 1). lia.
    + split; [left; by vm_compute|]. apply (runs_ext _ d 2). lia.
    + split; [left; by vm_compute|]. apply (runs_ext _ d 4). lia.
  - rewrite bool_decide_false by (by intros []). cbn [app].
    repeat case_test; bool_hyps; try lia; eexists _, _; (split; [reflexivity|]);
      (split; [by vm_compute; left|]).
    + apply (runs_bin _ d 1). lia.
    + apply (runs_bin _ d 2). lia.
    + apply (runs_bin _ d 4). lia.
Qed.

Lemma reads_binary parse s st : len s < 2 ^ 32 →
  reads (step parse) (write_msgpack_binary s st) (msgpack_value (JBinary s st)).
Proof.
  intros Hl c d. destruct (runs_msgpack_binary d s st Hl) as (ch & tl & -> & Hc & Hr).
  apply runs_get. rewrite switch_binary by done.
  eapply runs_end; [exact Hr|]. intros c1. apply runs_value.
Qed.
(** *** Arrays and objects *)

(** A value and its bytes, for [parse_msgpack_internal] with the fuel for its levels. *)
Definition reads_msgpack (j : json) : Prop := ∀ fuel, fit j → sizes_32 j →
  (length (write_msgpack nan_bits j) <= fuel)%nat →
  reads (parse_msgpack_internal a fuel) (write_msgpack nan_bits j) (msgpack_value j).

Lemma msgpack_nonempty j : fit j → sizes_32 j → write_msgpack nan_bits j ≠ [].
Proof.
  intros [Hf _] Hs. destruct j as [ |b|z|z|f|s|s st|l|l]; cbn [write_msgpack json_wf sizes_32] in *;
    try done.
  - unfold write_msgpack_integer, write_msgpack_unsigned. repeat case_test; bool_hyps; try done; lia.
  - unfold write_msgpack_unsigned. repeat case_test; bool_hyps; try done; lia.
  - unfold write_compact_float. by case_test.
  - unfold write_msgpack_string, msgpack_string_head. repeat case_test; bool_hyps; try done; lia.
  - destruct (runs_msgpack_binary ([], JNull) s st Hs) as (ch & tl & -> & _). done.
  - unfold msgpack_array_head. repeat case_test; bool_hyps; try done; lia.
  - unfold msgpack_object_head. repeat case_test; bool_hyps; try done; lia.
Qed.

Lemma runs_array_head parse c d n s d' : 0 <= n < 2 ^ 32 →
  (∀ c, runs c d (get_msgpack_array parse n) s tt d') →
  runs c d (step parse) (msgpack_array_head n ++ s) tt d'.
Proof.
  intros Hn Hr. unfold msgpack_array_head. repeat case_test; bool_hyps; try lia.
  - destruct (container_bits n ltac:(lia)) as [-> _]. apply runs_get.
    rewrite uchar_char_of, Z.mod_small, switch_fixarray by lia. apply Hr.
  - apply (runs_sized parse c d _ 2 n (get_msgpack_array parse)); [done|].
    intros c1. by rewrite Z.mod_small by lia.
  - apply (runs_sized parse c d _ 4 n (get_msgpack_array parse)); [done|].
    intros c1. by rewrite Z.mod_small by lia.
Qed.

Lemma runs_object_head parse c d n s d' : 0 <= n < 2 ^ 32 →
  (∀ c, runs c d (get_msgpack_object a parse n) s tt d') →
  runs c d (step parse) (msgpack_object_head n ++ s) tt d'.
Proof.
  intros Hn Hr. unfold msgpack_object_head. repeat case_test; bool_hyps; try lia.
  - destruct (container_bits n ltac:(lia)) as (_ & _ & -> & _). apply runs_get.
    rewrite uchar_char_of, Z.mod_small, switch_fixmap by lia. apply Hr.
  - apply (runs_sized parse c d _ 2 n (get_msgpack_object a parse)); [done|].
    intros c1. by rewrite Z.mod_small by lia.
  - apply (runs_sized parse c d _ 4 n (get_msgpack_object a parse)); [done|].
    intros c1. by rewrite Z.mod_small by lia.
Qed.

Lemma sizes_small : 2 ^ 32 <= array_max_size ∧ 2 ^ 32 <= object_max_size.
Proof. split; by vm_compute. Qed.

Lemma msgpack_array_length n : 0 <= n < 2 ^ 32 → (0 < length (msgpack_array_head n))%nat.
Proof. intros. unfold msgpack_array_head. repeat case_test; bool_hyps; cbn; lia. Qed.
Lemma msgpack_object_length n : 0 <= n < 2 ^ 32 → (0 < length (msgpack_object_head n))%nat.
Proof. intros. unfold msgpack_object_head. repeat case_test; bool_hyps; cbn; lia. Qed.

Lemma reads_msgpack_array l : Forall reads_msgpack l → reads_msgpack (JArray l).
Proof.
  intros HP fuel Hfit [Hl Hst%(foldr_and_Forall sizes_32)] Hf c d. apply fit_array_inv in Hfit.
  cbn [write_msgpack] in *. rewrite length_app in Hf. pose proof (msgpack_array_length (len l)).
  destruct fuel as [|fuel]; [lia|]. cbn [parse_msgpack_internal].
  apply runs_array_head; [lia|]. intros c1. pose proof sizes_small.
  apply (runs_array c1 d _ (write_msgpack nan_bits)); [|lia].
  rewrite Forall_forall in HP, Hfit, Hst |- *. intros x Hx. split; [by apply msgpack_nonempty; auto|].
  apply HP; auto. pose proof (length_in_concat (write_msgpack nan_bits) l x Hx). lia.
Qed.

Lemma reads_msgpack_member parse k v d c l k0 st rt s :
  len k < 2 ^ 32 → reads parse s v → d = (Parser.Object_frame l k0 :: st, rt) →
  runs c d (msgpack_member a parse) (write_msgpack_string k ++ s) tt
    (handle v (Parser.object_key k l :: st, rt)).
Proof.
  intros Hk Hv ->. destruct (runs_msgpack_string (Parser.Object_frame l k0 :: st, rt) k Hk)
    as (ch & tl & Hh & _ & Hr).
  unfold write_msgpack_string. rewrite Hh. cbn [app]. apply runs_get.
  eapply runs_bind; [exact Hr|]. intros c1. eapply runs_then; [apply runs_key|]. intros c2. apply Hv.
Qed.

Lemma reads_msgpack_object l : Forall (λ kv, reads_msgpack kv.2) l → reads_msgpack (JObject l).
Proof.
  intros HP fuel Hfit [Hl Hst%(foldr_and_Forall (λ kv, len kv.1 < 2 ^ 32 ∧ sizes_32 kv.2))] Hf c d.
  apply fit_object_inv in Hfit as [Ho Hfit]. cbn [write_msgpack] in *. rewrite length_app in Hf.
  pose proof (msgpack_object_length (len l)).
  destruct fuel as [|fuel]; [lia|]. cbn [parse_msgpack_internal].
  apply runs_object_head; [lia|]. intros c1. pose proof sizes_small.
  set (text := λ kv : bytes * json, write_msgpack_string kv.1 ++ write_msgpack nan_bits kv.2) in *.
  apply (runs_object c1 d _ text); [done| |lia].
  rewrite Forall_forall in HP, Hfit, Hst |- *. intros x Hx. destruct (Hst x Hx) as [Hk Hs].
  split; [intros [_ H1]%app_eq_nil; by apply msgpack_nonempty in H1; auto|].
  intros c2 l0 k0 st rt. eapply reads_msgpack_member; [done| |done]. apply HP; auto.
  pose proof (length_in_concat text l x Hx) as Hlen. unfold text in Hlen at 1.
  rewrite length_app in Hlen. lia.
Qed.

Lemma reads_msgpack_all j : reads_msgpack j.
Proof.
  induction j as [ | b | z | z | f | s | s st | l IH | l IH] using json_ind'.
  8: by apply reads_msgpack_array.
  8: by apply reads_msgpack_object.
  all: intros fuel Hfit Hs Hf; pose proof (msgpack_nonempty _ Hfit Hs) as Hne;
    (destruct fuel as [|fuel]; [destruct (write_msgpack _ _); [done|cbn in Hf; lia]|]);
    cbn [parse_msgpack_internal write_msgpack msgpack_value]; destruct Hfit as [Hwf Hfl].
  - intros c d. apply runs_get, runs_value.
  - intros c d. apply runs_get. destruct b; apply runs_value.
  - by apply reads_integer.
  - by apply reads_unsigned.
  - by apply reads_float.
  - by apply reads_string.
  - by apply reads_binary.
Qed.
End values.

(** The control byte is missing where the size takes more than 32 bits. *)
Lemma msgpack_no_control nan_bits l : 2 ^ 32 <= len l →
  to_msgpack nan_bits (JArray l) = concat (write_msgpack nan_bits <$> l).
Proof.
  intros Hl. unfold to_msgpack. cbn [write_msgpack]. unfold msgpack_array_head.
  repeat case_test; bool_hyps; by try lia.
Qed.

(** * Properties *)

(** C29: what [to_msgpack] writes is read back: for a value with its numbers in range, its
    keys in order and no size beyond 32 bits, [from_msgpack] returns the value, but an
    integer that is not negative is unsigned afterwards, and of the subtype of a byte array
    the lowest eight bits are left.  Every number of every [double] comes back, also
    the smallest and NaN.  In strict mode, nothing may follow. *)
Theorem msgpack_roundtrip (allow_exceptions strict : bool) (nan_bits : Z) (j : json) (rest : bytes) :
  bits_double nan_bits = S754_nan ∧ 0 <= nan_bits < 2 ^ 64 → fit j → sizes_32 j →
  from_msgpack allow_exceptions strict (to_msgpack nan_bits j ++ rest) =
  if strict && bool_decide (rest ≠ []) then failed allow_exceptions 110
  else Ret (Some (msgpack_value j)).
Proof.
  intros Hnan Hf Hs. apply from_binary_reads, runs_fuel. intros fuel Hfuel.
  apply (reads_msgpack_all allow_exceptions nan_bits Hnan j fuel Hf Hs). unfold to_msgpack in Hfuel. lia.
Qed.

Definition msgpack_sample : json :=
  JObject [(bs "a", JArray [JInt 5; JInt (-70000); JUint 300; JNull; JBool true; JFloat S754_nan]);
           (bs "b", JFloat (S754_finite false 5404319552844595 (-53)));
           (bs "c", JBinary (bs "wxyz") (Some 200))].

Lemma msgpack_roundtrip_witness :
  from_msgpack true true (to_msgpack 0x7FF8000000000000 msgpack_sample ++ []) =
    Ret (Some (msgpack_value msgpack_sample)) ∧
  from_msgpack true true (to_msgpack 0x7FF8000000000000 msgpack_sample ++ bs "x") =
    Throw (json_exception 110).
Proof.
  assert (double_ok (S754_finite false 5404319552844595 (-53))) by by vm_compute.
  assert (fit msgpack_sample) as Hf
    by (repeat split; cbn; try lia; try done; by apply sample_in_order).
  assert (sizes_32 msgpack_sample) as Hs by (repeat split; cbn; lia).
  assert (bits_double 0x7FF8000000000000 = S754_nan ∧ 0 <= 0x7FF8000000000000 < 2 ^ 64) as Hn by done.
  split.
  - exact (msgpack_roundtrip true true _ msgpack_sample [] Hn Hf Hs).
  - exact (msgpack_roundtrip true true _ msgpack_sample (bs "x") Hn Hf Hs).
Defined.

(** [from_msgpack] ends on every input: with a value that has its numbers in range,
    its [double]s [double]s and its objects in key order, or with one of parse_error.110,
    112 and 113, as an exception or a discarded value.  No assertion fails, and the
    parser stays in step with the containers. *)
Theorem from_msgpack_total (allow_exceptions strict : bool) (s : bytes) :
  value_or_error allow_exceptions (from_msgpack allow_exceptions strict s).
Proof. apply from_binary_total, from_msgpack_ends. Qed.
