(* ===== verification/Bson.v ===== *)
(** * BSON (src/cppboot/base/internal/json/json.hpp)

    [write_bson], [parse_bson_internal] and what they call: [to_bson] and [from_bson].  The
    sizes in front of documents are computed before anything is written, and not looked at
    when a document is read.  The bits of a NaN are a parameter. *)

From S2P Require Import Prelude JsonValue JsonDump JsonParse Json JsonFloat JsonBinary.
Import Binary.

Module Bson.

(** [write_number(n, true)]: least significant byte first. *)
Definition write_number_le (size : nat) (n : Z) : bytes := le_bytes size n.

(** ** Sizes: [calc_bson_*] *)

Definition calc_bson_entry_header_size (name : bytes) : outcome Z :=
  if bool_decide (NUL ∈ name) then Throw (json_exception 409) else Ret (u64 (1 + len name + 1)).

Definition calc_bson_string_size (value : bytes) : Z := u64 (4 + len value + 1).
Definition calc_bson_binary_size (value : bytes) : Z := u64 (4 + len value + 1).
Definition calc_bson_integer_size (value : Z) : Z :=
  if (- 2 ^ 31 <=? value) && (value <=? 2 ^ 31 - 1) then 4 else 8.
Definition calc_bson_unsigned_size (value : Z) : Z := if value <=? 2 ^ 31 - 1 then 4 else 8.

Section sizes.
(** [calc_bson_element_size] itself, for what is inside *)
Context (element_size : bytes → json → outcome Z).

Definition calc_bson_array_size (value : list json) : outcome Z :=
  size ← (fix go (array_index result : Z) (l : list json) : outcome Z :=
            match l with
            | [] => Ret result
            | el :: l => n ← element_size (utoa array_index) el; go (u64 (array_index + 1)) (u64 (result + n)) l
            end) 0 0 value;
  Ret (u64 (u64 (4 + size) + 1)).

Definition calc_bson_object_size (value : list (bytes * json)) : outcome Z :=
  size ← (fix go (result : Z) (l : list (bytes * json)) : outcome Z :=
            match l with
            | [] => Ret result
            | (k, v) :: l => n ← element_size k v; go (u64 (result + n)) l
            end) 0 value;
  Ret (u64 (u64 (4 + size) + 1)).
End sizes.

Fixpoint calc_bson_element_size (name : bytes) (j : json) : outcome Z :=
  header_size ← calc_bson_entry_header_size name;
  match j with
  | JObject l => n ← calc_bson_object_size calc_bson_element_size l; Ret (u64 (header_size + n))
  | JArray l => n ← calc_bson_array_size calc_bson_element_size l; Ret (u64 (header_size + n))
  | JBinary s _ => Ret (u64 (header_size + calc_bson_binary_size s))
  | JBool _ => Ret (u64 (header_size + 1))
  | JFloat _ => Ret (u64 (header_size + 8))
  | JInt z => Ret (u64 (header_size + calc_bson_integer_size z))
  | JUint z => Ret (u64 (header_size + calc_bson_unsigned_size z))
  | JString s => Ret (u64 (header_size + calc_bson_string_size s))
  | JNull => Ret (u64 (header_size + 0))
  end.

(** ** [write_bson] *)

Section writer.
Context (nan_bits : Z).

(** With the NUL behind [name.c_str()]. *)
Definition write_bson_entry_header (name : bytes) (element_type : Z) : bytes :=
  char_of element_type :: name ++ [NUL].

Definition write_bson_boolean (name : bytes) (value : bool) : bytes :=
  write_bson_entry_header name 0x08 ++ [char_of (if value then 1 else 0)].
Definition write_bson_double (name : bytes) (value : spec_float) : bytes :=
  write_bson_entry_header name 0x01 ++ write_number_le 8 (double_bits nan_bits value).
Definition write_bson_string (name value : bytes) : bytes :=
  write_bson_entry_header name 0x02 ++ write_number_le 4 (u64 (len value + 1)) ++ value ++ [NUL].
Definition write_bson_null (name : bytes) : bytes := write_bson_entry_header name 0x0A.
Definition write_bson_integer (name : bytes) (value : Z) : bytes :=
  if (- 2 ^ 31 <=? value) && (value <=? 2 ^ 31 - 1)
  then write_bson_entry_header name 0x10 ++ write_number_le 4 value
  else write_bson_entry_header name 0x12 ++ write_number_le 8 value.
Definition write_bson_unsigned (name : bytes) (value : Z) : outcome bytes :=
  if value <=? 2 ^ 31 - 1 then Ret (write_bson_entry_header name 0x10 ++ write_number_le 4 value)
  else if value <=? 2 ^ 63 - 1 then Ret (write_bson_entry_header name 0x12 ++ write_number_le 8 value)
  else Throw (json_exception 407).
Definition write_bson_binary (name value : bytes) (subtype : option Z) : bytes :=
  write_bson_entry_header name 0x05 ++ write_number_le 4 (len value) ++
  write_number 1 (default 0 subtype) ++ value.

Section containers.
(** [write_bson_element] itself, for what is inside *)
Context (write_element : bytes → json → outcome bytes).

Definition write_bson_object (value : list (bytes * json)) : outcome bytes :=
  size ← calc_bson_object_size calc_bson_element_size value;
  body ← (fix go (l : list (bytes * json)) : outcome bytes :=
            match l with
            | [] => Ret []
            | (k, v) :: l => s ← write_element k v; rest ← go l; Ret (s ++ rest)
            end) value;
  Ret (write_number_le 4 size ++ body ++ [NUL]).

Definition write_bson_array (name : bytes) (value : list json) : outcome bytes :=
  size ← calc_bson_array_size calc_bson_element_size value;
  body ← (fix go (array_index : Z) (l : list json) : outcome bytes :=
            match l with
            | [] => Ret []
            | el :: l =>
                s ← write_element (utoa array_index) el;
                rest ← go (u64 (array_index + 1)) l; Ret (s ++ rest)
            end) 0 value;
  Ret (write_bson_entry_header name 0x04 ++ write_number_le 4 size ++ body ++ [NUL]).

Definition write_bson_object_entry (name : bytes) (value : list (bytes * json)) : outcome bytes :=
  s ← write_bson_object value; Ret (write_bson_entry_header name 0x03 ++ s).
End containers.

Fixpoint write_bson_element (name : bytes) (j : json) : outcome bytes :=
  match j with
  | JObject l => write_bson_object_entry write_bson_element name l
  | JArray l => write_bson_array write_bson_element name l
  | JBinary s subtype => Ret (write_bson_binary name s subtype)
  | JBool b => Ret (write_bson_boolean name b)
  | JFloat f => Ret (write_bson_double name f)
  | JInt z => Ret (write_bson_integer name z)
  | JUint z => write_bson_unsigned name z
  | JString s => Ret (write_bson_string name s)
  | JNull => Ret (write_bson_null name)
  end.

Definition write_bson (j : json) : outcome bytes :=
  match j with
  | JObject l => write_bson_object write_bson_element l
  | _ => Throw (json_exception 317)
  end.

Definition to_bson (j : json) : outcome bytes := write_bson j.
End writer.

(** ** [parse_bson_internal] *)

Section reader.
Context (allow_exceptions : bool).

(** [get_number<NumberType, true>] *)
Definition get_number_le (size : nat) : reading Z :=
  vec ← get_number_loop allow_exceptions size []; mret (le_value (reverse vec)).

Fixpoint get_bson_cstr_loop (fuel : nat) (result : bytes) : reading bytes :=
  match fuel with
  | O => λ _, OutOfFuel
  | S fuel =>
      c ← get; _ ← unexpect_eof allow_exceptions;
      if c =? 0 then mret result else get_bson_cstr_loop fuel (result ++ [char_of c])
  end.
Definition get_bson_cstr (result : bytes) : reading bytes :=
  with_fuel (λ fuel, get_bson_cstr_loop fuel result).

(** [return false] *)
Definition no_value {A} : reading A := λ r, Ret (None, r).

(** Where the input ends in front of the last NUL, no error is raised. *)
Definition get_bson_string (n : Z) : reading bytes :=
  if n <? 1 then parse_error allow_exceptions 112
  else
    s ← get_string allow_exceptions (n - 1) [];
    c ← get;
    if negb (c =? eof) then mret s else no_value.

(** The subtype stays 0 if it cannot be read. *)
Definition get_bson_binary (n : Z) : reading (bytes * option Z) :=
  if n <? 0 then parse_error allow_exceptions 112
  else
    subtype ← ignore (get_number_le 1);
    s ← get_binary allow_exceptions n [];
    mret (s, Some (default 0 subtype)).

Section step.
(** [parse_bson_internal], or for an array [parse_bson_array], one level down *)
Context (parse : bool → reading unit).

Definition parse_bson_element_internal (element_type : Z) : reading unit :=
  if element_type =? 0x01 then n ← get_number_le 8; sax_value (JFloat (bits_double n))
  else if element_type =? 0x02 then
    n ← get_number_le 4; s ← get_bson_string (signed 4 n); sax_value (JString s)
  else if element_type =? 0x03 then parse false
  else if element_type =? 0x04 then parse true
  else if element_type =? 0x05 then
    n ← get_number_le 4; b ← get_bson_binary (signed 4 n); sax_value (JBinary b.1 b.2)
  else if element_type =? 0x08 then c ← get; sax_value (JBool (negb (c =? 0)))
  else if element_type =? 0x0A then sax_value JNull
  else if element_type =? 0x10 then n ← get_number_le 4; sax_value (JInt (signed 4 n))
  else if element_type =? 0x12 then n ← get_number_le 8; sax_value (JInt (signed 8 n))
  else parse_error allow_exceptions 114.

Fixpoint bson_element_loop (fuel : nat) (is_array : bool) : reading unit :=
  match fuel with
  | O => λ _, OutOfFuel
  | S fuel =>
      element_type ← get;
      if element_type =? 0 then mret tt
      else
        _ ← unexpect_eof allow_exceptions;
        k ← get_bson_cstr [];
        _ ← (if is_array then mret tt else key k);
        _ ← parse_bson_element_internal element_type;
        bson_element_loop fuel is_array
  end.
Definition parse_bson_element_list (is_array : bool) : reading unit :=
  with_fuel (λ fuel, bson_element_loop fuel is_array).
End step.

(** [parse_bson_array] and [parse_bson_internal]; the size is not looked at. *)
Fixpoint parse_bson (fuel : nat) (is_array : bool) : reading unit :=
  match fuel with
  | O => λ _, OutOfFuel
  | S fuel =>
      _ ← ignore (get_number_le 4);
      if is_array
      then _ ← start_array npos; _ ← parse_bson_element_list (parse_bson fuel) true; end_array
      else _ ← start_object npos; _ ← parse_bson_element_list (parse_bson fuel) false; end_object
  end.

(** Every level reads a byte before the next. *)
Definition from_bson (strict : bool) (s : bytes) : outcome (option json) :=
  from_binary allow_exceptions (with_fuel (λ fuel, parse_bson fuel false)) strict s.
End reader.
End Bson.
Import Bson.

Example bson_sample_read :
  let j := JObject [(bs "a", JArray [JInt 5; JString (bs "xy"); JNull]); (bs "b", JBool true)] in
  (s ← to_bson 0 j; from_bson true true s) = Ret (Some j).
Proof. by vm_compute. Qed.

(** A text that ends in front of the NUL of a string: no value, and no exception. *)
Example bson_string_cut : from_bson true true (le_bytes 4 14 ++ [char_of 2] ++ bs "a" ++ [NUL] ++ le_bytes 4 3 ++ bs "xy") = Ret None.
Proof. by vm_compute. Qed.
