(* ===== verification/BusMsg.v ===== *)
(** * Bus messages (src/cppboot/adv/bus: msg.h, msg.cc, msg_packer.cc, context.h,
    context.cc)

    The message and its parameters, the JSON packer, the frame that
    [SendMessageToConnection] puts on a connection, and the parser a connection's
    context keeps across receives. *)

From S2P Require Import Prelude StdString StringView Status Buffer JsonValue JsonDump JsonParse Json.
Import Buffer.Buffer.

(** ** Messages (msg.h) *)

Definition kMsgMagic : Z := 0x20141021.

(** [std::map<std::string, std::string>] *)
Abbreviation string_map := (gmap bytes bytes).

(** [Params::set], [Params::get], [Params::has]: the empty key is nobody's. *)
Definition params_set (key value : bytes) (p : string_map) : string_map :=
  if bool_decide (key = []) then p else <[key := value]> p.
Definition params_get (key : bytes) (p : string_map) : bytes :=
  if bool_decide (key = []) then [] else default [] (p !! key).
Definition params_has (key : bytes) (p : string_map) : bool :=
  if bool_decide (key = []) then false else bool_decide (is_Some (p !! key)).

(** A connection is known by a number; [None] is the null pointer. *)
Abbreviation ConnPtr := (option nat).

Record Msg : Type := {
  src : ConnPtr;
  id_ : Z;                       (* MsgId, 32 bits *)
  is_request_ : bool;
  caller_ : bytes;
  method_ : bytes;
  method_provider_ : bytes;
  params_ : string_map;
}.

(** [Msg()] *)
Definition new_msg : Msg := Build_Msg None 0 true [] [] [] ∅.

Definition set_src (c : ConnPtr) (m : Msg) : Msg :=
  Build_Msg c (id_ m) (is_request_ m) (caller_ m) (method_ m) (method_provider_ m) (params_ m).
Definition set_id (n : Z) (m : Msg) : Msg :=
  Build_Msg (src m) n (is_request_ m) (caller_ m) (method_ m) (method_provider_ m) (params_ m).
Definition set_request (b : bool) (m : Msg) : Msg :=
  Build_Msg (src m) (id_ m) b (caller_ m) (method_ m) (method_provider_ m) (params_ m).
Definition set_caller (s : bytes) (m : Msg) : Msg :=
  Build_Msg (src m) (id_ m) (is_request_ m) s (method_ m) (method_provider_ m) (params_ m).
Definition set_method_provider (s : bytes) (m : Msg) : Msg :=
  Build_Msg (src m) (id_ m) (is_request_ m) (caller_ m) (method_ m) s (params_ m).
Definition set_param (key value : bytes) (m : Msg) : Msg :=
  Build_Msg (src m) (id_ m) (is_request_ m) (caller_ m) (method_ m) (method_provider_ m)
    (params_set key value (params_ m)).

(** [set_method]: what stands before the first slash is the provider. *)
Definition set_method (method : bytes) (m : Msg) : outcome Msg :=
  let pos := str_find_char method "/" 0 in
  if pos =? npos then
    Ret (Build_Msg (src m) (id_ m) (is_request_ m) (caller_ m) method (method_provider_ m) (params_ m))
  else
    provider ← str_substr method 0 pos;
    name ← str_substr method (pos + 1) npos;
    Ret (Build_Msg (src m) (id_ m) (is_request_ m) (caller_ m) name provider (params_ m)).

(** ** The packer (msg_packer.cc) *)

Section packer.
(** The characters of a [double], which no message has, and [what()] of an exception. *)
Context (dump_float : spec_float → bytes) (what : exn → bytes).

(** The loop over the parameters. *)
Fixpoint pack_params (l : list (bytes * bytes)) (param : json) : outcome json :=
  match l with
  | [] => Ret param
  | (k, v) :: l =>
      p ← json_set (bs "t") (JString k) JNull;
      p ← json_set (bs "v") (JString v) p;
      param ← push_back p param;
      pack_params l param
  end.

Definition Pack (m : Msg) : outcome bytes :=
  root ← json_set (bs "id") (JUint (id_ m)) JNull;
  root ← json_set (bs "method") (JString (method_ m)) root;
  root ← json_set (bs "is_req") (JBool (is_request_ m)) root;
  root ← json_set (bs "caller") (JString (caller_ m)) root;
  root ← json_set (bs "method_provider") (JString (method_provider_ m)) root;
  param ← pack_params (map_iter (params_ m)) JNull;
  root ← json_set (bs "param") param root;
  Serializer.json_dump dump_float (-1) root.

(** The body of the [try]: it works on the message as it goes. *)
Definition unpacking (A : Type) : Type := Msg → Msg * outcome A.

#[local] Instance unpacking_ret : MRet unpacking := λ A x m, (m, Ret x).
#[local] Instance unpacking_bind : MBind unpacking := λ A B f u m,
  match u m with
  | (m, Ret x) => f x m
  | (m, Throw e) => (m, Throw e)
  | (m, Crash) => (m, Crash)
  | (m, Undef) => (m, Undef)
  | (m, OutOfFuel) => (m, OutOfFuel)
  end.
Definition lift {A} (x : outcome A) : unpacking A := λ m, (m, x).
Definition update (f : Msg → Msg) : unpacking unit := λ m, (f m, Ret tt).

Fixpoint unpack_params (l : list json) : unpacking unit :=
  match l with
  | [] => mret tt
  | i :: l =>
      '(i, t) ← lift (json_index (bs "t") i);
      k ← lift (json_string t);
      '(_, v) ← lift (json_index (bs "v") i);
      v ← lift (json_string v);
      _ ← update (set_param k v);
      unpack_params l
  end.

Definition unpack_try (data : bytes) : unpacking unit :=
  root ← lift (Parser.json_parse data);
  '(root, j) ← lift (json_index (bs "id") root);
  id ← lift (json_uint32 j);
  _ ← update (set_id id);
  '(root, j) ← lift (json_index (bs "method") root);
  method ← lift (json_string j);
  _ ← (λ m, match set_method method m with Ret m' => (m', Ret tt) | _ => (m, Undef) end);
  '(root, j) ← lift (json_index (bs "is_req") root);
  b ← lift (json_bool j);
  _ ← update (set_request b);
  '(root, j) ← lift (json_index (bs "caller") root);
  caller ← lift (json_string j);
  _ ← update (set_caller caller);
  '(root, j) ← lift (json_index (bs "method_provider") root);
  provider ← lift (json_string j);
  _ ← update (set_method_provider provider);
  '(_, param) ← lift (json_index (bs "param") root);
  unpack_params (json_items param).

(** [catch (std::exception& e)] takes every exception there is here. *)
Definition Unpack (data : bytes) (m : Msg) : outcome (Status * Msg) :=
  match unpack_try data m with
  | (m, Ret _) => Ret (OkStatus, m)
  | (m, Throw e) => Ret (InvalidArgumentError (what e), m)
  | (_, Crash) => Crash
  | (_, Undef) => Undef
  | (_, OutOfFuel) => OutOfFuel
  end.

(** ** Frames (msg.cc) *)

(** The bytes [SendMessageToConnection] hands to the connection. *)
Definition SendMessageToConnection (m : Msg) : outcome bytes :=
  _ ← make kInitialSize;
  body ← Pack m;
  let hdr := le32 kMsgMagic ++ le32 (u32 (u32 (len body) + 1)) in
  tmp ← make (u64 (len hdr + len body + 1));
  tmp ← Append hdr tmp;
  tmp ← Append (body ++ [NUL]) tmp;
  read_at 0 (ReadableBytes tmp) (Peek tmp).

(** ** The context of a connection (context.h, context.cc) *)

Inductive ParseState : Set := kHeader | kBody.
Inductive ParseResult : Set := kContinue | kBad | kGood.

Record BusContext : Type := {
  ctx_name : bytes;
  ctx_state : ParseState;
  header_ : option (Z * Z);      (* magic and length; not initialised at first *)
}.

(** [BusContext()] *)
Definition new_context : BusContext := Build_BusContext [] kHeader None.

Definition set_name (name : bytes) (c : BusContext) : BusContext :=
  Build_BusContext name (ctx_state c) (header_ c).

(** [memcpy(&header_, buf->Peek(), sizeof(header_))] *)
Definition read_header (buf : buffer) : outcome (Z * Z) :=
  magic ← le32_get (Peek buf);
  length ← le32_get (drop 4 (Peek buf));
  Ret (magic, length).

(** The second half, in the state [kBody]. *)
Definition Parse_body (c : BusContext) (buf : buffer) (m : Msg) :
    outcome (ParseResult * BusContext * buffer * Msg) :=
  '(magic, length) ← or_undef (header_ c);
  if ReadableBytes buf <? length then Ret (kContinue, c, buf, m)
  else
    body ← read_at 0 length (Peek buf);
    let buf := Retrive length buf in
    let c := Build_BusContext (ctx_name c) kHeader (header_ c) in
    '(st, m) ← Unpack body m;
    Ret (if status_ok st then kGood else kBad, c, buf, m).

Definition Parse (c : BusContext) (buf : buffer) (m : Msg) :
    outcome (ParseResult * BusContext * buffer * Msg) :=
  match ctx_state c with
  | kHeader =>
      if ReadableBytes buf <? 8 then Ret (kContinue, c, buf, m)
      else
        header ← read_header buf;
        let buf := Retrive 8 buf in
        let c := Build_BusContext (ctx_name c) kBody (Some header) in
        if negb (header.1 =? kMsgMagic) then Ret (kBad, c, buf, m)
        else Parse_body c buf m
  | kBody => Parse_body c buf m
  end.

End packer.

(** * Lemmas *)

(** What is left of a method name behind its first slash. *)
Definition after_slash (s : bytes) : bytes :=
  let pos := str_find_char s "/" 0 in if pos =? npos then s else drop (Z.to_nat pos + 1) s.
Definition before_slash (s : bytes) : option bytes :=
  let pos := str_find_char s "/" 0 in if pos =? npos then None else Some (take (Z.to_nat pos) s).

Definition with_method (name provider : bytes) (m : Msg) : Msg :=
  Build_Msg (src m) (id_ m) (is_request_ m) (caller_ m) name provider (params_ m).

Lemma find_slash s :
  len s < npos →
  str_find_char s "/" 0 = npos ∧ "/"%char ∉ s ∨
  ∃ a b, s = a ++ "/"%char :: b ∧ ("/"%char ∉ a) ∧ str_find_char s "/" 0 = len a ∧ len a <> npos.
Proof.
  intros Hs. unfold str_find_char.
  destruct (split_first (is_char "/") s) as [Hn|(a & c & b & -> & Ha & Hc)].
  - left. split; [by apply str_find_if_miss0|]. intros Hin. rewrite Forall_forall in Hn.
    apply Hn in Hin. by apply not_true_iff_false in Hin; destruct Hin; apply is_char_true.
  - right. apply is_char_true in Hc as ->. exists a, b. split_and!; [done| |by apply str_find_if_hit0|].
    + intros Hin. rewrite Forall_forall in Ha. apply Ha in Hin.
      by apply not_true_iff_false in Hin; destruct Hin; apply is_char_true.
    + rewrite len_app in Hs. lia.
Qed.

Lemma set_method_spec s m :
  len s < npos →
  set_method s m = Ret (with_method (after_slash s) (default (method_provider_ m) (before_slash s)) m).
Proof.
  intros Hs. unfold set_method, after_slash, before_slash.
  destruct (find_slash s Hs) as [[-> _]|(a & b & -> & _ & -> & Hne)]; [done|].
  rewrite (proj2 (Z.eqb_neq _ _)) by done. rewrite len_app, len_cons in Hs.
  unfold str_substr. rewrite len_app, len_cons. rewrite !(proj2 (Z.ltb_ge _ _)) by lia.
  cbn [mbind outcome_bind default]. rewrite slice_app_l, Nat2Z.id, take_app_length.
  replace (a ++ "/"%char :: b) with ((a ++ ["/"%char]) ++ b) by (by rewrite <-app_assoc).
  replace (len a + 1) with (len (a ++ ["/"%char])) by (rewrite len_app; done).
  replace (length a + 1)%nat with (length (a ++ ["/"%char])) by (rewrite length_app; done).
  by rewrite slice_app_r, drop_app_length by lia.
Qed.

(** ** What the packer writes *)

Definition param_json (kv : bytes * bytes) : json :=
  JObject [(bs "t", JString kv.1); (bs "v", JString kv.2)].

Definition params_json (l : list (bytes * bytes)) : json :=
  match l with [] => JNull | _ => JArray (param_json <$> l) end.

Definition msg_json (m : Msg) : json :=
  JObject [(bs "caller", JString (caller_ m)); (bs "id", JUint (id_ m));
           (bs "is_req", JBool (is_request_ m)); (bs "method", JString (method_ m));
           (bs "method_provider", JString (method_provider_ m));
           (bs "param", params_json (map_iter (params_ m)))].

Section packer_lemmas.
Context (dump_float : spec_float → bytes) (what : exn → bytes).

Lemma pack_params_array l acc :
  pack_params l (JArray acc) = Ret (JArray (acc ++ (param_json <$> l))).
Proof.
  revert acc. induction l as [|[k v] l IH]; intros acc; cbn [pack_params].
  { by rewrite fmap_nil, app_nil_r. }
  change (pack_params l (JArray (acc ++ [param_json (k, v)])) =
    Ret (JArray (acc ++ (param_json <$> (k, v) :: l)))).
  by rewrite IH, <-app_assoc.
Qed.

Lemma pack_params_json l : pack_params l JNull = Ret (params_json l).
Proof.
  destruct l as [|[k v] l]; [done|].
  change (pack_params l (JArray [param_json (k, v)]) = Ret (params_json ((k, v) :: l))).
  by rewrite pack_params_array.
Qed.

Lemma Pack_json m : Pack dump_float m = Serializer.json_dump dump_float (-1) (msg_json m).
Proof. unfold Pack. rewrite pack_params_json. reflexivity. Qed.

(** ** Sendable messages *)

(** A message whose strings are UTF-8. *)
Definition msg_utf8 (m : Msg) : bool :=
  utf8_ok (caller_ m) && utf8_ok (method_ m) && utf8_ok (method_provider_ m) &&
  forallb (λ kv, utf8_ok kv.1 && utf8_ok kv.2) (map_iter (params_ m)).

(** A message the program can build: a 32-bit id, no parameter without a name. *)
Record msg_wf (m : Msg) : Prop := {
  wf_id : 0 <= id_ m < 2 ^ 32;
  wf_params : params_ m !! [] = None;
}.

Lemma params_json_wf l : json_wf (params_json l).
Proof.
  destruct l as [|kv l]; [done|]. cbn [params_json json_wf].
  apply (foldr_and_Forall json_wf), Forall_fmap, Forall_forall. intros x _. cbn.
  split; [|done]. repeat constructor.
Qed.

Lemma params_json_utf8 l :
  json_utf8 (params_json l) = forallb (λ kv, utf8_ok kv.1 && utf8_ok kv.2) l.
Proof.
  assert (forallb json_utf8 (param_json <$> l) = forallb (λ kv, utf8_ok kv.1 && utf8_ok kv.2) l) as H.
  { induction l as [|kv l IH]; [done|]. rewrite fmap_cons. cbn [forallb]. rewrite IH. f_equal.
    cbn [param_json json_utf8 forallb fst snd]. by rewrite andb_true_r. }
  destruct l; [done|exact H].
Qed.

Lemma params_json_plain l : json_plain (params_json l) = true.
Proof.
  destruct l as [|kv l]; [done|]. cbn [params_json]; unfold json_plain; cbn [plain_with]. apply forallb_forall.
  intros x Hx%list_elem_of_In%list_elem_of_fmap. by destruct Hx as (y & -> & _).
Qed.

Lemma msg_json_wf m : msg_wf m → json_wf (msg_json m).
Proof.
  intros [Hid _]. split; [repeat constructor|].
  apply (foldr_and_Forall (λ kv, json_wf kv.2)).
  repeat constructor; cbn [snd json_wf]; try done; [lia..|apply params_json_wf].
Qed.

Lemma msg_json_utf8 m : json_utf8 (msg_json m) = msg_utf8 m.
Proof.
  unfold msg_utf8. rewrite <-params_json_utf8.
  change (json_utf8 (msg_json m)) with (utf8_ok (caller_ m) && (utf8_ok (method_ m) &&
    (utf8_ok (method_provider_ m) && (json_utf8 (params_json (map_iter (params_ m))) && true)))).
  by rewrite andb_true_r, !andb_assoc.
Qed.

Lemma msg_json_plain m : json_plain (msg_json m) = true.
Proof.
  change (json_plain (msg_json m)) with (json_plain (params_json (map_iter (params_ m))) && true).
  by rewrite params_json_plain.
Qed.

(** [Pack] on every message: the text, or the exception of [dump] let through. *)
Lemma Pack_spec m : msg_wf m →
  if msg_utf8 m then
    ∃ body, Pack dump_float m = Ret body ∧ Parser.json_parse (body ++ [NUL]) = Ret (msg_json m)
  else Pack dump_float m = Throw (type_error 316).
Proof.
  intros Hm. rewrite Pack_json. pose proof (msg_json_wf m Hm) as Hwf.
  assert (indent_fits (-1) (msg_json m)) as Hi.
  { split; [done|]. pose proof (depth_nonneg (msg_json m)). lia. }
  pose proof (json_dump_text dump_float (-1) _ Hwf Hi) as Hd. rewrite msg_json_utf8 in Hd.
  destruct (msg_utf8 m); [|done]. eexists. split; [exact Hd|].
  by eapply json_dump_parse; [done|apply msg_json_plain|done|].
Qed.

(** ** What the packer reads *)

Lemma json_index_present k v l :
  member_get k l = Some v → json_index k (JObject l) = Ret (JObject l, v).
Proof. intros H. unfold json_index, member_emplace. by rewrite H, H. Qed.

Lemma unpack_params_spec l m :
  unpack_params (param_json <$> l) m =
  (foldl (λ m kv, set_param kv.1 kv.2 m) m l, Ret tt).
Proof. revert m. induction l as [|[k v] l IH]; intros m; [done|]. apply IH. Qed.

Lemma set_params_params l m :
  [] ∉ l.*1 → foldl (λ m kv, set_param kv.1 kv.2 m) m l =
  Build_Msg (src m) (id_ m) (is_request_ m) (caller_ m) (method_ m) (method_provider_ m)
    (insert_all l (params_ m)).
Proof.
  revert m. induction l as [|[k v] l IH]; intros m; cbn; [by destruct m|].
  intros [Hk Hl]%not_elem_of_cons. rewrite IH by done. unfold set_param, params_set. cbn.
  by rewrite bool_decide_false by done.
Qed.

Lemma params_items l : json_items (params_json l) = param_json <$> l.
Proof. by destruct l. Qed.

(** The message as it arrives: the name of the method is cut at its slash. *)
Definition received (m : Msg) : Msg :=
  Build_Msg None (id_ m) (is_request_ m) (caller_ m) (after_slash (method_ m))
    (method_provider_ m) (params_ m).

Lemma Unpack_received data m :
  msg_wf m → len (method_ m) < npos → Parser.json_parse data = Ret (msg_json m) →
  Unpack what data new_msg = Ret (OkStatus, received m).
Proof.
  intros [Hid Hp] Hlen Hj. unfold Unpack, unpack_try. rewrite Hj.
  assert (json_uint32 (JUint (id_ m)) = Ret (id_ m)) as Hid'.
  { unfold json_uint32, json_arith. by rewrite u32_small. }
  assert (∀ m0, set_method (method_ m) m0 =
    Ret (with_method (after_slash (method_ m)) (default (method_provider_ m0) (before_slash (method_ m))) m0))
    as Hsm by (intros; by apply set_method_spec).
  unfold msg_json. set (pj := params_json _).
  cbv beta iota delta [mbind unpacking_bind lift].
  rewrite (json_index_present (bs "id") (JUint (id_ m))) by reflexivity. rewrite Hid'.
  cbv beta iota delta [update].
  rewrite (json_index_present (bs "method") (JString (method_ m))) by reflexivity.
  cbn [json_string]. rewrite Hsm.
  rewrite (json_index_present (bs "is_req") (JBool (is_request_ m))) by reflexivity.
  cbn [json_bool].
  rewrite (json_index_present (bs "caller") (JString (caller_ m))) by reflexivity.
  rewrite (json_index_present (bs "method_provider") (JString (method_provider_ m))) by reflexivity.
  rewrite (json_index_present (bs "param") pj) by reflexivity. cbn [json_string].
  unfold pj. rewrite params_items, unpack_params_spec, set_params_params.
  2: { intros Hin. apply list_elem_of_fmap in Hin as ([k v] & Heq & Hin). cbn in Heq. subst k.
       apply elem_of_map_iter in Hin. by rewrite Hp in Hin. }
  cbn. by rewrite insert_all_map_iter_empty.
Qed.

End packer_lemmas.

(** ** Frames *)

Lemma peek_content n b :
  inv b → 0 <= n <= len (content b) → read_at 0 n (Peek b) = Ret (take (Z.to_nat n) (content b)).
Proof.
  intros H Hn. rewrite len_content, readable_eq in Hn by done. open_inv H.
  unfold read_at, Peek. rewrite len_drop. rewrite !(proj2 (Z.leb_le _ _)) by lia.
  cbn [andb]. rewrite drop_0. unfold content. rewrite take_take. do 2 f_equal. lia.
Qed.

Lemma peek_prefix b : inv b → ∃ k, Peek b = content b ++ k.
Proof.
  intros H. open_inv H. unfold Peek, content. eexists. by rewrite take_drop.
Qed.

Lemma drop_peek n b : inv b → (n <= length (content b))%nat → ∃ k, drop n (Peek b) = drop n (content b) ++ k.
Proof.
  intros H Hn. destruct (peek_prefix b H) as [k ->]. exists k. by rewrite drop_app_le.
Qed.

Definition header (n : Z) : bytes := le32 kMsgMagic ++ le32 n.

Definition bus_frame (body : bytes) : bytes := header (len body + 1) ++ body ++ [NUL].

Lemma len_frame body : len (bus_frame body) = len body + 9.
Proof. unfold bus_frame, header. rewrite !len_app. cbn. lia. Qed.

Section frames.
Context (dump_float : spec_float → bytes) (what : exn → bytes).

Lemma Send_frame m body :
  Pack dump_float m = Ret body → len body < 2 ^ 32 - 1 →
  SendMessageToConnection dump_float m = Ret (bus_frame body).
Proof.
  intros HP Hlen. unfold SendMessageToConnection.
  destruct (inv_make kInitialSize ltac:(done) ltac:(done)) as (b0 & -> & _).
  cbn [mbind outcome_bind]. rewrite HP. cbn [mbind outcome_bind].
  rewrite (u32_small (len body)), u32_small by lia. fold (header (len body + 1)).
  change (len (header (len body + 1))) with 8. rewrite u64_small by lia.
  destruct (inv_make (8 + len body + 1)) as (b1 & -> & Hi1 & Hc1 & Hw1 & _);
    [lia|unfold vector_max; lia|]. cbn [mbind outcome_bind].
  destruct (Append_spec (header (len body + 1)) b1 Hi1) as (b2 & -> & Hi2 & Hc2 & Hw2).
  { right. change (len (header (len body + 1))) with 8. unfold vector_max. lia. }
  cbn [mbind outcome_bind]. change (len (header (len body + 1))) with 8 in Hw2.
  destruct (Append_spec (body ++ [NUL]) b2 Hi2) as (b3 & -> & Hi3 & Hc3 & _).
  { right. rewrite len_app. cbn. unfold vector_max. lia. }
  cbn [mbind outcome_bind]. rewrite <-len_content, peek_content by (done || lia).
  rewrite Nat2Z.id, firstn_all, Hc3, Hc2, Hc1. done.
Qed.

(** Where a frame is in the context and the buffer, [q] of its bytes received. *)
Definition holds (c : BusContext) (b : buffer) (n : Z) (q : bytes) : Prop :=
  inv b ∧
  match ctx_state c with
  | kHeader => content b = q
  | kBody => header_ c = Some (kMsgMagic, n) ∧ q = header n ++ content b
  end.

Lemma read_header_ok n b rest :
  inv b → 0 <= n < 2 ^ 32 → content b = header n ++ rest → read_header b = Ret (kMsgMagic, n).
Proof.
  intros H Hn Hc. unfold read_header.
  destruct (peek_prefix b H) as [k ->]. rewrite Hc. unfold header. rewrite <-!app_assoc.
  rewrite le32_get_le32. cbn [mbind outcome_bind].
  change (drop 4 (le32 kMsgMagic ++ le32 n ++ rest ++ k)) with (le32 n ++ rest ++ k).
  rewrite le32_get_le32. cbn [mbind outcome_bind]. by rewrite !u32_small by done.
Qed.

Lemma Parse_body_more c b n m :
  inv b → header_ c = Some (kMsgMagic, n) → len (content b) < n →
  Parse_body what c b m = Ret (kContinue, c, b, m).
Proof.
  intros H Hh Hn. unfold Parse_body. rewrite Hh. cbn [or_undef mbind outcome_bind].
  rewrite <-len_content by done. by rewrite (proj2 (Z.ltb_lt _ _)).
Qed.

(** The context once a frame was taken. *)
Definition past (n : Z) (c : BusContext) : BusContext :=
  Build_BusContext (ctx_name c) kHeader (Some (kMsgMagic, n)).

Lemma Parse_body_done c b n m m' data rest :
  inv b → header_ c = Some (kMsgMagic, n) → content b = data ++ rest → len data = n →
  Unpack what data m = Ret (OkStatus, m') →
  ∃ b', Parse_body what c b m = Ret (kGood, past n c, b', m') ∧
    inv b' ∧ content b' = rest ∧ writer_ b' <= writer_ b ∧ (rest = [] → writer_ b' = 8).
Proof.
  intros H Hh Hc <- HU. unfold Parse_body. rewrite Hh. cbn [or_undef mbind outcome_bind].
  assert (len (content b) = len data + len rest) as Hl by (rewrite Hc, len_app; lia).
  rewrite <-len_content by done. rewrite (proj2 (Z.ltb_ge _ _)) by lia.
  rewrite peek_content by (done || lia). cbn [mbind outcome_bind].
  rewrite Hc, Nat2Z.id, take_app_length, HU. cbn [mbind outcome_bind].
  destruct (Retrive_spec (len data) b H ltac:(lia)) as (Hi' & Hc' & Hw').
  eexists. split; [done|].
  split_and!; [done|by rewrite Hc', Hc, Nat2Z.id, drop_app_length|done|].
  intros ->. unfold Retrive. rewrite <-len_content, Hl by done. change (len []) with 0.
  by rewrite (proj2 (Z.ltb_ge _ _)) by lia.
Qed.

(** Less than the frame: [Parse] waits. *)
Lemma Parse_more c b n q m data rest :
  holds c b n q → 0 <= n < 2 ^ 32 → q ++ rest = header n ++ data → len q < 8 + n →
  ∃ c' b', Parse what c b m = Ret (kContinue, c', b', m) ∧ holds c' b' n q ∧
    ctx_name c' = ctx_name c ∧ writer_ b' <= writer_ b.
Proof.
  intros [Hi Hst] Hn Hq Hl. unfold Parse. destruct (ctx_state c) eqn:Es.
  - rewrite <-len_content, Hst by done. destruct (len q <? 8) eqn:E; bool_hyps.
    { exists c, b. split; [done|]. split; [|split; [done|lia]]. split; [done|]. by rewrite Es. }
    assert (∃ q', q = header n ++ q') as [q' ->].
    { exists (drop 8 q). rewrite <-(take_drop 8 q) at 1. f_equal.
      pose proof (f_equal (take 8) Hq) as Ht. rewrite take_app_le in Ht by lia. by rewrite Ht. }
    rewrite (read_header_ok n b q') by done. cbn [mbind outcome_bind fst].
    rewrite Z.eqb_refl. cbn [negb].
    destruct (Retrive_spec 8 b Hi ltac:(lia)) as (Hi' & Hc' & Hw').
    rewrite Hst in Hc'. change (drop (Z.to_nat 8) (header n ++ q')) with q' in Hc'.
    rewrite len_app in Hl. change (len (header n)) with 8 in Hl.
    rewrite Parse_body_more with (n := n); [|done|done|rewrite Hc'; lia].
    eexists _, _. split; [done|]. split; [|done]. split; [done|]. cbn. by rewrite Hc'.
  - destruct Hst as [Hh Hq']. rewrite Hq', len_app in Hl. change (len (header n)) with 8 in Hl.
    rewrite Parse_body_more with (n := n) by (done || lia).
    exists c, b. split; [done|]. split; [|split; [done|lia]]. split; [done|]. by rewrite Es.
Qed.

(** The frame and whatever follows it: [Parse] takes the frame. *)
Lemma Parse_frame c b n m m' data rest :
  holds c b n (header n ++ data ++ rest) → 0 <= n < 2 ^ 32 → len data = n →
  Unpack what data m = Ret (OkStatus, m') →
  ∃ b', Parse what c b m = Ret (kGood, past n c, b', m') ∧
    inv b' ∧ content b' = rest ∧ writer_ b' <= writer_ b ∧ (rest = [] → writer_ b' = 8).
Proof.
  intros [Hi Hst] Hn Hd HU. unfold Parse. destruct (ctx_state c) eqn:Es.
  - rewrite <-len_content, Hst by done. rewrite !len_app. change (len (header n)) with 8.
    rewrite (proj2 (Z.ltb_ge _ _)) by lia.
    rewrite (read_header_ok n b (data ++ rest)) by done. cbn [mbind outcome_bind fst].
    rewrite Z.eqb_refl. cbn [negb].
    destruct (Retrive_spec 8 b Hi ltac:(lia)) as (Hi' & Hc' & Hw').
    rewrite Hst in Hc'. change (drop (Z.to_nat 8) (header n ++ data ++ rest)) with (data ++ rest) in Hc'.
    destruct (Parse_body_done (Build_BusContext (ctx_name c) kBody (Some (kMsgMagic, n)))
      (Retrive 8 b) n m m' data rest) as (b' & -> & H1 & H2 & H3 & H4); try done.
    exists b'. split_and!; [done..|lia|done].
  - destruct Hst as [Hh Hq]. apply app_inv_head in Hq. by eapply Parse_body_done.
Qed.

(** ** A connection's receives *)

(** Each piece that arrives is appended to the buffer, and [Parse] is called once
    with a new message; receiving stops at the first message or error. *)
Fixpoint receive (c : BusContext) (b : buffer) (pieces : list bytes) :
    outcome (ParseResult * BusContext * buffer * Msg) :=
  match pieces with
  | [] => Ret (kContinue, c, b, new_msg)
  | piece :: pieces =>
      b ← Append piece b;
      '(r, c, b, m) ← Parse what c b new_msg;
      match r with kContinue => receive c b pieces | _ => Ret (r, c, b, m) end
  end.

Lemma receive_frame n data m' rest pieces : ∀ c b q,
  0 <= n < 2 ^ 32 → len data = n → Unpack what data new_msg = Ret (OkStatus, m') →
  holds c b n q → len q < 8 + n →
  q ++ concat pieces = header n ++ data ++ rest →
  (∀ k, (k < length pieces)%nat → len (q ++ concat (take k pieces)) < 8 + n) →
  writer_ b + len (concat pieces) <= vector_max →
  ∃ c' b', receive c b pieces = Ret (kGood, c', b', m') ∧ ctx_state c' = kHeader ∧
    inv b' ∧ content b' = rest.
Proof.
  induction pieces as [|piece pieces IH]; intros c b q Hn Hd HU Hh Hq Heq Hpre Hroom.
  { change (concat []) with (@nil ascii) in Heq. rewrite app_nil_r in Heq. subst q. rewrite !len_app in Hq.
    change (len (header n)) with 8 in Hq. lia. }
  cbn [receive concat] in *. rewrite len_app in Hroom. destruct Hh as [Hi Hst].
  destruct (Append_spec piece b Hi ltac:(right; lia)) as (b1 & -> & Hi1 & Hc1 & Hw1).
  cbn [mbind outcome_bind].
  assert (holds c b1 n (q ++ piece)) as Hh1.
  { split; [done|]. destruct (ctx_state c); [by rewrite Hc1, Hst|].
    destruct Hst as [Hhd ->]. split; [done|]. by rewrite Hc1, app_assoc. }
  rewrite app_assoc in Heq.
  destruct (Z.lt_ge_cases (len (q ++ piece)) (8 + n)) as [Hlt|Hge].
  - destruct (Parse_more c b1 n (q ++ piece) new_msg _ _ Hh1 Hn Heq Hlt) as (c2 & b2 & -> & Hh2 & _ & Hw2).
    cbn [mbind outcome_bind]. apply (IH c2 b2 (q ++ piece)); try done; [|lia].
    intros k Hk. specialize (Hpre (S k) ltac:(cbn; lia)). cbn [take firstn concat] in Hpre.
    by rewrite <-app_assoc.
  - destruct pieces as [|p pieces].
    2: { specialize (Hpre 1%nat ltac:(cbn; lia)). cbn [take firstn concat] in Hpre.
         rewrite app_nil_r in Hpre. lia. }
    change (concat []) with (@nil ascii) in Heq. rewrite app_nil_r in Heq. rewrite Heq in Hh1.
    destruct (Parse_frame c b1 n new_msg m' data rest Hh1 Hn Hd HU) as (b' & -> & Hi' & Hc' & _).
    cbn [mbind outcome_bind]. by eexists _, b'.
Qed.

(** Pieces short of the frame: they are all waited for. *)
Lemma receive_waits n data rest pieces : ∀ c b q,
  0 <= n < 2 ^ 32 → holds c b n q → q ++ concat pieces ++ rest = header n ++ data →
  len (q ++ concat pieces) < 8 + n → writer_ b + len (concat pieces) <= vector_max →
  ∃ c' b', receive c b pieces = Ret (kContinue, c', b', new_msg) ∧
    holds c' b' n (q ++ concat pieces) ∧ ctx_name c' = ctx_name c ∧
    writer_ b' <= writer_ b + len (concat pieces).
Proof.
  induction pieces as [|piece pieces IH]; intros c b q Hn Hh Heq Hl Hroom.
  { exists c, b. change (concat []) with (@nil ascii) in *. rewrite app_nil_r.
    split_and!; [done..|cbn; lia]. }
  cbn [receive concat] in *. rewrite !len_app in Hl. rewrite len_app in Hroom.
  destruct Hh as [Hi Hst].
  destruct (Append_spec piece b Hi ltac:(right; lia)) as (b1 & -> & Hi1 & Hc1 & Hw1).
  cbn [mbind outcome_bind].
  assert (holds c b1 n (q ++ piece)) as Hh1.
  { split; [done|]. destruct (ctx_state c); [by rewrite Hc1, Hst|].
    destruct Hst as [Hhd ->]. split; [done|]. by rewrite Hc1, app_assoc. }
  rewrite <-app_assoc, app_assoc in Heq.
  destruct (Parse_more c b1 n (q ++ piece) new_msg _ _ Hh1 Hn Heq) as (c2 & b2 & -> & Hh2 & Hnm & Hw2).
  { rewrite len_app. lia. }
  cbn [mbind outcome_bind].
  destruct (IH c2 b2 (q ++ piece) Hn Hh2 Heq) as (c' & b' & Hr & Hh' & Hnm' & Hw').
  { rewrite !len_app. lia. }
  { lia. }
  exists c', b'. rewrite <-app_assoc in Hh'. split_and!; [done|done|congruence|rewrite len_app; lia].
Qed.

(** A frame arrives in these pieces, the last one ends it. *)
Definition cut (f : bytes) (pieces : list bytes) (last : bytes) : Prop :=
  concat pieces ++ last = f ∧ len (concat pieces) < len f.

(** A connection between two frames. *)
Record idle (c : BusContext) (b : buffer) : Prop := {
  idle_state : ctx_state c = kHeader;
  idle_inv : inv b;
  idle_content : content b = [];
  idle_writer : writer_ b <= 2 ^ 62;
}.

Lemma delivered c b m body pieces last :
  idle c b → msg_wf m → len (method_ m) < npos → len body < 2 ^ 32 - 1 →
  Parser.json_parse (body ++ [NUL]) = Ret (msg_json m) → cut (bus_frame body) pieces last →
  ∃ c1 b1 b2 b3, receive c b pieces = Ret (kContinue, c1, b1, new_msg) ∧
    Append last b1 = Ret b2 ∧
    Parse what c1 b2 new_msg = Ret (kGood, past (len body + 1) c, b3, received m) ∧
    idle (past (len body + 1) c) b3.
Proof.
  intros [Hs Hi Hc Hw] Hm Hlen Hb Hj [Hcat Hpre].
  pose proof (Zle_0_nat (length body)) as H0. pose proof (len_frame body) as Hf.
  assert (len (bus_frame body) = len (concat pieces) + len last) as Hsum by (rewrite <-Hcat, len_app; lia).
  destruct (receive_waits (len body + 1) (body ++ [NUL]) last pieces c b []) as
    (c1 & b1 & Hr & [Hi1 Hh1] & Hnm & Hw1).
  - lia.
  - split; [done|]. by rewrite Hs.
  - exact Hcat.
  - rewrite app_nil_l. lia.
  - unfold vector_max. lia.
  - destruct (Append_spec last b1 Hi1) as (b2 & Ha & Hi2 & Hc2 & Hw2).
    { right. unfold vector_max. lia. }
    rewrite app_nil_l in Hh1.
    destruct (Parse_frame c1 b2 (len body + 1) new_msg (received m) (body ++ [NUL]) []) as
      (b3 & Hp & Hi3 & Hc3 & _ & Hw3).
    + split; [done|]. rewrite app_nil_r. change (header (len body + 1) ++ body ++ [NUL]) with (bus_frame body).
      rewrite <-Hcat, Hc2. destruct (ctx_state c1); [by rewrite Hh1|].
      destruct Hh1 as [Hh ->]. by rewrite app_assoc.
    + lia.
    + by rewrite len_app.
    + by apply Unpack_received.
    + exists c1, b1, b2, b3. split_and!; [done|done| |].
      * rewrite Hp. unfold past. by rewrite Hnm.
      * split; [done|done|done|rewrite Hw3; [lia|done]].
Qed.

End frames.

(** ** Whatever arrives *)

Section outcomes.
Context (dump_float : spec_float → bytes) (what : exn → bytes).

(** A computation of the [try] block that returns or throws. *)
Definition returns_or_throws {A} (x : outcome A) : Prop :=
  match x with Ret _ | Throw _ => True | _ => False end.
Definition tries {A} (u : unpacking A) : Prop := ∀ m, returns_or_throws (u m).2.

Lemma tries_bind {A B} (u : unpacking A) (f : A → unpacking B) :
  tries u → (∀ x, tries (f x)) → tries (unpacking_bind A B f u).
Proof.
  intros Hu Hf m. specialize (Hu m). unfold unpacking_bind.
  destruct (u m) as [m' []]; try done. apply Hf.
Qed.
Lemma tries_lift {A} (x : outcome A) : returns_or_throws x → tries (lift x).
Proof. by intros H m. Qed.
Lemma tries_update f : tries (update f).
Proof. by intros m. Qed.
Lemma index_tries k j : returns_or_throws (json_index k j).
Proof. by destruct j. Qed.
Lemma string_tries j : returns_or_throws (json_string j).
Proof. by destruct j. Qed.
Lemma bool_tries j : returns_or_throws (json_bool j).
Proof. by destruct j. Qed.
Lemma set_method_total s m : ∃ m', set_method s m = Ret m'.
Proof.
  unfold set_method, str_find_char.
  destruct (split_first (is_char "/") s) as [Hn|(a & c & b & -> & Ha & Hc)].
  - rewrite str_find_if_miss0 by done. by eexists.
  - rewrite str_find_if_hit0 by done. destruct (len a =? npos); [by eexists|].
    unfold str_substr. rewrite len_app, len_cons. rewrite !(proj2 (Z.ltb_ge _ _)) by lia.
    by eexists.
Qed.
Lemma set_method_tries s :
  tries (λ m, match set_method s m with Ret m' => (m', Ret tt) | _ => (m, Undef) end).
Proof. intros m. by destruct (set_method_total s m) as [m' ->]. Qed.

Ltac tries_step :=
  match goal with
  | |- tries (unpacking_bind _ _ _ _) => apply tries_bind; [|intros ?]
  | |- tries (match ?x with (_, _) => _ end) => destruct x
  | |- tries (lift _) => apply tries_lift
  | |- _ => first [apply index_tries | apply string_tries | apply bool_tries
                  | apply tries_update | apply set_method_tries]
  end.

Lemma unpack_params_tries l : tries (unpack_params l).
Proof.
  induction l as [|i l IH]; [by intros m|]. cbn [unpack_params]. unfold mbind.
  repeat tries_step. done.
Qed.

(** A [double] under "id" that no 32-bit number is near: its conversion is
    undefined. *)
Definition wild_id (data : bytes) : Prop :=
  ∃ l f, Parser.json_parse data = Ret (JObject l) ∧ member_get (bs "id") l = Some (JFloat f) ∧
         json_uint32 (JFloat f) = Undef.

Lemma uint32_cases j :
  returns_or_throws (json_uint32 j) ∨ json_uint32 j = Undef ∧ ∃ f, j = JFloat f.
Proof.
  destruct j as [| | | |f| | | |]; try by left.
  unfold json_uint32, json_arith, float_to. repeat case_match; [by left|right; eauto..].
Qed.

Lemma bind_lift {A B} (x : outcome A) (f : A → unpacking B) m v :
  x = Ret v → unpacking_bind A B f (lift x) m = f v m.
Proof. by intros ->. Qed.
Lemma bind_lift_undef {A B} (x : outcome A) (f : A → unpacking B) m :
  x = Undef → unpacking_bind A B f (lift x) m = (m, Undef).
Proof. by intros ->. Qed.

(** The start of [unpack_try], up to the id; [k] is the rest. *)
Lemma unpack_start_cases {A} data (k : json → Z → unpacking A) m :
  (∀ root id, tries (k root id)) →
  let x := unpacking_bind _ _ (λ root, unpacking_bind _ _ (λ '(root, j),
    unpacking_bind _ _ (k root) (lift (json_uint32 j))) (lift (json_index (bs "id") root)))
    (lift (Parser.json_parse data)) m in
  returns_or_throws x.2 ∨ x.2 = Undef ∧ wild_id data.
Proof.
  intros Hk x. subst x. destruct (json_parse_outcome data) as [(root & Hr & Hwf)|[-> | ->]]; [|by left..].
  erewrite bind_lift by done. pose proof (index_tries (bs "id") root) as Hi'.
  destruct (json_index (bs "id") root) as [[root' j]| | | |] eqn:Hi; try done; [|by left].
  erewrite bind_lift by done. cbv beta iota.
  destruct (uint32_cases j) as [Hj|[Hj (f & ->)]].
  { left. destruct (json_uint32 j) as [id| | | |]; try done. apply Hk. }
  right. rewrite bind_lift_undef by done. split; [done|].
  destruct root as [| | | | | | | |l]; try done.
  assert (default JNull (member_get (bs "id") (member_emplace (bs "id") JNull l)) = JFloat f) as Hg
    by (unfold json_index in Hi; congruence).
  unfold member_emplace in Hg. destruct (member_get (bs "id") l) as [v|] eqn:Hl.
  - rewrite Hl in Hg. cbn in Hg. subst v. by exists l, f.
  - by rewrite member_get_set in Hg.
Qed.

Lemma unpack_try_cases data m :
  returns_or_throws (unpack_try data m).2 ∨ (unpack_try data m).2 = Undef ∧ wild_id data.
Proof.
  apply (unpack_start_cases data _ m). intros root id. unfold mbind.
  repeat tries_step. apply unpack_params_tries.
Qed.

Lemma Unpack_cases data m :
  (∃ st m', Unpack what data m = Ret (st, m')) ∨ Unpack what data m = Undef ∧ wild_id data.
Proof.
  unfold Unpack. destruct (unpack_try_cases data m) as [H|[H Hw]];
    destruct (unpack_try data m) as [m' []]; cbn in H; try done; eauto.
Qed.

(** ** Any bytes in a context *)

(** In the state [kBody] there is a header. *)
Definition ctx_ok (c : BusContext) : Prop :=
  match ctx_state c, header_ c with
  | kHeader, _ => True
  | kBody, None => False
  | kBody, Some (_, n) => 0 <= n
  end.

Lemma read_header_any b : inv b → 8 <= len (content b) →
  ∃ magic n, read_header b = Ret (magic, n) ∧ 0 <= n.
Proof.
  intros Hi H8. destruct (peek_prefix b Hi) as [k Hk]. unfold read_header. rewrite Hk.
  destruct (content b) as [|c0 [|c1 [|c2 [|c3 [|c4 [|c5 [|c6 [|c7 l]]]]]]]]; try (cbn in H8; lia).
  eexists _, _. split; [reflexivity|].
  pose proof (uchar_range c4). pose proof (uchar_range c5).
  pose proof (uchar_range c6). pose proof (uchar_range c7). lia.
Qed.

(** What [Parse] leaves, by its result. *)
Definition parse_post (c : BusContext) (b : buffer) (m : Msg)
    (r : ParseResult) (c' : BusContext) (b' : buffer) (m' : Msg) : Prop :=
  inv b' ∧ ctx_ok c' ∧ (∃ n, content b' = drop n (content b)) ∧ writer_ b' <= writer_ b ∧
  match r with
  | kContinue =>
      m' = m ∧
      (ctx_state c' = kHeader ∧ c' = c ∧ b' = b ∧ len (content b) < 8 ∨
       ctx_state c' = kBody ∧ ∃ magic n, header_ c' = Some (magic, n) ∧ len (content b') < n)
  | kBad =>
      ctx_state c' = kHeader ∨
      ctx_state c = kHeader ∧ ctx_state c' = kBody ∧ m' = m ∧
      content b' = drop 8 (content b) ∧
      ∃ magic n, header_ c' = Some (magic, n) ∧ magic ≠ kMsgMagic
  | kGood => ctx_state c' = kHeader
  end.

Definition parse_ends (c : BusContext) (b : buffer) (m : Msg)
    (x : outcome (ParseResult * BusContext * buffer * Msg)) : Prop :=
  (∃ r c' b' m', x = Ret (r, c', b', m') ∧ parse_post c b m r c' b' m') ∨
  x = Undef ∧ ∃ k n, wild_id (take n (drop k (content b))).

Lemma Parse_body_ends c b m magic n :
  inv b → header_ c = Some (magic, n) → 0 <= n → ctx_state c = kBody →
  parse_ends c b m (Parse_body what c b m).
Proof.
  intros Hi Hh Hn Hs. unfold Parse_body. rewrite Hh. cbn [or_undef mbind outcome_bind].
  rewrite <-len_content by done. destruct (len (content b) <? n) eqn:E; bool_hyps.
  { left. eexists _, _, _, _. split; [done|]. split; [done|].
    split; [unfold ctx_ok; by rewrite Hs, Hh|]. split; [by exists 0%nat|]. split; [lia|].
    split; [done|right]. split; [done|]. by eexists _, _. }
  rewrite peek_content by (done || lia). cbn [mbind outcome_bind].
  destruct (Retrive_spec n b Hi Hn) as (Hi' & Hc' & Hw').
  destruct (Unpack_cases (take (Z.to_nat n) (content b)) m) as [(st & m' & ->)|[-> Hw]];
    cbn [mbind outcome_bind].
  - left. eexists _, _, _, _. split; [done|].
    split; [done|]. split; [done|]. split; [by eexists|]. split; [done|]. destruct (status_ok st); [done|by left].
  - right. split; [done|]. exists 0%nat, (Z.to_nat n). done.
Qed.

Lemma Parse_ends c b m : inv b → ctx_ok c → parse_ends c b m (Parse what c b m).
Proof.
  intros Hi Hok. unfold Parse. unfold ctx_ok in Hok. destruct (ctx_state c) eqn:Es.
  2: { destruct (header_ c) as [[magic n]|] eqn:Hh; [|done]. by eapply Parse_body_ends. }
  rewrite <-len_content by done. destruct (len (content b) <? 8) eqn:E; bool_hyps.
  { left. eexists _, _, _, _. split; [done|]. split; [done|].
    split; [unfold ctx_ok; by rewrite Es|]. split; [by exists 0%nat|].
    split; [lia|]. split; [done|left]. by rewrite Es. }
  destruct (read_header_any b Hi E) as (magic & n & -> & Hn). cbn [mbind outcome_bind fst].
  destruct (Retrive_spec 8 b Hi ltac:(lia)) as (Hi' & Hc' & Hw').
  destruct (magic =? kMsgMagic) eqn:Em; bool_hyps; cbn [negb].
  2: { left. eexists _, _, _, _. split; [done|].
       split; [done|]. split; [done|]. split; [by eexists|].
       split; [done|]. right. split_and!; [done..|]. by eexists _, _. }
  destruct (Parse_body_ends (Build_BusContext (ctx_name c) kBody (Some (magic, n))) (Retrive 8 b) m
    magic n Hi' eq_refl Hn eq_refl) as [(r & c' & b' & m' & -> & Hp)|[-> (k & j & Hw)]].
  - left. eexists _, _, _, _. split; [done|]. destruct Hp as (Hb & Hc & [k Hk] & Hw2 & Hr).
    split; [done|]. split; [done|]. split.
    + exists (8 + k)%nat. by rewrite Hk, Hc', drop_drop.
    + split; [lia|]. destruct r; [|by destruct Hr as [Hr|[Hr _]]; [left|]|done].
      destruct Hr as (-> & [(Hb' & -> & _)|Hr]); [done|]. split; [done|by right].
  - right. split; [done|]. exists (8 + k)%nat, j. by rewrite Hc', drop_drop in Hw.
Qed.

(** The server's receives: it calls [Parse] once for each piece, whatever the last
    result was. *)
Fixpoint receives (c : BusContext) (b : buffer) (pieces : list bytes) :
    outcome (list ParseResult * BusContext * buffer) :=
  match pieces with
  | [] => Ret ([], c, b)
  | piece :: pieces =>
      b ← Append piece b;
      '(r, c, b, _) ← Parse what c b new_msg;
      '(rs, c, b) ← receives c b pieces;
      Ret (r :: rs, c, b)
  end.

Lemma wild_app k n l l' :
  wild_id (take n (drop k l)) → ∃ k n, wild_id (take n (drop k (l ++ l'))).
Proof.
  intros Hw. destruct (decide (k <= length l)%nat) as [Hk|Hk].
  - exists k, (n `min` length (drop k l))%nat. rewrite drop_app_le, take_app_le by lia.
    destruct (decide (n <= length (drop k l))%nat); [by rewrite Nat.min_l by lia|].
    rewrite Nat.min_r by lia. rewrite firstn_all. by rewrite take_ge in Hw by lia.
  - exists k, 0%nat. by rewrite drop_ge, take_nil in Hw by lia.
Qed.

Lemma receives_ends pieces : ∀ c b, inv b → ctx_ok c →
  writer_ b + len (concat pieces) <= vector_max →
  (∃ rs c' b', receives c b pieces = Ret (rs, c', b') ∧ inv b' ∧ ctx_ok c' ∧
    (∃ n, content b' = drop n (content b ++ concat pieces)) ∧
    writer_ b' <= writer_ b + len (concat pieces)) ∨
  ∃ k n, wild_id (take n (drop k (content b ++ concat pieces))).
Proof.
  induction pieces as [|piece pieces IH]; intros c b Hi Hok Hroom; cbn [concat] in *.
  { left. eexists _, _, _. split; [done|]. split_and!; [done..|exists 0%nat|cbn; lia].
    by rewrite app_nil_r. }
  rewrite len_app in *. cbn [receives].
  destruct (Append_spec piece b Hi ltac:(right; lia)) as (b1 & -> & Hi1 & Hc1 & Hw1).
  cbn [mbind outcome_bind]. rewrite app_assoc, <-Hc1.
  destruct (Parse_ends c b1 new_msg Hi1 Hok) as
    [(r & c2 & b2 & m2 & -> & Hi2 & Hok2 & [j Hj] & Hw2 & _)|[_ (k & n & Hw)]].
  2: { right. by eapply wild_app. }
  cbn [mbind outcome_bind].
  assert (∃ j', content b2 ++ concat pieces = drop j' (content b1 ++ concat pieces)) as [j' Hj'].
  { exists (j `min` length (content b1))%nat. rewrite drop_app_le by lia. f_equal. rewrite Hj.
    destruct (decide (j <= length (content b1))%nat); [f_equal; lia|rewrite !drop_ge by lia; done]. }
  destruct (IH c2 b2 Hi2 Hok2 ltac:(lia)) as
    [(rs & c3 & b3 & -> & Hi3 & Hok3 & [n Hn] & Hw3)|(k & n & Hw)]; [left|right].
  - eexists _, _, _. split; [done|]. split_and!; [done..| |lia].
    exists (j' + n)%nat. by rewrite Hn, Hj', drop_drop.
  - exists (j' + k)%nat, n. by rewrite Hj', drop_drop in Hw.
Qed.

End outcomes.

(** * Properties *)

(** C15: a message sent is the message received.  For a message the program can
    build, [SendMessageToConnection] throws type_error.316 if one of its strings
    is not UTF-8; otherwise (if its text is shorter than a 32-bit length can say)
    it sends a frame such that, however the frame and what follows it are cut
    into pieces on the way, the parser of a new connection waits for every piece
    but the one the frame ends in and then gives the message, the provider cut
    from its method, with the bytes behind the frame left in the buffer and the
    context back at a header. *)
Theorem bus_frame_received (dump_float : spec_float → bytes) (what : exn → bytes)
    (m : Msg) (rest : bytes) (pieces : list bytes) (last : bytes) :
  msg_wf m → len (method_ m) < npos →
  if msg_utf8 m then
    ∃ body, Pack dump_float m = Ret body ∧
    (len body < 2 ^ 32 - 1 →
     SendMessageToConnection dump_float m = Ret (bus_frame body) ∧
     (concat pieces ++ last = bus_frame body ++ rest → len (concat pieces) < len (bus_frame body) →
      len (bus_frame body ++ rest) + 8 <= vector_max →
      ∃ b c' b', make kInitialSize = Ret b ∧
        receive what new_context b (pieces ++ [last]) = Ret (kGood, c', b', received m) ∧
        ctx_state c' = kHeader ∧ content b' = rest))
  else SendMessageToConnection dump_float m = Throw (type_error 316).
Proof.
  intros Hm Hlen. pose proof (Pack_spec dump_float m Hm) as HP.
  destruct (inv_make kInitialSize ltac:(done) ltac:(done)) as (b & Hb & Hi & Hc & Hw & _).
  destruct (msg_utf8 m).
  2: { unfold SendMessageToConnection. rewrite Hb. cbn [mbind outcome_bind]. by rewrite HP. }
  destruct HP as (body & HP & Hj). exists body. split; [done|]. intros Hs.
  split; [by apply Send_frame|]. intros Hcat Hpre Hroom. exists b.
  assert (concat (pieces ++ [last]) = bus_frame body ++ rest) as Hall.
  { rewrite concat_app. cbn [concat]. by rewrite app_nil_r. }
  destruct (receive_frame what (len body + 1) (body ++ [NUL]) (received m) rest (pieces ++ [last])
    new_context b []) as (c' & b' & Hr & Hc' & Hi' & Hrest); try done.
  - pose proof (Zle_0_nat (length body)). lia.
  - by rewrite len_app.
  - by apply Unpack_received.
  - change (len []) with 0. lia.
  - intros k Hk. rewrite length_app in Hk. cbn in Hk. rewrite take_app_le, (app_nil_l (concat _)) by lia.
    rewrite len_frame in Hpre. enough (len (concat (take k pieces)) <= len (concat pieces)) by lia.
    rewrite <-(take_drop k pieces) at 2. rewrite concat_app, len_app. lia.
  - rewrite Hall. lia.
  - exists c', b'. done.
Qed.

(** A request of a client named [ann] for the method [add] of [bob]. *)
Definition sample_msg : Msg :=
  Build_Msg None 7 true (bs "ann") (bs "add") (bs "bob") {[bs "x" := bs "1"]}.

Definition sample_body : bytes := 
  match Pack (λ _, []) sample_msg with Ret body => body | _ => [] end.

Lemma bus_frame_received_witness :
  SendMessageToConnection (λ _, []) sample_msg = Ret (bus_frame sample_body) ∧
  ∃ b c' b', make kInitialSize = Ret b ∧
    receive (λ _, []) new_context b ([take 5 (bus_frame sample_body)] ++ [drop 5 (bus_frame sample_body) ++ bs "!"]) =
      Ret (kGood, c', b', received sample_msg) ∧
    ctx_state c' = kHeader ∧ content b' = bs "!".
Proof.
  assert (msg_wf sample_msg) as Hm by (split; [cbn; lia | reflexivity]).
  pose proof (bus_frame_received (λ _, []) (λ _, []) sample_msg (bs "!") [take 5 (bus_frame sample_body)]
    (drop 5 (bus_frame sample_body) ++ bs "!") Hm eq_refl) as H.
  assert (msg_utf8 sample_msg = true) as Hu by (vm_compute; reflexivity).
  rewrite Hu in H. destruct H as (body & HP & H).
  assert (body = sample_body) as -> by (unfold sample_body; by rewrite HP).
  destruct H as [Hs H]; [by vm_compute|]. split; [exact Hs|]. apply H; by vm_compute.
Defined.

(** C32: no bytes break the parser.  Whatever pieces arrive on a new connection,
    and whatever [Parse] answers to them, no call reads outside the buffer,
    throws or fails an assertion: every piece has its result, and what is left in
    the buffer is the end of what came.  The last call shows what each one does: it
    waits in [kHeader] for 8 bytes or in [kBody] for the length; a message takes
    it to [kHeader]; after a magic number that is not the bus's the context is
    left in [kBody], where the next call takes the rejected header's length of
    bytes for a body.  The one exception is a body whose id is a [double] that no
    32-bit number is near: its conversion is undefined. *)
Theorem bus_parse_any (what : exn → bytes) (pieces : list bytes) (last : bytes) :
  len (concat pieces ++ last) + 8 <= vector_max →
  (∃ b0 rs c b b1 r c' b' m',
     make kInitialSize = Ret b0 ∧ receives what new_context b0 pieces = Ret (rs, c, b) ∧
     (∃ n, content b = drop n (concat pieces)) ∧
     Append last b = Ret b1 ∧ content b1 = content b ++ last ∧
     Parse what c b1 new_msg = Ret (r, c', b', m') ∧ parse_post c b1 new_msg r c' b' m') ∨
  ∃ k n, wild_id (take n (drop k (concat pieces ++ last))).
Proof.
  intros Hroom. rewrite len_app in Hroom.
  destruct (inv_make kInitialSize ltac:(done) ltac:(done)) as (b0 & Hb & Hi & Hc & Hw & _).
  destruct (receives_ends what pieces new_context b0 Hi I) as
    [(rs & c & b & Hr & Hi1 & Hok & [j Hj] & Hw1)|(k & n & Hk)]; [lia| |].
  - rewrite Hc in Hj. cbn [app] in Hj.
    destruct (Append_spec last b Hi1 ltac:(right; lia)) as (b1 & Ha & Hi2 & Hc2 & Hw2).
    destruct (Parse_ends what c b1 new_msg Hi2 Hok) as
      [(r & c' & b' & m' & Hp & Hpost)|[_ (k & n & Hk)]]; [left|right].
    + exists b0, rs, c, b, b1, r, c', b', m'. split_and!; [done..|by exists j|done|done|done|done].
    + rewrite Hc2, Hj in Hk. exists (j `min` length (concat pieces) + k)%nat, n.
      rewrite <-drop_drop, drop_app_le by lia.
      destruct (decide (j <= length (concat pieces))%nat); [by rewrite Nat.min_l|].
      rewrite Nat.min_r, (drop_ge (concat pieces)) by lia. by rewrite (drop_ge (concat pieces)) in Hk by lia.
  - right. rewrite Hc, app_nil_l in Hk. by eapply wild_app.
Qed.

Lemma bus_parse_any_witness :
  (∃ b0 rs c b b1 r c' b' m',
     make kInitialSize = Ret b0 ∧
     receives (λ _, []) new_context b0 [bs "GET / HTTP"] = Ret (rs, c, b) ∧
     (∃ n, content b = drop n (concat [bs "GET / HTTP"])) ∧
     Append (bs "/1.1") b = Ret b1 ∧ content b1 = content b ++ bs "/1.1" ∧
     Parse (λ _, []) c b1 new_msg = Ret (r, c', b', m') ∧
     parse_post c b1 new_msg r c' b' m') ∨
  ∃ k n, wild_id (take n (drop k (concat [bs "GET / HTTP"] ++ bs "/1.1"))).
Proof. apply (bus_parse_any (λ _, []) [bs "GET / HTTP"] (bs "/1.1")). done. Defined.
