(* ===== verification/Bus.v ===== *)
(** * The bus (src/cppboot/adv/bus: method.h, service, router, invoker, server,
    client)

    Clients call each other's methods through a server.  A call is a message with a
    fresh id, kept with the [Result] that waits for its answer; the server looks
    up the provider of a request and the caller of a response in its router.

    [Result]s are objects that others point to: they live in a store, and a pointer
    whose [Result] was destroyed is not in it any more. *)

From S2P Require Import Prelude StdString StringView Status Buffer JsonValue BusMsg.
Import Buffer.Buffer.

(** ** Methods and results (method.h) *)

Record In : Type := { in_conn : ConnPtr; values : string_map }.
Abbreviation Out := In.

Definition new_in : In := {| in_conn := None; values := ∅ |}.
Definition In_get (key : bytes) (i : In) : bytes := default [] (values i !! key).
Definition In_set (key value : bytes) (i : In) : In :=
  {| in_conn := in_conn i; values := <[key := value]> (values i) |}.

Record Result : Type := { ok_ : bool; out_ : Out }.

Definition new_result : Result := {| ok_ := false; out_ := new_in |}.
Definition WeakUp (r : Result) : Result := {| ok_ := true; out_ := out_ r |}.
Definition result_set (key value : bytes) (r : Result) : Result :=
  {| ok_ := ok_ r; out_ := In_set key value (out_ r) |}.
Definition result_get (key : bytes) (r : Result) : bytes := In_get key (out_ r).

(** The live [Result]s, by their address. *)
Abbreviation results := (gmap nat Result).

(** ** The router (router.h, router.cc) *)

Abbreviation BusRouter := (gmap bytes ConnPtr).

Definition router_Add (name : bytes) (conn : ConnPtr) (r : BusRouter) : BusRouter :=
  <[name := conn]> r.
Definition router_Remove (name : bytes) (r : BusRouter) : BusRouter := delete name r.
Definition router_Find (name : bytes) (r : BusRouter) : ConnPtr := default None (r !! name).

(** The loops [for (auto i : in.params()) msg->set_param(i.first, i.second)] and
    [for (auto i : msg.params()) in.set(i.first, i.second)]. *)
Definition set_params (l : list (bytes * bytes)) (m : Msg) : Msg :=
  foldl (λ m kv, set_param kv.1 kv.2 m) m l.
Definition in_sets (l : list (bytes * bytes)) (i : In) : In :=
  foldl (λ i kv, In_set kv.1 kv.2 i) i l.

(** ** Services (service.h, service.cc) *)

Section service.
(** What the methods of a service work on. *)
Context {S : Type}.

Definition MethodFunc : Type := In → Out → S → outcome (S * Out).

Record BusService : Type := { service_name : bytes; methods_ : gmap bytes MethodFunc }.

Definition new_service (name : bytes) : BusService :=
  {| service_name := name; methods_ := ∅ |}.

Definition service_AddMethod (name : bytes) (func : MethodFunc) (v : BusService) :
    BusService * bool :=
  match methods_ v !! name with
  | None => ({| service_name := service_name v; methods_ := <[name := func]> (methods_ v) |}, true)
  | Some _ => (v, false)
  end.

Definition ServeMsg (v : BusService) (req resp : Msg) (s : S) : outcome (S * Msg) :=
  '(s, resp) ←
    match methods_ v !! method_ req with
    | Some func =>
        let i := in_sets (map_iter (params_ req)) {| in_conn := src req; values := ∅ |} in
        '(s, out) ← func i new_in s;
        Ret (s, set_params (map_iter (values out)) resp)
    | None => Ret (s, set_param (bs "return") (bs "not found") resp)
    end;
  Ret (s, set_request false (set_caller (caller_ req) (set_id (id_ req) resp))).

End service.
Arguments MethodFunc : clear implicits.
Arguments BusService : clear implicits.

(** ** The invoker (invoker.h, invoker.cc) *)

Record BusInvoker : Type := {
  name_ : bytes;
  next_id_ : Z;
  waitings_ : gmap Z nat;      (* to the address of the [Result] *)
}.

Definition new_invoker (name : bytes) : BusInvoker :=
  {| name_ := name; next_id_ := 1; waitings_ := ∅ |}.

Definition NextMsgId (v : BusInvoker) : Z * BusInvoker :=
  (next_id_ v, {| name_ := name_ v; next_id_ := u32 (next_id_ v + 1); waitings_ := waitings_ v |}).

Definition wait_for (id : Z) (r : nat) (v : BusInvoker) : BusInvoker :=
  {| name_ := name_ v; next_id_ := next_id_ v; waitings_ := <[id := r]> (waitings_ v) |}.
Definition forget (id : Z) (v : BusInvoker) : BusInvoker :=
  {| name_ := name_ v; next_id_ := next_id_ v; waitings_ := delete id (waitings_ v) |}.

Section invoker.
(** [msg_writer_], and what it gives to the connection. *)
Context {W : Type} (msg_writer_ : Msg → outcome W).

(** The message of a call, with its id. *)
Definition call_msg (v : BusInvoker) (method : bytes) (i : In) : BusInvoker * outcome Msg :=
  let '(id, v) := NextMsgId v in
  (v, m ← set_method method (set_request true (set_caller (name_ v) (set_id id new_msg)));
      Ret (set_params (map_iter (values i)) m)).

(** The call waits before it is written, and goes on waiting if the writer throws. *)
Definition ACall (v : BusInvoker) (method : bytes) (i : In) (result : option nat) :
    BusInvoker * outcome (Status * option W) :=
  match result with
  | None => (v, Ret (InvalidArgumentError (bs "no result param"), None))
  | Some r =>
      let '(v, msg) := call_msg v method i in
      match msg with
      | Ret m => (wait_for (id_ m) r v, w ← msg_writer_ m; Ret (OkStatus, Some w))
      | Throw e => (v, Throw e)
      | Crash => (v, Crash)
      | Undef => (v, Undef)
      | OutOfFuel => (v, OutOfFuel)
      end
  end.
End invoker.

(** The response is copied to the [Result] that waits for it, through the pointer. *)
Definition HandleResponseMessage (v : BusInvoker) (rs : results) (msg : Msg) :
    outcome (BusInvoker * results) :=
  match waitings_ v !! id_ msg with
  | None => Ret (v, rs)
  | Some p =>
      let v := forget (id_ msg) v in
      r ← or_undef (rs !! p);
      let r := foldl (λ r kv, result_set kv.1 kv.2 r) r (map_iter (params_ msg)) in
      Ret (v, <[p := WeakUp r]> rs)
  end.

(** ** Connections

    What a connection is asked to do. *)
Inductive action : Type :=
  | Send (conn : ConnPtr) (data : bytes)
  | Stop (conn : ConnPtr).

Inductive ConnState : Set := kDisconnected | kConnected.

Section endpoints.
(** See the packer. *)
Context (dump_float : spec_float → bytes) (what : exn → bytes).

Definition send_to (conn : ConnPtr) (m : Msg) : outcome action :=
  data ← SendMessageToConnection dump_float m;
  Ret (Send conn data).

(** ** The server (server.h, server.cc) *)

(** [contexts] holds what [context()] of each connection points to. *)
Record BusServer : Type := {
  local_service_ : BusService BusRouter;
  router_ : BusRouter;
  contexts : gmap nat BusContext;
}.

Definition set_router (r : BusRouter) (s : BusServer) : BusServer :=
  {| local_service_ := local_service_ s; router_ := r; contexts := contexts s |}.
Definition set_context (c : nat) (ctx : BusContext) (s : BusServer) : BusServer :=
  {| local_service_ := local_service_ s; router_ := router_ s; contexts := <[c := ctx]> (contexts s) |}.

Definition HandleRegisterMethod : MethodFunc BusRouter := λ i out router,
  let name := In_get (bs "ServiceName") i in
  Ret (router_Add name (in_conn i) router, out).

Definition new_bus_server (name : bytes) : BusServer :=
  {| local_service_ :=
       (service_AddMethod (bs "RegisterService") HandleRegisterMethod (new_service name)).1;
     router_ := ∅; contexts := ∅ |}.

Definition HandleConnection (state : ConnState) (conn : nat) (s : BusServer) : BusServer :=
  match state with
  | kConnected => set_context conn new_context s
  | kDisconnected =>
      match contexts s !! conn with
      | Some ctx => set_router (router_Remove (ctx_name ctx) (router_ s)) s
      | None => s
      end
  end.

Definition server_HandleRequestMessage (req : Msg) (s : BusServer) :
    outcome (BusServer * list action) :=
  let provider := method_provider_ req in
  if bool_decide (provider = []) || bool_decide (provider = bs "SvcMgr") then
    '(router, resp) ← ServeMsg (local_service_ s) req new_msg (router_ s);
    a ← send_to (src req) resp;
    Ret (set_router router s, [a])
  else
    match router_Find provider (router_ s) with
    | Some c => a ← send_to (Some c) req; Ret (s, [a])
    | None => Ret (s, [])
    end.

Definition server_HandleResponseMessage (msg : Msg) (s : BusServer) :
    outcome (BusServer * list action) :=
  match router_Find (caller_ msg) (router_ s) with
  | Some c => a ← send_to (Some c) msg; Ret (s, [a])
  | None => Ret (s, [])
  end.

Definition server_HandleMessage (msg : Msg) (s : BusServer) : outcome (BusServer * list action) :=
  if is_request_ msg then server_HandleRequestMessage msg s
  else server_HandleResponseMessage msg s.

(** [Stop()] of the server does nothing. *)
Definition OnReceive (conn : nat) (buf : buffer) (s : BusServer) :
    outcome (BusServer * buffer * list action) :=
  ctx ← or_undef (contexts s !! conn);
  '(ret, ctx, buf, msg) ← Parse what ctx buf new_msg;
  let s := set_context conn ctx s in
  match ret with
  | kBad => Ret (s, buf, [])
  | kGood =>
      '(s, acts) ← server_HandleMessage (set_src (Some conn) msg) s;
      Ret (s, buf, acts)
  | kContinue => Ret (s, buf, [])
  end.

(** The reads of a connection: each is appended to its input buffer and handed to
    the callback. *)
Fixpoint server_receives (conn : nat) (buf : buffer) (pieces : list bytes) (s : BusServer) :
    outcome (BusServer * buffer * list action) :=
  match pieces with
  | [] => Ret (s, buf, [])
  | piece :: pieces =>
      buf ← Append piece buf;
      '(s, buf, acts) ← OnReceive conn buf s;
      '(s, buf, acts') ← server_receives conn buf pieces s;
      Ret (s, buf, acts ++ acts')
  end.

(** ** The client (client.h, client.cc)

    [S] is what the methods of the client work on, [heap] holds the [Result]s, those
    on the stacks of its threads included. *)

Section client.
Context {S : Type}.

Record BusClient : Type := {
  service_ : BusService S;
  invoker_ : BusInvoker;
  transport_ : nat;
  transport_context : BusContext;
  heap : results;
}.

Definition new_client (name : bytes) (transport : nat) : BusClient :=
  {| service_ := new_service name; invoker_ := new_invoker name;
     transport_ := transport; transport_context := new_context; heap := ∅ |}.

Definition set_service (v : BusService S) (c : BusClient) : BusClient :=
  {| service_ := v; invoker_ := invoker_ c; transport_ := transport_ c;
     transport_context := transport_context c; heap := heap c |}.
Definition set_invoker (v : BusInvoker) (rs : results) (c : BusClient) : BusClient :=
  {| service_ := service_ c; invoker_ := v; transport_ := transport_ c;
     transport_context := transport_context c; heap := rs |}.
Definition set_transport_context (ctx : BusContext) (c : BusClient) : BusClient :=
  {| service_ := service_ c; invoker_ := invoker_ c; transport_ := transport_ c;
     transport_context := ctx; heap := heap c |}.

Definition client_ACall (method : bytes) (i : In) (result : option nat) (c : BusClient) :
    BusClient * outcome (Status * option action) :=
  let '(v, x) := ACall (send_to (Some (transport_ c))) (invoker_ c) method i result in
  (set_invoker v (heap c) c, x).

(** [Call] up to its wait: the [Result] is on the stack, at a new address. *)
Definition Call_enter (method : bytes) (i : In) (c : BusClient) :
    BusClient * nat * outcome (Status * option action) :=
  let r := fresh (dom (heap c)) in
  let '(c, x) := client_ACall method i (Some r)
    (set_invoker (invoker_ c) (<[r := new_result]> (heap c)) c) in
  (c, r, x).

(** ... and from its wait, which ends when the [Result] is ready, to its end, which
    destroys the [Result]; [None] while it waits. *)
Definition destroy (r : nat) (c : BusClient) : BusClient :=
  set_invoker (invoker_ c) (delete r (heap c)) c.

Definition Call_leave (r : nat) (c : BusClient) : option (Out * BusClient) :=
  res ← heap c !! r;
  if ok_ res then Some (out_ res, destroy r c) else None.

(** [Call] with a null [out] does not wait. *)
Definition Call_null (method : bytes) (i : In) (c : BusClient) :
    BusClient * outcome (Status * option action) :=
  let '(c, r, x) := Call_enter method i c in (destroy r c, x).

Definition ReportMyServiceToServer (c : BusClient) : BusClient * outcome (Status * option action) :=
  Call_null (bs "RegisterService")
    (In_set (bs "ServiceName") (service_name (service_ c)) new_in) c.

Definition Start (c : BusClient) : BusClient * outcome (Status * option action) :=
  ReportMyServiceToServer c.

Definition client_AddMethod (name : bytes) (func : MethodFunc S) (c : BusClient) :
    BusClient * outcome (Status * option action) :=
  let '(v, added) := service_AddMethod name func (service_ c) in
  if negb added then (c, Ret (AlreadyExistsError name, None))
  else
    Call_null (bs "SvcMgr/AddMethod") (In_set (bs "MethodName") name new_in) (set_service v c).

Definition client_HandleRequestMessage (msg : Msg) (c : BusClient) (s : S) :
    outcome (BusClient * S * list action) :=
  '(s, resp) ← ServeMsg (service_ c) msg new_msg s;
  a ← send_to (Some (transport_ c)) resp;
  Ret (c, s, [a]).

Definition client_HandleMessage (msg : Msg) (c : BusClient) (s : S) :
    outcome (BusClient * S * list action) :=
  if is_request_ msg then client_HandleRequestMessage msg c s
  else
    '(v, rs) ← HandleResponseMessage (invoker_ c) (heap c) msg;
    Ret (set_invoker v rs c, s, []).

Definition OnTransportReadCallback (buf : buffer) (c : BusClient) (s : S) :
    outcome (BusClient * S * buffer * list action) :=
  '(ret, ctx, buf, msg) ← Parse what (transport_context c) buf new_msg;
  let c := set_transport_context ctx c in
  match ret with
  | kBad => Ret (c, s, buf, [Stop (Some (transport_ c))])
  | kGood =>
      '(c, s, acts) ← client_HandleMessage msg c s;
      Ret (c, s, buf, acts)
  | kContinue => Ret (c, s, buf, [])
  end.

(** The reads of the client's connection: each is appended to the input buffer and
    handed to the callback. *)
Fixpoint client_receives (buf : buffer) (pieces : list bytes) (c : BusClient) (s : S) :
    outcome (BusClient * S * buffer * list action) :=
  match pieces with
  | [] => Ret (c, s, buf, [])
  | piece :: pieces =>
      buf ← Append piece buf;
      '(c, s, buf, acts) ← OnTransportReadCallback buf c s;
      '(c, s, buf, acts') ← client_receives buf pieces c s;
      Ret (c, s, buf, acts ++ acts')
  end.

End client.

End endpoints.
Arguments BusClient : clear implicits.

(** ** Runs of an invoker

    What its threads and its connection do to an invoker, in the order in which they
    take its mutex: a call with the [Result] made for it, a response, the end of a
    [Result]. *)
Inductive invoker_event : Type :=
  | ECall (method : bytes) (i : In) (r : nat)
  | EResponse (m : Msg)
  | EDestroy (r : nat).

(** The next state and the message written, if any. *)
Definition invoker_step (e : invoker_event) (x : BusInvoker * results) :
    outcome (BusInvoker * results * list Msg) :=
  match e with
  | ECall method i r =>
      let '(v, sent) := ACall Ret x.1 method i (Some r) in
      '(_, m) ← sent;
      Ret (v, <[r := new_result]> x.2, option_list m)
  | EResponse m => y ← HandleResponseMessage x.1 x.2 m; Ret (y, [])
  | EDestroy r => Ret (x.1, delete r x.2, [])
  end.

Fixpoint invoker_run (es : list invoker_event) (x : BusInvoker * results) :
    outcome (BusInvoker * results * list Msg) :=
  match es with
  | [] => Ret (x, [])
  | e :: es =>
      '(x, sent) ← invoker_step e x;
      '(x, sent') ← invoker_run es x;
      Ret (x, sent ++ sent')
  end.

(** What an invoker is for: every call is waiting or has one answer. *)
Inductive call : Type := Pending (r : nat) | Answered (r : nat) (m : Msg).

Definition owner (c : call) : nat := match c with Pending r | Answered r _ => r end.
Definition result_of (c : call) : Result :=
  match c with
  | Pending _ => new_result
  | Answered _ m => {| ok_ := true; out_ := {| in_conn := None; values := params_ m |} |}
  end.

(** The calls by their numbers, and the next number. *)
Abbreviation ledger := (Z * gmap Z call)%type.

Definition fill (m : Msg) (calls : gmap Z call) : gmap Z call :=
  match calls !! id_ m with
  | Some (Pending r) => <[id_ m := Answered r m]> calls
  | _ => calls
  end.

(** The events an invoker can rely on: a [Result] that is nobody else's, and that is
    not destroyed before its answer. *)
Inductive legal : invoker_event → ledger → ledger → Prop :=
  | legal_call method i r n calls :
      (∀ id c, calls !! id = Some c → owner c ≠ r) → n < 2 ^ 32 →
      legal (ECall method i r) (n, calls) (n + 1, <[n := Pending r]> calls)
  | legal_response m n calls :
      legal (EResponse m) (n, calls) (n, fill m calls)
  | legal_destroy id r m n calls :
      calls !! id = Some (Answered r m) →
      legal (EDestroy r) (n, calls) (n, delete id calls).

Inductive legal_run : list invoker_event → ledger → ledger → Prop :=
  | legal_nil a : legal_run [] a a
  | legal_cons e es a a' a'' : legal e a a' → legal_run es a' a'' → legal_run (e :: es) a a''.

(** * Lemmas *)

(** ** The loops over parameters *)

Lemma set_params_nodup l m :
  NoDup l.*1 → params_ m = ∅ →
  set_params l m = Build_Msg (src m) (id_ m) (is_request_ m) (caller_ m) (method_ m)
    (method_provider_ m) (delete [] (list_to_map l)).
Proof.
  intros Hl Hm. unfold set_params.
  enough (∀ l m, foldl (λ m kv, set_param kv.1 kv.2 m) m l =
    Build_Msg (src m) (id_ m) (is_request_ m) (caller_ m) (method_ m) (method_provider_ m)
      (foldl (λ p kv, params_set kv.1 kv.2 p) (params_ m) l)) as H.
  { rewrite H, Hm. f_equal. clear H Hm m.
    enough (∀ p, foldl (λ p kv, params_set kv.1 kv.2 p) p l = delete [] (list_to_map l) ∪ p) as H.
    { by rewrite H, (right_id_L ∅ (∪)). }
    induction l as [|[k v] l IH]; intros p; cbn in *; [by rewrite delete_empty, (left_id_L ∅ (∪))|].
    apply NoDup_cons in Hl as [Hk Hl]. rewrite IH by done. unfold params_set. case_bool_decide as Hn.
    - subst k. by rewrite delete_insert_eq.
    - rewrite delete_insert_ne by done. rewrite <-insert_union_l, insert_union_r; [done|].
      rewrite lookup_delete_ne by done. by apply not_elem_of_list_to_map. }
  clear. intros l. induction l as [|[k v] l IH]; intros m; [by destruct m|].
  cbn [foldl]. rewrite IH. done.
Qed.

Lemma set_params_iter vs m :
  params_ m = ∅ →
  set_params (map_iter vs) m = Build_Msg (src m) (id_ m) (is_request_ m) (caller_ m) (method_ m)
    (method_provider_ m) (delete [] vs).
Proof. intros Hm. rewrite set_params_nodup by (done || apply map_iter_nodup). by rewrite list_to_map_iter. Qed.

Lemma in_sets_iter vs i :
  in_sets (map_iter vs) i = {| in_conn := in_conn i; values := vs ∪ values i |}.
Proof.
  rewrite <-insert_all_map_iter. unfold in_sets, insert_all. generalize (map_iter vs). intros l.
  revert i. induction l as [|[k v] l IH]; intros i; [by destruct i|]. cbn [foldl]. by rewrite IH.
Qed.

Lemma result_sets_iter vs r :
  foldl (λ r kv, result_set kv.1 kv.2 r) r (map_iter vs) =
  {| ok_ := ok_ r; out_ := {| in_conn := in_conn (out_ r); values := vs ∪ values (out_ r) |} |}.
Proof.
  rewrite <-insert_all_map_iter. unfold insert_all. generalize (map_iter vs). intros l.
  revert r. induction l as [|[k v] l IH]; intros r; [by destruct r as [? []]|].
  cbn [foldl]. by rewrite IH.
Qed.

(** ** The messages of a call *)

Definition request (v : BusInvoker) (provider method : bytes) (i : In) : Msg :=
  Build_Msg None (next_id_ v) true (name_ v) method provider (delete [] (values i)).

Definition response (req : Msg) (out : Out) : Msg :=
  Build_Msg None (id_ req) false (caller_ req) [] [] (delete [] (values out)).

Lemma call_msg_spec v provider method i :
  ("/"%char ∉ provider) → len (provider ++ "/"%char :: method) < npos →
  call_msg v (provider ++ "/"%char :: method) i =
  ((NextMsgId v).2, Ret (request v provider method i)).
Proof.
  intros Hp Hl. unfold call_msg. cbn [NextMsgId snd]. rewrite set_method_spec by done.
  destruct (find_slash _ Hl) as [[_ Hn]|(a & b & Heq & Ha & Hf & _)].
  { exfalso. apply Hn. set_solver. }
  apply not_elem_of_app_cons_inv_l in Heq as (-> & _ & ->); [|done..].
  unfold after_slash, before_slash. rewrite Hf.
  rewrite len_app, len_cons in Hl. rewrite (proj2 (Z.eqb_neq _ _)) by lia.
  rewrite Nat2Z.id, take_app_length.
  replace (a ++ "/"%char :: b) with ((a ++ ["/"%char]) ++ b) by (by rewrite <-app_assoc).
  replace (length a + 1)%nat with (length (a ++ ["/"%char])) by (rewrite length_app; done).
  rewrite drop_app_length. cbn [mbind outcome_bind]. by rewrite set_params_iter.
Qed.

Lemma set_params_id l m : id_ (set_params l m) = id_ m.
Proof. unfold set_params. revert m. induction l as [|kv l IH]; intros m; [done|]. cbn [foldl]. by rewrite IH. Qed.

(** ** The invoker and its ledger *)

Record keeps_ledger (a : ledger) (x : BusInvoker * results) : Prop := {
  keeps_next : next_id_ x.1 = u32 a.1;
  keeps_pos : 1 <= a.1;
  keeps_old : ∀ id c, a.2 !! id = Some c → 1 <= id < a.1;
  keeps_waiting : ∀ id r, waitings_ x.1 !! id = Some r ↔ a.2 !! id = Some (Pending r);
  keeps_result : ∀ id c, a.2 !! id = Some c → x.2 !! owner c = Some (result_of c);
  keeps_own : ∀ id id' c c', a.2 !! id = Some c → a.2 !! id' = Some c' → owner c = owner c' → id = id';
}.

Lemma ACall_spec v method i r :
  ∃ m, ACall Ret v method i (Some r) =
    (wait_for (next_id_ v) r (NextMsgId v).2, Ret (OkStatus, Some m)) ∧ id_ m = next_id_ v.
Proof.
  unfold ACall, call_msg. cbn [NextMsgId snd].
  set (m0 := set_request true _).
  assert (∀ m1, set_method method m0 = Ret m1 → id_ m1 = next_id_ v) as Hid.
  { unfold set_method. destruct (_ =? npos); [by intros ? [= <-]|].
    unfold str_substr. destruct (len method <? 0); [done|]. cbn [mbind outcome_bind].
    destruct (len method <? _); [done|]. cbn [mbind outcome_bind]. by intros ? [= <-]. }
  destruct (set_method_total method m0) as [m1 Hm]. rewrite Hm. cbn [mbind outcome_bind].
  specialize (Hid m1 Hm). rewrite set_params_id.
  eexists. rewrite Hid. split; [done|]. by rewrite set_params_id.
Qed.

Lemma keeps_call method i r n calls x :
  keeps_ledger (n, calls) x → (∀ id c, calls !! id = Some c → owner c ≠ r) → n < 2 ^ 32 →
  ∃ v rs m, invoker_step (ECall method i r) x = Ret (v, rs, [m]) ∧ id_ m = n ∧
    keeps_ledger (n + 1, <[n := Pending r]> calls) (v, rs).
Proof.
  intros [Hn Hpos Hold Hw Hr Ho] Hfree Hlt. cbn [fst snd] in *. unfold invoker_step.
  destruct (ACall_spec x.1 method i r) as (m & -> & Hid). cbn [mbind outcome_bind option_list].
  rewrite Hn, u32_small in Hid by lia.
  assert (calls !! n = None) as Hnew.
  { destruct (calls !! n) as [c|] eqn:Hc; [|done]. specialize (Hold _ _ Hc). lia. }
  eexists _, _, m. split; [done|]. split; [done|].
  split; cbn [fst snd wait_for NextMsgId next_id_ waitings_]; rewrite ?Hn, ?(u32_small n) by lia.
  - done.
  - lia.
  - intros id c [[<- <-]|[_ Hc]]%lookup_insert_Some; [lia|]. specialize (Hold _ _ Hc). lia.
  - intros id r'. destruct (decide (id = n)) as [->|Hne].
    + rewrite !lookup_insert_eq. naive_solver.
    + rewrite !lookup_insert_ne by done. apply Hw.
  - intros id c [[<- <-]|[Hne Hc]]%lookup_insert_Some; [apply lookup_insert_eq|].
    rewrite lookup_insert_ne by (apply not_eq_sym; eauto). eauto.
  - intros id id' c c' [[<- <-]|[Hne Hc]]%lookup_insert_Some [[<- <-]|[Hne' Hc']]%lookup_insert_Some Heq;
      [done| | |by eauto]; cbn in Heq; exfalso; [by apply (Hfree _ _ Hc')|by apply (Hfree _ _ Hc)].
Qed.

Lemma keeps_answer m n calls x :
  keeps_ledger (n, calls) x →
  ∃ v rs, invoker_step (EResponse m) x = Ret (v, rs, []) ∧ keeps_ledger (n, fill m calls) (v, rs).
Proof.
  intros [Hn Hpos Hold Hw Hr Ho]. destruct x as [v rs]. cbn [fst snd] in *.
  unfold invoker_step, HandleResponseMessage, fill. cbn [fst snd].
  destruct (waitings_ v !! id_ m) as [p|] eqn:Hp.
  2: { exists v, rs. split; [done|].
       assert (fill m calls = calls) as Ha.
       { unfold fill. destruct (calls !! id_ m) as [[r|r m']|] eqn:Hc; try done.
         by apply Hw in Hc; rewrite Hp in Hc. }
       fold (fill m calls). by rewrite Ha. }
  apply Hw in Hp as Hc. pose proof (Hr _ _ Hc) as Hp'. cbn [owner result_of] in Hp'.
  rewrite Hc, Hp'. cbn [or_undef mbind outcome_bind].
  rewrite result_sets_iter. cbn [out_ new_result values new_in]. rewrite (right_id_L ∅ (∪)).
  eexists _, _. split; [done|]. split; cbn [fst snd forget next_id_ waitings_]; try done.
  - intros id c [[<- <-]|[_ H]]%lookup_insert_Some; eauto.
  - intros id r. destruct (decide (id = id_ m)) as [->|Hne].
    + rewrite lookup_delete_eq, lookup_insert_eq. naive_solver.
    + rewrite lookup_delete_ne, lookup_insert_ne by done. apply Hw.
  - intros id c [[<- <-]|[Hne H]]%lookup_insert_Some; [apply lookup_insert_eq|].
    rewrite lookup_insert_ne; [eauto|]. intros Heq. apply Hne. by eapply (Ho _ _ (Pending p)).
  - intros id id' c c' [[<- <-]|[Hne H]]%lookup_insert_Some [[<- <-]|[Hne' H']]%lookup_insert_Some Heq;
      [done|by eapply (Ho _ _ (Pending p))|by eapply (Ho _ _ _ (Pending p))|by eauto].
Qed.

Lemma keeps_destroy id r m n calls x :
  keeps_ledger (n, calls) x → calls !! id = Some (Answered r m) →
  ∃ v rs, invoker_step (EDestroy r) x = Ret (v, rs, []) ∧ keeps_ledger (n, delete id calls) (v, rs).
Proof.
  intros [Hn Hpos Hold Hw Hr Ho] Hc. eexists _, _. split; [done|]. cbn [fst snd] in *.
  split; cbn [fst snd]; try done.
  - intros id' c [_ H]%lookup_delete_Some. eauto.
  - intros id' r'. rewrite lookup_delete_Some, Hw. split; [|naive_solver].
    intros H. split; [|done]. intros <-. congruence.
  - intros id' c [Hne H]%lookup_delete_Some. rewrite lookup_delete_ne; [eauto|].
    intros Heq. apply Hne. by eapply (Ho _ _ (Answered r m)).
  - intros id1 id2 c c' [_ H1]%lookup_delete_Some [_ H2]%lookup_delete_Some. eauto.
Qed.

Lemma keeps_run es a a' : legal_run es a a' → ∀ x, keeps_ledger a x →
  ∃ v rs sent, invoker_run es x = Ret (v, rs, sent) ∧ keeps_ledger a' (v, rs) ∧
    id_ <$> sent = seqZ a.1 (a'.1 - a.1) ∧ a.1 <= a'.1.
Proof.
  induction 1 as [a|e es a a' a'' Hl _ IH]; intros x Hx; cbn [invoker_run].
  { destruct x as [v rs]. exists v, rs, []. by rewrite Z.sub_diag. }
  assert (∃ v rs sent, invoker_step e x = Ret (v, rs, sent) ∧ keeps_ledger a' (v, rs) ∧
    id_ <$> sent = seqZ a.1 (a'.1 - a.1) ∧ a.1 <= a'.1) as (v & rs & sent & -> & Hk & Hs & Hle).
  { destruct Hl as [method i r n calls Hf Hn|m n calls|id r m n calls Hc]; cbn [fst snd].
    - destruct (keeps_call method i r n calls x Hx Hf Hn) as (v & rs & m & -> & Hid & Hk).
      exists v, rs, [m]. split_and!; [done..| |lia].
      replace (n + 1 - n) with 1 by lia. cbn. by rewrite Hid.
    - destruct (keeps_answer m n calls x Hx) as (v & rs & -> & Hk). exists v, rs, [].
      rewrite Z.sub_diag. by split_and!.
    - destruct (keeps_destroy id r m n calls x Hx Hc) as (v & rs & -> & Hk). exists v, rs, [].
      rewrite Z.sub_diag. by split_and!. }
  cbn [mbind outcome_bind]. destruct (IH _ Hk) as (v' & rs' & sent' & -> & Hk' & Hs' & Hle').
  cbn [mbind outcome_bind]. exists v', rs', (sent ++ sent'). split_and!; [done..| |lia].
  rewrite fmap_app, Hs, Hs'. replace (a''.1 - a.1) with ((a'.1 - a.1) + (a''.1 - a'.1)) by lia.
  rewrite seqZ_app by lia. do 2 f_equal. lia.
Qed.

Lemma call_msg_plain v method i :
  ("/"%char ∉ method) → len method < npos →
  call_msg v method i = ((NextMsgId v).2, Ret (request v [] method i)).
Proof.
  intros Hn Hl. unfold call_msg. cbn [NextMsgId snd]. rewrite set_method_spec by done.
  unfold after_slash, before_slash. destruct (find_slash _ Hl) as [[-> _]|(a & b & -> & _)].
  - cbn [mbind outcome_bind]. by rewrite set_params_iter.
  - exfalso. apply Hn. set_solver.
Qed.

Section delivery.
Context (dump_float : spec_float → bytes) (what : exn → bytes).

(** A message that is sent and arrives as it is: its strings are UTF-8, its method
    has no slash, and a 32-bit length can say how long it is. *)
Record sendable (m : Msg) : Prop := {
  sendable_wf : msg_wf m;
  sendable_utf8 : msg_utf8 m = true;
  sendable_method : ("/"%char ∉ method_ m) ∧ len (method_ m) < npos;
  sendable_size : ∀ body, Pack dump_float m = Ret body → len body < 2 ^ 32 - 1;
}.

Definition body_of (m : Msg) : bytes :=
  match Pack dump_float m with Ret body => body | _ => [] end.
Definition frame_of (m : Msg) : bytes := bus_frame (body_of m).

Lemma received_same m : ("/"%char ∉ method_ m) → len (method_ m) < npos → received m = set_src None m.
Proof.
  intros Hn Hl. unfold received, after_slash.
  destruct (find_slash _ Hl) as [[-> _]|(a & b & Heq & _)]; [done|].
  exfalso. apply Hn. rewrite Heq. set_solver.
Qed.

Lemma sendable_send m c : sendable m → send_to dump_float c m = Ret (Send c (frame_of m)).
Proof.
  intros [Hm Hu _ Hs]. pose proof (Pack_spec dump_float m Hm) as HP. rewrite Hu in HP.
  destruct HP as (body & HP & _). unfold send_to, frame_of, body_of. rewrite HP.
  rewrite (Send_frame dump_float m body) by auto. done.
Qed.

(** Whether a message is [sendable]. *)
Definition sendable_ok (m : Msg) : bool :=
  (0 <=? id_ m) && (id_ m <? 2 ^ 32) && bool_decide (params_ m !! [] = None) && msg_utf8 m &&
  bool_decide ("/"%char ∉ method_ m) && (len (method_ m) <? npos) &&
  match Pack dump_float m with Ret body => len body <? 2 ^ 32 - 1 | _ => true end.

Lemma sendable_check m : sendable_ok m = true → sendable m.
Proof.
  unfold sendable_ok. rewrite !andb_true_iff, !bool_decide_eq_true. intros H.
  destruct H as [[[[[[H1 H2] H3] H4] H5] H6] H7]. bool_hyps.
  split; [by split|done|done|]. intros body HP. rewrite HP in H7. by bool_hyps.
Qed.

Lemma cut_whole m : cut (frame_of m) [] (frame_of m).
Proof.
  split; [done|]. unfold frame_of. rewrite len_frame. change (len (concat [])) with 0.
  pose proof (Zle_0_nat (length (body_of m))). lia.
Qed.

Lemma send_src m c c' : send_to dump_float c (set_src c' m) = send_to dump_float c m.
Proof. done. Qed.

Lemma sendable_delivered c b m pieces last :
  idle c b → sendable m → cut (frame_of m) pieces last →
  ∃ c1 b1 b2 b3, receive what c b pieces = Ret (kContinue, c1, b1, new_msg) ∧
    Append last b1 = Ret b2 ∧
    Parse what c1 b2 new_msg = Ret (kGood, past (len (body_of m) + 1) c, b3, set_src None m) ∧
    idle (past (len (body_of m) + 1) c) b3.
Proof.
  intros Hid [Hm Hu [Hn Hl] Hs] Hcut. pose proof (Pack_spec dump_float m Hm) as HP. rewrite Hu in HP.
  destruct HP as (body & HP & Hj). unfold frame_of, body_of in *. rewrite HP in *.
  rewrite <-received_same by done. eapply delivered; eauto.
Qed.

(** ** The server's side *)

Lemma set_context_set_context conn c c' s : set_context conn c' (set_context conn c s) = set_context conn c' s.
Proof. unfold set_context. cbn. by rewrite insert_insert_eq. Qed.

Lemma set_context_same conn c s : contexts s !! conn = Some c → set_context conn c s = s.
Proof. intros H. destruct s. unfold set_context. cbn in *. by rewrite insert_id. Qed.

Lemma server_waits conn pieces : ∀ c b s c' b' m,
  contexts s !! conn = Some c → receive what c b pieces = Ret (kContinue, c', b', m) →
  server_receives dump_float what conn b pieces s = Ret (set_context conn c' s, b', []).
Proof.
  induction pieces as [|piece pieces IH]; intros c b s c' b' m Hc Hr; cbn [receive server_receives] in *.
  { injection Hr as <- <- <-. by rewrite set_context_same. }
  destruct (Append piece b) as [b1| | | |]; try done. cbn [mbind outcome_bind] in *.
  unfold OnReceive. rewrite Hc. cbn [or_undef mbind outcome_bind].
  destruct (Parse what c b1 new_msg) as [[[[r c1] b2] m1]| | | |]; try done. cbn [mbind outcome_bind] in *.
  destruct r; try done. cbn [mbind outcome_bind].
  rewrite (IH c1 b2 (set_context conn c1 s) c' b' m); [|by apply lookup_insert_eq|done].
  cbn [mbind outcome_bind]. by rewrite set_context_set_context.
Qed.

Lemma server_receives_app conn p1 : ∀ p2 b s,
  server_receives dump_float what conn b (p1 ++ p2) s =
  ('(s, b, acts) ← server_receives dump_float what conn b p1 s;
   '(s, b, acts') ← server_receives dump_float what conn b p2 s;
   Ret (s, b, acts ++ acts')).
Proof.
  induction p1 as [|p p1 IH]; intros p2 b s; cbn [app server_receives mbind outcome_bind].
  { by destruct (server_receives dump_float what conn b p2 s) as [[[? ?] ?]| | | |]. }
  destruct (Append p b) as [b1| | | |]; try done. cbn [mbind outcome_bind].
  destruct (OnReceive dump_float what conn b1 s) as [[[s1 b2] a1]| | | |]; try done.
  cbn [mbind outcome_bind]. rewrite IH.
  destruct (server_receives dump_float what conn b2 p1 s1) as [[[s2 b3] a2]| | | |]; try done.
  cbn [mbind outcome_bind].
  destruct (server_receives dump_float what conn b3 p2 s2) as [[[s3 b4] a3]| | | |]; try done.
  cbn [mbind outcome_bind]. by rewrite app_assoc.
Qed.

(** A message arrives at the server in whatever pieces: it is handled once. *)
Lemma server_delivered conn c b m s s' acts pieces last :
  contexts s !! conn = Some c → idle c b → sendable m → cut (frame_of m) pieces last →
  server_HandleMessage dump_float (set_src (Some conn) m)
    (set_context conn (past (len (body_of m) + 1) c) s) = Ret (s', acts) →
  ∃ b', server_receives dump_float what conn b (pieces ++ [last]) s = Ret (s', b', acts) ∧
        idle (past (len (body_of m) + 1) c) b'.
Proof.
  intros Hc Hid Hm Hcut Hh.
  destruct (sendable_delivered c b m pieces last Hid Hm Hcut) as (c1 & b1 & b2 & b3 & Hr & Ha & Hp & Hid').
  exists b3. split; [|done]. rewrite server_receives_app, (server_waits _ _ c b s c1 b1 new_msg Hc Hr).
  cbn [mbind outcome_bind server_receives]. rewrite Ha. cbn [mbind outcome_bind].
  unfold OnReceive. cbn [contexts set_context]. rewrite lookup_insert_eq.
  cbn [or_undef mbind outcome_bind]. rewrite Hp. cbn [mbind outcome_bind].
  change (set_src (Some conn) (set_src None m)) with (set_src (Some conn) m).
  rewrite set_context_set_context, Hh. cbn [mbind outcome_bind]. by rewrite app_nil_r.
Qed.

(** ** The client's side *)

Section client.
Context {S : Type}.
Implicit Types (c : BusClient S) (s : S).

Lemma client_waits pieces : ∀ b c s k' b' m,
  receive what (transport_context c) b pieces = Ret (kContinue, k', b', m) →
  client_receives dump_float what b pieces c s = Ret (set_transport_context k' c, s, b', []).
Proof.
  induction pieces as [|piece pieces IH]; intros b c s k' b' m Hr; cbn [receive client_receives] in *.
  { injection Hr as <- <- <-. by destruct c. }
  destruct (Append piece b) as [b1| | | |]; try done. cbn [mbind outcome_bind] in *.
  unfold OnTransportReadCallback.
  destruct (Parse what (transport_context c) b1 new_msg) as [[[[r c1] b2] m1]| | | |]; try done.
  cbn [mbind outcome_bind] in *. destruct r; try done. cbn [mbind outcome_bind].
  rewrite (IH b2 (set_transport_context c1 c) s k' b' m) by done. done.
Qed.

Lemma client_receives_app p1 : ∀ p2 b c s,
  client_receives dump_float what b (p1 ++ p2) c s =
  ('(c, s, b, acts) ← client_receives dump_float what b p1 c s;
   '(c, s, b, acts') ← client_receives dump_float what b p2 c s;
   Ret (c, s, b, acts ++ acts')).
Proof.
  induction p1 as [|p p1 IH]; intros p2 b c s; cbn [app client_receives mbind outcome_bind].
  { by destruct (client_receives dump_float what b p2 c s) as [[[[? ?] ?] ?]| | | |]. }
  destruct (Append p b) as [b1| | | |]; try done. cbn [mbind outcome_bind].
  destruct (OnTransportReadCallback dump_float what b1 c s) as [[[[c1 s1] b2] a1]| | | |]; try done.
  cbn [mbind outcome_bind]. rewrite IH.
  destruct (client_receives dump_float what b2 p1 c1 s1) as [[[[c2 s2] b3] a2]| | | |]; try done.
  cbn [mbind outcome_bind].
  destruct (client_receives dump_float what b3 p2 c2 s2) as [[[[c3 s3] b4] a3]| | | |]; try done.
  cbn [mbind outcome_bind]. by rewrite app_assoc.
Qed.

Lemma client_delivered b m c s x pieces last :
  idle (transport_context c) b → sendable m → cut (frame_of m) pieces last →
  let k := past (len (body_of m) + 1) (transport_context c) in
  client_HandleMessage dump_float (set_src None m) (set_transport_context k c) s = x →
  ∃ b', idle k b' ∧
    client_receives dump_float what b (pieces ++ [last]) c s =
    ('(c', s', acts) ← x; Ret (c', s', b', acts)).
Proof.
  intros Hid Hm Hcut k Hh.
  destruct (sendable_delivered (transport_context c) b m pieces last Hid Hm Hcut)
    as (c1 & b1 & b2 & b3 & Hr & Ha & Hp & Hid').
  exists b3. split; [done|]. rewrite client_receives_app, (client_waits _ b c s c1 b1 new_msg Hr).
  cbn [mbind outcome_bind client_receives]. rewrite Ha. cbn [mbind outcome_bind].
  unfold OnTransportReadCallback. cbn [transport_context set_transport_context]. rewrite Hp.
  cbn [mbind outcome_bind]. fold k.
  change (set_transport_context k (set_transport_context c1 c)) with (set_transport_context k c).
  rewrite Hh. destruct x as [[[c' s'] acts]| | | |]; try done.
  cbn [mbind outcome_bind]. by rewrite app_nil_r.
Qed.

End client.

(** ** The steps of a call *)

Lemma Call_enter_spec {S} (c : BusClient S) provider method i :
  ("/"%char ∉ provider) → len (provider ++ "/"%char :: method) < npos →
  sendable (request (invoker_ c) provider method i) →
  let r := fresh (dom (heap c)) in
  Call_enter dump_float (provider ++ "/"%char :: method) i c =
  (set_invoker (wait_for (next_id_ (invoker_ c)) r (NextMsgId (invoker_ c)).2)
     (<[r := new_result]> (heap c)) c, r,
   Ret (OkStatus, Some (Send (Some (transport_ c))
     (frame_of (request (invoker_ c) provider method i))))).
Proof.
  intros Hp Hl Hs r. unfold Call_enter, client_ACall, ACall. cbn [set_invoker invoker_].
  rewrite call_msg_spec by done. by rewrite sendable_send.
Qed.

Lemma forward_request m x c s :
  sendable m → is_request_ m = true → method_provider_ m ≠ [] → method_provider_ m ≠ bs "SvcMgr" →
  router_Find (method_provider_ m) (router_ s) = Some c →
  server_HandleMessage dump_float (set_src x m) s = Ret (s, [Send (Some c) (frame_of m)]).
Proof.
  intros Hs Hr H1 H2 Hf. unfold server_HandleMessage, server_HandleRequestMessage.
  cbn [set_src is_request_ method_provider_]. rewrite Hr.
  rewrite !bool_decide_false by done. cbn [orb]. rewrite Hf, send_src, sendable_send by done. done.
Qed.

Lemma forward_response m x c s :
  sendable m → is_request_ m = false → router_Find (caller_ m) (router_ s) = Some c →
  server_HandleMessage dump_float (set_src x m) s = Ret (s, [Send (Some c) (frame_of m)]).
Proof.
  intros Hs Hr Hf. unfold server_HandleMessage, server_HandleResponseMessage.
  cbn [set_src is_request_ caller_]. rewrite Hr, Hf, send_src, sendable_send by done. done.
Qed.

Lemma ServeMsg_found {S} (v : BusService S) req func (s s' : S) out :
  methods_ v !! method_ req = Some func →
  func {| in_conn := src req; values := params_ req |} new_in s = Ret (s', out) →
  ServeMsg v req new_msg s = Ret (s', response req out).
Proof.
  intros Hm Hf. unfold ServeMsg. rewrite Hm, in_sets_iter. cbn [in_conn values].
  rewrite (right_id_L ∅ (∪)), Hf. cbn [mbind outcome_bind].
  by rewrite set_params_iter.
Qed.

Lemma serve_request {S} (c : BusClient S) req func (s s' : S) out :
  is_request_ req = true → src req = None →
  methods_ (service_ c) !! method_ req = Some func →
  func {| in_conn := None; values := params_ req |} new_in s = Ret (s', out) →
  sendable (response req out) →
  client_HandleMessage dump_float req c s =
    Ret (c, s', [Send (Some (transport_ c)) (frame_of (response req out))]).
Proof.
  intros Hr Hsrc Hm Hf Hs. unfold client_HandleMessage, client_HandleRequestMessage. rewrite Hr.
  erewrite ServeMsg_found; [|done|by rewrite Hsrc]. cbn [mbind outcome_bind].
  by rewrite sendable_send.
Qed.

Lemma take_response {S} (c : BusClient S) m (s : S) p :
  is_request_ m = false → waitings_ (invoker_ c) !! id_ m = Some p → heap c !! p = Some new_result →
  client_HandleMessage dump_float m c s =
    Ret (set_invoker (forget (id_ m) (invoker_ c))
      (<[p := {| ok_ := true; out_ := {| in_conn := None; values := params_ m |} |}]> (heap c)) c, s, []).
Proof.
  intros Hr Hw Hp. unfold client_HandleMessage, HandleResponseMessage. rewrite Hr, Hw, Hp.
  cbn [or_undef mbind outcome_bind]. rewrite result_sets_iter. cbn [out_ new_result values new_in].
  by rewrite (right_id_L ∅ (∪)).
Qed.

End delivery.

(** * Properties *)

(** A client the server knows: its name in the router, its connection between two
    messages. *)
Record registered (s : BusServer) (name : bytes) (conn : nat) (k : BusContext) (b : buffer) : Prop := {
  reg_router : router_Find name (router_ s) = Some conn;
  reg_context : contexts s !! conn = Some k;
  reg_idle : idle k b;
}.

(** C2: a call returns what the method computed.  The client of [c1] calls
    "provider/method"; the server [s] knows it under its name and the provider's client
    [c2] under the provider's; the method is in [c2]'s service and yields [out]
    on the parameters of the call.  Then the call sends the request and waits;
    however the frames are cut on their way, the server passes the request on to the
    provider once and unchanged, the provider runs the method once and sends the
    response, the server passes it on to the caller, and there the call ends with
    the parameters of [out] and leaves the client's [Result]s as they were. *)
Theorem rpc_round_trip (dump_float : spec_float → bytes) (what : exn → bytes) {S1 S2 : Type}
    (c1 : BusClient S1) (c2 : BusClient S2) (s : BusServer) (x y : nat)
    (k1 k2 : BusContext) (b1 b2 t1 t2 : buffer) (provider method : bytes)
    (i : In) (func : MethodFunc S2) (u : S1) (v v' : S2) (out : Out) :
  let req := request (invoker_ c1) provider method i in
  let resp := response req out in
  registered s (name_ (invoker_ c1)) x k1 b1 → registered s provider y k2 b2 → x ≠ y →
  idle (transport_context c1) t1 → idle (transport_context c2) t2 →
  ("/"%char ∉ provider) → provider ≠ [] → provider ≠ bs "SvcMgr" →
  len (provider ++ "/"%char :: method) < npos →
  methods_ (service_ c2) !! method = Some func →
  func {| in_conn := None; values := params_ req |} new_in v = Ret (v', out) →
  sendable dump_float req → sendable dump_float resp →
  let f1 := frame_of dump_float req in let f2 := frame_of dump_float resp in
  ∃ c1' r,
    Call_enter dump_float (provider ++ "/"%char :: method) i c1 =
      (c1', r, Ret (OkStatus, Some (Send (Some (transport_ c1)) f1))) ∧
    Call_leave r c1' = None ∧
    ∀ ps p, cut f1 ps p → ∃ s1 b1',
      server_receives dump_float what x b1 (ps ++ [p]) s = Ret (s1, b1', [Send (Some y) f1]) ∧
    ∀ ps p, cut f1 ps p → ∃ c2' t2',
      client_receives dump_float what t2 (ps ++ [p]) c2 v =
        Ret (c2', v', t2', [Send (Some (transport_ c2)) f2]) ∧
    ∀ ps p, cut f2 ps p → ∃ s2 b2',
      server_receives dump_float what y b2 (ps ++ [p]) s1 = Ret (s2, b2', [Send (Some x) f2]) ∧
      router_ s2 = router_ s ∧
    ∀ ps p, cut f2 ps p → ∃ c1'' t1' c1''',
      client_receives dump_float what t1 (ps ++ [p]) c1' u = Ret (c1'', u, t1', []) ∧
      Call_leave r c1'' = Some ({| in_conn := None; values := delete [] (values out) |}, c1''') ∧
      heap c1''' = heap c1.
Proof.
  intros req resp [Hr1 Hc1 Hi1] [Hr2 Hc2 Hi2] Hxy Ht1 Ht2 Hp Hne Hsvc Hl Hm Hf Hq Ha f1 f2.
  set (r := fresh (dom (heap c1))).
  assert (r ∉ dom (heap c1)) as Hfresh by apply is_fresh.
  set (c1' := set_invoker (wait_for (next_id_ (invoker_ c1)) r (NextMsgId (invoker_ c1)).2)
     (<[r := new_result]> (heap c1)) c1).
  exists c1', r. split; [by apply Call_enter_spec|]. split.
  { unfold Call_leave. cbn [c1' set_invoker heap]. by rewrite lookup_insert_eq. }
  intros ps p Hcut. set (k1' := past (len (body_of dump_float req) + 1) k1).
  destruct (server_delivered dump_float what x k1 b1 req s (set_context x k1' s)
    [Send (Some y) (frame_of dump_float req)] ps p) as (b1' & Hs1 & _); [done..| |].
  { by apply forward_request. }
  exists (set_context x k1' s), b1'. split; [exact Hs1|].
  clear ps p Hcut Hs1. intros ps p Hcut.
  destruct (client_delivered dump_float what t2 req c2 v _ ps p Ht2 Hq Hcut (serve_request dump_float
    (set_transport_context (past (len (body_of dump_float req) + 1) (transport_context c2)) c2)
    (set_src None req) func v v' out eq_refl eq_refl Hm Hf Ha)) as (t2' & _ & Hs2).
  eexists _, t2'. split; [exact Hs2|]. clear ps p Hcut Hs2. intros ps p Hcut.
  set (k2' := past (len (body_of dump_float resp) + 1) k2).
  destruct (server_delivered dump_float what y k2 b2 resp (set_context x k1' s)
    (set_context y k2' (set_context x k1' s)) [Send (Some x) (frame_of dump_float resp)] ps p)
    as (b2' & Hs3 & _); [|done..| |].
  { cbn [set_context contexts]. by rewrite lookup_insert_ne. }
  { by apply forward_response. }
  exists (set_context y k2' (set_context x k1' s)), b2'. split; [exact Hs3|]. split; [done|].
  clear ps p Hcut Hs3. intros ps p Hcut.
  set (k := past (len (body_of dump_float resp) + 1) (transport_context c1')).
  assert (waitings_ (invoker_ (set_transport_context k c1')) !! id_ resp = Some r) as Hw
    by apply lookup_insert_eq.
  assert (heap (set_transport_context k c1') !! r = Some new_result) as Hh by apply lookup_insert_eq.
  destruct (client_delivered dump_float what t1 resp c1' u _ ps p Ht1 Ha Hcut
    (take_response dump_float _ (set_src None resp) u r eq_refl Hw Hh)) as (t1' & _ & Hs4).
  eexists _, t1', _. split; [exact Hs4|]. split.
  - unfold Call_leave. cbn [c1' set_invoker heap set_transport_context]. rewrite lookup_insert_eq. reflexivity.
  - cbn [destroy set_invoker heap set_transport_context c1'].
    rewrite !delete_insert_eq. apply delete_id. by apply not_elem_of_dom.
Qed.

(** Ann asks bob for the sum of a number and one, which bob keeps. *)
Definition add_one : MethodFunc Z := λ i out total,
  Ret (total + 1, In_set (bs "sum") (In_get (bs "x") i ++ bs "+1") out).
Definition ann : BusClient unit := new_client (bs "ann") 0.
Definition bob : BusClient Z :=
  set_service (service_AddMethod (bs "add_one") add_one (new_service (bs "bob"))).1 (new_client (bs "bob") 0).
Definition hub : BusServer :=
  set_router (<[bs "ann" := Some 1%nat]> (<[bs "bob" := Some 2%nat]> ∅))
    (HandleConnection kConnected 2 (HandleConnection kConnected 1 (new_bus_server (bs "hub")))).
Definition ann_in : In := In_set (bs "x") (bs "41") new_in.

Lemma idle_new : ∃ b, make kInitialSize = Ret b ∧ idle new_context b.
Proof.
  destruct (inv_make kInitialSize ltac:(done) ltac:(done)) as (b & Hb & Hi & Hc & Hw & _).
  exists b. split; [done|]. split; [done|done|done|lia].
Qed.

Lemma rpc_round_trip_witness :
  ∃ b req c1' r s1 b1' c2' t2' resp s2 b2' c1'' t1' c3,
    make kInitialSize = Ret b ∧
    Call_enter (λ _, []) (bs "bob/add_one") ann_in ann =
      (c1', r, Ret (OkStatus, Some (Send (Some 0%nat) req))) ∧
    server_receives (λ _, []) (λ _, []) 1 b [req] hub = Ret (s1, b1', [Send (Some 2%nat) req]) ∧
    client_receives (λ _, []) (λ _, []) b [req] bob 0 = Ret (c2', 1, t2', [Send (Some 0%nat) resp]) ∧
    server_receives (λ _, []) (λ _, []) 2 b [resp] s1 = Ret (s2, b2', [Send (Some 1%nat) resp]) ∧
    client_receives (λ _, []) (λ _, []) b [resp] c1' tt = Ret (c1'', tt, t1', []) ∧
    Call_leave r c1'' = Some ({| in_conn := None; values := {[bs "sum" := bs "41+1"]} |}, c3).
Proof.
  destruct idle_new as (b & Hb & Hid).
  set (q := request (invoker_ ann) (bs "bob") (bs "add_one") ann_in).
  set (out := In_set (bs "sum") (bs "41+1") new_in).
  edestruct (rpc_round_trip (λ _, []) (λ _, []) ann bob hub 1 2 new_context new_context b b b b
    (bs "bob") (bs "add_one") ann_in add_one tt 0 1 out) as (c1' & r & H1 & _ & H2);
    [by split|by split|done|done|done|by apply (bool_decide_eq_true_1 ("/"%char ∉ bs "bob")); vm_compute|done|done|done|
     done|done|by apply sendable_check; vm_compute|by apply sendable_check; vm_compute|].
  destruct (H2 [] _ (cut_whole _ _)) as (s1 & b1' & H3 & H4).
  destruct (H4 [] _ (cut_whole _ _)) as (c2' & t2' & H5 & H6).
  destruct (H6 [] _ (cut_whole _ _)) as (s2 & b2' & H7 & _ & H8).
  destruct (H8 [] _ (cut_whole _ _)) as (c1'' & t1' & c3 & H9 & H10 & _).
  exists b, (frame_of (λ _, []) q), c1', r, s1, b1', c2', t2', (frame_of (λ _, []) (response q out)).
  exists s2, b2', c1'', t1', c3. split_and!; [exact Hb|exact H1|exact H3|exact H5|exact H7|exact H9|exact H10].
Defined.

(** The request of [Start], and the server's answer to it. *)
Definition register_request {S} (c : BusClient S) : Msg :=
  request (invoker_ c) [] (bs "RegisterService")
    (In_set (bs "ServiceName") (service_name (service_ c)) new_in).
Definition register_response {S} (c : BusClient S) : Msg := response (register_request c) new_in.

(** C40: [Start] makes a client known, and the answer it does not wait for reaches a
    [Result] that is gone.  [Start] sends the request to register; the server, in
    whatever pieces the request comes, puts the connection it came on in its
    router under the service's name, and nothing else, and answers.  [Start] has
    returned by then: its [Call] had no [out] to wait for, its [Result] was on the
    stack.  The client that receives the answer copies it through the pointer that
    is still waiting for it, which is undefined.  (An answer that comes while [Call]
    is still writing, as the tests' connections deliver it, is taken.) *)
Theorem Start_registers (dump_float : spec_float → bytes) (what : exn → bytes) {S : Type}
    (c : BusClient S) (server_name : bytes) (s : BusServer) (x : nat) (k : BusContext) (b t : buffer) (u : S) :
  contexts s !! x = Some k → idle k b → idle (transport_context c) t →
  local_service_ s = local_service_ (new_bus_server server_name) →
  sendable dump_float (register_request c) → sendable dump_float (register_response c) →
  let f1 := frame_of dump_float (register_request c) in
  let f2 := frame_of dump_float (register_response c) in
  ∃ c' ce,
    Start dump_float c = (c', Ret (OkStatus, Some (Send (Some (transport_ c)) f1))) ∧
    c' = destroy (fresh (dom (heap c))) ce ∧
    ∀ ps p, cut f1 ps p → ∃ s' b',
      server_receives dump_float what x b (ps ++ [p]) s = Ret (s', b', [Send (Some x) f2]) ∧
      router_ s' = <[service_name (service_ c) := Some x]> (router_ s) ∧
    ∀ ps p, cut f2 ps p →
      client_receives dump_float what t (ps ++ [p]) c' u = Undef ∧
      ∃ ce' t', client_receives dump_float what t (ps ++ [p]) ce u = Ret (ce', u, t', []).
Proof.
  intros Hk Hid Ht Hloc Hq Ha f1 f2.
  set (r := fresh (dom (heap c))). set (id := next_id_ (invoker_ c)).
  set (ce := set_invoker (wait_for id r (NextMsgId (invoker_ c)).2) (<[r := new_result]> (heap c)) c).
  exists (destroy r ce), ce. split.
  { unfold Start, ReportMyServiceToServer, Call_null, Call_enter, client_ACall, ACall.
    cbn [set_invoker invoker_]. rewrite call_msg_plain by (vm_compute; set_solver || done).
    fold (register_request c). by rewrite sendable_send. }
  split; [done|]. intros ps p Hcut.
  set (k' := past (len (body_of dump_float (register_request c)) + 1) k).
  destruct (server_delivered dump_float what x k b (register_request c) s
    (set_router (<[service_name (service_ c) := Some x]> (router_ s)) (set_context x k' s))
    [Send (Some x) (frame_of dump_float (register_response c))] ps p) as (b' & Hs1 & _); try done.
  { unfold server_HandleMessage. change (is_request_ (set_src (Some x) (register_request c))) with true.
    cbn match. unfold server_HandleRequestMessage.
    change (method_provider_ (set_src (Some x) (register_request c))) with (@nil ascii).
    rewrite (bool_decide_true ([] = [])) by done. cbn [orb set_context local_service_ router_].
    rewrite Hloc, (ServeMsg_found _ _ HandleRegisterMethod _
      (<[service_name (service_ c) := Some x]> (router_ s)) new_in) by done.
    cbn [mbind outcome_bind]. change (response (set_src (Some x) (register_request c)) new_in)
      with (register_response c). by rewrite sendable_send. }
  eexists _, b'. split; [exact Hs1|]. split; [done|].
  clear ps p Hcut Hs1. intros ps p Hcut. split.
  - edestruct (client_delivered dump_float what t (register_response c) (destroy r ce) u Undef ps p)
      as (t' & _ & ->); [done..| |done].
    unfold client_HandleMessage, HandleResponseMessage. cbn [id_ set_src register_response response].
    cbn [is_request_ set_transport_context invoker_ destroy set_invoker ce waitings_ wait_for heap].
    change (id_ (register_request c)) with id. rewrite lookup_insert_eq, lookup_delete_eq. done.
  - set (k2 := past (len (body_of dump_float (register_response c)) + 1) (transport_context ce)).
    assert (waitings_ (invoker_ (set_transport_context k2 ce)) !! id_ (register_response c) = Some r)
      as Hw by apply lookup_insert_eq.
    assert (heap (set_transport_context k2 ce) !! r = Some new_result) as Hh by apply lookup_insert_eq.
    destruct (client_delivered dump_float what t (register_response c) ce u _ ps p Ht Ha Hcut
      (take_response dump_float _ (set_src None (register_response c)) u r eq_refl Hw Hh)) as (t' & _ & ->).
    eexists _, t'. done.
Qed.

Lemma Start_registers_witness :
  ∃ b req c' s' b' resp,
    make kInitialSize = Ret b ∧
    Start (λ _, []) ann = (c', Ret (OkStatus, Some (Send (Some 0%nat) req))) ∧
    server_receives (λ _, []) (λ _, []) 1 b [req] hub = Ret (s', b', [Send (Some 1%nat) resp]) ∧
    router_ s' = <[bs "ann" := Some 1%nat]> (router_ hub) ∧
    client_receives (λ _, []) (λ _, []) b [resp] c' tt = Undef.
Proof.
  destruct idle_new as (b & Hb & Hid).
  edestruct (Start_registers (λ _, []) (λ _, []) ann (bs "hub") hub 1 new_context b b tt)
    as (c' & ce & H1 & _ & H2);
    [done|done|done|done|by apply sendable_check; vm_compute|by apply sendable_check; vm_compute|].
  destruct (H2 [] _ (cut_whole _ _)) as (s' & b' & H3 & H4 & H5).
  destruct (H5 [] _ (cut_whole _ _)) as (H6 & _).
  exists b, (frame_of (λ _, []) (register_request ann)), c', s', b'.
  exists (frame_of (λ _, []) (register_response ann)).
  split_and!; [exact Hb|exact H1|exact H3|exact H4|exact H6].
Defined.

(** C18: every response reaches the call it answers.  Take any run of an invoker, its
    calls, responses and ends of [Result]s in any order, of fewer than 2^32 calls,
    in which a call brings a [Result] of its own that is not destroyed before
    its answer.  The invoker never touches a [Result] that is gone; the calls are
    sent with the numbers 1, 2, 3, ...; the first response with a call's number is
    its answer, copied to its [Result], and every other response (of an unknown
    number, a second one, one that comes before its call) changes nothing. *)
Theorem invoker_refines (name : bytes) (es : list invoker_event) (n : Z) (calls : gmap Z call) :
  legal_run es (1, ∅) (n, calls) →
  ∃ v rs sent, invoker_run es (new_invoker name, ∅) = Ret (v, rs, sent) ∧
    id_ <$> sent = seqZ 1 (n - 1) ∧
    (∀ id r, waitings_ v !! id = Some r ↔ calls !! id = Some (Pending r)) ∧
    (∀ id c, calls !! id = Some c → rs !! owner c = Some (result_of c)).
Proof.
  intros Hl. destruct (keeps_run _ _ _ Hl (new_invoker name, ∅)) as (v & rs & sent & Hr & Hk & Hs & _).
  { by split; cbn; intros; try rewrite !lookup_empty in *. }
  destruct Hk as [_ _ _ Hw Hres _]. by exists v, rs, sent.
Qed.

Definition sample_answer (id : Z) (s : string) : Msg :=
  Build_Msg None id false (bs "ann") [] [] {[bs "x" := bs s]}.

Lemma invoker_refines_witness :
  ∃ v rs sent, invoker_run
    [ECall (bs "bob/add_one") new_in 10; ECall (bs "bob/add_one") new_in 11; EResponse (sample_answer 2 "two");
     EResponse (sample_answer 2 "again"); EDestroy 11; EResponse (sample_answer 1 "one")]
    (new_invoker (bs "ann"), ∅) = Ret (v, rs, sent) ∧ id_ <$> sent = [1; 2] ∧
    rs !! 10%nat = Some (result_of (Answered 10 (sample_answer 1 "one"))).
Proof.
  destruct (invoker_refines (bs "ann")
    [ECall (bs "bob/add_one") new_in 10; ECall (bs "bob/add_one") new_in 11; EResponse (sample_answer 2 "two");
     EResponse (sample_answer 2 "again"); EDestroy 11; EResponse (sample_answer 1 "one")]
    3 {[1 := Answered 10 (sample_answer 1 "one")]}) as (v & rs & sent & Hr & Hs & _ & Hres).
  - econstructor; [apply legal_call; [intros ? ?; by rewrite lookup_empty|lia]|].
    econstructor; [apply legal_call; [|lia]|].
    { intros id c [[_ <-]|[_ H]]%lookup_insert_Some; [done|by rewrite lookup_empty in H]. }
    econstructor; [apply legal_response|]. econstructor; [apply legal_response|].
    econstructor; [by eapply (legal_destroy 2)|]. econstructor; [apply legal_response|].
    match goal with |- legal_run [] ?x ?y => replace x with y; [constructor|] end.
    vm_compute. reflexivity.
  - exists v, rs, sent. split; [exact Hr|]. split; [exact Hs|].
    exact (Hres 1 (Answered 10 (sample_answer 1 "one")) eq_refl).
Defined.
