(* ===== verification/Tcp.v ===== *)
(** * TCP connections (src/cppboot/net/tcp: connection, connection_manager)

    A connection with its two buffers, the writes and reads that asio has been asked
    for, and the completions asio may deliver.  The socket is what the model takes
    for given: the bytes it was handed are [wire], in the order of the
    completions. *)

From S2P Require Import Prelude StdString Buffer BusMsg Bus.
Import Buffer.Buffer.

(** ** The connection (connection.h, connection.cc) *)

(** A write that has started: the characters from [write_pos] on in the vector of
    the output buffer, which had [write_size] characters then. *)
Record pending_write : Type := { write_pos : Z; write_len : Z; write_size : Z }.

Record TcpConn : Type := {
  state_ : ConnState;
  is_open : bool;                 (* of the socket *)
  input_buffer_ : buffer;
  output_buffer_ : buffer;
  reading : bool;                 (* a read has started *)
  posted : nat;                   (* calls of WriteToSocket that were posted *)
  writes : list pending_write;    (* in the order in which they started *)
  wire : bytes;
  notified : list ConnState;      (* the calls of conn_callback_ *)
}.

Definition set_output (b : buffer) (c : TcpConn) : TcpConn :=
  {| state_ := state_ c; is_open := is_open c; input_buffer_ := input_buffer_ c; output_buffer_ := b;
     reading := reading c; posted := posted c; writes := writes c; wire := wire c; notified := notified c |}.
Definition set_posted (n : nat) (c : TcpConn) : TcpConn :=
  {| state_ := state_ c; is_open := is_open c; input_buffer_ := input_buffer_ c;
     output_buffer_ := output_buffer_ c; reading := reading c; posted := n; writes := writes c;
     wire := wire c; notified := notified c |}.
Definition set_writes (l : list pending_write) (c : TcpConn) : TcpConn :=
  {| state_ := state_ c; is_open := is_open c; input_buffer_ := input_buffer_ c;
     output_buffer_ := output_buffer_ c; reading := reading c; posted := posted c; writes := l;
     wire := wire c; notified := notified c |}.
Definition set_wire (w : bytes) (c : TcpConn) : TcpConn :=
  {| state_ := state_ c; is_open := is_open c; input_buffer_ := input_buffer_ c;
     output_buffer_ := output_buffer_ c; reading := reading c; posted := posted c; writes := writes c;
     wire := w; notified := notified c |}.
Definition set_input (b : buffer) (reads : bool) (c : TcpConn) : TcpConn :=
  {| state_ := state_ c; is_open := is_open c; input_buffer_ := b; output_buffer_ := output_buffer_ c;
     reading := reads; posted := posted c; writes := writes c; wire := wire c; notified := notified c |}.
Definition set_state (s : ConnState) (opened : bool) (c : TcpConn) : TcpConn :=
  {| state_ := s; is_open := opened; input_buffer_ := input_buffer_ c; output_buffer_ := output_buffer_ c;
     reading := reading c; posted := posted c; writes := writes c; wire := wire c;
     notified := notified c ++ [s] |}.

(** [TcpConn(socket)], with the socket connected. *)
Definition new_conn : outcome TcpConn :=
  i ← make kInitialSize;
  o ← make kInitialSize;
  Ret {| state_ := kDisconnected; is_open := true; input_buffer_ := i; output_buffer_ := o;
         reading := false; posted := 0; writes := []; wire := []; notified := [] |}.

(** It starts a read; the completion is [ReadDone] or [ReadError] below. *)
Definition ReadFromSocket (c : TcpConn) : TcpConn := set_input (input_buffer_ c) true c.

Definition Start (c : TcpConn) : TcpConn := ReadFromSocket (set_state kConnected (is_open c) c).

(** [shutdown] of a socket that is not open throws. *)
Definition Stop (c : TcpConn) : outcome TcpConn :=
  if is_open c then Ret (set_state kDisconnected false c) else Throw runtime_error.

Definition Send (data : bytes) (c : TcpConn) : outcome TcpConn :=
  b ← Append data (output_buffer_ c);
  Ret (set_posted (S (posted c)) (set_output b c)).

(** It starts a write of all there is in the buffer; the completion is [WriteDone]
    or [WriteError]. *)
Definition WriteToSocket (c : TcpConn) : TcpConn :=
  let b := output_buffer_ c in
  if negb (ReadableBytes b =? 0) then
    set_writes (writes c ++ [{| write_pos := reader_ b; write_len := ReadableBytes b;
                                write_size := len (buffer_ b) |}]) c
  else c.

(** The characters of a write when the socket takes them.  A vector that has grown
    may have moved, and its old characters be gone. *)
Definition write_bytes (w : pending_write) (b : buffer) : outcome bytes :=
  if len (buffer_ b) =? write_size w then read_at (write_pos w) (write_len w) (buffer_ b) else Undef.

Inductive tcp_error : Set := operation_aborted | other_error.

(** What happens to a connection: a call of [Send], a posted call that runs, and
    the completions. *)
Inductive tcp_event : Type :=
  | SendCall (data : bytes)
  | Posted
  | WriteDone (i : nat) (k : nat)           (* the i-th write took k characters *)
  | WriteError (i : nat) (e : tcp_error)
  | ReadDone (data : bytes)
  | ReadError (e : tcp_error).

Definition on_error (e : tcp_error) (c : TcpConn) : outcome TcpConn :=
  match e with operation_aborted => Ret c | other_error => Stop c end.

Section run.
(** [receive_callback_], and what it leaves of the input buffer. *)
Context (receive_callback_ : buffer → outcome buffer).

Definition tcp_step (e : tcp_event) (c : TcpConn) : outcome TcpConn :=
  match e with
  | SendCall data => Send data c
  | Posted => Ret (WriteToSocket (set_posted (posted c - 1) c))
  | WriteDone i k =>
      w ← or_undef (writes c !! i);
      data ← write_bytes w (output_buffer_ c);
      let c := set_wire (wire c ++ take k data) (set_writes (delete i (writes c)) c) in
      let b := Retrive (Z.of_nat k) (output_buffer_ c) in
      let c := set_output b c in
      Ret (if ReadableBytes b =? 0 then c else WriteToSocket c)
  | WriteError i e => on_error e (set_writes (delete i (writes c)) c)
  | ReadDone data =>
      b ← Append data (input_buffer_ c);
      b ← receive_callback_ b;
      Ret (ReadFromSocket (set_input b false c))
  | ReadError e => on_error e (set_input (input_buffer_ c) false c)
  end.

(** Operations are aborted when the socket is closed. *)
Definition may_fail (e : tcp_error) (c : TcpConn) : bool :=
  match e with operation_aborted => negb (is_open c) | other_error => true end.

(** What asio may do: run what was posted, complete what was started; a write of a
    socket that is open takes at least one character. *)
Definition tcp_enabled (e : tcp_event) (c : TcpConn) : bool :=
  match e with
  | SendCall _ => true
  | Posted => (0 <? posted c)%nat
  | WriteDone i k =>
      is_open c &&
      match writes c !! i with Some w => (1 <=? Z.of_nat k) && (Z.of_nat k <=? write_len w) | None => false end
  | WriteError i e => bool_decide (is_Some (writes c !! i)) && may_fail e c
  | ReadDone data => is_open c && reading c && negb (bool_decide (data = []))
  | ReadError e => reading c && may_fail e c
  end.

Inductive tcp_runs : TcpConn → list tcp_event → TcpConn → Prop :=
  | tcp_nil c : tcp_runs c [] c
  | tcp_cons c e c' es c'' :
      tcp_enabled e c = true → tcp_step e c = Ret c' → tcp_runs c' es c'' → tcp_runs c (e :: es) c''.

(** The connection after a run; [None] if it is not a run. *)
Fixpoint tcp_run (es : list tcp_event) (c : TcpConn) : option TcpConn :=
  match es with
  | [] => Some c
  | e :: es => if tcp_enabled e c then match tcp_step e c with Ret c => tcp_run es c | _ => None end else None
  end.

Lemma tcp_run_runs es c c' : tcp_run es c = Some c' → tcp_runs c es c'.
Proof.
  revert c. induction es as [|e es IH]; intros c; cbn [tcp_run]; [by intros [= ->]; constructor|].
  destruct (tcp_enabled e c) eqn:He; [|done]. destruct (tcp_step e c) as [c1| | | |] eqn:Hs; try done.
  intros H. econstructor; eauto.
Qed.

End run.

(** ** The manager (connection_manager.cc), on the connections by their addresses *)

Record TcpConnManager : Type := { connections_ : gset nat; objects : gmap nat TcpConn }.

Definition manager_Start (p : nat) (m : TcpConnManager) : outcome TcpConnManager :=
  c ← or_undef (objects m !! p);
  Ret {| connections_ := {[p]} ∪ connections_ m; objects := <[p := Start c]> (objects m) |}.

Definition manager_Stop (p : nat) (m : TcpConnManager) : outcome TcpConnManager :=
  c ← or_undef (objects m !! p);
  c ← Stop c;
  Ret {| connections_ := connections_ m ∖ {[p]}; objects := <[p := c]> (objects m) |}.

(** A loop over the set, in the order of the addresses. *)
Fixpoint for_each (f : TcpConn → outcome TcpConn) (ps : list nat) (os : gmap nat TcpConn) :
    outcome (gmap nat TcpConn) :=
  match ps with
  | [] => Ret os
  | p :: ps => c ← or_undef (os !! p); c ← f c; for_each f ps (<[p := c]> os)
  end.

Definition in_address_order (s : gset nat) : list nat := merge_sort (≤)%nat (elements s).

Definition StopAll (m : TcpConnManager) : outcome TcpConnManager :=
  os ← for_each Stop (in_address_order (connections_ m)) (objects m);
  Ret {| connections_ := ∅; objects := os |}.

(** [noexcept] *)
Definition Boardcast (data : bytes) (m : TcpConnManager) : outcome TcpConnManager :=
  noexcept (os ← for_each (Send data) (in_address_order (connections_ m)) (objects m);
            Ret {| connections_ := connections_ m; objects := os |}).

(** ** The server (server.cc)

    [accepting]: an accept has started.  The address of a new connection is one
    that no object has. *)

Record TcpServer : Type := {
  acceptor_open : bool;
  accepting : bool;
  connection_manager_ : TcpConnManager;
}.

Definition DoAccept (s : TcpServer) : TcpServer :=
  {| acceptor_open := acceptor_open s; accepting := true; connection_manager_ := connection_manager_ s |}.

(** The completion of the accept; with an error the socket that comes with it is
    not open, and a connection is made all the same. *)
Definition on_accept (error : bool) (s : TcpServer) : outcome TcpServer :=
  if negb (acceptor_open s) then
    Ret {| acceptor_open := false; accepting := false; connection_manager_ := connection_manager_ s |}
  else
    c ← new_conn;
    let c := {| state_ := state_ c; is_open := negb error; input_buffer_ := input_buffer_ c;
                output_buffer_ := output_buffer_ c; reading := false; posted := 0; writes := [];
                wire := []; notified := [] |} in
    let m := connection_manager_ s in
    let p := fresh (dom (objects m)) in
    m ← manager_Start p {| connections_ := connections_ m; objects := <[p := c]> (objects m) |};
    Ret (DoAccept {| acceptor_open := true; accepting := false; connection_manager_ := m |}).

Definition server_Stop (s : TcpServer) : TcpServer :=
  {| acceptor_open := false; accepting := accepting s; connection_manager_ := connection_manager_ s |}.

Definition server_Boardcast (data : bytes) (s : TcpServer) : outcome TcpServer :=
  m ← Boardcast data (connection_manager_ s);
  Ret {| acceptor_open := acceptor_open s; accepting := accepting s; connection_manager_ := m |}.

(** ** Sending without overlap *)

(** Nothing is under way: no call is posted and no write has started. *)
Definition quiet (c : TcpConn) : Prop := posted c = 0%nat ∧ writes c = [].

(** The bytes of the calls of [Send]. *)
Definition sent_by (e : tcp_event) : bytes := match e with SendCall data => data | _ => [] end.
Definition sent_in (es : list tcp_event) : bytes := concat (sent_by <$> es).

(** Runs in which [Send] is called when everything sent before has been written. *)
Inductive polite_runs (f : buffer → outcome buffer) : TcpConn → list tcp_event → TcpConn → Prop :=
  | polite_nil c : polite_runs f c [] c
  | polite_cons c e c' es c'' :
      tcp_enabled e c = true → (∀ data, e = SendCall data → quiet c) →
      tcp_step f e c = Ret c' → polite_runs f c' es c'' → polite_runs f c (e :: es) c''.

(** * Lemmas *)

(** Where the bytes are: those that were sent are on the wire or in the buffer, and
    one call or one write takes care of the buffer. *)
Record in_order (sent : bytes) (c : TcpConn) : Prop := {
  order_inv : inv (output_buffer_ c);
  order_writer : writer_ (output_buffer_ c) <= 8 + len sent;
  order_prefix : wire c `prefix_of` sent;
  order_open : is_open c = true →
    wire c ++ content (output_buffer_ c) = sent ∧
    (quiet c ∧ content (output_buffer_ c) = [] ∨
     posted c = 1%nat ∧ writes c = [] ∨
     posted c = 0%nat ∧ content (output_buffer_ c) ≠ [] ∧
     writes c = [{| write_pos := reader_ (output_buffer_ c); write_len := ReadableBytes (output_buffer_ c);
                    write_size := len (buffer_ (output_buffer_ c)) |}]);
}.

Lemma readable_nil b : inv b → (ReadableBytes b =? 0) = true ↔ content b = [].
Proof.
  intros Hi. rewrite <-len_content by done. rewrite Z.eqb_eq. split; [|by intros ->].
  intros H. apply nil_length_inv. lia.
Qed.

(** The bytes of a write that starts where the buffer's do. *)
Lemma write_bytes_content b : inv b →
  write_bytes {| write_pos := reader_ b; write_len := ReadableBytes b; write_size := len (buffer_ b) |} b =
  Ret (content b).
Proof.
  intros Hi. unfold write_bytes. cbn [write_pos write_len write_size]. rewrite Z.eqb_refl.
  rewrite readable_eq by done. open_inv Hi. unfold read_at.
  rewrite !(proj2 (Z.leb_le _ _)) by lia. done.
Qed.

Lemma order_send sent data c c' :
  in_order sent c → quiet c → len sent + len data + 8 <= vector_max →
  Send data c = Ret c' → in_order (sent ++ data) c'.
Proof.
  intros [Hi Hw Hp Ho] [Hq1 Hq2] Hroom. unfold Send. pose proof (Zle_0_nat (length data)).
  destruct (Append_spec data (output_buffer_ c) Hi ltac:(right; lia)) as (b & -> & Hi' & Hc' & Hw').
  cbn [mbind outcome_bind]. intros [= <-]. split; cbn [set_posted set_output output_buffer_ wire is_open].
  - done.
  - rewrite len_app. lia.
  - by apply prefix_app_r.
  - intros Hopen. destruct (Ho Hopen) as [He _]. split; [by rewrite Hc', app_assoc, He|].
    right. left. cbn. by rewrite Hq1, Hq2.
Qed.

(** [WriteToSocket] with nothing else under way. *)
Lemma order_write sent c :
  inv (output_buffer_ c) → writer_ (output_buffer_ c) <= 8 + len sent → wire c `prefix_of` sent →
  posted c = 0%nat → (is_open c = true → writes c = [] ∧ wire c ++ content (output_buffer_ c) = sent) →
  in_order sent (WriteToSocket c).
Proof.
  intros Hi Hw Hp Hq Ho. unfold WriteToSocket.
  destruct (ReadableBytes (output_buffer_ c) =? 0) eqn:E; cbn [negb].
  - apply readable_nil in E; [|done]. split; [done..|]. intros Hopen. destruct (Ho Hopen) as [H1 H2].
    split; [done|]. by left.
  - split; cbn [set_writes output_buffer_ wire is_open posted writes]; [done..|].
    intros Hopen. destruct (Ho Hopen) as [H1 H2]. split; [done|]. right. right. split; [done|].
    split; [|by rewrite H1]. intros Hnil. apply readable_nil in Hnil; [|done]. congruence.
Qed.

Lemma order_closed sent c :
  inv (output_buffer_ c) → writer_ (output_buffer_ c) <= 8 + len sent → wire c `prefix_of` sent →
  is_open c = false → in_order sent c.
Proof. intros Hi Hw Hp Hc. split; [done..|]. by rewrite Hc. Qed.

(** Only the output matters. *)
Lemma order_same sent c c' :
  in_order sent c → output_buffer_ c' = output_buffer_ c → wire c' = wire c → is_open c' = is_open c →
  posted c' = posted c → writes c' = writes c → in_order sent c'.
Proof.
  intros [Hi Hw Hp Ho] E1 E2 E3 E4 E5. split; rewrite ?E1, ?E2, ?E3; [done..|].
  intros Hopen. unfold quiet in *. rewrite E4, E5. auto.
Qed.

Lemma order_error sent e c c' :
  inv (output_buffer_ c) → writer_ (output_buffer_ c) <= 8 + len sent → wire c `prefix_of` sent →
  may_fail e c = true → on_error e c = Ret c' → in_order sent c'.
Proof.
  intros Hi Hw Hp Hf. destruct e; cbn [may_fail on_error] in *.
  - intros [= <-]. apply order_closed; [done..|]. by apply negb_true_iff.
  - unfold Stop. destruct (is_open c); [|done]. intros [= <-]. by apply order_closed.
Qed.

Lemma order_done sent c w i k data :
  in_order sent c → is_open c = true → writes c !! i = Some w → 1 <= Z.of_nat k <= write_len w →
  write_bytes w (output_buffer_ c) = Ret data →
  in_order sent (WriteToSocket (set_output (Retrive (Z.of_nat k) (output_buffer_ c))
    (set_wire (wire c ++ take k data) (set_writes (delete i (writes c)) c)))).
Proof.
  intros [Hi Hw Hp Ho] Hopen Hl Hk Hb. destruct (Ho Hopen) as [He [[[_ Hq] _]|[[_ Hq]|(Hq & Hc & Hws)]]];
    [by rewrite Hq in Hl..|]. rewrite Hws in *. destruct i as [|i]; [|done].
  injection Hl as <-. rewrite write_bytes_content in Hb by done. injection Hb as <-.
  destruct (Retrive_spec (Z.of_nat k) (output_buffer_ c) Hi ltac:(lia)) as (Hi' & Hc' & Hw').
  rewrite Nat2Z.id in Hc'.
  assert ((wire c ++ take k (content (output_buffer_ c))) ++ drop k (content (output_buffer_ c)) = sent) as Hs.
  { by rewrite <-app_assoc, take_drop. }
  apply order_write; cbn [set_output set_wire set_writes output_buffer_ wire posted is_open writes]; try done.
  - lia.
  - rewrite <-Hs. by apply prefix_app_r.
  - intros _. split; [done|]. by rewrite Hc'.
Qed.

Lemma order_step f e sent c c' :
  in_order sent c → tcp_enabled e c = true → (∀ data, e = SendCall data → quiet c) →
  len (sent ++ sent_by e) + 8 <= vector_max → tcp_step f e c = Ret c' → in_order (sent ++ sent_by e) c'.
Proof.
  intros Hok Hen Hq Hroom Hstep. destruct e as [data| |i k|i e|data|e]; cbn [sent_by tcp_enabled tcp_step] in *.
  1: { rewrite len_app in Hroom. eapply order_send; eauto. }
  all: rewrite app_nil_r in *; pose proof Hok as [Hi Hw Hp Ho].
  - injection Hstep as <-. destruct (is_open c) eqn:Hopen.
    + destruct (Ho eq_refl) as [He [[[Hz _] _]|[[Hz Hws]|(Hz & _)]]]; rewrite Hz in Hen; try done.
      apply order_write; cbn; try done. by rewrite Hz.
    + unfold WriteToSocket. destruct (negb _); by apply order_closed.
  - apply andb_true_iff in Hen as [Hopen Hen]. destruct (writes c !! i) as [w|] eqn:Hl; [|done].
    cbn [or_undef mbind outcome_bind] in Hstep. bool_hyps.
    destruct (write_bytes w (output_buffer_ c)) as [data| | | |] eqn:Hb; try done.
    cbn [mbind outcome_bind] in Hstep. injection Hstep as <-.
    pose proof (order_done sent c w i k data Hok Hopen Hl ltac:(lia) Hb) as Hd.
    unfold WriteToSocket in *. cbn [set_output output_buffer_] in *.
    destruct (ReadableBytes (Retrive _ _) =? 0) eqn:E; cbn [negb] in *; done.
  - apply andb_true_iff in Hen as [_ Hf]. eapply order_error; [..|exact Hstep]; done.
  - destruct (Append data (input_buffer_ c)) as [b| | | |]; try done. cbn [mbind outcome_bind] in Hstep.
    destruct (f b) as [b'| | | |]; try done. injection Hstep as <-. by apply (order_same _ c).
  - apply andb_true_iff in Hen as [_ Hf]. eapply order_error; [..|exact Hstep]; done.
Qed.

Lemma order_runs f c es c' : polite_runs f c es c' → ∀ sent, in_order sent c →
  len (sent ++ sent_in es) + 8 <= vector_max → in_order (sent ++ sent_in es) c'.
Proof.
  induction 1 as [c|c e c' es c'' Hen Hq Hs _ IH]; intros sent Hok Hroom.
  { unfold sent_in. cbn. by rewrite app_nil_r. }
  change (sent_in (e :: es)) with (sent_by e ++ sent_in es) in *. rewrite app_assoc in *. apply IH; [|done].
  eapply order_step; eauto. rewrite len_app in Hroom. lia.
Qed.

(** Something is left to do, and asio can do it. *)
Lemma order_progress f sent c : in_order sent c → is_open c = true → ¬ quiet c →
  ∃ e c', sent_by e = [] ∧ tcp_enabled e c = true ∧ tcp_step f e c = Ret c'.
Proof.
  intros [Hi Hw Hp Ho] Hopen Hq. destruct (Ho Hopen) as [He [[Hq' _]|[[Hz _]|(_ & Hc & Hws)]]]; [done|..].
  - eexists Posted, _. split; [done|]. split; [|done]. cbn. by rewrite Hz.
  - pose proof (readable_nil _ Hi) as Hr. pose proof (len_content _ Hi) as Hl.
    assert (1 <= ReadableBytes (output_buffer_ c)).
    { rewrite <-Hl. destruct (content (output_buffer_ c)); [done|]. cbn. lia. }
    eexists (WriteDone 0 1), _. split; [done|]. cbn [tcp_enabled tcp_step]. rewrite Hws, Hopen.
    cbn [lookup list_lookup or_undef mbind outcome_bind write_len]. rewrite write_bytes_content by done.
    cbn [mbind outcome_bind]. split; [|done]. cbn [andb].
    apply andb_true_iff. split; [done|]. apply Z.leb_le. lia.
Qed.

(** The two runs of overlapping sends, computed. *)
Definition after (f : buffer → outcome buffer) (es : list tcp_event) : outcome (option TcpConn) :=
  c ← new_conn; Ret (tcp_run f es (Start c)).

Definition overlapping : list tcp_event :=
  [SendCall (bs "A"); SendCall (bs "B"); Posted; Posted; WriteDone 0 2; WriteDone 0 2].
Definition late : list tcp_event := [ReadError other_error; SendCall (bs "A"); Posted].

Lemma overlapping_computed f :
  match after f overlapping with Ret (Some c) => wire c = bs "ABAB" | _ => False end.
Proof. vm_compute. reflexivity. Qed.

Lemma late_computed f :
  match after f late with
  | Ret (Some c) => tcp_enabled (WriteError 0 other_error) c = true ∧
                    tcp_step f (WriteError 0 other_error) c = Throw runtime_error
  | _ => False
  end.
Proof. vm_compute. split; reflexivity. Qed.

Lemma after_new f es c0 : new_conn = Ret c0 → after f es = Ret (tcp_run f es (Start c0)).
Proof. intros H. unfold after. by rewrite H. Qed.

Lemma overlapping_runs f c0 : new_conn = Ret c0 →
  ∃ c, tcp_runs f (Start c0) overlapping c ∧ wire c = bs "ABAB".
Proof.
  intros Hnew. pose proof (overlapping_computed f) as H. rewrite (after_new f _ c0 Hnew) in H.
  destruct (tcp_run f overlapping (Start c0)) as [c|] eqn:E; [|destruct H].
  exists c. split; [exact (tcp_run_runs f _ _ _ E)|exact H].
Qed.

Lemma late_runs f c0 : new_conn = Ret c0 →
  ∃ c, tcp_runs f (Start c0) late c ∧ tcp_enabled (WriteError 0 other_error) c = true ∧
    tcp_step f (WriteError 0 other_error) c = Throw runtime_error.
Proof.
  intros Hnew. pose proof (late_computed f) as H. rewrite (after_new f _ c0 Hnew) in H.
  destruct (tcp_run f late (Start c0)) as [c|] eqn:E; [|destruct H].
  exists c. split; [exact (tcp_run_runs f _ _ _ E)|exact H].
Qed.

(** * Properties *)

(** C34: what is sent arrives once and in order if sends do not overlap.  Take any
    run of a new connection, whatever asio completes and however much each write
    takes, in which [Send] is called when nothing is under way.  What the socket has
    taken is a part, from the front, of what was sent; while the connection is open
    the rest is in the buffer, and asio can go on until nothing is under way: then
    all of it is on the wire.  Without that discipline both go wrong: two calls of
    [Send] before the posted one runs start two writes of the same bytes; and a
    [Send] on a connection that has ended throws out of the completion handler. *)
Theorem tcp_in_order (f : buffer → outcome buffer) (c0 c : TcpConn) (es : list tcp_event) :
  new_conn = Ret c0 →
  (polite_runs f (Start c0) es c → len (sent_in es) + 8 <= vector_max →
   wire c `prefix_of` sent_in es ∧
   (is_open c = true → wire c ++ content (output_buffer_ c) = sent_in es ∧
      (quiet c → wire c = sent_in es) ∧
      (¬ quiet c → ∃ e c', sent_by e = [] ∧ tcp_enabled e c = true ∧ tcp_step f e c = Ret c'))) ∧
  (∃ c, tcp_runs f (Start c0) overlapping c ∧ wire c = bs "ABAB") ∧
  (∃ c, tcp_runs f (Start c0) late c ∧
     tcp_enabled (WriteError 0 other_error) c = true ∧
     tcp_step f (WriteError 0 other_error) c = Throw runtime_error).
Proof.
  intros Hnew. split.
  - intros Hr Hroom.
    assert (in_order [] (Start c0)) as H0.
    { unfold new_conn in Hnew.
      destruct (inv_make kInitialSize ltac:(done) ltac:(done)) as (b & Hb & Hi & Hc & Hw & _).
      rewrite Hb in Hnew. injection Hnew as <-. split; cbn; [done|lia|done|]. intros _.
      split; [done|]. by left. }
    pose proof (order_runs f _ es c Hr [] H0 Hroom) as Hok. cbn [app] in Hok.
    split; [apply Hok|]. intros Hopen. destruct (order_open _ _ Hok Hopen) as [He Hs].
    split; [done|]. split; [|intros Hq; by eapply order_progress].
    intros Hq. destruct Hs as [[_ Hc]|[[Hz _]|(_ & Hc & Hws)]].
    + by rewrite Hc, app_nil_r in He.
    + destruct Hq as [Hq _]. by rewrite Hq in Hz.
    + destruct Hq as [_ Hq]. by rewrite Hq in Hws.
  - split; [by apply overlapping_runs|by apply late_runs].
Qed.

Definition two_pieces : list tcp_event := [SendCall (bs "AB"); Posted; WriteDone 0 1; WriteDone 0 1].

Lemma two_pieces_computed :
  match after Ret two_pieces with Ret (Some c) => quiet c ∧ is_open c = true | _ => False end.
Proof. vm_compute. repeat split. Qed.

(** Runs with one call of [Send], the first event. *)
Lemma one_send_polite f c data es c' :
  quiet c → tcp_runs f c (SendCall data :: es) c' → Forall (λ e, ∀ d, e ≠ SendCall d) es →
  polite_runs f c (SendCall data :: es) c'.
Proof.
  intros Hq Hr Hes. inversion Hr as [|? ? c1 ? ? He Hs Hr']; subst. econstructor; [done|done|done|].
  clear -Hr' Hes. induction Hr' as [|c e c1 es c' He Hs Hr IH]; [constructor|].
  apply Forall_cons in Hes as [Hne Hes]. econstructor; eauto. intros d ->. by destruct (Hne d).
Qed.

Lemma two_pieces_polite c0 : new_conn = Ret c0 →
  ∃ c, polite_runs Ret (Start c0) two_pieces c ∧ quiet c ∧ is_open c = true.
Proof.
  intros Hnew. pose proof two_pieces_computed as H. rewrite (after_new Ret _ c0 Hnew) in H.
  destruct (tcp_run Ret two_pieces (Start c0)) as [c|] eqn:E; [|destruct H].
  exists c. split; [|exact H]. apply one_send_polite; [|exact (tcp_run_runs Ret _ _ _ E)|].
  - unfold new_conn in Hnew. destruct (make kInitialSize); [|done..]. by injection Hnew as <-.
  - by repeat constructor.
Qed.

Lemma tcp_in_order_witness :
  ∃ c0 c, new_conn = Ret c0 ∧ polite_runs Ret (Start c0) two_pieces c ∧ quiet c ∧ wire c = bs "AB".
Proof.
  destruct (inv_make kInitialSize ltac:(done) ltac:(done)) as (b & Hb & _).
  assert (∃ c0, new_conn = Ret c0) as [c0 Hnew] by (unfold new_conn; rewrite Hb; by eexists).
  destruct (two_pieces_polite c0 Hnew) as (c & Hr & Hq & Ho). exists c0, c. split_and!; [done..|].
  destruct (tcp_in_order Ret c0 c two_pieces Hnew) as [H _].
  destruct (H Hr ltac:(unfold vector_max; cbn; lia)) as [_ H2]. destruct (H2 Ho) as (_ & H3 & _).
  exact (H3 Hq).
Defined.
