(* ===== verification/ChatRoom.v ===== *)
(** * The chat room (src/examples/chat_room/chat_room.cc; src/cppboot/net/tcp: the texts of
    addresses, [TcpServer::Listen])

    A server whose receive callback sends what one connection says to all of them, with the
    address of the speaker in front.  The state is the server of Tcp.v and what has been
    printed; an event is the run of one completion handler. *)

From S2P Require Import Prelude StdString Buffer FmtWrite Fmt Log Bus Tcp.
Import Buffer.Buffer.

Section room.
(** [socket_.remote_endpoint()] of a connection whose socket is open or not: the text of its
    address and its port, or an exception. *)
Context (remote_endpoint : nat → bool → option (bytes * Z)).

(** ** The texts of addresses (connection.cc); [noexcept] *)

Definition endpoint_text (ep : bytes * Z) : outcome bytes := format (bs "{}:{}") [AString ep.1; AUInt ep.2].

Definition GetRemoteAddress (p : nat) (c : TcpConn) : outcome bytes :=
  match remote_endpoint p (is_open c) with
  | Some ep => noexcept (endpoint_text ep)
  | None => Ret []
  end.

(** ** The room *)

Record room : Type := Room { svr : TcpServer; stdout : bytes }.

Definition put (p : nat) (c : TcpConn) (r : room) : room :=
  let m := connection_manager_ (svr r) in
  Room {| acceptor_open := acceptor_open (svr r); accepting := accepting (svr r);
          connection_manager_ := {| connections_ := connections_ m; objects := <[p := c]> (objects m) |} |} (stdout r).
Definition conn_at (p : nat) (r : room) : outcome TcpConn := or_undef (objects (connection_manager_ (svr r)) !! p).

Definition print_line (fmt : bytes) (args : list format_arg) (out : bytes) : outcome bytes :=
  println (λ t o, Ret (o ++ t)) fmt args out.

(** [set_conn_callback]: what it prints, for the changes of state from one version of a
    connection to the next. *)
Definition conn_callback (s : ConnState) (out : bytes) : outcome bytes :=
  match s with
  | kConnected => print_line (bs "conn: connected") [] out
  | kDisconnected => print_line (bs "conn: disconnected") [] out
  end.

Fixpoint conn_callbacks (l : list ConnState) (out : bytes) : outcome bytes :=
  match l with [] => Ret out | s :: l => out ← conn_callback s out; conn_callbacks l out end.

(** [set_receive_callback] *)
Definition receive_callback (p : nat) (r : room) : outcome room :=
  myconn ← conn_at p r;
  username ← GetRemoteAddress p myconn;
  s ← ToString (input_buffer_ myconn);
  out ← print_line (bs "recv from {}: {}") [AString username; AString s] (stdout r);
  let reply := username ++ bs ": " ++ s in
  svr ← server_Boardcast reply (svr r);
  let r := Room svr out in
  c ← conn_at p r;
  Ret (put p (set_input (RetriveAll (input_buffer_ c)) (reading c) c) r).

(** [svr.Listen]: when resolving, opening and binding do not throw. *)
Definition Listen (opened : bool) : outcome TcpServer :=
  if opened then
    Ret (Tcp.DoAccept {| acceptor_open := true; accepting := false;
                         connection_manager_ := {| connections_ := ∅; objects := ∅ |} |})
  else Throw runtime_error.

Inductive chat_event : Type :=
  | Accept (error : bool)
  | OnConn (p : nat) (e : tcp_event).

(** The completion of a read of the connection [p]. *)
Definition on_read (p : nat) (data : bytes) (r : room) : outcome room :=
  c ← conn_at p r;
  b ← Append data (input_buffer_ c);
  r ← receive_callback p (put p (set_input b false c) r);
  c ← conn_at p r;
  Ret (put p (ReadFromSocket c) r).

Definition chat_step (e : chat_event) (r : room) : outcome room :=
  match e with
  | Accept error =>
      svr' ← Tcp.on_accept error (svr r);
      out ← (if acceptor_open (svr r) then conn_callback kConnected (stdout r) else Ret (stdout r));
      Ret (Room svr' out)
  | OnConn p (ReadDone data) => on_read p data r
  | OnConn p e =>
      c ← conn_at p r;
      c' ← tcp_step Ret e c;
      out ← conn_callbacks (drop (length (notified c)) (notified c')) (stdout r);
      Ret (put p c' (Room (svr r) out))
  end.

(** What asio may do; a read fills at most the array of 8192 characters, and nobody but the
    callback sends. *)
Definition chat_enabled (e : chat_event) (r : room) : bool :=
  match e with
  | Accept _ => accepting (svr r)
  | OnConn p e =>
      match objects (connection_manager_ (svr r)) !! p with
      | Some c => tcp_enabled e c && match e with
                                     | SendCall _ => false
                                     | ReadDone data => len data <=? 8192
                                     | _ => true
                                     end
      | None => false
      end
  end.

Fixpoint chat_run (es : list chat_event) (r : room) : option room :=
  match es with
  | [] => Some r
  | e :: es => if chat_enabled e r then match chat_step e r with Ret r => chat_run es r | _ => None end else None
  end.

(** ** What the members of the room hear

    For each connection, the messages since it joined: the speaker's address, a colon, and
    what was read. *)
Definition hear (e : chat_event) (r : room) (heard : gmap nat bytes) : gmap nat bytes :=
  let m := connection_manager_ (svr r) in
  match e with
  | Accept _ => if acceptor_open (svr r) then <[fresh (dom (objects m)) := []]> heard else heard
  | OnConn p (ReadDone data) =>
      match c ← objects m !! p; Some (GetRemoteAddress p c) with
      | Some (Ret username) => (λ t, t ++ username ++ bs ": " ++ data) <$> heard
      | _ => heard
      end
  | _ => heard
  end.

(** Runs in which something is read when everything sent before has been written. *)
Inductive polite_chat : room → gmap nat bytes → list chat_event → room → gmap nat bytes → Prop :=
  | chat_nil r h : polite_chat r h [] r h
  | chat_cons r h e r' es r'' h'' :
      chat_enabled e r = true →
      (∀ q data, e = OnConn q (ReadDone data) → map_Forall (λ _ c, quiet c) (objects (connection_manager_ (svr r)))) →
      chat_step e r = Ret r' → polite_chat r' (hear e r h) es r'' h'' → polite_chat r h (e :: es) r'' h''.

(** * Lemmas *)

Definition objs (r : room) : gmap nat TcpConn := objects (connection_manager_ (svr r)).
Definition members (r : room) : gset nat := connections_ (connection_manager_ (svr r)).

Lemma conn_at_Ret p r c : conn_at p r = Ret c ↔ objs r !! p = Some c.
Proof. unfold conn_at, objs. destruct (_ !! p); cbn; split; congruence. Qed.

Lemma objs_put p c r : objs (put p c r) = <[p := c]> (objs r).
Proof. done. Qed.
Lemma members_put p c r : members (put p c r) = members r.
Proof. done. Qed.

(** A loop over distinct connections changes each of them once. *)
Lemma for_each_spec f ps : ∀ os os', NoDup ps → for_each f ps os = Ret os' → ∀ p,
  if decide (p ∈ ps) then ∃ c c', os !! p = Some c ∧ f c = Ret c' ∧ os' !! p = Some c' else os' !! p = os !! p.
Proof.
  induction ps as [|q ps IH]; intros os os' Hnd H p; cbn [for_each] in H.
  { injection H as <-. by rewrite decide_False by apply not_elem_of_nil. }
  apply NoDup_cons in Hnd as [Hq Hnd]. apply bind_Ret in H as (c & Hc & H). apply bind_Ret in H as (c' & Hf & H).
  destruct (os !! q) as [c0|] eqn:Eq; [|done]. injection Hc as ->. specialize (IH _ _ Hnd H p).
  destruct (decide (p = q)) as [->|Hne].
  - rewrite decide_False in IH by done. rewrite decide_True by by left. rewrite lookup_insert_eq in IH. eauto.
  - rewrite lookup_insert_ne in IH by done. destruct (decide (p ∈ ps)) as [Hp|Hp].
    + rewrite decide_True by by right. done.
    + rewrite decide_False; [done|]. by intros [->|?]%elem_of_cons.
Qed.

Lemma Boardcast_spec reply s s' : connections_ (connection_manager_ s) = dom (objects (connection_manager_ s)) →
  server_Boardcast reply s = Ret s' →
  connections_ (connection_manager_ s') = connections_ (connection_manager_ s) ∧
  acceptor_open s' = acceptor_open s ∧ accepting s' = accepting s ∧
  ∀ p, match objects (connection_manager_ s) !! p with
       | Some c => ∃ c', Send reply c = Ret c' ∧ objects (connection_manager_ s') !! p = Some c'
       | None => objects (connection_manager_ s') !! p = None
       end.
Proof.
  intros Hd H. unfold server_Boardcast, Boardcast in H. apply bind_Ret in H as (m & Hm & H). injection H as <-. cbn.
  destruct (for_each _ _ _) as [os| | | |] eqn:E; try done. cbn in Hm. injection Hm as <-. cbn. split_and!; [done..|].
  intros p. assert (NoDup (in_address_order (connections_ (connection_manager_ s)))) as Hnd.
  { unfold in_address_order. rewrite merge_sort_Permutation. apply NoDup_elements. }
  pose proof (for_each_spec _ _ _ _ Hnd E p) as Hp.
  assert (p ∈ in_address_order (connections_ (connection_manager_ s)) ↔ is_Some (objects (connection_manager_ s) !! p)) as Hin.
  { unfold in_address_order. rewrite merge_sort_Permutation, elem_of_elements, Hd. apply elem_of_dom. }
  destruct (objects (connection_manager_ s) !! p) as [c|] eqn:Ec.
  - rewrite decide_True in Hp by (apply Hin; eauto). destruct Hp as (c0 & c' & Hc0 & Hf & Hos). injection Hc0 as <-. eauto.
  - rewrite decide_False in Hp; [done|]. intros Hi. apply Hin in Hi. by destruct Hi.
Qed.

Lemma Send_same data c c' : Send data c = Ret c' → input_buffer_ c' = input_buffer_ c ∧ is_open c' = is_open c ∧ reading c' = reading c.
Proof. unfold Send. intros H. apply bind_Ret in H as (b & _ & H). by injection H as <-. Qed.

(** The connections of the room are the objects there are, and something is written down for each. *)
Definition room_dom (r : room) (h : gmap nat bytes) : Prop := members r = dom (objs r) ∧ dom h = dom (objs r).

(** What a message does to each connection: the reply is sent to all of them, and the speaker's
    input is taken away. *)
Definition told (reply : bytes) (p : nat) (b : buffer) (q : nat) (c c' : TcpConn) : Prop :=
  if decide (q = p) then
    ∃ c1, Send reply (set_input b false c) = Ret c1 ∧ c' = ReadFromSocket (set_input (RetriveAll b) (reading c1) c1)
  else Send reply c = Ret c'.

Lemma on_read_spec p data r r' : members r = dom (objs r) → on_read p data r = Ret r' →
  ∃ c b name s, objs r !! p = Some c ∧ Append data (input_buffer_ c) = Ret b ∧ ToString b = Ret s ∧
    GetRemoteAddress p c = Ret name ∧
    members r' = members r ∧
    ∀ q, match objs r !! q with
         | Some cq => ∃ cq', objs r' !! q = Some cq' ∧ told (name ++ bs ": " ++ s) p b q cq cq'
         | None => objs r' !! q = None
         end.
Proof.
  intros Hd H. unfold on_read in H. apply bind_Ret in H as (c & Hc & H). apply conn_at_Ret in Hc.
  apply bind_Ret in H as (b & Hb & H). set (r1 := put p (set_input b false c) r) in *.
  apply bind_Ret in H as (r3 & Hr & H). unfold receive_callback in Hr.
  apply bind_Ret in Hr as (c1 & Hc1 & Hr). apply conn_at_Ret in Hc1. unfold r1 in Hc1.
  rewrite objs_put, lookup_insert_eq in Hc1. injection Hc1 as <-.
  apply bind_Ret in Hr as (name & Hn & Hr). apply bind_Ret in Hr as (s & Hs & Hr). apply bind_Ret in Hr as (out & _ & Hr).
  apply bind_Ret in Hr as (s1 & Hbc & Hr). apply bind_Ret in Hr as (c2 & Hc2 & Hr). apply conn_at_Ret in Hc2.
  injection Hr as <-. apply bind_Ret in H as (c3 & Hc3 & H). apply conn_at_Ret in Hc3.
  rewrite objs_put, lookup_insert_eq in Hc3. injection Hc3 as <-. injection H as <-.
  assert (members r1 = dom (objs r1)) as Hd1.
  { unfold r1. by rewrite members_put, objs_put, dom_insert_lookup_L by eauto. }
  destruct (Boardcast_spec _ _ _ Hd1 Hbc) as (Hm & _ & _ & Hall).
  exists c, b, name, s. split_and!; [done..|]. intros q. rewrite objs_put, objs_put, insert_insert_eq.
  specialize (Hall q). change (objects (connection_manager_ (svr r1))) with (<[p := set_input b false c]> (objs r)) in Hall.
  change (objects (connection_manager_ s1) !! q) with (objs (Room s1 out) !! q) in Hall. unfold told.
  destruct (decide (q = p)) as [->|Hne].
  - rewrite lookup_insert_eq in *. rewrite Hc. destruct Hall as (c' & Hsend & Hc'). rewrite Hc' in Hc2. injection Hc2 as <-.
    eexists. split; [done|]. exists c'. split; [done|]. f_equal. f_equal. by destruct (Send_same _ _ _ Hsend) as (-> & _).
  - rewrite lookup_insert_ne in * by done. destruct (objs r !! q) as [cq|]; [|done].
    destruct Hall as (c' & Hsend & Hc'). eauto.
Qed.

(** The other events change one connection, or add one. *)
Lemma on_conn_spec p e r r' : (∀ data, e ≠ ReadDone data) → chat_step (OnConn p e) r = Ret r' →
  ∃ c c', objs r !! p = Some c ∧ tcp_step Ret e c = Ret c' ∧ objs r' = <[p := c']> (objs r) ∧ members r' = members r.
Proof.
  intros Hne H. assert ((c ← conn_at p r; c' ← tcp_step Ret e c;
    out ← conn_callbacks (drop (length (notified c)) (notified c')) (stdout r); Ret (put p c' (Room (svr r) out))) = Ret r') as H'.
  { destruct e; try exact H. by destruct (Hne data). }
  apply bind_Ret in H' as (c & Hc & H'). apply bind_Ret in H' as (c' & Hs & H'). apply bind_Ret in H' as (out & _ & H').
  injection H' as <-. apply conn_at_Ret in Hc. by exists c, c'.
Qed.

Lemma accept_spec error r r' : chat_step (Accept error) r = Ret r' →
  if acceptor_open (svr r) then
    ∃ c0 i o, new_conn = Ret c0 ∧ i = input_buffer_ c0 ∧ o = output_buffer_ c0 ∧
      objs r' = <[fresh (dom (objs r)) := Start {| state_ := state_ c0; is_open := negb error; input_buffer_ := i;
        output_buffer_ := o; reading := false; posted := 0; writes := []; wire := []; notified := [] |}]> (objs r) ∧
      members r' = {[fresh (dom (objs r))]} ∪ members r
  else objs r' = objs r ∧ members r' = members r.
Proof.
  intros H. cbn [chat_step] in H. apply bind_Ret in H as (s & Hs & H). apply bind_Ret in H as (out & _ & H). injection H as <-.
  unfold Tcp.on_accept in Hs. destruct (acceptor_open (svr r)); cbn [negb] in Hs; [|by injection Hs as <-].
  apply bind_Ret in Hs as (c0 & H0 & Hs). apply bind_Ret in Hs as (m & Hm & Hs). injection Hs as <-.
  unfold manager_Start in Hm. cbn [objects connections_] in Hm. rewrite lookup_insert_eq in Hm. cbn in Hm. injection Hm as <-.
  exists c0, (input_buffer_ c0), (output_buffer_ c0). split_and!; [done..| |done]. unfold objs. cbn. by rewrite insert_insert_eq.
Qed.

Lemma read_or_not (e : tcp_event) : (∃ data, e = ReadDone data) ∨ ∀ data, e ≠ ReadDone data.
Proof. destruct e; try (by right); left; eauto. Qed.

Lemma hear_other p e r h : (∀ data, e ≠ ReadDone data) → hear (OnConn p e) r h = h.
Proof. destruct e; try done. intros H. by destruct (H data). Qed.

Lemma hear_read p data r h c name : objs r !! p = Some c → GetRemoteAddress p c = Ret name →
  hear (OnConn p (ReadDone data)) r h = (λ t, t ++ name ++ bs ": " ++ data) <$> h.
Proof. intros Hc Hn. unfold hear. fold (objs r). by rewrite Hc; cbn; rewrite Hn. Qed.

Lemma dom_same (r r' : room) : (∀ q, is_Some (objs r !! q) ↔ is_Some (objs r' !! q)) → dom (objs r') = dom (objs r).
Proof. intros H. apply set_eq. intros q. rewrite !elem_of_dom. by rewrite H. Qed.

Lemma step_dom e r r' h : room_dom r h → chat_step e r = Ret r' → room_dom r' (hear e r h).
Proof.
  intros [Hm Hh] H. unfold room_dom. destruct e as [error|p e].
  - apply accept_spec in H. cbn [hear]. destruct (acceptor_open (svr r)).
    + destruct H as (c0 & i & o & _ & _ & _ & -> & ->). fold (objs r). rewrite !dom_insert_L. by rewrite Hm, Hh.
    + by destruct H as [-> ->].
  - destruct (read_or_not e) as [[data ->]|Hne].
    + destruct (on_read_spec p data r r' Hm H) as (c & b & name & s & Hc & _ & _ & Hn & Hm' & Hall).
      rewrite (hear_read _ _ _ _ _ _ Hc Hn), dom_fmap_L, Hm'. assert (dom (objs r') = dom (objs r)) as ->; [|done].
      apply dom_same. intros q. specialize (Hall q). destruct (objs r !! q); [|by rewrite Hall].
      destruct Hall as (? & -> & _). by split; eexists.
    + rewrite hear_other by done. destruct (on_conn_spec p e r r' Hne H) as (c & c' & Hc & _ & -> & ->).
      by rewrite dom_insert_lookup_L by eauto.
Qed.

Lemma hear_grows e r h p t : room_dom r h → h !! p = Some t → ∃ u, hear e r h !! p = Some (t ++ u).
Proof.
  intros [_ Hh] Ht. assert (hear e r h !! p = Some t → ∃ u, hear e r h !! p = Some (t ++ u)) as Hsame.
  { intros ->. exists []. by rewrite app_nil_r. }
  destruct e as [error|q e].
  - cbn [hear] in *. destruct (acceptor_open (svr r)); [|by apply Hsame]. apply Hsame. fold (objs r).
    rewrite lookup_insert_ne; [done|]. intros E. apply (is_fresh (dom (objs r))). rewrite E, <-Hh. by apply elem_of_dom_2 in Ht.
  - destruct (read_or_not e) as [[data ->]|Hne]; [|by apply Hsame; rewrite hear_other].
    unfold hear in *. fold (objs r) in *. destruct (objs r !! q) as [c|]; [|by apply Hsame]. cbn in *.
    destruct (GetRemoteAddress q c) as [name| | | |]; try by apply Hsame.
    exists (name ++ bs ": " ++ data). by rewrite lookup_fmap, Ht.
Qed.

Lemma chat_grows r h es r' h' : polite_chat r h es r' h' → room_dom r h → ∀ p t, h !! p = Some t →
  ∃ u, h' !! p = Some (t ++ u).
Proof.
  induction 1 as [r h|r h e r1 es r' h' _ _ Hs _ IH]; intros Hd p t Ht; [exists []; by rewrite app_nil_r|].
  destruct (hear_grows e r h p t Hd Ht) as [u Hu]. destruct (IH (step_dom _ _ _ _ Hd Hs) p _ Hu) as [v Hv].
  exists (u ++ v). by rewrite app_assoc.
Qed.

(** Where the bytes of a member are, and that nothing it said is left in its input. *)
Definition empty_input (b : buffer) : Prop := inv b ∧ reader_ b = 8 ∧ writer_ b = 8.
Definition member_ok (t : bytes) (c : TcpConn) : Prop := in_order t c ∧ empty_input (input_buffer_ c).
Definition room_ok (r : room) (h : gmap nat bytes) : Prop :=
  ∀ p c, objs r !! p = Some c → ∃ t, h !! p = Some t ∧ member_ok t c.

Lemma empty_append b data b' : empty_input b → len data <= 8192 → Append data b = Ret b' → inv b' ∧ ToString b' = Ret data.
Proof.
  intros (Hi & Hr & Hw) Hd H.
  destruct (Append_spec data b Hi ltac:(right; rewrite Hw; unfold vector_max; lia)) as (b2 & Hb & Hi2 & Hc & _).
  rewrite Hb in H. injection H as ->. split; [done|]. rewrite ToString_content, Hc by done.
  unfold content. rewrite Hr, Hw. by change (Z.to_nat (8 - 8)) with 0%nat.
Qed.

Lemma empty_RetriveAll b : inv b → empty_input (RetriveAll b).
Proof. intros Hi. split; [by apply RetriveAll_spec|done]. Qed.

Lemma told_ok reply p b q t c c' : told reply p b q c c' → inv b → in_order t c → empty_input (input_buffer_ c) → quiet c →
  len t + len reply + 8 <= vector_max → member_ok (t ++ reply) c'.
Proof.
  unfold told. intros H Hb Ho Hi Hq Hl. destruct (decide (q = p)) as [->|Hne].
  - destruct H as (c1 & Hs & ->). split; [|by apply empty_RetriveAll].
    assert (in_order t (set_input b false c)) as Ho1 by by eapply order_same.
    apply (order_same _ c1); try done. by eapply order_send.
  - split; [by eapply order_send|]. by destruct (Send_same _ _ _ H) as (-> & _).
Qed.

Lemma input_same e c c' : (∀ data, e ≠ ReadDone data) → tcp_step Ret e c = Ret c' → input_buffer_ c' = input_buffer_ c.
Proof.
  assert (∀ x e c', on_error e x = Ret c' → input_buffer_ c' = input_buffer_ x) as Herr.
  { intros x [] c1; cbn [on_error]; [by intros [= <-]|]. unfold Stop. destruct (is_open x); [|done]. by intros [= <-]. }
  assert (∀ x, input_buffer_ (WriteToSocket x) = input_buffer_ x) as Hw by (intros x; unfold WriteToSocket; by destruct (negb _)).
  intros Hne H. destruct e as [data| |i k|i e|data|e]; cbn [tcp_step] in H.
  - by destruct (Send_same _ _ _ H).
  - injection H as <-. by rewrite Hw.
  - apply bind_Ret in H as (w & _ & H). apply bind_Ret in H as (d & _ & H). injection H as <-.
    case_match; [done|]. by rewrite Hw.
  - by rewrite (Herr _ _ _ H).
  - by destruct (Hne data).
  - by rewrite (Herr _ _ _ H).
Qed.

Lemma new_member c0 opened : new_conn = Ret c0 →
  member_ok [] (Start {| state_ := state_ c0; is_open := opened; input_buffer_ := input_buffer_ c0;
    output_buffer_ := output_buffer_ c0; reading := false; posted := 0; writes := []; wire := []; notified := [] |}).
Proof.
  unfold new_conn, make. intros H.
  destruct (inv_make kInitialSize ltac:(done) ltac:(done)) as (b & Hb & Hi & Hc & Hw & _). unfold make in Hb.
  rewrite Hb in H. injection H as <-. cbn [input_buffer_ output_buffer_]. split.
  - split; cbn; [done|lia|done|]. intros _. split; [done|]. by left.
  - cbn. split_and!; [done| |done]. apply bind_Ret in Hb as (v & _ & Hb). by injection Hb as Hb; subst b.
Qed.

Definition fits_vectors (h : gmap nat bytes) : Prop := map_Forall (λ _ t, len t + 8 <= vector_max) h.

Lemma room_step e r r' h : room_dom r h → room_ok r h → chat_enabled e r = true →
  (∀ q data, e = OnConn q (ReadDone data) → map_Forall (λ _ c, quiet c) (objs r)) →
  chat_step e r = Ret r' → fits_vectors (hear e r h) → room_ok r' (hear e r h).
Proof.
  intros [Hm Hh] Hok Hen Hq H Hfit q cq Hcq. destruct e as [error|p e].
  - apply accept_spec in H. cbn [hear]. destruct (acceptor_open (svr r)).
    + destruct H as (c0 & i & o & H0 & -> & -> & Ho & _). fold (objs r). rewrite Ho in Hcq.
      destruct (decide (q = fresh (dom (objs r)))) as [->|Hne].
      * rewrite lookup_insert_eq in Hcq. injection Hcq as <-. exists []. by rewrite lookup_insert_eq; split; [|apply new_member].
      * rewrite lookup_insert_ne in Hcq by done. rewrite lookup_insert_ne by done. by apply Hok.
    + destruct H as [Ho _]. rewrite Ho in Hcq. by apply Hok.
  - cbn [chat_enabled] in Hen. fold (objs r) in Hen. destruct (objs r !! p) as [c|] eqn:Hc; [|done].
    apply andb_true_iff in Hen as [Hen Hex]. destruct (read_or_not e) as [[data ->]|Hne].
    + destruct (on_read_spec p data r r' Hm H) as (c1 & b & name & s & Hc1 & Hb & Hs & Hn & _ & Hall).
      rewrite Hc in Hc1. injection Hc1 as <-. rewrite (hear_read _ _ _ _ _ _ Hc Hn) in *.
      destruct (Hok p c Hc) as (tp & Htp & Hop & Hip).
      destruct (empty_append _ data b Hip ltac:(lia) Hb) as [Hib Hsb]. rewrite Hs in Hsb. injection Hsb as ->.
      specialize (Hall q). destruct (objs r !! q) as [c0|] eqn:Hc0; [|congruence]. destruct Hall as (c' & Hc' & Htold).
      rewrite Hcq in Hc'. injection Hc' as <-. destruct (Hok q c0 Hc0) as (t & Ht & Hot & Hit).
      exists (t ++ name ++ bs ": " ++ data). split; [by rewrite lookup_fmap, Ht|].
      eapply told_ok; try done. { by eapply (Hq p data eq_refl). }
      pose proof (Hfit q (t ++ name ++ bs ": " ++ data)) as Hf. rewrite lookup_fmap, Ht in Hf. specialize (Hf eq_refl).
      cbv beta in Hf. rewrite len_app in Hf. lia.
    + rewrite hear_other in * by done. destruct (on_conn_spec p e r r' Hne H) as (c1 & c' & Hc1 & Hs & Ho & _).
      rewrite Hc in Hc1. injection Hc1 as <-. rewrite Ho in Hcq. destruct (decide (q = p)) as [->|Hnq].
      * rewrite lookup_insert_eq in Hcq. injection Hcq as <-. destruct (Hok p c Hc) as (t & Ht & Hot & Hit).
        exists t. split; [done|]. split; [|by rewrite (input_same _ _ _ Hne Hs)].
        assert (sent_by e = []) as Hsent by by destruct e.
        pose proof (order_step Ret e t c c' Hot Hen) as Hstep. rewrite Hsent, app_nil_r in Hstep. apply Hstep; [|by apply (Hfit p)|done].
        intros data ->. done.
      * rewrite lookup_insert_ne in Hcq by done. by apply Hok.
Qed.

Lemma chat_ok r h es r' h' : polite_chat r h es r' h' → room_dom r h → room_ok r h → fits_vectors h' →
  room_dom r' h' ∧ room_ok r' h'.
Proof.
  induction 1 as [r h|r h e r1 es r' h' Hen Hq Hs Hrest IH]; intros Hd Hok Hfit; [done|].
  pose proof (step_dom _ _ _ _ Hd Hs) as Hd1. apply IH; [done| |done]. eapply room_step; try done.
  intros p t Ht. destruct (chat_grows _ _ _ _ _ Hrest Hd1 p t Ht) as [u Hu]. pose proof (Hfit p _ Hu) as Hf.
  cbv beta in Hf. rewrite len_app in Hf. lia.
Qed.

(** * Properties *)

End room.

(** Two join; the first speaks, and both writes are done. *)
Definition one_endpoint : nat → bool → option (bytes * Z) := λ p opened, if opened then Some (bs "10.0.0.7", 5000 + Z.of_nat p) else None.
Definition two_join : list chat_event := [Accept false; Accept false].
Definition first_speaks : list chat_event :=
  two_join ++ [OnConn 0 (ReadDone (bs "hi")); OnConn 0 Posted; OnConn 1 Posted; OnConn 0 (WriteDone 0 17); OnConn 1 (WriteDone 0 17)].

(** The run and what is heard, computed; the discipline is checked on the way. *)
Definition all_quiet (r : room) : bool := bool_decide (map_Forall (λ _ c, posted c = 0%nat ∧ writes c = []) (objs r)).

Fixpoint polite_run (remote : nat → bool → option (bytes * Z)) (es : list chat_event) (r : room) (h : gmap nat bytes) :
    option (room * gmap nat bytes) :=
  match es with
  | [] => Some (r, h)
  | e :: es =>
      if chat_enabled e r && (match e with OnConn _ (ReadDone _) => all_quiet r | _ => true end) then
        match chat_step remote e r with Ret r' => polite_run remote es r' (hear remote e r h) | _ => None end
      else None
  end.

Lemma polite_run_polite remote es : ∀ r h r' h', polite_run remote es r h = Some (r', h') → polite_chat remote r h es r' h'.
Proof.
  induction es as [|e es IH]; intros r h r' h' H; cbn [polite_run] in H; [injection H as <- <-; constructor|].
  destruct (chat_enabled e r && _) eqn:He; [|done]. apply andb_true_iff in He as [He Hq].
  destruct (chat_step remote e r) as [r1| | | |] eqn:Hs; try done. econstructor; [done| |done|by apply IH].
  intros q data ->. by apply bool_decide_eq_true in Hq.
Qed.


(** One who has left is still sent to, and the failing write ends the room by an exception. *)
Lemma leaver_ends_room :
  match s ← Listen true; Ret (chat_run one_endpoint
    (two_join ++ [OnConn 1 (ReadError other_error); OnConn 0 (ReadDone (bs "hi")); OnConn 1 Posted]) (Room s [])) with
  | Ret (Some r) => chat_enabled (OnConn 1 (WriteError 0 other_error)) r = true ∧
                    chat_step one_endpoint (OnConn 1 (WriteError 0 other_error)) r = Throw runtime_error
  | _ => False
  end.
Proof. vm_compute. by split. Qed.

(** What the room prints on the way. *)
Lemma room_prints :
  match s ← Listen true; Ret (chat_run one_endpoint (two_join ++ [OnConn 0 (ReadDone (bs "hi")); OnConn 1 (ReadError other_error)]) (Room s [])) with
  | Ret (Some r) => stdout r = bs "conn: connected" ++ [LF] ++ bs "conn: connected" ++ [LF] ++
                               bs "recv from 10.0.0.7:5000: hi" ++ [LF] ++ bs "conn: disconnected" ++ [LF]
  | _ => False
  end.
Proof. vm_compute. done. Qed.
