(* ===== verification/TcpClient.v ===== *)
(** * The TCP client (src/cppboot/net/tcp: client.h, client.cc)

    A client has at most one connection, the one of its last [Connect]; the destructor stops it.
    A connection that another one replaces lives on while its read has not completed. *)

From S2P Require Import Prelude StdString Status Buffer Bus Tcp.
Import Buffer.Buffer.

Section client.
(** Resolving and connecting: the text of the exception, if there is one. *)
Context (connect : bytes → bytes → option bytes).

Record TcpClient : Type := Client { conn_ : option TcpConn; replaced : list TcpConn }.

Definition new_client : TcpClient := Client None [].

Definition Connect (address port : bytes) (c : TcpClient) : outcome (Status * TcpClient) :=
  match connect address port with
  | Some what => Ret (InvalidArgumentError what, c)
  | None =>
      conn ← new_conn;
      Ret (OkStatus, Client (Some (Start conn)) (option_list (conn_ c) ++ replaced c))
  end.

(** [conn_->Stop()] and [conn_->Send(data, len)], through a pointer that may be null. *)
Definition client_Stop (c : TcpClient) : outcome TcpClient :=
  conn ← or_undef (conn_ c);
  conn ← Tcp.Stop conn;
  Ret (Client (Some conn) (replaced c)).

Definition client_Send (data : bytes) (c : TcpClient) : outcome TcpClient :=
  conn ← or_undef (conn_ c);
  conn ← Tcp.Send data conn;
  Ret (Client (Some conn) (replaced c)).

(** [~TcpClient()]: destructors do not throw. *)
Definition destroy (c : TcpClient) : outcome TcpClient := noexcept (client_Stop c).

(** What happens to a client: calls, and the completions of its connection. *)
Inductive client_event : Type :=
  | CConnect (address port : bytes)
  | CSend (data : bytes)
  | CStop
  | COn (e : tcp_event).

Definition client_step (f : buffer → outcome buffer) (e : client_event) (c : TcpClient) : outcome TcpClient :=
  match e with
  | CConnect address port => '(_, c) ← Connect address port c; Ret c
  | CSend data => client_Send data c
  | CStop => client_Stop c
  | COn e =>
      conn ← or_undef (conn_ c);
      conn ← tcp_step f e conn;
      Ret (Client (Some conn) (replaced c))
  end.

Fixpoint client_run (f : buffer → outcome buffer) (es : list client_event) (c : TcpClient) : outcome TcpClient :=
  match es with
  | [] => Ret c
  | e :: es => c ← client_step f e c; client_run f es c
  end.

(** ** The life of a client, read off its events *)

Inductive life : Set := never_connected | connected | ended.

Definition life_step (l : life) (e : client_event) : life :=
  match e with
  | CConnect address port => match connect address port with None => connected | Some _ => l end
  | CStop => ended
  | COn (WriteError _ other_error) | COn (ReadError other_error) => ended
  | _ => l
  end.

Definition life_after (es : list client_event) : life := foldl life_step never_connected es.

(** * Lemmas *)

Definition in_life (l : life) (c : TcpClient) : Prop :=
  match l, conn_ c with
  | never_connected, None => True
  | connected, Some conn => is_open conn = true
  | ended, Some conn => is_open conn = false
  | _, _ => False
  end.

Lemma Stop_closes c c' : Tcp.Stop c = Ret c' → is_open c' = false.
Proof. unfold Tcp.Stop. destruct (is_open c); [|done]. by intros [= <-]. Qed.

(** A completion leaves the socket as it is, unless it is an error that is not an abort. *)
Lemma tcp_step_open f e c c' : tcp_step f e c = Ret c' →
  is_open c' = match e with WriteError _ other_error | ReadError other_error => false | _ => is_open c end.
Proof.
  assert (∀ x, is_open (WriteToSocket x) = is_open x) as Hw by (intros x; unfold WriteToSocket; by destruct (negb _)).
  intros H. destruct e as [data| |i k|i [|]|data|[|]]; cbn [tcp_step on_error] in H;
    try (by injection H as <-); try (by apply Stop_closes in H).
  - unfold Tcp.Send in H. apply bind_Ret in H as (b & _ & H). by injection H as <-.
  - injection H as <-. by rewrite Hw.
  - apply bind_Ret in H as (w & _ & H). apply bind_Ret in H as (d & _ & H). injection H as <-.
    case_match; [done|]. by rewrite Hw.
  - apply bind_Ret in H as (b & _ & H). apply bind_Ret in H as (b2 & _ & H). by injection H as <-.
Qed.

Lemma new_conn_open c : new_conn = Ret c → is_open c = true.
Proof.
  unfold new_conn. intros H. apply bind_Ret in H as (i & _ & H). apply bind_Ret in H as (o & _ & H). by injection H as <-.
Qed.

Lemma client_step_life f e c c' l : in_life l c → client_step f e c = Ret c' → in_life (life_step l e) c'.
Proof.
  intros Hl H. destruct e as [address port|data| |e]; cbn [client_step life_step] in *.
  - unfold Connect in H. destruct (connect address port) as [what|]; [by injection H as <-|].
    apply bind_Ret in H as ([st c1] & H & H'). injection H' as <-. apply bind_Ret in H as (conn & Hn & H).
    injection H as _ <-. by apply new_conn_open in Hn.
  - unfold client_Send in H. apply bind_Ret in H as (conn & Hc & H). apply bind_Ret in H as (conn' & Hs & H). injection H as <-.
    apply or_undef_Ret in Hc. unfold in_life in *. rewrite Hc in Hl. cbn.
    pose proof (tcp_step_open f (SendCall data) conn conn' Hs) as Ho. cbn in Ho. by rewrite Ho.
  - unfold client_Stop in H. apply bind_Ret in H as (conn & Hc & H). apply bind_Ret in H as (conn' & Hs & H). injection H as <-.
    by apply Stop_closes in Hs.
  - apply bind_Ret in H as (conn & Hc & H). apply bind_Ret in H as (conn' & Hs & H). injection H as <-.
    apply or_undef_Ret in Hc. apply tcp_step_open in Hs. unfold in_life in *. rewrite Hc in Hl. cbn [conn_].
    destruct e as [data| |i k|i [|]|data|[|]]; cbn in *; try done; by rewrite Hs.
Qed.

Lemma client_run_life f es : ∀ c c' l, in_life l c → client_run f es c = Ret c' → in_life (foldl life_step l es) c'.
Proof.
  induction es as [|e es IH]; intros c c' l Hl H; cbn [client_run foldl] in *; [by injection H as <-|].
  apply bind_Ret in H as (c1 & Hs & H). eapply IH; [|exact H]. by eapply client_step_life.
Qed.

(** * Properties *)

End client.

