(* ===== verification/Sys.v ===== *)
(** * The operating system (src/cppboot/base: sys.h, sys.cc)

    Ids, paths and the clock.  The system calls are parameters; the functions of Linux and of
    macOS are in modules of their own. *)

From S2P Require Import Prelude StdString Fs.

(** ** Linux *)

Module Linux.
Section linux.
Context {St H : Type} `{!FileSystem St H}.

(** [syscall] returns a [long]. *)
Definition GetTid (gettid : Z) : Z := u64 gettid.
Definition GetPid (getpid : Z) : Z := u64 getpid.
Definition GetAppPath (s : St) : bytes := Readlink (bs "/proc/self/exe") s.
End linux.
End Linux.

(** ** macOS *)

Module Apple.
(** [pthread_threadid_np] stores the id and returns an error number, 0 for none. *)
Definition GetTid (pthread_threadid_np : Z * Z) : Z :=
  let '(result, tid) := pthread_threadid_np in u64 (u32 result).

Definition GetPid (getpid : Z) : Z := u64 getpid.

(** [proc_pidpath(pid, buffer, size)]: the length of the path with what it has stored, or 0; the
    array is not initialised. *)
Definition GetAppPath (proc_pidpath : Z → option bytes) (threadid : Z * Z) : outcome bytes :=
  match proc_pidpath (i32 (GetTid threadid)) with
  | Some path => if negb (len path =? 0) then Ret [] else Undef
  | None => Undef
  end.
End Apple.

(** ** Both *)

(** [getcwd] of at most [PATH_MAX] characters, the terminating NUL included, or an error, which
    leaves the array of zeros as it is. *)
Definition GetCurrentDir (getcwd : option bytes) : bytes :=
  match getcwd with
  | Some path => if len path <? PATH_MAX then until_nul path else []
  | None => []
  end.

(** Arithmetic of [long]. *)
Definition long_result (z : Z) : outcome Z := if (LLONG_MIN <=? z) && (z <=? LLONG_MAX) then Ret z else Undef.

(** [clock_gettime(CLOCK_MONOTONIC)]: seconds and nanoseconds, or an error. *)
Definition GetNanoClock (clock_gettime : option (Z * Z)) : outcome Z :=
  match clock_gettime with
  | Some (tv_sec, tv_nsec) => n ← long_result (tv_sec * 1000000000); long_result (n + tv_nsec)
  | None => Throw runtime_error
  end.

(** * Properties *)

(** The clock counts nanoseconds without overflow for 292 years. A time of [clock_gettime] becomes its
    nanoseconds exactly when these fit in a [long], later times give greater numbers, and an error of the
    clock is an exception. *)
Theorem nano_clock (sec nsec : Z) : 0 <= sec → 0 <= nsec < 1000000000 →
  (GetNanoClock (Some (sec, nsec)) = if sec * 1000000000 + nsec <=? LLONG_MAX then Ret (sec * 1000000000 + nsec) else Undef) ∧
  (sec <= 9223372035 → GetNanoClock (Some (sec, nsec)) = Ret (sec * 1000000000 + nsec)) ∧
  (∀ sec' nsec' n n', 0 <= sec' → 0 <= nsec' < 1000000000 → sec < sec' ∨ sec = sec' ∧ nsec < nsec' →
     GetNanoClock (Some (sec, nsec)) = Ret n → GetNanoClock (Some (sec', nsec')) = Ret n' → n < n') ∧
  GetNanoClock None = Throw runtime_error.
Proof.
  intros Hs Hn. assert (∀ s n, 0 <= s → 0 <= n < 1000000000 →
    GetNanoClock (Some (s, n)) = if s * 1000000000 + n <=? LLONG_MAX then Ret (s * 1000000000 + n) else Undef) as Hc.
  { clear. intros s n Hs Hn. unfold GetNanoClock, long_result, LLONG_MIN, LLONG_MAX.
    destruct ((-2 ^ 63 <=? s * 1000000000) && _) eqn:E1; cbn [mbind outcome_bind];
      repeat case_match; try done; lia. }
  split_and!; [by apply Hc| | |done].
  - intros Hle. rewrite Hc by done. destruct (_ <=? _) eqn:E; [done|]. unfold LLONG_MAX in E. lia.
  - intros sec' nsec' n n' Hs' Hn' Hlt. rewrite !Hc by done.
    destruct (_ <=? _); [|done]. destruct (sec' * _ + _ <=? _); [|done]. intros [= <-] [= <-]. lia.
Qed.

Lemma nano_clock_witness : GetNanoClock (Some (12, 34)) = Ret 12000000034.
Proof. exact (proj1 (nano_clock 12 34 ltac:(lia) ltac:(lia))). Defined.

(** On macOS the id of a thread is the error number of the call that asks for it, and the path of the
    program is never returned: the test of the result is the wrong way around. *)
Lemma Apple_ids proc_pidpath tid :
  Apple.GetTid (0, tid) = 0 ∧
  (Apple.GetAppPath proc_pidpath (0, tid) = Ret [] ∨ Apple.GetAppPath proc_pidpath (0, tid) = Undef).
Proof.
  split; [done|]. unfold Apple.GetAppPath. destruct (proc_pidpath _) as [p|]; [|by right].
  destruct (negb _); [by left|by right].
Qed.
