(* ===== verification/Addr.v ===== *)
(** * Socket addresses (src/cppboot/net/net2: addr.h, addr.cpp)

    [Addr] turns a network and a text into the bytes of a [sockaddr], laid out as
    the BSD headers that the file includes lay it out. *)

From S2P Require Import Prelude StdString Fs.

(** [atoi]: blanks, a sign, digits; 0 without digits, undefined out of range. *)
Definition atoi (s : bytes) : outcome Z :=
  let '(negative, l) :=
    match skip_spaces s with
    | c :: l => if bool_decide (c = "-"%char) then (true, l)
                else if bool_decide (c = "+"%char) then (false, l) else (false, c :: l)
    | [] => (false, [])
    end in
  let '(ds, _) := digits l in
  int_result (if negative : bool then - dec_value ds else dec_value ds).

(** [std::vector::resize(n, 0)], and a store of [b] at offset [i] of the vector's
    characters. *)
Definition resize (n : nat) (d : bytes) : bytes := take n d ++ replicate (n - length d) NUL.
Definition store (i : nat) (b d : bytes) : outcome bytes :=
  if (i + length b <=? length d)%nat then Ret (take i d ++ b ++ drop (i + length b) d) else Undef.

(** [htons] on a little-endian host. *)
Definition htons (port : Z) : bytes := [char_of (port / 256); char_of port].

Section addr.
(** The address families, and [inet_pton], which gives the address of a text in
    network order. *)
Context (AF_UNIX AF_INET AF_INET6 : Z) (inet_pton : Z → bytes → option bytes).

(** The sizes of the structures, and the offsets of the members that are set. *)
Definition sizeof_sockaddr_in : nat := 16.    (* sin_len, sin_family, sin_port 2, sin_addr 4, sin_zero 8 *)
Definition sizeof_sockaddr_in6 : nat := 28.   (* sin6_len, sin6_family, sin6_port 2, flowinfo 4, sin6_addr 16, scope_id 4 *)
Definition offsetof_sun_path : nat := 2.      (* sun_len, sun_family, sun_path *)
Definition offsetof_sin_addr : nat := 4.
Definition offsetof_sin6_addr : nat := 8.

Record Addr : Type := MkAddr { net_ : bytes; addr_ : bytes; data_ : bytes }.

Definition addr_network (a : Addr) : bytes := net_ a.
Definition addr_len (a : Addr) : Z := len (data_ a).
Definition IsValid (a : Addr) : bool := negb (addr_len a =? 0).
(** [addr()]: the structure, or a null pointer. *)
Definition sockaddr (a : Addr) : option bytes := if bool_decide (data_ a = []) then None else Some (data_ a).

(** The first members are the same in all three structures. *)
Definition set_head (size family port : Z) (data : bytes) : outcome bytes :=
  data ← store 0 [char_of size] data;
  data ← store 1 [char_of family] data;
  store 2 (htons port) data.

Definition ParseIpv4Addr (addr : bytes) (port : Z) (data : bytes) : outcome bytes :=
  let data := resize sizeof_sockaddr_in data in
  data ← set_head (Z.of_nat sizeof_sockaddr_in) AF_INET port data;
  if bool_decide (addr = []) then Ret data
  else match inet_pton AF_INET (until_nul addr) with
       | Some a => store offsetof_sin_addr a data
       | None => Ret []
       end.

Definition ParseIpv6Addr (addr : bytes) (port : Z) (data : bytes) : outcome bytes :=
  let data := resize sizeof_sockaddr_in6 data in
  data ← set_head (Z.of_nat sizeof_sockaddr_in6) AF_INET6 port data;
  if bool_decide (addr = []) then Ret data
  else match inet_pton AF_INET6 (until_nul addr) with
       | Some a => store offsetof_sin6_addr a data
       | None => Ret []
       end.

(** The conversion of [atoi]'s int to [unsigned short] takes it modulo 2^16. *)
Definition port_of (addr_port : bytes) (colon skip : Z) : outcome Z :=
  if colon =? npos then Ret 0
  else s ← str_substr addr_port (u64 (colon + skip)) npos; n ← atoi (until_nul s); Ret (u16 n).

Definition ParseIpAddr (addr_port data : bytes) : outcome bytes :=
  if bool_decide (head addr_port = Some "["%char) then
    let colon := str_find addr_port (bs "]:") 0 in
    port ← port_of addr_port colon 2;
    if port =? 0 then Ret data
    else addr ← str_substr addr_port 1 (u64 (colon - 1)); ParseIpv6Addr addr port data
  else
    let colon := str_find addr_port (bs ":") 0 in
    port ← port_of addr_port colon 1;
    if port =? 0 then Ret data
    else addr ← str_substr addr_port 0 colon; ParseIpv4Addr addr port data.

(** [sun_len] is an [unsigned char]. *)
Definition ParseUnixAddr (addr data : bytes) : outcome bytes :=
  if bool_decide (addr = []) then Ret data
  else
    let sun_len := (Z.of_nat offsetof_sun_path + len addr + 1) mod 256 in
    let data := resize (Z.to_nat sun_len) data in
    data ← store 0 [char_of sun_len] data;
    data ← store 1 [char_of AF_UNIX] data;
    store offsetof_sun_path addr data.

(** The constructor. *)
Definition new_addr (network addr : bytes) : outcome Addr :=
  if bool_decide (network = bs "tcp") || bool_decide (network = bs "udp") then
    data ← ParseIpAddr addr []; Ret (MkAddr network addr data)
  else if bool_decide (network = bs "unix") then
    data ← ParseUnixAddr addr []; Ret (MkAddr network addr data)
  else Ret (MkAddr [] [] []).

(** ** What an address means *)

(** The structure for a host and a port; the host may be left out. *)
Definition inet_address (family : Z) (size offset : nat) (host : bytes) (port : Z) : bytes :=
  let head := [char_of (Z.of_nat size); char_of family] ++ htons port in
  if bool_decide (host = []) then head ++ replicate (size - 4) NUL
  else match inet_pton family (until_nul host) with
       | Some a => head ++ replicate (offset - 4) NUL ++ a ++ replicate (size - offset - length a) NUL
       | None => []
       end.

Definition endpoint (family : Z) (size offset : nat) (host : bytes) (n : Z) : bytes :=
  if u16 n =? 0 then [] else inet_address family size offset host (u16 n).

(** * Lemmas *)

Lemma length_resize n d : length (resize n d) = n.
Proof. unfold resize. rewrite length_app, length_take, length_replicate. lia. Qed.

Lemma resize_nil n : resize n [] = replicate n NUL.
Proof. unfold resize. by rewrite take_nil, Nat.sub_0_r. Qed.

(** A store over the zeros behind what is already there. *)
Lemma store_append (d b : bytes) k n : (length b + k <= n)%nat →
  store (length d + k) b (d ++ replicate n NUL) =
    Ret (d ++ replicate k NUL ++ b ++ replicate (n - k - length b) NUL).
Proof.
  intros Hn. unfold store. rewrite length_app, length_replicate.
  rewrite (proj2 (Nat.leb_le _ _)) by lia. f_equal.
  rewrite <-Nat.add_assoc, take_app_add, drop_app_add, take_replicate, drop_replicate.
  replace (k `min` n)%nat with k by lia. rewrite <-app_assoc. do 4 f_equal. lia.
Qed.

Lemma store_past i b d : (length d < i + length b)%nat → store i b d = Undef.
Proof. intros. unfold store. by rewrite (proj2 (Nat.leb_gt _ _)). Qed.

Lemma set_head_zeros size family port n : (4 <= n)%nat →
  set_head size family port (replicate n NUL) =
    Ret (([char_of size; char_of family] ++ htons port) ++ replicate (n - 4) NUL).
Proof.
  intros Hn. unfold set_head. destruct n as [|[|[|[|n]]]]; [lia..|]. cbn. by rewrite Nat.sub_0_r.
Qed.

Context (pton4 : ∀ s a, inet_pton AF_INET s = Some a → length a = 4%nat).
Context (pton6 : ∀ s a, inet_pton AF_INET6 s = Some a → length a = 16%nat).

Lemma ipv4_spec host port : ParseIpv4Addr host port [] = Ret (inet_address AF_INET 16 4 host port).
Proof.
  unfold ParseIpv4Addr, inet_address, sizeof_sockaddr_in, offsetof_sin_addr.
  rewrite resize_nil, set_head_zeros by lia. cbn [mbind outcome_bind].
  case_bool_decide; [done|]. destruct (inet_pton _ _) as [a|] eqn:E; [|done]. apply pton4 in E.
  set (h := [_; _] ++ htons port). change 4%nat with (length h + 0)%nat at 1.
  rewrite store_append by (rewrite E; lia). by rewrite E.
Qed.

Lemma ipv6_spec host port : ParseIpv6Addr host port [] = Ret (inet_address AF_INET6 28 8 host port).
Proof.
  unfold ParseIpv6Addr, inet_address, sizeof_sockaddr_in6, offsetof_sin6_addr.
  rewrite resize_nil, set_head_zeros by lia. cbn [mbind outcome_bind].
  case_bool_decide; [done|]. destruct (inet_pton _ _) as [a|] eqn:E; [|done]. apply pton6 in E.
  set (h := [_; _] ++ htons port). change 8%nat with (length h + 4)%nat at 1.
  rewrite store_append by (rewrite E; lia). by rewrite E.
Qed.

Lemma unix_spec path : path ≠ [] →
  ParseUnixAddr path [] =
    if len path <=? 252 then Ret ([char_of (len path + 3); char_of AF_UNIX] ++ path ++ [NUL]) else Undef.
Proof.
  intros Hp. unfold ParseUnixAddr, offsetof_sun_path. rewrite bool_decide_false by done. rewrite resize_nil.
  replace (Z.of_nat 2 + len path + 1) with (len path + 3) by lia.
  assert (0 < len path) as Hl by (destruct path; [done|len_lia]).
  destruct (len path <=? 252) eqn:E; bool_hyps.
  - rewrite Z.mod_small by lia. set (n := Z.to_nat (len path + 3)).
    assert (n = (3 + length path)%nat) as -> by lia.
    change (store 0 ?c (replicate (3 + ?m) NUL)) with (Ret (c ++ replicate (2 + m) NUL)).
    cbn [mbind outcome_bind]. change (store 1 ?b ([?a] ++ replicate (2 + ?m) NUL)) with (Ret (([a] ++ b) ++ replicate (1 + m) NUL)).
    cbn [mbind outcome_bind]. set (h := [_] ++ [_]). change 2%nat with (length h + 0)%nat.
    rewrite store_append by lia. replace (_ - 0 - length path)%nat with 1%nat by lia. done.
  - pose proof (Z.div_mod (len path + 3) 256 ltac:(lia)).
    pose proof (Z.div_le_lower_bound (len path + 3) 256 1 ltac:(lia) ltac:(lia)).
    pose proof (Z.mod_pos_bound (len path + 3) 256 ltac:(lia)). set (k := (len path + 3) mod 256) in *.
    assert (∀ i b d r, (∀ d', length d' = length d → r d' = Undef) →
      (d ← store i b d; r d) = @Undef bytes) as Hskip.
    { intros i b d r Hr. unfold store. destruct (_ <=? _)%nat eqn:E2; [|done]. apply Nat.leb_le in E2.
      cbn [mbind outcome_bind]. apply Hr. rewrite !length_app, length_take, length_drop. lia. }
    apply Hskip. intros d1 Hd1. apply Hskip. intros d2 Hd2.
    apply store_past. rewrite Hd2, Hd1, length_replicate. lia.
Qed.

(** ** Host and port *)

Lemma atoi_digits ds : Forall (λ c, is_digit_char c = true) ds → dec_value ds <= INT_MAX →
  atoi ds = Ret (dec_value ds).
Proof.
  intros Hd Hv. pose proof (dec_value_nonneg ds Hd) as H0. unfold atoi.
  pose proof (digits_all ds [] Hd ltac:(by left)) as Hds. rewrite app_nil_r in Hds.
  assert (int_result (dec_value ds) = Ret (dec_value ds)) as Hr by (apply int_result_Ret; unfold INT_MIN; lia).
  destruct ds as [|c ds]; [done|]. apply Forall_cons in Hd as [Hc _].
  destruct (digit_facts c Hc) as (Hs & Hm & Hp). cbn [skip_spaces]. rewrite Hs, !bool_decide_false by done.
  by rewrite Hds.
Qed.

Lemma search_first c rest p h : c ∉ h → ∀ i, search (c :: rest) (h ++ (c :: rest) ++ p) i = Some (i + length h)%nat.
Proof.
  induction h as [|x h IH]; intros Hc i.
  - rewrite Nat.add_0_r. cbn [app search]. by rewrite bool_decide_true by (by exists p).
  - apply not_elem_of_cons in Hc as [Hx Hh]. cbn [app search].
    rewrite bool_decide_false by (intros [r [= ? _]]; congruence). rewrite IH by done. cbn. f_equal. lia.
Qed.

Lemma str_find_first c rest p h : c ∉ h → str_find (h ++ (c :: rest) ++ p) (c :: rest) 0 = len h.
Proof.
  intros H. unfold str_find. rewrite (proj2 (Z.leb_le _ _)) by lia. change (Z.to_nat 0) with 0%nat.
  by rewrite drop_0, search_first.
Qed.

(** The numeral behind the separator. *)
Lemma port_of_digits pre ds skip : Forall (λ c, is_digit_char c = true) ds → dec_value ds <= INT_MAX →
  0 <= skip <= len pre → fits (pre ++ ds) →
  port_of (pre ++ ds) (len pre - skip) skip = Ret (u16 (dec_value ds)).
Proof.
  intros Hd Hv Hk Hf. autorewrite with len in Hf. unfold port_of, str_substr.
  rewrite (proj2 (Z.eqb_neq _ npos)) by (unfold npos; lia).
  replace (len pre - skip + skip) with (len pre) by lia. rewrite u64_small by lia.
  rewrite (proj2 (Z.ltb_ge _ _)) by len_lia. cbn [mbind outcome_bind].
  rewrite slice_app_r by (unfold npos; lia). rewrite until_nul_terminated.
  - by rewrite atoi_digits.
  - rewrite Forall_forall in Hd. intros H%Hd. by vm_compute in H.
Qed.

Ltac text_lia := autorewrite with len in *; cbn [length String.list_ascii_of_string] in *; lia.

Lemma parse_ipv4 host ds : Forall (λ c, is_digit_char c = true) ds → dec_value ds <= INT_MAX →
  fits (host ++ bs ":" ++ ds) → (":"%char ∉ host) → head host ≠ Some "["%char →
  ParseIpAddr (host ++ bs ":" ++ ds) [] = Ret (endpoint AF_INET 16 4 host (dec_value ds)).
Proof.
  intros Hd Hv Hf Hh Hb. unfold ParseIpAddr, endpoint. rewrite bool_decide_false by by destruct host.
  assert (str_find (host ++ bs ":" ++ ds) (bs ":") 0 = len host) as ->.
  { exact (str_find_first ":"%char [] ds host Hh). }
  replace (len host) with (len (host ++ bs ":") - 1) by (text_lia). rewrite app_assoc in Hf |- *.
  rewrite port_of_digits; [|done|done|text_lia|done]. cbn [mbind outcome_bind].
  destruct (u16 _ =? 0); [done|]. unfold str_substr. rewrite (proj2 (Z.ltb_ge _ _)) by lia.
  cbn [mbind outcome_bind]. replace (len (host ++ bs ":") - 1) with (len host) by text_lia.
  by rewrite <-app_assoc, slice_app_l, ipv4_spec.
Qed.

Lemma parse_ipv6 host ds : Forall (λ c, is_digit_char c = true) ds → dec_value ds <= INT_MAX →
  fits (bs "[" ++ host ++ bs "]:" ++ ds) → ("]"%char ∉ host) →
  ParseIpAddr (bs "[" ++ host ++ bs "]:" ++ ds) [] = Ret (endpoint AF_INET6 28 8 host (dec_value ds)).
Proof.
  intros Hd Hv Hf Hh. unfold ParseIpAddr, endpoint. rewrite bool_decide_true by done.
  assert ("]"%char ∉ bs "[" ++ host) as Hn by by apply not_elem_of_cons.
  assert (str_find (bs "[" ++ host ++ bs "]:" ++ ds) (bs "]:") 0 = len host + 1) as ->.
  { pose proof (str_find_first "]"%char [":"%char] ds (bs "[" ++ host) Hn) as Hs.
    rewrite <-app_assoc in Hs. etransitivity; [exact Hs|]. text_lia. }
  replace (len host + 1) with (len ((bs "[" ++ host) ++ bs "]:") - 2) by (text_lia).
  assert (bs "[" ++ host ++ bs "]:" ++ ds = ((bs "[" ++ host) ++ bs "]:") ++ ds) as He by by rewrite <-!app_assoc.
  rewrite He in Hf |- *. rewrite port_of_digits; [|done|done|text_lia|done]. cbn [mbind outcome_bind].
  destruct (u16 _ =? 0); [done|]. unfold str_substr. rewrite (proj2 (Z.ltb_ge _ _)) by text_lia.
  cbn [mbind outcome_bind]. rewrite u64_small by text_lia.
  replace (len ((bs "[" ++ host) ++ bs "]:") - 2 - 1) with (len host) by text_lia.
  rewrite <-!app_assoc. change 1 with (len (bs "[")). rewrite slice_app_mid. by rewrite ipv6_spec.
Qed.

Lemma inet_address_head family size offset host port :
  (4 <= offset <= size)%nat → (∀ s a, inet_pton family s = Some a → (length a + offset <= size)%nat) →
  let d := inet_address family size offset host port in
  d = [] ∨ (length d = size ∧ head d = Some (char_of (Z.of_nat size))).
Proof.
  intros Ho Ha d. subst d. unfold inet_address. case_bool_decide.
  - right. split; [|done]. cbn -[replicate Nat.sub]. rewrite length_replicate. lia.
  - destruct (inet_pton _ _) as [a|] eqn:E; [|by left]. apply Ha in E. right. split; [|done].
    cbn -[replicate Nat.sub]. rewrite !length_app, !length_replicate. lia.
Qed.

(** What [ParseIpAddr] leaves is empty, or a structure that says its size. *)
Lemma parse_ip_sized s d : ParseIpAddr s [] = Ret d → d = [] ∨ head d = Some (char_of (len d)).
Proof.
  unfold ParseIpAddr. intros H. destruct (bool_decide _).
  - outcome_inv. destruct (_ =? 0); [left; congruence|]. outcome_inv. rewrite ipv6_spec in H. injection H as <-.
    destruct (inet_address_head AF_INET6 28 8 x0 x) as [E|[Hl E]]; [lia| |by left|right; by rewrite Hl].
    intros ? ? ->%pton6. lia.
  - outcome_inv. destruct (_ =? 0); [left; congruence|]. outcome_inv. rewrite ipv4_spec in H. injection H as <-.
    destruct (inet_address_head AF_INET 16 4 x0 x) as [E|[Hl E]]; [lia| |by left|right; by rewrite Hl].
    intros ? ? ->%pton4. lia.
Qed.

Lemma parse_unix_sized s d : ParseUnixAddr s [] = Ret d → d = [] ∨ head d = Some (char_of (len d)).
Proof.
  destruct (decide (s = [])) as [->|Hs]; [intros [= <-]; by left|]. rewrite unix_spec by done.
  destruct (_ <=? _); [|done]. intros [= <-]. right. cbn [app head]. do 2 f_equal. len_lia.
Qed.

End addr.

(** * Properties *)

(** C37: a "host:port" of "tcp" or "udp" becomes the IPv4 structure of that host and
    port, and "[host]:port" the IPv6 one; without a host it is the address of any
    host.  The port is taken modulo 2^16, and none, 0 or an unknown host makes the
    address invalid.  The path of "unix" is copied behind its header with a NUL as
    long as it has at most 252 characters: a longer one overflows the one-byte length
    and is written past the end of the vector.  Other networks are not kept.  What is
    valid says its own size in the first byte. *)
Theorem Addr_correct (AF_UNIX AF_INET AF_INET6 : Z) (inet_pton : Z → bytes → option bytes) :
  (∀ s a, inet_pton AF_INET s = Some a → length a = 4%nat) →
  (∀ s a, inet_pton AF_INET6 s = Some a → length a = 16%nat) →
  let new_addr := new_addr AF_UNIX AF_INET AF_INET6 inet_pton in
  (∀ net host ds, (net ∈ [bs "tcp"; bs "udp"]) →
     Forall (λ c, is_digit_char c = true) ds → dec_value ds <= INT_MAX →
     (fits (host ++ bs ":" ++ ds) → (":"%char ∉ host) → head host ≠ Some "["%char →
        new_addr net (host ++ bs ":" ++ ds)
        = Ret (MkAddr net (host ++ bs ":" ++ ds) (endpoint inet_pton AF_INET 16 4 host (dec_value ds)))) ∧
     (fits (bs "[" ++ host ++ bs "]:" ++ ds) → ("]"%char ∉ host) →
        new_addr net (bs "[" ++ host ++ bs "]:" ++ ds)
        = Ret (MkAddr net (bs "[" ++ host ++ bs "]:" ++ ds)
                 (endpoint inet_pton AF_INET6 28 8 host (dec_value ds))))) ∧
  (∀ path, path ≠ [] → new_addr (bs "unix") path =
     if len path <=? 252
     then Ret (MkAddr (bs "unix") path ([char_of (len path + 3); char_of AF_UNIX] ++ path ++ [NUL]))
     else Undef) ∧
  (∀ net addr, (net ∉ [bs "tcp"; bs "udp"; bs "unix"]) → new_addr net addr = Ret (MkAddr [] [] [])) ∧
  (∀ net addr a, new_addr net addr = Ret a → IsValid a = true →
     head (data_ a) = Some (char_of (addr_len a))).
Proof.
  intros H4 H6 f. split_and!.
  - intros net host ds Hnet Hd Hv.
    assert (bool_decide (net = bs "tcp") || bool_decide (net = bs "udp") = true) as Hn by set_solver.
    unfold f, new_addr. rewrite Hn. split; intros.
    + by rewrite parse_ipv4.
    + by rewrite parse_ipv6.
  - intros path Hp. change (f (bs "unix") path) with
      (d ← ParseUnixAddr AF_UNIX path []; Ret (MkAddr (bs "unix") path d)).
    rewrite unix_spec by done. by destruct (_ <=? _).
  - intros net addr Hn. unfold f, new_addr. rewrite !bool_decide_false by set_solver. done.
  - intros net addr a Ha Hv. unfold f, new_addr in Ha.
    assert (data_ a = [] ∨ head (data_ a) = Some (char_of (len (data_ a)))) as [E|E]; [| |exact E].
    2:{ unfold IsValid, addr_len in Hv. by rewrite E in Hv. }
    repeat case_match; outcome_inv; cbn [data_]; eauto using parse_ip_sized, parse_unix_sized.
Qed.

(** A resolver that knows one address of each family. *)
Definition one_pton (family : Z) (s : bytes) : option bytes :=
  if (family =? 2) && bool_decide (s = bs "1.2.3.4") then Some (char_of <$> [1; 2; 3; 4])
  else if (family =? 30) && bool_decide (s = bs "::1") then Some (replicate 15 NUL ++ [char_of 1])
  else None.

Lemma Addr_correct_witness :
  new_addr 1 2 30 one_pton (bs "tcp") (bs "1.2.3.4:9999")
  = Ret (MkAddr (bs "tcp") (bs "1.2.3.4:9999")
           (char_of <$> [16; 2; 39; 15; 1; 2; 3; 4; 0; 0; 0; 0; 0; 0; 0; 0])) ∧
  new_addr 1 2 30 one_pton (bs "udp") (bs "[::1]:65536") = Ret (MkAddr (bs "udp") (bs "[::1]:65536") []) ∧
  new_addr 1 2 30 one_pton (bs "unix") (replicate 300 "/"%char) = Undef.
Proof.
  destruct (Addr_correct 1 2 30 one_pton) as (Hip & Hunix & _).
  - intros s a. unfold one_pton. repeat case_match; try done. by intros [= <-].
  - intros s a. unfold one_pton. repeat case_match; try done. by intros [= <-].
  - split_and!.
    + destruct (Hip (bs "tcp") (bs "1.2.3.4") (bs "9999")) as [H _]; [by_decide..|].
      etransitivity; [exact (H ltac:(by_decide) ltac:(by_decide) ltac:(by_decide))|]. by vm_compute.
    + destruct (Hip (bs "udp") (bs "::1") (bs "65536")) as [_ H]; [by_decide..|].
      etransitivity; [exact (H ltac:(by_decide) ltac:(by_decide))|]. by vm_compute.
    + rewrite Hunix by discriminate. by vm_compute.
Defined.
