(* ===== verification/Html.v ===== *)
(** * HTML documents (src/cppboot/net/html: document.h, document.cc, elements/)

    A tree of elements and the text it is dumped as.  What the text means is given
    by a reader of its own: the states of the HTML tokenizer that a page without
    comments, scripts and character references passes through. *)

From S2P Require Import Prelude StdString.

(** ** Elements

    The classes derived from [Element] that have a [Dump] of their own, with their
    members. *)
Inductive Kind : Type :=
  | kElement
  | kTable (heads_ : list bytes) (data_ : list (list bytes))
  | kInput (id_ label_ value_ : bytes).

Inductive Element : Type := MkElement {
  kind_ : Kind;
  name_ : bytes;
  attr_ : gmap bytes bytes;
  text_ : bytes;
  children_ : list Element;
}.

Definition new_element (name text : bytes) : Element := MkElement kElement name ∅ text [].

Definition set_attribute (name value : bytes) (e : Element) : Element :=
  MkElement (kind_ e) (name_ e) (<[name := value]> (attr_ e)) (text_ e) (children_ e).

(** A pointer to an element of a tree is its place: the positions on the way down
    to it.  Children are only appended, so a place stays the same element. *)
Abbreviation place := (list nat).

Fixpoint subtree (p : place) (root : Element) : option Element :=
  match p with
  | [] => Some root
  | i :: p => children_ root !! i ≫= subtree p
  end.

Fixpoint update_at (f : Element → Element) (p : place) (root : Element) : Element :=
  match p with
  | [] => f root
  | i :: p => MkElement (kind_ root) (name_ root) (attr_ root) (text_ root)
                (alter (update_at f p) i (children_ root))
  end.

(** [p->AddChild(e)]: the tree, and the pointer it returns. *)
Definition AddChild (p : place) (e : Element) (root : Element) : outcome (Element * place) :=
  parent ← or_undef (subtree p root);
  Ret (update_at (λ parent, MkElement (kind_ parent) (name_ parent) (attr_ parent) (text_ parent)
                              (children_ parent ++ [e])) p root,
       p ++ [length (children_ parent)]).

Definition Form (action : bytes) : Element := set_attribute (bs "action") action (new_element (bs "form") []).
Definition Input (id label value : bytes) : Element := MkElement (kInput id label value) [] ∅ [] [].
Definition SubmitButton (text : bytes) : Element :=
  set_attribute (bs "value") text (set_attribute (bs "type") (bs "submit") (new_element (bs "input") [])).
Definition Link (text url : bytes) : Element :=
  set_attribute (bs "target") (bs "_blank") (set_attribute (bs "href") url (new_element (bs "a") text)).
Definition Table (heads : list bytes) : Element := MkElement (kTable heads []) (bs "table") ∅ [] [].

Definition AddRow (row : list bytes) (e : Element) : Element :=
  match kind_ e with
  | kTable heads data => MkElement (kTable heads (data ++ [row])) (name_ e) (attr_ e) (text_ e) (children_ e)
  | _ => e
  end.

(** ** Dump *)

Definition tabs (depth : nat) : bytes := replicate depth HT.

Definition attribute_text (kv : bytes * bytes) : bytes :=
  bs " " ++ kv.1 ++ bs "=" ++ [DQ] ++ kv.2 ++ [DQ].

(** [<NAME ATTRIBUTE>] and [</NAME>] *)
Definition open_text (name : bytes) (attrs : list (bytes * bytes)) : bytes :=
  bs "<" ++ name ++ concat (attribute_text <$> attrs) ++ bs ">".
Definition close_text (name : bytes) : bytes := bs "</" ++ name ++ bs ">".

Definition input_text (depth : nat) (id label value : bytes) : bytes :=
  tabs depth ++ open_text (bs "label") [(bs "for", id)] ++ label ++ close_text (bs "label") ++ [LF] ++
  tabs depth ++ open_text (bs "input") [(bs "type", bs "text"); (bs "id", id); (bs "name", id); (bs "value", value)] ++
  bs "<br>" ++ [LF].

Definition cell_text (depth : nat) (tag cell : bytes) : bytes :=
  tabs depth ++ [HT; HT] ++ open_text tag [] ++ cell ++ close_text tag ++ [LF].
Definition row_text (depth : nat) (tag : bytes) (cells : list bytes) : bytes :=
  tabs depth ++ [HT] ++ bs "<tr>" ++ [LF] ++ concat (cell_text depth tag <$> cells) ++
  tabs depth ++ [HT] ++ bs "</tr>" ++ [LF].

(** The cells of a row behind those of the heads are not written. *)
Definition table_text (depth : nat) (heads : list bytes) (data : list (list bytes)) : bytes :=
  tabs depth ++ bs "<table>" ++ [LF] ++
  (if bool_decide (heads = []) then [] else row_text depth (bs "th") heads) ++
  concat ((λ row, row_text depth (bs "td") (take (length heads) row)) <$> data) ++
  tabs depth ++ bs "</table>" ++ [LF].

Fixpoint Dump (e : Element) (depth : nat) : bytes :=
  match kind_ e with
  | kTable heads data => table_text depth heads data
  | kInput id label value => input_text depth id label value
  | kElement =>
      tabs depth ++ open_text (name_ e) (map_iter (attr_ e)) ++
      match children_ e with
      | [] => if bool_decide (text_ e = []) then [LF] else text_ e ++ close_text (name_ e) ++ [LF]
      | cs => [LF] ++ concat ((λ c, Dump c (S depth)) <$> cs) ++ tabs depth ++ close_text (name_ e) ++ [LF]
      end
  end.

(** ** Document *)

Record Document : Type := Doc { title_ : bytes; body_ : Element }.

Definition new_document (title : bytes) : Document := Doc title (new_element (bs "body") []).
Definition set_tittle (s : bytes) (d : Document) : Document := Doc s (body_ d).

(** The lines of the style sheet between its tags. *)
Definition style_sheet : bytes :=
  [LF] ++ bs "table, th, td {" ++ [LF] ++ bs "  border: 1px solid black;" ++ [LF] ++
  bs "  border-collapse: collapse;" ++ [LF] ++ bs "}" ++ [LF].
Definition style : bytes := bs "<style>" ++ style_sheet ++ bs "</style>" ++ [LF].

Definition document_Dump (d : Document) : bytes :=
  bs "<!DOCTYPE html>" ++ [LF] ++ bs "<html>" ++ [LF] ++ bs "<head>" ++ [LF] ++
  open_text (bs "meta") [(bs "charset", bs "UTF-8")] ++ [LF] ++
  style ++ bs "<title>" ++ title_ d ++ bs "</title>" ++ [LF] ++ bs "</head>" ++ [LF] ++
  Dump (body_ d) 0 ++ bs "</html>" ++ [LF].

(** ** What a page means

    The tokens of a page: tags with their attributes in the order of writing, and
    the runs of text that are not blank. *)
Inductive token : Type :=
  | TDecl (text : bytes)
  | TOpen (name : bytes) (attrs : list (bytes * bytes))
  | TClose (name : bytes)
  | TText (text : bytes).

#[export] Instance token_eq_dec : EqDecision token.
Proof. solve_decision. Defined.

Inductive lex : Type :=
  | LData (text : bytes)
  | LTagOpen
  | LDecl (text : bytes)
  | LEndTag (name : bytes)
  | LTagName (name : bytes)
  | LBeforeAttr (name : bytes) (attrs : list (bytes * bytes))
  | LAttrName (name : bytes) (attrs : list (bytes * bytes)) (key : bytes)
  | LBeforeValue (name : bytes) (attrs : list (bytes * bytes)) (key : bytes)
  | LValue (name : bytes) (attrs : list (bytes * bytes)) (key val : bytes)
  | LAfterValue (name : bytes) (attrs : list (bytes * bytes))
  | LBad.

(** The names that are read as they are written. *)
Definition name_char (c : ascii) : bool :=
  ((97 <=? uchar c) && (uchar c <=? 122)) || is_digit_char c.

Definition text_token (text : bytes) : list token :=
  if forallb is_space text then [] else [TText text].

Definition lex_step (x : lex * list token) (c : ascii) : lex * list token :=
  let '(st, ts) := x in
  let eqc d := bool_decide (c = d) in
  match st with
  | LData t => if eqc "<"%char then (LTagOpen, ts ++ text_token t)
               else if eqc "&"%char then (LBad, ts) else (LData (t ++ [c]), ts)
  | LTagOpen => if eqc "!"%char then (LDecl [], ts)
                else if eqc "/"%char then (LEndTag [], ts)
                else if name_char c then (LTagName [c], ts) else (LBad, ts)
  | LDecl t => if eqc ">"%char then (LData [], ts ++ [TDecl t]) else (LDecl (t ++ [c]), ts)
  | LEndTag n => if eqc ">"%char then (LData [], ts ++ [TClose n])
                 else if name_char c then (LEndTag (n ++ [c]), ts) else (LBad, ts)
  | LTagName n => if eqc ">"%char then (LData [], ts ++ [TOpen n []])
                  else if eqc " "%char then (LBeforeAttr n [], ts)
                  else if name_char c then (LTagName (n ++ [c]), ts) else (LBad, ts)
  | LBeforeAttr n a => if name_char c then (LAttrName n a [c], ts) else (LBad, ts)
  | LAttrName n a k => if eqc "="%char then (LBeforeValue n a k, ts)
                       else if name_char c then (LAttrName n a (k ++ [c]), ts) else (LBad, ts)
  | LBeforeValue n a k => if eqc DQ then (LValue n a k [], ts) else (LBad, ts)
  | LValue n a k v => if eqc DQ then (LAfterValue n (a ++ [(k, v)]), ts)
                      else if eqc "&"%char then (LBad, ts) else (LValue n a k (v ++ [c]), ts)
  | LAfterValue n a => if eqc ">"%char then (LData [], ts ++ [TOpen n a])
                       else if eqc " "%char then (LBeforeAttr n a, ts) else (LBad, ts)
  | LBad => (LBad, ts)
  end.

Definition lex_run (l : bytes) (x : lex * list token) : lex * list token := foldl lex_step x l.

(** The tokens of a page, or none if it is not well formed. *)
Definition read_page (l : bytes) : option (list token) :=
  match lex_run l (LData [], []) with
  | (LData t, ts) => Some (ts ++ text_token t)
  | _ => None
  end.

(** *** What a tree should be read as

    The text of an element may hold markup: [text_ok] says that it ends outside of
    a tag, and it means what it is read as. *)
Definition text_ok (t : bytes) : Prop := is_Some (read_page t).
Definition text_tokens (t : bytes) : list token := default [] (read_page t).

Definition plain (t : bytes) : Prop := ("<"%char ∉ t) ∧ ("&"%char ∉ t).
Definition value_ok (v : bytes) : Prop := (DQ ∉ v) ∧ ("&"%char ∉ v).
Definition name_ok (n : bytes) : Prop := n ≠ [] ∧ Forall (λ c, name_char c = true) n.

Definition wrap (name : bytes) (attrs : list (bytes * bytes)) (ts : list token) : list token :=
  TOpen name attrs :: ts ++ [TClose name].

Fixpoint tokens_of (e : Element) : list token :=
  match kind_ e with
  | kTable heads data =>
      wrap (bs "table") []
        ((if bool_decide (heads = []) then []
          else wrap (bs "tr") [] (concat ((λ h, wrap (bs "th") [] (text_tokens h)) <$> heads))) ++
         concat ((λ row, wrap (bs "tr") []
                   (concat ((λ d, wrap (bs "td") [] (text_tokens d)) <$> take (length heads) row))) <$> data))
  | kInput id label value =>
      wrap (bs "label") [(bs "for", id)] (text_tokens label) ++
      [TOpen (bs "input") [(bs "type", bs "text"); (bs "id", id); (bs "name", id); (bs "value", value)];
       TOpen (bs "br") []]
  | kElement =>
      match children_ e with
      | [] => if bool_decide (text_ e = []) then [TOpen (name_ e) (map_iter (attr_ e))]
              else wrap (name_ e) (map_iter (attr_ e)) (text_tokens (text_ e))
      | cs => wrap (name_ e) (map_iter (attr_ e)) (concat (tokens_of <$> cs))
      end
  end.

Fixpoint neat (e : Element) : Prop :=
  match kind_ e with
  | kTable heads data => Forall text_ok heads ∧ Forall (Forall text_ok) data
  | kInput id label value => value_ok id ∧ text_ok label ∧ value_ok value
  | kElement =>
      name_ok (name_ e) ∧ Forall (λ kv, name_ok kv.1 ∧ value_ok kv.2) (map_iter (attr_ e)) ∧
      text_ok (text_ e) ∧ foldr (λ c P, neat c ∧ P) True (children_ e)
  end.

Definition document_tokens (d : Document) : list token :=
  TDecl (bs "DOCTYPE html") ::
  wrap (bs "html") []
    (wrap (bs "head") []
       (TOpen (bs "meta") [(bs "charset", bs "UTF-8")] ::
        wrap (bs "style") [] [TText style_sheet] ++ wrap (bs "title") [] (text_tokens (title_ d))) ++
     tokens_of (body_ d)).

(** * Lemmas *)

(** ** The tokenizer *)

Lemma lex_run_app a b x : lex_run (a ++ b) x = lex_run b (lex_run a x).
Proof. apply foldl_app. Qed.

(** Emission only appends. *)
Lemma lex_step_shift c st ts0 ts : lex_step (st, ts0 ++ ts) c =
  ((lex_step (st, ts) c).1, ts0 ++ (lex_step (st, ts) c).2).
Proof. destruct st; cbn; repeat case_bool_decide; rewrite <-?app_assoc; try done; by repeat case_match. Qed.

Lemma lex_run_shift l : ∀ st ts0 ts, lex_run l (st, ts0 ++ ts) =
  ((lex_run l (st, ts)).1, ts0 ++ (lex_run l (st, ts)).2).
Proof.
  induction l as [|c l IH]; intros st ts0 ts; cbn [lex_run foldl]; [done|].
  rewrite lex_step_shift. destruct (lex_step (st, ts) c) as [st' ts']. apply IH.
Qed.

Lemma text_token_blank t : forallb is_space t = true → text_token t = [].
Proof. unfold text_token. by intros ->. Qed.

Lemma run_text acc ts : ∀ t, plain t → lex_run t (LData acc, ts) = (LData (acc ++ t), ts).
Proof.
  intros t. revert acc. induction t as [|c t IH]; intros acc [H1 H2]; cbn [lex_run foldl]; [by rewrite app_nil_r|].
  apply not_elem_of_cons in H1 as [H1 H1']. apply not_elem_of_cons in H2 as [H2 H2'].
  cbn [lex_step]. rewrite !bool_decide_false by done. fold (lex_run t). unfold lex_run in IH.
  rewrite IH by done. by rewrite <-app_assoc.
Qed.

Lemma name_char_not c d : name_char c = true → name_char d = false → c ≠ d.
Proof. by intros H1 H2 ->; congruence. Qed.

(** A run of characters that only lengthen the name of a state. *)
Lemma run_name (mk : bytes → lex) ts :
  (∀ n c, name_char c = true → lex_step (mk n, ts) c = (mk (n ++ [c]), ts)) →
  ∀ l n, Forall (λ c, name_char c = true) l → lex_run l (mk n, ts) = (mk (n ++ l), ts).
Proof.
  intros Hstep l. induction l as [|c l IH]; intros n H; cbn [lex_run foldl]; [by rewrite app_nil_r|].
  apply Forall_cons in H as [Hc H]. rewrite Hstep by done. unfold lex_run in IH. rewrite IH by done.
  by rewrite <-app_assoc.
Qed.

Ltac not_special H := rewrite !bool_decide_false by (eapply name_char_not; [exact H|done]).

Lemma tag_name_step n ts c : name_char c = true → lex_step (LTagName n, ts) c = (LTagName (n ++ [c]), ts).
Proof. intros H. cbn [lex_step]. not_special H. by rewrite H. Qed.
Lemma end_tag_step n ts c : name_char c = true → lex_step (LEndTag n, ts) c = (LEndTag (n ++ [c]), ts).
Proof. intros H. cbn [lex_step]. not_special H. by rewrite H. Qed.
Lemma attr_name_step n a k ts c : name_char c = true →
  lex_step (LAttrName n a k, ts) c = (LAttrName n a (k ++ [c]), ts).
Proof. intros H. cbn [lex_step]. not_special H. by rewrite H. Qed.

Lemma run_value n a k ts : ∀ v acc, value_ok v →
  lex_run v (LValue n a k acc, ts) = (LValue n a k (acc ++ v), ts).
Proof.
  induction v as [|c v IH]; intros acc [H1 H2]; cbn [lex_run foldl]; [by rewrite app_nil_r|].
  apply not_elem_of_cons in H1 as [H1 H1']. apply not_elem_of_cons in H2 as [H2 H2'].
  cbn [lex_step]. rewrite !bool_decide_false by done. unfold lex_run in IH. rewrite IH by done.
  by rewrite <-app_assoc.
Qed.

(** The states in which an attribute may follow. *)
Definition tag_state (n : bytes) (a : list (bytes * bytes)) : lex :=
  match a with [] => LTagName n | _ => LAfterValue n a end.

Lemma run_attribute n a ts kv : name_ok kv.1 → value_ok kv.2 →
  lex_run (attribute_text kv) (tag_state n a, ts) = (tag_state n (a ++ [kv]), ts).
Proof.
  destruct kv as [[|c k] v]; cbn [fst snd]; intros [Hn Hk] Hv; [done|]. apply Forall_cons in Hk as [Hc Hk].
  unfold attribute_text. cbn [fst snd]. rewrite !lex_run_app.
  assert (lex_run (bs " ") (tag_state n a, ts) = (LBeforeAttr n a, ts)) as -> by (by destruct a).
  change (lex_run (c :: k) (LBeforeAttr n a, ts)) with (lex_run k (lex_step (LBeforeAttr n a, ts) c)).
  cbn [lex_step]. rewrite Hc. rewrite (run_name (LAttrName n a)) by (intros; by apply attr_name_step || done).
  cbn [app]. change (lex_run (bs "=") (LAttrName n a (c :: k), ts)) with (LBeforeValue n a (c :: k), ts).
  change (lex_run [DQ] (LBeforeValue n a (c :: k), ts)) with (LValue n a (c :: k) [], ts).
  rewrite run_value by done. cbn. by destruct a.
Qed.

Lemma run_attributes n ts attrs : ∀ a, Forall (λ kv, name_ok kv.1 ∧ value_ok kv.2) attrs →
  lex_run (concat (attribute_text <$> attrs)) (tag_state n a, ts) = (tag_state n (a ++ attrs), ts).
Proof.
  induction attrs as [|kv attrs IH]; intros a H; [by rewrite app_nil_r|].
  apply Forall_cons in H as [[Hk Hv] H]. cbn [fmap list_fmap concat]. rewrite lex_run_app, run_attribute by done.
  rewrite IH by done. by rewrite <-app_assoc.
Qed.

Lemma run_open name attrs acc ts : name_ok name → Forall (λ kv, name_ok kv.1 ∧ value_ok kv.2) attrs →
  lex_run (open_text name attrs) (LData acc, ts) = (LData [], ts ++ text_token acc ++ [TOpen name attrs]).
Proof.
  intros [Hne Hn] Ha. destruct name as [|c n]; [done|]. apply Forall_cons in Hn as [Hc Hn].
  unfold open_text. rewrite !lex_run_app.
  change (lex_run (bs "<") (LData acc, ts)) with (LTagOpen, ts ++ text_token acc).
  change (lex_run (c :: n) (LTagOpen, ?x)) with (lex_run n (lex_step (LTagOpen, x) c)).
  cbn [lex_step]. not_special Hc. rewrite Hc.
  rewrite (run_name LTagName) by (intros; by apply tag_name_step || done). cbn [app].
  pose proof (run_attributes (c :: n) (ts ++ text_token acc) attrs []) as Hr. cbn [tag_state app] in Hr.
  rewrite Hr by done. rewrite (app_assoc ts). by destruct attrs.
Qed.

Lemma run_close name acc ts : name_ok name →
  lex_run (close_text name) (LData acc, ts) = (LData [], ts ++ text_token acc ++ [TClose name]).
Proof.
  intros [Hne Hn]. unfold close_text. rewrite !lex_run_app.
  change (lex_run (bs "</") (LData acc, ts)) with (LEndTag [], ts ++ text_token acc).
  rewrite (run_name LEndTag) by (intros; by apply end_tag_step || done). cbn [app].
  cbn. by rewrite <-app_assoc.
Qed.

(** ** Pieces of a page

    [adds l ts]: between tags, the text [l] is read as the tokens [ts]. *)

Definition blank (t : bytes) : Prop := forallb is_space t = true.

Definition adds (l : bytes) (ts : list token) : Prop :=
  ∀ acc ts0, blank acc → ∃ acc', blank acc' ∧ lex_run l (LData acc, ts0) = (LData acc', ts0 ++ ts).

Lemma blank_app a b : blank a → blank b → blank (a ++ b).
Proof. unfold blank. rewrite forallb_app. by intros -> ->. Qed.

Lemma blank_plain t : blank t → plain t.
Proof.
  unfold blank. rewrite forallb_forall. intros H.
  split; intros Hc%list_elem_of_In%H; vm_compute in Hc; discriminate Hc.
Qed.

Lemma adds_nil : adds [] [].
Proof. intros acc ts H. exists acc. by rewrite app_nil_r. Qed.

Lemma adds_app l1 l2 ts1 ts2 : adds l1 ts1 → adds l2 ts2 → adds (l1 ++ l2) (ts1 ++ ts2).
Proof.
  intros H1 H2 acc ts Ha. rewrite lex_run_app. destruct (H1 acc ts Ha) as (acc1 & Hb & ->).
  destruct (H2 acc1 (ts ++ ts1) Hb) as (acc2 & Hc & ->). exists acc2. by rewrite app_assoc.
Qed.

Lemma adds_blank l ts l' : blank l → adds l' ts → adds (l ++ l') ts.
Proof.
  intros Hl H. apply (adds_app l l' []); [|done]. intros acc ts0 Ha. exists (acc ++ l).
  split; [by apply blank_app|]. rewrite app_nil_r. apply run_text. by apply blank_plain.
Qed.

Lemma adds_concat {A} (f : A → bytes) (g : A → list token) l :
  Forall (λ x, adds (f x) (g x)) l → adds (concat (f <$> l)) (concat (g <$> l)).
Proof. induction 1; [apply adds_nil|]. by apply adds_app. Qed.

Lemma adds_open name attrs : name_ok name → Forall (λ kv, name_ok kv.1 ∧ value_ok kv.2) attrs →
  adds (open_text name attrs) [TOpen name attrs].
Proof. intros Hn Ha acc ts H. exists []. split; [done|]. by rewrite run_open, text_token_blank. Qed.

Lemma adds_close name : name_ok name → adds (close_text name) [TClose name].
Proof. intros Hn acc ts H. exists []. split; [done|]. by rewrite run_close, text_token_blank. Qed.

(** Text is read up to the end tag that follows it. *)
Lemma adds_text name attrs t l ts : name_ok name → Forall (λ kv, name_ok kv.1 ∧ value_ok kv.2) attrs →
  text_ok t → adds l ts →
  adds (open_text name attrs ++ t ++ close_text name ++ l) (wrap name attrs (text_tokens t) ++ ts).
Proof.
  intros Hn Ha [tt Ht] Hl acc ts0 H. rewrite !lex_run_app, run_open, text_token_blank by done. cbn [app].
  unfold text_tokens. rewrite Ht. cbn [default]. unfold read_page in Ht.
  rewrite <-(app_nil_r (ts0 ++ [TOpen name attrs])), lex_run_shift.
  destruct (lex_run t (LData [], [])) as [[]tsT] eqn:E; try done. injection Ht as <-. cbn [fst snd].
  rewrite run_close by done.
  destruct (Hl [] ((ts0 ++ [TOpen name attrs]) ++ tsT ++ text_token text ++ [TClose name]) eq_refl)
    as (acc' & Hacc & Hr).
  exists acc'. split; [done|]. rewrite <-!app_assoc in Hr. rewrite <-!app_assoc, Hr. unfold wrap. unfold id. cbn [app]. by rewrite <-!app_assoc.
Qed.

Lemma adds_tag name attrs l ts : name_ok name → Forall (λ kv, name_ok kv.1 ∧ value_ok kv.2) attrs →
  adds l ts → adds (open_text name attrs ++ l) (TOpen name attrs :: ts).
Proof. intros. apply (adds_app _ _ [_]); [by apply adds_open|done]. Qed.

Lemma adds_end_tag name l ts : name_ok name → adds l ts → adds (close_text name ++ l) (TClose name :: ts).
Proof. intros. apply (adds_app _ _ [_]); [by apply adds_close|done]. Qed.

Lemma tabs_blank n : blank (tabs n).
Proof. induction n; [done|]. by apply (blank_app [HT]). Qed.

Create HintDb html.
#[export] Hint Resolve adds_nil tabs_blank : html.
#[export] Hint Extern 1 (blank (_ :: _)) => reflexivity : html.
#[export] Hint Extern 1 (name_ok _) => (split; [discriminate|by_decide]) : html.

Lemma adds_LF : adds [LF] [].
Proof. apply (adds_blank [LF] [] []); [done|apply adds_nil]. Qed.
#[export] Hint Resolve adds_LF : html.


(** Read a page from left to right: blanks, tags of constant names, text. *)
Ltac adds_step :=
  lazymatch goal with
  | |- adds (tabs _ ++ _) _ => apply adds_blank; [auto with html|]
  | |- adds ([LF] ++ _) _ => apply adds_blank; [reflexivity|]
  | |- adds ([HT] ++ _) _ => apply adds_blank; [reflexivity|]
  | |- adds ([HT; HT] ++ _) _ => apply adds_blank; [reflexivity|]
  | |- adds (close_text _ ++ _) _ => apply adds_end_tag; [auto with html|]
  end.

(** The tokens of a goal as one list. *)
Ltac flatten_tokens :=
  lazymatch goal with
  | |- adds ?l ?ts => let ts' := eval cbn [app] in ts in change (adds l ts'); rewrite <-?app_assoc
  end.

(** ** Tables and fields *)

Lemma adds_cell depth tag cell l ts : name_ok tag → text_ok cell → adds l ts →
  adds (cell_text depth tag cell ++ l) (wrap tag [] (text_tokens cell) ++ ts).
Proof.
  intros. unfold cell_text. rewrite <-!app_assoc. do 2 adds_step.
  apply adds_text; [done|constructor|done|]. by adds_step.
Qed.

Lemma adds_row depth tag cells : name_ok tag → Forall text_ok cells →
  adds (row_text depth tag cells) (wrap (bs "tr") [] (concat ((λ c, wrap tag [] (text_tokens c)) <$> cells))).
Proof.
  intros Ht Hc. unfold row_text, wrap. do 2 adds_step.
  change (bs "<tr>") with (open_text (bs "tr") []). apply adds_tag; [auto with html|constructor|]. adds_step.
  apply adds_app.
  - apply adds_concat. eapply Forall_impl; [exact Hc|]. intros c Hcell.
    rewrite <-(app_nil_r (cell_text _ _ _)), <-(app_nil_r (_ :: _)). apply adds_cell; auto with html.
  - do 2 adds_step. change (bs "</tr>") with (close_text (bs "tr")). adds_step. auto with html.
Qed.

Lemma adds_table depth heads data : Forall text_ok heads → Forall (Forall text_ok) data →
  adds (table_text depth heads data) (tokens_of (MkElement (kTable heads data) [] ∅ [] [])).
Proof.
  intros Hh Hd. unfold table_text. cbn [tokens_of kind_]. unfold wrap at 1. adds_step.
  change (bs "<table>") with (open_text (bs "table") []). apply adds_tag; [auto with html|constructor|]. adds_step.
  rewrite <-app_assoc. apply adds_app; [|apply adds_app].
  - case_bool_decide; [apply adds_nil|]. apply adds_row; auto with html.
  - apply adds_concat. eapply Forall_impl; [exact Hd|]. intros row Hrow.
    apply adds_row; [auto with html|]. by apply Forall_take.
  - adds_step. change (bs "</table>") with (close_text (bs "table")). adds_step. auto with html.
Qed.

Lemma adds_input depth id label val : value_ok id → text_ok label → value_ok val →
  adds (input_text depth id label val) (tokens_of (MkElement (kInput id label val) [] ∅ [] [])).
Proof.
  intros Hi Hl Hv. unfold input_text. cbn [tokens_of kind_]. adds_step.
  assert (Forall (λ kv : bytes * bytes, name_ok kv.1 ∧ value_ok kv.2) [(bs "for", id)]) as Hf.
  { repeat constructor; cbn; try done; auto with html; apply Hi. }
  apply adds_text; [auto with html|done..|]. do 2 adds_step. apply adds_tag; [auto with html| |].
  - repeat constructor; cbn; try done; try apply Hi; try apply Hv; auto with html; by_decide.
  - change (bs "<br>") with (open_text (bs "br") []). apply adds_tag; [auto with html|constructor|]. auto with html.
Qed.

(** ** Elements *)

Lemma Element_nested_ind (P : Element → Prop) :
  (∀ k n a t cs, Forall P cs → P (MkElement k n a t cs)) → ∀ e, P e.
Proof.
  intros H. fix IH 1. intros [k n a t cs]. apply H. induction cs as [|c cs IHcs]; constructor; [apply IH|apply IHcs].
Qed.

Lemma neat_children cs : foldr (λ c P, neat c ∧ P) True cs ↔ Forall neat cs.
Proof. induction cs as [|c cs IH]; cbn; [by split|]. by rewrite Forall_cons, IH. Qed.

Lemma adds_element e : ∀ depth, neat e → adds (Dump e depth) (tokens_of e).
Proof.
  induction e as [k n a t cs IH] using Element_nested_ind. intros depth. destruct k as [|heads data|id label val].
  - intros (Hn & Ha & Ht & Hc). cbn [name_ attr_ text_ children_] in *.
    cbn [Dump tokens_of kind_ name_ attr_ text_ children_]. apply neat_children in Hc.
    destruct cs as [|c cs].
    + case_bool_decide; adds_step.
      * apply adds_tag; auto with html.
      * rewrite <-(app_nil_r (wrap _ _ _)). apply adds_text; auto with html.
    + adds_step. unfold wrap. apply adds_tag; [done..|]. adds_step. apply adds_app.
      * apply adds_concat. apply Forall_forall. rewrite !Forall_forall in *. naive_solver.
      * adds_step. apply adds_end_tag; auto with html.
  - intros [Hh Hd]. by apply adds_table.
  - intros (Hi & Hl & Hv). by apply adds_input.
Qed.

Lemma style_ok : text_ok style_sheet ∧ text_tokens style_sheet = [TText style_sheet].
Proof. split; [eexists; vm_compute; reflexivity|vm_compute; reflexivity]. Qed.

Lemma adds_document d : text_ok (title_ d) → neat (body_ d) → adds (document_Dump d) (document_tokens d).
Proof.
  intros Ht Hb. unfold document_Dump, document_tokens.
  apply (adds_app (bs "<!DOCTYPE html>") _ [_]).
  { intros acc ts H. exists []. split; [done|]. unfold lex_run. cbn -[app text_token].
    rewrite text_token_blank by done. by rewrite app_nil_r. }
  adds_step. unfold wrap at 1.
  change (bs "<html>") with (open_text (bs "html") []). apply adds_tag; [auto with html|constructor|]. adds_step.
  rewrite <-app_assoc. unfold wrap at 1. flatten_tokens.
  change (bs "<head>") with (open_text (bs "head") []). apply adds_tag; [auto with html|constructor|]. adds_step.
  apply adds_tag; [auto with html| |].
  { repeat constructor; cbn; try done; by_decide. }
  adds_step. rewrite <-?app_assoc. destruct style_ok as [Hs Hst].
  unfold style. rewrite <-!app_assoc. rewrite <-Hst.
  change (bs "<style>") with (open_text (bs "style") []). change (bs "</style>") with (close_text (bs "style")).
  apply adds_text; [auto with html|constructor|done|]. adds_step.
  change (bs "<title>") with (open_text (bs "title") []). change (bs "</title>") with (close_text (bs "title")).
  apply adds_text; [auto with html|constructor|done|]. adds_step.
  change (bs "</head>") with (close_text (bs "head")). do 2 adds_step.
  apply adds_app; [by apply adds_element|].
  change (bs "</html>") with (close_text (bs "html")). adds_step. auto with html.
Qed.

(** Text without markup is read as it is. *)
Lemma plain_ok t : plain t → text_ok t ∧ text_tokens t = text_token t.
Proof.
  intros H. unfold text_ok, text_tokens, read_page. rewrite run_text by done. by split.
Qed.

Lemma adds_read l ts : adds l ts → read_page l = Some ts.
Proof.
  intros H. unfold read_page. destruct (H [] [] eq_refl) as (acc & Ha & ->). by rewrite text_token_blank, app_nil_r.
Qed.

(** * Properties *)

(** C31: what a document is dumped as is read back as its tree: each element as a tag
    with its attributes in the order of their names, around what is in it.  An
    element with neither text nor children has no end tag; the text of an element
    that has children is not written; a row shows as many cells as there are heads.
    Text is not escaped: what holds markup is read as markup, so the tree says what
    it is read as, and plain text is read as itself. *)
Theorem document_read_back (d : Document) :
  text_ok (title_ d) → neat (body_ d) →
  read_page (document_Dump d) = Some (document_tokens d) ∧
  ∀ t, plain t → text_ok t ∧ text_tokens t = text_token t.
Proof.
  intros Ht Hb. split; [|by apply plain_ok]. by apply adds_read, adds_document.
Qed.

Lemma document_read_back_witness :
  let body := new_element (bs "body") [] in
  let form := set_attribute (bs "action") (bs "/todo") (new_element (bs "form") []) in
  let d := AddRow [bs "1"; bs "milk"; bs "dropped"]
             (Table [bs "id"; bs "<b>text</b>"]) in
  let tree := MkElement kElement (bs "body") ∅ [] [form; d; Link (bs "source") (bs "https://x.org"); new_element (bs "hr") []] in
  read_page (document_Dump (Doc (bs "List") tree)) = Some (document_tokens (Doc (bs "List") tree)).
Proof.
  intros body form d tree. apply (document_read_back (Doc (bs "List") tree)).
  - by eexists.
  - repeat split; try discriminate; try by_decide; try (by eexists); try (by repeat constructor; eexists).
Defined.
