(* ===== verification/Todo.v ===== *)
(** * The todo list (src/examples/todo: core.h, core.cc, todo.cc, server.cc)

    The list of items, its repository in a JSON file, and the commands of the two
    programs, each of which loads the list, changes it and saves it.  A [Repository]
    is a record of its operations, as the class is an interface; [FileRepository]
    is one of them. *)

From S2P Require Import Prelude StdString StringView Status Fs JsonValue JsonDump JsonParse Json Timestamp.
Import Fs.

(** ** Items and repositories (core.h) *)

Record Item : Type := { item_id : Z; item_text : bytes; update_at : Timestamp }.

Abbreviation ItemList := (list Item).

Section todo.
(** The system, with its files and its clock ([gettimeofday]: seconds and
    microseconds), and the characters of a [double], which no list has. *)
Context {S H : Type} `{!FileSystem S H}.
Context (gettimeofday : S → (Z * Z) * S) (dump_float : spec_float → bytes).

Definition now (s : S) : outcome (Timestamp * S) :=
  let '((sec, usec), s) := gettimeofday s in
  t ← Now sec usec; Ret (t, s).

(** [LoadAllItems(&items, &id_max)] leaves the items and [id_max]. *)
Record Repository : Type := {
  LoadAllItems : ItemList → Z → S → outcome (Status * ItemList * Z * S);
  SaveAllItems : ItemList → S → outcome (Status * S);
}.

Record Data : Type := { repository_ : option Repository; next_id_ : Z; items_ : ItemList }.

Definition new_data : Data := {| repository_ := None; next_id_ := 0; items_ := [] |}.

Definition set_items (l : ItemList) (d : Data) : Data :=
  {| repository_ := repository_ d; next_id_ := next_id_ d; items_ := l |}.

(** ** The operations (core.cc) *)

Definition set_repository (r : option Repository) (d : Data) (s : S) : outcome (Data * S) :=
  match r with
  | None => Ret ({| repository_ := None; next_id_ := next_id_ d; items_ := items_ d |}, s)
  | Some repo =>
      '(_, l, id_max, s) ← LoadAllItems repo (items_ d) 0 s;
      next ← int_result (id_max + 1);
      Ret ({| repository_ := r; next_id_ := next; items_ := l |}, s)
  end.

(** [fetch_add] of an [atomic_int] wraps around. *)
Definition fetch_add (d : Data) : Z * Data :=
  (next_id_ d, {| repository_ := repository_ d; next_id_ := i32 (next_id_ d + 1); items_ := items_ d |}).

Definition GetNextID (d : Data) : Z * Data :=
  let '(id, d) := fetch_add d in if id <=? 0 then fetch_add d else (id, d).

(** The status, and the id that was given. *)
Definition Add (text : bytes) (d : Data) (s : S) : outcome (Status * option Z * Data * S) :=
  if bool_decide (text = []) then Ret (InvalidArgumentError (bs "empty item"), None, d, s)
  else
    let '(new_id, d) := GetNextID d in
    '(t, s) ← now s;
    let d := set_items (items_ d ++ [{| item_id := new_id; item_text := text; update_at := t |}]) d in
    match repository_ d with
    | Some repo =>
        '(st, s) ← SaveAllItems repo (items_ d) s;
        if status_ok st then Ret (OkStatus, Some new_id, d, s) else Ret (st, None, d, s)
    | None => Ret (OkStatus, Some new_id, d, s)
    end.

(** The calls that ignore what the repository answers. *)
Definition save (d : Data) (s : S) : outcome S :=
  match repository_ d with
  | Some repo => '(_, s) ← SaveAllItems repo (items_ d) s; Ret s
  | None => Ret s
  end.

Fixpoint erase (id : Z) (l : ItemList) : option ItemList :=
  match l with
  | [] => None
  | i :: l => if item_id i =? id then Some l else cons i <$> erase id l
  end.

Definition Delete (id : Z) (d : Data) (s : S) : outcome (Status * Data * S) :=
  match erase id (items_ d) with
  | Some l => let d := set_items l d in s ← save d s; Ret (OkStatus, d, s)
  | None => Ret (NotFoundError (bs "not found"), d, s)
  end.

(** [Find] and the assignment to the item it found. *)
Fixpoint update_item (id : Z) (text : bytes) (l : ItemList) : option ItemList :=
  match l with
  | [] => None
  | i :: l =>
      if item_id i =? id
      then Some ({| item_id := item_id i; item_text := text; update_at := update_at i |} :: l)
      else cons i <$> update_item id text l
  end.

Definition Update (id : Z) (text : bytes) (d : Data) (s : S) : outcome (Status * Data * S) :=
  if bool_decide (text = []) then Ret (InvalidArgumentError (bs "empty item"), d, s)
  else
    match update_item id text (items_ d) with
    | Some l => let d := set_items l d in s ← save d s; Ret (OkStatus, d, s)
    | None => Ret (NotFoundError (bs "not found"), d, s)
    end.

Definition Show (id : Z) (d : Data) : option Item := list_find (λ i, item_id i = id) (items_ d) ≫= λ x, Some x.2.

(** ** [FileRepository] *)

(** The loop over "items". *)
Fixpoint load_items (l : list json) (items : ItemList) (max : Z) (s : S) : outcome (ItemList * Z * S) :=
  match l with
  | [] => Ret (items, max, s)
  | j :: l =>
      '(j, id) ← json_index (bs "id") j;
      id ← json_int id;
      '(_, text) ← json_index (bs "text") j;
      text ← json_string text;
      '(t, s) ← now s;
      load_items l (items ++ [{| item_id := id; item_text := text; update_at := t |}])
        (if max <? id then id else max) s
  end.

Definition file_LoadAllItems (filename : bytes) (_ : ItemList) (id_max : Z) (s : S) :
    outcome (Status * ItemList * Z * S) :=
  match ifstream_read (until_nul filename) s with
  | None => Ret (InvalidArgumentError (bs "file not found"), [], id_max, s)
  | Some data =>
      j ← Parser.json_parse data;
      '(items, max, s) ←
        match j with
        | JObject _ =>
            '(_, j_items) ← json_index (bs "items") j;
            match j_items with
            | JArray l => load_items l [] 0 s
            | _ => Ret ([], 0, s)
            end
        | _ => Ret ([], 0, s)
        end;
      Ret (OkStatus, items, max, s)
  end.

Fixpoint save_items (l : ItemList) (j_items : json) : outcome json :=
  match l with
  | [] => Ret j_items
  | i :: l =>
      j ← json_set (bs "id") (JInt (item_id i)) JNull;
      j ← json_set (bs "text") (JString (item_text i)) j;
      j ← json_set (bs "update_at") (JString (ToFormattedString true (update_at i))) j;
      j_items ← push_back j j_items;
      save_items l j_items
  end.

Definition file_SaveAllItems (filename : bytes) (items : ItemList) (s : S) : outcome (Status * S) :=
  j_items ← save_items items JNull;
  '(t, s) ← now s;
  root ← json_set (bs "create") (JString (ToFormattedString true t)) JNull;
  root ← json_set (bs "items") j_items root;
  content ← Serializer.json_dump dump_float 2 root;
  let '(_, s) := WriteFile filename content s in
  Ret (OkStatus, s).

Definition CreateFileRepository (filename : bytes) : Repository :=
  {| LoadAllItems := file_LoadAllItems filename; SaveAllItems := file_SaveAllItems filename |}.

(** ** The commands (todo.cc, server.cc)

    Each is given the repository; it answers a status, and lines of text. *)

Definition open_data (repo : Repository) (s : S) : outcome (Data * S) :=
  set_repository (Some repo) new_data s.

Definition entry_line (id : Z) (text : bytes) : bytes := itoa id ++ [char_of 9] ++ text.

Definition do_add (repo : Repository) (text : bytes) (s : S) : outcome (Status * list bytes * S) :=
  '(d, s) ← open_data repo s;
  '(st, id, d, s) ← Add text d s;
  Ret (st, if status_ok st then [bs "Add Done:"; entry_line (default 0 id) text] else [], s).

Definition do_list (repo : Repository) (s : S) : outcome (list bytes * S) :=
  '(d, s) ← open_data repo s;
  Ret ((λ i, entry_line (item_id i) (item_text i)) <$> items_ d, s).

Definition do_show (repo : Repository) (id : Z) (s : S) : outcome (list bytes * S) :=
  '(d, s) ← open_data repo s;
  Ret (match Show id d with
       | Some i => [entry_line (item_id i) (item_text i)]
       | None => [bs "Not found"]
       end, s).

Definition do_delete (repo : Repository) (id : Z) (s : S) : outcome (Status * S) :=
  '(d, s) ← open_data repo s;
  '(st, d, s) ← Delete id d s;
  Ret (st, s).

Definition do_modify (repo : Repository) (id : Z) (new_text : bytes) (s : S) :
    outcome (Status * list bytes * S) :=
  '(d, s) ← open_data repo s;
  '(st, d, s) ← Update id new_text d s;
  Ret (st, if status_ok st then [bs "Update Done:"; entry_line id new_text] else [], s).

(** [std::stoi] *)
Definition stoi (s : bytes) : outcome Z :=
  n ← stoll s;
  if (INT_MIN <=? n) && (n <=? INT_MAX) then Ret n else Throw out_of_range.

(** The command line of the page (server.cc): [substr(sep)] starts with the blank. *)
Definition DoCommand (repo : Repository) (cmdline : bytes) (s : S) : outcome S :=
  let sep := str_find_char cmdline " " 0 in
  if sep =? npos then Ret s
  else
    cmd ← str_substr cmdline 0 sep;
    rest ← str_substr cmdline sep npos;
    if bool_decide (cmd = bs "add") then
      '(_, _, s) ← do_add repo (until_nul rest) s; Ret s
    else if bool_decide (cmd = bs "del") then
      id ← stoi rest; '(_, s) ← do_delete repo id s; Ret s
    else Ret s.

(** ** Sequences of commands *)

Inductive command : Type :=
  | CAdd (text : bytes)
  | CDelete (id : Z)
  | CModify (id : Z) (text : bytes)
  | CList
  | CShow (id : Z).

(** A command, and what it answers: the code of its status, and its lines. *)
Definition run_command (repo : Repository) (c : command) (s : S) : outcome (StatusCode * list bytes * S) :=
  match c with
  | CAdd text => '(st, o, s) ← do_add repo text s; Ret (status_code st, o, s)
  | CDelete id => '(st, s) ← do_delete repo id s; Ret (status_code st, [], s)
  | CModify id text => '(st, o, s) ← do_modify repo id text s; Ret (status_code st, o, s)
  | CList => '(o, s) ← do_list repo s; Ret (kOk, o, s)
  | CShow id => '(o, s) ← do_show repo id s; Ret (kOk, o, s)
  end.

Fixpoint run_commands (repo : Repository) (cs : list command) (s : S) :
    outcome (list (StatusCode * list bytes) * S) :=
  match cs with
  | [] => Ret ([], s)
  | c :: cs =>
      '(st, o, s) ← run_command repo c s;
      '(os, s) ← run_commands repo cs s;
      Ret ((st, o) :: os, s)
  end.

End todo.

(** ** What the commands mean

    The list as ids and texts. *)

Abbreviation entries := (list (Z * bytes)).

Definition entry_of (i : Item) : Z * bytes := (item_id i, item_text i).

(** The greatest id, 0 if there is none. *)
Definition id_max (l : entries) : Z := foldl (λ m kv, if m <? kv.1 then kv.1 else m) 0 l.

Definition spec_command (c : command) (l : entries) : (StatusCode * list bytes) * entries :=
  match c with
  | CAdd text =>
      if bool_decide (text = []) then ((kInvalidArgument, []), l)
      else ((kOk, [bs "Add Done:"; entry_line (id_max l + 1) text]), l ++ [(id_max l + 1, text)])
  | CDelete id =>
      if bool_decide (id ∈ l.*1) then ((kOk, []), filter (λ kv, kv.1 ≠ id) l)
      else ((kNotFound, []), l)
  | CModify id text =>
      if bool_decide (text = []) then ((kInvalidArgument, []), l)
      else if bool_decide (id ∈ l.*1) then
        ((kOk, [bs "Update Done:"; entry_line id text]),
         (λ kv, if bool_decide (kv.1 = id) then (id, text) else kv) <$> l)
      else ((kNotFound, []), l)
  | CList => ((kOk, (λ kv, entry_line kv.1 kv.2) <$> l), l)
  | CShow id =>
      ((kOk, match list_find (λ kv, kv.1 = id) l with
             | Some (_, kv) => [entry_line kv.1 kv.2]
             | None => [bs "Not found"]
             end), l)
  end.

Fixpoint spec_commands (cs : list command) (l : entries) : list (StatusCode * list bytes) * entries :=
  match cs with
  | [] => ([], l)
  | c :: cs => let '(o, l) := spec_command c l in let '(os, l) := spec_commands cs l in (o :: os, l)
  end.

(** The texts are UTF-8. *)
Definition command_ok (c : command) : Prop :=
  match c with CAdd text | CModify _ text => utf8_ok text = true | _ => True end.

(** A list as [n] commands can leave it. *)
Definition entries_ok (n : Z) (l : entries) : Prop :=
  NoDup l.*1 ∧ Forall (λ kv, 1 <= kv.1 <= n ∧ utf8_ok kv.2 = true) l.

(** What the commands need of a repository: what it stores is what was saved last,
    whatever the clock does. *)
Class RepositoryLaws {S} (gettimeofday : S → (Z * Z) * S) (repo : Repository (S := S))
    (stores : S → entries → Prop) : Prop := {
  load_law s l items : stores s l → entries_ok INT_MAX l →
    ∃ st l' s', LoadAllItems repo items 0 s = Ret (st, l', id_max l, s') ∧
      entry_of <$> l' = l ∧ stores s' l;
  save_law s l items : stores s l → entries_ok INT_MAX (entry_of <$> items) →
    ∃ s', SaveAllItems repo items s = Ret (OkStatus, s') ∧ stores s' (entry_of <$> items);
  clock_law s l : stores s l → ∃ t s', now gettimeofday s = Ret (t, s') ∧ stores s' l;
}.

(** * Lemmas *)

(** ** Lists of entries *)

Lemma id_max_app l kv : id_max (l ++ [kv]) = Z.max (id_max l) kv.1.
Proof. unfold id_max. rewrite foldl_app. cbn. destruct (_ <? _) eqn:E; bool_hyps; lia. Qed.

Lemma id_max_bounds n l : 0 <= n → Forall (λ kv, 1 <= kv.1 <= n ∧ utf8_ok kv.2 = true) l →
  0 <= id_max l <= n ∧ Forall (λ kv, kv.1 <= id_max l) l.
Proof.
  intros Hn. induction l as [|kv l IH] using rev_ind; intros H; [by split|].
  apply Forall_app in H as [H [Hkv _]%Forall_cons]. destruct (IH H) as [Hb Hf]. rewrite id_max_app.
  split; [lia|]. apply Forall_app. split; [|constructor; [lia|constructor]].
  eapply Forall_impl; [exact Hf|]. cbn. lia.
Qed.

Lemma entries_weaken n n' l : n <= n' → entries_ok n l → entries_ok n' l.
Proof.
  intros Hn [Hd Hf]. split; [done|]. eapply Forall_impl; [exact Hf|]. cbn. intros kv [??]. split; [lia|done].
Qed.

Lemma entries_add n l text : 0 <= n → entries_ok n l → utf8_ok text = true →
  entries_ok (n + 1) (l ++ [(id_max l + 1, text)]).
Proof.
  intros Hn [Hd Hf] Hu. destruct (id_max_bounds n l Hn Hf) as [Hb Hm]. split.
  - rewrite fmap_app. apply NoDup_app. split; [done|]. split; [|apply NoDup_singleton].
    intros id Hid ->%list_elem_of_singleton. apply list_elem_of_fmap in Hid as (kv & Heq & Hin).
    rewrite Forall_forall in Hm. apply Hm in Hin. cbn in *. lia.
  - apply Forall_app. split; [|repeat constructor; cbn; try lia; done].
    eapply Forall_impl; [exact Hf|]. cbn. intros kv [??]. split; [lia|done].
Qed.

Lemma filter_all {A} (P : A → Prop) `{!∀ x, Decision (P x)} l : Forall P l → filter P l = l.
Proof. induction 1 as [|x l Hx _ IH]; [done|]. by rewrite filter_cons_True, IH. Qed.

Lemma NoDup_filter_fst (P : Z * bytes → Prop) `{!∀ x, Decision (P x)} l :
  NoDup l.*1 → NoDup (filter P l).*1.
Proof.
  induction l as [|kv l IH]; [done|]. rewrite fmap_cons. intros [Hk Hl]%NoDup_cons.
  rewrite filter_cons. case_decide; [|by apply IH]. rewrite fmap_cons. apply NoDup_cons.
  split; [|by apply IH]. intros (x & Heq & Hx)%list_elem_of_fmap. apply Hk. rewrite Heq.
  apply list_elem_of_fmap_2. by apply list_elem_of_filter in Hx as [_ Hx].
Qed.

Lemma entries_filter n l P `{!∀ x, Decision (P x)} : entries_ok n l → entries_ok n (filter P l).
Proof.
  intros [Hd Hf]. split.
  - by apply NoDup_filter_fst.
  - rewrite Forall_forall in *. intros kv [_ Hkv]%list_elem_of_filter. by apply Hf.
Qed.

Lemma fst_map (l : entries) id text :
  ((λ kv : Z * bytes, if bool_decide (kv.1 = id) then (id, text) else kv) <$> l).*1 = l.*1.
Proof.
  rewrite <-list_fmap_compose. apply list_fmap_ext. intros i kv _. unfold compose.
  by case_bool_decide.
Qed.

Lemma entries_map n l id text : entries_ok n l → utf8_ok text = true →
  entries_ok n ((λ kv, if bool_decide (kv.1 = id) then (id, text) else kv) <$> l).
Proof.
  intros [Hd Hf] Hu. split; [by rewrite fst_map|]. rewrite Forall_fmap.
  eapply Forall_impl; [exact Hf|]. intros kv [Hk Hv]. unfold compose.
  case_bool_decide as He; [|done]. cbn [fst snd]. by rewrite <-He.
Qed.

Lemma erase_spec id items : NoDup (entry_of <$> items).*1 →
  if bool_decide (id ∈ (entry_of <$> items).*1)
  then ∃ l, erase id items = Some l ∧ entry_of <$> l = filter (λ kv, kv.1 ≠ id) (entry_of <$> items)
  else erase id items = None.
Proof.
  induction items as [|i items IH]; [done|]. rewrite !fmap_cons. intros [Hi Hd]%NoDup_cons.
  cbn [erase]. destruct (item_id i =? id) eqn:E; bool_hyps.
  - rewrite bool_decide_true by (cbn [entry_of fst]; rewrite E; apply list_elem_of_here). eexists. split; [done|].
    rewrite filter_cons_False by (cbn; congruence). symmetry. apply filter_all.
    apply Forall_forall. intros kv Hkv Heq. apply Hi. cbn [entry_of fst].
    rewrite E, <-Heq. by apply list_elem_of_fmap_2.
  - specialize (IH Hd). destruct (decide (id ∈ (entry_of <$> items).*1)) as [Hin|Hin].
    + rewrite bool_decide_true in IH by done. rewrite bool_decide_true by by apply list_elem_of_further.
      destruct IH as (l & -> & Hl). eexists. split; [done|]. rewrite fmap_cons, Hl.
      by rewrite filter_cons_True by (cbn; congruence).
    + rewrite bool_decide_false in IH by done. rewrite IH.
      rewrite bool_decide_false; [done|]. intros [Heq|H]%elem_of_cons; [|done]. cbn in Heq. congruence.
Qed.

Lemma update_spec id text items : NoDup (entry_of <$> items).*1 →
  if bool_decide (id ∈ (entry_of <$> items).*1)
  then ∃ l, update_item id text items = Some l ∧
    entry_of <$> l = (λ kv, if bool_decide (kv.1 = id) then (id, text) else kv) <$> (entry_of <$> items)
  else update_item id text items = None.
Proof.
  induction items as [|i items IH]; [done|]. rewrite !fmap_cons. intros [Hi Hd]%NoDup_cons.
  cbn [update_item]. destruct (item_id i =? id) eqn:E; bool_hyps.
  - rewrite bool_decide_true by (cbn [entry_of fst]; rewrite E; apply list_elem_of_here). eexists. split; [done|].
    rewrite !fmap_cons. cbn [entry_of item_id item_text fst]. rewrite bool_decide_true by done.
    rewrite E. f_equal. rewrite <-(list_fmap_id (entry_of <$> items)) at 1.
    apply list_fmap_ext. intros j kv Hkv%list_elem_of_lookup_2. rewrite bool_decide_false; [done|].
    intros Heq. apply Hi. cbn [entry_of fst]. rewrite E, <-Heq. by apply list_elem_of_fmap_2.
  - specialize (IH Hd). destruct (decide (id ∈ (entry_of <$> items).*1)) as [Hin|Hin].
    + rewrite bool_decide_true in IH by done. rewrite bool_decide_true by by apply list_elem_of_further.
      destruct IH as (l & -> & Hl). eexists. split; [done|]. rewrite !fmap_cons, Hl.
      f_equal. cbn [entry_of fst]. by rewrite bool_decide_false by congruence.
    + rewrite bool_decide_false in IH by done. rewrite IH.
      rewrite bool_decide_false; [done|]. intros [Heq|H]%elem_of_cons; [|done]. cbn in Heq. congruence.
Qed.

Lemma find_entry id items :
  list_find (λ kv, kv.1 = id) (entry_of <$> items) =
  prod_map (λ k, k) entry_of <$> list_find (λ i, item_id i = id) items.
Proof. by rewrite list_find_fmap. Qed.

(** ** The commands, against the laws of a repository *)

Section laws.
Context {S H : Type} `{!FileSystem S H} (gettimeofday : S → (Z * Z) * S).
Context (repo : Repository (S := S)) (stores : S → entries → Prop).
Context {laws : RepositoryLaws gettimeofday repo stores}.

Lemma open_spec s l n : stores s l → entries_ok n l → 0 <= n < INT_MAX →
  ∃ d s', open_data repo s = Ret (d, s') ∧ stores s' l ∧ entry_of <$> items_ d = l ∧
    repository_ d = Some repo ∧ next_id_ d = id_max l + 1 ∧ 1 <= next_id_ d <= n + 1.
Proof.
  intros Hs Hl Hn. unfold open_data, set_repository.
  destruct (load_law s l (items_ (new_data (S:=S))) Hs) as (st & l' & s' & -> & Hl' & Hs').
  { eapply entries_weaken; [|exact Hl]. lia. }
  destruct Hl as [_ Hf]. destruct (id_max_bounds n l ltac:(lia) Hf) as [Hb _].
  cbn [mbind outcome_bind]. rewrite int_result_Ret by (unfold INT_MIN; lia). cbn [mbind outcome_bind].
  eexists _, s'. split; [done|]. split_and!; [done..|cbn; lia|cbn; lia].
Qed.

Lemma add_spec s l n text : stores s l → entries_ok n l → 0 <= n < INT_MAX → utf8_ok text = true →
  ∃ o s', run_command gettimeofday repo (CAdd text) s = Ret (o, s') ∧
    o = (spec_command (CAdd text) l).1 ∧ stores s' (spec_command (CAdd text) l).2.
Proof.
  intros Hs Hl Hn Hu. cbn [run_command]. unfold do_add, spec_command.
  destruct (open_spec s l n Hs Hl Hn) as (d & s1 & -> & Hs1 & Hd & Hr & Hi & Hi2).
  cbn [mbind outcome_bind]. unfold Add. case_bool_decide as Ht.
  { cbn [mbind outcome_bind]. by eexists _, s1. }
  unfold GetNextID, fetch_add. rewrite Hi. rewrite (proj2 (Z.leb_gt _ _)) by lia.
  destruct (clock_law s1 l Hs1) as (t & s2 & -> & Hs2). cbn [mbind outcome_bind set_items repository_ items_].
  rewrite Hr. assert (entries_ok (n + 1) (l ++ [(id_max l + 1, text)])) as Hl2 by (apply entries_add; done || lia).
  edestruct (save_law (RepositoryLaws := laws) s2 l) as (s3 & -> & Hs3); [exact Hs2| |].
  { rewrite fmap_app, Hd. eapply entries_weaken; [|exact Hl2]. lia. }
  cbn [mbind outcome_bind status_ok status_code default]. eexists _, s3. split; [done|]. split; [done|].
  by rewrite fmap_app, Hd in Hs3.
Qed.

Lemma save_spec s l n d items : stores s l → repository_ d = Some repo → entries_ok n (entry_of <$> items) →
  n <= INT_MAX → ∃ s', save (set_items items d) s = Ret s' ∧ stores s' (entry_of <$> items).
Proof.
  intros Hs Hr Hi Hn. unfold save. cbn [set_items repository_ items_]. rewrite Hr.
  destruct (save_law (RepositoryLaws := laws) s l items Hs) as (s' & -> & Hs'); [by eapply entries_weaken|].
  cbn [mbind outcome_bind]. by exists s'.
Qed.

Lemma delete_spec s l n id : stores s l → entries_ok n l → 0 <= n < INT_MAX →
  ∃ o s', run_command gettimeofday repo (CDelete id) s = Ret (o, s') ∧
    o = (spec_command (CDelete id) l).1 ∧ stores s' (spec_command (CDelete id) l).2.
Proof.
  intros Hs Hl Hn. cbn [run_command]. unfold do_delete, spec_command.
  destruct (open_spec s l n Hs Hl Hn) as (d & s1 & -> & Hs1 & Hd & Hr & _).
  cbn [mbind outcome_bind]. unfold Delete. pose proof (erase_spec id (items_ d)) as He.
  rewrite Hd in He. specialize (He (proj1 Hl)). case_bool_decide.
  - destruct He as (l' & -> & Hl'). cbn [mbind outcome_bind].
    destruct (save_spec s1 l n d l' Hs1 Hr) as (s2 & -> & Hs2); [by rewrite Hl'; apply entries_filter|lia|].
    cbn [mbind outcome_bind]. eexists _, s2. split; [done|]. split; [done|]. by rewrite <-Hl'.
  - rewrite He. cbn [mbind outcome_bind]. by eexists _, s1.
Qed.

Lemma modify_spec s l n id text : stores s l → entries_ok n l → 0 <= n < INT_MAX → utf8_ok text = true →
  ∃ o s', run_command gettimeofday repo (CModify id text) s = Ret (o, s') ∧
    o = (spec_command (CModify id text) l).1 ∧ stores s' (spec_command (CModify id text) l).2.
Proof.
  intros Hs Hl Hn Hu. cbn [run_command]. unfold do_modify, spec_command.
  destruct (open_spec s l n Hs Hl Hn) as (d & s1 & -> & Hs1 & Hd & Hr & _).
  cbn [mbind outcome_bind]. unfold Update. case_bool_decide as Ht.
  { cbn [mbind outcome_bind]. by eexists _, s1. }
  pose proof (update_spec id text (items_ d)) as He.
  rewrite Hd in He. specialize (He (proj1 Hl)). case_bool_decide.
  - destruct He as (l' & -> & Hl'). cbn [mbind outcome_bind].
    destruct (save_spec s1 l n d l' Hs1 Hr) as (s2 & -> & Hs2); [by rewrite Hl'; apply entries_map|lia|].
    cbn [mbind outcome_bind]. eexists _, s2. split; [done|]. split; [done|]. by rewrite <-Hl'.
  - rewrite He. cbn [mbind outcome_bind]. by eexists _, s1.
Qed.

Lemma read_spec s l n c : stores s l → entries_ok n l → 0 <= n < INT_MAX →
  (c = CList ∨ ∃ id, c = CShow id) →
  ∃ o s', run_command gettimeofday repo c s = Ret (o, s') ∧ o = (spec_command c l).1 ∧
    stores s' (spec_command c l).2.
Proof.
  intros Hs Hl Hn Hc. destruct (open_spec s l n Hs Hl Hn) as (d & s1 & Ho & Hs1 & Hd & _).
  destruct Hc as [->|[id ->]]; cbn [run_command]; unfold do_list, do_show; rewrite Ho;
    cbn [mbind outcome_bind]; (eexists _, s1; split; [done|]; split; [|done]); cbn [spec_command fst];
    f_equal; rewrite <-Hd.
  - by rewrite <-list_fmap_compose.
  - unfold Show. rewrite find_entry. by destruct (list_find _ (items_ d)) as [[k i]|].
Qed.

Lemma command_spec s l n c : stores s l → entries_ok n l → 0 <= n < INT_MAX → command_ok c →
  ∃ o s', run_command gettimeofday repo c s = Ret (o, s') ∧ o = (spec_command c l).1 ∧
    stores s' (spec_command c l).2.
Proof.
  intros. destruct c; [by eapply add_spec|by eapply delete_spec|by eapply modify_spec|
    eapply read_spec; eauto..].
Qed.

Lemma spec_ok l n c : entries_ok n l → 0 <= n → command_ok c → entries_ok (n + 1) (spec_command c l).2.
Proof.
  intros Hl Hn Hc. assert (entries_ok (n + 1) l) by (eapply entries_weaken; [|exact Hl]; lia).
  destruct c; cbn in *; repeat case_bool_decide; cbn; try done.
  - by apply entries_add.
  - by apply entries_filter.
  - by apply entries_map.
Qed.

Lemma commands_spec cs : ∀ s l n, stores s l → entries_ok n l → 0 <= n → n + len cs < INT_MAX →
  Forall command_ok cs →
  ∃ s', run_commands gettimeofday repo cs s = Ret ((spec_commands cs l).1, s') ∧
    stores s' (spec_commands cs l).2.
Proof.
  induction cs as [|c cs IH]; intros s l n Hs Hl Hn Hlen Hcs; cbn [run_commands spec_commands].
  { by exists s. }
  apply Forall_cons in Hcs as [Hc Hcs]. cbn [length] in Hlen.
  destruct (command_spec s l n c Hs Hl ltac:(lia) Hc) as (o & s1 & -> & -> & Hs1).
  pose proof (spec_ok l n c Hl Hn Hc) as Hl1.
  destruct (spec_command c l) as [[st o] l1]. cbn [mbind outcome_bind fst snd] in *.
  destruct (IH s1 l1 (n + 1) Hs1 Hl1 ltac:(lia) ltac:(lia) Hcs) as (s2 & -> & Hs2).
  cbn [mbind outcome_bind]. destruct (spec_commands cs l1) as [os l2]. by exists s2.
Qed.

End laws.

(** ** The repository in a file *)

Lemma utf8_ascii_all s : Forall (λ c, uchar c < 128) s → utf8_ok s = true.
Proof.
  induction 1 as [|c s Hc _ IH]; [done|]. change (c :: s) with ([c] ++ s).
  apply utf8_app; [by apply utf8_ascii|done].
Qed.

Lemma utoa_ascii n : 0 <= n → Forall (λ c, uchar c < 128) (utoa n).
Proof.
  intros Hn. eapply Forall_impl; [by apply utoa_digits|]. intros c Hc.
  unfold is_digit_char in Hc. bool_hyps. lia.
Qed.

Lemma pad_ascii c w s : uchar c < 128 → Forall (λ c, uchar c < 128) s → Forall (λ c, uchar c < 128) (pad c w s).
Proof. intros Hc Hs. apply Forall_app. split; [by apply Forall_replicate|done]. Qed.

Lemma itoa_ascii z : Forall (λ c, uchar c < 128) (itoa z).
Proof.
  unfold itoa. destruct (z <? 0) eqn:E; bool_hyps; [constructor; [done|]|]; apply utoa_ascii; lia.
Qed.

Lemma fmt_0d_ascii w z : Forall (λ c, uchar c < 128) (fmt_0d w z).
Proof.
  unfold fmt_0d. destruct (z <? 0) eqn:E; bool_hyps; [constructor; [done|]|];
    apply pad_ascii; try done; apply utoa_ascii; lia.
Qed.

Lemma formatted_ascii b t : utf8_ok (ToFormattedString b t) = true.
Proof.
  apply utf8_ascii_all. unfold ToFormattedString, snprintf.
  destruct b; apply Forall_take; repeat (apply Forall_app; split);
    first [apply fmt_0d_ascii | apply itoa_ascii | by apply Forall_replicate | by repeat constructor].
Qed.

(** What is saved. *)
Definition item_json (i : Item) : json :=
  JObject [(bs "id", JInt (item_id i)); (bs "text", JString (item_text i));
           (bs "update_at", JString (ToFormattedString true (update_at i)))].
Definition items_json (l : ItemList) : json :=
  match l with [] => JNull | _ => JArray (item_json <$> l) end.
Definition root_json (t : Timestamp) (l : ItemList) : json :=
  JObject [(bs "create", JString (ToFormattedString true t)); (bs "items", items_json l)].

Lemma save_items_array l acc : save_items l (JArray acc) = Ret (JArray (acc ++ (item_json <$> l))).
Proof.
  revert acc. induction l as [|i l IH]; intros acc; [by rewrite app_nil_r|].
  change (save_items l (JArray (acc ++ [item_json i])) = Ret (JArray (acc ++ (item_json <$> i :: l)))).
  by rewrite IH, <-app_assoc.
Qed.

Lemma save_items_json l : save_items l JNull = Ret (items_json l).
Proof.
  destruct l as [|i l]; [done|].
  change (save_items l (JArray [item_json i]) = Ret (items_json (i :: l))).
  by rewrite save_items_array.
Qed.

Lemma forallb_Forall {A} (f : A → bool) l : forallb f l = true ↔ Forall (λ x, f x = true) l.
Proof.
  induction l as [|x l IH]; [by split|]. cbn [forallb]. by rewrite andb_true_iff, Forall_cons, IH.
Qed.

Lemma root_json_ok t l : entries_ok INT_MAX (entry_of <$> l) →
  json_wf (root_json t l) ∧ json_utf8 (root_json t l) = true ∧
  json_plain (unsigned (root_json t l)) = true ∧ indent_fits 2 (root_json t l).
Proof.
  intros [_ Hf]. rewrite Forall_fmap in Hf.
  assert (Forall (λ i, json_wf (item_json i) ∧ json_utf8 (item_json i) = true ∧
    json_plain (unsigned (item_json i)) = true ∧ depth (item_json i) = 1) l) as Hl.
  { eapply Forall_impl; [exact Hf|]. intros i [Hi Ht]. cbn in Hi, Ht. unfold INT_MAX in Hi. split_and!.
    - split; [repeat constructor|]. repeat split; cbn; lia.
    - unfold item_json. cbn [json_utf8 forallb fst snd]. by rewrite Ht, formatted_ascii.
    - unfold item_json. cbn [unsigned]. rewrite !fmap_cons. cbn [fst snd unsigned].
      by rewrite (proj2 (Z.leb_le 0 (item_id i))) by lia.
    - done. }
  assert (json_wf (items_json l) ∧ json_utf8 (items_json l) = true ∧
    json_plain (unsigned (items_json l)) = true ∧ depth (items_json l) <= 2) as (H1 & H2 & H3 & H4).
  { destruct l as [|i l]; [by cbn|]. cbn [items_json]. revert Hl. generalize (i :: l). clear. intros l Hl.
    split_and!.
    - cbn [json_wf]. apply (foldr_and_Forall json_wf), Forall_fmap. eapply Forall_impl; [exact Hl|]. by intros ? [].
    - cbn [json_utf8]. apply forallb_Forall, Forall_fmap. eapply Forall_impl; [exact Hl|]. intros j (_ & H & _).
      exact H.
    - cbn [unsigned]. unfold json_plain. cbn [plain_with].
      apply forallb_Forall, Forall_fmap, Forall_fmap. eapply Forall_impl; [exact Hl|].
      intros j (_ & _ & H & _). exact H.
    - cbn [depth]. enough (foldr (λ x d, Z.max (depth x) d) 0 (item_json <$> l) <= 1) by lia.
      induction Hl as [|j l (_ & _ & _ & Hj) _ IH]; [done|]. rewrite fmap_cons. cbn [foldr]. lia. }
  split_and!.
  - split; [repeat constructor|]. by repeat split.
  - unfold root_json. cbn [json_utf8 forallb fst snd]. by rewrite formatted_ascii, H2.
  - unfold root_json. cbn [unsigned]. rewrite !fmap_cons. cbn [fst snd]. unfold json_plain in *.
    cbn [plain_with forallb snd]. by rewrite H3.
  - split; [lia|]. unfold root_json. cbn [depth foldr snd]. lia.
Qed.

Section file.
Context {S H : Type} `{!FileSystem S H} (gettimeofday : S → (Z * Z) * S).
Context (dump_float : spec_float → bytes) (filename : bytes).

(** What the system documents: a file that was written is read back; reading the
    clock, which is between 1970 and the year 200000, changes no file. *)
Record file_laws : Prop := {
  write_read : ∀ content s, ∃ s', ofstream_write (until_nul filename) content s = Some s' ∧
    ifstream_read (until_nul filename) s' = Some content;
  clock_reads : ∀ s, let '((sec, usec), s') := gettimeofday s in
    0 <= sec < 2 ^ 43 ∧ 0 <= usec < 1000000 ∧
    ifstream_read (until_nul filename) s' = ifstream_read (until_nul filename) s;
}.

(** The file is not there and the list is empty, or it is a saved list. *)
Definition file_stores (s : S) (l : entries) : Prop :=
  match ifstream_read (until_nul filename) s with
  | None => l = []
  | Some data => ∃ t items, entry_of <$> items = l ∧
      Parser.json_parse data = Ret (unsigned (root_json t items))
  end.

Context (Hlaws : file_laws) (Hname : filename ≠ []).

Lemma now_reads s : ∃ t s', now gettimeofday s = Ret (t, s') ∧
  ifstream_read (until_nul filename) s' = ifstream_read (until_nul filename) s.
Proof.
  pose proof (clock_reads Hlaws s) as Hc. unfold now, Now, int64_result, kMicroSecondsPerSecond.
  destruct (gettimeofday s) as [[sec usec] s']. destruct Hc as (Hs & Hu & Hr).
  unfold INT64_MIN, INT64_MAX. rewrite !(proj2 (Z.leb_le _ _)) by lia. cbn [andb mbind outcome_bind].
  rewrite !(proj2 (Z.leb_le _ _)) by lia. cbn [andb mbind outcome_bind]. by eexists _, s'.
Qed.

Lemma load_items_spec items : ∀ acc m s, entries_ok INT_MAX (entry_of <$> items) →
  ∃ l s', load_items gettimeofday (unsigned <$> (item_json <$> items)) acc m s =
    Ret (acc ++ l, foldl (λ m kv, if m <? kv.1 then kv.1 else m) m (entry_of <$> items), s') ∧
    entry_of <$> l = entry_of <$> items ∧
    ifstream_read (until_nul filename) s' = ifstream_read (until_nul filename) s.
Proof.
  induction items as [|i items IH]; intros acc m s Hok.
  { exists [], s. by rewrite app_nil_r. }
  destruct Hok as [[Hi Hd]%NoDup_cons [[Hid _] Hf]%Forall_cons]. cbn in Hid. unfold INT_MAX in Hid.
  rewrite !fmap_cons. cbn [load_items foldl].
  assert (unsigned (item_json i) = JObject [(bs "id", JUint (item_id i)); (bs "text", JString (item_text i));
    (bs "update_at", JString (ToFormattedString true (update_at i)))]) as ->.
  { unfold item_json. cbn [unsigned]. rewrite !fmap_cons. cbn [fst snd unsigned].
    by rewrite (proj2 (Z.leb_le 0 (item_id i))) by lia. }
  set (upd := (bs "update_at", _)).
  change (json_index (bs "id") _) with
    (Ret (JObject [(bs "id", JUint (item_id i)); (bs "text", JString (item_text i)); upd], JUint (item_id i))).
  cbn [mbind outcome_bind].
  assert (json_int (JUint (item_id i)) = Ret (item_id i)) as ->.
  { unfold json_int, json_arith. rewrite i32_small; [done|unfold INT_MIN, INT_MAX; lia]. }
  cbn [mbind outcome_bind].
  change (json_index (bs "text") _) with
    (Ret (JObject [(bs "id", JUint (item_id i)); (bs "text", JString (item_text i)); upd], JString (item_text i))).
  cbn [mbind outcome_bind json_string].
  destruct (now_reads s) as (t & s1 & -> & Hr1). cbn [mbind outcome_bind].
  destruct (IH (acc ++ [{| item_id := item_id i; item_text := item_text i; update_at := t |}])
    (if m <? item_id i then item_id i else m) s1) as (l & s2 & -> & Hl & Hr2); [by split|].
  exists ({| item_id := item_id i; item_text := item_text i; update_at := t |} :: l), s2.
  split; [by rewrite <-app_assoc|]. split; [by rewrite fmap_cons, Hl|congruence].
Qed.

Lemma file_load s l items : file_stores s l → entries_ok INT_MAX l →
  ∃ st l' s', file_LoadAllItems gettimeofday filename items 0 s = Ret (st, l', id_max l, s') ∧
    entry_of <$> l' = l ∧ file_stores s' l.
Proof.
  unfold file_stores, file_LoadAllItems. destruct (ifstream_read _ s) as [data|] eqn:Hread.
  2: { intros -> _. exists (InvalidArgumentError (bs "file not found")), [], s. by rewrite Hread. }
  intros (t & its & Hl & Hj) Hok. rewrite Hj. cbn [mbind outcome_bind].
  set (create := JString (ToFormattedString true t)).
  change (unsigned (root_json t its)) with
    (JObject [(bs "create", create); (bs "items", unsigned (items_json its))]).
  change (json_index (bs "items") _) with
    (Ret (JObject [(bs "create", create); (bs "items", unsigned (items_json its))], unsigned (items_json its))).
  cbn [mbind outcome_bind]. destruct its as [|i its].
  { cbn [items_json unsigned mbind outcome_bind]. eexists OkStatus, [], s. subst l. rewrite Hread.
    split_and!; [done..|]. by exists t, []. }
  cbn [items_json unsigned]. rewrite <-Hl in Hok.
  destruct (load_items_spec (i :: its) [] 0 s Hok) as (l' & s' & -> & Hl' & Hr).
  cbn [mbind outcome_bind]. eexists OkStatus, l', s'. rewrite Hl', Hr, Hread.
  split; [by unfold id_max; rewrite <-Hl|]. split; [done|]. by exists t, (i :: its).
Qed.

Lemma file_save s items : entries_ok INT_MAX (entry_of <$> items) →
  ∃ s', file_SaveAllItems gettimeofday dump_float filename items s = Ret (OkStatus, s') ∧
    file_stores s' (entry_of <$> items).
Proof.
  intros Hok. unfold file_SaveAllItems. rewrite save_items_json. cbn [mbind outcome_bind].
  destruct (now_reads s) as (t & s1 & -> & _). cbn [mbind outcome_bind].
  change (json_set (bs "create") _ JNull) with
    (Ret (JObject [(bs "create", JString (ToFormattedString true t))])). cbn [mbind outcome_bind].
  change (json_set (bs "items") _ _) with (Ret (root_json t items)). cbn [mbind outcome_bind].
  destruct (root_json_ok t items Hok) as (Hwf & Hu & Hp & Hi).
  pose proof (json_dump_text dump_float 2 _ Hwf Hi) as Hd. rewrite Hu in Hd. rewrite Hd.
  cbn [mbind outcome_bind]. unfold WriteFile. rewrite bool_decide_false by done.
  destruct (write_read Hlaws (json_text dump_float 2 (root_json t items)) s1) as (s2 & -> & Hr).
  exists s2. split; [done|]. unfold file_stores. rewrite Hr. exists t, items. split; [done|].
  by apply (json_dump_unsigned dump_float 2 _ _ Hwf Hp Hi).
Qed.

#[local] Instance file_repository_laws :
  RepositoryLaws gettimeofday (CreateFileRepository gettimeofday dump_float filename) file_stores.
Proof.
  split.
  - intros s l items. apply file_load.
  - intros s l items _. apply file_save.
  - intros s l Hs. destruct (now_reads s) as (t & s' & Hn & Hr). exists t, s'. split; [done|].
    unfold file_stores. by rewrite Hr.
Qed.

End file.

(** * Properties *)

(** C19: the commands work on one list that lasts.  Each command of the program is a
    process of its own, which reads the file, changes the list and writes it.
    Started without a file, any sequence of fewer than 2^31 - 1 commands, whose
    texts are UTF-8, answers as if they worked on one list of ids and texts: an
    item gets an id greater than all there are, is deleted, changed and shown by
    its id, an unknown id and an empty text are refused; and the file that is left
    stores that list. *)
Theorem todo_persists {S H : Type} `{!FileSystem S H} (gettimeofday : S → (Z * Z) * S)
    (dump_float : spec_float → bytes) (filename : bytes) (cs : list command) (s : S) :
  file_laws gettimeofday filename → filename ≠ [] →
  ifstream_read (until_nul filename) s = None → len cs < INT_MAX → Forall command_ok cs →
  ∃ s', run_commands gettimeofday (CreateFileRepository gettimeofday dump_float filename) cs s =
      Ret ((spec_commands cs []).1, s') ∧
    file_stores filename s' (spec_commands cs []).2.
Proof.
  intros Hlaws Hname Hr Hl Hc.
  pose proof (file_repository_laws gettimeofday dump_float filename Hlaws Hname) as Hrepo.
  apply (commands_spec gettimeofday _ (file_stores filename) cs s [] 0); try done.
  - unfold file_stores. by rewrite Hr.
  - split; constructor.
Qed.

(** A system with files and no directories, whose clock stands still. *)
#[export] Instance map_fs : FileSystem (gmap bytes bytes) unit := {
  sys_remove p s := if bool_decide (is_Some (s !! p)) then (None, delete p s) else (Some ENOENT, s);
  sys_mkdir _ _ s := (Some 1, s);
  sys_link _ _ s := (Some 1, s);
  sys_symlink _ _ s := (Some 1, s);
  sys_rename _ _ s := (Some 1, s);
  opendir_readdir _ _ := None;
  sys_realpath _ _ := None;
  sys_readlink _ _ := None;
  sys_access p s := bool_decide (is_Some (s !! p));
  sys_lstat_isdir _ _ := None;
  sys_stat_size p s := (λ c, len c) <$> s !! p;
  ofstream_write p c s := Some (<[p := c]> s);
  open_append_write _ _ s := (None, s);
  ifstream_read p s := s !! p;
  fopen _ _ s := (inl ENOENT, s);
  fread _ _ s := ([], s);
  fwrite _ _ s := (0, s);
  ferror _ _ := 0;
  fclose _ s := s;
}.

Definition noon (s : gmap bytes bytes) : (Z * Z) * gmap bytes bytes := ((1700000000, 500), s).

Lemma todo_persists_witness :
  let cs := [CAdd (bs "milk"); CAdd (bs "tea"); CDelete 1; CModify 2 (bs "green tea"); CAdd (bs "bread");
             CDelete 7; CList] in
  ∃ s', run_commands noon (CreateFileRepository noon (λ _, []) (bs "todo.json")) cs ∅ =
      Ret ((spec_commands cs []).1, s') ∧
    (spec_commands cs []).2 = [(2, bs "green tea"); (3, bs "bread")] ∧
    file_stores (bs "todo.json") s' [(2, bs "green tea"); (3, bs "bread")].
Proof.
  intros cs. assert ((spec_commands cs []).2 = [(2, bs "green tea"); (3, bs "bread")]) as He
    by (vm_compute; reflexivity).
  destruct (todo_persists noon (λ _, []) (bs "todo.json") cs ∅) as (s' & H1 & H2).
  - split; [|intros s; repeat split; lia]. intros c s. eexists. split; [reflexivity|]. apply lookup_insert_eq.
  - done.
  - done.
  - done.
  - repeat (constructor; [by vm_compute|]). constructor.
  - exists s'. split; [exact H1|]. split; [exact He|]. rewrite <-He. exact H2.
Defined.
