(* ===== verification/TodoWeb.v ===== *)
(** * The page of the todo list (src/examples/todo: server.cc, ui.h)

    The handler that [main] registers for "/todo": the command of the request, and
    the page with the list it leaves. *)

From S2P Require Import Prelude StdString Status Fs FormData HttpMsg ServeMux JsonDump Json Timestamp Html Todo.
Import Fs.

(** ** The page (ui.h) *)

Record HtmlUi : Type := Ui { doc_ : Document; cmd_ : bytes }.

(** [AddChild] to the body, or to an element in it. *)
Definition add_to (p : place) (e : Element) (d : Document) : outcome (Document * place) :=
  '(b, q) ← AddChild p e (body_ d);
  Ret (Doc (title_ d) b, q).

Definition AddCommandBox (ui : HtmlUi) : outcome HtmlUi :=
  '(d, form) ← add_to [] (Form (bs "/todo")) (doc_ ui);
  '(d, _) ← add_to form (Input (bs "cmd") (bs "请输入命令：") []) d;
  '(d, _) ← add_to form (SubmitButton (bs "执行")) d;
  '(d, _) ← add_to [] (new_element (bs "hr") []) d;
  Ret (Ui d (cmd_ ui)).

Definition new_ui : outcome HtmlUi := AddCommandBox (Ui (new_document (bs "My TODO")) []).
Definition set_cmd (cmd : bytes) (ui : HtmlUi) : HtmlUi := Ui (doc_ ui) cmd.

Section web.
Context {S : Type} (gettimeofday : S → (Z * Z) * S) (repo : Repository (S := S)).

(** [do_list()] of the server: the list as markup. *)
Definition item_markup (i : Item) : bytes := bs "<p>" ++ entry_line (item_id i) (item_text i) ++ bs "</p>".

Definition web_do_list (s : S) : outcome (bytes * S) :=
  '(d, s) ← open_data repo s;
  Ret (concat (item_markup <$> items_ d), s).

(** [ui.doc()] completes the page. *)
Definition doc (ui : HtmlUi) (s : S) : outcome (Document * S) :=
  d ← (if bool_decide (cmd_ ui = []) then Ret (doc_ ui)
       else '(d, _) ← add_to [] (new_element (bs "p") (bs "CMD: " ++ cmd_ ui)) (doc_ ui); Ret d);
  '(d, _) ← add_to [] (new_element (bs "p") (bs "LIST:")) d;
  '(items, s) ← web_do_list s;
  '(d, _) ← add_to [] (new_element (bs "p") items) d;
  Ret (d, s).

(** The handler of "/todo". *)
Definition todo_handler (req : Request) (resp : Response) (s : S) : outcome (Response * S) :=
  ui ← new_ui;
  let cmd := Param (Some (bs "cmd")) req in
  '(ui, s) ← (if bool_decide (cmd = []) then Ret (ui, s)
              else s ← DoCommand gettimeofday repo cmd s; Ret (set_cmd cmd ui, s));
  '(d, s) ← doc ui s;
  Ret (WriteHtml ok (document_Dump d) resp, s).

(** [server.Handle("/todo", ...)], and the handlers as the mux calls them; [main]
    registers this one only. *)
Definition main_mux : outcome (ServeMux unit) := set_handler (bs "/todo") tt new_mux.

Definition call_todo (s : S) (_ : unit) (req : Request) (resp : Response) : outcome Response :=
  '(r, _) ← todo_handler req resp s; Ret r.

End web.

(** ** What a command and a page mean *)

(** "add TEXT" and "del NUMBER"; the blank belongs to what follows, and other
    commands do nothing. *)
Definition web_command (c : bytes) : outcome (option command) :=
  if bool_decide (take 4 c = bs "add ") then Ret (Some (CAdd (until_nul (drop 3 c))))
  else if bool_decide (take 4 c = bs "del ") then id ← stoi (drop 3 c); Ret (Some (CDelete id))
  else Ret None.

(** The list after a command. *)
Definition web_list (oc : option command) (l : entries) : entries :=
  match oc with Some k => (spec_command k l).2 | None => l end.

Definition p_tokens (ts : list token) : list token := wrap (bs "p") [] ts.

Definition list_tokens (l : entries) : list token :=
  match l with
  | [] => [TOpen (bs "p") []]
  | _ => p_tokens (concat ((λ kv, p_tokens [TText (entry_line kv.1 kv.2)]) <$> l))
  end.

Definition form_tokens : list token :=
  wrap (bs "form") [(bs "action", bs "/todo")]
    (wrap (bs "label") [(bs "for", bs "cmd")] [TText (bs "请输入命令：")] ++
     [TOpen (bs "input") [(bs "type", bs "text"); (bs "id", bs "cmd"); (bs "name", bs "cmd"); (bs "value", [])];
      TOpen (bs "br") [];
      TOpen (bs "input") [(bs "type", bs "submit"); (bs "value", bs "执行")]]) ++
  [TOpen (bs "hr") []].

Definition body_tokens (c : bytes) (l : entries) : list token :=
  form_tokens ++ (if bool_decide (c = []) then [] else p_tokens [TText (bs "CMD: " ++ c)]) ++
  p_tokens [TText (bs "LIST:")] ++ list_tokens l.

Definition page_tokens (c : bytes) (l : entries) : list token :=
  TDecl (bs "DOCTYPE html") ::
  wrap (bs "html") []
    (wrap (bs "head") []
       (TOpen (bs "meta") [(bs "charset", bs "UTF-8")] ::
        wrap (bs "style") [] [TText style_sheet] ++ wrap (bs "title") [] [TText (bs "My TODO")]) ++
     wrap (bs "body") [] (body_tokens c l)).

(** * Lemmas *)

(** ** The text of a list *)

Lemma itoa_shape z : ∃ c s, itoa z = c :: s ∧ is_space c = false ∧ plain (itoa z).
Proof.
  assert (∀ s, Forall (λ c, is_digit_char c = true) s → plain s) as Hp.
  { intros s H. rewrite Forall_forall in H. split; intros Hc%H; by vm_compute in Hc. }
  unfold itoa. destruct (z <? 0) eqn:E; bool_hyps.
  - destruct (Hp (utoa (- z))) as [H1 H2]; [apply utoa_digits; lia|].
    eexists _, _. split; [done|]. split; [done|]. by split; apply not_elem_of_cons.
  - pose proof (utoa_digits z ltac:(lia)) as Hd. pose proof (utoa_nonempty z ltac:(lia)) as Hne.
    pose proof (Hp _ Hd). destruct (utoa z) as [|c s]; [done|]. eexists _, _. split; [done|].
    apply Forall_cons in Hd as [Hc _]. split; [|done]. unfold is_digit_char, is_space in *. lia.
Qed.

Lemma plain_app a b : plain a → plain b → plain (a ++ b).
Proof. unfold plain. rewrite !not_elem_of_app. tauto. Qed.

Lemma entry_line_text id text : plain text →
  plain (entry_line id text) ∧ text_token (entry_line id text) = [TText (entry_line id text)].
Proof.
  intros Ht. destruct (itoa_shape id) as (c & s & Hi & Hc & Hp). unfold entry_line. split.
  - apply plain_app; [done|]. apply plain_app; [by apply blank_plain|done].
  - unfold text_token. rewrite Hi. cbn [app forallb]. by rewrite Hc.
Qed.

Lemma adds_items l : Forall (λ i, plain (item_text i)) l →
  adds (concat (item_markup <$> l))
    (concat ((λ kv, p_tokens [TText (entry_line kv.1 kv.2)]) <$> (entry_of <$> l))).
Proof.
  intros H. rewrite <-list_fmap_compose. apply adds_concat. eapply Forall_impl; [exact H|].
  intros i Hi. unfold item_markup, p_tokens. cbn [compose entry_of fst snd].
  change (bs "<p>") with (open_text (bs "p") []). change (bs "</p>") with (close_text (bs "p")).
  destruct (entry_line_text (item_id i) (item_text i) Hi) as [Hp Ht].
  destruct (plain_ok _ Hp) as [Hok Hts]. rewrite Ht in Hts. rewrite <-Hts.
  rewrite <-(app_nil_r (close_text _)), <-(app_nil_r (wrap _ _ _)).
  apply adds_text; auto with html.
Qed.

Lemma items_text l : Forall (λ i, plain (item_text i)) l →
  text_ok (concat (item_markup <$> l)) ∧
  tokens_of (new_element (bs "p") (concat (item_markup <$> l))) = list_tokens (entry_of <$> l).
Proof.
  intros H. pose proof (adds_read _ _ (adds_items l H)) as Hr. split; [by eexists|].
  unfold new_element. cbn [tokens_of kind_ name_ attr_ text_ children_]. unfold text_tokens. rewrite Hr.
  destruct l as [|i l]; [done|]. by rewrite bool_decide_false.
Qed.

(** ** The page *)

(** The body as it is served. *)
Definition page_body (c items : bytes) : Element :=
  MkElement kElement (bs "body") ∅ []
    ([MkElement kElement (bs "form") {[bs "action" := bs "/todo"]} []
        [Input (bs "cmd") (bs "请输入命令：") []; SubmitButton (bs "执行")];
      new_element (bs "hr") []] ++
     (if bool_decide (c = []) then [] else [new_element (bs "p") (bs "CMD: " ++ c)]) ++
     [new_element (bs "p") (bs "LIST:"); new_element (bs "p") items]).

Lemma new_ui_built : ∃ d, new_ui = Ret (Ui d []) ∧ title_ d = bs "My TODO" ∧
  body_ d = MkElement kElement (bs "body") ∅ []
    [MkElement kElement (bs "form") {[bs "action" := bs "/todo"]} []
       [Input (bs "cmd") (bs "请输入命令：") []; SubmitButton (bs "执行")]; new_element (bs "hr") []].
Proof. eexists. split; [reflexivity|]. by split. Qed.

Lemma add_to_body e d b : body_ d = b → kind_ b = kElement →
  ∃ p, add_to [] e d = Ret (Doc (title_ d)
    (MkElement (kind_ b) (name_ b) (attr_ b) (text_ b) (children_ b ++ [e])), p).
Proof. intros <- _. by eexists. Qed.

(** The attributes of the form and its button, in the order of their names. *)
Lemma form_attributes : map_iter {[bs "action" := bs "/todo"]} = [(bs "action", bs "/todo")].
Proof. vm_compute. reflexivity. Qed.
Lemma button_attributes :
  map_iter (attr_ (SubmitButton (bs "执行"))) = [(bs "type", bs "submit"); (bs "value", bs "执行")].
Proof. vm_compute. reflexivity. Qed.

Lemma empty_ok : text_ok [].
Proof. by eexists. Qed.

Lemma element_neat name attr cs : name_ok name →
  Forall (λ kv, name_ok kv.1 ∧ value_ok kv.2) (map_iter attr) → Forall neat cs →
  neat (MkElement kElement name attr [] cs).
Proof.
  intros Hn Ha Hc. cbn [neat kind_ name_ attr_ text_ children_].
  split; [done|]. split; [done|]. split; [apply empty_ok|]. by apply neat_children.
Qed.

Lemma attribute_ok k v : name_ok k → value_ok v → (λ kv : bytes * bytes, name_ok kv.1 ∧ value_ok kv.2) (k, v).
Proof. done. Qed.

Lemma text_element_neat name t : name_ok name → text_ok t → neat (new_element name t).
Proof. intros Hn Ht. cbn [neat new_element kind_ name_ attr_ text_ children_]. by split_and!. Qed.

Lemma button_neat : neat (SubmitButton (bs "执行")).
Proof.
  change (SubmitButton ?t) with (MkElement kElement (bs "input") (attr_ (SubmitButton t)) [] []).
  apply element_neat; [auto with html| |constructor]. rewrite button_attributes.
  repeat (constructor; [apply attribute_ok; [auto with html|split; by_decide]|]). constructor.
Qed.

Lemma form_neat : Forall neat
  [MkElement kElement (bs "form") {[bs "action" := bs "/todo"]} []
     [Input (bs "cmd") (bs "请输入命令：") []; SubmitButton (bs "执行")]; new_element (bs "hr") []].
Proof.
  constructor; [|constructor; [|constructor]].
  - apply element_neat; [auto with html| |].
    + rewrite form_attributes. constructor; [|constructor]. apply attribute_ok; [auto with html|]. split; by_decide.
    + constructor; [|constructor; [|constructor]].
      * split_and!; [split; by_decide|by eexists|split; by_decide].
      * apply button_neat.
  - apply text_element_neat; [auto with html|apply empty_ok].
Qed.

Lemma page_body_neat c items : plain c → text_ok items → neat (page_body c items).
Proof.
  intros Hc Hi. apply element_neat; [auto with html|constructor|].
  apply Forall_app. split; [apply form_neat|]. apply Forall_app. split.
  - case_bool_decide; constructor; [|constructor]. apply text_element_neat; [auto with html|].
    apply plain_ok, plain_app; [split; by_decide|done].
  - constructor; [|constructor; [|constructor]]; (apply text_element_neat; [auto with html|]); [by eexists|done].
Qed.

Lemma plain_tokens t : plain t → forallb is_space t = false → text_tokens t = [TText t].
Proof. intros H Hb. rewrite (proj2 (plain_ok t H)). unfold text_token. by rewrite Hb. Qed.

Lemma form_tokens_of : concat (tokens_of <$>
  [MkElement kElement (bs "form") {[bs "action" := bs "/todo"]} []
     [Input (bs "cmd") (bs "请输入命令：") []; SubmitButton (bs "执行")]; new_element (bs "hr") []]) = form_tokens.
Proof. vm_compute. reflexivity. Qed.

Lemma paragraph_tokens t : plain t → forallb is_space t = false →
  tokens_of (new_element (bs "p") t) = p_tokens [TText t].
Proof.
  intros Hp Hb. cbn [tokens_of new_element kind_ name_ attr_ text_ children_].
  rewrite plain_tokens by done. rewrite bool_decide_false; [done|]. by intros ->.
Qed.

Lemma page_body_tokens c items l : plain c → text_ok items →
  tokens_of (new_element (bs "p") items) = list_tokens l →
  tokens_of (page_body c items) = wrap (bs "body") [] (body_tokens c l).
Proof.
  intros Hc Hi Hl. unfold page_body, body_tokens. rewrite <-form_tokens_of, <-Hl.
  assert (plain (bs "CMD: " ++ c)) as Hp by (apply plain_app; [split; by_decide|done]).
  pose proof (paragraph_tokens (bs "CMD: " ++ c) Hp eq_refl) as Hcmd.
  pose proof (paragraph_tokens (bs "LIST:") ltac:(split; by_decide) eq_refl) as Hlist.
  case_bool_decide; cbn [tokens_of kind_ name_ attr_ text_ children_ app]; f_equal;
    rewrite ?fmap_cons, ?fmap_nil; rewrite ?Hcmd, Hlist; cbn [concat fmap list_fmap];
    rewrite ?app_nil_r, <-?app_assoc; done.
Qed.

Lemma page_read d c items l : title_ d = bs "My TODO" → body_ d = page_body c items → plain c → text_ok items →
  tokens_of (new_element (bs "p") items) = list_tokens l →
  read_page (document_Dump d) = Some (page_tokens c l).
Proof.
  intros Ht Hb Hc Hi Hl.
  assert (text_ok (bs "My TODO") ∧ text_tokens (bs "My TODO") = [TText (bs "My TODO")]) as [Hok Htok].
  { split; [by eexists|by vm_compute]. }
  rewrite (adds_read _ (document_tokens d)).
  - f_equal. unfold document_tokens, page_tokens. by rewrite Ht, Hb, Htok, (page_body_tokens c items l).
  - apply adds_document; [by rewrite Ht|]. rewrite Hb. by apply page_body_neat.
Qed.

(** ** The command *)

(** The command line of a request: UTF-8 without markup. *)
Definition typed (c : bytes) : Prop := plain c ∧ (NUL ∉ c) ∧ utf8_ok c = true ∧ fits c.

Lemma split_blank c : (" "%char ∉ c) ∨ ∃ w r, c = w ++ bs " " ++ r ∧ " "%char ∉ w.
Proof.
  destruct (split_first (is_char " "%char) c) as [H | (w & x & r & -> & Hw & Hx)].
  - left. by apply Forall_not_char.
  - right. apply is_char_true in Hx as ->. exists w, r. split; [done|]. by apply Forall_not_char.
Qed.

Lemma take4_word (w r k : bytes) : (" "%char ∉ w) → (" "%char ∉ k) → length k = 3%nat →
  take 4 (w ++ bs " " ++ r) = k ++ bs " " ↔ w = k.
Proof.
  intros Hw Hk Hl. split; [|intros ->].
  - intros H. destruct k as [|k1 [|k2 [|k3 []]]]; try discriminate Hl.
    destruct w as [|w1 [|w2 [|w3 [|w4 w]]]]; cbn in H; injection H; intros; subst; try done;
      exfalso; set_solver.
  - rewrite take_app_ge by lia. by rewrite Hl.
Qed.

Lemma web_command_blank w r : (" "%char ∉ w) →
  web_command (w ++ bs " " ++ r) =
    if bool_decide (w = bs "add") then Ret (Some (CAdd (until_nul (bs " " ++ r))))
    else if bool_decide (w = bs "del") then id ← stoi (bs " " ++ r); Ret (Some (CDelete id))
    else Ret None.
Proof.
  intros Hw. unfold web_command. change (bs "add ") with (bs "add" ++ bs " "). change (bs "del ") with (bs "del" ++ bs " ").
  assert (" "%char ∉ bs "add") as Ha by by_decide. assert (" "%char ∉ bs "del") as Hd by by_decide.
  rewrite (bool_decide_ext _ _ (take4_word w r _ Hw Ha eq_refl)).
  rewrite (bool_decide_ext _ _ (take4_word w r _ Hw Hd eq_refl)).
  case_bool_decide; [by subst w|]. case_bool_decide; [by subst w|done].
Qed.

Lemma web_command_no_blank c : (" "%char ∉ c) → web_command c = Ret None.
Proof.
  intros H. unfold web_command. rewrite !bool_decide_false; [done|..]; intros Ht; apply H;
    rewrite <-(take_drop 4 c), Ht; set_solver.
Qed.

Lemma utf8_suffix w r : utf8_ok w = true → utf8_ok (w ++ r) = true → utf8_ok r = true.
Proof. rewrite !utf8_ok_dfa. unfold dfa. intros Hw. by rewrite foldl_app, Hw. Qed.

Lemma plain_suffix w r : plain (w ++ r) → plain r.
Proof. unfold plain. rewrite !not_elem_of_app. tauto. Qed.

Section page.
Context {S : Type} (gettimeofday : S → (Z * Z) * S).
Context (repo : Repository (S := S)) (stores : S → entries → Prop).
Context {laws : RepositoryLaws gettimeofday repo stores}.

(** [DoCommand] is one command on the list, or none. *)
Lemma DoCommand_spec s l n c : stores s l → entries_ok n l → 0 <= n < INT_MAX → typed c →
  match web_command c with
  | Ret oc => ∃ s', DoCommand gettimeofday repo c s = Ret s' ∧ stores s' (web_list oc l)
  | Throw e => DoCommand gettimeofday repo c s = Throw e
  | _ => True
  end.
Proof.
  intros Hs Hl Hn (_ & Hnul & Hu & Hf). unfold DoCommand, str_find_char.
  destruct (split_blank c) as [Hb | (w & r & -> & Hw)].
  { rewrite web_command_no_blank by done. rewrite str_find_if_miss0 by by apply Forall_not_char.
    by exists s. }
  rewrite web_command_blank by done.
  assert (str_find_if (is_char " "%char) (w ++ bs " " ++ r) 0 = len w) as ->.
  { apply (str_find_if_hit0 _ w " "%char r); [by apply Forall_not_char|by apply is_char_true]. }
  autorewrite with len in Hf.
  rewrite (proj2 (Z.eqb_neq _ npos)) by (unfold npos; lia). unfold str_substr.
  rewrite !(proj2 (Z.ltb_ge _ _)) by len_lia. cbn [mbind outcome_bind].
  rewrite slice_app_l, slice_app_r by (unfold npos; len_lia).
  case_bool_decide as Ha; [|case_bool_decide as Hd; [|by exists s]].
  - subst w. apply utf8_suffix in Hu; [|done]. apply not_elem_of_app in Hnul as [_ Hnul].
    destruct (add_spec gettimeofday repo stores s l n (until_nul (bs " " ++ r))) as (o & s' & Hr & _ & Hs'); try done.
    { by rewrite until_nul_terminated. }
    exists s'. split; [|done]. cbn [run_command] in Hr. apply bind_Ret in Hr as ([[st o'] s''] & Hx & [= _ ->]).
    rewrite Hx. done.
  - destruct (stoi (bs " " ++ r)) as [id| | | |]; cbn [mbind outcome_bind]; try done.
    destruct (delete_spec gettimeofday repo stores s l n id) as (o & s' & Hr & _ & Hs'); try done.
    exists s'. split; [|done]. cbn [run_command] in Hr. apply bind_Ret in Hr as ([st s''] & Hx & [= _ ->]).
    by rewrite Hx.
Qed.

Lemma stoi_outcomes t : (∃ n, stoi t = Ret n) ∨ stoi t = Throw invalid_argument ∨ stoi t = Throw out_of_range.
Proof.
  unfold stoi, stoll. set (x := match skip_spaces t with [] => _ | _ => _ end). destruct x as [neg u].
  destruct (StdString.digits u) as [ds ?]. case_bool_decide; [by right; left|]. cbv zeta.
  destruct (_ || _); cbn [mbind outcome_bind]; [by right; right|].
  destruct (_ && _); [by left; eexists|by right; right].
Qed.

Lemma web_command_outcomes c : (∃ oc, web_command c = Ret oc) ∨
  (web_command c = Throw invalid_argument ∨ web_command c = Throw out_of_range) ∧ take 4 c = bs "del ".
Proof.
  unfold web_command. case_bool_decide; [by left; eexists|]. case_bool_decide; [|by left; eexists].
  destruct (stoi_outcomes (drop 3 c)) as [[n ->] | [-> | ->]]; cbn [mbind outcome_bind]; [by left; eexists|by right; auto..].
Qed.

(** The list and the texts of the page after a command are fit for it. *)
Lemma web_list_ok n l c oc : entries_ok n l → 0 <= n → typed c → web_command c = Ret oc →
  Forall (λ kv, plain kv.2) l →
  entries_ok (n + 1) (web_list oc l) ∧ Forall (λ kv, plain kv.2) (web_list oc l).
Proof.
  intros Hl Hn (Hp & Hnul & Hu & _) Hc Hf. destruct (split_blank c) as [Hb | (w & r & -> & Hw)].
  { rewrite web_command_no_blank in Hc by done. injection Hc as <-. split; [|done].
    eapply entries_weaken; [|exact Hl]; lia. }
  rewrite web_command_blank in Hc by done. case_bool_decide as Ha; [|case_bool_decide as Hd].
  - subst w. apply utf8_suffix in Hu; [|done]. apply plain_suffix in Hp.
    apply not_elem_of_app in Hnul as [_ Hnul]. rewrite until_nul_terminated in Hc by done.
    assert (oc = Some (CAdd (bs " " ++ r))) as -> by congruence. split; [by apply spec_ok|].
    cbn [web_list spec_command]. case_bool_decide; [done|]. by apply Forall_app_2; [|constructor].
  - apply bind_Ret in Hc as (id & _ & [= <-]). split; [by apply spec_ok|].
    cbn [web_list spec_command]. case_bool_decide; [|done]. 
    rewrite Forall_forall in *. intros kv [_ ?]%list_elem_of_filter. auto.
  - injection Hc as <-. split; [|done]. eapply entries_weaken; [|exact Hl]; lia.
Qed.

Lemma doc_spec d c s l n : stores s l → entries_ok n l → 0 <= n < INT_MAX → Forall (λ kv, plain kv.2) l →
  new_ui = Ret (Ui d []) →
  ∃ d' items s', doc repo (Ui d c) s = Ret (d', s') ∧ stores s' l ∧ title_ d' = bs "My TODO" ∧
    body_ d' = page_body c items ∧ text_ok items ∧
    tokens_of (new_element (bs "p") items) = list_tokens l.
Proof.
  intros Hs Hl Hn Hp Hd. destruct new_ui_built as (d0 & Hd0 & Ht & Hb). rewrite Hd in Hd0. injection Hd0 as <-.
  destruct (open_spec gettimeofday repo stores s l n Hs Hl Hn) as (dt & s1 & Ho & Hs1 & Hdt & _).
  rewrite <-Hdt, Forall_fmap in Hp. destruct (items_text (items_ dt) Hp) as [Hok Htok]. rewrite Hdt in Htok.
  destruct d as [t b]. cbn [title_ body_] in *. subst t b.
  unfold doc, web_do_list. rewrite Ho. cbn [cmd_ doc_]. unfold page_body.
  case_bool_decide; eexists _, _, s1; (split; [reflexivity|]); by split_and!.
Qed.

Lemma handler_spec s l n req : stores s l → entries_ok n l → 0 <= n < INT_MAX - 1 →
  Forall (λ kv, plain kv.2) l →
  let c := Param (Some (bs "cmd")) req in
  typed c →
  match web_command c with
  | Ret oc => ∃ page s',
      todo_handler gettimeofday repo req new_response s = Ret (WriteHtml ok page new_response, s') ∧
      stores s' (web_list oc l) ∧ read_page page = Some (page_tokens c (web_list oc l))
  | Throw e => todo_handler gettimeofday repo req new_response s = Throw e
  | _ => True
  end.
Proof.
  intros Hs Hl Hn Hp c Hc. destruct new_ui_built as (d & Hd & _ & _).
  unfold todo_handler. rewrite Hd. cbn [mbind outcome_bind]. cbv zeta. fold c.
  pose proof (DoCommand_spec s l n c Hs Hl ltac:(lia) Hc) as Hcmd.
  destruct (web_command c) as [oc|e| | |] eqn:Ec; try done.
  - destruct Hcmd as (s1 & Hcmd & Hs1).
    destruct (web_list_ok n l c oc Hl ltac:(lia) Hc Ec Hp) as [Hl1 Hp1].
    destruct (doc_spec d c s1 _ (n + 1) Hs1 Hl1 ltac:(lia) Hp1 Hd)
      as (d' & items & s2 & Hdoc & Hs2 & Ht & Hb & Hok & Htok).
    exists (document_Dump d'), s2.
    split; [|split; [done|]].
    + case_bool_decide as Hnil; cbn [mbind outcome_bind].
      * assert (DoCommand gettimeofday repo [] s = Ret s) as H0 by done. rewrite Hnil, H0 in Hcmd.
        injection Hcmd as <-. rewrite Hnil in Hdoc. by rewrite Hdoc.
      * rewrite Hcmd. cbn [mbind outcome_bind]. unfold set_cmd. cbn [doc_]. by rewrite Hdoc.
    + apply (page_read d' c items); try done. apply Hc.
  - case_bool_decide as Hnil; [by rewrite Hnil in Ec|]. cbn [mbind outcome_bind]. by rewrite Hcmd.
Qed.

End page.

(** * Properties *)

(** C14: the page of the todo list.  A request for "/todo" whose "cmd" is UTF-8
    without markup runs that command, or none, on the list, and the page that
    answers it reads as the form, the command and the items of the list it left;
    the page of an empty list leaves its last paragraph open.  "del" with something
    that is not an int throws out of the handler, and no other command does.  Other
    paths are not found. *)
Theorem todo_page {S : Type} (gettimeofday : S → (Z * Z) * S) (repo : Repository (S := S))
    (stores : S → entries → Prop) {laws : RepositoryLaws gettimeofday repo stores}
    (s : S) (l : entries) (n : Z) (req : Request) :
  stores s l → entries_ok n l → 0 <= n < INT_MAX - 1 → Forall (λ kv, plain kv.2) l →
  let c := Param (Some (bs "cmd")) req in
  typed c →
  ∃ mux, main_mux = Ret mux ∧
    (req_path req ≠ bs "/todo" →
       ServeHttp (call_todo gettimeofday repo s) mux req new_response
       = Ret (req, WriteText not_found (bs "Not found") new_response)) ∧
    (req_path req = bs "/todo" →
       match web_command c with
       | Ret oc => ∃ page s',
           todo_handler gettimeofday repo req new_response s = Ret (WriteHtml ok page new_response, s') ∧
           ServeHttp (call_todo gettimeofday repo s) mux req new_response
           = Ret (req, WriteHtml ok page new_response) ∧
           stores s' (web_list oc l) ∧ read_page page = Some (page_tokens c (web_list oc l))
       | Throw e => (e = invalid_argument ∨ e = out_of_range) ∧ take 4 c = bs "del " ∧
           todo_handler gettimeofday repo req new_response s = Throw e
       | _ => False
       end).
Proof.
  intros Hs Hl Hn Hp c Hc.
  eexists. split; [reflexivity|]. split.
  { intros Hne. unfold ServeHttp, serve_prefix. cbn [funcs_ prefix_funcs_]. by rewrite lookup_insert_ne. }
  intros Heq. unfold ServeHttp. cbn [funcs_]. rewrite Heq, lookup_insert_eq. cbn [fn].
  pose proof (handler_spec gettimeofday repo stores s l n req Hs Hl Hn Hp Hc) as Hh. cbn zeta in Hh. fold c in Hh.
  destruct (web_command c) as [oc|e| | |] eqn:Ec.
  - destruct Hh as (page & s' & Hh & Hs' & Hr). exists page, s'. unfold call_todo. rewrite Hh. by split_and!.
  - destruct (web_command_outcomes c) as [[oc H]|[H Ht]]; rewrite Ec in H; [done|].
    split_and!; [|done..]. by destruct H as [H|H]; injection H as ->; [left|right].
  - by destruct (web_command_outcomes c) as [[oc H]|[[H|H] Ht]]; rewrite Ec in *.
  - by destruct (web_command_outcomes c) as [[oc H]|[[H|H] Ht]]; rewrite Ec in *.
  - by destruct (web_command_outcomes c) as [[oc H]|[[H|H] Ht]]; rewrite Ec in *.
Qed.

Definition add_request : Request :=
  Req (bs "GET") (bs "/todo?cmd=add milk") None None [] [] (bs "/todo") []
    (FormData.Form {[bs "cmd" := bs "add milk"]}) [] (Url.MkUrl [] [] [] []).

Lemma noon_laws : file_laws noon (bs "/tmp/todo-data.json").
Proof.
  split; [|intros s; repeat split; lia]. intros c s. eexists. split; [reflexivity|]. apply lookup_insert_eq.
Qed.

Lemma todo_page_witness :
  let file := bs "/tmp/todo-data.json" in
  ∃ mux page, main_mux = Ret mux ∧
    ServeHttp (call_todo noon (CreateFileRepository noon (λ _, []) file) ∅) mux add_request new_response
    = Ret (add_request, WriteHtml ok page new_response) ∧
    read_page page = Some (page_tokens (bs "add milk") [(1, bs " milk")]).
Proof.
  intros file.
  pose proof (file_repository_laws noon (λ _, []) file noon_laws ltac:(discriminate)) as Hrepo.
  destruct (todo_page noon (CreateFileRepository noon (λ _, []) file) (file_stores file) (laws := Hrepo)
              ∅ [] 0 add_request) as (mux & Hm & _ & H).
  - by vm_compute.
  - split; constructor.
  - done.
  - constructor.
  - split_and!; [split; by_decide|by_decide|by vm_compute|by_decide].
  - destruct (H eq_refl) as (page & s' & _ & Hp & _ & Hr). by exists mux, page.
Defined.
